(* ===== verification/_CoqProject ===== *)
-Q . S2P
Prelude.v
TextChange.v
Bytes.v
JsValue.v
Protocol.v
Timers.v
PresenceStore.v
PresenceActivity.v
Locks.v
Journal.v
EsbtDocument.v
EngineState.v
Engine.v
EngineSafety.v
EngineLedger.v
EngineDemo.v
EngineOpening.v
EditorText.v
EditorBridge.v
EditorMirror.v
EditorDemo.v
Int32.v
StoredZip.v
Qr.v
Regex.v
EsbtRuntime.v
PresenceView.v
SourceBlocks.v
EditorLines.v
EditorCommands.v
EditorTables.v
EditorLists.v
EditorContext.v
WorkerSupervisor.v
PreviewDom.v
Hoare.v
MarkdownWorker.v
Preview.v
PreviewChannel.v
PreviewPipeline.v
Commands.v
JsonText.v
JsonPrint.v
WebStorage.v
LocalWorkspace.v
CreateRequest.v
AuthProtocol.v
ReviewStore.v
Caller.v
AgentStream.v
HostedRun.v
