(* ===== verification/Prelude.v ===== *)
(** * Marks: a verification development of the collaborative Markdown editor

    Marks is a browser client (TypeScript, [client/src]) around a replicated
    document: a WebAssembly CRDT component holds the text, a journal in
    IndexedDB keeps the user's edits until they are acknowledged, a socket
    carries them to a room of other replicas, a CodeMirror editor shows the
    text, and a worker renders it block by block into a preview. This
    development models that core as functions and step relations, close
    enough to the code that each definition names the lines it translates,
    and proves what makes it correct.

    ** Parts, files and sources

    Shared: [Prelude] (exceptions and results, records with assignable fields,
    UTF-16 strings and byte arrays as lists of integers, slices, the
    insertion-ordered Map, automation), [Bytes] (DataView, base64, UTF-8),
    [JsValue] (dynamic values), [Int32] (32-bit operators), [Timers]
    (setTimeout), [Hoare] (triples over the state-and-exception monad), [Regex]
    (the backtracking matcher of the language).

    - Text and handshake: [TextChange] models [text/change.ts] and
      [markdown/worker-state.ts].
    - Wire protocol: [Protocol] models [collab/protocol.ts].
    - Presence: [PresenceStore] models [collab/presence-store.ts],
      [PresenceActivity] [collab/presence-activity-controller.ts]; the block a
      position is in ([collab/presence-location.ts]) is in [SourceBlocks].
    - Locks: [Locks] models [browser/persist-lock.ts] and the deadline of
      [browser/network.ts].
    - Journal: [Journal] models [collab/journal.ts] over a key/value store;
      its updates run under the lock of [Locks].
    - Document: [EsbtDocument] models [collab/wasm/esbt-document.ts] and
      [collab/wasm/index.ts]; the generated WebAssembly component is the
      typeclass [Component] of its published interface. [EsbtRuntime] models how
      that component is loaded, verified and shared.
    - Presence on screen: [PresenceView] models [collab/presence-position.ts],
      the publication of [collab/presence.ts] and the list of peers.
    - Collaboration engine: [EngineState] (fields and page), [Engine] (the
      methods of [collab/esbt-engine.ts], what an await suspends being a
      request and a resumption), [EngineSafety] and [EngineLedger] (its
      theorems), [EngineDemo] (concrete runs), [EngineOpening] (the built-in
      introduction and its cached replica).
    - Editor bridge: [EditorText], [EditorBridge], [EditorMirror],
      [EditorDemo] model the editor half of [collab/esbt-engine.ts] and the
      chunking of [collab/profile.ts].
    - Preview: [SourceBlocks] ([markdown/blocks.ts], [incremental.ts],
      [tasks.ts]), [WorkerSupervisor] ([worker-supervisor.ts],
      [serial-dispatch.ts]), [PreviewDom] and [Preview]
      ([markdown/preview.ts]), [MarkdownWorker]
      ([workers/markdown.worker.ts]), [PreviewChannel], the page and its workers
      over their two channels, and [PreviewPipeline], what is then on screen:
      [rendering] and [displays] say what a preview of a text is.
    - Portable bundle: [StoredZip] models [lib/stored-zip.ts].
    - Commands: [Commands] models [commands/runtime.ts] and the admission rules
      of [commands/projection.ts] and [commands/types.ts].
    - Hosted agent: [AgentStream] models the event stream of
      [agent/gateway.ts] over the executable [JSON.parse] of [JsonText], and
      [HostedRun] the record of a run ([agent/run-store.ts]), the consequence of
      a command ([agent/catalog.ts]) and the handler of a run's events
      ([components/agent/AgentPill.tsx]) over reloads of the page.
    - Editing: [EditorLines], [EditorCommands], [EditorTables] and [EditorLists]
      model [editor/commands.ts] (formatting, lines, tables, lists), the table
      of [commands/executor.ts] and [isPlainUrl] of [browser/clipboard.ts], over
      CodeMirror's document as the class [EditorLines.Text] with its laws;
      [EditorContext] models [editor/context.ts] and the image and format edits
      of [editor/actions.ts].
    - Local documents: [LocalWorkspace] models [demo/workspace.ts] over the
      interface [WebStorage.Storage] of localStorage, whose calls may throw;
      [JsonPrint] is [JSON.stringify], proved inverse to the [JSON.parse] of
      [JsonText].
    - Pairing code: [Qr] models the matrix code of [lib/qr.ts].
    - Create requests: [CreateRequest] models [browser/create-request.ts], the
      identity a creation keeps until the server confirms it, over the same
      interface of the storage.
    - Signed statements: [AuthProtocol] models [auth/protocol.ts], the bytes a
      device signs (one instance of the class [Signed] for each kind) and the
      pairing link.
    - Comments and versions: [ReviewStore] models the local repository of
      [data/review.ts] over the stores of its database, each transaction one
      step.
    - The caller: [Caller] models [auth/caller.ts], [scratch.ts] and
      [session-cache.ts]: the probes that find who the client acts as, as steps
      that may overlap, over two storages that may refuse any call; [Hoare]
      carries the proofs.
    ** How the parts interact

    An edit made in the editor is forwarded by the bridge as one transaction of
    the document, whose outbound update the engine appends to the journal and,
    once the append is durable, sends; a receipt retires it from the journal.
    Remote updates enter the document through the engine, whose notices the
    bridge patches into the editor and the preview sends to its worker as
    validated edits against a known version. Interfaces between parts are
    typeclasses: [EsbtDocument.Component] (what the document promises, used by
    the engine and the bridge), [EngineState.Presence] (what the engine needs
    from presence, implemented by [PresenceStore]), [PresenceStore.JSON].

    ** What the theorems show

    - No edit is lost: [Journal.pending_edit_survives],
      [EngineLedger.durable_means_acknowledged],
      [Journal.journal_operation_refines].
    - Views agree with the text: [EsbtDocument.notices_mirror_text],
      [EditorMirror.editor_shows_replica],
      [PreviewPipeline.preview_shows_source_at_rest], [preview_settles],
      [SourceBlocks.source_blocks_exact], [PreviewPipeline.rendering_shown].
    - Failure is contained: [EngineSafety] (a stopped engine stays stopped,
      refusals and storage failures stop it), [EditorMirror.transact_atomic],
      [WorkerSupervisor.supervisor_gives_up], [Preview.preview_never_stuck].
    - Authority: [PresenceStore.foreign_presence_protected],
      [Commands.agent_commands_are_approved], [every_run_is_reported],
      [EsbtRuntime.only_declared_modules_compile],
      [PresenceView.remote_carets_sound].
    - Codecs: the round trips of [Protocol], [PresenceStore], [Journal],
      [StoredZip] and [EsbtDocument].
    - Nothing runs twice: [HostedRun.launched_at_most_once] over reloads,
      [AgentStream.no_event_twice] over connections; and a run is read whole,
      [AgentStream.run_follows_record], [any_cut_completes]. A creation retried
      keeps its identity and an identity names one request:
      [CreateRequest.requests_refine], [identity_names_one_request].
    - Saves are serial: [Locks.persist_lock_excludes] and the two theorems after
      it.
    - Editing commands: [EditorCommands.line_commands_rewrite] gives the text
      after every line command, [outdent_undoes_indent] and [toggle_wrap_twice]
      undo, [EditorTables.table_grows] and [EditorLists.enter_continues_then_ends]
      the effect on tables and lists, [EditorContext.image_edits_are_exact] that
      a picture is only written over itself.
    - Local documents: [LocalWorkspace.workspace_refines] (the dynamic values
      and the JSON behave as lists of typed entries) and
      [LocalWorkspace.documents_are_kept] (nothing is lost before its thirty
      days in the trash).
    - Matrix code: [Qr.qr_reads_back] for the modules; the format information
      is drawn in reverse, which is [Qr.format_is_reversed].
    - Signatures: [AuthProtocol.signed_bytes_name_statement] (canonical bytes
      determine the statement, across the four kinds),
      [pairing_link_roundtrip].
    - Comments and versions: [ReviewStore.accounts_are_exact],
      [pages_list_every_comment].
    - The caller: [Caller.active_caller_is_earned], and [one_probe_at_a_time]
      while no call forces a probe; what happens when they overlap is in the
      examples at the end of the file.
    ** Conventions, bounds and fuel

    A function that can throw returns [res]; a method that mutates and can
    throw is in [SE], so the state survives the exception. JavaScript numbers
    that the code uses as integers are [Z] with the safe-integer tests of the
    code written out; 32-bit operators wrap as in [Int32]. Fuel appears only
    where the code's recursion is not structural, is computed from the input
    (the length of a text, the number of queued items) and is shown to be
    enough by the theorem that uses it; no theorem is conditional on it.
    Promises are explicit: what a function awaits is an event of a step
    relation, so every interleaving the event loop allows is covered.

    ** Not modelled

    React components and hooks ([App.tsx], [components], [pages], [hooks]),
    CSS, the WebGPU surface, icon and design-system code, benchmarks and
    scripts: presentation, build and test code without state the text depends
    on. The generated WebAssembly glue and the Rust crates (the server and the
    component) are other languages or generated: they are interfaces here.
    markdown-it, CodeMirror, DOMPurify, mermaid, IndexedDB, fetch and
    WebSocket are the environment: arguments, or events of the step relations.
    Account requests ([auth/identity.ts]) and the document REST calls
    ([lib/api.ts], the service halves of [data]) are request shapes around a
    server not modelled here. What a modelled part leaves out is said in its file. *)

From stdpp Require Export base numbers list strings gmap.
From Stdlib Require Export ZArith Lia.

#[global] Open Scope Z_scope.

(** ** Exceptions and results

    A TypeScript function that can throw returns a [res]: either the value or
    the exception, kept as its class and its message. *)

Inductive exn_class := RangeError | TypeError | SyntaxError | PlainError | EsbtError (code : Z).

Record exn := Exn { exn_kind : exn_class; exn_msg : string }.

Inductive res (A : Type) : Type :=
| Ok (a : A)
| Throw (e : exn).
Arguments Ok {A} a.
Arguments Throw {A} e.

Definition is_Ok {A} (r : res A) : bool :=
  match r with Ok _ => true | Throw _ => false end.

#[global] Instance res_ret : MRet res := fun A a => Ok a.
#[global] Instance res_bind : MBind res := fun A B f r =>
  match r with Ok a => f a | Throw e => Throw e end.

Definition range_error {A} (m : string) : res A := Throw (Exn RangeError m).
Definition type_error {A} (m : string) : res A := Throw (Exn TypeError m).
Definition plain_error {A} (m : string) : res A := Throw (Exn PlainError m).

#[global] Instance exn_class_eq_dec : EqDecision exn_class.
Proof. solve_decision. Defined.

Lemma res_bind_Ok {A B} (r : res A) (f : A -> res B) b :
  (r ≫= f) = Ok b <-> exists a, r = Ok a /\ f a = Ok b.
Proof.
  destruct r; simpl; split; intros H; eauto.
  - destruct H as (a' & Ha & Hb). congruence.
  - discriminate.
  - destruct H as (a' & Ha & _). discriminate.
Qed.

Lemma is_Ok_alt {A} (r : res A) : is_Ok r = true <-> exists a, r = Ok a.
Proof.
  destruct r; simpl; split; intros H; eauto; try done.
  destruct H; discriminate.
Qed.

(** Methods that mutate their object and can throw: the state survives the
    exception, as the object does. *)
Definition SE (S A : Type) : Type := S -> S * res A.

#[global] Instance SE_ret {S} : MRet (SE S) := fun A a s => (s, Ok a).
#[global] Instance SE_bind {S} : MBind (SE S) := fun A B f m s =>
  match m s with (s', Ok a) => f a s' | (s', Throw e) => (s', Throw e) end.

Definition se_get {S} : SE S S := fun s => (s, Ok s).
Definition se_modify {S} (f : S -> S) : SE S unit := fun s => (f s, Ok tt).
Definition se_throw {S A} (e : exn) : SE S A := fun s => (s, Throw e).
Definition se_lift {S A} (r : res A) : SE S A := fun s => (s, r).
Definition se_catch {S A} (m : SE S A) (h : exn -> SE S A) : SE S A := fun s =>
  match m s with (s', Ok a) => (s', Ok a) | (s', Throw e) => h e s' end.

(** ** Assigning one field of a record

    [s <| f := v |>] is the object [s] after [s.f = v]. A record declares its
    eta expansion once; the setter of each field is derived from it. *)
Class Eta (R : Type) := eta_expand : R -> R.

Class SetField {R T : Type} (proj : R -> T) := { set_field : (T -> T) -> R -> R }.

Ltac solve_update :=
  lazymatch goal with
  | |- @SetField ?R ?T ?proj =>
      let e := constr:(@eta_expand R _) in
      let e := eval hnf in e in
      lazymatch (eval pattern proj in e) with
      | ?F proj => exact (Build_SetField R T proj (fun g r => F (fun r' => g (proj r')) r))
      end
  end.


Notation "s <| f := v |>" := (@set_field _ _ f _ (fun _ => v) s)
  (at level 1, f at next level, left associativity).

(** ** UTF-16 strings, byte arrays and JavaScript slices

    A JavaScript string is its sequence of UTF-16 code units, a [Uint8Array]
    its sequence of bytes; both are [list Z]. *)

Abbreviation jstring := (list Z).
Abbreviation bytes := (list Z).

(** An ASCII literal of the source as code units. *)
Definition lit (s : string) : jstring :=
  map (fun a => Z.of_nat (Ascii.nat_of_ascii a)) (String.list_ascii_of_string s).

Definition len {A} (l : list A) : Z := Z.of_nat (length l).

Definition byteb (b : Z) : bool := (0 <=? b) && (b <? 256).
Definition is_byte (b : Z) : Prop := 0 <= b < 256.
Definition is_unit (u : Z) : Prop := 0 <= u < 65536.

(** [String.prototype.slice] / [Array.prototype.slice]: a negative index counts
    from the end, every index is clamped to the length. *)
Definition rel_index (n i : Z) : Z :=
  if i <? 0 then Z.max (n + i) 0 else Z.min i n.

Definition slice {A} (l : list A) (i j : Z) : list A :=
  let a := rel_index (len l) i in
  let b := rel_index (len l) j in
  take (Z.to_nat (b - a)) (drop (Z.to_nat a) l).

Definition slice_from {A} (l : list A) (i : Z) : list A := slice l i (len l).

(** [l.at(i)] for an index that may be out of range (then [undefined]). *)
Definition at_index {A} (l : list A) (i : Z) : option A :=
  if i <? 0 then None else l !! Z.to_nat i.

Lemma lit_units s : Forall is_unit (lit s).
Proof.
  unfold lit. apply Forall_map, Forall_true. intros a. unfold is_unit.
  pose proof (Ascii.nat_ascii_bounded a). lia.
Qed.

Lemma len_nonneg {A} (l : list A) : 0 <= len l.
Proof. unfold len. lia. Qed.

Lemma len_nil {A} : len (@nil A) = 0.
Proof. done. Qed.

Lemma len_cons {A} (x : A) l : len (x :: l) = 1 + len l.
Proof. unfold len. simpl. lia. Qed.

Lemma len_app {A} (l k : list A) : len (l ++ k) = len l + len k.
Proof. unfold len. rewrite length_app. lia. Qed.

Lemma len_map {A B} (f : A -> B) l : len (map f l) = len l.
Proof. unfold len. by rewrite length_map. Qed.

Lemma len_replicate {A} n (x : A) : 0 <= n -> len (replicate (Z.to_nat n) x) = n.
Proof. intros. unfold len. rewrite length_replicate. lia. Qed.

Lemma len_zero_nil {A} (l : list A) : len l = 0 <-> l = [].
Proof. unfold len. destruct l; simpl; split; intros; try done; lia. Qed.

Lemma rel_index_in n i : 0 <= i <= n -> rel_index n i = i.
Proof. intros. unfold rel_index. destruct (Z.ltb_spec i 0); lia. Qed.

Lemma rel_index_bounds n i : 0 <= n -> 0 <= rel_index n i <= n.
Proof. intros. unfold rel_index. destruct (Z.ltb_spec i 0); lia. Qed.

Lemma slice_in {A} (l : list A) i j :
  0 <= i <= len l -> 0 <= j <= len l ->
  slice l i j = take (Z.to_nat (j - i)) (drop (Z.to_nat i) l).
Proof. intros. unfold slice. by rewrite !rel_index_in. Qed.

Lemma slice_0 {A} (l : list A) j :
  0 <= j <= len l -> slice l 0 j = take (Z.to_nat j) l.
Proof.
  intros. rewrite slice_in by (pose proof (len_nonneg l); lia).
  simpl. f_equal. f_equal. lia.
Qed.

Lemma slice_from_in {A} (l : list A) i :
  0 <= i <= len l -> slice_from l i = drop (Z.to_nat i) l.
Proof.
  intros. unfold slice_from. rewrite slice_in by lia.
  apply take_ge. rewrite length_drop. unfold len in *. lia.
Qed.

Lemma slice_full {A} (l : list A) : slice l 0 (len l) = l.
Proof.
  rewrite slice_0 by (pose proof (len_nonneg l); lia).
  apply take_ge. unfold len. lia.
Qed.

Lemma len_slice {A} (l : list A) i j :
  0 <= i <= j -> j <= len l -> len (slice l i j) = j - i.
Proof.
  intros. rewrite slice_in by lia. unfold len in *.
  rewrite length_take, length_drop. lia.
Qed.

Lemma len_slice_from {A} (l : list A) i :
  0 <= i <= len l -> len (slice_from l i) = len l - i.
Proof. intros. unfold slice_from. apply len_slice; lia. Qed.

Lemma slice_split {A} (l : list A) i j k :
  0 <= i <= j -> j <= k -> k <= len l ->
  slice l i k = slice l i j ++ slice l j k.
Proof.
  intros. rewrite !slice_in by lia.
  replace (Z.to_nat (k - i)) with (Z.to_nat (j - i) + Z.to_nat (k - j))%nat by lia.
  rewrite <- take_take_drop. f_equal. rewrite drop_drop. do 2 f_equal. lia.
Qed.

Lemma slice_parts {A} (l : list A) i :
  0 <= i <= len l -> slice l 0 i ++ slice_from l i = l.
Proof.
  intros. rewrite slice_0 by lia. rewrite slice_from_in by lia. apply take_drop.
Qed.

Lemma at_index_lookup {A} (l : list A) i : 0 <= i -> at_index l i = l !! Z.to_nat i.
Proof. intros. unfold at_index. destruct (Z.ltb_spec i 0); [lia | done]. Qed.

Lemma at_index_Some {A} (l : list A) i x :
  at_index l i = Some x -> 0 <= i < len l.
Proof.
  unfold at_index. destruct (Z.ltb_spec i 0); [done |].
  intros H1%lookup_lt_Some. unfold len. lia.
Qed.

(** Comparing strings, byte arrays and tokens by value. *)
Definition str_eqb (a b : list Z) : bool := bool_decide (a = b).

Lemma str_eqb_eq a b : str_eqb a b = true <-> a = b.
Proof. unfold str_eqb. apply bool_decide_eq_true. Qed.

Lemma str_eqb_refl a : str_eqb a a = true.
Proof. by apply str_eqb_eq. Qed.

Lemma str_eqb_neq a b : a <> b -> str_eqb a b = false.
Proof. intros. unfold str_eqb. by apply bool_decide_eq_false. Qed.

(** [str.split(sep)] for a one-unit separator: always at least one piece. *)
Fixpoint split_on (c : Z) (s : jstring) : list jstring :=
  match s with
  | [] => [[]]
  | x :: r =>
      if x =? c then [] :: split_on c r
      else match split_on c r with
           | [] => [[x]]
           | p :: ps => (x :: p) :: ps
           end
  end.

(** [pieces.join(sep)]. *)
Fixpoint join (sep : jstring) (ps : list jstring) : jstring :=
  match ps with
  | [] => []
  | [p] => p
  | p :: rest => p ++ sep ++ join sep rest
  end.

Lemma split_on_nonempty c s : split_on c s <> [].
Proof. destruct s as [|x r]; simpl; [done |]. destruct (x =? c), (split_on c r); done. Qed.

Lemma join_cons sep p ps : ps <> [] -> join sep (p :: ps) = p ++ sep ++ join sep ps.
Proof. destruct ps; done. Qed.

Lemma join_split_on c s : join [c] (split_on c s) = s.
Proof.
  induction s as [|x r IH]; [done |]. simpl.
  pose proof (split_on_nonempty c r) as Hne.
  destruct (Z.eqb_spec x c) as [-> | _].
  - rewrite join_cons by done. by rewrite IH.
  - destruct (split_on c r) as [|p ps] eqn:E; [done |].
    destruct ps as [|q qs]; simpl in *; by rewrite <- IH.
Qed.

Lemma split_on_pieces c s : Forall (fun p => c ∉ p) (split_on c s).
Proof.
  assert (Hx : forall x p, x <> c -> c ∉ p -> c ∉ x :: p).
  { intros x p ? Hp [-> | ?]%elem_of_cons; done. }
  induction s as [|x r IH]; simpl; [by repeat constructor; apply not_elem_of_nil |].
  destruct (Z.eqb_spec x c); [constructor; [apply not_elem_of_nil | done] |].
  destruct (split_on c r) as [|p ps].
  - repeat constructor. apply Hx; [done | apply not_elem_of_nil].
  - apply Forall_cons in IH as [? ?]. constructor; [by apply Hx | done].
Qed.

Lemma split_on_app c p s : c ∉ p ->
  split_on c (p ++ c :: s) = p :: split_on c s.
Proof.
  induction p as [|x p IH]; simpl; intros Hp; [by rewrite Z.eqb_refl |].
  apply not_elem_of_cons in Hp as [Hx Hp]. rewrite (proj2 (Z.eqb_neq x c)) by done. by rewrite IH.
Qed.

Lemma split_on_single c p : c ∉ p -> split_on c p = [p].
Proof.
  induction p as [|x p IH]; simpl; intros Hp; [done |].
  apply not_elem_of_cons in Hp as [Hx Hp]. rewrite (proj2 (Z.eqb_neq x c)) by done. by rewrite IH.
Qed.

Lemma split_on_join c ps : ps <> [] -> Forall (fun p => c ∉ p) ps -> split_on c (join [c] ps) = ps.
Proof.
  intros Hne. induction ps as [|p ps IH]; [done |]. intros [Hp Hps]%Forall_cons.
  destruct ps as [|q qs]; [by apply split_on_single |].
  rewrite join_cons by done. cbn [app]. rewrite split_on_app by done. by rewrite IH.
Qed.

(** ** The insertion-ordered [Map] of JavaScript

    [set] keeps the position of an existing key and appends a new one;
    [for ... of] visits the entries in that order. *)
Section JsMap.
Context {K V : Type} `{EqDecision K}.
Implicit Types (m : list (K * V)) (k : K) (v : V).

Fixpoint mget m k : option V :=
  match m with
  | [] => None
  | (k', v) :: r => if decide (k' = k) then Some v else mget r k
  end.

Fixpoint mset m k v : list (K * V) :=
  match m with
  | [] => [(k, v)]
  | (k', v') :: r => if decide (k' = k) then (k', v) :: r else (k', v') :: mset r k v
  end.

Fixpoint mdel m k : list (K * V) :=
  match m with
  | [] => []
  | (k', v') :: r => if decide (k' = k) then mdel r k else (k', v') :: mdel r k
  end.

Definition mhas m k : bool := match mget m k with Some _ => true | None => false end.

Lemma mget_mset_eq m k v : mget (mset m k v) k = Some v.
Proof.
  induction m as [|[k' v'] r IH]; simpl.
  - by rewrite decide_True.
  - destruct (decide (k' = k)) as [-> | Hne]; simpl.
    + by rewrite decide_True.
    + by rewrite decide_False.
Qed.

Lemma mget_mset_ne m k k' v : k <> k' -> mget (mset m k v) k' = mget m k'.
Proof.
  intros Hne. induction m as [|[k2 v2] r IH]; simpl.
  - by rewrite decide_False.
  - destruct (decide (k2 = k)) as [-> | Hne2]; simpl.
    + by rewrite !decide_False.
    + destruct (decide (k2 = k')); done.
Qed.

Lemma mget_mdel_eq m k : mget (mdel m k) k = None.
Proof.
  induction m as [|[k' v'] r IH]; simpl; [done |].
  destruct (decide (k' = k)) as [-> | Hne]; [done |]. simpl. by rewrite decide_False.
Qed.

Lemma mget_mdel_ne m k k' : k <> k' -> mget (mdel m k) k' = mget m k'.
Proof.
  intros Hne. induction m as [|[k2 v2] r IH]; simpl; [done |].
  destruct (decide (k2 = k)) as [-> | Hne2].
  - by rewrite decide_False.
  - simpl. destruct (decide (k2 = k')); done.
Qed.

Lemma mset_keys_old m k v :
  is_Some (mget m k) -> (mset m k v).*1 = m.*1.
Proof.
  induction m as [|[k' v'] r IH]; csimpl.
  - intros [? H]. done.
  - destruct (decide (k' = k)); csimpl; [done |]. intros H. f_equal. by apply IH.
Qed.

Lemma mset_new m k v : mget m k = None -> mset m k v = m ++ [(k, v)].
Proof.
  induction m as [|[k' v'] r IH]; csimpl; [done |].
  destruct (decide (k' = k)); [done |]. intros. by rewrite IH.
Qed.

Lemma mget_None_keys m k : mget m k = None <-> k ∉ m.*1.
Proof.
  induction m as [|[k' v'] r IH]; csimpl.
  { split; [intros _; apply not_elem_of_nil | done]. }
  rewrite not_elem_of_cons. destruct (decide (k' = k)) as [-> | Hne].
  - split; [done | by intros [? _]].
  - rewrite IH. split; [intros; by split | by intros [_ ?]].
Qed.

Lemma mset_NoDup m k v : NoDup m.*1 -> NoDup (mset m k v).*1.
Proof.
  intros Hnd. destruct (mget m k) eqn:E.
  - by rewrite mset_keys_old by eauto.
  - rewrite mset_new by done. rewrite fmap_app. apply NoDup_app.
    split_and!; [done | | apply (NoDup_singleton k)].
    apply mget_None_keys in E. csimpl. intros x Hx ->%list_elem_of_singleton. done.
Qed.

Lemma mdel_keys m k : (mdel m k).*1 = filter (fun x => x <> k) m.*1.
Proof.
  induction m as [|[k' v'] r IH]; csimpl; [done |].
  rewrite filter_cons. destruct (decide (k' = k)) as [-> | Hne].
  - rewrite decide_False by (intros Hn; by apply Hn). exact IH.
  - rewrite decide_True by done. csimpl. by rewrite IH.
Qed.

Lemma mdel_NoDup m k : NoDup m.*1 -> NoDup (mdel m k).*1.
Proof. intros. rewrite mdel_keys. by apply NoDup_filter. Qed.

Lemma mdel_absent m k : mget m k = None -> mdel m k = m.
Proof.
  induction m as [|[k' v'] r IH]; csimpl; [done |].
  destruct (decide (k' = k)); [done |]. intros. by rewrite IH.
Qed.

Lemma mget_In m k v : NoDup m.*1 -> mget m k = Some v <-> (k, v) ∈ m.
Proof.
  induction m as [|[k' v'] r IH]; csimpl; intros Hnd.
  - split; [done |]. intros H. by apply not_elem_of_nil in H.
  - apply NoDup_cons in Hnd as [Hni Hnd]. specialize (IH Hnd).
    rewrite elem_of_cons. destruct (decide (k' = k)) as [-> | Hne].
    + split; [intros [= ->]; by left |].
      intros [[= ->] | Hin]; [done |].
      destruct Hni. apply list_elem_of_fmap. by exists (k, v).
    + rewrite IH. split; [by right |]. intros [[= ??] | ?]; congruence.
Qed.

Lemma mset_size_new m k v : mget m k = None -> len (mset m k v) = len m + 1.
Proof. intros. rewrite mset_new by done. rewrite len_app. done. Qed.

Lemma mset_size_old m k v : is_Some (mget m k) -> len (mset m k v) = len m.
Proof.
  intros H. pose proof (mset_keys_old m k v H) as E.
  apply (f_equal length) in E. rewrite !length_fmap in E. unfold len. lia.
Qed.
End JsMap.

Create HintDb marks.
Create Rewrite HintDb marks.
#[export] Hint Rewrite @len_nil @len_cons @len_app @len_map : marks.
#[export] Hint Resolve len_nonneg : marks.

(** Normalises lengths, then closes the linear goal. *)
Ltac len_lia :=
  autorewrite with marks in *;
  repeat match goal with
    | |- context [len ?l] => lazymatch goal with
        | _ : 0 <= len l |- _ => fail
        | _ => pose proof (len_nonneg l) end
    end;
  try lia.

(** Cases on every [if] over an integer comparison in the goal. *)
Ltac zcases :=
  repeat match goal with
    | |- context [?a <? ?b] => destruct (Z.ltb_spec a b)
    | |- context [?a <=? ?b] => destruct (Z.leb_spec a b)
    | |- context [?a =? ?b] => destruct (Z.eqb_spec a b)
    end.

(** Decides every integer comparison of the goal that the hypotheses settle and
    splits on the others. *)
Ltac no_if t :=
  lazymatch t with context [if _ then _ else _] => fail | _ => idtac end.
Ltac zdecide_one :=
  match goal with
  | |- context [?a <? ?b] =>
      no_if a; no_if b;
      first [ replace (a <? b) with true by (symmetry; apply Z.ltb_lt; lia)
            | replace (a <? b) with false by (symmetry; apply Z.ltb_ge; lia)
            | destruct (Z.ltb_spec a b) ]
  | |- context [?a <=? ?b] =>
      no_if a; no_if b;
      first [ replace (a <=? b) with true by (symmetry; apply Z.leb_le; lia)
            | replace (a <=? b) with false by (symmetry; apply Z.leb_gt; lia)
            | destruct (Z.leb_spec a b) ]
  | |- context [?a =? ?b] =>
      no_if a; no_if b;
      first [ replace (a =? b) with true by (symmetry; apply Z.eqb_eq; lia)
            | replace (a =? b) with false by (symmetry; apply Z.eqb_neq; lia)
            | destruct (Z.eqb_spec a b) ]
  end.
Ltac zdecide := repeat (zdecide_one; cbn [andb orb negb]); cbn [andb orb negb].

(** Turns boolean tests of the code in the hypotheses into propositions. *)
Ltac reflect_bools :=
  repeat match goal with
    | H : _ && _ = true |- _ => apply andb_true_iff in H; destruct H
    | H : _ || _ = false |- _ => apply orb_false_iff in H; destruct H
    | H : negb _ = true |- _ => apply negb_true_iff in H
    | H : negb _ = false |- _ => apply negb_false_iff in H
    | H : (_ <? _) = true |- _ => apply Z.ltb_lt in H
    | H : (_ <? _) = false |- _ => apply Z.ltb_ge in H
    | H : (_ <=? _) = true |- _ => apply Z.leb_le in H
    | H : (_ <=? _) = false |- _ => apply Z.leb_gt in H
    | H : (_ =? _) = true |- _ => apply Z.eqb_eq in H
    | H : (_ =? _) = false |- _ => apply Z.eqb_neq in H
    | H : bool_decide _ = true |- _ => apply bool_decide_eq_true in H
    | H : bool_decide _ = false |- _ => apply bool_decide_eq_false in H
    | H : str_eqb _ _ = true |- _ => apply str_eqb_eq in H
    end.
