(* ===== verification/TextChange.v ===== *)
(** Sequential UTF-16 text edits ([client/src/text/change.ts]) and the worker's
    patch handshake built on them ([client/src/markdown/worker-state.ts]). *)

From S2P Require Import Prelude.

Definition MAX_SAFE_INTEGER : Z := 9007199254740991.

(** [Number.isSafeInteger] on an integral number. *)
Definition isSafeInteger (z : Z) : bool :=
  (- MAX_SAFE_INTEGER <=? z) && (z <=? MAX_SAFE_INTEGER).

Lemma isSafeInteger_spec z :
  isSafeInteger z = true <-> - MAX_SAFE_INTEGER <= z <= MAX_SAFE_INTEGER.
Proof. unfold isSafeInteger. rewrite andb_true_iff, !Z.leb_le. done. Qed.

(** ** Edits *)

Record TextEdit := { from : Z; to : Z; insert : jstring }.

Definition edit_ok (n : Z) (e : TextEdit) : bool :=
  negb (negb (isSafeInteger (from e)) || negb (isSafeInteger (to e)) ||
        (from e <? 0) || (to e <? from e) || (n <? to e)).

(** One turn of the loop: the check, then
    [next.slice(0, from) + insert + next.slice(to)]. *)
Definition applyTextEdit (next : jstring) (e : TextEdit) : res jstring :=
  if negb (edit_ok (len next) e) then range_error "invalid text edit"
  else Ok (slice next 0 (from e) ++ insert e ++ slice_from next (to e)).

Fixpoint applyTextEdits (text : jstring) (edits : list TextEdit) : res jstring :=
  match edits with
  | [] => Ok text
  | e :: rest => next ← applyTextEdit text e; applyTextEdits next rest
  end.

(** ** Patch handshake *)

Inductive resync_reason := RGeneration | RBaseLength | RResultLength | RInvalidEdit.

Record PatchRequest := {
  p_seq : Z; p_edits : list TextEdit; p_generation : jstring;
  p_baseChars : Z; p_chars : Z }.

Inductive PatchTransition :=
| Applied (text : jstring)
| Resync (seq : Z) (generation : jstring) (actualChars : Z) (reason : resync_reason).

Definition transitionPatch (text generation : jstring) (request : PatchRequest)
    : PatchTransition :=
  let resync reason := Resync (p_seq request) generation (len text) reason in
  if negb (str_eqb (p_generation request) generation) then resync RGeneration
  else if negb (p_baseChars request =? len text) then resync RBaseLength
  else match applyTextEdits text (p_edits request) with
       | Throw _ => resync RInvalidEdit
       | Ok next =>
           if negb (len next =? p_chars request) then resync RResultLength
           else Applied next
       end.

(** ** Properties *)

Lemma edit_ok_spec n e :
  0 <= n <= MAX_SAFE_INTEGER ->
  edit_ok n e = true <-> 0 <= from e <= to e /\ to e <= n.
Proof.
  intros Hn. unfold edit_ok. rewrite negb_true_iff, !orb_false_iff, !negb_false_iff,
    !isSafeInteger_spec, !Z.ltb_ge. lia.
Qed.

Lemma edit_ok_bounds n e :
  edit_ok n e = true -> 0 <= from e <= to e /\ to e <= n.
Proof.
  unfold edit_ok. rewrite negb_true_iff, !orb_false_iff, !Z.ltb_ge. lia.
Qed.

Lemma applyTextEdit_Ok next e out :
  applyTextEdit next e = Ok out ->
  0 <= from e <= to e /\ to e <= len next /\
  out = slice next 0 (from e) ++ insert e ++ slice_from next (to e).
Proof.
  unfold applyTextEdit. destruct (edit_ok (len next) e) eqn:E; simpl; [|done].
  intros [= <-]. apply edit_ok_bounds in E. tauto.
Qed.

Lemma applyTextEdit_len next e out :
  applyTextEdit next e = Ok out ->
  len out = len next - (to e - from e) + len (insert e).
Proof.
  intros (H1 & H2 & ->)%applyTextEdit_Ok.
  rewrite !len_app, len_slice, len_slice_from by lia. lia.
Qed.

Lemma applyTextEdits_app text e1 e2 :
  applyTextEdits text (e1 ++ e2) =
  (mid ← applyTextEdits text e1; applyTextEdits mid e2).
Proof.
  revert text. induction e1 as [|e r IH]; intros text; [done |]. simpl.
  destruct (applyTextEdit text e); simpl; [apply IH | done].
Qed.

(** Whether a sequence of edits is accepted depends on the length alone. *)
Fixpoint edits_fit (n : Z) (edits : list TextEdit) : Prop :=
  match edits with
  | [] => True
  | e :: rest =>
      edit_ok n e = true /\ edits_fit (n - (to e - from e) + len (insert e)) rest
  end.

(** [applyTextEdits] accepts a sequence of edits exactly when every edit
    lies inside the text the preceding edits produced (a check of lengths
    only); it then changes the length by inserted minus removed units, and it
    never returns anything but the edited text or a [RangeError]. *)
Theorem applyTextEdits_accepts text edits :
  match applyTextEdits text edits with
  | Ok out =>
      edits_fit (len text) edits /\
      len out = len text + foldr (fun e a => len (insert e) - (to e - from e) + a) 0 edits
  | Throw e => exn_kind e = RangeError /\ ~ edits_fit (len text) edits
  end.
Proof.
  revert text. induction edits as [|e r IH]; intros text; simpl; [split; [done | lia] |].
  destruct (applyTextEdit text e) as [mid | x] eqn:E; simpl.
  - pose proof (applyTextEdit_len _ _ _ E) as Hl. specialize (IH mid).
    unfold applyTextEdit in E.
    destruct (edit_ok (len text) e) eqn:Eok; simpl in E; [|done].
    rewrite Hl in IH. destruct (applyTextEdits mid r).
    + destruct IH as [? ->]. split; [done | lia].
    + destruct IH. split; [done | tauto].
  - unfold applyTextEdit in E.
    destruct (edit_ok (len text) e) eqn:Eok; simpl in E; [done |].
    inversion E; subst. split; [done |]. intros [? _]. congruence.
Qed.

(** The worker applies a patch exactly when the request names its own
    generation and base length, the edits are accepted, and the result has
    the announced length; the new text is then the edited text, and in every
    other case the answer is a resync that reports the worker's own state. *)
Theorem transitionPatch_spec text generation request :
  match transitionPatch text generation request with
  | Applied next =>
      p_generation request = generation /\ p_baseChars request = len text /\
      applyTextEdits text (p_edits request) = Ok next /\ len next = p_chars request
  | Resync seq gen actual reason =>
      seq = p_seq request /\ gen = generation /\ actual = len text /\
      match reason with
      | RGeneration => p_generation request <> generation
      | RBaseLength => p_generation request = generation /\ p_baseChars request <> len text
      | RInvalidEdit => p_generation request = generation /\ p_baseChars request = len text /\
                        is_Ok (applyTextEdits text (p_edits request)) = false
      | RResultLength => p_generation request = generation /\ p_baseChars request = len text /\
          exists next, applyTextEdits text (p_edits request) = Ok next /\
                       len next <> p_chars request
      end
  end.
Proof.
  unfold transitionPatch.
  destruct (str_eqb (p_generation request) generation) eqn:Eg; simpl.
  2:{ split_and!; try done. intros He. by rewrite He, str_eqb_refl in Eg. }
  apply str_eqb_eq in Eg.
  destruct (Z.eqb_spec (p_baseChars request) (len text)); simpl; [| by split_and!].
  destruct (applyTextEdits text (p_edits request)) as [next|] eqn:E; simpl; [|done].
  destruct (Z.eqb_spec (len next) (p_chars request)); simpl; split_and!; eauto.
Qed.
