(* ===== verification/Bytes.v ===== *)
(** Byte-level parts of the language's library that the codecs rely on:
    little-endian integers ([DataView]), hexadecimal digits, base64
    ([btoa]/[atob]) and UTF-8 ([TextEncoder]/[TextDecoder]). *)

From S2P Require Import Prelude.

(** ** Little-endian integers *)

Fixpoint le_bytes (n : nat) (z : Z) : bytes :=
  match n with
  | O => []
  | S m => z mod 256 :: le_bytes m (z / 256)
  end.

Fixpoint le_value (bs : bytes) : Z :=
  match bs with
  | [] => 0
  | b :: r => b + 256 * le_value r
  end.

Lemma length_le_bytes n z : length (le_bytes n z) = n.
Proof. revert z. induction n; intros; simpl; [done | by rewrite IHn]. Qed.

Lemma len_le_bytes n z : len (le_bytes n z) = Z.of_nat n.
Proof. unfold len. by rewrite length_le_bytes. Qed.

Lemma le_bytes_are_bytes n z : Forall is_byte (le_bytes n z).
Proof.
  revert z. induction n; intros; simpl; constructor; [|done].
  unfold is_byte. pose proof (Z.mod_pos_bound z 256). lia.
Qed.

Lemma le_value_le_bytes n z :
  0 <= z < 256 ^ Z.of_nat n -> le_value (le_bytes n z) = z.
Proof.
  revert z. induction n as [|n IH]; intros z Hz; simpl le_bytes; simpl le_value.
  - change (256 ^ Z.of_nat 0) with 1 in Hz. lia.
  - rewrite IH; [pose proof (Z.div_mod z 256); lia |].
    rewrite Nat2Z.inj_succ, Z.pow_succ_r in Hz by lia.
    split; [apply Z.div_pos; lia | apply Z.div_lt_upper_bound; lia].
Qed.

Lemma le_value_bound bs : Forall is_byte bs -> 0 <= le_value bs < 256 ^ len bs.
Proof.
  induction 1 as [|b r Hb Hr IH]; [simpl; unfold len; simpl; lia |].
  rewrite len_cons. simpl le_value. unfold is_byte in Hb.
  rewrite Z.add_comm, Z.pow_add_r by len_lia. lia.
Qed.

Lemma le_bytes_le_value bs : Forall is_byte bs -> le_bytes (length bs) (le_value bs) = bs.
Proof.
  induction 1 as [|b r Hb Hr IH]; [done |]. simpl. unfold is_byte in Hb.
  replace ((b + 256 * le_value r) mod 256) with b
    by (apply (Z.mod_unique _ _ (le_value r)); lia).
  replace ((b + 256 * le_value r) / 256) with (le_value r)
    by (apply (Z.div_unique _ _ _ b); lia).
  by rewrite IH.
Qed.

(** ** Hexadecimal *)

Definition hex_digit (d : Z) : Z := if d <? 10 then 48 + d else 87 + d.

Definition hex_value (c : Z) : Z := if c <? 58 then c - 48 else c - 87.

(** [/[0-9a-f]/] *)
Definition is_hex (c : Z) : bool :=
  ((48 <=? c) && (c <=? 57)) || ((97 <=? c) && (c <=? 102)).

(** [byte.toString(16).padStart(2, '0')] *)
Definition hex2 (b : Z) : jstring := [hex_digit (b / 16); hex_digit (b mod 16)].

Lemma hex_digit_is_hex d : 0 <= d < 16 -> is_hex (hex_digit d) = true.
Proof.
  intros. unfold is_hex, hex_digit.
  apply orb_true_iff. rewrite !andb_true_iff, !Z.leb_le. zcases; lia.
Qed.

Lemma hex_value_digit d : 0 <= d < 16 -> hex_value (hex_digit d) = d.
Proof. intros. unfold hex_value, hex_digit. zcases; lia. Qed.

Lemma hex_digit_value c : is_hex c = true -> hex_digit (hex_value c) = c /\ 0 <= hex_value c < 16.
Proof.
  unfold is_hex. rewrite orb_true_iff, !andb_true_iff, !Z.leb_le.
  intros. unfold hex_digit, hex_value. zcases; lia.
Qed.

(** [x.toString(16).padStart(n, '0')] of a value below [16^n]. *)
Fixpoint hex_padded (n : nat) (z : Z) : jstring :=
  match n with
  | O => []
  | S m => hex_padded m (z / 16) ++ [hex_digit (z mod 16)]
  end.

Lemma hex_padded_ok n z :
  0 <= z -> forallb is_hex (hex_padded n z) = true /\ len (hex_padded n z) = Z.of_nat n.
Proof.
  revert z. induction n as [|n IH]; intros z Hz; [done |]. cbn [hex_padded].
  destruct (IH (z / 16)) as [H1 H2]; [apply Z.div_pos; lia |].
  rewrite forallb_app, len_app, H1, H2. cbn [forallb].
  rewrite hex_digit_is_hex by (apply Z.mod_pos_bound; lia).
  split; [done |]. change (len [_]) with 1. lia.
Qed.

Fixpoint hex_number_from (acc : Z) (cs : jstring) : Z :=
  match cs with [] => acc | c :: r => hex_number_from (acc * 16 + hex_value c) r end.

(** [BigInt('0x' + cs)] *)
Definition hex_number (cs : jstring) : Z := hex_number_from 0 cs.

Lemma hex_number_from_app acc a b :
  hex_number_from acc (a ++ b) = hex_number_from (hex_number_from acc a) b.
Proof. revert acc. induction a as [|c r IH]; intros acc; [done | apply IH]. Qed.

Lemma hex_number_padded n z : 0 <= z < 16 ^ Z.of_nat n -> hex_number (hex_padded n z) = z.
Proof.
  unfold hex_number. revert z. induction n as [|n IH]; intros z Hz.
  - cbn [hex_padded hex_number_from]. change (16 ^ Z.of_nat 0) with 1 in Hz. lia.
  - cbn [hex_padded]. rewrite hex_number_from_app, IH.
    + cbn [hex_number_from]. rewrite hex_value_digit by (apply Z.mod_pos_bound; lia).
      pose proof (Z.div_mod z 16). lia.
    + rewrite Nat2Z.inj_succ, Z.pow_succ_r in Hz by lia.
      split; [apply Z.div_pos; lia | apply Z.div_lt_upper_bound; lia].
Qed.

(** ** Base64 *)

(** ** Decimal numerals *)

Definition is_digit (c : Z) : bool := (48 <=? c) && (c <=? 57).

Fixpoint dec_digits (n : nat) (z : Z) : jstring :=
  match n with
  | O => []
  | S m => (if z <? 10 then [] else dec_digits m (z / 10)) ++ [48 + z mod 10]
  end.

(** [z.toString(10)] of a non-negative integer: a number below [2^n] has at
    most [n] decimal digits. *)
Definition decimal (z : Z) : jstring := dec_digits (S (Z.to_nat (Z.log2 z))) z.

Fixpoint dec_from (acc : Z) (cs : jstring) : Z :=
  match cs with [] => acc | c :: r => dec_from (acc * 10 + (c - 48)) r end.

(** [BigInt(cs)] of a string of decimal digits. *)
Definition dec_number (cs : jstring) : Z := dec_from 0 cs.

(** [/^[1-9][0-9]*$/] *)
Definition is_decimal (cs : jstring) : bool :=
  match cs with
  | [] => false
  | c :: r => (49 <=? c) && (c <=? 57) && forallb is_digit r
  end.

Lemma dec_from_app acc a b : dec_from acc (a ++ b) = dec_from (dec_from acc a) b.
Proof. revert acc. induction a as [|c r IH]; intros acc; [done | apply IH]. Qed.

Lemma dec_digits_value n z : 0 <= z < 10 ^ Z.of_nat n -> dec_number (dec_digits n z) = z.
Proof.
  unfold dec_number. revert z. induction n as [|n IH]; intros z Hz.
  - change (10 ^ Z.of_nat 0) with 1 in Hz. cbn. lia.
  - cbn [dec_digits]. rewrite dec_from_app. pose proof (Z.div_mod z 10). cbn [dec_from].
    destruct (Z.ltb_spec z 10).
    + cbn [dec_from]. rewrite Z.mod_small by lia. lia.
    + rewrite IH; [lia |]. rewrite Nat2Z.inj_succ, Z.pow_succ_r in Hz by lia.
      split; [apply Z.div_pos; lia | apply Z.div_lt_upper_bound; lia].
Qed.

Lemma decimal_fuel z : 0 <= z -> z < 10 ^ Z.of_nat (S (Z.to_nat (Z.log2 z))).
Proof.
  intros Hz. rewrite Nat2Z.inj_succ, Z2Nat.id by apply Z.log2_nonneg.
  destruct (decide (z = 0)) as [->|]; [done |].
  pose proof (Z.log2_spec z). pose proof (Z.pow_le_mono_l 2 10 (Z.succ (Z.log2 z))).
  pose proof (Z.log2_nonneg z). lia.
Qed.

Lemma dec_number_decimal z : 0 <= z -> dec_number (decimal z) = z.
Proof. intros. apply dec_digits_value. split; [done | by apply decimal_fuel]. Qed.

Lemma is_digit_spec c : is_digit c = true <-> 48 <= c <= 57.
Proof. unfold is_digit. rewrite andb_true_iff, !Z.leb_le. lia. Qed.

Lemma dec_digits_decimal n z : 0 < z < 10 ^ Z.of_nat n -> is_decimal (dec_digits n z) = true.
Proof.
  revert z. induction n as [|n IH]; intros z Hz.
  - change (10 ^ Z.of_nat 0) with 1 in Hz. lia.
  - cbn [dec_digits]. pose proof (Z.mod_pos_bound z 10).
    destruct (Z.ltb_spec z 10).
    + cbn [app is_decimal forallb]. rewrite Z.mod_small by lia. zdecide. done.
    + assert (is_decimal (dec_digits n (z / 10)) = true) as H1.
      { apply IH. rewrite Nat2Z.inj_succ, Z.pow_succ_r in Hz by lia.
        split; [apply Z.div_str_pos; lia | apply Z.div_lt_upper_bound; lia]. }
      destruct (dec_digits n (z / 10)) as [|c r]; [done |]. cbn [app is_decimal] in *.
      rewrite forallb_app. cbn [forallb].
      rewrite (proj2 (is_digit_spec (48 + z mod 10))) by lia. by rewrite !andb_true_r.
Qed.

Lemma decimal_is_decimal z : 0 < z -> is_decimal (decimal z) = true.
Proof. intros. apply dec_digits_decimal. split; [done | apply decimal_fuel; lia]. Qed.

Lemma decimal_all_digits z : 0 < z -> decimal z <> [] /\ forallb is_digit (decimal z) = true.
Proof.
  intros Hz. apply decimal_is_decimal in Hz. destruct (decimal z) as [|u r]; [done |]. split; [done |].
  cbn in Hz |- *. apply andb_true_iff in Hz as [Hu Hr]. apply andb_true_iff in Hu as [H1%Z.leb_le H2%Z.leb_le].
  apply andb_true_iff. split; [apply is_digit_spec; lia | exact Hr].
Qed.

Lemma dec_digits_snoc n z d :
  0 < z -> 0 <= d < 10 -> dec_digits (S n) (z * 10 + d) = dec_digits n z ++ [48 + d].
Proof.
  intros Hz Hd. cbn [dec_digits]. zdecide.
  replace ((z * 10 + d) / 10) with z by (rewrite Z.div_add_l, Z.div_small by lia; lia).
  replace ((z * 10 + d) mod 10) with d by (rewrite Z.add_comm, Z_mod_plus_full, Z.mod_small; lia).
  done.
Qed.

Lemma dec_digits_enough n m z :
  0 <= z < 10 ^ Z.of_nat n -> (0 < n)%nat -> (n <= m)%nat -> dec_digits m z = dec_digits n z.
Proof.
  revert m z. induction n as [|n IH]; intros m z Hz Hn Hm; [lia |].
  destruct m as [|m]; [lia |]. cbn [dec_digits].
  destruct (Z.ltb_spec z 10); [done |]. f_equal.
  rewrite Nat2Z.inj_succ, Z.pow_succ_r in Hz by lia.
  destruct n as [|n]; [change (10 ^ Z.of_nat 0) with 1 in Hz; lia |].
  apply IH; [|lia|lia].
  split; [apply Z.div_pos; lia | apply Z.div_lt_upper_bound; lia].
Qed.

Lemma dec_number_bounds cs :
  forallb is_digit cs = true -> forall acc, 0 <= acc -> acc * 10 ^ len cs <= dec_from acc cs.
Proof.
  induction cs as [|c r IH]; intros Hc acc Ha; cbn [dec_from forallb] in *.
  - rewrite len_nil. lia.
  - apply andb_true_iff in Hc as [Hd%is_digit_spec Hr]. rewrite len_cons.
    specialize (IH Hr (acc * 10 + (c - 48))).
    rewrite Z.pow_add_r by (pose proof (len_nonneg r); lia).
    pose proof (Z.pow_pos_nonneg 10 (len r)). pose proof (len_nonneg r). nia.
Qed.

Lemma dec_digits_number cs :
  is_decimal cs = true -> dec_digits (length cs) (dec_number cs) = cs /\ 0 < dec_number cs < 10 ^ len cs.
Proof.
  induction cs as [|c cs IH] using rev_ind; [done |]. intros H.
  unfold dec_number. rewrite dec_from_app. cbn [dec_from].
  rewrite length_app. cbn [length]. rewrite Nat.add_1_r, len_app.
  change (len [c]) with 1.
  destruct cs as [|c0 cs].
  - cbn in H. reflect_bools. cbn [dec_from app length dec_digits].
    rewrite Z.mod_small by lia. zdecide. cbn [app].
    split; [f_equal; lia |]. change (10 ^ (len [] + 1)) with 10. lia.
  - cbn [app is_decimal] in H. rewrite forallb_app in H. cbn [forallb] in H.
    apply andb_true_iff in H as [H1 H2]. rewrite andb_true_r in H2.
    apply andb_true_iff in H2 as [H2 Hd%is_digit_spec].
    destruct IH as [IH1 IH2]; [cbn [is_decimal]; by rewrite H1, H2 |].
    fold (dec_number (c0 :: cs)). rewrite dec_digits_snoc by lia. rewrite IH1.
    rewrite Z.pow_add_r by (pose proof (len_nonneg (c0 :: cs)); lia).
    split; [do 2 f_equal; lia | lia].
Qed.

Lemma decimal_dec_number cs : is_decimal cs = true -> decimal (dec_number cs) = cs.
Proof.
  intros H. destruct (dec_digits_number cs H) as [H1 H2].
  rewrite <- H1 at 2. unfold decimal.
  set (n := S (Z.to_nat (Z.log2 (dec_number cs)))).
  assert (Hf : dec_number cs < 10 ^ Z.of_nat n) by (apply decimal_fuel; lia).
  assert (0 < length cs)%nat by (destruct cs; [done | simpl; lia]).
  destruct (Nat.le_gt_cases n (length cs)).
  - symmetry. apply dec_digits_enough; lia.
  - apply dec_digits_enough; unfold len in *; lia.
Qed.

(** The 64-symbol alphabet with its last two symbols as parameters: [+ /] for
    [btoa], [- _] for the URL form. *)
Definition b64_char (c62 c63 i : Z) : Z :=
  if i <? 26 then 65 + i
  else if i <? 52 then 71 + i
  else if i <? 62 then i - 4
  else if i =? 62 then c62 else c63.

Definition b64_val (c : Z) : option Z :=
  if (65 <=? c) && (c <=? 90) then Some (c - 65)
  else if (97 <=? c) && (c <=? 122) then Some (c - 71)
  else if (48 <=? c) && (c <=? 57) then Some (c + 4)
  else if c =? 43 then Some 62
  else if c =? 47 then Some 63
  else None.

Fixpoint sextets (bs : bytes) : list Z :=
  match bs with
  | a :: b :: c :: r =>
      a / 4 :: (a mod 4) * 16 + b / 16 :: (b mod 16) * 4 + c / 64 :: c mod 64 :: sextets r
  | [a; b] => [a / 4; (a mod 4) * 16 + b / 16; (b mod 16) * 4]
  | [a] => [a / 4; (a mod 4) * 16]
  | [] => []
  end.

Fixpoint unsextets (ss : list Z) : bytes :=
  match ss with
  | a :: b :: c :: d :: r =>
      a * 4 + b / 16 :: (b mod 16) * 16 + c / 4 :: (c mod 4) * 64 + d :: unsextets r
  | [a; b; c] => [a * 4 + b / 16; (b mod 16) * 16 + c / 4]
  | [a; b] => [a * 4 + b / 16]
  | _ => []
  end.

Definition pad_count (n : Z) : Z := (4 - n mod 4) mod 4.

(** [btoa] on a string of units below 256. *)
Definition btoa (bs : bytes) : jstring :=
  let s := map (b64_char 43 47) (sextets bs) in
  s ++ replicate (Z.to_nat (pad_count (len s))) 61.

(** [atob]: the forgiving-base64 decoder of the web platform. *)
Definition is_ws (c : Z) : bool :=
  (c =? 9) || (c =? 10) || (c =? 12) || (c =? 13) || (c =? 32).

(** Removes a final [=], if there is one. *)
Definition drop_pad (s : jstring) : jstring :=
  match rev s with
  | x :: r => if x =? 61 then rev r else s
  | [] => s
  end.

Fixpoint all_some {A} (l : list (option A)) : option (list A) :=
  match l with
  | [] => Some []
  | None :: _ => None
  | Some x :: r => match all_some r with Some xs => Some (x :: xs) | None => None end
  end.

Definition atob (data : jstring) : option bytes :=
  let d := List.filter (fun c => negb (is_ws c)) data in
  let d := if len d mod 4 =? 0 then drop_pad (drop_pad d) else d in
  if len d mod 4 =? 1 then None
  else match all_some (map b64_val d) with
       | Some ss => Some (unsextets ss)
       | None => None
       end.

(** [s.replace(/=+$/, '')] *)
Fixpoint strip_trailing (c : Z) (s : jstring) : jstring :=
  match s with
  | [] => []
  | x :: r =>
      match strip_trailing c r with
      | [] => if x =? c then [] else [x]
      | r' => x :: r'
      end
  end.

Lemma strip_trailing_pad c s n : c ∉ s -> strip_trailing c (s ++ replicate n c) = s.
Proof.
  induction s as [|x r IH]; simpl; intros Hc.
  - induction n; simpl; [done |]. rewrite IHn. by rewrite Z.eqb_refl.
  - apply not_elem_of_cons in Hc as [Hx Hc]. rewrite IH by done.
    destruct r; [|done]. destruct (Z.eqb_spec x c); [congruence | done].
Qed.

(** Induction following the three-byte groups of base64. *)
Lemma group3_ind (P : bytes -> Prop) :
  P [] -> (forall a, P [a]) -> (forall a b, P [a; b]) ->
  (forall a b c r, P r -> P (a :: b :: c :: r)) -> forall bs, P bs.
Proof.
  intros H0 H1 H2 H3. fix IH 1.
  intros [|a [|b [|c r]]]; [apply H0 | apply H1 | apply H2 | apply H3, IH].
Qed.

Lemma sextets_range bs : Forall is_byte bs -> Forall (fun s => 0 <= s < 64) (sextets bs).
Proof.
  induction bs as [|a|a b|a b c r IH] using group3_ind; intros H; simpl;
    repeat (apply Forall_cons in H as [? H]); unfold is_byte in *;
    repeat constructor; auto; try (apply Z.div_pos; lia); try (apply Z.div_lt_upper_bound; lia);
    Z.to_euclidean_division_equations; lia.
Qed.

Lemma unsextets_sextets bs : Forall is_byte bs -> unsextets (sextets bs) = bs.
Proof.
  induction bs as [|a|a b|a b c r IH] using group3_ind; intros H; simpl;
    repeat (apply Forall_cons in H as [? H]); unfold is_byte in *;
    try rewrite IH by done; repeat f_equal; try done;
    Z.to_euclidean_division_equations; lia.
Qed.

Lemma len_sextets bs : len (sextets bs) = (4 * len bs + 2) / 3.
Proof.
  induction bs as [|a|a b|a b c r IH] using group3_ind; try reflexivity.
  simpl sextets. rewrite !len_cons, IH. Z.to_euclidean_division_equations; lia.
Qed.

Lemma b64_char_not c62 c63 x i :
  0 <= i < 64 -> c62 <> x -> c63 <> x ->
  ~ (65 <= x <= 90) -> ~ (97 <= x <= 122) -> ~ (48 <= x <= 57) -> b64_char c62 c63 i <> x.
Proof. intros. unfold b64_char. zcases; lia. Qed.

Lemma b64_val_char i : 0 <= i < 64 -> b64_val (b64_char 43 47 i) = Some i.
Proof.
  intros. unfold b64_char.
  destruct (Z.ltb_spec i 26), (Z.ltb_spec i 52), (Z.ltb_spec i 62), (Z.eqb_spec i 62);
    try lia; unfold b64_val; zdecide; try lia; f_equal; lia.
Qed.

Lemma all_some_map_Some {A B} (f : A -> option B) (g : B -> A) l :
  Forall (fun b => f (g b) = Some b) l -> all_some (map f (map g l)) = Some l.
Proof. induction 1 as [|b r Hb Hr IH]; simpl; [done |]. by rewrite Hb, IH. Qed.

Lemma not_in_chars c62 c63 x ss :
  Forall (fun s => 0 <= s < 64) ss -> c62 <> x -> c63 <> x ->
  ~ (65 <= x <= 90) -> ~ (97 <= x <= 122) -> ~ (48 <= x <= 57) ->
  x ∉ map (b64_char c62 c63) ss.
Proof.
  intros H ? ? ? ? ?. induction H; simpl; [apply not_elem_of_nil |].
  rewrite not_elem_of_cons. split; [|done].
  intros E. by apply (b64_char_not c62 c63 x x0).
Qed.

(** [atob] undoes [btoa]. *)
Lemma filter_all {A} (f : A -> bool) l : Forall (fun x => f x = true) l -> List.filter f l = l.
Proof. induction 1 as [|x r Hx Hr IH]; simpl; [done |]. by rewrite Hx, IH. Qed.

Lemma drop_pad_snoc s : drop_pad (s ++ [61]) = s.
Proof. unfold drop_pad. rewrite rev_app_distr. simpl. apply rev_involutive. Qed.

Lemma drop_pad_id s : 61 ∉ s -> drop_pad s = s.
Proof.
  intros Hs. unfold drop_pad. destruct (rev s) as [|x r] eqn:E; [done |].
  destruct (Z.eqb_spec x 61); [|done]. subst. destruct Hs.
  rewrite <- (rev_involutive s), E. simpl. apply elem_of_app. right. by apply list_elem_of_singleton.
Qed.

Lemma no_ws_b64_char i : 0 <= i < 64 -> negb (is_ws (b64_char 43 47 i)) = true.
Proof.
  intros. unfold is_ws, b64_char. rewrite !negb_orb, !andb_true_iff, !negb_true_iff, !Z.eqb_neq.
  zcases; lia.
Qed.

Lemma pad_count_sextets bs :
  pad_count (len (sextets bs)) = 0 \/ pad_count (len (sextets bs)) = 1 \/
  pad_count (len (sextets bs)) = 2.
Proof.
  rewrite len_sextets. unfold pad_count. pose proof (len_nonneg bs).
  Z.to_euclidean_division_equations; lia.
Qed.

Lemma atob_padded ss n :
  Forall (fun s => 0 <= s < 64) ss -> n = pad_count (len ss) -> 0 <= n <= 2 ->
  atob (map (b64_char 43 47) ss ++ replicate (Z.to_nat n) 61) = Some (unsextets ss).
Proof.
  intros Hss Hn Hr. unfold atob.
  assert (Hn61 : 61 ∉ map (b64_char 43 47) ss) by (apply not_in_chars; [done | lia ..]).
  rewrite filter_all.
  2:{ apply Forall_app. split.
      - apply Forall_map. eapply Forall_impl; [exact Hss |]. apply no_ws_b64_char.
      - by apply Forall_replicate. }
  assert (Hmod : len (map (b64_char 43 47) ss ++ replicate (Z.to_nat n) 61) mod 4 = 0).
  { rewrite len_app, len_map, len_replicate by lia. unfold pad_count in Hn.
    pose proof (len_nonneg ss). Z.to_euclidean_division_equations; lia. }
  rewrite Hmod. change (0 =? 0) with true. cbv iota.
  assert (Hd : drop_pad (drop_pad (map (b64_char 43 47) ss ++ replicate (Z.to_nat n) 61))
               = map (b64_char 43 47) ss).
  { assert (n = 0 \/ n = 1 \/ n = 2) as [-> | [-> | ->]] by lia.
    - change (replicate (Z.to_nat 0) 61) with (@nil Z).
      rewrite app_nil_r, (drop_pad_id (map _ _)) by done. by apply drop_pad_id.
    - change (replicate (Z.to_nat 1) 61) with [61]. by rewrite drop_pad_snoc, drop_pad_id.
    - change (replicate (Z.to_nat 2) 61) with ([61] ++ [61]).
      by rewrite app_assoc, !drop_pad_snoc. }
  rewrite Hd.
  destruct (Z.eqb_spec (len (map (b64_char 43 47) ss) mod 4) 1) as [E | E].
  { rewrite len_map in E. unfold pad_count in Hn. rewrite E in Hn. vm_compute in Hn. lia. }
  rewrite all_some_map_Some; [done |].
  eapply Forall_impl; [exact Hss |]. apply b64_val_char.
Qed.

Lemma atob_btoa bs : Forall is_byte bs -> atob (btoa bs) = Some bs.
Proof.
  intros H. unfold btoa. rewrite len_map.
  rewrite atob_padded; [by rewrite unsextets_sextets | by apply sextets_range | done |].
  destruct (pad_count_sextets bs) as [-> | [-> | ->]]; lia.
Qed.

(** ** UTF-8 *)

(** The scalar values of a UTF-16 string; a lone surrogate becomes U+FFFD. *)
Fixpoint scalars (s : jstring) : list Z :=
  match s with
  | [] => []
  | u :: r =>
      if (55296 <=? u) && (u <? 56320) then
        match r with
        | v :: r' =>
            if (56320 <=? v) && (v <? 57344)
            then 65536 + (u - 55296) * 1024 + (v - 56320) :: scalars r'
            else 65533 :: scalars r
        | [] => [65533]
        end
      else if (56320 <=? u) && (u <? 57344) then 65533 :: scalars r
      else u :: scalars r
  end.

Definition utf8_scalar (c : Z) : bytes :=
  if c <? 128 then [c]
  else if c <? 2048 then [192 + c / 64; 128 + c mod 64]
  else if c <? 65536 then [224 + c / 4096; 128 + c / 64 mod 64; 128 + c mod 64]
  else [240 + c / 262144; 128 + c / 4096 mod 64; 128 + c / 64 mod 64; 128 + c mod 64].

(** [new TextEncoder().encode(s)] *)
Definition utf8_encode (s : jstring) : bytes := concat (map utf8_scalar (scalars s)).

Definition cont (lo hi b : Z) : bool := (lo <=? b) && (b <=? hi).

(** The fatal UTF-8 decoder of the encoding standard, to scalar values. *)
Fixpoint utf8_scalars (bs : bytes) : option (list Z) :=
  match bs with
  | [] => Some []
  | b :: r =>
      if b <? 128 then (cons b) <$> utf8_scalars r
      else if (194 <=? b) && (b <=? 223) then
        match r with
        | c1 :: r1 =>
            if cont 128 191 c1 then (cons ((b - 192) * 64 + (c1 - 128))) <$> utf8_scalars r1
            else None
        | _ => None
        end
      else if (224 <=? b) && (b <=? 239) then
        match r with
        | c1 :: c2 :: r2 =>
            if cont (if b =? 224 then 160 else 128) (if b =? 237 then 159 else 191) c1
               && cont 128 191 c2
            then (cons ((b - 224) * 4096 + (c1 - 128) * 64 + (c2 - 128))) <$> utf8_scalars r2
            else None
        | _ => None
        end
      else if (240 <=? b) && (b <=? 244) then
        match r with
        | c1 :: c2 :: c3 :: r3 =>
            if cont (if b =? 240 then 144 else 128) (if b =? 244 then 143 else 191) c1
               && cont 128 191 c2 && cont 128 191 c3
            then (cons ((b - 240) * 262144 + (c1 - 128) * 4096 + (c2 - 128) * 64 + (c3 - 128)))
                   <$> utf8_scalars r3
            else None
        | _ => None
        end
      else None
  end.

Definition utf16_scalar (c : Z) : jstring :=
  if c <? 65536 then [c] else [55296 + (c - 65536) / 1024; 56320 + (c - 65536) mod 1024].

Definition bom : bytes := [239; 187; 191].

Definition strip_bom (bs : bytes) : bytes :=
  if str_eqb (take 3 bs) bom then drop 3 bs else bs.

(** [new TextDecoder('utf-8', { fatal: true }).decode(bs)]: a leading byte
    order mark is removed, malformed input throws ([None]). *)
Definition utf8_decode (bs : bytes) : option jstring :=
  (fun cs => concat (map utf16_scalar cs)) <$> utf8_scalars (strip_bom bs).

Definition is_scalar (c : Z) : Prop := 0 <= c < 55296 \/ 57344 <= c < 1114112.

(** Every high surrogate is followed by a low one and conversely. *)
Fixpoint well_formed16 (s : jstring) : Prop :=
  match s with
  | [] => True
  | u :: r =>
      if (55296 <=? u) && (u <? 56320) then
        match r with
        | v :: r' => 56320 <= v < 57344 /\ well_formed16 r'
        | [] => False
        end
      else ~ (56320 <= u < 57344) /\ is_unit u /\ well_formed16 r
  end.

Lemma utf8_scalars_scalar c r :
  is_scalar c -> utf8_scalars (utf8_scalar c ++ r) = (cons c) <$> utf8_scalars r.
Proof.
  unfold is_scalar, utf8_scalar. intros Hc.
  assert (Hdm : forall a b, 0 < b -> a = b * (a / b) + a mod b /\ 0 <= a mod b < b).
  { intros. split; [apply Z.div_mod; lia | apply Z.mod_pos_bound; lia]. }
  assert (H6 : forall x, 0 <= x -> x = 64 * (x / 64) + x mod 64 /\ 0 <= x mod 64 < 64)
    by (intros; apply Hdm; lia).
  assert (E12 : c / 4096 = c / 64 / 64) by (rewrite Z.div_div by lia; done).
  assert (E18 : c / 262144 = c / 64 / 64 / 64) by (rewrite !Z.div_div by lia; done).
  rewrite E18, E12.
  destruct (H6 c) as [E1 B1]; [lia |].
  destruct (H6 (c / 64)) as [E2 B2]; [apply Z.div_pos; lia |].
  destruct (H6 (c / 64 / 64)) as [E3 B3]; [apply Z.div_pos; [apply Z.div_pos; lia | lia] |].
  set (x0 := c mod 64) in *. set (y1 := c / 64) in *. set (x1 := y1 mod 64) in *.
  set (y2 := y1 / 64) in *. set (x2 := y2 mod 64) in *. set (y3 := y2 / 64) in *.
  clearbody x0 y1 x1 y2 x2 y3. clear E12 E18 H6 Hdm.
  destruct (Z.ltb_spec c 128); [| destruct (Z.ltb_spec c 2048); [| destruct (Z.ltb_spec c 65536)]];
    cbn [app utf8_scalars]; unfold cont; zdecide; try lia; do 2 f_equal; lia.
Qed.

Lemma utf8_scalars_concat cs :
  Forall is_scalar cs -> utf8_scalars (concat (map utf8_scalar cs)) = Some cs.
Proof.
  induction 1 as [|c r Hc Hr IH]; [done |]. simpl.
  by rewrite utf8_scalars_scalar, IH.
Qed.

(** Induction following the surrogate pairs of a string. *)
Lemma pairs_ind (P : jstring -> Prop) :
  P [] -> (forall u, P [u]) -> (forall u v r, P r -> P (v :: r) -> P (u :: v :: r)) ->
  forall s, P s.
Proof.
  intros H0 H1 H2 s. enough (P s /\ forall u, P (u :: s)) by tauto.
  induction s as [|v r [IHr IHv]]; split; auto.
Qed.

Lemma scalars_cons2 u v r :
  scalars (u :: v :: r) =
  if (55296 <=? u) && (u <? 56320) then
    if (56320 <=? v) && (v <? 57344)
    then 65536 + (u - 55296) * 1024 + (v - 56320) :: scalars r
    else 65533 :: scalars (v :: r)
  else if (56320 <=? u) && (u <? 57344) then 65533 :: scalars (v :: r)
  else u :: scalars (v :: r).
Proof. done. Qed.

Lemma well_formed16_cons2 u v r :
  well_formed16 (u :: v :: r) =
  if (55296 <=? u) && (u <? 56320) then 56320 <= v < 57344 /\ well_formed16 r
  else ~ (56320 <= u < 57344) /\ is_unit u /\ well_formed16 (v :: r).
Proof. done. Qed.

Lemma scalars_well_formed s :
  well_formed16 s ->
  Forall is_scalar (scalars s) /\ concat (map utf16_scalar (scalars s)) = s.
Proof.
  induction s as [|u|u v r IHr IHv] using pairs_ind; [done | |].
  - simpl. unfold is_unit, is_scalar. zcases; simpl; try tauto; intros;
      (split; [repeat constructor; lia |]); unfold utf16_scalar; zcases; simpl; try done; lia.
  - rewrite well_formed16_cons2, scalars_cons2. intros Hw.
    destruct ((55296 <=? u) && (u <? 56320)) eqn:Eu.
    + destruct Hw as [Hv Hw]. specialize (IHr Hw) as [Hs Hc]. reflect_bools.
      replace ((56320 <=? v) && (v <? 57344)) with true
        by (symmetry; rewrite andb_true_iff, Z.leb_le, Z.ltb_lt; lia).
      set (c := 65536 + (u - 55296) * 1024 + (v - 56320)).
      split; [constructor; [unfold is_scalar; lia | done] |].
      cbn [map concat]. rewrite Hc. unfold utf16_scalar.
      destruct (Z.ltb_spec c 65536); [lia |].
      replace ((c - 65536) / 1024) with (u - 55296)
        by (apply (Z.div_unique _ _ _ (v - 56320)); lia).
      replace ((c - 65536) mod 1024) with (v - 56320)
        by (apply (Z.mod_unique _ _ (u - 55296)); lia).
      cbn [app]. do 2 f_equal; [lia | f_equal; lia].
    + destruct Hw as (Hv & Hu & Hw). specialize (IHv Hw) as [Hs Hc].
      apply andb_false_iff in Eu. rewrite Z.leb_gt, Z.ltb_ge in Eu. unfold is_unit in Hu.
      replace ((56320 <=? u) && (u <? 57344)) with false
        by (symmetry; apply andb_false_iff; rewrite Z.leb_gt, Z.ltb_ge; lia).
      cbn [map concat]. split; [constructor; [unfold is_scalar; lia | done] |].
      rewrite Hc. unfold utf16_scalar. destruct (Z.ltb_spec u 65536); [done | lia].
Qed.

(** A text without lone surrogates that does not start with a byte order mark
    survives encoding and decoding. *)
Lemma utf8_roundtrip s :
  well_formed16 s -> head s <> Some 65279 -> utf8_decode (utf8_encode s) = Some s.
Proof.
  intros Hw Hb. destruct (scalars_well_formed s Hw) as [Hs Hc].
  unfold utf8_decode, utf8_encode.
  assert (Hbom : strip_bom (concat (map utf8_scalar (scalars s)))
                 = concat (map utf8_scalar (scalars s))).
  { unfold strip_bom. destruct (str_eqb _ bom) eqn:E; [|done]. apply str_eqb_eq in E.
    pose proof (utf8_scalars_concat _ Hs) as Hd.
    rewrite <- (take_drop 3 (concat _)), E in Hd. unfold bom in Hd.
    cbn [app] in Hd.
    match type of Hd with utf8_scalars (239 :: 187 :: 191 :: ?r) = _ =>
      change (utf8_scalars (239 :: 187 :: 191 :: r)) with (cons 65279 <$> utf8_scalars r) in Hd;
      destruct (utf8_scalars r) as [t|]; [|done] end.
    injection Hd as Hd. rewrite <- Hd in Hc. simpl in Hc. by rewrite <- Hc in Hb. }
  rewrite Hbom, utf8_scalars_concat by done. simpl. by rewrite Hc.
Qed.

Lemma utf8_scalar_are_bytes c : is_scalar c -> Forall is_byte (utf8_scalar c).
Proof.
  unfold is_scalar, utf8_scalar, is_byte. intros.
  zcases; repeat constructor; Z.to_euclidean_division_equations; lia.
Qed.

Lemma utf8_encode_are_bytes s : well_formed16 s -> Forall is_byte (utf8_encode s).
Proof.
  intros [Hs _]%scalars_well_formed. unfold utf8_encode.
  induction Hs; simpl; [constructor |]. apply Forall_app.
  split; [by apply utf8_scalar_are_bytes | done].
Qed.

(** A boolean test for [well_formed16]. *)
Fixpoint wf16b (s : jstring) : bool :=
  match s with
  | [] => true
  | u :: r =>
      if (55296 <=? u) && (u <? 56320) then
        match r with
        | v :: r' => (56320 <=? v) && (v <? 57344) && wf16b r'
        | [] => false
        end
      else negb ((56320 <=? u) && (u <? 57344)) && ((0 <=? u) && (u <? 65536)) && wf16b r
  end.

Lemma wf16b_sound s : wf16b s = true -> well_formed16 s.
Proof.
  induction s as [|u|u v r IHr IHv] using pairs_ind; [done | |].
  - simpl. unfold is_unit. destruct ((55296 <=? u) && (u <? 56320)); [done |].
    rewrite !andb_true_iff, negb_true_iff, andb_false_iff, !Z.leb_le, !Z.ltb_lt, Z.leb_gt, Z.ltb_ge.
    lia.
  - rewrite well_formed16_cons2. cbn [wf16b].
    destruct ((55296 <=? u) && (u <? 56320)).
    + rewrite !andb_true_iff, Z.leb_le, Z.ltb_lt. intros [? ?]. auto.
    + fold (wf16b (v :: r)).
      intros [[Hu Hr]%andb_true_iff Hw]%andb_true_iff. split_and!; [| | by apply IHv].
      * apply negb_true_iff, andb_false_iff in Hu. rewrite Z.leb_gt, Z.ltb_ge in Hu. lia.
      * apply andb_true_iff in Hr. rewrite Z.leb_le, Z.ltb_lt in Hr. unfold is_unit. lia.
Qed.
