(* ===== verification/JsValue.v ===== *)
(** Dynamic JavaScript values ([unknown] in the sources): what JSON.parse, the
    structured clone of IndexedDB and remote peers can hand to the code, with
    the tests the code applies to them. *)

From S2P Require Import Prelude TextChange.

(** A number that is not an integer (fractions, infinities, NaN) is kept as an
    opaque token: the sources only reject or pass such numbers on. *)
Inductive jsnum := NInt (z : Z) | NOther (token : Z).

Inductive jsval :=
| VUndef
| VNull
| VBool (b : bool)
| VNum (n : jsnum)
| VStr (s : jstring)
| VBytes (b : bytes)
| VArr (l : list jsval)
| VObj (fields : list (jstring * jsval)).

(** [value && typeof value === 'object'] *)
Definition is_object (v : jsval) : bool :=
  match v with VBytes _ | VArr _ | VObj _ => true | _ => false end.

Definition is_array (v : jsval) : bool :=
  match v with VArr _ => true | _ => false end.

(** [value.key] on an object without that key is [undefined]. *)
Definition field (v : jsval) (k : string) : jsval :=
  match v with
  | VObj fs => default VUndef (mget fs (lit k))
  | _ => VUndef
  end.

Definition as_str (v : jsval) : option jstring :=
  match v with VStr s => Some s | _ => None end.

Definition as_bytes (v : jsval) : option bytes :=
  match v with VBytes b => Some b | _ => None end.

Definition is_number (v : jsval) : bool :=
  match v with VNum _ => true | _ => false end.

Definition is_string (v : jsval) : bool :=
  match v with VStr _ => true | _ => false end.

(** [value === 'literal'] *)
Definition is_lit (v : jsval) (k : string) : bool :=
  match v with VStr s => str_eqb s (lit k) | _ => false end.

(** [value === n] for an integer literal. *)
Definition is_int (v : jsval) (n : Z) : bool :=
  match v with VNum (NInt z) => z =? n | _ => false end.

(** [Number.isSafeInteger(value)], giving the integer. *)
Definition as_safe_int (v : jsval) : option Z :=
  match v with
  | VNum (NInt z) => if isSafeInteger z then Some z else None
  | _ => None
  end.

Lemma as_str_Some v s : as_str v = Some s <-> v = VStr s.
Proof. destruct v; simpl; split; intros; congruence. Qed.

Lemma as_bytes_Some v b : as_bytes v = Some b <-> v = VBytes b.
Proof. destruct v; simpl; split; intros; congruence. Qed.

Lemma as_safe_int_Some v z :
  as_safe_int v = Some z <-> v = VNum (NInt z) /\ isSafeInteger z = true.
Proof.
  destruct v as [| | | [n|] | | | |]; simpl; try (split; [done | by intros [? _]]).
  destruct (isSafeInteger n) eqn:E; split; intros H; try done; try (by destruct H; congruence).
  injection H as <-. done.
Qed.

Lemma is_lit_true v k : is_lit v k = true <-> v = VStr (lit k).
Proof.
  destruct v; simpl; try (split; intros; done). rewrite str_eqb_eq.
  split; congruence.
Qed.

Lemma is_int_true v n : is_int v n = true <-> v = VNum (NInt n).
Proof.
  destruct v as [| | | [z|] | | | |]; simpl; try (split; intros; done).
  rewrite Z.eqb_eq. split; congruence.
Qed.
