(* ===== verification/Protocol.v ===== *)
(** The room wire protocol ([client/src/collab/protocol.ts]): base64url
    selection anchors, mutation frames and committed receipts. *)

From S2P Require Import Prelude Bytes TextChange JsValue.

(** ** Constants *)

Definition MSG_UPDATE := 1.
Definition MSG_EPHEMERAL := 2.
Definition MSG_SERVER_VV := 3.
Definition MSG_SNAPSHOT := 4.
Definition MSG_SYNCED := 5.
Definition MSG_MUTATION := 6.
Definition MSG_COMMITTED := 7.
Definition MSG_PRESENCE_DELTA := 8.
Definition MSG_PRESENCE_SNAPSHOT := 9.
Definition MSG_PRESENCE_REMOVAL := 10.

Definition MUTATION_MAGIC : bytes := [77; 75; 77; 84].
Definition COMMITTED_MAGIC : bytes := [77; 75; 67; 77].
Definition PROTOCOL_VERSION := 1.
Definition MUTATION_HEADER_BYTES := 26.
Definition COMMITTED_HEADER_BYTES := 33.
Definition MAX_SELECTION_ANCHOR_BYTES := 4096.

(** ** Selection presence *)

Inductive SelectionDirection := Forward | Backward.

Record SelectionPresence := {
  sp_anchor : bytes; sp_head : bytes;
  sp_direction : SelectionDirection; sp_sequence : Z }.

Record SelectionPresenceWire := {
  w_anchor : jstring; w_head : jstring;
  w_direction : SelectionDirection; w_sequence : Z }.

Definition toBase64Url (bs : bytes) : jstring :=
  strip_trailing 61
    (map (fun c => if c =? 43 then 45 else if c =? 47 then 95 else c) (btoa bs)).

(** [/^[A-Za-z0-9_-]+$/u] *)
Definition is_b64url (c : Z) : bool :=
  ((65 <=? c) && (c <=? 90)) || ((97 <=? c) && (c <=? 122)) ||
  ((48 <=? c) && (c <=? 57)) || (c =? 95) || (c =? 45).

(** [Math.ceil(MAX_SELECTION_ANCHOR_BYTES * 4 / 3)] *)
Definition MAX_ANCHOR_CHARS := (MAX_SELECTION_ANCHOR_BYTES * 4 + 2) / 3.

Definition fromBase64Url (value : jstring) : option bytes :=
  if negb (negb (len value =? 0) && forallb is_b64url value) then None
  else if MAX_ANCHOR_CHARS <? len value then None
  else
    let padded :=
      map (fun c => if c =? 45 then 43 else if c =? 95 then 47 else c) value
      ++ replicate (Z.to_nat ((4 - len value mod 4) mod 4)) 61 in
    match atob padded with
    | None => None
    | Some binary =>
        if (len binary =? 0) || (MAX_SELECTION_ANCHOR_BYTES <? len binary) then None
        else if negb (str_eqb (toBase64Url binary) value) then None
        else Some binary
    end.

Definition validateAnchor (value : bytes) : res unit :=
  if (len value =? 0) || (MAX_SELECTION_ANCHOR_BYTES <? len value)
  then range_error "marks: invalid selection anchor length" else Ok tt.

Definition isSequence (z : Z) : bool := isSafeInteger z && (0 <=? z).

Definition validateSequence (z : Z) : res unit :=
  if negb (isSequence z) then range_error "marks: invalid selection sequence" else Ok tt.

Definition encodeSelectionPresence (value : SelectionPresence) : res SelectionPresenceWire :=
  _ ← validateAnchor (sp_anchor value);
  _ ← validateAnchor (sp_head value);
  _ ← validateSequence (sp_sequence value);
  Ok {| w_anchor := toBase64Url (sp_anchor value);
        w_head := toBase64Url (sp_head value);
        w_direction := sp_direction value; w_sequence := sp_sequence value |}.

Definition direction_name (d : SelectionDirection) : jstring :=
  match d with Forward => lit "forward" | Backward => lit "backward" end.

(** [isDirection], giving the direction. *)
Definition isDirection (v : jsval) : option SelectionDirection :=
  if is_lit v "forward" then Some Forward
  else if is_lit v "backward" then Some Backward else None.

(** The object literal [{ v: 2, anchor, head, direction, sequence }] that is
    put into the presence store. *)
Definition wire_value (w : SelectionPresenceWire) : jsval :=
  VObj [(lit "v", VNum (NInt 2)); (lit "anchor", VStr (w_anchor w));
        (lit "head", VStr (w_head w)); (lit "direction", VStr (direction_name (w_direction w)));
        (lit "sequence", VNum (NInt (w_sequence w)))].

Definition decodeSelectionPresence (value : jsval) : option SelectionPresence :=
  if negb (is_object value) || is_array value then None
  else if is_int (field value "v") 2 then
    match as_str (field value "anchor"), as_str (field value "head") with
    | Some a, Some h =>
        match isDirection (field value "direction"), as_safe_int (field value "sequence") with
        | Some d, Some q =>
            if negb (0 <=? q) then None
            else match fromBase64Url a, fromBase64Url h with
                 | Some anchor, Some head =>
                     Some {| sp_anchor := anchor; sp_head := head;
                             sp_direction := d; sp_sequence := q |}
                 | _, _ => None
                 end
        | _, _ => None
        end
    | _, _ => None
    end
  else None.

(** ** Frames, mutations, receipts *)

Inductive MutationKind := Update | Snapshot.

#[global] Instance MutationKind_eq_dec : EqDecision MutationKind.
Proof. solve_decision. Defined.

Record CommittedReceipt := { rc_id : jstring; rc_revision : Z; rc_version : bytes }.

Definition frame (tag : Z) (payload : bytes) : bytes := tag :: payload.

Definition bytesToHex (bs : bytes) : jstring := concat (map hex2 bs).

(** [hex.match(/../g)] with [Number.parseInt(part, 16)] *)
Fixpoint hex_pairs (hex : jstring) : bytes :=
  match hex with
  | a :: b :: r => 16 * hex_value a + hex_value b :: hex_pairs r
  | _ => []
  end.

Definition mutation_id_ok (hex : jstring) : bool :=
  (len hex =? 32) && forallb is_hex hex && negb (forallb (fun c => c =? 48) hex).

Definition hexToBytes (hex : jstring) : res bytes :=
  if negb (mutation_id_ok hex)
  then type_error "marks: mutation id must be nonzero 128-bit lowercase hex"
  else Ok (hex_pairs hex).

(** The 16 bytes are the platform's random source. *)
Definition randomMutationId (random16 : bytes) : jstring :=
  let bs := if forallb (fun b => b =? 0) random16 then <[0%nat := 1]> random16 else random16 in
  bytesToHex bs.

Definition encodeMutation (id : jstring) (kind : MutationKind) (payload : bytes) : res bytes :=
  idBytes ← hexToBytes id;
  if (len payload =? 0) || (4294967295 <? len payload)
  then range_error "marks: mutation payload length is invalid"
  else Ok (MUTATION_MAGIC ++ [PROTOCOL_VERSION]
           ++ [match kind with Update => 1 | Snapshot => 2 end]
           ++ idBytes ++ le_bytes 4 (len payload) ++ payload).

Definition equalPrefix (bs prefix : bytes) : bool :=
  forallb (fun p => bool_decide (bs !! p.1 = Some p.2)) (imap (fun i b => (i, b)) prefix).

Definition decodeCommitted (payload : bytes) : res CommittedReceipt :=
  if (len payload <? COMMITTED_HEADER_BYTES) || negb (equalPrefix payload COMMITTED_MAGIC)
     || negb (bool_decide (payload !! 4%nat = Some PROTOCOL_VERSION))
  then type_error "marks: invalid committed receipt"
  else
    let versionLength := le_value (slice payload 29 33) in
    if negb (len payload =? COMMITTED_HEADER_BYTES + versionLength)
    then type_error "marks: committed receipt length mismatch"
    else Ok {| rc_id := bytesToHex (slice payload 5 21);
               rc_revision := le_value (slice payload 21 29);
               rc_version := slice_from payload COMMITTED_HEADER_BYTES |}.

(** ** Base64url *)

Lemma toBase64Url_eq bs :
  Forall is_byte bs -> toBase64Url bs = map (b64_char 45 95) (sextets bs).
Proof.
  intros H. apply sextets_range in H. unfold toBase64Url, btoa.
  rewrite map_app, map_map.
  replace (map (fun c => if c =? 43 then 45 else if c =? 47 then 95 else c)
             (replicate (Z.to_nat (pad_count (len (map (b64_char 43 47) (sextets bs))))) 61))
    with (replicate (Z.to_nat (pad_count (len (map (b64_char 43 47) (sextets bs))))) 61)
    by (induction (Z.to_nat _) as [|n IH]; simpl; [done | by rewrite <- IH]).
  assert (E : map (fun x => if b64_char 43 47 x =? 43 then 45
                            else if b64_char 43 47 x =? 47 then 95 else b64_char 43 47 x) (sextets bs)
              = map (b64_char 45 95) (sextets bs)).
  { apply map_ext_in. intros i Hi. rewrite Forall_forall in H.
    apply list_elem_of_In, H in Hi. unfold b64_char.
    destruct (Z.ltb_spec i 26), (Z.ltb_spec i 52), (Z.ltb_spec i 62), (Z.eqb_spec i 62);
      try lia; zdecide; lia. }
  rewrite E. apply strip_trailing_pad. apply not_in_chars; [done | lia ..].
Qed.

Lemma b64url_char_ok i : 0 <= i < 64 -> is_b64url (b64_char 45 95 i) = true.
Proof.
  intros. unfold is_b64url, b64_char.
  destruct (Z.ltb_spec i 26), (Z.ltb_spec i 52), (Z.ltb_spec i 62), (Z.eqb_spec i 62);
    try lia; zdecide; try done; lia.
Qed.

(** In the alphabet of [atob]. *)
Lemma toBase64Url_standard bs : Forall is_byte bs ->
  map (fun c => if c =? 45 then 43 else if c =? 95 then 47 else c) (toBase64Url bs) = map (b64_char 43 47) (sextets bs).
Proof.
  intros H. rewrite toBase64Url_eq, map_map by done. apply sextets_range in H. apply map_ext_in. intros i Hi. rewrite Forall_forall in H.
  apply list_elem_of_In, H in Hi. unfold b64_char.
  destruct (Z.ltb_spec i 26), (Z.ltb_spec i 52), (Z.ltb_spec i 62), (Z.eqb_spec i 62);
    try lia; zdecide; lia.
Qed.

Lemma fromBase64Url_toBase64Url bs :
  Forall is_byte bs -> 1 <= len bs <= MAX_SELECTION_ANCHOR_BYTES ->
  fromBase64Url (toBase64Url bs) = Some bs.
Proof.
  intros H Hl. pose proof (toBase64Url_eq bs H) as Eu. pose proof (sextets_range bs H) as Hs.
  pose proof (len_sextets bs) as Hn. unfold MAX_SELECTION_ANCHOR_BYTES in Hl.
  assert (Hlen : len (toBase64Url bs) = (4 * len bs + 2) / 3) by (by rewrite Eu, len_map).
  unfold fromBase64Url. rewrite Hlen.
  assert (2 <= (4 * len bs + 2) / 3 <= 5462) by (Z.to_euclidean_division_equations; lia).
  replace ((4 * len bs + 2) / 3 =? 0) with false by (symmetry; apply Z.eqb_neq; lia).
  replace (forallb is_b64url (toBase64Url bs)) with true.
  2:{ symmetry. apply forallb_forall. intros x Hx. rewrite Eu in Hx.
      apply in_map_iff in Hx as (i & <- & Hi). rewrite Forall_forall in Hs.
      apply b64url_char_ok, Hs, list_elem_of_In, Hi. }
  cbn [negb andb]. replace (MAX_ANCHOR_CHARS <? (4 * len bs + 2) / 3) with false
    by (symmetry; apply Z.ltb_ge; change MAX_ANCHOR_CHARS with 5462; lia).
  rewrite toBase64Url_standard by done. rewrite <- Hn.
  change ((4 - len (sextets bs) mod 4) mod 4) with (pad_count (len (sextets bs))).
  rewrite atob_padded; [| done | done | destruct (pad_count_sextets bs) as [-> | [-> | ->]]; lia].
  rewrite unsextets_sextets by done. unfold MAX_SELECTION_ANCHOR_BYTES.
  zdecide. by rewrite str_eqb_refl.
Qed.

(** Decoded anchors are bounded and canonical: re-encoding gives the input back. *)
Lemma fromBase64Url_Some value bs :
  fromBase64Url value = Some bs ->
  toBase64Url bs = value /\ 1 <= len bs <= MAX_SELECTION_ANCHOR_BYTES /\
  len value <= MAX_ANCHOR_CHARS.
Proof.
  unfold fromBase64Url. repeat case_match; try done. intros [= ->].
  reflect_bools. pose proof (len_nonneg bs). unfold MAX_SELECTION_ANCHOR_BYTES in *.
  split_and!; [done | lia | lia | lia].
Qed.

(** ** Selection presence *)

Definition selection_ok (s : SelectionPresence) : Prop :=
  1 <= len (sp_anchor s) <= MAX_SELECTION_ANCHOR_BYTES /\
  1 <= len (sp_head s) <= MAX_SELECTION_ANCHOR_BYTES /\
  0 <= sp_sequence s <= MAX_SAFE_INTEGER.

Lemma validateAnchor_Ok b u :
  validateAnchor b = Ok u <-> 1 <= len b <= MAX_SELECTION_ANCHOR_BYTES.
Proof.
  unfold validateAnchor. destruct u. pose proof (len_nonneg b).
  unfold MAX_SELECTION_ANCHOR_BYTES. zdecide; split; intros; try done; lia.
Qed.

Lemma isSequence_spec z : isSequence z = true <-> 0 <= z <= MAX_SAFE_INTEGER.
Proof.
  unfold isSequence. rewrite andb_true_iff, isSafeInteger_spec, Z.leb_le.
  unfold MAX_SAFE_INTEGER. lia.
Qed.

Lemma validateSequence_Ok z u : validateSequence z = Ok u <-> 0 <= z <= MAX_SAFE_INTEGER.
Proof.
  rewrite <- isSequence_spec. unfold validateSequence. destruct u, (isSequence z); done.
Qed.

Lemma encodeSelectionPresence_Ok s w :
  encodeSelectionPresence s = Ok w <->
  selection_ok s /\
  w = {| w_anchor := toBase64Url (sp_anchor s); w_head := toBase64Url (sp_head s);
         w_direction := sp_direction s; w_sequence := sp_sequence s |}.
Proof.
  unfold encodeSelectionPresence, selection_ok. rewrite !res_bind_Ok. split.
  - intros (u1 & H1 & H). rewrite res_bind_Ok in H. destruct H as (u2 & H2 & H).
    rewrite res_bind_Ok in H. destruct H as (u3 & H3 & H). injection H as <-.
    apply validateAnchor_Ok in H1, H2. apply validateSequence_Ok in H3. tauto.
  - intros [(H1 & H2 & H3) ->].
    exists tt. split; [by apply validateAnchor_Ok |]. rewrite res_bind_Ok.
    exists tt. split; [by apply validateAnchor_Ok |]. rewrite res_bind_Ok.
    exists tt. split; [by apply validateSequence_Ok | done].
Qed.

Lemma isDirection_name d : isDirection (VStr (direction_name d)) = Some d.
Proof. by destruct d. Qed.

(** A published selection is received as it was captured: whatever
    [encodeSelectionPresence] accepts, [decodeSelectionPresence] reads back
    unchanged (anchors, direction and sequence). *)
Theorem selection_presence_roundtrip s w :
  Forall is_byte (sp_anchor s) -> Forall is_byte (sp_head s) ->
  encodeSelectionPresence s = Ok w ->
  decodeSelectionPresence (wire_value w) = Some s.
Proof.
  intros Ha Hh [(H1 & H2 & H3) ->]%encodeSelectionPresence_Ok.
  unfold decodeSelectionPresence, wire_value. cbn [is_object is_array negb orb w_anchor w_head
    w_direction w_sequence].
  change (field _ "v") with (VNum (NInt 2)). change (field _ "anchor") with (VStr (toBase64Url (sp_anchor s))).
  change (field _ "head") with (VStr (toBase64Url (sp_head s))).
  change (field _ "direction") with (VStr (direction_name (sp_direction s))).
  change (field _ "sequence") with (VNum (NInt (sp_sequence s))).
  cbn [is_int as_str]. rewrite isDirection_name. cbn [as_safe_int].
  replace (isSafeInteger (sp_sequence s)) with true
    by (symmetry; apply isSafeInteger_spec; unfold MAX_SAFE_INTEGER in *; lia).
  replace (0 <=? sp_sequence s) with true by (symmetry; apply Z.leb_le; lia).
  rewrite !fromBase64Url_toBase64Url by done. by destruct s.
Qed.

(** Untrusted selections are bounded and canonical: whatever
    [decodeSelectionPresence] accepts is a valid selection with anchors of 1 to
    4096 bytes whose re-encoding is exactly the strings received. *)
Theorem decoded_selection_canonical value s :
  decodeSelectionPresence value = Some s ->
  selection_ok s /\
  exists w, encodeSelectionPresence s = Ok w /\
    field value "v" = VNum (NInt 2) /\
    field value "anchor" = VStr (w_anchor w) /\ field value "head" = VStr (w_head w) /\
    field value "direction" = VStr (direction_name (w_direction w)) /\
    field value "sequence" = VNum (NInt (w_sequence w)).
Proof.
  unfold decodeSelectionPresence. intros H. repeat case_match; try done. simplify_eq.
  reflect_bools.
  repeat match goal with
    | H : as_str _ = Some _ |- _ => apply as_str_Some in H
    | H : as_safe_int _ = Some _ |- _ => apply as_safe_int_Some in H as [? ?]
    | H : is_int _ _ = true |- _ => apply is_int_true in H
    | H : fromBase64Url _ = Some _ |- _ => apply fromBase64Url_Some in H as (? & ? & ?)
    | H : isSafeInteger _ = true |- _ => apply isSafeInteger_spec in H
    end.
  match goal with |- selection_ok ?s /\ _ => assert (Hok : selection_ok s) end.
  { unfold selection_ok. simpl. unfold MAX_SAFE_INTEGER in *. split_and!; lia. }
  split; [done |]. eexists. split; [apply encodeSelectionPresence_Ok; split; [done | reflexivity] |].
  cbn [w_anchor w_head w_direction w_sequence sp_anchor sp_head sp_direction sp_sequence].
  assert (Hd : forall v d, isDirection v = Some d -> v = VStr (direction_name d)).
  { intros v d. unfold isDirection.
    destruct (is_lit v "forward") eqn:E1; [intros [= <-]; by apply is_lit_true |].
    destruct (is_lit v "backward") eqn:E2; [intros [= <-]; by apply is_lit_true | done]. }
  split_and!; try congruence; by apply Hd.
Qed.

(** ** Hexadecimal identifiers *)

Lemma bytesToHex_app a b : bytesToHex (a ++ b) = bytesToHex a ++ bytesToHex b.
Proof. unfold bytesToHex. by rewrite map_app, concat_app. Qed.

Lemma len_bytesToHex bs : len (bytesToHex bs) = 2 * len bs.
Proof.
  induction bs as [|b r IH]; [done |].
  change (bytesToHex (b :: r)) with (hex2 b ++ bytesToHex r).
  rewrite len_app, len_cons, IH. change (len (hex2 b)) with 2. lia.
Qed.

Lemma hex_pairs_bytesToHex bs : Forall is_byte bs -> hex_pairs (bytesToHex bs) = bs.
Proof.
  induction 1 as [|b r Hb Hr IH]; [done |].
  change (hex_pairs (bytesToHex (b :: r))) with
    (16 * hex_value (hex_digit (b / 16)) + hex_value (hex_digit (b mod 16))
     :: hex_pairs (bytesToHex r)).
  unfold is_byte in Hb. rewrite IH, !hex_value_digit by (Z.to_euclidean_division_equations; lia).
  f_equal. pose proof (Z.div_mod b 16). lia.
Qed.

Lemma bytesToHex_is_hex bs : Forall is_byte bs -> forallb is_hex (bytesToHex bs) = true.
Proof.
  induction 1 as [|b r Hb Hr IH]; [done |].
  change (forallb is_hex (bytesToHex (b :: r))) with
    (is_hex (hex_digit (b / 16)) && (is_hex (hex_digit (b mod 16)) && forallb is_hex (bytesToHex r))).
  unfold is_byte in Hb.
  by rewrite IH, !hex_digit_is_hex by (Z.to_euclidean_division_equations; lia).
Qed.

(** Hex strings of even length come from bytes. *)
Lemma hex_pairs_inverse hex n :
  len hex = 2 * Z.of_nat n -> forallb is_hex hex = true ->
  bytesToHex (hex_pairs hex) = hex /\ len (hex_pairs hex) = Z.of_nat n /\
  Forall is_byte (hex_pairs hex).
Proof.
  revert hex. induction n as [|n IH]; intros hex Hl Hh.
  - assert (hex = []) as -> by (apply len_zero_nil; lia). done.
  - destruct hex as [|a [|b r]]; [unfold len in Hl; simpl in Hl; lia ..|].
    cbn [forallb] in Hh. apply andb_true_iff in Hh as [Ha Hh].
    apply andb_true_iff in Hh as [Hb Hh].
    rewrite !len_cons in Hl. destruct (IH r) as (E & L & B); [lia | done |].
    apply hex_digit_value in Ha as [Ea Va]. apply hex_digit_value in Hb as [Eb Vb].
    cbn [hex_pairs]. set (x := 16 * hex_value a + hex_value b).
    assert (Hdiv : x / 16 = hex_value a) by (symmetry; apply (Z.div_unique _ _ _ (hex_value b)); lia).
    assert (Hmod : x mod 16 = hex_value b) by (symmetry; apply (Z.mod_unique _ _ (hex_value a)); lia).
    split_and!.
    + change (bytesToHex (x :: hex_pairs r)) with (hex2 x ++ bytesToHex (hex_pairs r)).
      unfold hex2. by rewrite Hdiv, Hmod, Ea, Eb, E.
    + rewrite len_cons, L. lia.
    + constructor; [unfold is_byte; lia | done].
Qed.

Lemma mutation_id_ok_hex hex :
  mutation_id_ok hex = true ->
  bytesToHex (hex_pairs hex) = hex /\ len (hex_pairs hex) = 16 /\ Forall is_byte (hex_pairs hex).
Proof.
  unfold mutation_id_ok. intros H. reflect_bools. by apply (hex_pairs_inverse hex 16).
Qed.

Lemma zero_hex_digits bs :
  Forall is_byte bs -> forallb (fun c => c =? 48) (bytesToHex bs) = true ->
  Forall (fun b => b = 0) bs.
Proof.
  induction 1 as [|b r Hb Hr IH]; intros H; [constructor |].
  change (forallb (fun c => c =? 48) (bytesToHex (b :: r))) with
    ((hex_digit (b / 16) =? 48) && ((hex_digit (b mod 16) =? 48)
       && forallb (fun c => c =? 48) (bytesToHex r))) in H.
  reflect_bools. constructor; [|auto]. unfold is_byte in Hb.
  assert (hex_value (hex_digit (b / 16)) = 0) by (by rewrite H).
  assert (hex_value (hex_digit (b mod 16)) = 0) by (by rewrite H0).
  rewrite hex_value_digit in * by (Z.to_euclidean_division_equations; lia).
  pose proof (Z.div_mod b 16). lia.
Qed.

(** Every generated mutation id is accepted by the frame encoder: sixteen
    random bytes always give 32 lowercase hex digits that are not all zero,
    and the encoder's own id bytes are those random bytes (with the all-zero
    draw replaced). *)
Theorem randomMutationId_valid random16 :
  Forall is_byte random16 -> len random16 = 16 ->
  exists ids, hexToBytes (randomMutationId random16) = Ok ids /\
    len ids = 16 /\ ~ Forall (fun b => b = 0) ids /\
    (~ Forall (fun b => b = 0) random16 -> ids = random16).
Proof.
  intros Hb Hl. unfold randomMutationId.
  set (bs := if forallb _ _ then _ else _).
  assert (Hz : forallb (fun b => b =? 0) random16 = true <-> Forall (fun b => b = 0) random16).
  { rewrite forallb_forall, Forall_forall. setoid_rewrite Z.eqb_eq.
    split; intros Hx x Hi; apply Hx; by apply list_elem_of_In. }
  assert (Hbs : Forall is_byte bs /\ len bs = 16 /\ ~ Forall (fun b => b = 0) bs /\
                (~ Forall (fun b => b = 0) random16 -> bs = random16)).
  { subst bs. destruct (forallb _ random16) eqn:E.
    - pose proof (proj1 Hz eq_refl) as Hall.
      destruct random16 as [|x r]; [done |]. apply Forall_cons in Hb as [_ Hb].
      clear Hz E. change (<[0%nat:=1]> (x :: r)) with (1 :: r).
      split; [constructor; [unfold is_byte; lia | done] |]. split; [done |].
      split; [intros [? _]%Forall_cons; lia | by intros Hn; destruct Hn].
    - split_and!; try done. intros H. by apply Hz in H. }
  destruct Hbs as (B & L & N & K). exists bs. split_and!; try done.
  unfold hexToBytes, mutation_id_ok.
  rewrite len_bytesToHex, L, bytesToHex_is_hex by done.
  destruct (forallb (fun c => c =? 48) (bytesToHex bs)) eqn:E.
  { by apply zero_hex_digits in E. }
  simpl. by rewrite hex_pairs_bytesToHex.
Qed.

(** ** Mutation frames *)

(** The receiver's view of a mutation frame: the documented layout
    [MKMT | version | kind | id(16) | length(u32 LE) | payload]. *)
Definition mutation_layout (idBytes : bytes) (kind : MutationKind) (payload : bytes) : bytes :=
  MUTATION_MAGIC ++ [1] ++ [match kind with Update => 1 | Snapshot => 2 end] ++ idBytes
  ++ le_bytes 4 (len payload) ++ payload.

Definition parse_mutation (f : bytes) : option (jstring * MutationKind * bytes) :=
  if str_eqb (slice f 0 4) MUTATION_MAGIC && bool_decide (f !! 4%nat = Some 1)
     && (le_value (slice f 22 26) + 26 =? len f)
  then match f !! 5%nat with
       | Some 1 => Some (bytesToHex (slice f 6 22), Update, slice_from f 26)
       | Some 2 => Some (bytesToHex (slice f 6 22), Snapshot, slice_from f 26)
       | _ => None
       end
  else None.

Lemma slice_app_mid {A} (a b c : list A) i j :
  i = len a -> j = len a + len b -> slice (a ++ b ++ c) i j = b.
Proof.
  intros -> ->. pose proof (len_nonneg a). pose proof (len_nonneg b). pose proof (len_nonneg c).
  rewrite slice_in by (rewrite !len_app; lia).
  unfold len. replace (Z.to_nat (Z.of_nat (length a))) with (length a) by lia.
  rewrite drop_app_length. replace (Z.to_nat _) with (length b) by lia.
  apply take_app_length.
Qed.

Lemma slice_from_app {A} (a b : list A) i : i = len a -> slice_from (a ++ b) i = b.
Proof.
  intros ->. pose proof (len_nonneg a). pose proof (len_nonneg b).
  rewrite slice_from_in by (rewrite len_app; lia).
  unfold len. replace (Z.to_nat (Z.of_nat (length a))) with (length a) by lia.
  apply drop_app_length.
Qed.

(** Mutation frames carry their content exactly: [encodeMutation] succeeds
    just for a nonzero 128-bit lowercase id and a payload of 1 to 2^32-1 bytes,
    and a receiver that follows the documented layout reads back the same id,
    kind and payload. *)
Theorem encodeMutation_roundtrip id kind payload :
  match encodeMutation id kind payload with
  | Ok f => mutation_id_ok id = true /\ 1 <= len payload <= 4294967295 /\
            parse_mutation f = Some (id, kind, payload)
  | Throw e => (mutation_id_ok id = false /\ exn_kind e = TypeError) \/
               (mutation_id_ok id = true /\ exn_kind e = RangeError /\
                ~ (1 <= len payload <= 4294967295))
  end.
Proof.
  unfold encodeMutation, hexToBytes. destruct (mutation_id_ok id) eqn:Eid; [| by left].
  cbn [negb mbind res_bind]. pose proof (len_nonneg payload).
  destruct ((len payload =? 0) || (4294967295 <? len payload)) eqn:El.
  { right. split_and!; try done. apply orb_true_iff in El. rewrite Z.eqb_eq, Z.ltb_lt in El. lia. }
  reflect_bools. split_and!; [done | lia | lia |].
  destruct (mutation_id_ok_hex id Eid) as (Ehex & L16 & HB).
  set (k := match kind with Update => 1 | Snapshot => 2 end).
  set (ids := hex_pairs id) in *. set (lenb := le_bytes 4 (len payload)).
  assert (Hlb : len lenb = 4) by apply len_le_bytes.
  unfold parse_mutation.
  set (f := MUTATION_MAGIC ++ [PROTOCOL_VERSION] ++ [k] ++ ids ++ lenb ++ payload).
  assert (E0 : slice f 0 4 = MUTATION_MAGIC).
  { apply (slice_app_mid [] MUTATION_MAGIC); done. }
  assert (E4 : f !! 4%nat = Some 1) by done.
  assert (E5 : f !! 5%nat = Some k) by done.
  assert (E6 : slice f 6 22 = ids).
  { apply (slice_app_mid (MUTATION_MAGIC ++ [1] ++ [k]) ids); rewrite ?L16; done. }
  assert (E22 : slice f 22 26 = lenb).
  { replace f with ((MUTATION_MAGIC ++ [1] ++ [k] ++ ids) ++ lenb ++ payload)
      by (unfold f; by rewrite <- !app_assoc).
    apply slice_app_mid; rewrite !len_app, L16, ?Hlb; done. }
  assert (E26 : slice_from f 26 = payload).
  { replace f with ((MUTATION_MAGIC ++ [1] ++ [k] ++ ids ++ lenb) ++ payload)
      by (unfold f; by rewrite <- !app_assoc).
    apply slice_from_app. rewrite !len_app, L16, Hlb. done. }
  assert (El' : len f = 26 + len payload)
    by (unfold f; rewrite !len_app, L16, Hlb; change (len MUTATION_MAGIC) with 4;
        change (len [PROTOCOL_VERSION]) with 1; change (len [k]) with 1; lia).
  rewrite E0, E4, E5, E6, E22, E26, El', str_eqb_refl, Ehex.
  rewrite bool_decide_eq_true_2 by done. subst lenb.
  rewrite le_value_le_bytes by (change (256 ^ Z.of_nat 4) with 4294967296; lia).
  replace (len payload + 26 =? 26 + len payload) with true by (symmetry; apply Z.eqb_eq; lia).
  by destruct kind.
Qed.

(** ** Committed receipts *)

Definition receipt_layout (idBytes : bytes) (revision : Z) (version : bytes) : bytes :=
  COMMITTED_MAGIC ++ [1] ++ idBytes ++ le_bytes 8 revision ++ le_bytes 4 (len version) ++ version.

Lemma Forall_slice {A} (P : A -> Prop) l i j : Forall P l -> Forall P (slice l i j).
Proof. intros. unfold slice. by apply Forall_take, Forall_drop. Qed.

Lemma committed_prefix payload :
  33 <= len payload ->
  equalPrefix payload COMMITTED_MAGIC = true /\ payload !! 4%nat = Some PROTOCOL_VERSION <->
  slice payload 0 5 = COMMITTED_MAGIC ++ [1].
Proof.
  intros Hl. rewrite slice_0 by lia. change (Z.to_nat 5) with 5%nat.
  do 5 (destruct payload as [|? payload]; [unfold len in Hl; simpl in Hl; lia |]).
  unfold equalPrefix, PROTOCOL_VERSION, COMMITTED_MAGIC. cbn [imap forallb].
  rewrite !andb_true_iff, !bool_decide_eq_true. simpl.
  split; [intros [(? & ? & ? & ? & _) ?]; simplify_eq; done | intros [= -> -> -> -> ->]; done].
Qed.

Lemma receipt_parts (payload : bytes) :
  33 <= len payload ->
  payload = slice payload 0 5 ++ slice payload 5 21 ++ slice payload 21 29
            ++ slice payload 29 33 ++ slice_from payload 33.
Proof.
  intros Hl. rewrite <- (slice_parts payload 33) at 1 by lia.
  rewrite (slice_split payload 0 5 33), (slice_split payload 5 21 33),
    (slice_split payload 21 29 33) by lia.
  by rewrite <- !app_assoc.
Qed.

(** Commit receipts are read exactly: [decodeCommitted] accepts a byte
    string if and only if it is the documented layout of some id, 64-bit
    revision and version, with no byte missing or left over, and returns that
    id, revision and version; everything else is a [TypeError]. *)
Theorem decodeCommitted_exact payload :
  Forall is_byte payload ->
  match decodeCommitted payload with
  | Ok r =>
      exists ids, rc_id r = bytesToHex ids /\ len ids = 16 /\
        0 <= rc_revision r < 2 ^ 64 /\
        payload = receipt_layout ids (rc_revision r) (rc_version r)
  | Throw e =>
      exn_kind e = TypeError /\
      forall ids revision version,
        len ids = 16 -> 0 <= revision < 2 ^ 64 -> len version < 2 ^ 32 ->
        payload <> receipt_layout ids revision version
  end.
Proof.
  intros HB.
  assert (Hbad : forall ids revision version,
     len ids = 16 -> len version < 2 ^ 32 -> payload = receipt_layout ids revision version ->
     33 <= len payload /\ slice payload 0 5 = COMMITTED_MAGIC ++ [1] /\
     le_value (slice payload 29 33) = len version /\ len payload = 33 + len version).
  { intros ids revision version Hi Hv ->. unfold receipt_layout.
    pose proof (len_nonneg version).
    rewrite !len_app, Hi, !len_le_bytes. change (len COMMITTED_MAGIC) with 4.
    change (len [1]) with 1. split_and!; [lia | | | lia].
    - rewrite (app_assoc COMMITTED_MAGIC [1]). by apply (slice_app_mid []).
    - replace (slice _ 29 33) with (le_bytes 4 (len version)).
      { apply le_value_le_bytes. change (256 ^ Z.of_nat 4) with (2 ^ 32). lia. }
      symmetry. transitivity (slice ((COMMITTED_MAGIC ++ [1] ++ ids ++ le_bytes 8 revision)
        ++ le_bytes 4 (len version) ++ version) 29 33); [by rewrite <- !app_assoc |].
      apply slice_app_mid; rewrite !len_app, Hi, !len_le_bytes; done. }
  unfold decodeCommitted. change COMMITTED_HEADER_BYTES with 33.
  destruct (Z.ltb_spec (len payload) 33) as [Hl | Hl]; cbn [orb].
  { split; [done |]. intros ids rev ver Hi _ Hv E.
    destruct (Hbad ids rev ver) as (? & _); try done. lia. }
  pose proof (committed_prefix payload Hl) as Hp.
  destruct (negb (equalPrefix payload COMMITTED_MAGIC)
            || negb (bool_decide (payload !! 4%nat = Some PROTOCOL_VERSION))) eqn:E.
  { split; [done |]. intros ids rev ver Hi _ Hv Ep.
    destruct (Hbad ids rev ver) as (_ & H5 & _); try done. apply Hp in H5 as [H1 H2].
    rewrite H1, bool_decide_eq_true_2 in E by done. done. }
  reflect_bools.
  assert (H5 : slice payload 0 5 = COMMITTED_MAGIC ++ [1]) by (apply Hp; done).
  destruct (Z.eqb_spec (len payload) (33 + le_value (slice payload 29 33))) as [El | El];
    cbn [negb].
  - exists (slice payload 5 21). cbn [rc_id rc_revision rc_version].
    assert (L8 : length (slice payload 21 29) = 8%nat)
      by (pose proof (len_slice payload 21 29); unfold len in *; lia).
    assert (L4 : length (slice payload 29 33) = 4%nat)
      by (pose proof (len_slice payload 29 33); unfold len in *; lia).
    split_and!; [done | by rewrite len_slice by lia | | |].
    + apply le_value_bound. by apply Forall_slice.
    + pose proof (le_value_bound (slice payload 21 29)) as Hb.
      unfold len in Hb at 1. rewrite L8 in Hb. apply Hb. by apply Forall_slice.
    + unfold receipt_layout. rewrite len_slice_from by lia.
      replace (len payload - 33) with (le_value (slice payload 29 33)) by lia.
      rewrite <- L8, <- L4 at 1. rewrite !le_bytes_le_value by (by apply Forall_slice).
      rewrite (receipt_parts payload) at 1 by done. by rewrite H5, <- !app_assoc.
  - split; [done |]. intros ids rev ver Hi _ Hv Ep.
    destruct (Hbad ids rev ver) as (_ & _ & Hle & Hpl); try done. lia.
Qed.

(** ** Concrete instances *)

Definition demo_selection : SelectionPresence :=
  {| sp_anchor := [1; 2; 255; 0]; sp_head := [250]; sp_direction := Backward; sp_sequence := 17 |}.

Definition demo_wire : SelectionPresenceWire :=
  {| w_anchor := lit "AQL_AA"; w_head := lit "-g"; w_direction := Backward; w_sequence := 17 |}.

Lemma selection_presence_roundtrip_witness :
  decodeSelectionPresence (wire_value demo_wire) = Some demo_selection.
Proof.
  apply (selection_presence_roundtrip demo_selection demo_wire).
  - repeat constructor; unfold is_byte; simpl; lia.
  - repeat constructor; unfold is_byte; simpl; lia.
  - vm_compute. reflexivity.
Defined.

Lemma decoded_selection_canonical_witness :
  exists w, encodeSelectionPresence demo_selection = Ok w.
Proof.
  destruct (decoded_selection_canonical (wire_value demo_wire) demo_selection) as [_ (w & H & _)].
  - vm_compute. reflexivity.
  - exists w. exact H.
Defined.

Lemma randomMutationId_valid_witness :
  exists ids, hexToBytes (randomMutationId (replicate 16 0)) = Ok ids /\
    len ids = 16 /\ ~ Forall (fun b => b = 0) ids /\
    (~ Forall (fun b => b = 0) (replicate 16 0) -> ids = replicate 16 0).
Proof.
  apply (randomMutationId_valid (replicate 16 0)).
  - apply Forall_replicate. unfold is_byte. lia.
  - reflexivity.
Defined.

Definition demo_receipt : bytes := receipt_layout (replicate 16 10) 258 [5; 6; 7].

Lemma decodeCommitted_exact_witness :
  exists r ids, decodeCommitted demo_receipt = Ok r /\ rc_id r = bytesToHex ids /\ rc_revision r = 258.
Proof.
  pose proof (decodeCommitted_exact demo_receipt) as H.
  assert (HB : Forall is_byte demo_receipt).
  { apply (Forall_impl (fun b => byteb b = true)).
    - apply (bool_decide_eq_true_1 _). vm_compute. reflexivity.
    - unfold byteb, is_byte. intros b Hb. reflect_bools. lia. }
  specialize (H HB).
  destruct (decodeCommitted demo_receipt) as [r|] eqn:E; [|vm_compute in E; discriminate].
  destruct H as (ids & Hid & _). exists r, ids. split; [done |]. split; [exact Hid |].
  vm_compute in E. injection E as <-. reflexivity.
Defined.
