(* ===== verification/Timers.v ===== *)
(** Browser timers: [setTimeout] hands out a fresh handle for a callback and a
    delay, [clearTimeout] disarms a handle, and the event loop fires an armed
    handle once. Components name their callbacks by an inductive type [K] and
    run them in their own handler of the firing event. *)

From Stdlib Require Export QArith Qminmax Lqa.
From S2P Require Import Prelude.

#[global] Open Scope Z_scope.

Record timers (K : Type) := { t_next : Z; t_armed : gmap Z (K * Q) }.
Arguments t_next {K} _.
Arguments t_armed {K} _.

Section Timers.
Context {K : Type}.
Implicit Types (t : timers K) (h : Z) (k : K) (d : Q).

Definition no_timers : timers K := {| t_next := 1; t_armed := ∅ |}.

Definition setTimeout k d t : Z * timers K :=
  (t_next t, {| t_next := t_next t + 1; t_armed := <[t_next t := (k, d)]> (t_armed t) |}).

Definition clearTimeout h t : timers K :=
  {| t_next := t_next t; t_armed := base.delete h (t_armed t) |}.

Definition clear_opt (o : option Z) t : timers K :=
  match o with Some h => clearTimeout h t | None => t end.

(** The loop takes an armed handle out and runs its callback. *)
Definition expire h t : option (K * timers K) :=
  match t_armed t !! h with
  | Some (k, _) => Some (k, clearTimeout h t)
  | None => None
  end.

(** Handles are never reused: everything armed is older than the next one. *)
Definition timers_wf t : Prop := forall h x, t_armed t !! h = Some x -> h < t_next t.

Lemma no_timers_wf : timers_wf no_timers.
Proof. intros h x. unfold no_timers. simpl. by rewrite lookup_empty. Qed.

Lemma setTimeout_wf k d t : timers_wf t -> timers_wf (setTimeout k d t).2.
Proof.
  intros Hw h x. simpl. intros [[<- _] | [_ H]]%lookup_insert_Some; [lia |].
  specialize (Hw _ _ H). lia.
Qed.

Lemma clearTimeout_wf h t : timers_wf t -> timers_wf (clearTimeout h t).
Proof. intros Hw h' x H. simpl in *. apply lookup_delete_Some in H as [_ H]. by eapply Hw. Qed.

Lemma clear_opt_wf o t : timers_wf t -> timers_wf (clear_opt o t).
Proof. destruct o; [apply clearTimeout_wf | done]. Qed.

Lemma clear_opt_lookup o t h :
  t_armed (clear_opt o t) !! h = if decide (o = Some h) then None else t_armed t !! h.
Proof.
  destruct (decide (o = Some h)) as [->|Hne]; [apply lookup_delete_eq |].
  destruct o as [h0|]; [|done]. apply lookup_delete_ne. congruence.
Qed.

Lemma setTimeout_lookup k d t h :
  t_armed (setTimeout k d t).2 !! h = if decide (h = t_next t) then Some (k, d) else t_armed t !! h.
Proof.
  simpl. destruct (decide (h = t_next t)) as [->|]; [apply lookup_insert_eq | by apply lookup_insert_ne].
Qed.

Lemma expire_Some h t k t' :
  expire h t = Some (k, t') -> (exists d, t_armed t !! h = Some (k, d)) /\ t' = clearTimeout h t.
Proof.
  unfold expire. destruct (t_armed t !! h) as [[k' d]|]; intros [= -> <-]; eauto.
Qed.
End Timers.

#[export] Hint Resolve no_timers_wf setTimeout_wf clearTimeout_wf clear_opt_wf : marks.
