(* ===== verification/PresenceStore.v ===== *)
(** The lossy presence protocol ([client/src/collab/presence-store.ts]): the
    bounded writer and reader, the frame codec and the store itself. *)

From S2P Require Import Prelude Bytes TextChange JsValue Protocol.

(** ** Constants *)

Definition PRESENCE_TAG := 5.
Definition PRESENCE_VERSION := 2.
Definition FLAG_DELETED := 1.
Definition INSTANCE_BYTES := 16.
Definition MAX_SEQUENCE := MAX_SAFE_INTEGER.
Definition MAX_PRESENCE_BYTES := 65536.
Definition MAX_PRESENCE_ENTRIES := 256.
Definition MAX_KEY_BYTES := 256.
Definition MAX_VALUE_BYTES := 16384.
Definition MAX_BOOTSTRAP_AGE_MS := 30000.

(** ** JSON

    [JSON.stringify] prints arbitrary doubles, so the text of a value stays
    abstract; the store relies on the laws below only. *)
Class JSON := {
  json_stringify : jsval -> res (option jstring);  (* [Ok None]: [undefined] *)
  json_parse : jstring -> res jsval }.

Class JSONLaws (J : JSON) := {
  (** Printed text parses, and what it parses to prints as the same text. The
      value need not come back: [Infinity], which [JSON.parse] reads from
      [1e400], prints as [null], and [-0] prints as [0]. *)
  json_settles : forall v t, json_stringify v = Ok (Some t) ->
    exists v', json_parse t = Ok v' /\ json_stringify v' = Ok (Some t);
  (** Printed text has no lone surrogate and does not start with U+FEFF. *)
  json_text : forall v t, json_stringify v = Ok (Some t) ->
    well_formed16 t /\ head t <> Some 65279 }.

(** ** Writer *)

Record Writer := { w_cap : Z; w_data : bytes }.

Definition new_writer : Writer := {| w_cap := 256; w_data := [] |}.

(** [while (next < required) next = Math.min(MAX_PRESENCE_BYTES, next * 2)] *)
Fixpoint grow_loop (fuel : nat) (next required : Z) : Z :=
  match fuel with
  | O => next
  | S f => if next <? required then grow_loop f (Z.min MAX_PRESENCE_BYTES (next * 2)) required
           else next
  end.

Definition grow (w : Writer) (extra : Z) : res Writer :=
  let required := len (w_data w) + extra in
  if MAX_PRESENCE_BYTES <? required then range_error "marks: presence payload exceeds 64 KiB"
  else if required <=? w_cap w then Ok w
  else Ok {| w_cap := grow_loop 16 (w_cap w) required; w_data := w_data w |}.

Definition w_u8 (w : Writer) (value : Z) : res Writer :=
  w ← grow w 1;
  Ok {| w_cap := w_cap w; w_data := w_data w ++ [Z.land value 255] |}.

(** The [do ... while] of [uint]; eight groups of seven bits cover every safe
    integer. *)
Fixpoint w_uint_loop (fuel : nat) (w : Writer) (value : Z) : res Writer :=
  match fuel with
  | O => Ok w
  | S f =>
      let byte := value mod 128 in
      let value := value / 128 in
      w ← w_u8 w (Z.lor byte (if 0 <? value then 128 else 0));
      if 0 <? value then w_uint_loop f w value else Ok w
  end.

Definition w_uint (w : Writer) (value : Z) : res Writer :=
  if negb (isSafeInteger value) || (value <? 0)
  then range_error "marks: invalid presence integer"
  else w_uint_loop 8 w value.

Definition w_raw (w : Writer) (value : bytes) : res Writer :=
  w ← grow w (len value);
  Ok {| w_cap := w_cap w; w_data := w_data w ++ value |}.

Definition w_bytes (w : Writer) (value : bytes) (maximum : Z) : res Writer :=
  if maximum <? len value then range_error "marks: presence field exceeds its limit"
  else w ← w_uint w (len value); w_raw w value.

Definition w_string (w : Writer) (value : jstring) (maximum : Z) : res Writer :=
  w_bytes w (utf8_encode value) maximum.

Definition w_done (w : Writer) : bytes := w_data w.

(** ** Reader: a parser of the bytes from the current offset on *)

Definition new_reader (buffer : bytes) : res bytes :=
  if (len buffer =? 0) || (MAX_PRESENCE_BYTES <? len buffer)
  then range_error "marks: invalid presence payload length" else Ok buffer.

Definition r_u8 (r : bytes) : res (Z * bytes) :=
  match r with
  | [] => type_error "marks: truncated presence payload"
  | b :: rest => Ok (b, rest)
  end.

Fixpoint r_uint_loop (fuel : nat) (value factor encodedBytes : Z) (r : bytes)
    : res (Z * bytes) :=
  match fuel with
  | O => range_error "marks: presence integer overflow"
  | S f =>
      '(byte, r) ← r_u8 r;
      let encodedBytes := encodedBytes + 1 in
      let value := value + Z.land byte 127 * factor in
      if negb (isSafeInteger value) then range_error "marks: presence integer overflow"
      else if Z.land byte 128 =? 0 then
        if (1 <? encodedBytes) && (byte =? 0)
        then type_error "marks: non-canonical presence integer"
        else Ok (value, r)
      else
        let factor := factor * 128 in
        if negb (isSafeInteger factor) then range_error "marks: presence integer overflow"
        else r_uint_loop f value factor encodedBytes r
  end.

(** The factor leaves the safe integers after eight bytes, which ends the
    source's unbounded loop before the fuel does. *)
Definition r_uint (r : bytes) : res (Z * bytes) := r_uint_loop 9 0 1 0 r.

Definition r_raw (length : Z) (r : bytes) : res (bytes * bytes) :=
  if len r <? length then type_error "marks: truncated presence payload"
  else Ok (slice r 0 length, slice_from r length).

Definition r_bytes (maximum : Z) (r : bytes) : res (bytes * bytes) :=
  '(length, r) ← r_uint r;
  if maximum <? length then type_error "marks: invalid presence field length"
  else r_raw length r.

Definition r_string (maximum : Z) (r : bytes) : res (jstring * bytes) :=
  '(bs, r) ← r_bytes maximum r;
  match utf8_decode bs with
  | Some s => Ok (s, r)
  | None => type_error "The encoded data was not valid for encoding utf-8"
  end.

Definition r_finish (r : bytes) : res unit :=
  if len r =? 0 then Ok tt else type_error "marks: trailing presence bytes".

(** ** Frames *)

Record DecodedEntry := { d_key : jstring; d_deleted : bool; d_age : Z; d_value : jsval }.

Record DecodedFrame := {
  f_instance : bytes; f_instanceKey : jstring; f_sequence : Z; f_entries : list DecodedEntry }.

(** [instanceKey]: the lowercase hex of the instance bytes. *)
Definition instanceKey (value : bytes) : jstring := concat (map hex2 value).

Section Codec.
Context `{J : JSON}.

(** [value ?? null] *)
Definition or_null (v : jsval) : jsval := match v with VUndef => VNull | _ => v end.

Definition serializableValue (value : jsval) : res jsval :=
  json ← json_stringify (or_null value);
  match json with
  | None => type_error "marks: presence value is not serializable"
  | Some json =>
      if MAX_VALUE_BYTES <? len (utf8_encode json)
      then range_error "marks: presence value exceeds 16 KiB"
      else json_parse json
  end.

Definition decodeEntry (r : bytes) : res (DecodedEntry * bytes) :=
  '(key, r) ← r_string MAX_KEY_BYTES r;
  if len key =? 0 then type_error "marks: empty presence key"
  else
    '(flags, r) ← r_u8 r;
    if flags =? FLAG_DELETED
    then Ok ({| d_key := key; d_deleted := true; d_age := 0; d_value := VUndef |}, r)
    else if negb (flags =? 0) then type_error "marks: unsupported presence flags"
    else
      '(age, r) ← r_uint r;
      '(json, r) ← r_string MAX_VALUE_BYTES r;
      value ← json_parse json;
      Ok ({| d_key := key; d_deleted := false; d_age := age; d_value := value |}, r).

Fixpoint decodeEntries (count : nat) (r : bytes) : res (list DecodedEntry * bytes) :=
  match count with
  | O => Ok ([], r)
  | S n =>
      '(e, r) ← decodeEntry r;
      '(es, r) ← decodeEntries n r;
      Ok (e :: es, r)
  end.

Definition decodeFrame (bs : bytes) : res DecodedFrame :=
  r ← new_reader bs;
  '(tag, r) ← r_u8 r;
  if negb (tag =? PRESENCE_TAG) then type_error "marks: unsupported presence payload"
  else
    '(version, r) ← r_u8 r;
    if negb (version =? PRESENCE_VERSION)
    then type_error "marks: unsupported presence payload"
    else
      '(instance, r) ← r_raw INSTANCE_BYTES r;
      '(sequence, r) ← r_uint r;
      if (sequence =? 0) || (MAX_SEQUENCE <? sequence)
      then range_error "marks: invalid presence sequence"
      else
        '(count, r) ← r_uint r;
        if MAX_PRESENCE_ENTRIES <? count then range_error "marks: too many presence entries"
        else
          '(es, r) ← decodeEntries (Z.to_nat count) r;
          _ ← r_finish r;
          Ok {| f_instance := instance; f_instanceKey := instanceKey instance;
                f_sequence := sequence; f_entries := es |}.

Definition decodePresenceFrame (bs : bytes) : res (list DecodedEntry) :=
  frame ← decodeFrame bs; Ok (f_entries frame).
End Codec.

(** ** The store *)

Record Entry := {
  e_value : jsval; e_receivedAt : Z; e_instance : jstring; e_deleted : bool; e_local : bool }.

Record Store := {
  entries : list (jstring * Entry);
  greatestSequence : list (jstring * Z);
  instance : bytes;
  sequence : Z;
  destroyed : bool;
  ttlMs : Z;
  hasUpdateListener : bool }.

(** What subscribers observe: a change notification or a local frame. *)
Inductive output := Notify | LocalUpdate (frame : bytes).

Definition upd_entries (s : Store) es :=
  {| entries := es; greatestSequence := greatestSequence s; instance := instance s;
     sequence := sequence s; destroyed := destroyed s; ttlMs := ttlMs s;
     hasUpdateListener := hasUpdateListener s |}.

Definition upd_sequence (s : Store) q :=
  {| entries := entries s; greatestSequence := greatestSequence s; instance := instance s;
     sequence := q; destroyed := destroyed s; ttlMs := ttlMs s;
     hasUpdateListener := hasUpdateListener s |}.

Definition upd_greatest (s : Store) g :=
  {| entries := entries s; greatestSequence := g; instance := instance s;
     sequence := sequence s; destroyed := destroyed s; ttlMs := ttlMs s;
     hasUpdateListener := hasUpdateListener s |}.

(** The constructor; [instance] is the platform's random draw. *)
Definition new_store (ttl : Z) (random16 : bytes) : res Store :=
  if ttl <? 1 then range_error "marks: presence TTL must be positive"
  else Ok {| entries := []; greatestSequence := []; instance := random16; sequence := 0;
             destroyed := false; ttlMs := ttl; hasUpdateListener := false |}.

(** [if (entry.local) entry.instance = instanceKey(this.instance)] *)
Definition retag (inst : jstring) (e : Entry) : Entry :=
  if e_local e then {| e_value := e_value e; e_receivedAt := e_receivedAt e;
                       e_instance := inst; e_deleted := e_deleted e; e_local := true |}
  else e.

Definition beginConnectionLifecycle (s : Store) (random16 : bytes) : Store :=
  {| entries := map (fun kv => (kv.1, retag (instanceKey random16) kv.2)) (entries s);
     greatestSequence := greatestSequence s; instance := random16; sequence := 0;
     destroyed := destroyed s; ttlMs := ttlMs s; hasUpdateListener := hasUpdateListener s |}.

Definition live (s : Store) (now : Z) (e : Entry) : bool :=
  negb (e_deleted e) && (now - e_receivedAt e <=? ttlMs s).

Definition sweep (s : Store) (now : Z) : Store * list output :=
  let expired kv := ttlMs s <? now - e_receivedAt (kv : jstring * Entry).2 in
  let changed := existsb (fun kv => expired kv && negb (e_deleted kv.2)) (entries s) in
  (upd_entries s (List.filter (fun kv => negb (expired kv)) (entries s)),
   if changed then [Notify] else []).

Definition get (s : Store) (now : Z) (key : jstring) : jsval :=
  match mget (entries s) key with
  | Some e => if live s now e then e_value e else VUndef
  | None => VUndef
  end.

Definition keys (s : Store) (now : Z) : list jstring :=
  (List.filter (fun kv => live s now kv.2) (entries s)).*1.

(** Own properties of the result object in insertion order; keys are unique. *)
Definition getAllStates (s : Store) (now : Z) : list (jstring * jsval) :=
  map (fun kv => (kv.1, e_value kv.2)) (List.filter (fun kv => live s now kv.2) (entries s)).

Definition localKeys (s : Store) : list jstring :=
  (List.filter (fun kv => e_local kv.2) (entries s)).*1.

Definition age_of (now : Z) (e : Entry) : Z :=
  Z.min MAX_BOOTSTRAP_AGE_MS (Z.max 0 (now - e_receivedAt e)).

Section Operations.
Context `{J : JSON}.

(** One turn of the loop of [publication]. *)
Definition write_entry (s : Store) (now : Z) (w : Writer) (key : jstring) : res Writer :=
  w ← w_string w key MAX_KEY_BYTES;
  match mget (entries s) key with
  | None => w_u8 w FLAG_DELETED
  | Some e =>
      if e_deleted e then w_u8 w FLAG_DELETED
      else
        w ← w_u8 w 0;
        w ← w_uint w (age_of now e);
        json ← json_stringify (e_value e);
        w_string w (default [] json) MAX_VALUE_BYTES
  end.

Fixpoint write_entries (s : Store) (now : Z) (w : Writer) (ks : list jstring) : res Writer :=
  match ks with
  | [] => Ok w
  | k :: r => w ← write_entry s now w k; write_entries s now w r
  end.

(** The counter has already advanced when the writer throws. *)
Definition publication (s : Store) (now : Z) (ks : list jstring) : Store * res bytes :=
  if MAX_SEQUENCE - 1 <=? sequence s
  then (s, range_error "marks: presence sequence exhausted; reconnect required")
  else
    let s := upd_sequence s (sequence s + 1) in
    (s, w ← w_u8 new_writer PRESENCE_TAG;
        w ← w_u8 w PRESENCE_VERSION;
        w ← w_raw w (instance s);
        w ← w_uint w (sequence s);
        w ← w_uint w (len ks);
        w ← write_entries s now w ks;
        Ok (w_done w)).

Definition encodeAll (s : Store) (now : Z) : Store * res bytes :=
  publication s now (localKeys s).

Definition emitLocal (s : Store) (now : Z) : Store * res (list output) :=
  if negb (hasUpdateListener s) then (s, Ok [])
  else
    let '(s, bs) := publication s now (localKeys s) in
    (s, bs ← bs; Ok [LocalUpdate bs]).

(** [emitLocal(); notify();] after the entry has been stored. *)
Definition emit_and_notify (s : Store) (now : Z) : Store * res (list output) :=
  let '(s, outs) := emitLocal s now in (s, outs ← outs; Ok (outs ++ [Notify])).

Definition set (s : Store) (now : Z) (key : jstring) (value : jsval)
    : Store * res (list output) :=
  if destroyed s then (s, Ok [])
  else if negb (mhas (entries s) key) && (MAX_PRESENCE_ENTRIES <=? len (entries s))
  then (s, range_error "marks: too many presence entries")
  else match serializableValue value with
       | Throw e => (s, Throw e)
       | Ok stored =>
           let keyBytes := len (utf8_encode key) in
           if (keyBytes =? 0) || (MAX_KEY_BYTES <? keyBytes)
           then (s, range_error "marks: invalid presence key length")
           else emit_and_notify
                  (upd_entries s (mset (entries s) key
                     {| e_value := stored; e_receivedAt := now;
                        e_instance := instanceKey (instance s);
                        e_deleted := false; e_local := true |})) now
       end.

Definition delete (s : Store) (now : Z) (key : jstring) : Store * res (list output) :=
  if destroyed s then (s, Ok [])
  else match mget (entries s) key with
       | None => (s, Ok [])
       | Some e =>
           if e_deleted e then (s, Ok [])
           else emit_and_notify
                  (upd_entries s (mset (entries s) key
                     {| e_value := VUndef; e_receivedAt := now;
                        e_instance := instanceKey (instance s);
                        e_deleted := true; e_local := true |})) now
       end.

(** One incoming entry: the new map and whether subscribers must hear of it. *)
Definition apply_entry (now : Z) (inst : jstring) (es : list (jstring * Entry))
    (incoming : DecodedEntry) : list (jstring * Entry) * bool :=
  let existing := mget es (d_key incoming) in
  let owned_elsewhere :=
    match existing with
    | Some e => negb (e_deleted e) && negb (str_eqb (e_instance e) inst)
                && negb (d_deleted incoming)
    | None => false
    end in
  if owned_elsewhere then (es, false)
  else if d_deleted incoming then
    (mset es (d_key incoming) {| e_value := VUndef; e_receivedAt := now; e_instance := inst;
                                 e_deleted := true; e_local := false |},
     match existing with Some e => negb (e_deleted e) | None => false end)
  else if MAX_BOOTSTRAP_AGE_MS <? d_age incoming then (es, false)
  else (mset es (d_key incoming) {| e_value := d_value incoming; e_receivedAt := now;
                                    e_instance := inst; e_deleted := false; e_local := false |},
        true).

Fixpoint apply_entries (now : Z) (inst : jstring) (es : list (jstring * Entry))
    (incoming : list DecodedEntry) : list (jstring * Entry) * bool :=
  match incoming with
  | [] => (es, false)
  | i :: r =>
      let '(es, c1) := apply_entry now inst es i in
      let '(es, c2) := apply_entries now inst es r in
      (es, c1 || c2)
  end.

Definition apply (s : Store) (now : Z) (bs : bytes) : Store * res (list output) :=
  if destroyed s then (s, Ok [])
  else match decodeFrame bs with
       | Throw e => (s, Throw e)
       | Ok frame =>
           let greatest := default 0 (mget (greatestSequence s) (f_instanceKey frame)) in
           if f_sequence frame <=? greatest then (s, Ok [])
           else
             let '(es, changed) :=
               apply_entries now (f_instanceKey frame) (entries s) (f_entries frame) in
             (upd_greatest (upd_entries s es)
                (mset (greatestSequence s) (f_instanceKey frame) (f_sequence frame)),
              Ok (if changed then [Notify] else []))
       end.
End Operations.

Definition subscribeLocalUpdates (s : Store) : Store :=
  {| entries := entries s; greatestSequence := greatestSequence s; instance := instance s;
     sequence := sequence s; destroyed := destroyed s; ttlMs := ttlMs s;
     hasUpdateListener := true |}.

Definition destroy (s : Store) : Store :=
  if destroyed s then s
  else {| entries := []; greatestSequence := []; instance := instance s; sequence := sequence s;
          destroyed := true; ttlMs := ttlMs s; hasUpdateListener := false |}.

(** ** Writer lemmas: what has been written, and that the buffer has room *)

Definition writer_ok (w : Writer) : Prop :=
  256 <= w_cap w <= MAX_PRESENCE_BYTES /\ len (w_data w) <= w_cap w.

Lemma grow_loop_spec fuel next required :
  0 < next <= MAX_PRESENCE_BYTES -> required <= MAX_PRESENCE_BYTES ->
  MAX_PRESENCE_BYTES <= next * 2 ^ Z.of_nat fuel ->
  required <= grow_loop fuel next required <= MAX_PRESENCE_BYTES /\
  next <= grow_loop fuel next required.
Proof.
  unfold MAX_PRESENCE_BYTES. revert next.
  induction fuel as [|f IH]; intros next Hn Hr Hf; cbn [grow_loop].
  - change (2 ^ Z.of_nat 0) with 1 in Hf. lia.
  - destruct (Z.ltb_spec next required); [|lia].
    rewrite Nat2Z.inj_succ, Z.pow_succ_r in Hf by lia.
    assert (0 < 2 ^ Z.of_nat f) by (apply Z.pow_pos_nonneg; lia).
    unfold MAX_PRESENCE_BYTES. destruct (IH (Z.min 65536 (next * 2))); nia.
Qed.

Lemma grow_Ok w extra w' :
  writer_ok w -> 0 <= extra -> grow w extra = Ok w' ->
  writer_ok w' /\ w_data w' = w_data w /\ len (w_data w) + extra <= w_cap w'.
Proof.
  unfold grow, writer_ok. intros Hw He.
  destruct (Z.ltb_spec MAX_PRESENCE_BYTES (len (w_data w) + extra)); [done |].
  pose proof (grow_loop_spec 16 (w_cap w) (len (w_data w) + extra)) as Hg.
  change (2 ^ Z.of_nat 16) with 65536 in Hg.
  generalize dependent (grow_loop 16 (w_cap w) (len (w_data w) + extra)). intros g Hg.
  unfold MAX_PRESENCE_BYTES in *.
  destruct (Z.leb_spec (len (w_data w) + extra) (w_cap w)); intros [= <-]; cbn [w_cap w_data];
    [| destruct Hg as [? ?]; [lia .. |]]; split_and!; try done; lia.
Qed.

(** [w'] is [w] with [bs] appended. *)
Definition wrote (w : Writer) (bs : bytes) (w' : Writer) : Prop :=
  writer_ok w' /\ w_data w' = w_data w ++ bs.

Lemma wrote_trans w1 b1 w2 b2 w3 : wrote w1 b1 w2 -> wrote w2 b2 w3 -> wrote w1 (b1 ++ b2) w3.
Proof. intros [_ E1] [? E2]. split; [done |]. by rewrite E2, E1, app_assoc. Qed.

Lemma w_raw_Ok w v w' : writer_ok w -> w_raw w v = Ok w' -> wrote w v w'.
Proof.
  unfold w_raw. intros Hw (g & Hg & [= <-])%res_bind_Ok.
  apply grow_Ok in Hg as (? & E & ?); [| done | apply len_nonneg].
  unfold wrote, writer_ok in *. cbn [w_cap w_data].
  rewrite E, len_app. split_and!; try done; lia.
Qed.

Lemma w_u8_Ok w v w' : writer_ok w -> w_u8 w v = Ok w' -> wrote w [Z.land v 255] w'.
Proof.
  unfold w_u8. intros Hw (g & Hg & [= <-])%res_bind_Ok.
  apply grow_Ok in Hg as (? & E & ?); [| done | lia].
  unfold wrote, writer_ok in *. cbn [w_cap w_data]. rewrite E, len_app.
  change (len [Z.land v 255]) with 1. split_and!; try done; lia.
Qed.

(** The bytes of a variable-length integer. *)
Fixpoint varint (fuel : nat) (v : Z) : bytes :=
  match fuel with
  | O => []
  | S f => if 0 <? v / 128 then (v mod 128 + 128) :: varint f (v / 128) else [v mod 128]
  end.

Lemma byte_facts b : 0 <= b < 128 ->
  Z.land (Z.lor b 128) 255 = b + 128 /\ Z.land (Z.lor b 0) 255 = b /\
  Z.land (b + 128) 127 = b /\ Z.land (b + 128) 128 = 128 /\
  Z.land b 127 = b /\ Z.land b 128 = 0.
Proof.
  intros Hb.
  assert (H : Forall (fun b => Z.land (Z.lor b 128) 255 = b + 128 /\ Z.land (Z.lor b 0) 255 = b /\
     Z.land (b + 128) 127 = b /\ Z.land (b + 128) 128 = 128 /\
     Z.land b 127 = b /\ Z.land b 128 = 0) (seqZ 0 128)).
  { apply (bool_decide_eq_true_1 _). vm_compute. done. }
  rewrite Forall_forall in H. apply H. apply elem_of_seqZ. lia.
Qed.

Lemma w_uint_loop_Ok fuel w v w' :
  writer_ok w -> w_uint_loop fuel w v = Ok w' -> wrote w (varint fuel v) w'.
Proof.
  revert w v. induction fuel as [|f IH]; intros w v Hw; cbn [w_uint_loop varint].
  - intros [= <-]. split; [done | by rewrite app_nil_r].
  - intros (w1 & H1 & H)%res_bind_Ok. apply w_u8_Ok in H1; [|done].
    pose proof (byte_facts (v mod 128) (Z.mod_pos_bound v 128 ltac:(lia))) as (F1 & F2 & _).
    destruct (0 <? v / 128) eqn:E.
    + rewrite F1 in H1. change (?x :: ?r) with ([x] ++ r).
      eapply wrote_trans; [exact H1 |]. apply IH; [by destruct H1 | done].
    + rewrite F2 in H1. by injection H as <-.
Qed.

Lemma w_uint_Ok w v w' :
  writer_ok w -> w_uint w v = Ok w' ->
  wrote w (varint 8 v) w' /\ 0 <= v <= MAX_SAFE_INTEGER.
Proof.
  unfold w_uint. intros Hw. destruct (negb (isSafeInteger v) || (v <? 0)) eqn:E; [done |].
  reflect_bools. apply isSafeInteger_spec in H.
  intros Hl. split; [by apply w_uint_loop_Ok | lia].
Qed.

Definition field_bytes (u : bytes) : bytes := varint 8 (len u) ++ u.

Lemma w_string_Ok w s maximum w' :
  writer_ok w -> w_string w s maximum = Ok w' ->
  wrote w (field_bytes (utf8_encode s)) w' /\ len (utf8_encode s) <= maximum.
Proof.
  unfold w_string, w_bytes, field_bytes. intros Hw.
  destruct (Z.ltb_spec maximum (len (utf8_encode s))); [done |].
  intros (w1 & H1 & H2)%res_bind_Ok.
  apply w_uint_Ok in H1 as [H1 _]; [|done]. split; [|done].
  eapply wrote_trans; [exact H1 |]. apply w_raw_Ok; [by destruct H1 | done].
Qed.

(** ** Reader lemmas: it reads back what was written *)

Lemma varint_S f v :
  varint (S f) v = if 0 <? v / 128 then (v mod 128 + 128) :: varint f (v / 128) else [v mod 128].
Proof. done. Qed.

Lemma r_uint_loop_varint f k value factor n v rest :
  (k < f)%nat -> 0 <= v < 128 ^ (1 + Z.of_nat k) -> 0 < factor -> 0 <= value ->
  value + v * factor <= MAX_SAFE_INTEGER -> n = 0 \/ (0 < n /\ 0 < v) ->
  r_uint_loop f value factor n (varint (S k) v ++ rest) = Ok (value + v * factor, rest).
Proof.
  revert f value factor n v.
  induction k as [|k IH]; intros f value factor n v Hk Hv Hf Hval Hmax Hn;
    (destruct f as [|f]; [lia |]); rewrite varint_S;
    pose proof (Z.mod_pos_bound v 128 ltac:(lia)) as Hb;
    pose proof (byte_facts (v mod 128) Hb) as (_ & _ & F3 & F4 & F5 & F6);
    pose proof (Z.div_mod v 128 ltac:(lia)) as Hdm;
    assert (Hdiv : 0 <= v / 128) by (apply Z.div_pos; lia).
  - change (128 ^ (1 + Z.of_nat 0)) with 128 in Hv.
    assert (v / 128 = 0) by (apply Z.div_small; lia).
    rewrite (proj2 (Z.ltb_ge 0 (v / 128))) by lia.
    cbn [app r_uint_loop r_u8 mbind res_bind]. rewrite F5, F6.
    replace (v mod 128) with v by lia.
    rewrite (proj2 (isSafeInteger_spec _)) by (unfold MAX_SAFE_INTEGER in *; lia).
    cbn [negb]. change (0 =? 0) with true. cbv iota.
    destruct (Z.eqb_spec v 0), (Z.ltb_spec 1 (n + 1)); cbn [andb]; try done; lia.
  - destruct (Z.ltb_spec 0 (v / 128)) as [Hp | Hp].
    + cbn [app]. cbn [r_uint_loop r_u8 mbind res_bind]. rewrite F3, F4.
      rewrite (proj2 (isSafeInteger_spec _)) by (unfold MAX_SAFE_INTEGER in *; nia).
      cbn [negb]. change (128 =? 0) with false. cbv iota.
      rewrite (proj2 (isSafeInteger_spec _)) by (unfold MAX_SAFE_INTEGER in *; nia).
      cbn [negb]. rewrite IH; [f_equal; f_equal; nia | lia | | lia | nia | nia | lia].
      split; [done |]. apply Z.div_lt_upper_bound; [lia |].
      rewrite Nat2Z.inj_succ in Hv. replace (1 + Z.succ (Z.of_nat k)) with (1 + (1 + Z.of_nat k)) in Hv by lia.
      rewrite (Z.pow_add_r 128 1 (1 + Z.of_nat k)) in Hv by lia. lia.
    + assert (v / 128 = 0) by lia.
      cbn [app r_uint_loop r_u8 mbind res_bind]. rewrite F5, F6.
      replace (v mod 128) with v by lia.
      rewrite (proj2 (isSafeInteger_spec _)) by (unfold MAX_SAFE_INTEGER in *; lia).
      cbn [negb]. change (0 =? 0) with true. cbv iota.
      destruct (Z.eqb_spec v 0), (Z.ltb_spec 1 (n + 1)); cbn [andb]; try done; lia.
Qed.

Lemma r_uint_varint v rest :
  0 <= v <= MAX_SAFE_INTEGER -> r_uint (varint 8 v ++ rest) = Ok (v, rest).
Proof.
  intros Hv. unfold r_uint. rewrite r_uint_loop_varint; try lia.
  - do 2 f_equal. lia.
  - change (128 ^ (1 + Z.of_nat 7)) with 72057594037927936. unfold MAX_SAFE_INTEGER in Hv. lia.
Qed.

Lemma r_raw_app bs rest : r_raw (len bs) (bs ++ rest) = Ok (bs, rest).
Proof.
  unfold r_raw. pose proof (len_nonneg rest). rewrite len_app.
  rewrite (proj2 (Z.ltb_ge _ _)) by lia.
  rewrite (slice_app_mid [] bs rest) by done. by rewrite slice_from_app.
Qed.

(** Text that survives [TextEncoder] and [TextDecoder]. *)
Definition clean_text (s : jstring) : Prop := well_formed16 s /\ head s <> Some 65279.

Lemma r_string_field s maximum rest :
  clean_text s -> len (utf8_encode s) <= maximum -> maximum <= MAX_SAFE_INTEGER ->
  r_string maximum (field_bytes (utf8_encode s) ++ rest) = Ok (s, rest).
Proof.
  intros [Hw Hb] Hl Hm. unfold r_string, r_bytes, field_bytes. rewrite <- app_assoc.
  pose proof (len_nonneg (utf8_encode s)).
  rewrite r_uint_varint by lia. cbn [mbind res_bind].
  rewrite (proj2 (Z.ltb_ge _ _)) by lia. rewrite r_raw_app. cbn [mbind res_bind].
  by rewrite utf8_roundtrip.
Qed.

(** ** Frames round trip *)

Definition good_key (k : jstring) : Prop := k <> [] /\ clean_text k.

Section Roundtrip.
Context `{JL : JSONLaws}.

(** A value that came out of [JSON.parse], as the store keeps those of peers. *)
Definition json_value (v : jsval) : Prop := exists src, json_parse src = Ok v.

(** A value that a peer reads back from its print, as the store keeps its own;
    the print fits the limit of a value. *)
Definition settled (v : jsval) : Prop :=
  exists t, json_stringify v = Ok (Some t) /\ json_parse t = Ok v /\
    len (utf8_encode t) <= MAX_VALUE_BYTES.

Definition entry_good (e : Entry) : Prop :=
  if e_deleted e then e_value e = VUndef
  else if e_local e then settled (e_value e) else json_value (e_value e).

(** What may be published under a key: a tombstone or a settled value. *)
Definition entry_settled (e : Entry) : Prop := e_deleted e = false -> settled (e_value e).

(** What a receiver must decode for [key] at time [now]. *)
Definition published (s : Store) (now : Z) (key : jstring) : DecodedEntry :=
  match mget (entries s) key with
  | Some e =>
      if e_deleted e
      then {| d_key := key; d_deleted := true; d_age := 0; d_value := VUndef |}
      else {| d_key := key; d_deleted := false; d_age := age_of now e; d_value := e_value e |}
  | None => {| d_key := key; d_deleted := true; d_age := 0; d_value := VUndef |}
  end.

Lemma age_of_bounds now e : 0 <= age_of now e <= MAX_BOOTSTRAP_AGE_MS.
Proof. unfold age_of, MAX_BOOTSTRAP_AGE_MS. lia. Qed.

Lemma decodeEntry_key key rest :
  good_key key -> len (utf8_encode key) <= MAX_KEY_BYTES ->
  decodeEntry (field_bytes (utf8_encode key) ++ rest) =
  ('(flags, r) ← r_u8 rest;
   if flags =? FLAG_DELETED
   then Ok ({| d_key := key; d_deleted := true; d_age := 0; d_value := VUndef |}, r)
   else if negb (flags =? 0) then type_error "marks: unsupported presence flags"
   else
     '(age, r) ← r_uint r;
     '(json, r) ← r_string MAX_VALUE_BYTES r;
     value ← json_parse json;
     Ok ({| d_key := key; d_deleted := false; d_age := age; d_value := value |}, r)).
Proof.
  intros [Hne Hc] Hl. unfold decodeEntry.
  rewrite r_string_field by (try done; unfold MAX_KEY_BYTES, MAX_SAFE_INTEGER; lia).
  cbn [mbind res_bind]. destruct (Z.eqb_spec (len key) 0) as [E | _]; [|done].
  by apply len_zero_nil in E.
Qed.

Lemma write_entry_decodes s now w key w' :
  writer_ok w -> good_key key ->
  (forall e, mget (entries s) key = Some e -> entry_settled e) ->
  write_entry s now w key = Ok w' ->
  exists bs, wrote w bs w' /\ forall rest, decodeEntry (bs ++ rest) = Ok (published s now key, rest).
Proof.
  intros Hw Hk Hg H. unfold write_entry in H.
  apply res_bind_Ok in H as (w1 & H1 & H).
  apply w_string_Ok in H1 as [H1 Hl]; [|done]. pose proof H1 as [Hw1 _].
  assert (Hdel : w_u8 w1 FLAG_DELETED = Ok w' ->
    exists bs, wrote w bs w' /\ forall rest, decodeEntry (bs ++ rest) =
      Ok ({| d_key := key; d_deleted := true; d_age := 0; d_value := VUndef |}, rest)).
  { intros H2. apply w_u8_Ok in H2; [|done].
    eexists. split; [by eapply wrote_trans |]. intros rest. rewrite <- app_assoc.
    by rewrite decodeEntry_key. }
  unfold published. destruct (mget (entries s) key) as [e|]; [|by auto].
  specialize (Hg e eq_refl). unfold entry_settled in Hg.
  destruct (e_deleted e); [by auto |]. destruct (Hg eq_refl) as (t & Ht & Hp & _).
  apply res_bind_Ok in H as (w2 & H2 & H). apply w_u8_Ok in H2; [|done]. pose proof H2 as [Hw2 _].
  apply res_bind_Ok in H as (w3 & H3 & H). apply w_uint_Ok in H3 as [H3 Ha]; [|done].
  pose proof H3 as [Hw3 _].
  rewrite Ht in H.
  change (w_string w3 t MAX_VALUE_BYTES = Ok w') in H.
  apply w_string_Ok in H as [H4 Hlv]; [|done].
  eexists. split; [eapply wrote_trans; [exact H1 |]; eapply wrote_trans; [exact H2 |];
                   eapply wrote_trans; [exact H3 | exact H4] |].
  intros rest. rewrite <- !app_assoc. rewrite decodeEntry_key by done.
  change (Z.land 0 255) with 0. cbn [app r_u8 mbind res_bind].
  change (0 =? FLAG_DELETED) with false. change (0 =? 0) with true. cbn [negb].
  rewrite r_uint_varint by done. cbn [mbind res_bind].
  pose proof (json_text _ _ Ht).
  rewrite r_string_field by (try done; unfold MAX_VALUE_BYTES, MAX_SAFE_INTEGER; lia).
  cbn [mbind res_bind]. rewrite Hp. done.
Qed.
Lemma write_entries_decode s now ks w w' :
  writer_ok w -> Forall good_key ks ->
  (forall k e, k ∈ ks -> mget (entries s) k = Some e -> entry_settled e) ->
  write_entries s now w ks = Ok w' ->
  exists bs, wrote w bs w' /\
    forall rest, decodeEntries (length ks) (bs ++ rest) = Ok (map (published s now) ks, rest).
Proof.
  intros Hw Hk Hg. revert w Hw. induction Hk as [|k r Hk Hr IH]; intros w Hw H.
  - injection H as <-. exists []. split; [split; [done | by rewrite app_nil_r] | done].
  - cbn [write_entries] in H. apply res_bind_Ok in H as (w1 & H1 & H).
    apply write_entry_decodes in H1 as (b1 & Hb1 & D1);
      [| done | done | intros e; apply Hg; left].
    apply IH in H as (b2 & Hb2 & D2);
      [| intros k' e Hin; apply Hg; by right | by destruct Hb1].
    exists (b1 ++ b2). split; [by eapply wrote_trans |]. intros rest.
    cbn [length decodeEntries map]. rewrite <- app_assoc, D1. cbn [mbind res_bind].
    by rewrite D2.
Qed.

Lemma publication_decodes s now ks s' bs :
  Forall good_key ks -> len ks <= MAX_PRESENCE_ENTRIES ->
  (forall k e, k ∈ ks -> mget (entries s) k = Some e -> entry_settled e) ->
  Forall is_byte (instance s) -> len (instance s) = INSTANCE_BYTES -> 0 <= sequence s ->
  publication s now ks = (s', Ok bs) ->
  s' = upd_sequence s (sequence s + 1) /\
  decodeFrame bs = Ok {| f_instance := instance s; f_instanceKey := instanceKey (instance s);
                         f_sequence := sequence s + 1; f_entries := map (published s now) ks |}.
Proof.
  intros Hk Hn Hg Hi Hil Hq H. unfold publication in H.
  destruct (Z.leb_spec (MAX_SEQUENCE - 1) (sequence s)) as [|Hmax]; [done |].
  apply pair_equal_spec in H as [<- H]. split; [done |].
  assert (Hnw : writer_ok new_writer) by done. assert (E0 : w_data new_writer = []) by done.
  generalize dependent new_writer. intros nw H Hnw E0.
  apply res_bind_Ok in H as (w1 & H1 & H). apply w_u8_Ok in H1 as H1'; [|done].
  apply res_bind_Ok in H as (w2 & H2 & H). apply w_u8_Ok in H2; [| by destruct H1'].
  apply res_bind_Ok in H as (w3 & H3 & H). apply w_raw_Ok in H3; [| by destruct H2].
  apply res_bind_Ok in H as (w4 & H4 & H). apply w_uint_Ok in H4 as [H4 Hq4]; [| by destruct H3].
  apply res_bind_Ok in H as (w5 & H5 & H). apply w_uint_Ok in H5 as [H5 Hq5]; [| by destruct H4].
  apply res_bind_Ok in H as (w6 & H6 & [= <-]).
  apply write_entries_decode in H6 as (body & H6 & D); [| by destruct H5 | done | done].
  destruct H1' as [_ E1], H2 as [_ E2], H3 as [_ E3], H4 as [_ E4], H5 as [_ E5],
    H6 as [[Hcap Hlen] E6].
  unfold w_done. assert (E : w_data w6 = [5] ++ [2] ++ instance s ++ varint 8 (sequence s + 1)
                             ++ varint 8 (len ks) ++ body ++ []).
  { rewrite E6, E5, E4, E3, E2, E1, E0, app_nil_r. by rewrite <- !app_assoc. }
  unfold decodeFrame, new_reader.
  destruct ((len (w_data w6) =? 0) || (MAX_PRESENCE_BYTES <? len (w_data w6))) eqn:El.
  { apply orb_true_iff in El. rewrite Z.eqb_eq, Z.ltb_lt in El.
    destruct El as [El | El]; [|unfold MAX_PRESENCE_BYTES in *; lia].
    apply len_zero_nil in El. by rewrite E in El. }
  rewrite E. cbn [app mbind res_bind r_u8].
  change (5 =? PRESENCE_TAG) with true. change (2 =? PRESENCE_VERSION) with true.
  cbn [negb]. rewrite <- Hil, r_raw_app. cbn [mbind res_bind].
  rewrite r_uint_varint by (unfold MAX_SEQUENCE in Hmax; lia). cbn [mbind res_bind].
  replace ((sequence s + 1 =? 0) || (MAX_SEQUENCE <? sequence s + 1)) with false
    by (symmetry; apply orb_false_iff; rewrite Z.eqb_neq, Z.ltb_ge; lia).
  rewrite r_uint_varint by done. cbn [mbind res_bind].
  rewrite (proj2 (Z.ltb_ge _ _)) by done.
  replace (Z.to_nat (len ks)) with (length ks) by (unfold len; lia).
  rewrite D. done.
Qed.

(** A published frame is read exactly: every frame that [publication]
    produces for at most 256 keys decodes to the publishing instance, the
    advanced sequence number and, key by key in order, the tombstone or the
    live value with its bounded age. *)
Theorem publication_roundtrip s now ks s' bs :
  Forall good_key ks -> len ks <= MAX_PRESENCE_ENTRIES ->
  (forall k e, k ∈ ks -> mget (entries s) k = Some e -> entry_settled e) ->
  Forall is_byte (instance s) -> len (instance s) = INSTANCE_BYTES -> 0 <= sequence s ->
  publication s now ks = (s', Ok bs) ->
  s' = upd_sequence s (sequence s + 1) /\
  decodeFrame bs = Ok {| f_instance := instance s; f_instanceKey := instanceKey (instance s);
                         f_sequence := sequence s + 1; f_entries := map (published s now) ks |}.
Proof. apply publication_decodes. Qed.
End Roundtrip.

(** ** Incoming frames: ownership and replay *)

Lemma apply_entry_other now inst es i k :
  k <> d_key i -> mget (apply_entry now inst es i).1 k = mget es k.
Proof.
  intros Hk. unfold apply_entry.
  repeat case_match; simpl; try done; by apply mget_mset_ne.
Qed.

Lemma apply_entry_owned now inst es i e :
  mget es (d_key i) = Some e -> e_deleted e = false -> e_instance e <> inst ->
  d_deleted i = false -> apply_entry now inst es i = (es, false).
Proof.
  intros He Hd Hi Hdel. unfold apply_entry. rewrite He, Hd, Hdel.
  by rewrite (str_eqb_neq _ _ Hi).
Qed.

Lemma apply_entries_cons now inst es i r :
  (apply_entries now inst es (i :: r)).1 =
  (apply_entries now inst (apply_entry now inst es i).1 r).1.
Proof.
  simpl. destruct (apply_entry now inst es i) as [es1 c1]. simpl.
  by destruct (apply_entries now inst es1 r).
Qed.


(** Whose entry of [k] the map holds: [inst]'s after a tombstone of [inst], and
    from then on [inst]'s for every further entry of the frame. *)
Lemma apply_entry_own now inst es i k e :
  mget es k = Some e -> e_instance e = inst ->
  exists e', mget (apply_entry now inst es i).1 k = Some e' /\ e_instance e' = inst.
Proof.
  intros He Hi. destruct (decide (k = d_key i)) as [-> | Hne].
  2:{ exists e. by rewrite apply_entry_other. }
  unfold apply_entry. rewrite He, Hi, str_eqb_refl. simpl. rewrite andb_false_r. simpl.
  destruct (d_deleted i); simpl; [rewrite mget_mset_eq; by eexists |].
  destruct (_ <? _); simpl; [by exists e |]. rewrite mget_mset_eq. by eexists.
Qed.

Lemma apply_entries_own now inst es l k e :
  mget es k = Some e -> e_instance e = inst ->
  exists e', mget (apply_entries now inst es l).1 k = Some e' /\ e_instance e' = inst.
Proof.
  revert es e. induction l as [|i r IH]; intros es e He Hi; [by exists e |].
  rewrite apply_entries_cons.
  destruct (apply_entry_own now inst es i k e He Hi) as (e' & He' & Hi'). by eapply IH.
Qed.

(** A live entry of another connection: kept, unless the frame has a tombstone
    for its key, which hands the key over. *)
Lemma apply_entries_foreign now inst es l k e :
  mget es k = Some e -> e_deleted e = false -> e_instance e <> inst ->
  mget (apply_entries now inst es l).1 k = Some e /\
    Forall (fun i => d_key i = k -> d_deleted i = false) l \/
  (exists i, i ∈ l /\ d_key i = k /\ d_deleted i = true) /\
    exists e', mget (apply_entries now inst es l).1 k = Some e' /\ e_instance e' = inst.
Proof.
  intros He Hd Hi. induction l as [|i r IH] in es, He |- *; [by left |].
  rewrite apply_entries_cons. destruct (decide (k = d_key i)) as [-> | Hne].
  - destruct (d_deleted i) eqn:Edel.
    + right. split; [exists i; by split_and!; [left | |] |].
      apply (apply_entries_own now inst _ r (d_key i) {| e_value := VUndef; e_receivedAt := now;
        e_instance := inst; e_deleted := true; e_local := false |}); [| done].
      unfold apply_entry. rewrite He, Hd, Edel, !andb_false_r. simpl. by rewrite mget_mset_eq.
    + rewrite (apply_entry_owned now inst es i e) by auto. cbn [fst].
      destruct (IH es He) as [[H1 H2] | [(i' & H1 & H2) H3]]; [left | right].
      * split; [done |]. by constructor.
      * split; [exists i'; split; [by right | done] | done].
  - destruct (IH (apply_entry now inst es i).1) as [[H1 H2] | [(i' & H1 & H2) H3]];
      [by rewrite apply_entry_other | left | right].
    + split; [done |]. constructor; [by intros E; destruct Hne | done].
    + split; [exists i'; split; [by right | done] | done].
Qed.


(** ** The store as a transition system *)

Inductive step `{J : JSON} : Store -> Store -> Prop :=
| step_begin s r : Forall is_byte r -> len r = INSTANCE_BYTES ->
    step s (beginConnectionLifecycle s r)
| step_sweep s now : step s (sweep s now).1
| step_set s now k v : step s (set s now k v).1
| step_delete s now k : step s (delete s now k).1
| step_encodeAll s now : step s (encodeAll s now).1
| step_apply s now bs : step s (apply s now bs).1
| step_subscribe s : step s (subscribeLocalUpdates s)
| step_destroy s : step s (destroy s).

Inductive steps `{J : JSON} : Store -> Store -> Prop :=
| steps_refl s : steps s s
| steps_next s1 s2 s3 : step s1 s2 -> steps s2 s3 -> steps s1 s3.

Lemma emit_and_notify_state `{J : JSON} s now :
  (emit_and_notify s now).1 = s \/
  (sequence s < MAX_SEQUENCE - 1 /\ (emit_and_notify s now).1 = upd_sequence s (sequence s + 1)).
Proof.
  unfold emit_and_notify, emitLocal. destruct (hasUpdateListener s); simpl; [|by left].
  unfold publication.
  destruct (Z.leb_spec (MAX_SEQUENCE - 1) (sequence s)); simpl; [by left | by right].
Qed.

(** A property of states that [sequence] cannot break survives the emission. *)
Lemma emit_and_notify_pres `{J : JSON} (P : Store -> Prop) s now :
  P s -> (0 <= sequence s + 1 -> P (upd_sequence s (sequence s + 1))) -> 0 <= sequence s ->
  P (emit_and_notify s now).1.
Proof.
  intros H1 H2 Hq. destruct (emit_and_notify_state s now) as [-> | [_ ->]]; [done |].
  apply H2. lia.
Qed.

Lemma r_uint_loop_nonneg f value factor n r v r' :
  0 <= value -> 0 < factor -> r_uint_loop f value factor n r = Ok (v, r') -> 0 <= v.
Proof.
  revert value factor n r. induction f as [|f IH]; intros value factor n r Hv Hf; [done |].
  cbn [r_uint_loop]. intros ([b r1] & _ & H)%res_bind_Ok.
  assert (0 <= value + Z.land b 127 * factor).
  { assert (0 <= Z.land b 127) by (apply Z.land_nonneg; lia). nia. }
  destruct (negb _); [done |]. destruct (Z.land b 128 =? 0).
  - destruct (_ && _); [done |]. injection H as <- _. done.
  - destruct (negb _); [done |]. by eapply IH; [| | exact H]; lia.
Qed.

Lemma decodeFrame_sequence `{J : JSON} bs f : decodeFrame bs = Ok f -> 1 <= f_sequence f <= MAX_SEQUENCE.
Proof.
  unfold decodeFrame. intros (r & _ & H)%res_bind_Ok.
  apply res_bind_Ok in H as ([tag r1] & _ & H). destruct (negb _); [done |].
  apply res_bind_Ok in H as ([ver r2] & _ & H). destruct (negb _); [done |].
  apply res_bind_Ok in H as ([ins r3] & _ & H). apply res_bind_Ok in H as ([q r4] & Hq & H).
  destruct ((q =? 0) || (MAX_SEQUENCE <? q)) eqn:E; [done |]. reflect_bools.
  apply r_uint_loop_nonneg in Hq; [| lia | lia].
  apply res_bind_Ok in H as ([n r5] & _ & H).
  destruct (_ <? _); [done |]. apply res_bind_Ok in H as ([es r6] & _ & H).
  apply res_bind_Ok in H as (_ & _ & [= <-]). simpl. lia.
Qed.

Section Invariant.
Context `{JL : JSONLaws}.

(** The entry of [k] in a store whose connection is [own] and which has heard
    the connections of [heard]. *)
Definition entry_ok (own : jstring) (heard : list (jstring * Z)) (k : jstring) (e : Entry) : Prop :=
  entry_good e /\
  if e_local e
  then e_instance e = own /\ (e_deleted e = false -> 0 < len (utf8_encode k) <= MAX_KEY_BYTES)
  else is_Some (mget heard (e_instance e)).

Definition entries_ok own heard (es : list (jstring * Entry)) : Prop :=
  forall k e, mget es k = Some e -> entry_ok own heard k e.

Record store_ok (s : Store) : Prop := {
  ok_keys : NoDup (entries s).*1;
  ok_values : entries_ok (instanceKey (instance s)) (greatestSequence s) (entries s);
  ok_greatest : NoDup (greatestSequence s).*1;
  ok_heard : forall i g, mget (greatestSequence s) i = Some g -> 1 <= g <= MAX_SEQUENCE;
  ok_sequence : 0 <= sequence s < MAX_SEQUENCE;
  ok_instance : Forall is_byte (instance s) /\ len (instance s) = INSTANCE_BYTES;
  ok_destroyed : destroyed s = true -> entries s = [] /\ greatestSequence s = [] }.

Lemma mset_good own heard (es : list (jstring * Entry)) k e :
  entries_ok own heard es -> entry_ok own heard k e -> entries_ok own heard (mset es k e).
Proof.
  intros H He k' e'. destruct (decide (k = k')) as [-> | Hne].
  - rewrite mget_mset_eq. congruence.
  - rewrite mget_mset_ne by done. apply H.
Qed.

Lemma entries_ok_heard own h h' es :
  (forall i, is_Some (mget h i) -> is_Some (mget h' i)) ->
  entries_ok own h es -> entries_ok own h' es.
Proof.
  intros Hh H k e He. destruct (H k e He) as [Hg Ho]. split; [done |].
  destruct (e_local e); auto.
Qed.

Lemma serializable_good v stored : serializableValue v = Ok stored -> settled stored.
Proof.
  unfold serializableValue. intros (json & Hj & H)%res_bind_Ok.
  destruct json as [json|]; [|done].
  destruct (Z.ltb_spec MAX_VALUE_BYTES (len (utf8_encode json))); [done |].
  destruct (json_settles _ _ Hj) as (v' & Hp & Hs). rewrite Hp in H. injection H as <-.
  by exists json.
Qed.

Lemma mget_filter (f : jstring * Entry -> bool) es k e :
  NoDup es.*1 -> mget (List.filter f es) k = Some e -> mget es k = Some e.
Proof.
  intros Hnd H. apply mget_In; [done |].
  assert (Hin : forall l : list (jstring * Entry), mget l k = Some e -> (k, e) ∈ l).
  { induction l as [|[k' e'] r IH]; simpl; [done |].
    destruct (decide (k' = k)) as [-> | ?]; intros Hm; [|right; auto].
    injection Hm as ->. left. }
  apply Hin in H. apply list_elem_of_In, filter_In in H as [H _]. by apply list_elem_of_In.
Qed.

Lemma filter_keys_NoDup (f : jstring * Entry -> bool) es :
  NoDup es.*1 -> NoDup (List.filter f es).*1.
Proof.
  induction es as [|[k e] r IH]; csimpl; [done |]. intros [Hni Hnd]%NoDup_cons.
  destruct (f (k, e)); csimpl; [|auto]. apply NoDup_cons. split; [|auto].
  intros (x & -> & Hx)%list_elem_of_fmap. apply Hni, list_elem_of_fmap. exists x.
  split; [done |]. apply list_elem_of_In in Hx. apply filter_In in Hx as [? _].
  by apply list_elem_of_In.
Qed.

Lemma decodeEntry_good r e r' :
  decodeEntry r = Ok (e, r') ->
  if d_deleted e then d_value e = VUndef else json_value (d_value e).
Proof.
  unfold decodeEntry. intros ([k r1] & _ & H)%res_bind_Ok.
  destruct (len k =? 0); [done |]. apply res_bind_Ok in H as ([fl r2] & _ & H).
  destruct (fl =? FLAG_DELETED); [by injection H as <- _ |].
  destruct (negb (fl =? 0)); [done |].
  apply res_bind_Ok in H as ([age r3] & _ & H). apply res_bind_Ok in H as ([js r4] & _ & H).
  apply res_bind_Ok in H as (v & Hv & H). injection H as <- _. by exists js.
Qed.

Lemma decodeEntries_good n r es r' :
  decodeEntries n r = Ok (es, r') ->
  Forall (fun e => if d_deleted e then d_value e = VUndef else json_value (d_value e)) es.
Proof.
  revert r es r'. induction n as [|n IH]; intros r es r'; cbn [decodeEntries].
  - intros [= <- _]. constructor.
  - intros ([e r1] & H1 & H)%res_bind_Ok. apply res_bind_Ok in H as ([es1 r2] & H2 & H).
    injection H as <- _. constructor; [by eapply decodeEntry_good | by eapply IH].
Qed.

Lemma decodeFrame_values bs f :
  decodeFrame bs = Ok f ->
  Forall (fun e => if d_deleted e then d_value e = VUndef else json_value (d_value e))
    (f_entries f).
Proof.
  unfold decodeFrame. intros (r & _ & H)%res_bind_Ok.
  apply res_bind_Ok in H as ([tag r1] & _ & H). destruct (negb _); [done |].
  apply res_bind_Ok in H as ([ver r2] & _ & H). destruct (negb _); [done |].
  apply res_bind_Ok in H as ([ins r3] & _ & H). apply res_bind_Ok in H as ([q r4] & _ & H).
  destruct (_ || _); [done |]. apply res_bind_Ok in H as ([n r5] & _ & H).
  destruct (_ <? _); [done |]. apply res_bind_Ok in H as ([es r6] & He & H).
  apply res_bind_Ok in H as (_ & _ & [= <-]). by eapply decodeEntries_good.
Qed.

Lemma apply_entry_good own heard now inst es i :
  is_Some (mget heard inst) -> NoDup es.*1 -> entries_ok own heard es ->
  (if d_deleted i then d_value i = VUndef else json_value (d_value i)) ->
  NoDup (apply_entry now inst es i).1.*1 /\ entries_ok own heard (apply_entry now inst es i).1.
Proof.
  intros Hin Hnd Hg Hi. unfold apply_entry.
  destruct (match mget es (d_key i) with Some e => _ | None => false end); [done |].
  destruct (d_deleted i) eqn:Ed; cbn [fst].
  { split; [by apply mset_NoDup | by apply mset_good]. }
  destruct (_ <? _); [done |]. cbn [fst].
  split; [by apply mset_NoDup | apply mset_good; [done | by split]].
Qed.

Lemma apply_entries_good own heard now inst es l :
  is_Some (mget heard inst) -> NoDup es.*1 -> entries_ok own heard es ->
  Forall (fun i => if d_deleted i then d_value i = VUndef else json_value (d_value i)) l ->
  NoDup (apply_entries now inst es l).1.*1 /\ entries_ok own heard (apply_entries now inst es l).1.
Proof.
  intros Hin Hnd Hg Hl. revert es Hnd Hg.
  induction Hl as [|i r Hi Hr IH]; intros es Hnd Hg; [done |].
  rewrite apply_entries_cons.
  destruct (apply_entry_good own heard now inst es i Hin Hnd Hg Hi) as [H1 H2]. by apply IH.
Qed.

(** Replacing the entries, or the counters, of a good state that is alive. *)
Lemma store_ok_entries s es :
  store_ok s -> destroyed s = false -> NoDup es.*1 ->
  entries_ok (instanceKey (instance s)) (greatestSequence s) es -> store_ok (upd_entries s es).
Proof. intros [] Hd ? ?. constructor; try done. simpl. by rewrite Hd. Qed.

Lemma store_ok_emit s now : store_ok s -> store_ok (emit_and_notify s now).1.
Proof.
  intros Hs. destruct (emit_and_notify_state s now) as [-> | [Hq ->]]; [done |].
  destruct Hs. constructor; simpl; try done. lia.
Qed.

Lemma store_ok_set s now k v : store_ok s -> store_ok (set s now k v).1.
Proof.
  intros Hs. unfold set. destruct (destroyed s) eqn:Ed; [done |]. destruct (_ && _); [done |].
  destruct (serializableValue v) as [stored|] eqn:Ev; [|done].
  destruct (_ || _) eqn:Ek; [done |]. rewrite orb_false_iff, Z.eqb_neq, Z.ltb_ge in Ek.
  pose proof (len_nonneg (utf8_encode k)).
  apply store_ok_emit, store_ok_entries; [done .. | apply mset_NoDup, Hs |].
  apply mset_good; [apply Hs |]. split; [exact (serializable_good v stored Ev) |].
  cbn. split; [done | lia].
Qed.

Lemma store_ok_delete s now k : store_ok s -> store_ok (delete s now k).1.
Proof.
  intros Hs. unfold delete. destruct (destroyed s) eqn:Ed; [done |].
  destruct (mget (entries s) k) as [e|]; [|done]. destruct (e_deleted e); [done |].
  apply store_ok_emit, store_ok_entries; [done .. | apply mset_NoDup, Hs |].
  by apply mset_good; [apply Hs |].
Qed.

Lemma mset_heard (h : list (jstring * Z)) k q i : is_Some (mget h i) -> is_Some (mget (mset h k q) i).
Proof.
  destruct (decide (k = i)) as [-> | Hne]; [by rewrite mget_mset_eq | by rewrite mget_mset_ne].
Qed.

Lemma store_ok_apply s now bs : store_ok s -> store_ok (apply s now bs).1.
Proof.
  intros Hs. unfold apply. destruct (destroyed s) eqn:Ed; [done |].
  destruct (decodeFrame bs) as [f|] eqn:Ef; [|done]. destruct (_ <=? _); [done |].
  destruct (apply_entries _ _ _ _) as [es c] eqn:E. set (h := mset (greatestSequence s) _ _).
  pose proof (apply_entries_good (instanceKey (instance s)) h now (f_instanceKey f) (entries s)
    (f_entries f)) as Hg. rewrite E in Hg.
  destruct Hg as [H1 H2]; [| apply Hs | | by eapply decodeFrame_values |].
  { unfold h. rewrite mget_mset_eq. by eexists. }
  { eapply entries_ok_heard; [| apply Hs]. apply mset_heard. }
  destruct Hs. constructor; simpl; try done.
  - by apply mset_NoDup.
  - unfold h. intros i g. destruct (decide (f_instanceKey f = i)) as [<- | Hne].
    + rewrite mget_mset_eq. intros [= <-]. by eapply decodeFrame_sequence.
    + rewrite mget_mset_ne by done. eauto.
  - congruence.
Qed.

Lemma store_ok_sweep s now : store_ok s -> store_ok (sweep s now).1.
Proof.
  intros Hs. constructor; try apply Hs; cbn [entries sweep fst upd_entries].
  - by apply filter_keys_NoDup, Hs.
  - intros k e He. apply (ok_values s Hs k). apply mget_filter in He; [done | apply Hs].
  - intros Hd. destruct (ok_destroyed s Hs Hd) as [E1 E2]. rewrite E1. by split.
Qed.

Lemma mget_map (g : Entry -> Entry) (es : list (jstring * Entry)) k :
  mget (map (fun kv => (kv.1, g kv.2)) es) k = g <$> mget es k.
Proof.
  induction es as [|[k' e'] r IH]; simpl; [done |]. by destruct (decide (k' = k)).
Qed.

Lemma store_ok_begin s r :
  Forall is_byte r -> len r = INSTANCE_BYTES -> store_ok s ->
  store_ok (beginConnectionLifecycle s r).
Proof.
  intros Hr Hl []. constructor; simpl; try done.
  - replace (map _ _).*1 with (entries s).*1; [done |].
    clear. induction (entries s) as [|kv l IH]; csimpl; [done | by f_equal].
  - intros k e. cbn. rewrite mget_map.
    destruct (mget (entries s) k) as [e0|] eqn:E; [|done]. intros [= <-].
    specialize (ok_values0 k e0 E). unfold entry_ok, entry_good, retag in *.
    destruct (e_local e0) eqn:El; cbn; [| by rewrite El]. by destruct ok_values0 as (? & _ & ?).
  - intros Hd. destruct (ok_destroyed0 Hd) as [E1 E2]. rewrite E1. by split.
Qed.

Lemma store_ok_step s s' : step s s' -> store_ok s -> store_ok s'.
Proof.
  destruct 1; intros Hs; auto using store_ok_set, store_ok_delete, store_ok_apply,
    store_ok_sweep, store_ok_begin.
  - unfold encodeAll, publication.
    destruct (Z.leb_spec (MAX_SEQUENCE - 1) (sequence s)); [done |].
    destruct Hs. constructor; simpl; try done. lia.
  - destruct Hs. by constructor.
  - unfold destroy. destruct (destroyed s); [done |]. destruct Hs.
    constructor; simpl; try done; apply NoDup_nil_2.
Qed.

End Invariant.

(** ** Replayed frames *)

Section Replay.
Context `{J : JSON}.

(** [inst] has been heard up to [q], or the store is gone. *)
Definition heard (s : Store) (inst : jstring) (q : Z) : Prop :=
  destroyed s = true \/ exists g, mget (greatestSequence s) inst = Some g /\ q <= g.

(** A frame that is not newer than what was heard is dropped. *)
Lemma heard_apply s now bs f :
  decodeFrame bs = Ok f -> heard s (f_instanceKey f) (f_sequence f) -> apply s now bs = (s, Ok []).
Proof.
  intros Hf Hh. unfold apply. destruct (destroyed s) eqn:Ed; [done |]. rewrite Hf.
  destruct Hh as [Hd | (g & -> & Hg)]; [congruence |].
  simpl. by rewrite (proj2 (Z.leb_le _ _)) by lia.
Qed.

Lemma heard_ext s s' inst q :
  destroyed s' = destroyed s -> greatestSequence s' = greatestSequence s ->
  heard s inst q -> heard s' inst q.
Proof. unfold heard. by intros -> ->. Qed.

Lemma emit_and_notify_greatest s now :
  destroyed (emit_and_notify s now).1 = destroyed s /\
  greatestSequence (emit_and_notify s now).1 = greatestSequence s.
Proof. by destruct (emit_and_notify_state s now) as [-> | [_ ->]]. Qed.

Lemma heard_step s s' inst q : step s s' -> heard s inst q -> heard s' inst q.
Proof.
  intros Hst Hh. destruct Hst as [s r ? ?|s now|s now k v|s now k|s now|s now bs|s|s].
  - by eapply heard_ext; [| | exact Hh].
  - by eapply heard_ext; [| | exact Hh].
  - unfold set. repeat case_match; simpl; try done.
    eapply heard_ext; [| | exact Hh]; by rewrite ?(proj1 (emit_and_notify_greatest _ _)),
      ?(proj2 (emit_and_notify_greatest _ _)).
  - unfold delete. repeat case_match; simpl; try done;
    eapply heard_ext; [| | exact Hh]; by rewrite ?(proj1 (emit_and_notify_greatest _ _)),
      ?(proj2 (emit_and_notify_greatest _ _)).
  - unfold encodeAll, publication. case_match; simpl; [done |]. by eapply heard_ext; [| | exact Hh].
  - unfold apply. destruct (destroyed s) eqn:Ed; [done |].
    destruct (decodeFrame bs) as [f|]; [|done].
    destruct (Z.leb_spec (f_sequence f) (default 0 (mget (greatestSequence s) (f_instanceKey f))));
      [done |].
    destruct (apply_entries _ _ _ _) as [es c]. simpl. destruct Hh as [Hd | (g & Hg & Hq)]; [congruence |].
    right. simpl. destruct (decide (f_instanceKey f = inst)) as [<- | Hne].
    + exists (f_sequence f). rewrite mget_mset_eq. rewrite Hg in *. simpl in *. split; [done | lia].
    + exists g. by rewrite mget_mset_ne.
  - by eapply heard_ext; [| | exact Hh].
  - unfold destroy. destruct (destroyed s) eqn:Ed; [done |]. by left.
Qed.

Lemma heard_steps s s' inst q : steps s s' -> heard s inst q -> heard s' inst q.
Proof. induction 1; eauto using heard_step. Qed.
End Replay.

Lemma store_ok_steps `{JL : JSONLaws} s s' : steps s s' -> store_ok s -> store_ok s'.
Proof. induction 1; eauto using store_ok_step. Qed.

Lemma set_size `{J : JSON} s now k v :
  len (entries (set s now k v).1) <= Z.max MAX_PRESENCE_ENTRIES (len (entries s)).
Proof.
  unfold set. destruct (destroyed s); cbn [fst]; [lia |].
  destruct (negb (mhas (entries s) k) && (MAX_PRESENCE_ENTRIES <=? len (entries s))) eqn:E; cbn [fst];
    [lia |].
  destruct (serializableValue v) as [stored|]; cbn [fst]; [| lia].
  destruct (_ || _); cbn [fst]; [lia |].
  assert (Hsz : forall e, len (mset (entries s) k e) <=
                          Z.max MAX_PRESENCE_ENTRIES (len (entries s))).
  { intros e. unfold mhas in E. destruct (mget (entries s) k) as [e0|] eqn:Ek.
    - rewrite mset_size_old by eauto. lia.
    - rewrite mset_size_new by done. simpl in E. apply Z.leb_gt in E. lia. }
  match goal with |- context [emit_and_notify ?t now] =>
    destruct (emit_and_notify_state t now) as [-> | [_ ->]] end; apply Hsz.
Qed.

(** C16. Every state the store can reach from a good one, by any interleaving of
    reconnects, sweeps, sets, deletes, publications and remote frames, is good:
    one entry per key, tombstones without a value; its own entries carry its
    current connection, a key of 1 to 256 bytes and a value that a peer reads
    back from at most 16 KiB of text; a remote entry carries a connection that
    has been heard, and counters are those a frame can carry. What has been
    heard of a connection stays heard, and a frame that is not newer changes
    nothing; [set] never grows the store beyond 256 entries; a frame leaves the
    live entry of another connection alone unless it has a tombstone for it. *)
Theorem store_invariant `{JL : JSONLaws} s s' :
  store_ok s -> steps s s' ->
  store_ok s' /\
  (forall i g, mget (greatestSequence s) i = Some g -> heard s' i g) /\
  (forall now k v, len (entries (set s' now k v).1) <=
     Z.max MAX_PRESENCE_ENTRIES (len (entries s'))) /\
  (forall now bs f, decodeFrame bs = Ok f ->
     (heard s' (f_instanceKey f) (f_sequence f) -> apply s' now bs = (s', Ok [])) /\
     (forall k e, mget (entries s') k = Some e -> e_deleted e = false ->
        e_instance e <> f_instanceKey f ->
        mget (entries (apply s' now bs).1) k = Some e \/
        exists i, i ∈ f_entries f /\ d_key i = k /\ d_deleted i = true)).
Proof.
  intros Hs Hss. split_and!.
  - by eapply store_ok_steps.
  - intros i g Hg. apply (heard_steps s s' i g Hss). right. exists g. by split; [| lia].
  - intros. apply set_size.
  - intros now bs f Hf. split.
    + by apply heard_apply.
    + intros k e He Hd Hi. unfold apply. rewrite Hf.
      destruct (destroyed s'); [by left |]. destruct (f_sequence f <=? _); [by left |].
      destruct (apply_entries _ _ _ _) as [es c] eqn:E.
      cbn [entries upd_greatest upd_entries fst]. change es with ((es, c).1). rewrite <- E.
      destruct (apply_entries_foreign now (f_instanceKey f) (entries s') (f_entries f) k e
        He Hd Hi) as [[? _] | [? _]]; [by left | by right].
Qed.

(** Replays are inert: once a frame of a connection instance has been
    applied, applying that frame or any earlier one of the same instance later,
    after whatever happened in between, changes nothing and notifies nobody. *)
Theorem stale_frames_ignored `{J : JSON} s now bs s1 outs frame s2 now2 bs2 frame2 :
  decodeFrame bs = Ok frame -> apply s now bs = (s1, Ok outs) ->
  steps s1 s2 ->
  decodeFrame bs2 = Ok frame2 -> f_instanceKey frame2 = f_instanceKey frame ->
  f_sequence frame2 <= f_sequence frame ->
  apply s2 now2 bs2 = (s2, Ok []).
Proof.
  intros Hf Ha Hss Hf2 Hi Hq.
  pose proof (decodeFrame_sequence _ _ Hf) as Hpos.
  assert (Hh : heard s1 (f_instanceKey frame) (f_sequence frame)).
  { unfold apply in Ha. rewrite Hf in Ha. destruct (destroyed s) eqn:Ed.
    { injection Ha as <- _. by left. }
    right. destruct (Z.leb_spec (f_sequence frame)
      (default 0 (mget (greatestSequence s) (f_instanceKey frame)))) as [Hle | Hgt].
    - injection Ha as <- _. destruct (mget (greatestSequence s) _) as [g|] eqn:Eg; simpl in Hle;
        [by exists g | lia].
    - destruct (apply_entries _ _ _ _). injection Ha as <- _.
      exists (f_sequence frame). cbn. rewrite mget_mset_eq. split; [done | lia]. }
  apply (heard_steps s1 s2) in Hh; [|done].
  apply (heard_apply s2 now2 bs2 frame2 Hf2). rewrite Hi.
  destruct Hh as [Hd | (g & Hg & Hle)]; [by left |]. right. exists g. split; [done | lia].
Qed.

(** ** Sweeping *)

Lemma mget_filter_eq (f : jstring * Entry -> bool) es k :
  NoDup es.*1 ->
  mget (List.filter f es) k =
  match mget es k with Some e => if f (k, e) then Some e else None | None => None end.
Proof.
  induction es as [|[k' e'] r IH]; csimpl; [done |]. intros [Hni Hnd]%NoDup_cons.
  specialize (IH Hnd). destruct (decide (k' = k)) as [-> | Hne].
  - destruct (f (k, e')); csimpl; [by rewrite decide_True |].
    rewrite IH. by rewrite (proj2 (mget_None_keys r k)).
  - destruct (f (k', e')); csimpl; [by rewrite decide_False |]. done.
Qed.

Lemma filter_filter_impl {A} (f g : A -> bool) l :
  (forall x, f x = true -> g x = true) -> List.filter f (List.filter g l) = List.filter f l.
Proof.
  intros H. induction l as [|x r IH]; simpl; [done |].
  destruct (g x) eqn:Eg; simpl; [by rewrite IH |].
  destruct (f x) eqn:Ef; [|done]. apply H in Ef. congruence.
Qed.

(** Sweeping is invisible to readers: from the sweep's time on, [get],
    [keys] and [getAllStates] answer as they would have without it, no expired
    entry remains, and subscribers are notified exactly when an expired entry
    was still undeleted. *)
Theorem sweep_transparent s now now' key :
  NoDup (entries s).*1 -> now <= now' ->
  let s' := (sweep s now).1 in
  get s' now' key = get s now' key /\ keys s' now' = keys s now' /\
  getAllStates s' now' = getAllStates s now' /\
  Forall (fun kv => now - e_receivedAt kv.2 <= ttlMs s) (entries s') /\
  ((sweep s now).2 = [Notify] <->
   exists k e, (k, e) ∈ entries s /\ e_deleted e = false /\ ttlMs s < now - e_receivedAt e).
Proof.
  intros Hnd Hle s'.
  assert (Hl : forall e, live s' now' e = live s now' e) by done.
  assert (Himp : forall kv : jstring * Entry, live s now' kv.2 = true ->
            negb (ttlMs s <? now - e_receivedAt kv.2) = true).
  { intros kv. unfold live. intros H. reflect_bools. rewrite negb_true_iff, Z.ltb_ge. lia. }
  split_and!.
  - unfold get. subst s'. cbn [entries sweep fst upd_entries].
    rewrite mget_filter_eq by done. destruct (mget (entries s) key) as [e|]; [|done].
    specialize (Himp (key, e)). cbn [snd] in *.
    destruct (negb _); [done |]. destruct (live s now' e) eqn:El; [|done]. by specialize (Himp eq_refl).
  - unfold keys. subst s'. cbn [entries sweep fst upd_entries]. by rewrite filter_filter_impl.
  - unfold getAllStates. subst s'. cbn [entries sweep fst upd_entries]. by rewrite filter_filter_impl.
  - subst s'. cbn [entries sweep fst upd_entries]. apply Forall_forall. intros kv Hkv.
    apply list_elem_of_In, filter_In in Hkv as [_ Hkv]. reflect_bools. lia.
  - unfold sweep. cbn [snd]. destruct (existsb _ _) eqn:Ex.
    + split; [intros _ | done]. apply existsb_exists in Ex as ([k e] & Hin & Hb). reflect_bools.
      exists k, e. split; [by apply list_elem_of_In | done].
    + split; [done |]. intros (k & e & Hin & Hd & Hx).
      rewrite <- not_true_iff_false, existsb_exists in Ex. destruct Ex. exists (k, e).
      split; [by apply list_elem_of_In |]. cbn [snd]. rewrite Hd.
      by rewrite (proj2 (Z.ltb_lt _ _)) by lia.
Qed.

(** ** Delivery between two stores *)

Section Delivery.
Context `{JL : JSONLaws}.

Lemma apply_entries_notin now inst es l k :
  k ∉ map d_key l -> mget (apply_entries now inst es l).1 k = mget es k.
Proof.
  revert es. induction l as [|i r IH]; intros es; [done |].
  cbn [map]. rewrite not_elem_of_cons. intros [H1 H2].
  rewrite apply_entries_cons, IH by done. by apply apply_entry_other.
Qed.

Lemma published_key s now k : d_key (published s now k) = k.
Proof. unfold published. by repeat case_match. Qed.

Lemma published_age s now k : d_age (published s now k) <= MAX_BOOTSTRAP_AGE_MS.
Proof.
  unfold published. repeat case_match; cbn [d_age]; try (unfold MAX_BOOTSTRAP_AGE_MS; lia).
  apply age_of_bounds.
Qed.

Lemma localKeys_local s k e :
  store_ok s -> k ∈ localKeys s -> mget (entries s) k = Some e -> e_local e = true.
Proof.
  intros Hs Hin He. unfold localKeys in Hin. apply list_elem_of_fmap in Hin as ([k' e'] & -> & Hin).
  apply list_elem_of_In, filter_In in Hin as [Hin Hl]. apply list_elem_of_In in Hin.
  apply (mget_In _ _ _ (ok_keys s Hs)) in Hin. cbn in *. congruence.
Qed.

(** The receiver may take [k] from [inst]. *)
Definition open_to (es : list (jstring * Entry)) (inst k : jstring) : Prop :=
  forall e, mget es k = Some e -> e_deleted e = true \/ e_instance e = inst.

Lemma apply_entries_published s now now' inst es ks k :
  NoDup ks -> k ∈ ks -> open_to es inst k ->
  mget (apply_entries now' inst es (map (published s now) ks)).1 k =
  Some {| e_value := d_value (published s now k); e_receivedAt := now'; e_instance := inst;
          e_deleted := d_deleted (published s now k); e_local := false |}.
Proof.
  intros Hnd. revert es. induction Hnd as [|k0 r Hni Hnd IH]; intros es Hin Hopen.
  { by apply not_elem_of_nil in Hin. }
  cbn [map]. rewrite apply_entries_cons.
  destruct (decide (k = k0)) as [-> | Hne].
  - rewrite apply_entries_notin.
    2:{ rewrite map_map. by erewrite map_ext, map_id by apply published_key. }
    pose proof (published_key s now k0) as Hk. pose proof (published_age s now k0) as Ha.
    assert (Hv : d_deleted (published s now k0) = true -> d_value (published s now k0) = VUndef)
      by (unfold published; by repeat case_match).
    destruct (published s now k0) as [dk dd da dv]. cbn [d_key d_age d_deleted d_value] in *. subst dk.
    unfold apply_entry. cbn [d_key d_age d_deleted d_value].
    replace (match mget es k0 with Some e => _ | None => false end) with false.
    2:{ symmetry. destruct (mget es k0) as [e|] eqn:E; [|done].
        destruct (Hopen e E) as [-> | <-]; [done |].
        by rewrite str_eqb_refl, andb_false_r. }
    destruct dd; [rewrite Hv by done | rewrite (proj2 (Z.ltb_ge _ _)) by done];
      apply mget_mset_eq.
  - apply elem_of_cons in Hin as [? | Hin]; [done |]. apply IH; [done |].
    intros e. rewrite apply_entry_other by (by rewrite published_key). apply Hopen.
Qed.

(** Presence is delivered: when a receiver applies the full publication
    of a good store, it shows for each of the sender's own keys exactly the
    sender's current value (nothing for a tombstone), provided the frame is
    not stale there and the key is not held by some other live connection. *)
Theorem presence_delivered sA nowA sA' bs sB nowB sB' outs k e :
  store_ok sA -> Forall good_key (localKeys sA) ->
  len (localKeys sA) <= MAX_PRESENCE_ENTRIES ->
  encodeAll sA nowA = (sA', Ok bs) ->
  destroyed sB = false -> 0 <= ttlMs sB ->
  default 0 (mget (greatestSequence sB) (instanceKey (instance sA))) <= sequence sA ->
  open_to (entries sB) (instanceKey (instance sA)) k ->
  mget (entries sA) k = Some e -> e_local e = true ->
  apply sB nowB bs = (sB', Ok outs) ->
  get sB' nowB k = if e_deleted e then VUndef else e_value e.
Proof.
  intros Hok Hkeys Hn Henc Hd Httl Hg Hopen He Hlocal Ha.
  apply publication_decodes in Henc as [_ Hf]; try done; try apply Hok.
  2:{ intros k0 e0 Hin0 He0 Hd0. pose proof (localKeys_local sA k0 e0 Hok Hin0 He0) as Hl0.
      destruct (ok_values _ Hok k0 e0 He0) as [Hg0 _]. unfold entry_good in Hg0.
      by rewrite Hd0, Hl0 in Hg0. }
  unfold apply in Ha. rewrite Hd, Hf in Ha. cbn [f_instanceKey f_sequence f_entries] in Ha.
  rewrite (proj2 (Z.leb_gt _ _)) in Ha by lia.
  destruct (apply_entries _ _ _ _) as [es c] eqn:E. injection Ha as <- _.
  assert (Hin : k ∈ localKeys sA).
  { unfold localKeys. apply list_elem_of_fmap. exists (k, e). split; [done |].
    apply list_elem_of_In, filter_In. split; [|done].
    apply list_elem_of_In, mget_In; [apply Hok | done]. }
  pose proof (apply_entries_published sA nowA nowB (instanceKey (instance sA)) (entries sB)
    (localKeys sA) k (filter_keys_NoDup _ _ (ok_keys _ Hok)) Hin Hopen) as Hm.
  rewrite E in Hm. cbn [fst] in Hm. unfold get. cbn [entries upd_greatest upd_entries].
  rewrite Hm. unfold live, published. rewrite He.
  destruct (e_deleted e); cbn; [done |].
  by rewrite (proj2 (Z.leb_le _ _)) by lia.
Qed.
End Delivery.

(** ** Concrete instances *)

Module Demo.
(** A JSON codec for [null], [true] and [false] that satisfies the laws. *)
#[export] Instance tiny_json : JSON := {
  json_stringify v :=
    match v with
    | VUndef => Ok None
    | VNull => Ok (Some (lit "null"))
    | VBool true => Ok (Some (lit "true"))
    | VBool false => Ok (Some (lit "false"))
    | _ => type_error "unsupported"
    end;
  json_parse s :=
    if str_eqb s (lit "null") then Ok VNull
    else if str_eqb s (lit "true") then Ok (VBool true)
    else if str_eqb s (lit "false") then Ok (VBool false)
    else Throw (Exn SyntaxError "Unexpected token") }.

#[export] Instance tiny_json_laws : JSONLaws tiny_json.
Proof.
  split.
  - intros v t. simpl. destruct v as [| |[] | | | | |]; intros [= <-]; by eexists.
  - intros v t. simpl. destruct v as [| |[] | | | | |]; intros [= <-];
      (split; [by apply wf16b_sound | done]).
Defined.

Definition inst_a : bytes := replicate 16 7.
Definition key_a : jstring := lit "2-cm-user".

(** One live local entry and one tombstone. *)
Definition store_a : Store :=
  {| entries := [(key_a, {| e_value := VBool true; e_receivedAt := 1000;
                            e_instance := instanceKey inst_a; e_deleted := false; e_local := true |});
                 (lit "2-cm-sel", {| e_value := VUndef; e_receivedAt := 1000;
                            e_instance := instanceKey inst_a; e_deleted := true; e_local := true |})];
     greatestSequence := []; instance := inst_a; sequence := 3; destroyed := false;
     ttlMs := 30000; hasUpdateListener := true |}.

(** A receiver with a live entry of its own. *)
Definition store_b : Store :=
  {| entries := [(lit "9-cm-user", {| e_value := VNull; e_receivedAt := 2000;
                            e_instance := instanceKey (replicate 16 9); e_deleted := false;
                            e_local := true |})];
     greatestSequence := []; instance := replicate 16 9; sequence := 0; destroyed := false;
     ttlMs := 30000; hasUpdateListener := false |}.

Definition frame_a : bytes :=
  match (encodeAll store_a 5000).2 with Ok bs => bs | Throw _ => [] end.

Definition frame_a_decoded : DecodedFrame :=
  match decodeFrame frame_a with
  | Ok f => f
  | Throw _ => {| f_instance := []; f_instanceKey := []; f_sequence := 0; f_entries := [] |}
  end.

Lemma store_a_ok : store_ok store_a.
Proof.
  constructor; simpl; try done.
  - apply (bool_decide_eq_true_1 _). reflexivity.
  - intros k e. cbn. case_decide as Ek; [subst k; intros [= <-] |].
    + split; [exists (lit "true") |]; split_and!; done.
    + case_decide; intros [= <-]. by split; [| split].
  - apply NoDup_nil_2.
  - split; [apply Forall_replicate; unfold is_byte; lia | done].
Defined.

Lemma keys_a_good : Forall good_key (localKeys store_a).
Proof.
  change (localKeys store_a) with [key_a; lit "2-cm-sel"].
  apply Forall_cons_2; [| apply Forall_singleton];
    (split; [done |]; split; [by apply wf16b_sound | done]).
Defined.
End Demo.

Import Demo.

Lemma publication_roundtrip_witness :
  decodeFrame frame_a =
  Ok {| f_instance := inst_a; f_instanceKey := instanceKey inst_a; f_sequence := 4;
        f_entries := map (published store_a 5000) (localKeys store_a) |}.
Proof.
  refine (proj2 (publication_roundtrip store_a 5000 (localKeys store_a)
    (upd_sequence store_a 4) frame_a keys_a_good _ _ _ _ _ _)).
  - vm_compute. discriminate.
  - intros k e Hin He Hd. pose proof (localKeys_local store_a k e store_a_ok Hin He) as Hl.
    destruct (ok_values _ store_a_ok k e He) as [Hg _]. unfold entry_good in Hg.
    by rewrite Hd, Hl in Hg.
  - apply store_a_ok.
  - done.
  - done.
  - vm_compute. reflexivity.
Defined.

Lemma store_b_ok : store_ok store_b.
Proof.
  constructor; simpl; try done.
  - apply NoDup_singleton.
  - intros k e. cbn. case_decide as Ek; intros [= <-]. subst k.
    split; [exists (lit "null") |]; split_and!; done.
  - apply NoDup_nil_2.
  - split; [repeat constructor; unfold is_byte; lia | done].
Defined.

Lemma store_invariant_witness :
  store_ok (apply store_b 5000 frame_a).1 /\
  apply (apply store_b 5000 frame_a).1 9000 frame_a = ((apply store_b 5000 frame_a).1, Ok []).
Proof.
  destruct (store_invariant store_b (apply store_b 5000 frame_a).1 store_b_ok) as (H1 & _ & _ & H2).
  - eapply steps_next; [apply step_apply | apply steps_refl].
  - split; [exact H1 |]. destruct (H2 9000 frame_a frame_a_decoded) as [H3 _].
    + vm_compute. reflexivity.
    + apply H3. right. exists 4. split; vm_compute; [reflexivity | discriminate].
Defined.

(** A frame with a tombstone and then a live value of one key, from another
    connection, replaces the live entry of that key. *)
Definition taking_frame : bytes :=
  [5; 2] ++ inst_a ++ [1; 2; 1; 107; 1; 1; 107; 0; 0; 4] ++ lit "true".

Example tombstone_takes_the_key :
  let s := {| entries := [(lit "k", {| e_value := VNull; e_receivedAt := 2000;
                e_instance := lit "99"; e_deleted := false; e_local := true |})];
              greatestSequence := []; instance := replicate 16 9; sequence := 0;
              destroyed := false; ttlMs := 30000; hasUpdateListener := false |} in
  get s 5000 (lit "k") = VNull /\ get (apply s 5000 taking_frame).1 5000 (lit "k") = VBool true.
Proof. split; vm_compute; reflexivity. Qed.

Lemma sweep_transparent_witness :
  get (sweep store_a 31000).1 31000 key_a = get store_a 31000 key_a.
Proof.
  refine (proj1 (sweep_transparent store_a 31000 31000 key_a _ _)).
  - apply store_a_ok.
  - lia.
Defined.


Lemma stale_frames_ignored_witness :
  apply (sweep (apply store_b 5000 frame_a).1 9000).1 9500 frame_a =
  ((sweep (apply store_b 5000 frame_a).1 9000).1, Ok []).
Proof.
  refine (stale_frames_ignored store_b 5000 frame_a (apply store_b 5000 frame_a).1 [Notify]
    frame_a_decoded _ 9500 frame_a frame_a_decoded _ _ _ _ _ _).
  - vm_compute. reflexivity.
  - vm_compute. reflexivity.
  - eapply steps_next; [apply step_sweep | apply steps_refl].
  - vm_compute. reflexivity.
  - reflexivity.
  - lia.
Defined.

Lemma presence_delivered_witness :
  get (apply store_b 5000 frame_a).1 5000 key_a = VBool true.
Proof.
  refine (presence_delivered store_a 5000 (upd_sequence store_a 4) frame_a store_b 5000 _ [Notify]
    key_a {| e_value := VBool true; e_receivedAt := 1000; e_instance := instanceKey inst_a;
             e_deleted := false; e_local := true |} store_a_ok keys_a_good _ _ _ _ _ _ _ _ _).
  - vm_compute. discriminate.
  - vm_compute. reflexivity.
  - reflexivity.
  - vm_compute. discriminate.
  - vm_compute. discriminate.
  - intros e H. vm_compute in H. discriminate.
  - vm_compute. reflexivity.
  - reflexivity.
  - vm_compute. reflexivity.
Defined.
