(* ===== verification/PresenceActivity.v ===== *)
(** The local user's transient visibility
    ([client/src/collab/presence-activity-controller.ts]): only direct input
    shows the user, an idle timer, a hidden page or a teardown hides them. *)

From S2P Require Import Prelude Timers.

Inductive PresenceActivityState := Active | Idle | Hidden | Disconnected.

#[global] Instance PresenceActivityState_eq_dec : EqDecision PresenceActivityState.
Proof. solve_decision. Defined.

(** The two callbacks of the options, as the log of their calls. *)
Inductive publish := PublishActive | PublishInactive.

Inductive callback := IdleTimer.

Record Controller := {
  current : PresenceActivityState;
  timer : option Z;
  idleMs : Q;
  listening : bool;          (* the five event listeners are installed *)
  clock : timers callback;
  page_hidden : bool;        (* documentTarget.visibilityState === 'hidden' *)
  calls : list publish }.

Definition set_current (c : Controller) st : Controller :=
  {| current := st; timer := timer c; idleMs := idleMs c; listening := listening c;
     clock := clock c; page_hidden := page_hidden c; calls := calls c |}.
Definition set_timer (c : Controller) h t : Controller :=
  {| current := current c; timer := h; idleMs := idleMs c; listening := listening c;
     clock := t; page_hidden := page_hidden c; calls := calls c |}.
Definition set_listening (c : Controller) b : Controller :=
  {| current := current c; timer := timer c; idleMs := idleMs c; listening := b;
     clock := clock c; page_hidden := page_hidden c; calls := calls c |}.
Definition set_page_hidden (c : Controller) b : Controller :=
  {| current := current c; timer := timer c; idleMs := idleMs c; listening := listening c;
     clock := clock c; page_hidden := b; calls := calls c |}.
Definition call (c : Controller) p : Controller :=
  {| current := current c; timer := timer c; idleMs := idleMs c; listening := listening c;
     clock := clock c; page_hidden := page_hidden c; calls := calls c ++ [p] |}.

Definition PRESENCE_IDLE_MS : Q := 60000.

(** A finite idle threshold below one millisecond is refused. *)
Definition new_controller (idle : Q) (hidden : bool) : res Controller :=
  if negb (Qle_bool 1 idle) then range_error "marks: presence idle threshold must be positive"
  else Ok {| current := Disconnected; timer := None; idleMs := idle; listening := false;
             clock := no_timers; page_hidden := hidden; calls := [] |}.

Definition active (c : Controller) : bool := bool_decide (current c = Active).

Definition clearIdleTimer (c : Controller) : Controller :=
  match timer c with
  | None => c
  | Some h => set_timer c None (clearTimeout h (clock c))
  end.

Definition armIdleTimer (c : Controller) : Controller :=
  let c := clearIdleTimer c in
  let '(h, t) := setTimeout IdleTimer (idleMs c) (clock c) in
  set_timer c (Some h) t.

Definition recordActivity (c : Controller) : Controller :=
  if bool_decide (current c = Disconnected) || page_hidden c then c
  else armIdleTimer (call (set_current c Active) PublishActive).

Definition transitionInactive (c : Controller) (st : PresenceActivityState) : Controller :=
  let c := clearIdleTimer c in
  let c := if bool_decide (current c = Active) then call c PublishInactive else c in
  set_current c st.

Definition start (c : Controller) : Controller :=
  if negb (bool_decide (current c = Disconnected)) then c
  else
    let c := set_current (set_listening c true) Idle in
    if page_hidden c then transitionInactive c Hidden else recordActivity c.

Definition heartbeat (c : Controller) : Controller :=
  if active c then call c PublishActive else c.

Definition disconnect (c : Controller) : Controller :=
  if bool_decide (current c = Disconnected) then c
  else set_listening (set_current (call (clearIdleTimer c) PublishInactive) Disconnected) false.

Definition pagehide (c : Controller) : Controller := disconnect c.

Definition handleVisibility (c : Controller) : Controller :=
  if page_hidden c then transitionInactive c Hidden else c.

Definition idle_callback (c : Controller) : Controller :=
  let c := set_timer c None (clock c) in
  if bool_decide (current c = Active) then transitionInactive c Idle else c.

(** What can happen to a controller. A DOM listener runs only while installed. *)
Inductive event :=
| EStart | EInput | ERecord | EHeartbeat | EPagehide | EDisconnect
| EVisibility (hidden : bool)
| ETimer (handle : Z).

Definition step (c : Controller) (e : event) : Controller :=
  match e with
  | EStart => start c
  | EInput => if listening c then recordActivity c else c
  | ERecord => recordActivity c
  | EHeartbeat => heartbeat c
  | EPagehide => pagehide c
  | EDisconnect => disconnect c
  | EVisibility b =>
      let c := set_page_hidden c b in if listening c then handleVisibility c else c
  | ETimer h =>
      match expire h (clock c) with
      | Some (IdleTimer, t) => idle_callback (set_timer c (timer c) t)
      | None => c
      end
  end.

Definition run (c : Controller) (es : list event) : Controller := foldl step c es.

(** What the other participants last heard. *)
Definition shown (ps : list publish) : bool :=
  match last ps with Some PublishActive => true | _ => false end.

Definition timer_exact (c : Controller) : Prop :=
  match timer c with
  | Some h => t_armed (clock c) = {[ h := (IdleTimer, idleMs c) ]} /\ h < t_next (clock c)
  | None => t_armed (clock c) = ∅
  end.

Record controller_ok (c : Controller) : Prop := {
  co_timer : timer_exact c;
  co_armed : current c = Active <-> is_Some (timer c);
  co_shown : shown (calls c) = active c;
  co_listen : listening c = negb (bool_decide (current c = Disconnected));
  co_hidden : page_hidden c = true -> current c <> Active }.

Lemma shown_snoc ps p : shown (ps ++ [p]) = match p with PublishActive => true | _ => false end.
Proof. unfold shown. rewrite last_snoc. by destruct p. Qed.

(** [state <> Active] and no timer field. *)
Ltac no_timer := try (split; [done | by intros [? ?]]).

Lemma new_controller_ok idle hidden c : new_controller idle hidden = Ok c -> controller_ok c.
Proof.
  unfold new_controller. destruct (negb _); [done |]. intros [= <-].
  split; simpl; try done; no_timer.
Qed.

Lemma clearIdleTimer_eq c :
  timer_exact c ->
  exists t, clearIdleTimer c = set_timer c None t /\ t_armed t = ∅.
Proof.
  unfold timer_exact, clearIdleTimer. destruct (timer c) as [h|] eqn:E; intros H.
  - exists (clearTimeout h (clock c)). split; [done |]. simpl.
    destruct H as [-> _]. by rewrite delete_singleton_eq.
  - exists (clock c). split; [|done]. destruct c; simpl in *. by subst.
Qed.

Lemma armIdleTimer_eq c :
  timer_exact c ->
  exists h t, armIdleTimer c = set_timer c (Some h) t /\
    t_armed t = {[ h := (IdleTimer, idleMs c) ]} /\ h < t_next t.
Proof.
  intros H. unfold armIdleTimer. destruct (clearIdleTimer_eq c H) as (t & -> & Ht).
  do 2 eexists. split; [reflexivity |]. simpl. rewrite Ht. split; [done | lia].
Qed.

(** Each handler, as its effect on the state and on the log of calls. *)
Lemma recordActivity_ok c : controller_ok c -> controller_ok (recordActivity c).
Proof.
  intros Hok. unfold recordActivity.
  destruct (bool_decide (current c = Disconnected)) eqn:Ed; [done |].
  destruct (page_hidden c) eqn:Ep; [done |]. cbn [orb]. destruct Hok as [Ht Ha Hs Hl Hh].
  destruct (armIdleTimer_eq (call (set_current c Active) PublishActive)) as (h & t & -> & H1 & H2).
  { exact Ht. }
  split; simpl; try done; [by rewrite shown_snoc | by rewrite Hl, Ed | by rewrite Ep].
Qed.

Lemma transitionInactive_ok c st :
  timer_exact c -> shown (calls c) = active c -> listening c = true ->
  st <> Active -> st <> Disconnected -> controller_ok (transitionInactive c st).
Proof.
  intros Ht Hs Hl H1 H2. unfold transitionInactive.
  destruct (clearIdleTimer_eq c Ht) as (t & -> & Ht'). simpl.
  assert (Hst : forall c', active (set_current c' st) = false)
    by (intros; by apply bool_decide_eq_false).
  assert (Hd : bool_decide (st = Disconnected) = false) by (by apply bool_decide_eq_false).
  destruct (bool_decide (current c = Active)) eqn:Ed; split; simpl;
    rewrite ?Hst, ?Hd, ?shown_snoc; try done; try (split; [done | by intros [? ?]]).
  by rewrite Hs.
Qed.

Lemma start_ok c : controller_ok c -> controller_ok (start c).
Proof.
  intros Hok. pose proof Hok as [Ht Ha Hs Hl Hh]. unfold start. destruct (bool_decide (current c = Disconnected)) eqn:Ed; simpl; [|done].
  apply bool_decide_eq_true in Ed. unfold active in Hs. rewrite Ed in Hs, Ha.
  assert (timer c = None) as Hn.
  { destruct (timer c) eqn:E; [|done]. assert (Disconnected = Active) by (apply Ha; eauto). done. }
  destruct (page_hidden c) eqn:Ep.
  - by apply transitionInactive_ok.
  - apply recordActivity_ok. split; simpl; try done. rewrite Hn. split; [done | by intros [? ?]].
Qed.

Lemma heartbeat_ok c : controller_ok c -> controller_ok (heartbeat c).
Proof.
  intros Hok. pose proof Hok as [Ht Ha Hs Hl Hh]. unfold heartbeat. destruct (active c) eqn:E; [|done].
  split; simpl; try done. by rewrite shown_snoc, <- E.
Qed.

Lemma disconnect_ok c : controller_ok c -> controller_ok (disconnect c).
Proof.
  intros Hok. pose proof Hok as [Ht Ha Hs Hl Hh]. unfold disconnect. destruct (bool_decide (current c = Disconnected)); [done |].
  destruct (clearIdleTimer_eq c Ht) as (t & -> & Ht'). split; simpl; try done.
  - rewrite shown_snoc. symmetry. by apply bool_decide_eq_false_2.
Qed.

Lemma visibility_ok c b :
  controller_ok c -> controller_ok (step c (EVisibility b)).
Proof.
  intros Hok. pose proof Hok as [Ht Ha Hs Hl Hh]. simpl.
  destruct (listening c) eqn:El; unfold handleVisibility; simpl.
  - destruct b; [by apply transitionInactive_ok |]. by split; simpl; rewrite ?El.
  - split; simpl; try done; [by rewrite El |]. intros _ Hc. by rewrite Hc in Hl.
Qed.

Lemma timer_ok c h : controller_ok c -> controller_ok (step c (ETimer h)).
Proof.
  intros Hok. pose proof Hok as [Ht Ha Hs Hl Hh]. simpl. destruct (expire h (clock c)) as [[[] t]|] eqn:E; [|done].
  apply expire_Some in E as [[d Hd] ->]. unfold timer_exact in Ht.
  destruct (timer c) as [h0|] eqn:E0; [|by rewrite Ht, lookup_empty in Hd].
  destruct Ht as [Ht _]. rewrite Ht in Hd. apply lookup_singleton_Some in Hd as [-> _].
  assert (current c = Active) as Hc by (apply Ha; eauto).
  unfold idle_callback. simpl. rewrite bool_decide_eq_true_2 by done.
  apply transitionInactive_ok; simpl; try done.
  - unfold timer_exact. simpl. by rewrite Ht, delete_singleton_eq.
  - by rewrite Hl, Hc.
Qed.

Lemma step_ok c e : controller_ok c -> controller_ok (step c e).
Proof.
  destruct e; intros H; simpl.
  - by apply start_ok.
  - destruct (listening c); [by apply recordActivity_ok | done].
  - by apply recordActivity_ok.
  - by apply heartbeat_ok.
  - by apply disconnect_ok.
  - by apply disconnect_ok.
  - by apply (visibility_ok c).
  - by apply timer_ok.
Qed.

(** In every state a controller can reach, other participants see the user
    exactly while the controller is active, one idle timer is armed exactly
    then, listeners are installed exactly between start and teardown, and a
    hidden page is never active. *)
Theorem controller_invariant idle hidden c es :
  new_controller idle hidden = Ok c -> controller_ok (run c es).
Proof.
  intros H%new_controller_ok. unfold run. revert c H.
  induction es as [|e r IH]; intros c H; [done |]. apply IH. by apply step_ok.
Qed.

(** Events that are not the user's own input (or the start of a session). *)
Definition passive (e : event) : bool :=
  match e with EStart | EInput | ERecord => false | _ => true end.

Lemma active_false c : active c = false <-> current c <> Active.
Proof. apply bool_decide_eq_false. Qed.

Lemma transition_from_inactive c st :
  current c <> Active -> st <> Active ->
  current (transitionInactive c st) <> Active /\ calls (transitionInactive c st) = calls c.
Proof.
  intros H1 H2. unfold transitionInactive, clearIdleTimer.
  destruct (timer c); simpl; by rewrite bool_decide_eq_false_2.
Qed.

Lemma disconnect_hides c :
  current c <> Active ->
  current (disconnect c) <> Active /\
  forall p, p ∈ calls (disconnect c) -> p = PublishInactive \/ p ∈ calls c.
Proof.
  intros H. unfold disconnect, clearIdleTimer.
  destruct (bool_decide (current c = Disconnected)); [eauto |].
  destruct (timer c); simpl; (split; [done |]);
    intros p [?| ->%list_elem_of_singleton]%elem_of_app; eauto.
Qed.

Lemma passive_step c e :
  passive e = true -> current c <> Active ->
  current (step c e) <> Active /\
  forall p, p ∈ calls (step c e) -> p = PublishInactive \/ p ∈ calls c.
Proof.
  intros Hp Ha. destruct e; try done; simpl.
  - unfold heartbeat. rewrite (proj2 (active_false c) Ha). eauto.
  - by apply disconnect_hides.
  - by apply disconnect_hides.
  - destruct (listening c); [|eauto]. unfold handleVisibility. simpl. destruct hidden; [|eauto].
    destruct (transition_from_inactive (set_page_hidden c true) Hidden) as [H1 ->]; eauto.
  - destruct (expire handle (clock c)) as [[[] t]|]; [|eauto].
    unfold idle_callback. simpl. rewrite bool_decide_eq_false_2 by done. eauto.
Qed.

(** Network traffic, timers, page visibility and heartbeats never reveal a
    user who is not already visible: from an inactive state, no sequence of
    passive events publishes the user as active. *)
Theorem passive_events_never_reveal c es :
  active c = false -> Forall (fun e => passive e = true) es ->
  active (run c es) = false /\
  forall p, p ∈ calls (run c es) -> p = PublishInactive \/ p ∈ calls c.
Proof.
  intros Ha Hes. rewrite active_false in Ha. rewrite active_false. revert c Ha. induction es as [|e r IH]; intros c Ha; [eauto |].
  apply Forall_cons in Hes as [He Hes]. destruct (passive_step c e He Ha) as [H1 H2].
  destruct (IH Hes (step c e) H1) as [H3 H4].
  split; [exact H3 |]. intros p [->|Hp]%H4; [by left |]. by apply H2.
Qed.

(** The user of the demonstrations: a one-minute idle threshold. *)
Definition demo_controller : Controller :=
  {| current := Disconnected; timer := None; idleMs := PRESENCE_IDLE_MS; listening := false;
     clock := no_timers; page_hidden := false; calls := [] |}.

Lemma controller_invariant_witness :
  controller_ok (run demo_controller [EStart; EVisibility true; EInput; EVisibility false; EInput; ETimer 2]).
Proof. apply (controller_invariant PRESENCE_IDLE_MS false). reflexivity. Defined.

Lemma passive_events_witness :
  active (run (run demo_controller [EStart; ETimer 1]) [EHeartbeat; EVisibility true; EVisibility false; EPagehide]) = false.
Proof.
  apply (passive_events_never_reveal (run demo_controller [EStart; ETimer 1])
    [EHeartbeat; EVisibility true; EVisibility false; EPagehide]).
  - reflexivity.
  - repeat constructor.
Defined.
