(* ===== verification/Locks.v ===== *)
(** The lock that serialises the snapshot writes of one document
    ([client/src/browser/persist-lock.ts]) with the deadline of
    [runWithTimeout] ([client/src/browser/network.ts]): a queue of promises in
    each page, and the browser's Web Locks between pages. *)

From S2P Require Import Prelude.

(** ** One page *)

Abbreviation lock_name := jstring.

Inductive lock_error := PersistLockTimeoutError | PersistLockPoisonedError | WorkError.
Inductive outcome := Resolved | Rejected (e : lock_error).

(** Where the work of a call is: its operation is a queued microtask; it waits
    for the previous tail; it waits for the Web Lock; [work()] is running, under
    the Web Lock or not; the promise [run], and with it [tail], has settled. A
    call refused before [withProcessLock] never gets a promise. *)
Inductive phase := Refused | Starting | Queued | Requesting | Working (locked : bool) | Settled.

#[export] Instance phase_eq_dec : EqDecision phase.
Proof. solve_decision. Defined.

(** One call of [withPersistLock]: its place in the queue, its deadline, the
    abort signal, what its caller was told, and whether its [catch] block is
    still to run. Promise [k] is the tail of call [k]. *)
Record Call := {
  c_name : lock_name;
  c_prev : option nat;
  c_phase : phase;
  c_timer : bool;
  c_aborted : bool;
  c_outcome : option outcome;
  c_catching : bool
}.

#[export] Instance call_eta : Eta Call := fun c =>
  {| c_name := c_name c; c_prev := c_prev c; c_phase := c_phase c; c_timer := c_timer c;
     c_aborted := c_aborted c; c_outcome := c_outcome c; c_catching := c_catching c |}.
#[export] Instance set_prev : SetField c_prev. Proof. solve_update. Defined.
#[export] Instance set_phase : SetField c_phase. Proof. solve_update. Defined.
#[export] Instance set_timer : SetField c_timer. Proof. solve_update. Defined.
#[export] Instance set_aborted : SetField c_aborted. Proof. solve_update. Defined.
#[export] Instance set_outcome : SetField c_outcome. Proof. solve_update. Defined.
#[export] Instance set_catching : SetField c_catching. Proof. solve_update. Defined.

Record Page := {
  hasWebLocks : bool;
  calls : list Call;
  tails : list (lock_name * nat);
  poisoned : list lock_name
}.

Definition fresh_page (web : bool) : Page :=
  {| hasWebLocks := web; calls := []; tails := []; poisoned := [] |}.

Definition with_call (k : nat) (c : Call) (p : Page) : Page :=
  {| hasWebLocks := hasWebLocks p; calls := <[k := c]> (calls p);
     tails := tails p; poisoned := poisoned p |}.

(** [requireHealthy] throws exactly when this is false. *)
Definition healthy (n : lock_name) (p : Page) : bool := negb (bool_decide (n ∈ poisoned p)).

Definition PERSIST_LOCK_TIMEOUT_MS : Z := 5000.

Definition new_call (n : lock_name) (ph : phase) (timer : bool) (out : option outcome) (catching : bool) : Call :=
  {| c_name := n; c_prev := None; c_phase := ph; c_timer := timer; c_aborted := false;
     c_outcome := out; c_catching := catching |}.

(** The synchronous part of a call: a poisoned lane refuses it, a budget that is
    already spent is a timeout, and otherwise the deadline is armed and the
    operation queued. *)
Definition withPersistLock (n : lock_name) (timeoutMs : option Z) (p : Page) : Page :=
  let c :=
    if negb (healthy n p) then new_call n Refused false (Some (Rejected PersistLockPoisonedError)) false
    else if default PERSIST_LOCK_TIMEOUT_MS timeoutMs <=? 0
    then new_call n Refused false (Some (Rejected PersistLockTimeoutError)) true
    else new_call n Starting true None false in
  {| hasWebLocks := hasWebLocks p; calls := calls p ++ [c]; tails := tails p; poisoned := poisoned p |}.

(** [run] settles: the caller hears it unless the deadline won the race, and
    [finally] clears the timer. *)
Definition settle (k : nat) (c : Call) (r : outcome) (p : Page) : Page :=
  with_call k (c <| c_phase := Settled |> <| c_timer := false |>
                 <| c_outcome := Some (default r (c_outcome c)) |>) p.

(** [withProcessLock]: take a place behind the current tail. *)
Definition withProcessLock (k : nat) (c : Call) (p : Page) : Page :=
  let c' := c <| c_prev := mget (tails p) (c_name c) |> <| c_phase := Queued |> in
  {| hasWebLocks := hasWebLocks p; calls := <[k := c']> (calls p);
     tails := mset (tails p) (c_name c) k; poisoned := poisoned p |}.

(** The checks before the work, in the page's queue and again under the Web Lock. *)
Definition checked_start (k : nat) (c : Call) (next : phase) (p : Page) : Page :=
  if negb (healthy (c_name c) p) then settle k c (Rejected PersistLockPoisonedError) p
  else if c_aborted c then settle k c (Rejected PersistLockTimeoutError) p
  else with_call k (c <| c_phase := next |>) p.

Definition take_turn (k : nat) (c : Call) (p : Page) : Page :=
  checked_start k c (if hasWebLocks p then Requesting else Working false) p.

Definition deadline (k : nat) (c : Call) (p : Page) : Page :=
  with_call k (c <| c_timer := false |> <| c_aborted := true |>
                 <| c_outcome := Some (Rejected PersistLockTimeoutError) |> <| c_catching := true |>) p.

(** [catch (error) { if (error === timeout) poisoned.set(name, timeout); throw error; }] *)
Definition poison (k : nat) (c : Call) (p : Page) : Page :=
  let q := with_call k (c <| c_catching := false |>) p in
  {| hasWebLocks := hasWebLocks q; calls := calls q; tails := tails q; poisoned := c_name c :: poisoned q |}.

(** [tail.finally(() => { if (tails.get(name) === tail) tails.delete(name); })] *)
Definition tidy (k : nat) (c : Call) (p : Page) : Page :=
  if bool_decide (mget (tails p) (c_name c) = Some k)
  then {| hasWebLocks := hasWebLocks p; calls := calls p; tails := mdel (tails p) (c_name c); poisoned := poisoned p |}
  else p.

(** ** Pages that share the browser's locks *)

Inductive event :=
| ECall (n : lock_name) (timeoutMs : option Z)
| EOperation (k : nat)
| ETurn (k : nat)
| EGrant (k : nat)
| ELockFails (k : nat)
| EWorkEnds (k : nat) (ok : bool)
| EDeadline (k : nat)
| ECatch (k : nat)
| ETidy (k : nat).

(** The browser's exclusive locks: the call that holds each. *)
Record System := { pages : list Page; held : list (lock_name * (nat * nat)) }.

Definition promise_settled (p : Page) (o : option nat) : bool :=
  match o with
  | None => true
  | Some j => match calls p !! j with Some c => bool_decide (c_phase c = Settled) | None => false end
  end.

Definition working (c : Call) : bool := match c_phase c with Working _ => true | _ => false end.

(** Runs an event of page [i] that its state allows. *)
Definition page_event (e : event) (p : Page) : option Page :=
  match e with
  | ECall n t => Some (withPersistLock n t p)
  | EOperation k => c ← calls p !! k; if bool_decide (c_phase c = Starting) then Some (withProcessLock k c p) else None
  | ETurn k =>
      c ← calls p !! k;
      if bool_decide (c_phase c = Queued) && promise_settled p (c_prev c) then Some (take_turn k c p) else None
  | EGrant k => c ← calls p !! k; if bool_decide (c_phase c = Requesting) then Some (checked_start k c (Working true) p) else None
  | ELockFails k =>
      c ← calls p !! k;
      if bool_decide (c_phase c = Requesting)
      then Some (settle k c (Rejected (if c_aborted c then PersistLockTimeoutError else WorkError)) p) else None
  | EWorkEnds k ok =>
      c ← calls p !! k;
      if working c then Some (settle k c (if ok then Resolved else Rejected WorkError) p) else None
  | EDeadline k => c ← calls p !! k; if c_timer c then Some (deadline k c p) else None
  | ECatch k => c ← calls p !! k; if c_catching c then Some (poison k c p) else None
  | ETidy k => c ← calls p !! k; if bool_decide (c_phase c = Settled) then Some (tidy k c p) else None
  end.

(** What the event does to the browser's locks: a free lock can be granted,
    and is held until the callback's promise settles. *)
Definition lock_event (i : nat) (e : event) (p p' : Page) (h : list (lock_name * (nat * nat))) :
    option (list (lock_name * (nat * nat))) :=
  match e with
  | EGrant k =>
      match calls p !! k, calls p' !! k with
      | Some c, Some c' =>
          if mhas h (c_name c) then None
          else Some (if working c' then mset h (c_name c) (i, k) else h)
      | _, _ => None
      end
  | EWorkEnds k _ =>
      match calls p !! k with
      | Some c => Some (if bool_decide (mget h (c_name c) = Some (i, k)) then mdel h (c_name c) else h)
      | None => None
      end
  | _ => Some h
  end.

Definition step (i : nat) (e : event) (s : System) : option System :=
  p ← pages s !! i;
  p' ← page_event e p;
  h ← lock_event i e p p' (held s);
  Some {| pages := <[i := p']> (pages s); held := h |}.

Fixpoint run (es : list (nat * event)) (s : System) : option System :=
  match es with
  | [] => Some s
  | (i, e) :: r => s' ← step i e s; run r s'
  end.

Definition boot (webs : list bool) : System := {| pages := map fresh_page webs; held := [] |}.

(** [writeSnapshotUnderLock] exports inside the work, so what it exports is what
    the replica holds when the lock is its own. *)
Definition writeSnapshotUnderLock {B} (exportBytes : unit -> B) (write : B -> unit) : unit -> unit :=
  fun _ => write (exportBytes tt).

Definition persistLockName (engine docId : jstring) : lock_name :=
  lit "marks:persist:" ++ engine ++ lit ":" ++ docId.

(** ** The queue of a name in one page *)

Definition unsettled (c : Call) : bool :=
  match c_phase c with Queued | Requesting | Working _ => true | _ => false end.

Definition in_lane (n : lock_name) (p : Page) (k : nat) : Prop :=
  exists c, calls p !! k = Some c /\ c_name c = n /\ unsettled c = true.

(** Each call of [l] waits for the one before it. *)
Fixpoint linked (p : Page) (k : nat) (l : list nat) : Prop :=
  match l with
  | [] => True
  | j :: r => (exists c, calls p !! j = Some c /\ c_phase c = Queued /\ c_prev c = Some k) /\ linked p j r
  end.

(** The unsettled calls of the lane, in the order they took their places: only
    the first can be past its turn, and the last is the tail. *)
Definition lane (n : lock_name) (l : list nat) (p : Page) : Prop :=
  NoDup l /\ (forall k, k ∈ l <-> in_lane n p k) /\
  match l with
  | [] => promise_settled p (mget (tails p) n) = true
  | k :: r =>
      (exists c, calls p !! k = Some c /\ promise_settled p (c_prev c) = true) /\
      linked p k r /\ mget (tails p) n = last l
  end.

Definition page_ok (p : Page) : Prop := forall n, exists l, lane n l p.

Lemma linked_lookup p k l j : linked p k l -> j ∈ l ->
  exists c i, calls p !! j = Some c /\ c_phase c = Queued /\ c_prev c = Some i /\ i ∈ k :: l.
Proof.
  revert k. induction l as [|x r IH]; intros k; [by intros _ ?%not_elem_of_nil |].
  intros [(c & Hc & Hq & Hp) Hl] [-> | Hj]%elem_of_cons.
  - exists c, k. split_and!; [done..| left].
  - destruct (IH x Hl Hj) as (c' & i & ? & ? & ? & Hi). exists c', i. split_and!; [done..|].
    by right.
Qed.

Lemma in_lane_unsettled n p j : in_lane n p j -> promise_settled p (Some j) = false.
Proof.
  intros (c & Hc & _ & Ha). cbn. rewrite Hc. apply bool_decide_eq_false.
  intros E. unfold unsettled in Ha. by rewrite E in Ha.
Qed.

(** The call at the head is the only one whose turn can have come. *)
Lemma lane_head n l p k c :
  lane n l p -> calls p !! k = Some c -> c_name c = n -> unsettled c = true ->
  c_phase c <> Queued \/ promise_settled p (c_prev c) = true ->
  exists r, l = k :: r.
Proof.
  intros (_ & Hin & Hl) Hc Hn Ha Hcase.
  assert (k ∈ l) as Hk by (apply Hin; by exists c).
  destruct l as [|h r]; [by apply not_elem_of_nil in Hk |].
  apply elem_of_cons in Hk as [-> | Hk]; [by exists r |]. exfalso.
  destruct Hl as (_ & Hlink & _).
  destruct (linked_lookup _ _ _ _ Hlink Hk) as (c' & i & Hc' & Hq & Hp & Hi).
  simplify_eq. destruct Hcase as [? | Hs]; [done |].
  rewrite Hp in Hs. apply Hin in Hi. apply in_lane_unsettled in Hi. congruence.
Qed.

Section Update.
Context (p : Page) (k : nat) (c c' : Call).
Hypothesis Hk : calls p !! k = Some c.
Hypothesis Hname : c_name c' = c_name c.
Hypothesis Hprev : c_prev c' = c_prev c.
Hypothesis Hsettled : c_phase c = Settled -> c_phase c' = Settled.

Lemma with_call_lookup j :
  calls (with_call k c' p) !! j = if decide (j = k) then Some c' else calls p !! j.
Proof.
  cbn. destruct (decide (j = k)) as [-> | Hne].
  - apply list_lookup_insert_eq. by eapply lookup_lt_Some.
  - by apply list_lookup_insert_ne.
Qed.

Lemma settled_kept o : promise_settled p o = true -> promise_settled (with_call k c' p) o = true.
Proof.
  destruct o as [j|]; [|done]. cbn [promise_settled]. rewrite with_call_lookup.
  destruct (decide (j = k)) as [-> |]; [|done]. rewrite Hk.
  intros H%bool_decide_eq_true. apply bool_decide_eq_true. auto.
Qed.

Lemma linked_kept l h : k ∉ l -> linked p h l -> linked (with_call k c' p) h l.
Proof.
  revert h. induction l as [|x r IH]; intros h Hni; [done |].
  intros [(d & Hd & Hq & Hp) Hl]. apply not_elem_of_cons in Hni as [Hx Hni]. split; [|by apply IH].
  exists d. rewrite with_call_lookup, decide_False by done. done.
Qed.

(** A call that stays in the lane, not losing its place: it is the head or
    still waits. *)
Lemma lane_stays n l :
  lane n l p -> (c_name c = n -> unsettled c' = unsettled c) ->
  (c_name c = n -> unsettled c = true -> c_phase c' = c_phase c \/ exists r, l = k :: r) ->
  lane n l (with_call k c' p).
Proof.
  intros (Hnd & Hin & Hl) Ha Hh.
  assert (forall j, in_lane n (with_call k c' p) j <-> in_lane n p j) as Hlane.
  { intros j. unfold in_lane. rewrite with_call_lookup. destruct (decide (j = k)) as [-> |]; [|done].
    rewrite Hk. split; intros (x & [= <-] & Hn & Hx).
    - exists c. rewrite Hname in Hn. split_and!; [done..|]. by rewrite <- Ha.
    - exists c'. rewrite Hname. split_and!; [done..|]. by rewrite Ha. }
  assert (forall h r, linked p h r -> (k ∈ r -> c_phase c' = c_phase c) ->
    linked (with_call k c' p) h r) as Hlink.
  { intros h r. revert h. induction r as [|x r IH]; intros h; [done |].
    intros [(d & Hd & Hq & Hp) Hr] Hx. split.
    - rewrite with_call_lookup. destruct (decide (x = k)) as [-> |]; [|by exists d].
      exists c'. rewrite Hk in Hd. injection Hd as <-. rewrite Hprev, Hx by left. done.
    - apply IH; [done |]. intros. apply Hx. by right. }
  split; [done |]. split; [intros j; rewrite Hin; symmetry; apply Hlane |].
  destruct l as [|h r]; [by apply settled_kept |].
  destruct Hl as ((d & Hd & Hs) & Hr & Ht). split; [|split; [|done]].
  - rewrite with_call_lookup. destruct (decide (h = k)) as [-> |].
    + exists c'. rewrite Hk in Hd. injection Hd as <-. rewrite Hprev. split; [done |]. by apply settled_kept.
    + exists d. split; [done |]. by apply settled_kept.
  - apply Hlink; [done |]. intros Hkr. apply NoDup_cons in Hnd as [Hh' _].
    assert (in_lane n p k) as (x & Hx & Hn & Hact) by (apply Hin; by right).
    rewrite Hk in Hx. injection Hx as <-.
    destruct (Hh Hn Hact) as [E | [r' [= -> _]]]; done.
Qed.

(** The head of the lane settles. *)
Lemma lane_settles n r :
  lane n (k :: r) p -> c_phase c' = Settled -> lane n r (with_call k c' p).
Proof.
  intros (Hnd & Hin & (d & Hd & Hs) & Hr & Ht) Hp. rewrite Hk in Hd. injection Hd as <-.
  apply NoDup_cons in Hnd as [Hni Hnd].
  assert (promise_settled (with_call k c' p) (Some k) = true) as Hks.
  { cbn [promise_settled]. rewrite with_call_lookup, decide_True by done. by apply bool_decide_eq_true. }
  split; [done |]. split.
  - intros j. unfold in_lane. rewrite with_call_lookup. destruct (decide (j = k)) as [-> | Hne].
    + split; [done |]. intros (x & [= <-] & _ & Ha). unfold unsettled in Ha. by rewrite Hp in Ha.
    + rewrite <- (Hin j), elem_of_cons. split; [by right | by intros [-> |]].
  - destruct r as [|h r].
    + cbn in Ht. change (tails (with_call k c' p)) with (tails p). by rewrite Ht.
    + destruct Hr as [(d & Hd & Hq & Hpd) Hr]. apply not_elem_of_cons in Hni as [Hne Hni].
      split; [|split; [by apply linked_kept | exact Ht]].
      exists d. rewrite with_call_lookup, decide_False by done. split; [done |]. by rewrite Hpd.
Qed.
End Update.

(** Nothing about the calls of the page changes. *)
Lemma settled_ext p q o : calls q = calls p -> promise_settled q o = promise_settled p o.
Proof. intros E. destruct o; cbn; [by rewrite E | done]. Qed.

Lemma linked_ext p q l h : calls q = calls p -> linked p h l -> linked q h l.
Proof. intros E. revert h. induction l as [|x r IH]; intros h; cbn; [done |]. rewrite E. intros [? ?]. auto. Qed.

Lemma lane_ext p q n l :
  calls q = calls p -> mget (tails q) n = mget (tails p) n -> lane n l p -> lane n l q.
Proof.
  intros Ec Et (Hnd & Hin & Hl). split; [done |]. split.
  - intros k. unfold in_lane. rewrite Ec. apply Hin.
  - destruct l as [|k r].
    + rewrite Et. by rewrite (settled_ext p).
    + destruct Hl as ((c & Hc & Hs) & Hr & Ht). rewrite Ec, Et.
      split; [exists c; by rewrite (settled_ext p) | split; [by apply (linked_ext p) | done]].
Qed.

(** A call that is not in the queue, like one just made, changes no lane. *)
Lemma lane_call n l m t p : lane n l p -> lane n l (withPersistLock m t p).
Proof.
  intros (Hnd & Hin & Hl). set (q := withPersistLock m t p).
  assert (exists x, calls q = calls p ++ [x] /\ unsettled x = false) as (x & Ec & Hx).
  { eexists. split; [reflexivity |]. by destruct (negb _); [|destruct (_ <=? _)]. }
  assert (forall j c, calls p !! j = Some c -> calls q !! j = Some c) as Hold.
  { intros j c H. rewrite Ec. by apply lookup_app_l_Some. }
  assert (forall o, promise_settled p o = true -> promise_settled q o = true) as Hset.
  { intros [j|]; [|done]. cbn [promise_settled]. destruct (calls p !! j) as [c|] eqn:E; [|done].
    by rewrite (Hold _ _ E). }
  assert (forall r h, linked p h r -> linked q h r) as Hlink.
  { induction r as [|y r IH]; intros h; [done |]. intros [(c & Hc & ?) ?]. split; [exists c; auto | auto]. }
  split; [done |]. split.
  - intros j. rewrite Hin. split; intros (c & Hc & Hn & Ha); exists c; (split; [|done]).
    + by apply Hold.
    + rewrite Ec in Hc. apply lookup_snoc_Some in Hc as [[_ ?] | [_ ->]]; congruence.
  - destruct l as [|k r].
    + by apply Hset.
    + destruct Hl as ((c & Hc & Hs) & Hr & Ht). split; [exists c; split; [by apply Hold | by apply Hset] |].
      split; [by apply Hlink | exact Ht].
Qed.

Lemma linked_snoc p h l k c j :
  linked p h l -> calls p !! k = Some c -> c_phase c = Queued -> c_prev c = Some j ->
  last (h :: l) = Some j -> linked p h (l ++ [k]).
Proof.
  revert h. induction l as [|x r IH]; intros h Hl Hc Hq Hp Hlast.
  - cbn in *. injection Hlast as ->. split; [by exists c | done].
  - destruct Hl as [Hx Hl]. split; [exact Hx |]. apply IH; [done..|]. by destruct r.
Qed.

(** Taking a place: the call goes behind the tail of its own lane. *)
Lemma lane_grows n l p k c :
  lane n l p -> calls p !! k = Some c -> c_phase c = Starting ->
  lane n (if decide (c_name c = n) then l ++ [k] else l) (withProcessLock k c p).
Proof.
  intros Hlane Hk Hst. set (c' := c <| c_prev := mget (tails p) (c_name c) |> <| c_phase := Queued |>).
  set (q := with_call k c' p).
  assert (calls (withProcessLock k c p) = calls q) as Ec by done.
  assert (forall m, in_lane m p k -> False) as Hnot.
  { intros m (x & Hx & _ & Ha). rewrite Hk in Hx. injection Hx as <-. unfold unsettled in Ha. by rewrite Hst in Ha. }
  destruct Hlane as (Hnd & Hin & Hl).
  assert (k ∉ l) as Hni by (intros H; apply Hin in H; by apply Hnot in H).
  assert (forall j, calls q !! j = if decide (j = k) then Some c' else calls p !! j) as Hlook
    by (intros; by eapply with_call_lookup).
  assert (forall o, promise_settled p o = true -> promise_settled q o = true) as Hset.
  { intros [j|]; [|done]. cbn [promise_settled]. rewrite Hlook. destruct (decide (j = k)) as [-> |]; [|done].
    rewrite Hk. intros H%bool_decide_eq_true. congruence. }
  assert (forall r h, k ∉ r -> linked p h r -> linked q h r) as Hlink.
  { induction r as [|y r IH]; intros h Hr; [done |]. apply not_elem_of_cons in Hr as [? ?].
    intros [(d & Hd & ?) ?]. split; [exists d; rewrite Hlook, decide_False by done; auto | auto]. }
  destruct (decide (c_name c = n)) as [E | Hne].
  - split; [|split].
    + apply NoDup_app. split_and!; [done | | apply NoDup_singleton].
      intros x Hx ->%list_elem_of_singleton. done.
    + intros j. unfold in_lane. rewrite Ec, Hlook, elem_of_app, list_elem_of_singleton, Hin.
      destruct (decide (j = k)) as [-> | Hj].
      * split; [intros _; by exists c' | by right].
      * split; [by intros [? | ?] | by left].
    + assert (mget (tails (withProcessLock k c p)) n = Some k) as Htail.
      { cbn. rewrite E. apply mget_mset_eq. }
      assert (calls q !! k = Some c') as Hk' by (by rewrite Hlook, decide_True).
      destruct l as [|h r]; cbn [app].
      * split; [exists c'; rewrite Ec; split; [exact Hk' |] | split; [done | by rewrite Htail]].
        apply Hset. cbn. by rewrite E.
      * destruct Hl as ((d & Hd & Hs) & Hr & Ht). apply not_elem_of_cons in Hni as [Hh Hni].
        split; [exists d; rewrite Ec, Hlook, decide_False by done; split; [done | by apply Hset] |].
        split; [|rewrite Htail, app_comm_cons; symmetry; apply last_snoc].
        apply (linked_ext q); [done |].
        assert (exists j, last (h :: r) = Some j) as [j Hj] by (apply last_is_Some; done).
        eapply linked_snoc; [by apply Hlink | exact Hk' | done | | exact Hj].
        cbn. rewrite E, Ht. exact Hj.
  - split; [done |]. split.
    + intros j. rewrite Hin. unfold in_lane. rewrite Ec, Hlook. destruct (decide (j = k)) as [-> |]; [|done].
      split; intros (x & Hx & Hn & Ha); [exfalso; by apply (Hnot n); exists x |].
      injection Hx as <-. done.
    + assert (mget (tails (withProcessLock k c p)) n = mget (tails p) n) as Htail
        by (cbn; by rewrite mget_mset_ne by done).
      rewrite Htail. destruct l as [|h r]; [by apply Hset |].
      destruct Hl as ((d & Hd & Hs) & Hr & Ht). apply not_elem_of_cons in Hni as [Hh Hni].
      split; [exists d; rewrite Ec, Hlook, decide_False by done; split; [done | by apply Hset] |].
      split; [|done]. apply (linked_ext q); [done | by apply Hlink].
Qed.

Lemma lane_tidy n l p k c :
  lane n l p -> calls p !! k = Some c -> c_phase c = Settled -> lane n l (tidy k c p).
Proof.
  intros Hlane Hk Hs. unfold tidy. case_bool_decide as E; [|done].
  destruct (decide (c_name c = n)) as [Hn | Hne].
  - destruct Hlane as (Hnd & Hin & Hl). destruct l as [|h r].
    + split; [done |]. split; [exact Hin |]. cbn. by rewrite Hn, mget_mdel_eq.
    + exfalso. destruct Hl as (_ & _ & Ht). rewrite Hn, Ht in E.
      assert (in_lane n p k) as Hk' by (apply Hin; apply last_Some_elem_of; exact E).
      apply in_lane_unsettled in Hk'. cbn in Hk'. rewrite Hk in Hk'.
      by rewrite bool_decide_eq_false in Hk'.
  - apply (lane_ext p); [done | cbn; by rewrite mget_mdel_ne by done | done].
Qed.

(** A call at the head of its lane settles, or moves on. *)
Lemma lane_settle n l p k c r :
  lane n l p -> calls p !! k = Some c -> unsettled c = true ->
  c_phase c <> Queued \/ promise_settled p (c_prev c) = true ->
  exists l', lane n l' (settle k c r p).
Proof.
  intros Hl Hk Ha Hh. destruct (decide (c_name c = n)) as [E | Hne].
  - destruct (lane_head n l p k c Hl Hk E Ha Hh) as [l' ->].
    exists l'. eapply lane_settles; done.
  - exists l. eapply lane_stays; try done; cbn; intros; done.
Qed.

Lemma lane_admitted n l p k c next :
  lane n l p -> calls p !! k = Some c -> unsettled c = true ->
  c_phase c <> Queued \/ promise_settled p (c_prev c) = true ->
  unsettled (c <| c_phase := next |>) = true ->
  exists l', lane n l' (checked_start k c next p).
Proof.
  intros Hl Hk Ha Hh Hn. unfold checked_start.
  destruct (negb _); [by apply (lane_settle n l) |].
  destruct (c_aborted c); [by apply (lane_settle n l) |].
  exists l. assert (c_phase c = Settled -> c_phase (c <| c_phase := next |>) = Settled) as Hs.
  { intros E. unfold unsettled in Ha. by rewrite E in Ha. }
  eapply lane_stays; [exact Hk | done | done | exact Hs | exact Hl | by rewrite Ha |].
  intros E _. right. eapply lane_head; eauto.
Qed.

Lemma page_event_ok e p q : page_ok p -> page_event e p = Some q -> page_ok q.
Proof.
  intros Hp He n. destruct (Hp n) as [l Hl].
  destruct e as [m t|k|k|k|k|k ok|k|k|k]; cbn [page_event] in He;
    [injection He as <-; exists l; by apply lane_call
    |destruct (calls p !! k) as [c|] eqn:Hk; [cbn [mbind option_bind] in He | done]..].
  - case_bool_decide as E; [|done]. injection He as <-. eexists. by apply lane_grows.
  - destruct (bool_decide _ && _) eqn:E; [|done]. injection He as <-. reflect_bools.
    apply (lane_admitted n l); [done..| | by right |].
    + unfold unsettled. by match goal with H : c_phase c = _ |- _ => rewrite H end.
    + by destruct (hasWebLocks p).
  - case_bool_decide as E; [|done]. injection He as <-.
    apply (lane_admitted n l); [done..| | | done].
    + unfold unsettled. by rewrite E.
    + left. by rewrite E.
  - case_bool_decide as E; [|done]. injection He as <-.
    apply (lane_settle n l); [done..| | left; by rewrite E]. unfold unsettled. by rewrite E.
  - destruct (working c) eqn:E; [|done]. injection He as <-. unfold working in E.
    apply (lane_settle n l); [done..| |]; [unfold unsettled | left]; by destruct (c_phase c).
  - destruct (c_timer c) eqn:E; [|done]. injection He as <-. exists l.
    eapply lane_stays; [exact Hk | done | done | done | exact Hl | done | by left].
  - destruct (c_catching c) eqn:E; [|done]. injection He as <-. exists l.
    apply (lane_ext (with_call k (c <| c_catching := false |>) p)); [done..|].
    eapply lane_stays; [exact Hk | done | done | done | exact Hl | done | by left].
  - case_bool_decide as E; [|done]. injection He as <-. exists l. by apply lane_tidy.
Qed.

(** Two calls of one name past their turn in one page are the same call. *)
Lemma one_past_turn p j k c d :
  page_ok p -> calls p !! j = Some c -> calls p !! k = Some d -> c_name c = c_name d ->
  unsettled c = true -> c_phase c <> Queued -> unsettled d = true -> c_phase d <> Queued -> j = k.
Proof.
  intros Hp Hj Hk E Hc Hcq Hd Hdq. destruct (Hp (c_name c)) as [l Hl].
  destruct (lane_head _ _ _ _ _ Hl Hj eq_refl Hc (or_introl Hcq)) as [r ->].
  destruct (lane_head _ _ _ _ _ Hl Hk (eq_sym E) Hd (or_introl Hdq)) as [r' [= -> _]]. done.
Qed.

(** ** Pages and the browser's locks *)

Definition system_ok (s : System) : Prop :=
  Forall page_ok (pages s) /\
  (forall i p k c, pages s !! i = Some p -> calls p !! k = Some c -> c_phase c = Working true ->
     mget (held s) (c_name c) = Some (i, k)) /\
  (forall i p k c, pages s !! i = Some p -> hasWebLocks p = true -> calls p !! k = Some c ->
     c_phase c <> Working false).

Lemma page_event_web e p q : page_event e p = Some q -> hasWebLocks q = hasWebLocks p.
Proof.
  destruct e; cbn [page_event]; try (destruct (calls p !! k) as [c|]; [cbn [mbind option_bind] | done]);
    try (destruct (bool_decide _); [|done]); try (destruct (working c); [|done]);
    try (destruct (c_timer c); [|done]); try (destruct (c_catching c); [|done]);
    try (destruct (promise_settled _ _); [cbn [andb] | done]); try (intros [= <-]); try done.
  - unfold take_turn, checked_start. by destruct (negb _), (c_aborted c).
  - unfold checked_start. by destruct (negb _), (c_aborted c).
  - unfold tidy. by destruct (bool_decide _).
Qed.

(** Work starts only at a granted Web Lock, or at a turn without Web Locks, and
    only in a healthy lane. *)
Definition starts_work (e : event) (p : Page) (j : nat) (b : bool) : Prop :=
  (e = EGrant j /\ b = true) \/ (e = ETurn j /\ b = false /\ hasWebLocks p = false).

Lemma with_call_inv p k c x j d :
  calls p !! k = Some c -> calls (with_call k x p) !! j = Some d ->
  (j = k /\ d = x) \/ (j <> k /\ calls p !! j = Some d).
Proof.
  intros Hk. rewrite (with_call_lookup p k c x Hk). destruct (decide (j = k)) as [-> |]; [|by right].
  intros [= <-]. by left.
Qed.

Lemma settle_working p k c r j d b :
  calls p !! k = Some c -> calls (settle k c r p) !! j = Some d -> c_phase d = Working b ->
  j <> k /\ calls p !! j = Some d.
Proof. intros Hk H Hw. destruct (with_call_inv _ _ _ _ _ _ Hk H) as [[_ ->] | ?]; done. Qed.

Lemma admitted_working p k c next j d b :
  calls p !! k = Some c -> calls (checked_start k c next p) !! j = Some d -> c_phase d = Working b ->
  (j <> k /\ calls p !! j = Some d) \/
  (j = k /\ next = Working b /\ healthy (c_name c) p = true /\ c_name d = c_name c).
Proof.
  intros Hk. unfold checked_start. destruct (negb (healthy (c_name c) p)) eqn:Eh; [|destruct (c_aborted c)].
  - intros H Hw. left. by eapply settle_working.
  - intros H Hw. left. by eapply settle_working.
  - intros H Hw. destruct (with_call_inv _ _ _ _ _ _ Hk H) as [[-> ->] | ?]; [right | by left].
    apply negb_false_iff in Eh. done.
Qed.

(** Where a running work comes from: it was running, or the event starts it. *)
Lemma page_event_working e p q j d b :
  page_event e p = Some q -> calls q !! j = Some d -> c_phase d = Working b ->
  (exists c, calls p !! j = Some c /\ c_phase c = Working b /\ c_name c = c_name d /\
     (forall ok, e <> EWorkEnds j ok)) \/
  (starts_work e p j b /\ exists c, calls p !! j = Some c /\ c_name c = c_name d /\ healthy (c_name c) p = true).
Proof.
  intros He Hj Hw.
  assert (forall c, calls p !! j = Some c -> c = d -> (forall ok, e <> EWorkEnds j ok) ->
    exists c, calls p !! j = Some c /\ c_phase c = Working b /\ c_name c = c_name d /\
     (forall ok, e <> EWorkEnds j ok)) as Hsame by (intros c Hc -> Hne; by exists d).
  destruct e as [m t|k|k|k|k|k ok|k|k|k]; cbn [page_event] in He;
    [|destruct (calls p !! k) as [c|] eqn:Hk; [cbn [mbind option_bind] in He | done]..].
  - injection He as <-. cbn in Hj. apply lookup_snoc_Some in Hj as [[_ Hj] | [_ <-]]; [left; by eapply Hsame|].
    exfalso. revert Hw. by destruct (negb _); [|destruct (_ <=? _)].
  - case_bool_decide; [|done]. injection He as <-.
    destruct (with_call_inv p k c _ j d Hk Hj) as [[_ ->] | [_ H']]; [done | left; by eapply Hsame].
  - destruct (bool_decide _ && _); [|done]. injection He as <-.
    destruct (admitted_working _ _ _ _ _ _ _ Hk Hj Hw) as [[_ H] | (-> & Hn & Hh & En)]; [left; by eapply Hsame |].
    right. split; [right | by exists c]. destruct (hasWebLocks p); [done |]. by injection Hn as <-.
  - case_bool_decide; [|done]. injection He as <-.
    destruct (admitted_working _ _ _ _ _ _ _ Hk Hj Hw) as [[_ H'] | (-> & Hn & Hh & En)]; [left; by eapply Hsame |].
    right. split; [left | by exists c]. by injection Hn as <-.
  - case_bool_decide; [|done]. injection He as <-.
    destruct (settle_working _ _ _ _ _ _ _ Hk Hj Hw) as [_ H']. left. by eapply Hsame.
  - destruct (working c); [|done]. injection He as <-.
    destruct (settle_working _ _ _ _ _ _ _ Hk Hj Hw) as [Hne H']. left. eapply Hsame; [done..|].
    intros ok' [= E _]. congruence.
  - destruct (c_timer c); [|done]. injection He as <-.
    destruct (with_call_inv p k c _ j d Hk Hj) as [[-> ->] | [_ H']]; left; [by exists c | by eapply Hsame].
  - destruct (c_catching c); [|done]. injection He as <-.
    destruct (with_call_inv p k c _ j d Hk Hj) as [[-> ->] | [_ H']]; left; [by exists c | by eapply Hsame].
  - case_bool_decide; [|done]. injection He as <-. left. eapply Hsame; [|done..].
    unfold tidy in Hj. by destruct (bool_decide _).
Qed.

(** A step keeps the pages' queues in order and the browser's locks accurate. *)
Lemma step_keeps_ok i e s s' : system_ok s -> step i e s = Some s' -> system_ok s'.
Proof.
  intros (Hpages & Hheld & Hweb). unfold step.
  destruct (pages s !! i) as [p|] eqn:Hi; [cbn [mbind option_bind] | done].
  destruct (page_event e p) as [q|] eqn:He; [cbn [mbind option_bind] | done].
  destruct (lock_event i e p q (held s)) as [h|] eqn:Hh; [cbn [mbind option_bind] | done].
  intros [= <-]. split; [|split].
  - cbn. apply Forall_insert; [done |]. eapply page_event_ok; [|done].
    rewrite Forall_forall in Hpages. apply Hpages. by eapply list_elem_of_lookup_2.
  - cbn [pages held]. intros i' p' j d Hp' Hj Hw.
    assert (i' = i /\ p' = q \/ i' <> i /\ pages s !! i' = Some p') as [[-> ->] | [Hne Hp'']].
    { apply list_lookup_insert_Some in Hp' as [(<- & <- & _) | [? ?]]; [by left | right; by split]. }
    + destruct (page_event_working e p q j d true He Hj Hw)
        as [(c & Hc & Hcw & En & Hne) | ([[-> _] | (_ & [=] & _)] & c & Hc & En & _)].
      * pose proof (Hheld i p j c Hi Hc Hcw) as Hold. rewrite <- En.
        destruct e as [| | |k| |k ok| | |]; cbn [lock_event] in Hh; try (by injection Hh as <-).
        -- destruct (calls p !! k) as [x|] eqn:Hx; [|done]. destruct (calls q !! k) as [y|]; [|done].
           destruct (mhas (held s) (c_name x)) eqn:Em; [done |]. injection Hh as <-.
           destruct (working y); [|done]. rewrite mget_mset_ne; [done |].
           intros E. unfold mhas in Em. rewrite E, Hold in Em. done.
        -- destruct (calls p !! k) as [x|] eqn:Hx; [|done]. injection Hh as <-.
           case_bool_decide as Eb; [|done]. rewrite mget_mdel_ne; [done |].
           intros E. rewrite E, Hold in Eb. injection Eb as ->. by destruct (Hne ok).
      * cbn [lock_event] in Hh. rewrite Hc, Hj in Hh. destruct (mhas _ _); [done |].
        injection Hh as <-. assert (working d = true) as -> by (unfold working; by rewrite Hw).
        rewrite <- En. apply mget_mset_eq.
    + pose proof (Hheld i' p' j d Hp'' Hj Hw) as Hold.
      destruct e as [| | |k| |k ok| | |]; cbn [lock_event] in Hh; try (by injection Hh as <-).
      * destruct (calls p !! k) as [x|] eqn:Hx; [|done]. destruct (calls q !! k) as [y|]; [|done].
        destruct (mhas (held s) (c_name x)) eqn:Em; [done |]. injection Hh as <-.
        destruct (working y); [|done]. rewrite mget_mset_ne; [done |].
        intros E. unfold mhas in Em. rewrite E, Hold in Em. done.
      * destruct (calls p !! k) as [x|] eqn:Hx; [|done]. injection Hh as <-.
        case_bool_decide as Eb; [|done]. rewrite mget_mdel_ne; [done |].
        intros E. rewrite E, Hold in Eb. by injection Eb as ->.
  - cbn [pages]. intros i' p' j d Hp' Hlk Hj Hw.
    apply list_lookup_insert_Some in Hp' as [(<- & <- & _) | [? ?]]; [|by eapply Hweb].
    rewrite (page_event_web _ _ _ He) in Hlk.
    destruct (page_event_working e p q j d false He Hj Hw)
      as [(c & Hc & Hcw & _) | ([[_ [=]] | (_ & _ & Hno)] & _)]; [|congruence].
    by eapply (Hweb i p).
Qed.

Lemma run_keeps_ok es s s' : system_ok s -> run es s = Some s' -> system_ok s'.
Proof.
  revert s. induction es as [|[i e] es IH]; intros s Hs; cbn [run]; [by intros [= <-] |].
  destruct (step i e s) as [t|] eqn:E; [|done]. cbn [mbind option_bind]. apply IH.
  by eapply step_keeps_ok.
Qed.

Lemma boot_ok webs : system_ok (boot webs).
Proof.
  assert (forall i p, pages (boot webs) !! i = Some p -> calls p = []) as Hc.
  { intros i p Hp. cbn in Hp. apply list_lookup_fmap_Some in Hp as (b & -> & _). done. }
  split; [|split].
  - cbn. apply Forall_map, Forall_forall. intros b _ n. exists []. split; [constructor |]. split; [|done].
    intros k. split; [by intros ?%not_elem_of_nil | by intros (c & Hk & _)].
  - intros i p k c Hp Hk. rewrite (Hc i p Hp) in Hk. done.
  - intros i p k c Hp _ Hk. rewrite (Hc i p Hp) in Hk. done.
Qed.

Lemma phase_working c b : c_phase c = Working b -> unsettled c = true /\ c_phase c <> Queued.
Proof. intros E. unfold unsettled. by rewrite E. Qed.

(** C22. The work done under one lock name never overlaps. In every state that
    any number of pages, their timers and the browser's locks can reach, two
    running works of one name are the same work, when they are in one page or
    when both pages have Web Locks - also when a caller has long been told that
    its time was up, because a lane waits for the work and not for its caller. *)
Theorem persist_lock_excludes webs es s i i' p p' k k' c c' b b' :
  run es (boot webs) = Some s ->
  pages s !! i = Some p -> pages s !! i' = Some p' ->
  i = i' \/ hasWebLocks p = true /\ hasWebLocks p' = true ->
  calls p !! k = Some c -> calls p' !! k' = Some c' -> c_name c = c_name c' ->
  c_phase c = Working b -> c_phase c' = Working b' ->
  (i, k) = (i', k').
Proof.
  intros Hr Hi Hi' Hcase Hk Hk' En Hw Hw'.
  destruct (run_keeps_ok _ _ _ (boot_ok webs) Hr) as (Hpages & Hheld & Hweb).
  destruct Hcase as [<- | [Hl Hl']].
  - rewrite Hi in Hi'. injection Hi' as <-. rewrite Forall_forall in Hpages.
    destruct (phase_working _ _ Hw), (phase_working _ _ Hw').
    f_equal. eapply (one_past_turn p); eauto. apply Hpages. by eapply list_elem_of_lookup_2.
  - destruct b; [|by destruct (Hweb i p k c Hi Hl Hk)]. destruct b'; [|by destruct (Hweb i' p' k' c' Hi' Hl' Hk')].
    pose proof (Hheld _ _ _ _ Hi Hk Hw) as E. pose proof (Hheld _ _ _ _ Hi' Hk' Hw') as E'.
    rewrite En, E' in E. by injection E as -> ->.
Qed.

(** ** Deadlines, poison and progress *)

(** A caller without an answer has its deadline armed, and only such a one. *)
Definition answered_or_armed (c : Call) : Prop :=
  match c_outcome c with
  | None => c_timer c = true /\ c_phase c <> Refused /\ c_phase c <> Settled
  | Some _ => c_timer c = false
  end.

Definition page_armed (p : Page) : Prop := Forall answered_or_armed (calls p).

Lemma with_call_armed k c p : page_armed p -> answered_or_armed c -> page_armed (with_call k c p).
Proof. intros. by apply Forall_insert. Qed.

Lemma settle_armed k c r p : page_armed p -> page_armed (settle k c r p).
Proof. intros. by apply with_call_armed. Qed.

Lemma armed_call p k c : page_armed p -> calls p !! k = Some c -> answered_or_armed c.
Proof. intros Hp Hk. unfold page_armed in Hp. rewrite Forall_forall in Hp. apply Hp. by eapply list_elem_of_lookup_2. Qed.

Lemma moved_armed c ph :
  answered_or_armed c -> ph <> Refused -> ph <> Settled -> answered_or_armed (c <| c_phase := ph |>).
Proof. unfold answered_or_armed. cbn. destruct (c_outcome c); [done | by intros (? & ? & ?)]. Qed.

Lemma admitted_armed k c next p :
  page_armed p -> calls p !! k = Some c -> next <> Refused -> next <> Settled ->
  page_armed (checked_start k c next p).
Proof.
  intros Hp Hk ? ?. unfold checked_start. destruct (negb _); [by apply settle_armed |].
  destruct (c_aborted c); [by apply settle_armed |]. apply with_call_armed; [done |].
  apply moved_armed; [by eapply armed_call | done..].
Qed.

Lemma page_event_armed e p q : page_armed p -> page_event e p = Some q -> page_armed q.
Proof.
  intros Hp He. destruct e as [m t|k|k|k|k|k ok|k|k|k]; cbn [page_event] in He;
    [|destruct (calls p !! k) as [c|] eqn:Hk; [cbn [mbind option_bind] in He | done]..].
  - injection He as <-. apply Forall_app. split; [done |]. repeat constructor.
    by destruct (negb _); [|destruct (_ <=? _)].
  - case_bool_decide; [|done]. injection He as <-. apply with_call_armed; [done |].
    pose proof (armed_call _ _ _ Hp Hk) as Hc. unfold answered_or_armed in *. cbn.
    destruct (c_outcome c); [done | by destruct Hc as (? & ? & ?)].
  - destruct (bool_decide _ && _); [|done]. injection He as <-.
    apply admitted_armed; [done..| |]; by destruct (hasWebLocks p).
  - case_bool_decide; [|done]. injection He as <-. by apply admitted_armed.
  - case_bool_decide; [|done]. injection He as <-. by apply settle_armed.
  - destruct (working c); [|done]. injection He as <-. by apply settle_armed.
  - destruct (c_timer c); [|done]. injection He as <-. by apply with_call_armed.
  - destruct (c_catching c); [|done]. injection He as <-. apply (with_call_armed k); [done |].
    exact (armed_call _ _ _ Hp Hk).
  - case_bool_decide; [|done]. injection He as <-. unfold tidy. by destruct (bool_decide _).
Qed.

Lemma step_page i e s s' : step i e s = Some s' ->
  exists p q, pages s !! i = Some p /\ page_event e p = Some q /\ pages s' = <[i := q]> (pages s).
Proof.
  unfold step. destruct (pages s !! i) as [p|]; [cbn [mbind option_bind] | done].
  destruct (page_event e p) as [q|] eqn:He; [cbn [mbind option_bind] | done].
  destruct (lock_event i e p q (held s)) as [h|]; [cbn [mbind option_bind] | done].
  intros [= <-]. by exists p, q.
Qed.

(** What every page of a system keeps under its own events. *)
Lemma run_pages (P : Page -> Prop) es s s' :
  (forall e p q, P p -> page_event e p = Some q -> P q) ->
  Forall P (pages s) -> run es s = Some s' -> Forall P (pages s').
Proof.
  intros HP. revert s. induction es as [|[i e] es IH]; intros s Hs; cbn [run]; [by intros [= <-] |].
  destruct (step i e s) as [t|] eqn:E; [|done]. cbn [mbind option_bind]. apply IH.
  destruct (step_page _ _ _ _ E) as (p & q & Hi & He & ->). apply Forall_insert; [done |].
  eapply HP; [|done]. rewrite Forall_forall in Hs. apply Hs. by eapply list_elem_of_lookup_2.
Qed.

(** Settles the work of a call, or at least brings it nearer: what the queue,
    the browser or the work itself does next. *)
Definition moves (k : nat) (e : event) : Prop :=
  e = ETurn k \/ e = ELockFails k \/ e = EWorkEnds k true.

(** No caller waits for ever and no lane blocks itself: in every reachable
    state a caller has its answer, or its deadline is armed and answers it with
    the timeout when it fires; and the unsettled calls of a lane have a first
    one that is the next to move, everything before it in the lane having
    settled. *)
Theorem every_save_is_answered webs es s i p :
  run es (boot webs) = Some s -> pages s !! i = Some p ->
  (forall k c, calls p !! k = Some c ->
     (exists o, c_outcome c = Some o) \/
     exists s' p' c', step i (EDeadline k) s = Some s' /\ pages s' !! i = Some p' /\
       calls p' !! k = Some c' /\ c_outcome c' = Some (Rejected PersistLockTimeoutError)) /\
  (forall n, (exists k, in_lane n p k) ->
     exists k c e, calls p !! k = Some c /\ c_name c = n /\ promise_settled p (c_prev c) = true /\
       moves k e /\ is_Some (page_event e p)).
Proof.
  intros Hr Hi.
  destruct (run_keeps_ok _ _ _ (boot_ok webs) Hr) as (Hpages & _ & _).
  assert (page_ok p) as Hok by (rewrite Forall_forall in Hpages; apply Hpages; by eapply list_elem_of_lookup_2).
  assert (page_armed p) as Harm.
  { pose proof (run_pages page_armed es (boot webs) s page_event_armed) as H.
    assert (Forall page_armed (pages s)) as Hall
      by (apply H; [apply Forall_map, Forall_forall; intros; constructor | done]).
    rewrite Forall_forall in Hall. apply Hall. by eapply list_elem_of_lookup_2. }
  split.
  - intros k c Hk. destruct (c_outcome c) as [o|] eqn:Eo; [left; by exists o | right].
    pose proof (armed_call _ _ _ Harm Hk) as Hc. unfold answered_or_armed in Hc. rewrite Eo in Hc.
    destruct Hc as [Ht _].
    exists {| pages := <[i := deadline k c p]> (pages s); held := held s |}, (deadline k c p). eexists. split; [|split; [|split]].
    + unfold step. rewrite Hi. cbn [mbind option_bind page_event]. rewrite Hk. cbn [mbind option_bind].
      rewrite Ht. reflexivity.
    + apply list_lookup_insert_eq. by eapply lookup_lt_Some.
    + apply list_lookup_insert_eq. by eapply lookup_lt_Some.
    + done.
  - intros n [k Hk]. destruct (Hok n) as [l (_ & Hin & Hl)]. apply Hin in Hk.
    destruct l as [|h r]; [by apply not_elem_of_nil in Hk |].
    destruct Hl as ((c & Hc & Hs) & _). assert (in_lane n p h) as (x & Hx & Hn & Ha) by (apply Hin; left).
    rewrite Hc in Hx. injection Hx as <-. exists h, c. unfold unsettled in Ha.
    destruct (c_phase c) eqn:Eph; try done.
    + exists (ETurn h). split_and!; [done..| by left |]. cbn [page_event]. rewrite Hc. cbn [mbind option_bind].
      rewrite Eph, Hs. eexists. reflexivity.
    + exists (ELockFails h). split_and!; [done..| by right; left |]. cbn [page_event]. rewrite Hc. cbn [mbind option_bind].
      rewrite Eph. eexists. reflexivity.
    + exists (EWorkEnds h true). split_and!; [done..| by right; right |]. cbn [page_event]. rewrite Hc. cbn [mbind option_bind].
      unfold working. rewrite Eph. eexists. reflexivity.
Qed.

(** Where the work of a name can still start. *)
Definition working_on (n : lock_name) (p : Page) (k : nat) : Prop :=
  exists c b, calls p !! k = Some c /\ c_name c = n /\ c_phase c = Working b.

Lemma poison_stays e p q n : n ∈ poisoned p -> page_event e p = Some q -> n ∈ poisoned q.
Proof.
  intros Hn He. assert (forall k c ph, n ∈ poisoned (checked_start k c ph p)) as Ha.
  { intros. unfold checked_start. by destruct (negb _), (c_aborted c). }
  destruct e; cbn [page_event] in He;
    [|destruct (calls p !! k) as [c|] eqn:Hk; [cbn [mbind option_bind] in He | done]..];
    repeat match type of He with (if ?b then _ else _) = _ => destruct b; [|done] end;
    injection He as <-; first [done | apply Ha | idtac].
  - by right.
  - unfold tidy. by destruct (bool_decide _).
Qed.

(** A lane whose deadline has passed is dead until the page reloads: once
    the timeout is recorded no event ever starts work under that name in the
    page again. Only work already running is left, and a new call is refused
    at once. *)
Theorem timed_out_lane_is_dead es s s' i p p' n k :
  pages s !! i = Some p -> n ∈ poisoned p ->
  run es s = Some s' -> pages s' !! i = Some p' -> working_on n p' k ->
  working_on n p k /\
  forall t, last (calls (withPersistLock n t p')) =
            Some (new_call n Refused false (Some (Rejected PersistLockPoisonedError)) false).
Proof.
  intros Hi Hn Hr Hi' Hw. assert (n ∈ poisoned p' /\ working_on n p k) as [Hn' Hk].
  - revert s p Hi Hn Hr. induction es as [|[j e] es IH]; intros s p Hi Hn; cbn [run].
    { intros [= ->]. rewrite Hi in Hi'. injection Hi' as ->. done. }
    destruct (step j e s) as [t|] eqn:E; [|done]. cbn [mbind option_bind]. intros Hr.
    destruct (step_page _ _ _ _ E) as (q & q' & Hj & He & Ep).
    destruct (decide (j = i)) as [-> | Hne].
    + rewrite Hi in Hj. injection Hj as <-.
      destruct (IH t q') as [? (c & b & Hc & En & Hb)]; [rewrite Ep; apply list_lookup_insert_eq; by eapply lookup_lt_Some
        | by eapply poison_stays | done |]. split; [done |].
      destruct (page_event_working e p q' k c b He Hc Hb) as [(d & Hd & Hdw & End & _) | (_ & d & Hd & End & Hh)].
      * exists d, b. split_and!; [done | congruence | done].
      * exfalso. unfold healthy in Hh. apply negb_true_iff, bool_decide_eq_false in Hh. apply Hh.
        by rewrite End, En.
    + apply (IH t p); [by rewrite Ep, list_lookup_insert_ne | done..].
  - split; [done |]. intros t. unfold withPersistLock. cbn [calls]. rewrite last_snoc.
    assert (healthy n p' = false) as -> by (unfold healthy; by rewrite bool_decide_eq_true_2).
    done.
Qed.

(** ** Concrete runs *)

(** Two tabs save the same document. The first tab's write hangs past its
    deadline: its caller is told, the lane of that tab is poisoned, and the
    second tab still waits, because the browser's lock is held by the work. *)
Definition doc : lock_name := persistLockName (lit "esbt") (lit "d1").

Definition hung_write : list (nat * event) :=
  [(0%nat, ECall doc None); (0%nat, EOperation 0); (0%nat, ETurn 0); (0%nat, EGrant 0);
   (0%nat, ECall doc None); (0%nat, EOperation 1);
   (1%nat, ECall doc None); (1%nat, EOperation 0); (1%nat, ETurn 0);
   (0%nat, EDeadline 0); (0%nat, ECatch 0)].

Definition outcomes (s : System) : list (list (phase * option outcome)) :=
  map (fun p => map (fun c => (c_phase c, c_outcome c)) (calls p)) (pages s).

Example hung_write_holds :
  outcomes <$> run hung_write (boot [true; true]) =
    Some [[(Working true, Some (Rejected PersistLockTimeoutError)); (Queued, None)]; [(Requesting, None)]] /\
  run (hung_write ++ [(1%nat, EGrant 0)]) (boot [true; true]) = None.
Proof. vm_compute. done. Qed.

(** The write ends after all: the call behind it is refused, and the second tab
    gets the lock. *)
Example late_write_frees_the_lock :
  outcomes <$> run (hung_write ++ [(0%nat, EWorkEnds 0 true); (0%nat, ETurn 1); (1%nat, EGrant 0)]) (boot [true; true]) =
    Some [[(Settled, Some (Rejected PersistLockTimeoutError)); (Settled, Some (Rejected PersistLockPoisonedError))];
          [(Working true, None)]].
Proof. vm_compute. done. Qed.

Definition hung_system : System :=
  Eval vm_compute in default (boot []) (run hung_write (boot [true; true])).
Definition hung_tab : Page :=
  Eval vm_compute in default (fresh_page true) (head (pages hung_system)).
Definition hung_call : Call :=
  Eval vm_compute in default (new_call doc Refused false None false) (head (calls hung_tab)).

Lemma hung_run : run hung_write (boot [true; true]) = Some hung_system.
Proof. vm_compute. reflexivity. Qed.

Lemma persist_lock_excludes_witness :
  run hung_write (boot [true; true]) = Some hung_system /\ pages hung_system !! 0%nat = Some hung_tab /\
  calls hung_tab !! 0%nat = Some hung_call /\ (0%nat, 0%nat) = (0%nat, 0%nat).
Proof.
  split; [exact hung_run |]. split; [reflexivity |]. split; [reflexivity |].
  exact (persist_lock_excludes [true; true] hung_write hung_system 0 0 hung_tab hung_tab 0 0 hung_call hung_call
           true true hung_run eq_refl eq_refl (or_introl eq_refl) eq_refl eq_refl eq_refl eq_refl eq_refl).
Defined.

Lemma every_save_is_answered_witness :
  exists k c e, calls hung_tab !! k = Some c /\ c_name c = doc /\ promise_settled hung_tab (c_prev c) = true /\
    moves k e /\ is_Some (page_event e hung_tab).
Proof.
  apply (proj2 (every_save_is_answered [true; true] hung_write hung_system 0 hung_tab hung_run eq_refl) doc).
  exists 0%nat, hung_call. split; [reflexivity |]. split; reflexivity.
Defined.

Definition after_hung : list (nat * event) := [(0%nat, EDeadline 1); (0%nat, ECall doc None)].
Definition later_system : System :=
  Eval vm_compute in default (boot []) (run after_hung hung_system).
Definition later_tab : Page :=
  Eval vm_compute in default (fresh_page true) (head (pages later_system)).

Lemma timed_out_lane_is_dead_witness :
  doc ∈ poisoned hung_tab /\ run after_hung hung_system = Some later_system /\
  working_on doc later_tab 0 /\ working_on doc hung_tab 0.
Proof.
  assert (doc ∈ poisoned hung_tab) as Hp by left.
  assert (run after_hung hung_system = Some later_system) as Hr by (vm_compute; reflexivity).
  assert (working_on doc later_tab 0) as Hw by (exists hung_call, true; split; [reflexivity | by split]).
  split; [exact Hp |]. split; [exact Hr |]. split; [exact Hw |].
  exact (proj1 (timed_out_lane_is_dead after_hung hung_system later_system 0 hung_tab later_tab doc 0
                  eq_refl Hp Hr eq_refl Hw)).
Defined.
