(* ===== verification/Journal.v ===== *)
(** The IndexedDB journal of a replica ([client/src/collab/journal.ts]): the
    record and its validation, the v1 migration, and the locked updates that
    append, checkpoint and acknowledge edits. *)

From S2P Require Import Prelude Bytes TextChange JsValue Protocol.

(** ** Records *)

Inductive Role := RLocal | RScratch | ROwner | REditor | RCommenter | RViewer.

#[global] Instance Role_eq_dec : EqDecision Role.
Proof. solve_decision. Defined.

Record JournalMutation := {
  jm_id : jstring; jm_kind : MutationKind; jm_bytes : bytes; jm_createdAt : jsnum }.

Record ReplicaJournalRecord := {
  siteId : jstring;
  role : option Role;
  snapshot : bytes;
  pending : list JournalMutation;
  ackedVersion : option bytes;
  committedRevision : option jstring;
  lastPruneAt : jsnum }.

Definition JOURNAL_RETAINED_THRESHOLD := 32768.
Definition JOURNAL_PRUNE_INTERVAL_MS := 600000.

Definition journalCacheKey (docId : jstring) : jstring := lit "marks:esbt:journal:" ++ docId.

(** ** Object forms: what is handed to IndexedDB's structured clone *)

Definition kind_value (k : MutationKind) : jsval :=
  VStr match k with Update => lit "update" | Snapshot => lit "snapshot" end.

Definition role_value (r : option Role) : jsval :=
  match r with
  | None => VNull
  | Some RLocal => VStr (lit "local")
  | Some RScratch => VStr (lit "scratch")
  | Some ROwner => VStr (lit "owner")
  | Some REditor => VStr (lit "editor")
  | Some RCommenter => VStr (lit "commenter")
  | Some RViewer => VStr (lit "viewer")
  end.

Definition mutation_value (m : JournalMutation) : jsval :=
  VObj [(lit "id", VStr (jm_id m)); (lit "kind", kind_value (jm_kind m));
        (lit "bytes", VBytes (jm_bytes m)); (lit "createdAt", VNum (jm_createdAt m))].

Definition record_value (r : ReplicaJournalRecord) : jsval :=
  VObj [(lit "version", VNum (NInt 3)); (lit "siteId", VStr (siteId r));
        (lit "role", role_value (role r)); (lit "snapshot", VBytes (snapshot r));
        (lit "pending", VArr (map mutation_value (pending r)));
        (lit "ackedVersion", match ackedVersion r with Some b => VBytes b | None => VNull end);
        (lit "committedRevision", match committedRevision r with Some s => VStr s | None => VNull end);
        (lit "lastPruneAt", VNum (lastPruneAt r))].

(** ** Validation *)

Definition persistedRole (v : jsval) : option Role :=
  if is_lit v "local" then Some RLocal
  else if is_lit v "scratch" then Some RScratch
  else if is_lit v "owner" then Some ROwner
  else if is_lit v "editor" then Some REditor
  else if is_lit v "commenter" then Some RCommenter
  else if is_lit v "viewer" then Some RViewer
  else None.

(** [item.kind !== 'update' && item.kind !== 'snapshot'] *)
Definition persistedKind (v : jsval) : option MutationKind :=
  if is_lit v "update" then Some Update
  else if is_lit v "snapshot" then Some Snapshot else None.

(** [/^[0-9a-f]{32}$/] *)
Definition journal_id_ok (id : jstring) : bool := (len id =? 32) && forallb is_hex id.

Definition number_or_zero (v : jsval) : jsnum :=
  match v with VNum n => n | _ => NInt 0 end.

(** The callback of [flatMap]: a valid item, or nothing. Truthy non-objects
    have no such properties. *)
Definition normalizeMutation (item : jsval) : option JournalMutation :=
  match as_str (field item "id"), persistedKind (field item "kind"),
        as_bytes (field item "bytes") with
  | Some id, Some kind, Some bs =>
      if journal_id_ok id
      then Some {| jm_id := id; jm_kind := kind; jm_bytes := bs;
                   jm_createdAt := number_or_zero (field item "createdAt") |}
      else None
  | _, _, _ => None
  end.

Definition array_items (v : jsval) : list jsval :=
  match v with VArr l => l | _ => [] end.

(** ** Legacy identifiers *)

Definition wrap64 (z : Z) : Z := z mod 2 ^ 64.

Definition FNV_PRIME := 1099511628211.

Fixpoint legacy_hash (first second : Z) (bs : bytes) : Z * Z :=
  match bs with
  | [] => (first, second)
  | b :: r =>
      legacy_hash (wrap64 (Z.lxor first b * FNV_PRIME))
                  (wrap64 (Z.lxor second (b + 1) * FNV_PRIME)) r
  end.

Definition legacyMutationId (bs : bytes) (index : Z) : jstring :=
  let '(first, second) := legacy_hash (Z.lxor 14695981039346656037 index)
                                      (Z.lxor 9521211207457086692 (len bs)) bs in
  let first := if (first =? 0) && (second =? 0) then 1 else first in
  hex_padded 16 first ++ hex_padded 16 second.

Definition normalizeRecord (record : jsval) : option ReplicaJournalRecord :=
  if negb (is_object record) then None
  else match as_str (field record "siteId"), as_bytes (field record "snapshot") with
  | Some site, Some snap =>
      let acked := as_bytes (field record "ackedVersion") in
      let prune := number_or_zero (field record "lastPruneAt") in
      let version := field record "version" in
      if is_int version 3 || is_int version 2 then
        Some {| siteId := site;
                role := if is_int version 3 then persistedRole (field record "role") else None;
                snapshot := snap;
                pending := omap normalizeMutation (array_items (field record "pending"));
                ackedVersion := acked;
                committedRevision := as_str (field record "committedRevision");
                lastPruneAt := prune |}
      else if is_int version 1 then
        Some {| siteId := site; role := None; snapshot := snap;
                pending := imap (fun i bs => {| jm_id := legacyMutationId bs (Z.of_nat i);
                                                jm_kind := Update; jm_bytes := bs;
                                                jm_createdAt := NInt 0 |})
                             (omap as_bytes (array_items (field record "updates")));
                ackedVersion := acked; committedRevision := None; lastPruneAt := prune |}
      else None
  | _, _ => None
  end.

(** ** Updates *)

Definition with_pending (r : ReplicaJournalRecord) ps : ReplicaJournalRecord :=
  {| siteId := siteId r; role := role r; snapshot := snapshot r; pending := ps;
     ackedVersion := ackedVersion r; committedRevision := committedRevision r;
     lastPruneAt := lastPruneAt r |}.

Definition with_snapshot (r : ReplicaJournalRecord) s : ReplicaJournalRecord :=
  {| siteId := siteId r; role := role r; snapshot := s; pending := pending r;
     ackedVersion := ackedVersion r; committedRevision := committedRevision r;
     lastPruneAt := lastPruneAt r |}.

(** [record.pending.find((item) => item.id === id)] *)
Definition find_mutation (id : jstring) (ps : list JournalMutation) : option JournalMutation :=
  List.find (fun m => str_eqb (jm_id m) id) ps.

Definition appendMutation (record : ReplicaJournalRecord) (mutation : JournalMutation)
    : res ReplicaJournalRecord :=
  if len (jm_bytes mutation) =? 0 then Ok record
  else match find_mutation (jm_id mutation) (pending record) with
       | Some existing =>
           if negb (bool_decide (jm_kind existing = jm_kind mutation))
              || negb (str_eqb (jm_bytes existing) (jm_bytes mutation))
           then plain_error "marks: one mutation id was reused for different bytes"
           else Ok record
       | None => Ok (with_pending record (pending record ++ [mutation]))
       end.

Definition checkpoint (current : ReplicaJournalRecord) (snap : bytes) : ReplicaJournalRecord :=
  with_snapshot current snap.

Definition acknowledge (current : ReplicaJournalRecord) (mutationId : jstring)
    (version : bytes) (revision : Z) (snap : bytes) : ReplicaJournalRecord :=
  {| siteId := siteId current; role := role current; snapshot := snap;
     pending := List.filter (fun m => negb (str_eqb (jm_id m) mutationId)) (pending current);
     ackedVersion := Some version;
     committedRevision := Some (decimal revision);
     lastPruneAt := lastPruneAt current |}.

(** The database, and one read-modify-write transaction under the document's
    lock: the stored record, or the caller's fallback when none is readable. *)
Abbreviation database := (gmap jstring jsval).

Definition current_record (db : database) (docId : jstring) (fallback : ReplicaJournalRecord)
    : ReplicaJournalRecord :=
  match db !! journalCacheKey docId with
  | Some v => default fallback (normalizeRecord v)
  | None => fallback
  end.

Definition idb_write (db : database) (docId : jstring) (r : ReplicaJournalRecord) : database :=
  <[journalCacheKey docId := record_value r]> db.

(** A throwing updater aborts the transaction. *)
Definition updateRecord (db : database) (docId : jstring) (fallback : ReplicaJournalRecord)
    (mutate : ReplicaJournalRecord -> res ReplicaJournalRecord)
    : database * res ReplicaJournalRecord :=
  match mutate (current_record db docId fallback) with
  | Ok written => (idb_write db docId written, Ok written)
  | Throw e => (db, Throw e)
  end.

Definition readReplicaJournal (db : database) (docId : jstring) : option ReplicaJournalRecord :=
  match db !! journalCacheKey docId with Some v => normalizeRecord v | None => None end.

Definition writeReplicaJournal (db : database) (docId : jstring) (r : ReplicaJournalRecord)
    : database := idb_write db docId r.

Definition deleteReplicaJournal (db : database) (docId : jstring) : database :=
  base.delete (journalCacheKey docId) db.

Definition appendPendingMutation (db : database) (docId : jstring)
    (fallback : ReplicaJournalRecord) (mutation : JournalMutation)
    : database * res ReplicaJournalRecord :=
  updateRecord db docId fallback (fun current => appendMutation current mutation).

(** [snap] is exported from the replica inside the lock. *)
Definition checkpointReplicaJournal (db : database) (docId : jstring)
    (fallback : ReplicaJournalRecord) (snap : bytes) : database * res ReplicaJournalRecord :=
  updateRecord db docId fallback (fun current => Ok (checkpoint current snap)).

Definition acknowledgePendingMutation (db : database) (docId : jstring)
    (fallback : ReplicaJournalRecord) (mutationId : jstring) (version : bytes) (revision : Z)
    (snap : bytes) : database * res ReplicaJournalRecord :=
  updateRecord db docId fallback
    (fun current => Ok (acknowledge current mutationId version revision snap)).

Definition shouldPruneHistory (retainedOperations lastPruneAt now : Z) : bool :=
  if JOURNAL_RETAINED_THRESHOLD <? retainedOperations then true
  else if lastPruneAt =? 0 then false
  else JOURNAL_PRUNE_INTERVAL_MS <? now - lastPruneAt.

(** ** Opening *)

(** How the bounded read ends: with a value, a storage error, or the deadline. *)
Inductive read_outcome :=
| ReadDone (stored : option ReplicaJournalRecord)
| ReadFailed (reason : exn)
| ReadTimedOut.

Definition journal_unavailable : exn := Exn PlainError
  "Marks could not safely read this page's offline edits.".

Definition readReplicaJournalForOpen (read : read_outcome) : res (option ReplicaJournalRecord) :=
  match read with
  | ReadDone stored => Ok stored
  | ReadFailed _ | ReadTimedOut => Throw journal_unavailable
  end.

Definition openWithReplicaJournal {T} (read : read_outcome)
    (continueOpening : option ReplicaJournalRecord -> res T) : res T :=
  stored ← readReplicaJournalForOpen read; continueOpening stored.

(** ** Reading back what was written *)

Definition mutation_wf (m : JournalMutation) : Prop := journal_id_ok (jm_id m) = true.
Definition record_wf (r : ReplicaJournalRecord) : Prop := Forall mutation_wf (pending r).

Lemma persistedKind_value k : persistedKind (kind_value k) = Some k.
Proof. by destruct k. Qed.

Lemma persistedRole_value r : persistedRole (role_value r) = r.
Proof. destruct r as [[]|]; reflexivity. Qed.

Lemma normalizeMutation_value m : mutation_wf m -> normalizeMutation (mutation_value m) = Some m.
Proof.
  intros H. unfold normalizeMutation, mutation_value.
  change (field _ "id") with (VStr (jm_id m)). change (field _ "kind") with (kind_value (jm_kind m)).
  change (field _ "bytes") with (VBytes (jm_bytes m)).
  change (field _ "createdAt") with (VNum (jm_createdAt m)).
  cbn [as_str as_bytes number_or_zero]. rewrite persistedKind_value.
  unfold mutation_wf in H. rewrite H. by destruct m.
Qed.

Lemma omap_normalize_values ms :
  Forall mutation_wf ms -> omap normalizeMutation (map mutation_value ms) = ms.
Proof.
  induction 1 as [|m r Hm Hr IH]; [done |]. cbn [map]. csimpl.
  by rewrite normalizeMutation_value, IH.
Qed.

Lemma normalize_record_value r :
  record_wf r -> normalizeRecord (record_value r) = Some r.
Proof.
  intros Hw. unfold normalizeRecord, record_value. cbn [is_object negb].
  change (field _ "siteId") with (VStr (siteId r)).
  change (field _ "snapshot") with (VBytes (snapshot r)).
  change (field _ "ackedVersion") with
    (match ackedVersion r with Some b => VBytes b | None => VNull end).
  change (field _ "lastPruneAt") with (VNum (lastPruneAt r)).
  change (field _ "version") with (VNum (NInt 3)).
  change (field _ "role") with (role_value (role r)).
  change (field _ "pending") with (VArr (map mutation_value (pending r))).
  change (field _ "committedRevision") with
    (match committedRevision r with Some s => VStr s | None => VNull end).
  cbn [as_str as_bytes is_int number_or_zero array_items].
  change (3 =? 3) with true. cbn [orb].
  rewrite persistedRole_value, omap_normalize_values by done.
  destruct r as [si ro sn pe ac co la]. simpl. do 2 f_equal; by destruct ac, co.
Qed.

(** Validation never lets a malformed mutation through. *)
Lemma normalizeMutation_wf v m : normalizeMutation v = Some m -> mutation_wf m.
Proof. unfold normalizeMutation, mutation_wf. repeat case_match; intros; by simplify_eq. Qed.

Lemma wrap64_bound z : 0 <= wrap64 z < 2 ^ 64.
Proof. unfold wrap64. apply Z.mod_pos_bound. lia. Qed.

Lemma legacy_hash_nonneg f s bs :
  0 <= f -> 0 <= s -> 0 <= (legacy_hash f s bs).1 /\ 0 <= (legacy_hash f s bs).2.
Proof.
  revert f s. induction bs as [|b r IH]; intros f s Hf Hs; cbn [legacy_hash]; [done |].
  apply IH; apply wrap64_bound.
Qed.

Lemma legacyMutationId_ok bs i : 0 <= i -> journal_id_ok (legacyMutationId bs i) = true.
Proof.
  intros Hi. unfold legacyMutationId.
  pose proof (legacy_hash_nonneg (Z.lxor 14695981039346656037 i)
    (Z.lxor 9521211207457086692 (len bs)) bs) as Hn.
  destruct (legacy_hash _ _ _) as [f s]. destruct Hn as [Hf Hs]; cbn [fst snd] in *.
  { apply Z.lxor_nonneg. lia. } { apply Z.lxor_nonneg. pose proof (len_nonneg bs). lia. }
  unfold journal_id_ok. rewrite forallb_app, len_app.
  destruct (hex_padded_ok 16 (if (f =? 0) && (s =? 0) then 1 else f)) as [-> ->];
    [destruct (_ && _); lia |].
  by destruct (hex_padded_ok 16 s) as [-> ->].
Qed.

Lemma normalizeRecord_wf v r : normalizeRecord v = Some r -> record_wf r.
Proof.
  unfold normalizeRecord, record_wf. intros H.
  destruct (negb (is_object v)); [done |].
  destruct (as_str _); [|done]. destruct (as_bytes _); [|done].
  destruct (_ || _); [injection H as <- | destruct (is_int _ 1); [injection H as <- | done]];
    cbn [pending]; apply Forall_forall; intros m Hm.
  - apply list_elem_of_omap in Hm as (x & _ & Hx). by eapply normalizeMutation_wf.
  - apply elem_of_lookup_imap in Hm as (i & y & -> & _).
    apply legacyMutationId_ok. lia.
Qed.

(** The journal reads back what it wrote, and only well-formed edits: a
    record whose edits have 32-digit ids survives storage unchanged, and every
    record validation accepts (current, v2 or migrated v1) has such ids. *)
Theorem journal_roundtrip r v r' :
  (record_wf r -> normalizeRecord (record_value r) = Some r) /\
  (normalizeRecord v = Some r' ->
   record_wf r' /\ normalizeRecord (record_value r') = Some r').
Proof.
  split; [apply normalize_record_value |].
  intros H. pose proof (normalizeRecord_wf _ _ H). split; [done |].
  by apply normalize_record_value.
Qed.

(** Migration loses no edit: a v1 record keeps its site, its snapshot and
    every stored update, in order and as an update, each under a valid id. *)
Theorem v1_migration_keeps_edits v site snap updates :
  is_object v = true -> field v "version" = VNum (NInt 1) ->
  field v "siteId" = VStr site -> field v "snapshot" = VBytes snap ->
  field v "updates" = VArr updates ->
  exists r, normalizeRecord v = Some r /\ siteId r = site /\ snapshot r = snap /\
    map jm_bytes (pending r) = omap as_bytes updates /\
    Forall (fun m => jm_kind m = Update /\ mutation_wf m) (pending r).
Proof.
  intros Ho Hv Hs Hn Hu. eexists. split.
  - unfold normalizeRecord. rewrite Ho, Hv, Hs, Hn, Hu. reflexivity.
  - cbn [siteId snapshot pending]. split_and!; [done | done | |].
    + change (array_items (VArr updates)) with updates.
      generalize (omap as_bytes updates). intros l.
      apply list_eq. intros i. rewrite list_lookup_fmap, list_lookup_imap.
      by destruct (l !! i).
    + apply Forall_forall. intros m (i & y & -> & _)%elem_of_lookup_imap.
      split; [done |]. apply legacyMutationId_ok. lia.
Qed.

(** ** The journal as a log of pending edits *)

Inductive jop :=
| JAppend (fallback : ReplicaJournalRecord) (m : JournalMutation)
| JCheckpoint (fallback : ReplicaJournalRecord) (snap : bytes)
| JAcknowledge (fallback : ReplicaJournalRecord) (id : jstring) (version : bytes)
    (revision : Z) (snap : bytes).

Definition op_fallback (o : jop) : ReplicaJournalRecord :=
  match o with JAppend f _ | JCheckpoint f _ | JAcknowledge f _ _ _ _ => f end.

Definition run_op (db : database) (docId : jstring) (o : jop)
    : database * res ReplicaJournalRecord :=
  match o with
  | JAppend f m => appendPendingMutation db docId f m
  | JCheckpoint f s => checkpointReplicaJournal db docId f s
  | JAcknowledge f id v rev s => acknowledgePendingMutation db docId f id v rev s
  end.

Fixpoint run_ops (db : database) (docId : jstring) (os : list jop) : database :=
  match os with
  | [] => db
  | o :: r => run_ops (run_op db docId o).1 docId r
  end.

(** How an operation computes its record. *)
Definition op_spec (r : ReplicaJournalRecord) (o : jop) : res ReplicaJournalRecord :=
  match o with
  | JAppend _ m => appendMutation r m
  | JCheckpoint _ s => Ok (checkpoint r s)
  | JAcknowledge _ id v rev s => Ok (acknowledge r id v rev s)
  end.

Definition op_wf (o : jop) : Prop :=
  record_wf (op_fallback o) /\ match o with JAppend _ m => mutation_wf m | _ => True end.

Lemma current_record_wf db docId f : record_wf f -> record_wf (current_record db docId f).
Proof.
  intros Hf. unfold current_record. destruct (db !! _) as [v|]; [|done].
  destruct (normalizeRecord v) as [r|] eqn:E; [|done]. by eapply normalizeRecord_wf.
Qed.

Lemma op_spec_wf r o r' : record_wf r -> op_wf o -> op_spec r o = Ok r' -> record_wf r'.
Proof.
  unfold record_wf. intros Hr [_ Ho] H. destruct o as [f m | f s | f id v rev s]; simpl in H.
  - unfold appendMutation in H. destruct (len (jm_bytes m) =? 0); [by simplify_eq |].
    destruct (find_mutation _ _) as [x|].
    + destruct (_ || _); by simplify_eq.
    + injection H as <-. simpl. apply Forall_app. by split; [| apply Forall_singleton].
  - by injection H as <-.
  - injection H as <-. simpl. apply Forall_forall. intros m Hm.
    apply list_elem_of_In, filter_In in Hm as [Hm _].
    rewrite Forall_forall in Hr. by apply Hr, list_elem_of_In.
Qed.

Lemma run_op_spec db docId o :
  run_op db docId o =
  match op_spec (current_record db docId (op_fallback o)) o with
  | Ok r => (idb_write db docId r, Ok r)
  | Throw e => (db, Throw e)
  end.
Proof. by destruct o. Qed.

Lemma read_after_write db docId r :
  record_wf r -> readReplicaJournal (idb_write db docId r) docId = Some r.
Proof.
  intros Hr. unfold readReplicaJournal, idb_write. rewrite lookup_insert_eq.
  by apply normalize_record_value.
Qed.

Lemma run_op_refines db docId o :
  op_wf o ->
  let '(db', result) := run_op db docId o in
  result = op_spec (current_record db docId (op_fallback o)) o /\
  (forall r, result = Ok r -> readReplicaJournal db' docId = Some r) /\
  (is_Ok result = false -> db' = db) /\
  (forall other, other <> docId -> readReplicaJournal db' other = readReplicaJournal db other).
Proof.
  intros Hw. rewrite run_op_spec.
  destruct (op_spec (current_record db docId (op_fallback o)) o) as [r|e] eqn:E.
  - split_and!; [done | | done |].
    + intros r' [= <-]. apply read_after_write. eapply op_spec_wf; [| exact Hw | exact E].
      apply current_record_wf, Hw.
    + intros other Hne. unfold readReplicaJournal, idb_write, journalCacheKey.
      rewrite lookup_insert_ne; [done |]. intros H. by apply app_inv_head in H.
  - by split_and!.
Qed.

(** *** The log, as a relation *)

(** [l'] is [l] without the entries of [id]. *)
Inductive without (id : jstring) : list JournalMutation -> list JournalMutation -> Prop :=
| without_nil : without id [] []
| without_drop x l l' : jm_id x = id -> without id l l' -> without id (x :: l) l'
| without_keep x l l' : jm_id x <> id -> without id l l' -> without id (x :: l) (x :: l').

(** The first entry of an id. *)
Definition first_entry (r : ReplicaJournalRecord) (id : jstring) (x : JournalMutation) : Prop :=
  exists l1 l2, pending r = l1 ++ x :: l2 /\ Forall (fun y => jm_id y <> id) l1 /\ jm_id x = id.

Definition same_replica (r r' : ReplicaJournalRecord) : Prop :=
  siteId r' = siteId r /\ role r' = role r /\ lastPruneAt r' = lastPruneAt r.
Definition same_server (r r' : ReplicaJournalRecord) : Prop :=
  ackedVersion r' = ackedVersion r /\ committedRevision r' = committedRevision r.

(** What an operation does to the log it finds. *)
Inductive log_step (r : ReplicaJournalRecord) : jop -> ReplicaJournalRecord -> Prop :=
| log_empty f m : jm_bytes m = [] -> log_step r (JAppend f m) r
| log_again f m x : jm_bytes m <> [] -> first_entry r (jm_id m) x ->
    jm_kind x = jm_kind m -> jm_bytes x = jm_bytes m -> log_step r (JAppend f m) r
| log_append f m r' : jm_bytes m <> [] -> Forall (fun y => jm_id y <> jm_id m) (pending r) ->
    pending r' = pending r ++ [m] -> snapshot r' = snapshot r ->
    same_replica r r' -> same_server r r' -> log_step r (JAppend f m) r'
| log_checkpoint f snap r' : snapshot r' = snap -> pending r' = pending r ->
    same_replica r r' -> same_server r r' -> log_step r (JCheckpoint f snap) r'
| log_acknowledge f id version revision snap r' : snapshot r' = snap ->
    without id (pending r) (pending r') -> ackedVersion r' = Some version ->
    committedRevision r' = Some (decimal revision) -> same_replica r r' ->
    log_step r (JAcknowledge f id version revision snap) r'.

(** The one refusal: an id that stands for other bytes or another kind. *)
Definition log_clash (r : ReplicaJournalRecord) (o : jop) : Prop :=
  exists f m x, o = JAppend f m /\ jm_bytes m <> [] /\ first_entry r (jm_id m) x /\
    (jm_kind x <> jm_kind m \/ jm_bytes x <> jm_bytes m).

Lemma filter_without id l : without id l (List.filter (fun m => negb (str_eqb (jm_id m) id)) l).
Proof.
  induction l as [|x l IH]; cbn [List.filter]; [constructor |].
  destruct (str_eqb (jm_id x) id) eqn:E; cbn [negb].
  - apply str_eqb_eq in E. by constructor.
  - constructor; [| done]. intros Hx. by rewrite Hx, str_eqb_refl in E.
Qed.

Lemma find_first r id x : find_mutation id (pending r) = Some x -> first_entry r id x.
Proof.
  unfold find_mutation, first_entry. generalize (pending r). intros l.
  induction l as [|y l IH]; cbn [List.find]; [done |]. destruct (str_eqb (jm_id y) id) eqn:E.
  - apply str_eqb_eq in E. intros [= ->]. exists [], l. by split_and!.
  - intros H. destruct (IH H) as (l1 & l2 & -> & Hl & Hx). exists (y :: l1), l2. split_and!; [done | | done].
    constructor; [| done]. intros Hy. by rewrite Hy, str_eqb_refl in E.
Qed.

Lemma find_nothing r id :
  find_mutation id (pending r) = None -> Forall (fun y => jm_id y <> id) (pending r).
Proof.
  intros H. apply Forall_forall. intros y Hy Hid. apply list_elem_of_In in Hy.
  pose proof (List.find_none _ _ H y Hy) as E. cbn in E. by rewrite Hid, str_eqb_refl in E.
Qed.

Lemma op_spec_log r o :
  match op_spec r o with Ok r' => log_step r o r' | Throw _ => log_clash r o end.
Proof.
  destruct o as [f m | f snap | f id version revision snap]; cbn [op_spec].
  - unfold appendMutation. destruct (Z.eqb_spec (len (jm_bytes m)) 0) as [E | E].
    { apply log_empty. by apply len_zero_nil. }
    assert (jm_bytes m <> []) as Hne by (intros Hb; by rewrite Hb in E).
    destruct (find_mutation (jm_id m) (pending r)) as [x|] eqn:Ef.
    + apply find_first in Ef. destruct (bool_decide_reflect (jm_kind x = jm_kind m)) as [Hk | Hk]; cbn [negb orb].
      2:{ exists f, m, x. split_and!; [done .. | by left]. }
      destruct (str_eqb (jm_bytes x) (jm_bytes m)) eqn:Eb; cbn [negb].
      * apply str_eqb_eq in Eb. by apply (log_again r f m x).
      * exists f, m, x. split_and!; [done .. | right]. intros Hb. by rewrite Hb, str_eqb_refl in Eb.
    + apply find_nothing in Ef. by apply log_append.
  - by apply log_checkpoint.
  - apply log_acknowledge; try done. apply filter_without.
Qed.

(** C12. Each locked operation implements the log. It finds the readable record
    of its document, or the caller's fallback when there is none. It commits,
    and the next read returns, a record in the relation [log_step] to what it
    found: an append adds its entry at the end unless it has no bytes or is
    there already, a checkpoint replaces the snapshot only, an acknowledgement
    takes exactly the entries of its id away and records the version, the
    revision and the snapshot. It is refused, and nothing is written, only when
    the id of an append stands for other bytes or another kind. No operation
    touches the journal of another document. *)
Theorem journal_operation_refines db docId o :
  op_wf o ->
  let '(db', result) := run_op db docId o in
  exists base,
    (forall r, readReplicaJournal db docId = Some r -> base = r) /\
    (forall r, record_wf r -> db !! journalCacheKey docId = Some (record_value r) -> base = r) /\
    (readReplicaJournal db docId = None -> base = op_fallback o) /\
    match result with
    | Ok r' => log_step base o r' /\ readReplicaJournal db' docId = Some r'
    | Throw _ => log_clash base o /\ db' = db
    end /\
    (forall other, other <> docId -> readReplicaJournal db' other = readReplicaJournal db other).
Proof.
  intros Hw. pose proof (run_op_refines db docId o Hw) as H.
  destruct (run_op db docId o) as [db' result]. destruct H as (E & Hok & Hbad & Hother).
  exists (current_record db docId (op_fallback o)). unfold current_record, readReplicaJournal in *.
  split_and!.
  - intros r. destruct (db !! _); [by intros -> | done].
  - intros r Hr ->. by rewrite normalize_record_value.
  - destruct (db !! _); [by intros -> | done].
  - pose proof (op_spec_log (current_record db docId (op_fallback o)) o) as Hl.
    unfold current_record in Hl. rewrite <- E in Hl. destruct result as [r'|e]; auto.
  - done.
Qed.

Lemma appendMutation_holds r m r' :
  jm_bytes m <> [] -> appendMutation r m = Ok r' ->
  exists x, x ∈ pending r' /\ jm_id x = jm_id m /\ jm_kind x = jm_kind m /\ jm_bytes x = jm_bytes m.
Proof.
  intros Hne. unfold appendMutation.
  destruct (Z.eqb_spec (len (jm_bytes m)) 0) as [E|_]; [by apply len_zero_nil in E |].
  destruct (find_mutation _ _) as [x|] eqn:Ef.
  - destruct (_ || _) eqn:Ec; intros H; simplify_eq. reflect_bools.
    apply List.find_some in Ef as [Hin Heq]. reflect_bools.
    exists x. by rewrite list_elem_of_In.
  - intros H. simplify_eq. exists m. split; [|done]. cbn [pending with_pending].
    apply elem_of_app. right. by apply list_elem_of_singleton.
Qed.

Lemma op_spec_keeps r o r' m :
  op_spec r o = Ok r' -> m ∈ pending r ->
  (forall f v rev s, o <> JAcknowledge f (jm_id m) v rev s) -> m ∈ pending r'.
Proof.
  intros H Hm Hno. destruct o as [f m' | f s | f id v rev s]; simpl in H.
  - unfold appendMutation in H. destruct (_ =? 0); [by simplify_eq |].
    destruct (find_mutation _ _); [destruct (_ || _); by simplify_eq |].
    injection H as <-. simpl. apply elem_of_app. by left.
  - by injection H as <-.
  - injection H as <-. simpl. apply list_elem_of_In, filter_In. split; [by apply list_elem_of_In |].
    rewrite negb_true_iff. apply str_eqb_neq. intros Heq. apply (Hno f v rev s). by rewrite Heq.
Qed.

Lemma run_ops_keeps db docId os r m :
  readReplicaJournal db docId = Some r -> m ∈ pending r -> Forall op_wf os ->
  Forall (fun o => forall f v rev s, o <> JAcknowledge f (jm_id m) v rev s) os ->
  exists r', readReplicaJournal (run_ops db docId os) docId = Some r' /\ m ∈ pending r'.
Proof.
  revert db r. induction os as [|o rest IH]; intros db r Hr Hm Hw Hn; [eauto |].
  apply Forall_cons in Hw as [Ho Hw]. apply Forall_cons in Hn as [Hno Hn].
  cbn [run_ops]. pose proof (run_op_refines db docId o Ho) as H.
  assert (Hcur : current_record db docId (op_fallback o) = r).
  { unfold readReplicaJournal in Hr. unfold current_record.
    destruct (db !! _); [by rewrite Hr | done]. }
  destruct (run_op db docId o) as [db' result]. destruct H as (E & Hok & Hbad & _).
  rewrite Hcur in E. cbn [fst]. destruct result as [r'|e].
  - eapply IH; [by apply Hok | | done | done]. by eapply op_spec_keeps.
  - rewrite (Hbad eq_refl). by eapply IH.
Qed.

(** C2. An edit is durable from the moment it is journalled until the server
    acknowledges that very edit: once an append of a non-empty mutation has
    succeeded, every later read of the journal, after any sequence of appends,
    checkpoints and acknowledgements of other edits, still finds it. *)
Theorem pending_edit_survives db docId fallback m db1 written os :
  record_wf fallback -> mutation_wf m -> jm_bytes m <> [] ->
  appendPendingMutation db docId fallback m = (db1, Ok written) ->
  Forall op_wf os ->
  Forall (fun o => forall f v rev s, o <> JAcknowledge f (jm_id m) v rev s) os ->
  exists r x, readReplicaJournal (run_ops db1 docId os) docId = Some r /\
    x ∈ pending r /\ jm_id x = jm_id m /\ jm_kind x = jm_kind m /\ jm_bytes x = jm_bytes m.
Proof.
  intros Hf Hm Hne Ha Hw Hn.
  pose proof (run_op_refines db docId (JAppend fallback m) (conj Hf Hm)) as H.
  cbn [run_op] in H. rewrite Ha in H. destruct H as (E & Hok & _ & _).
  specialize (Hok _ eq_refl). symmetry in E. cbn [op_fallback op_spec] in E.
  destruct (appendMutation_holds _ _ _ Hne E) as (x & Hx & Hid & Hk & Hb).
  destruct (run_ops_keeps db1 docId os written x Hok Hx Hw) as (r & Hr & Hxr).
  { eapply Forall_impl; [exact Hn |]. intros o Ho. by rewrite Hid. }
  by exists r, x.
Qed.

(** ** Witnesses *)

Definition demo_record : ReplicaJournalRecord :=
  {| siteId := lit "site"; role := Some REditor; snapshot := [1; 2]; pending := [];
     ackedVersion := None; committedRevision := None; lastPruneAt := NInt 0 |}.

Definition demo_mutation (id : jstring) : JournalMutation :=
  {| jm_id := id; jm_kind := Update; jm_bytes := [7]; jm_createdAt := NInt 5 |}.

Definition id_a : jstring := replicate 32 97.
Definition id_b : jstring := replicate 32 98.

Definition demo_v1 : jsval :=
  VObj [(lit "version", VNum (NInt 1)); (lit "siteId", VStr (lit "old"));
        (lit "snapshot", VBytes []); (lit "updates", VArr [VBytes [1]; VNull; VBytes [2; 3]])].

Lemma journal_roundtrip_witness :
  normalizeRecord (record_value demo_record) = Some demo_record.
Proof.
  apply (proj1 (journal_roundtrip demo_record VNull demo_record)). apply Forall_nil_2.
Defined.

Lemma v1_migration_witness :
  exists r, normalizeRecord demo_v1 = Some r /\ siteId r = lit "old" /\ snapshot r = [] /\
    map jm_bytes (pending r) = [[1]; [2; 3]] /\
    Forall (fun m => jm_kind m = Update /\ mutation_wf m) (pending r).
Proof.
  apply (v1_migration_keeps_edits demo_v1 (lit "old") [] [VBytes [1]; VNull; VBytes [2; 3]]);
    reflexivity.
Defined.

Lemma journal_operation_refines_witness :
  exists r, log_step demo_record (JAppend demo_record (demo_mutation id_a)) r /\
    readReplicaJournal (run_op ∅ (lit "d") (JAppend demo_record (demo_mutation id_a))).1 (lit "d") = Some r.
Proof.
  pose proof (journal_operation_refines ∅ (lit "d") (JAppend demo_record (demo_mutation id_a))
    (conj (Forall_nil_2 mutation_wf) eq_refl)) as H.
  destruct (run_op ∅ (lit "d") (JAppend demo_record (demo_mutation id_a))) as [db' result] eqn:E.
  destruct H as (base & _ & _ & Hf & H & _). rewrite (Hf eq_refl) in H.
  assert (result = Ok (with_pending demo_record [demo_mutation id_a])) as ->.
  { change result with (db', result).2. rewrite <- E. vm_compute. reflexivity. }
  exists (with_pending demo_record [demo_mutation id_a]). exact H.
Defined.

Lemma pending_edit_survives_witness :
  exists r x, readReplicaJournal
      (run_ops (idb_write ∅ (lit "d") (with_pending demo_record [demo_mutation id_a])) (lit "d")
        [JAcknowledge demo_record id_b [] 4 [9]]) (lit "d") = Some r /\
    x ∈ pending r /\ jm_id x = id_a /\ jm_kind x = Update /\ jm_bytes x = [7].
Proof.
  apply (pending_edit_survives ∅ (lit "d") demo_record (demo_mutation id_a) _
    (with_pending demo_record [demo_mutation id_a])).
  - apply Forall_nil_2.
  - reflexivity.
  - discriminate.
  - reflexivity.
  - apply Forall_singleton. split; [apply Forall_nil_2 | exact I].
  - apply Forall_singleton. discriminate.
Defined.
