(* ===== verification/EsbtDocument.v ===== *)
(** The browser owner of the collaborative document
    ([client/src/collab/wasm/esbt-document.ts] and [wasm/index.ts]): argument
    checks, error translation, transactions, change notices, site identifiers.
    The WebAssembly component behind it is generated code: it is the typeclass
    [Component] of its published interface ([client/public/esbt.wit]). *)

From S2P Require Import Prelude TextChange Bytes Protocol.

(** ** The component *)

(** How a component call fails: with the [engine-error] payload of its
    interface, or with any other JavaScript exception. *)
Inductive component_error := Payload (code : Z) (message : string) | Raw (e : exn).

Inductive CaretAffinity := Before | After.

Inductive ArtifactKind :=
| KUpdate | KCompactSnapshot | KFullSnapshot | KVersion | KAnchor | KCausalPosition.

Record VisibleEdit := { v_from : Z; v_to : Z; v_inserted : list Z }.

Record LocalChange := {
  lc_update : bytes; lc_visibleChanged : bool; lc_visibleEdits : list VisibleEdit }.

(** The receipt of an update or a snapshot, restricted to what is read here. *)
Record ComponentReceipt := {
  cr_version : bytes; cr_visibleChanged : bool; cr_visibleEdits : list VisibleEdit;
  cr_journal : option bytes }.

Definition cres (A : Type) : Type := A + component_error.

Class Component (C : Type) := {
  c_length : C -> Z;
  c_text : C -> list Z;
  c_version : C -> bytes;
  c_historyFloor : C -> bytes;
  c_pendingOperations : C -> Z;
  c_retainedOperations : C -> Z;
  c_currentDmax : C -> Z;
  c_beginTransaction : C -> option Z -> C * cres unit;
  c_commitTransaction : C -> C * cres (option LocalChange);
  c_abortTransaction : C -> C * cres unit;
  c_replace : C -> Z -> Z -> list Z -> option Z -> C * cres (option LocalChange);
  c_undo : C -> C * cres (option LocalChange);
  c_redo : C -> C * cres (option LocalChange);
  c_canUndo : C -> bool;
  c_canRedo : C -> bool;
  c_applyUpdate : C -> bytes -> C * cres ComponentReceipt;
  c_applySnapshot : C -> bytes -> C * cres ComponentReceipt;
  c_exportUpdate : C -> bytes -> cres bytes;
  c_exportCompactSnapshot : C -> cres bytes;
  c_exportFullSnapshot : C -> cres bytes;
  c_pruneHistoryThrough : C -> bytes -> C * cres Z;
  c_anchor : C -> Z -> CaretAffinity -> cres bytes;
  c_resolveAnchor : C -> bytes -> cres Z;
  c_captureCausalPosition : C -> Z -> CaretAffinity -> cres bytes;
  c_resolveCausalPosition : C -> bytes -> cres (option Z);
  c_classifyArtifact : bytes -> cres ArtifactKind }.

(** ** Errors *)

Definition esbt_error {A} (code : Z) (m : string) : res A := Throw (Exn (EsbtError code) m).

Definition AllocationExhausted := 3.
Definition MalformedEncoding := 4.
Definition MessageTooLarge := 7.
Definition TooManyOperations := 8.
Definition IdentifierTooDeep := 9.
Definition DocumentTooLarge := 15.
Definition SnapshotHasSequenceGaps := 18.
Definition MissingLocalHistory := 20.
Definition HistoryUnavailable := 21.

(** A payload of the interface becomes an [EsbtError]; anything else is
    rethrown as it is. *)
Definition callComponent {A} (r : cres A) : res A :=
  match r with
  | inl a => Ok a
  | inr (Payload code message) => Throw (Exn (EsbtError code) message)
  | inr (Raw e) => Throw e
  end.

Definition isEsbtError (e : exn) : bool :=
  match exn_kind e with EsbtError _ => true | _ => false end.

Definition error_code_in (codes : list Z) (e : exn) : bool :=
  match exn_kind e with EsbtError c => existsb (Z.eqb c) codes | _ => false end.

Definition isHistoryUnavailable (e : exn) : bool := error_code_in [HistoryUnavailable] e.

Definition isSnapshotRefusal (e : exn) : bool :=
  error_code_in [HistoryUnavailable; MissingLocalHistory; SnapshotHasSequenceGaps] e.

Definition isRefusedEdit (e : exn) : bool :=
  error_code_in [AllocationExhausted; IdentifierTooDeep; DocumentTooLarge] e.

Definition userMessageForError (code : Z) : string :=
  if code =? AllocationExhausted then
    "This position cannot accept another character. Try inserting nearby."
  else if code =? MessageTooLarge then
    "That change is too large for one update. Split the paste and try again."
  else if code =? IdentifierTooDeep then
    "This position is too deep to edit. Insert in the adjacent paragraph instead."
  else if code =? DocumentTooLarge then "This document has reached the size ceiling."
  else if code =? MissingLocalHistory then
    "A newer snapshot is required before this replica can catch up."
  else if code =? SnapshotHasSequenceGaps then
    "The offered snapshot is not a valid base. Request one from a caught-up peer."
  else if code =? HistoryUnavailable then
    "History below this replica’s floor is gone; a snapshot is required."
  else "The collaboration engine rejected that change.".

(** ** Sites *)

Definition U64_MAX := 2 ^ 64 - 1.
Definition U128_MAX := 2 ^ 128 - 1.
Definition MARKS_SITE_MAX := 4294967295.

Record SiteId := { low : Z; high : Z }.

Inductive site_input :=
| SiteUnset (random16 : bytes)   (* undefined or null: 16 random bytes *)
| SiteText (s : jstring)
| SiteBytes (bs : bytes).

(** [bytes[15] = 1] when every random byte is zero. *)
Definition nonzero_random (bs : bytes) : bytes :=
  if forallb (Z.eqb 0) bs then replicate 15 0 ++ [1] else bs.

(** [siteId.replaceAll('-', '').toLowerCase()] on ASCII. *)
Definition fold_site (s : jstring) : jstring :=
  map (fun c => if (65 <=? c) && (c <=? 90) then c + 32 else c)
      (List.filter (fun c => negb (c =? 45)) s).

Definition site_value (i : site_input) : res Z :=
  match i with
  | SiteUnset rnd => Ok (hex_number (bytesToHex (nonzero_random rnd)))
  | SiteText s =>
      let hex := fold_site s in
      if (len hex =? 32) && forallb is_hex hex then Ok (hex_number hex)
      else type_error "esbt: siteId must be a 128-bit hexadecimal string"
  | SiteBytes bs =>
      if len bs =? 16 then Ok (hex_number (bytesToHex bs))
      else type_error "esbt: siteId must be a 16-byte array or 32-digit hex string"
  end.

Definition normalizeSiteId (i : site_input) : res SiteId :=
  value ← site_value i;
  if (value <=? 0) || (U128_MAX <? value) then type_error "esbt: siteId is zero or out of range"
  else Ok {| low := Z.land value U64_MAX; high := Z.shiftr value 64 |}.

Definition siteToHex (site : SiteId) : jstring :=
  hex_padded 32 (Z.lor (Z.shiftl (high site) 64) (low site)).

Definition parseMarksSite (site : jstring) : res Z :=
  if is_decimal site then Ok (dec_number site)
  else type_error "esbt: Marks site must be a decimal u32 string".

Definition marksSiteToEngine (site : jstring) : res jstring :=
  value ← parseMarksSite site;
  if (value <=? 0) || (MARKS_SITE_MAX <? value)
  then type_error "esbt: Marks site must be a nonzero u32"
  else Ok (hex_padded 32 value).

Definition engineSiteToMarks (hex : jstring) : res jstring :=
  let value := hex_number hex in
  if (value <=? 0) || (MARKS_SITE_MAX <? value)
  then type_error "esbt: engine site is outside the Marks u32 site space"
  else Ok (decimal value).

(** ** Argument checks and strings *)

Definition checkedIndex (value : Z) : res Z :=
  if (value <? 0) || (4294967295 <? value)
  then range_error "esbt: index must be a nonnegative u32 integer" else Ok value.

Definition normalizeUndoGroup (group : option Z) : res (option Z) :=
  match group with
  | None => Ok None
  | Some value =>
      if (value <? 0) || (U64_MAX <? value) then range_error "esbt: undoGroup is outside u64"
      else Ok (Some value)
  end.

Definition encodeUtf16 (text : jstring) : list Z := map (fun c => Z.land c 65535) text.

Definition chunkSize := 16384.

Fixpoint decode_chunks (fuel : nat) (units : list Z) (offset : Z) : list jstring :=
  match fuel with
  | O => []
  | S n => if offset <? len units
           then slice units offset (offset + chunkSize) :: decode_chunks n units (offset + chunkSize)
           else []
  end.

Definition decodeUtf16 (units : list Z) : jstring :=
  concat (decode_chunks (length units) units 0).

Definition mapVisibleEdit (e : VisibleEdit) : TextEdit :=
  {| from := v_from e; to := v_to e; insert := decodeUtf16 (v_inserted e) |}.

(** ** The document *)

(** What the registered listeners are told, in order. *)
Inductive notice :=
| NLocalUpdate (update : bytes)
| NChange (edits : list TextEdit) (origin : option jstring) (local : bool)
| NReplicaChange.

Record Doc (C : Type) := {
  component : C;
  transactionDepth : Z;
  transactionOrigin : option jstring;
  destroyed : bool;
  notices : list notice }.
Arguments component {C} _.
Arguments transactionDepth {C} _.
Arguments transactionOrigin {C} _.
Arguments destroyed {C} _.
Arguments notices {C} _.

Record TransactOptions := { o_origin : option jstring; o_undoGroup : option Z }.

Definition no_options : TransactOptions := {| o_origin := None; o_undoGroup := None |}.

Section Document.
Context {C : Type} `{Component C}.

Definition new_document (c : C) : Doc C :=
  {| component := c; transactionDepth := 0; transactionOrigin := None; destroyed := false;
     notices := [] |}.

Definition set_component (d : Doc C) c : Doc C :=
  {| component := c; transactionDepth := transactionDepth d;
     transactionOrigin := transactionOrigin d; destroyed := destroyed d; notices := notices d |}.
Definition set_depth (d : Doc C) n : Doc C :=
  {| component := component d; transactionDepth := n;
     transactionOrigin := transactionOrigin d; destroyed := destroyed d; notices := notices d |}.
Definition set_origin (d : Doc C) o : Doc C :=
  {| component := component d; transactionDepth := transactionDepth d;
     transactionOrigin := o; destroyed := destroyed d; notices := notices d |}.

(** Destroying drops every listener, so later notices reach nobody. *)
Definition emit (ns : list notice) (d : Doc C) : Doc C :=
  {| component := component d; transactionDepth := transactionDepth d;
     transactionOrigin := transactionOrigin d; destroyed := destroyed d;
     notices := if destroyed d then notices d else notices d ++ ns |}.

Definition destroy (d : Doc C) : Doc C :=
  {| component := component d; transactionDepth := transactionDepth d;
     transactionOrigin := transactionOrigin d; destroyed := true; notices := notices d |}.

Definition assertLive : SE (Doc C) unit := fun d =>
  if destroyed d then (d, esbt_error 24 "esbt: document has been destroyed") else (d, Ok tt).

(** A call that changes the component. *)
Definition call_c {A} (f : C -> C * cres A) : SE (Doc C) A := fun d =>
  let '(c, r) := f (component d) in (set_component d c, callComponent r).

(** A call that only reads it. *)
Definition read_c {A} (f : C -> cres A) : SE (Doc C) A := fun d =>
  (d, callComponent (f (component d))).

Definition emitChange (edits : list TextEdit) origin local (d : Doc C) : Doc C :=
  emit [NChange edits origin local] d.

Definition emitReplicaChange (d : Doc C) : Doc C := emit [NReplicaChange] d.

Definition emitLocalUpdate (update : bytes) (edits : list TextEdit) origin (d : Doc C) : Doc C :=
  let d := emit [NLocalUpdate update] d in
  let d := match edits with [] => d | _ => emitChange edits origin true d end in
  emitReplicaChange d.

Definition consumeLocalChange (change : option LocalChange) (origin : option jstring)
    : SE (Doc C) (option bytes) :=
  match change with
  | None => mret None
  | Some change =>
      let edits := map mapVisibleEdit (lc_visibleEdits change) in
      if negb (Bool.eqb (lc_visibleChanged change) (0 <? len edits))
      then se_throw (Exn (EsbtError 4) "esbt: local change disagrees with its visible edits")
      else _ ← se_modify (emitLocalUpdate (lc_update change) edits origin);
           mret (Some (lc_update change))
  end.

(** The guarded part of an outermost transaction. *)
Definition transact_body {A} (callback : SE (Doc C) A) : SE (Doc C) A :=
  value ← callback;
  _ ← se_modify (fun d => set_depth d 0);
  change ← call_c c_commitTransaction;
  d ← se_get;
  _ ← consumeLocalChange change (transactionOrigin d);
  mret value.

Definition transact_rollback {A} (error : exn) : SE (Doc C) A :=
  _ ← se_modify (fun d => set_depth d 0);
  _ ← se_catch (call_c c_abortTransaction) (fun _ => mret tt);
  se_throw error.

(** [try ... catch ... finally] *)
Definition transact_guarded {A} (callback : SE (Doc C) A) : SE (Doc C) A := fun d =>
  let '(d', r) := se_catch (transact_body callback) transact_rollback d in
  (set_origin d' None, r).

Definition transact_outer {A} (callback : SE (Doc C) A) (options : TransactOptions) : SE (Doc C) A :=
  group ← se_lift (normalizeUndoGroup (o_undoGroup options));
  _ ← call_c (fun c => c_beginTransaction c group);
  _ ← se_modify (fun d => set_origin (set_depth d 1) (o_origin options));
  transact_guarded callback.

Definition transact_nested {A} (callback : SE (Doc C) A) : SE (Doc C) A := fun d =>
  let '(d', r) := callback (set_depth d (transactionDepth d + 1)) in
  (set_depth d' (transactionDepth d' - 1), r).

Definition transact {A} (callback : SE (Doc C) A) (options : TransactOptions) : SE (Doc C) A :=
  _ ← assertLive;
  d ← se_get;
  if 0 <? transactionDepth d then transact_nested callback else transact_outer callback options.

Definition replaceRange (from to : Z) (insertedText : jstring) (options : TransactOptions)
    : SE (Doc C) (option bytes) :=
  _ ← assertLive;
  f ← se_lift (checkedIndex from);
  t ← se_lift (checkedIndex to);
  group ← se_lift (normalizeUndoGroup (o_undoGroup options));
  change ← call_c (fun c => c_replace c f t (encodeUtf16 insertedText) group);
  consumeLocalChange change (o_origin options).

Definition insert (index : Z) (text : jstring) (options : TransactOptions) : SE (Doc C) (option bytes) :=
  replaceRange index index text options.

Definition delete (index length : Z) (options : TransactOptions) : SE (Doc C) (option bytes) :=
  start ← se_lift (checkedIndex index);
  count ← se_lift (checkedIndex length);
  if 4294967295 <? start + count
  then se_throw (Exn RangeError "esbt: deletion endpoint exceeds u32")
  else replaceRange start (start + count) [] options.

Definition length_ : SE (Doc C) Z := _ ← assertLive; read_c (fun c => inl (c_length c)).
Definition getText : SE (Doc C) jstring :=
  _ ← assertLive; read_c (fun c => inl (decodeUtf16 (c_text c))).
Definition version : SE (Doc C) bytes := _ ← assertLive; read_c (fun c => inl (c_version c)).
Definition historyFloor : SE (Doc C) bytes :=
  _ ← assertLive; read_c (fun c => inl (c_historyFloor c)).
Definition pendingOperations : SE (Doc C) Z :=
  _ ← assertLive; read_c (fun c => inl (c_pendingOperations c)).
Definition retainedOperations : SE (Doc C) Z :=
  _ ← assertLive; read_c (fun c => inl (c_retainedOperations c)).
Definition currentDmax : SE (Doc C) Z := _ ← assertLive; read_c (fun c => inl (c_currentDmax c)).
Definition canUndo : SE (Doc C) bool := _ ← assertLive; read_c (fun c => inl (c_canUndo c)).
Definition canRedo : SE (Doc C) bool := _ ← assertLive; read_c (fun c => inl (c_canRedo c)).

Definition setText (text : jstring) (options : TransactOptions) : SE (Doc C) (option bytes) :=
  n ← length_; replaceRange 0 n text options.

Definition undo (options : TransactOptions) : SE (Doc C) (option bytes) :=
  _ ← assertLive; change ← call_c c_undo;
  consumeLocalChange change (Some (default (lit "undo") (o_origin options))).

Definition redo (options : TransactOptions) : SE (Doc C) (option bytes) :=
  _ ← assertLive; change ← call_c c_redo;
  consumeLocalChange change (Some (default (lit "redo") (o_origin options))).

Definition indexToAnchor (index : Z) (affinity : CaretAffinity) : SE (Doc C) bytes :=
  _ ← assertLive; i ← se_lift (checkedIndex index); read_c (fun c => c_anchor c i affinity).

Definition anchorToIndex (anchor : bytes) : SE (Doc C) Z :=
  _ ← assertLive; read_c (fun c => c_resolveAnchor c anchor).

Definition MAX_POSITION_BYTES := 4096.

Definition capturePresencePosition (anchor head : Z) (anchorAffinity headAffinity : CaretAffinity)
    : SE (Doc C) (bytes * bytes) :=
  _ ← assertLive;
  i ← se_lift (checkedIndex anchor);
  a ← read_c (fun c => c_captureCausalPosition c i anchorAffinity);
  j ← se_lift (checkedIndex head);
  h ← read_c (fun c => c_captureCausalPosition c j headAffinity);
  if (MAX_POSITION_BYTES <? len a) || (MAX_POSITION_BYTES <? len h)
  then se_throw (Exn (EsbtError 7) "esbt: causal presence position exceeds its product limit")
  else mret (a, h).

Definition resolvePresencePosition (anchor head : bytes) : SE (Doc C) (Z * Z) :=
  _ ← assertLive;
  if (len anchor =? 0) || (len head =? 0) || (MAX_POSITION_BYTES <? len anchor)
     || (MAX_POSITION_BYTES <? len head)
  then se_throw (Exn (EsbtError 4) "esbt: invalid causal presence position")
  else
    a ← read_c (fun c => c_resolveCausalPosition c anchor);
    h ← read_c (fun c => c_resolveCausalPosition c head);
    match a, h with
    | Some a, Some h => mret (a, h)
    | _, _ => se_throw (Exn (EsbtError 25) "esbt: presence position history is not available yet")
    end.

Record Receipt := {
  rc_version : bytes; rc_visibleChanged : bool; rc_visibleEdits : list TextEdit;
  rc_journalBytes : option bytes }.

(** [mapApplyReceipt] and [mapSnapshotReceipt], which differ in the fields they
    copy and in the word of the message. *)
Definition mapReceipt (what : string) (r : ComponentReceipt) : res Receipt :=
  let visibleEdits := map mapVisibleEdit (cr_visibleEdits r) in
  if negb (Bool.eqb (cr_visibleChanged r) (0 <? len visibleEdits))
  then esbt_error 4 what
  else Ok {| rc_version := cr_version r; rc_visibleChanged := cr_visibleChanged r;
             rc_visibleEdits := visibleEdits; rc_journalBytes := cr_journal r |}.

Definition mapApplyReceipt := mapReceipt "esbt: apply receipt disagrees with its visible edits".
Definition mapSnapshotReceipt := mapReceipt "esbt: snapshot receipt disagrees with its visible edits".

Definition notify_receipt (r : Receipt) (d : Doc C) : Doc C :=
  let d := match rc_visibleEdits r with [] => d | _ => emitChange (rc_visibleEdits r) None false d end in
  emitReplicaChange d.

Definition applyUpdate (bs : bytes) : SE (Doc C) Receipt :=
  _ ← assertLive;
  raw ← call_c (fun c => c_applyUpdate c bs);
  receipt ← se_lift (mapApplyReceipt raw);
  _ ← se_modify (notify_receipt receipt);
  mret receipt.

Definition applySnapshot (bs : bytes) : SE (Doc C) Receipt :=
  _ ← assertLive;
  raw ← call_c (fun c => c_applySnapshot c bs);
  receipt ← se_lift (mapSnapshotReceipt raw);
  _ ← se_modify (notify_receipt receipt);
  mret receipt.

Definition import (bs : bytes) : SE (Doc C) Receipt :=
  kind ← se_lift (callComponent (c_classifyArtifact bs));
  match kind with
  | KUpdate => applyUpdate bs
  | KCompactSnapshot | KFullSnapshot => applySnapshot bs
  | _ => se_throw (Exn (EsbtError 4) "esbt: artifact is not importable document state")
  end.

Definition exportFullSnapshot : SE (Doc C) bytes := _ ← assertLive; read_c c_exportFullSnapshot.
Definition exportCompactSnapshot : SE (Doc C) bytes := _ ← assertLive; read_c c_exportCompactSnapshot.
Definition exportUpdate (remoteVersion : bytes) : SE (Doc C) bytes :=
  _ ← assertLive; read_c (fun c => c_exportUpdate c remoteVersion).
Definition pruneHistoryThrough (v : bytes) : SE (Doc C) Z :=
  _ ← assertLive; call_c (fun c => c_pruneHistoryThrough c v).

Definition exportReconnectPayload (remoteVersion : bytes) : SE (Doc C) (MutationKind * bytes) :=
  se_catch (bs ← exportUpdate remoteVersion; mret (Update, bs))
    (fun error => if isHistoryUnavailable error
                  then bs ← exportCompactSnapshot; mret (Snapshot, bs)
                  else se_throw error).
End Document.

(** ** What the component promises about text

    [c_base] is the text as listeners last saw it: the current text, or the
    text at the start of the transaction that is open. Every call moves it by
    exactly the change it reports; a failing call and an aborted transaction
    leave it alone, and inside a transaction nothing is reported. *)

Definition turns (old : list Z) (visible : list VisibleEdit) (new : list Z) : Prop :=
  applyTextEdits old (map mapVisibleEdit visible) = Ok new.

Definition change_turns (old : list Z) (change : option LocalChange) (new : list Z) : Prop :=
  match change with
  | None => new = old
  | Some ch => lc_visibleChanged ch = (0 <? len (lc_visibleEdits ch)) /\
               turns old (lc_visibleEdits ch) new
  end.

Definition receipt_turns (old : list Z) (r : ComponentReceipt) (new : list Z) : Prop :=
  cr_visibleChanged r = (0 <? len (cr_visibleEdits r)) /\ turns old (cr_visibleEdits r) new.

Class ComponentLaws (C : Type) `{Component C} := {
  c_open : C -> bool;
  c_base : C -> list Z;
  base_closed c : c_open c = false -> c_base c = c_text c;
  begin_law c g c' r : c_beginTransaction c g = (c', r) ->
    c_base c' = c_base c /\ (c_open c = false -> c_open c' = match r with inl _ => true | _ => false end);
  replace_law c f t s g c' r : c_replace c f t s g = (c', r) ->
    match r with
    | inl ch => change_turns (c_base c) ch (c_base c') /\ c_open c' = c_open c /\
                (c_open c = true -> ch = None)
    | inr _ => c_base c' = c_base c /\ (c_open c = false -> c_open c' = false)
    end;
  commit_law c c' r : c_commitTransaction c = (c', r) ->
    match r with
    | inl ch => change_turns (c_base c) ch (c_base c') /\ c_open c' = false
    | inr _ => c_base c' = c_base c
    end;
  abort_law c c' r : c_abortTransaction c = (c', r) -> c_base c' = c_base c /\ c_open c' = false;
  undo_law c c' r : c_undo c = (c', r) ->
    c_open c' = c_open c /\
    match r with inl ch => change_turns (c_base c) ch (c_base c') | inr _ => c_base c' = c_base c end;
  redo_law c c' r : c_redo c = (c', r) ->
    c_open c' = c_open c /\
    match r with inl ch => change_turns (c_base c) ch (c_base c') | inr _ => c_base c' = c_base c end;
  applyUpdate_law c bs c' r : c_applyUpdate c bs = (c', r) ->
    c_open c' = c_open c /\
    match r with inl x => receipt_turns (c_base c) x (c_base c') | inr _ => c_base c' = c_base c end;
  applySnapshot_law c bs c' r : c_applySnapshot c bs = (c', r) ->
    c_open c' = c_open c /\
    match r with inl x => receipt_turns (c_base c) x (c_base c') | inr _ => c_base c' = c_base c end;
  prune_law c v c' r : c_pruneHistoryThrough c v = (c', r) ->
    c_base c' = c_base c /\ c_open c' = c_open c }.

(** Decoding in chunks of 16,384 units is the identity at every length. *)
Lemma decode_chunks_all n units offset :
  0 <= offset <= len units -> len units - offset <= Z.of_nat n ->
  concat (decode_chunks n units offset) = slice_from units offset.
Proof.
  revert offset. induction n as [|n IH]; intros offset Ho Hn.
  - cbn [decode_chunks concat]. replace offset with (len units) by lia.
    rewrite slice_from_in by lia. symmetry. apply drop_ge. unfold len. lia.
  - cbn [decode_chunks]. destruct (Z.ltb_spec offset (len units)).
    2:{ replace offset with (len units) by lia. rewrite slice_from_in by lia.
        symmetry. apply drop_ge. unfold len. lia. }
    cbn [concat]. unfold chunkSize in *. destruct (Z.le_gt_cases (offset + 16384) (len units)).
    + rewrite IH by lia. unfold slice_from. symmetry. apply slice_split; lia.
    + replace (slice units offset (offset + 16384)) with (slice_from units offset).
      2:{ unfold slice_from, slice. do 2 f_equal. unfold rel_index. zdecide. lia. }
      destruct n as [|n]; cbn [decode_chunks concat]; [by rewrite app_nil_r |].
      zdecide. by rewrite app_nil_r.
Qed.

Lemma decodeUtf16_id units : decodeUtf16 units = units.
Proof.
  unfold decodeUtf16. pose proof (len_nonneg units).
  rewrite decode_chunks_all by (unfold len; lia).
  rewrite slice_from_in by lia. done.
Qed.

Lemma encodeUtf16_id text : Forall is_unit text -> encodeUtf16 text = text.
Proof.
  unfold encodeUtf16. induction 1 as [|c r Hc Hr IH]; [done |]. cbn [map]. rewrite IH. f_equal.
  change 65535 with (Z.ones 16). rewrite Z.land_ones by lia. by apply Z.mod_small.
Qed.

(** ** Programs over a document *)

Inductive edit_op :=
| EdInsert (index : Z) (text : jstring)
| EdDelete (index length : Z)
| EdReplace (from to : Z) (text : jstring).

Inductive doc_op :=
| OpEdit (e : edit_op) (o : TransactOptions)
| OpSetText (text : jstring) (o : TransactOptions)
| OpTransact (body : list edit_op) (o : TransactOptions)
| OpUndo (o : TransactOptions)
| OpRedo (o : TransactOptions)
| OpUpdate (bs : bytes)
| OpSnapshot (bs : bytes)
| OpImport (bs : bytes)
| OpPrune (v : bytes)
| OpDestroy.

(** A listener that applies every change notice to its own copy of the text. *)
Fixpoint replay (ns : list notice) (text : list Z) : res (list Z) :=
  match ns with
  | [] => Ok text
  | NChange edits _ _ :: r => next ← applyTextEdits text edits; replay r next
  | _ :: r => replay r text
  end.

Section Mirror.
Context {C : Type} `{ComponentLaws C}.

Definition run_edit (e : edit_op) (o : TransactOptions) : SE (Doc C) (option bytes) :=
  match e with
  | EdInsert i s => insert i s o
  | EdDelete i n => delete i n o
  | EdReplace f t s => replaceRange f t s o
  end.

Fixpoint run_edits (es : list edit_op) : SE (Doc C) unit :=
  match es with
  | [] => mret tt
  | e :: r => _ ← run_edit e no_options; run_edits r
  end.

Definition run_doc_op (op : doc_op) (d : Doc C) : Doc C :=
  match op with
  | OpEdit e o => (run_edit e o d).1
  | OpSetText s o => (setText s o d).1
  | OpTransact body o => (transact (run_edits body) o d).1
  | OpUndo o => (undo o d).1
  | OpRedo o => (redo o d).1
  | OpUpdate bs => (applyUpdate bs d).1
  | OpSnapshot bs => (applySnapshot bs d).1
  | OpImport bs => (import bs d).1
  | OpPrune v => (pruneHistoryThrough v d).1
  | OpDestroy => destroy d
  end.

Definition run_doc (d : Doc C) (ops : list doc_op) : Doc C :=
  foldl (fun d op => run_doc_op op d) d ops.

Lemma replay_app a b text :
  replay (a ++ b) text = (mid ← replay a text; replay b mid).
Proof.
  revert text. induction a as [|[u|es o l|] a IH]; intros text; [done | apply IH | | apply IH].
  simpl. destruct (applyTextEdits text es) as [next|e]; [apply IH | done].
Qed.

(** A method is a good citizen when, on a live document, the notices it adds
    turn what the listeners saw before into what they should see after. *)
Record tracked (d d' : Doc C) : Prop := {
  tr_live : destroyed d' = false;
  tr_open : c_open (component d) = false -> c_open (component d') = false;
  tr_depth : transactionDepth d' = transactionDepth d;
  tr_notices : exists ns, notices d' = notices d ++ ns /\
    replay ns (c_base (component d)) = Ok (c_base (component d')) }.

Definition tracks {A} (m : SE (Doc C) A) : Prop :=
  forall d d' r, destroyed d = false -> m d = (d', r) -> tracked d d'.

Lemma tracked_refl d : destroyed d = false -> tracked d d.
Proof. intros. split; auto. exists []. by rewrite app_nil_r. Qed.

Lemma tracked_trans a b c : tracked a b -> tracked b c -> tracked a c.
Proof.
  intros [L1 O1 D1 (n1 & N1 & R1)] [L2 O2 D2 (n2 & N2 & R2)]. split; auto; [congruence |].
  exists (n1 ++ n2). rewrite N2, N1, app_assoc. split; [done |].
  rewrite replay_app, R1. exact R2.
Qed.

Lemma tracks_ret {A} (a : A) : tracks (mret a).
Proof. intros d d' r Hd [= <- <-]. by apply tracked_refl. Qed.

Lemma tracks_throw {A} e : tracks (@se_throw _ A e).
Proof. intros d d' r Hd [= <- <-]. by apply tracked_refl. Qed.

Lemma tracks_lift {A} (x : res A) : tracks (se_lift x).
Proof. intros d d' r Hd [= <- <-]. by apply tracked_refl. Qed.

Lemma tracks_read {A} (f : C -> cres A) : tracks (read_c f).
Proof. intros d d' r Hd [= <- <-]. by apply tracked_refl. Qed.

Lemma tracks_bind {A B} (m : SE (Doc C) A) (f : A -> SE (Doc C) B) :
  tracks m -> (forall a, tracks (f a)) -> tracks (m ≫= f).
Proof.
  intros Hm Hf d d' r Hd. unfold mbind, SE_bind.
  destruct (m d) as [d1 [a|e]] eqn:E; intros E'.
  - eapply tracked_trans; [by eapply Hm |]. eapply Hf; [|exact E'].
    by destruct (Hm _ _ _ Hd E).
  - injection E' as <- <-. by eapply Hm.
Qed.

Lemma tracks_assertLive : tracks assertLive.
Proof. intros d d' r Hd. unfold assertLive. rewrite Hd. intros [= <- <-]. by apply tracked_refl. Qed.

(** The listeners' step for one consumed change: the call moved the base, the
    notices move the listeners. *)
Lemma consume_notices d c' change origin :
  destroyed d = false ->
  change_turns (c_base (component d)) change (c_base c') ->
  exists ns r,
    consumeLocalChange change origin (set_component d c') =
      ({| component := c'; transactionDepth := transactionDepth d;
          transactionOrigin := transactionOrigin d; destroyed := false;
          notices := notices d ++ ns |}, Ok r) /\
    replay ns (c_base (component d)) = Ok (c_base c') /\
    r = (lc_update <$> change) /\ ns = match change with
      | None => []
      | Some ch => NLocalUpdate (lc_update ch) ::
          match lc_visibleEdits ch with
          | [] => []
          | _ => [NChange (map mapVisibleEdit (lc_visibleEdits ch)) origin true]
          end ++ [NReplicaChange]
      end.
Proof.
  intros Hd Hc. destruct change as [ch|]; simpl in Hc.
  2:{ exists [], None. unfold consumeLocalChange, mret, SE_ret, set_component.
      rewrite app_nil_r, Hd, Hc. done. }
  destruct Hc as [Hv Ht]. unfold consumeLocalChange.
  rewrite len_map, Hv, Bool.eqb_reflx. cbn [negb].
  eexists _, _. split; [|split; [|split]]; [| | done | done].
  - unfold se_modify, mbind, SE_bind, mret, SE_ret. f_equal.
    unfold emitLocalUpdate, emitReplicaChange, emitChange, emit, set_component.
    destruct (lc_visibleEdits ch); cbn [map component transactionDepth transactionOrigin
      destroyed notices]; rewrite !Hd; by rewrite <- ?app_assoc.
  - unfold turns in Ht. destruct (lc_visibleEdits ch) as [|e es]; [exact Ht |].
    cbn [app replay]. by rewrite Ht.
Qed.

(** A component call whose change is consumed at once. *)
Lemma tracks_call_consume (f : C -> C * cres (option LocalChange)) (origin : option jstring) :
  (forall c c' r, f c = (c', r) ->
     (c_open c = false -> c_open c' = false) /\
     match r with inl ch => change_turns (c_base c) ch (c_base c') | inr _ => c_base c' = c_base c end) ->
  tracks (change ← call_c f; consumeLocalChange change origin).
Proof.
  intros Hf d d' r Hd. unfold mbind, SE_bind, call_c.
  destruct (f (component d)) as [c' x] eqn:E. destruct (Hf _ _ _ E) as [Ho Hx].
  destruct x as [ch|[code m|e]]; cbn [callComponent].
  - destruct (consume_notices d c' ch origin Hd Hx) as (ns & r' & -> & Hr & _ & _).
    intros [= <- <-]. split; eauto.
  - intros [= <- <-]. split; auto. exists []. rewrite app_nil_r. cbn. by rewrite Hx.
  - intros [= <- <-]. split; auto. exists []. rewrite app_nil_r. cbn. by rewrite Hx.
Qed.

(** The end of an outermost transaction: committed, or rolled back. *)
Definition settled (d d' : Doc C) : Prop :=
  destroyed d' = false /\ c_open (component d') = false /\ transactionDepth d' = 0 /\
  exists ns, notices d' = notices d ++ ns /\
    replay ns (c_base (component d)) = Ok (c_base (component d')).

Lemma rollback_settles {A} d e d' (r : res A) :
  destroyed d = false -> transact_rollback e d = (d', r) -> settled d d' /\ r = Throw e.
Proof.
  intros Hd. unfold transact_rollback, se_catch, se_modify, se_throw, mbind, SE_bind, call_c.
  destruct (c_abortTransaction (component (set_depth d 0))) as [c' x] eqn:E.
  apply abort_law in E as [Hb Ho].
  assert (settled d (set_component (set_depth d 0) c')) as Hs.
  { split_and!; [done | exact Ho | done |]. exists []. rewrite app_nil_r. by cbn; rewrite Hb. }
  destruct x as [u|[code m|e']]; cbn [callComponent]; unfold mret, SE_ret; by intros [= <- <-].
Qed.

Lemma commit_settles d d' (r : res (option bytes)) :
  destroyed d = false ->
  (_ ← se_modify (fun d => set_depth d 0);
   change ← call_c c_commitTransaction;
   d ← se_get;
   consumeLocalChange change (transactionOrigin d)) d = (d', r) ->
  match r with
  | Ok _ => settled d d'
  | Throw _ => destroyed d' = false /\ notices d' = notices d /\
               c_base (component d') = c_base (component d)
  end.
Proof.
  intros Hd. unfold se_modify, se_get, mbind, SE_bind, call_c.
  destruct (c_commitTransaction (component (set_depth d 0))) as [c' x] eqn:E.
  apply commit_law in E. destruct x as [ch|[code m|e]]; cbn [callComponent].
  - destruct E as [Ht Ho].
    destruct (consume_notices (set_depth d 0) c' ch (transactionOrigin d) Hd Ht)
      as (ns & r' & Heq & Hr & _). cbn [set_component transactionOrigin set_depth] in *.
    rewrite Heq. intros [= <- <-]. split_and!; eauto.
  - by intros [= <- <-].
  - by intros [= <- <-].
Qed.

Lemma settled_from d d1 d' :
  tracked d d1 -> settled d1 d' -> settled d d'.
Proof.
  intros [L1 O1 D1 (n1 & N1 & R1)] (L & O & D & n2 & N2 & R2). split_and!; auto.
  exists (n1 ++ n2). rewrite N2, N1, app_assoc. split; [done |]. by rewrite replay_app, R1.
Qed.

Lemma guarded_settles {A} (cb : SE (Doc C) A) d d' r :
  tracks cb -> destroyed d = false -> transact_guarded cb d = (d', r) -> settled d d'.
Proof.
  intros Hcb Hd. unfold transact_guarded.
  destruct (se_catch _ _ d) as [d2 r2] eqn:E. intros [= <- <-].
  cut (settled d d2); [done |]. revert E. unfold se_catch, transact_body.
  unfold mbind at 1, SE_bind at 1. destruct (cb d) as [d1 [v|e]] eqn:Ecb.
  2:{ intros E. pose proof (Hcb _ _ _ Hd Ecb) as Ht. eapply settled_from; [exact Ht |].
      eapply rollback_settles; [apply Ht | exact E]. }
  pose proof (Hcb _ _ _ Hd Ecb) as Ht. pose proof (tr_live _ _ Ht) as Hl.
  set (commit := _ ← se_modify _; _). intros E.
  destruct ((_ ← se_modify (fun d => set_depth d 0);
             change ← call_c c_commitTransaction;
             d ← se_get;
             consumeLocalChange change (transactionOrigin d)) d1) as [d3 r3] eqn:Ec.
  pose proof (commit_settles _ _ _ Hl Ec) as Hc.
  assert (commit d1 = match r3 with Ok _ => (d3, Ok v) | Throw e => (d3, Throw e) end) as Hcm.
  { subst commit. revert Ec. unfold se_modify, se_get, mbind, SE_bind, mret, SE_ret.
    destruct (call_c c_commitTransaction _) as [d4 [ch|e]]; [|by intros [= <- <-]].
    destruct (consumeLocalChange _ _ _) as [d5 [o|e]]; by intros [= <- <-]. }
  rewrite Hcm in E. destruct r3 as [o|e].
  - injection E as <- <-. by eapply settled_from.
  - destruct Hc as (Hl3 & Hn3 & Hb3). eapply settled_from; [exact Ht |].
    destruct (rollback_settles _ _ _ _ Hl3 E) as [(L & O & D & ns & N & R) _].
    split_and!; auto. exists ns. by rewrite N, Hn3, <- Hb3.
Qed.

Lemma transact_settles {A} (cb : SE (Doc C) A) o d d' r :
  tracks cb -> destroyed d = false -> transactionDepth d = 0 ->
  c_open (component d) = false -> transact cb o d = (d', r) -> settled d d'.
Proof.
  intros Hcb Hd Hz Hop. unfold transact, assertLive, se_get. unfold mbind at 1, SE_bind at 1.
  rewrite Hd. unfold mbind at 1, SE_bind at 1. rewrite Hz. cbn [Z.ltb Z.compare].
  assert (settled d d) as Hrefl.
  { split_and!; auto. exists []. by rewrite app_nil_r. }
  unfold transact_outer, se_lift. unfold mbind at 1, SE_bind at 1.
  destruct (normalizeUndoGroup (o_undoGroup o)) as [g|e]; [|by intros [= <- <-]].
  unfold mbind at 1, SE_bind at 1, call_c.
  destruct (c_beginTransaction (component d) g) as [c' x] eqn:E.
  apply begin_law in E as [Hb Ho]. specialize (Ho Hop).
  destruct x as [u|[code m|e]]; cbn [callComponent].
  - unfold se_modify, mbind, SE_bind. intros E.
    apply guarded_settles in E; [|done|done]. destruct E as (L & O & D & ns & N & R).
    split_and!; auto. exists ns. split; [exact N |]. cbn in R. by rewrite <- Hb.
  - intros [= <- <-]. split_and!; auto. exists []. rewrite app_nil_r. cbn. by rewrite Hb.
  - intros [= <- <-]. split_and!; auto. exists []. rewrite app_nil_r. cbn. by rewrite Hb.
Qed.

Lemma tracks_replaceRange f t s o : tracks (replaceRange f t s o).
Proof.
  unfold replaceRange. apply tracks_bind; [apply tracks_assertLive | intros _].
  apply tracks_bind; [apply tracks_lift | intros i].
  apply tracks_bind; [apply tracks_lift | intros j].
  apply tracks_bind; [apply tracks_lift | intros g].
  apply tracks_call_consume. intros c c' r E%replace_law.
  destruct r as [ch|e]; [destruct E as (? & -> & ?); auto | destruct E; auto].
Qed.

Lemma tracks_run_edit e o : tracks (run_edit e o).
Proof.
  destruct e; [apply tracks_replaceRange | | apply tracks_replaceRange].
  unfold run_edit, delete.
  apply tracks_bind; [apply tracks_lift | intros i].
  apply tracks_bind; [apply tracks_lift | intros n].
  destruct (_ <? _); [apply tracks_throw | apply tracks_replaceRange].
Qed.

Lemma tracks_run_edits es : tracks (run_edits es).
Proof.
  induction es as [|e r IH]; [apply tracks_ret |].
  apply tracks_bind; [apply tracks_run_edit | intros _; exact IH].
Qed.

Lemma tracks_undo o : tracks (undo o).
Proof.
  apply tracks_bind; [apply tracks_assertLive | intros _]. apply tracks_call_consume.
  intros c c' r [Ho Hr]%undo_law. split; [congruence | done].
Qed.

Lemma tracks_redo o : tracks (redo o).
Proof.
  apply tracks_bind; [apply tracks_assertLive | intros _]. apply tracks_call_consume.
  intros c c' r [Ho Hr]%redo_law. split; [congruence | done].
Qed.

(** A remote artifact: the call, the receipt check, the notices. *)
Lemma tracks_receipt (f : C -> C * cres ComponentReceipt) msg :
  (forall c c' r, f c = (c', r) -> c_open c' = c_open c /\
     match r with inl x => receipt_turns (c_base c) x (c_base c') | inr _ => c_base c' = c_base c end) ->
  tracks (_ ← assertLive; raw ← call_c f; receipt ← se_lift (mapReceipt msg raw);
          _ ← se_modify (notify_receipt receipt); mret receipt).
Proof.
  intros Hf. apply tracks_bind; [apply tracks_assertLive | intros _].
  intros d d' r Hd. unfold mbind, SE_bind, call_c, se_lift, se_modify, mret, SE_ret.
  destruct (f (component d)) as [c' x] eqn:E. destruct (Hf _ _ _ E) as [Ho Hx].
  destruct x as [x|[code m|e]]; cbn [callComponent].
  - destruct Hx as [Hv Ht]. unfold mapReceipt. rewrite len_map, Hv, Bool.eqb_reflx. cbn [negb].
    intros [= <- <-]. unfold notify_receipt, emitReplicaChange, emitChange, emit. cbn [rc_visibleEdits].
    unfold turns in Ht.
    destruct (cr_visibleEdits x) as [|v vs] eqn:Ev; cbn; rewrite !Hd; (split; cbn; [done | congruence | done |]).
    + exists [NReplicaChange]. split; [done | exact Ht].
    + exists ([NChange (mapVisibleEdit v :: map mapVisibleEdit vs) None false] ++ [NReplicaChange]).
      rewrite app_assoc. split; [done |]. cbn [app replay]. cbn [map] in Ht. by rewrite Ht.
  - intros [= <- <-]. split; cbn; [done | congruence | done |].
    exists []. rewrite app_nil_r. by rewrite Hx.
  - intros [= <- <-]. split; cbn; [done | congruence | done |].
    exists []. rewrite app_nil_r. by rewrite Hx.
Qed.

Lemma tracks_applyUpdate bs : tracks (applyUpdate bs).
Proof. apply tracks_receipt. intros c c' r E. exact (applyUpdate_law _ _ _ _ E). Qed.

Lemma tracks_applySnapshot bs : tracks (applySnapshot bs).
Proof. apply tracks_receipt. intros c c' r E. exact (applySnapshot_law _ _ _ _ E). Qed.

Lemma tracks_import bs : tracks (import bs).
Proof.
  apply tracks_bind; [apply tracks_lift | intros k].
  destruct k; first [apply tracks_applyUpdate | apply tracks_applySnapshot | apply tracks_throw].
Qed.

Lemma tracks_prune v : tracks (pruneHistoryThrough v).
Proof.
  apply tracks_bind; [apply tracks_assertLive | intros _]. intros d d' r Hd. unfold call_c.
  destruct (c_pruneHistoryThrough (component d) v) as [c' x] eqn:E.
  apply prune_law in E as [Hb Ho]. intros [= <- <-]. split; cbn; [done | congruence | done |].
  exists []. rewrite app_nil_r. by rewrite Hb.
Qed.

Lemma tracks_setText s o : tracks (setText s o).
Proof.
  apply tracks_bind; [|intros n; apply tracks_replaceRange].
  apply tracks_bind; [apply tracks_assertLive | intros _; apply tracks_read].
Qed.

(** Once destroyed, nothing changes the component or reaches a listener. *)
Lemma destroyed_inert op d :
  destroyed d = true -> component (run_doc_op op d) = component d /\
  notices (run_doc_op op d) = notices d /\ transactionDepth (run_doc_op op d) = transactionDepth d.
Proof.
  intros Hd. assert (forall f t s o, replaceRange f t s o d =
    (d, esbt_error 24 "esbt: document has been destroyed")) as Hr.
  { intros. unfold replaceRange, mbind, SE_bind, assertLive. by rewrite Hd. }
  destruct op; cbn [run_doc_op];
    try (unfold setText, length_, transact, undo, redo, applyUpdate, applySnapshot, import,
           pruneHistoryThrough, mbind, SE_bind, se_lift, assertLive; rewrite ?Hd; done).
  - destruct e; cbn [run_edit]; unfold insert; rewrite ?Hr; try done.
    unfold delete, mbind, SE_bind, se_lift.
    destruct (checkedIndex index); [|done]. destruct (checkedIndex length); [|done].
    destruct (_ <? _); [done |]. by rewrite Hr.
  - unfold import, mbind, SE_bind, se_lift. destruct (callComponent (c_classifyArtifact bs)) as [k|e]; [|done].
    destruct k; unfold applyUpdate, applySnapshot, mbind, SE_bind, assertLive; by rewrite ?Hd.
Qed.

(** What holds of a document between two operations. *)
Definition rested (start : list Z) (d : Doc C) : Prop :=
  transactionDepth d = 0 /\ c_open (component d) = false /\
  replay (notices d) start = Ok (c_text (component d)).

Lemma tracked_rested start d d' : rested start d -> tracked d d' -> rested start d'.
Proof.
  intros (Hz & Ho & Hr) [L O D (ns & N & R)]. specialize (O Ho).
  split_and!; [congruence | done |]. rewrite N, replay_app, Hr. simpl.
  by rewrite base_closed, base_closed in R.
Qed.

Lemma run_doc_op_rested start d op : rested start d -> rested start (run_doc_op op d).
Proof.
  intros Hr. destruct (destroyed d) eqn:Hd.
  { destruct (destroyed_inert op d Hd) as (Hc & Hn & Hz). destruct Hr as (Hz' & Ho & Hr).
    split_and!; [congruence | by rewrite Hc | by rewrite Hn, Hc]. }
  assert (forall A (m : SE (Doc C) A), tracks m -> rested start (m d).1) as Ht.
  { intros A m Hm. destruct (m d) as [d' r] eqn:E. by eapply tracked_rested, Hm. }
  destruct op; cbn [run_doc_op];
    try (apply Ht; first [apply tracks_run_edit | apply tracks_setText | apply tracks_undo
      | apply tracks_redo | apply tracks_applyUpdate | apply tracks_applySnapshot
      | apply tracks_import | apply tracks_prune]); [| exact Hr].
  destruct (transact _ _ d) as [d' r] eqn:E. destruct Hr as (Hz & Ho & Hr).
  apply transact_settles in E; [| apply tracks_run_edits | done | done | done].
  destruct E as (L & O & D & ns & N & R). split_and!; [done | done |]. cbn [fst].
  rewrite N, replay_app, Hr. simpl. by rewrite base_closed, base_closed in R.
Qed.

(** C5. A listener never drifts from the replica: after any sequence of edits,
    transactions (committed or failed), undo and redo, remote updates,
    snapshots and prunings, a listener that applied every change notice to the
    initial text holds exactly the document's text. *)
Theorem notices_mirror_text c ops :
  c_open c = false ->
  replay (notices (run_doc (new_document c) ops)) (c_text c)
    = Ok (c_text (component (run_doc (new_document c) ops))).
Proof.
  intros Hc. assert (rested (c_text c) (new_document c)) as Hnew by done.
  unfold run_doc. revert Hnew. generalize (new_document c) as d.
  induction ops as [|op r IH]; intros d Hd; [apply Hd |]. apply IH. by apply run_doc_op_rested.
Qed.

(** ** Transactions are all or nothing *)

(** Inside a transaction a method notifies nobody. *)
Definition quiet {A} (m : SE (Doc C) A) : Prop :=
  forall d d' r, destroyed d = false -> c_open (component d) = true -> m d = (d', r) ->
  destroyed d' = false /\ notices d' = notices d /\ transactionOrigin d' = transactionOrigin d /\
  (is_Ok r = true -> c_open (component d') = true).

Lemma quiet_lift {A} (x : res A) : quiet (se_lift x).
Proof. intros d d' r Hd Ho [= <- <-]. auto. Qed.

Lemma quiet_bind {A B} (m : SE (Doc C) A) (f : A -> SE (Doc C) B) :
  quiet m -> (forall a, quiet (f a)) -> quiet (m ≫= f).
Proof.
  intros Hm Hf d d' r Hd Ho. unfold mbind, SE_bind.
  destruct (m d) as [d1 [a|e]] eqn:E; destruct (Hm _ _ _ Hd Ho E) as (L & N & O & K); intros E'.
  - destruct (Hf a _ _ _ L (K eq_refl) E') as (L' & N' & O' & K'). split_and!; [done | congruence | congruence | exact K'].
  - injection E' as <- <-. auto.
Qed.

Lemma quiet_assertLive : quiet assertLive.
Proof. intros d d' r Hd Ho. unfold assertLive. rewrite Hd. intros [= <- <-]. auto. Qed.

Lemma quiet_replaceRange f t s o : quiet (replaceRange f t s o).
Proof.
  unfold replaceRange. apply quiet_bind; [apply quiet_assertLive | intros _].
  apply quiet_bind; [apply quiet_lift | intros i].
  apply quiet_bind; [apply quiet_lift | intros j].
  apply quiet_bind; [apply quiet_lift | intros g].
  intros d d' r Hd Ho. unfold mbind, SE_bind, call_c.
  destruct (c_replace (component d) i j (encodeUtf16 s) g) as [c' x] eqn:E.
  apply replace_law in E. destruct x as [ch|[code m|e]]; cbn [callComponent].
  - destruct E as (_ & Ho' & Hn). rewrite (Hn Ho). unfold consumeLocalChange, mret, SE_ret.
    intros [= <- <-]. cbn. split_and!; [done | done | done | congruence].
  - by intros [= <- <-].
  - by intros [= <- <-].
Qed.

Lemma quiet_run_edits es : quiet (run_edits es).
Proof.
  induction es as [|e r IH]; [by intros d d' x Hd Ho [= <- <-] |].
  apply quiet_bind; [|intros _; exact IH].
  destruct e; [apply quiet_replaceRange | | apply quiet_replaceRange]. unfold run_edit, delete.
  apply quiet_bind; [apply quiet_lift | intros i].
  apply quiet_bind; [apply quiet_lift | intros n].
  destruct (_ <? _); [by intros d d' x Hd Ho [= <- <-] | apply quiet_replaceRange].
Qed.

(** The notices of one committed change. *)
Definition commit_notices (change : option LocalChange) (origin : option jstring) : list notice :=
  match change with
  | None => []
  | Some ch => NLocalUpdate (lc_update ch) ::
      match lc_visibleEdits ch with
      | [] => []
      | _ => [NChange (map mapVisibleEdit (lc_visibleEdits ch)) origin true]
      end ++ [NReplicaChange]
  end.

Lemma rollback_notices {A} d e d' (r : res A) :
  transact_rollback e d = (d', r) -> notices d' = notices d /\ r = Throw e.
Proof.
  unfold transact_rollback, se_catch, se_modify, se_throw, mbind, SE_bind, call_c.
  destruct (c_abortTransaction (component (set_depth d 0))) as [c' x].
  destruct x as [u|[code m|e']]; cbn [callComponent]; unfold mret, SE_ret; by intros [= <- <-].
Qed.

Lemma guarded_notices {A} (cb : SE (Doc C) A) d d' r :
  quiet cb -> destroyed d = false -> c_open (component d) = true ->
  transact_guarded cb d = (d', r) ->
  exists change, notices d' = notices d ++ commit_notices change (transactionOrigin d) /\
    (is_Ok r = false -> change = None).
Proof.
  intros Hcb Hd Ho. unfold transact_guarded.
  destruct (se_catch _ _ d) as [d2 r2] eqn:E. intros [= <- <-].
  cut (exists change, notices d2 = notices d ++ commit_notices change (transactionOrigin d) /\
    (is_Ok r2 = false -> change = None)); [done |]. revert E.
  unfold se_catch, transact_body, mbind, SE_bind.
  destruct (cb d) as [d1 [v|e]] eqn:Ecb; destruct (Hcb _ _ _ Hd Ho Ecb) as (L & N & O & K).
  2:{ intros [-> ->]%rollback_notices. exists None. by rewrite app_nil_r. }
  unfold se_modify, se_get, call_c.
  destruct (c_commitTransaction (component (set_depth d1 0))) as [c' x] eqn:Ec.
  apply commit_law in Ec. destruct x as [ch|[code m|e]]; cbn [callComponent].
  - destruct Ec as [Ht _].
    destruct (consume_notices (set_depth d1 0) c' ch (transactionOrigin d1) L Ht)
      as (ns & r' & Heq & _ & _ & Hns). cbn [set_component transactionOrigin set_depth] in *.
    rewrite Heq. unfold mret, SE_ret. intros [= <- <-]. exists ch. cbn [notices].
    rewrite N, Hns, O. by destruct ch.
  - intros [-> ->]%rollback_notices. exists None. cbn. by rewrite app_nil_r.
  - intros [-> ->]%rollback_notices. exists None. cbn. by rewrite app_nil_r.
Qed.

(** What listeners hear from an outermost transaction. *)
Lemma transact_notices {A} (cb : SE (Doc C) A) o d d' r :
  quiet cb -> destroyed d = false -> transactionDepth d = 0 -> c_open (component d) = false ->
  transact cb o d = (d', r) ->
  exists change, notices d' = notices d ++ commit_notices change (o_origin o) /\
    (is_Ok r = false -> change = None).
Proof.
  intros Hcb Hd Hz Ho.
  unfold transact, assertLive, se_get. unfold mbind at 1, SE_bind at 1.
  rewrite Hd. unfold mbind at 1, SE_bind at 1. rewrite Hz. cbn [Z.ltb Z.compare].
  unfold transact_outer, se_lift. unfold mbind at 1, SE_bind at 1.
  destruct (normalizeUndoGroup (o_undoGroup o)) as [g|e].
  2:{ intros [= <- <-]. exists None. by rewrite app_nil_r. }
  unfold mbind at 1, SE_bind at 1, call_c.
  destruct (c_beginTransaction (component d) g) as [c' x] eqn:Eb.
  apply begin_law in Eb as [_ Ho']. specialize (Ho' Ho).
  destruct x as [u|[code m|e]]; cbn [callComponent].
  2,3: intros [= <- <-]; exists None; by rewrite app_nil_r.
  unfold se_modify, mbind, SE_bind. intros E.
  apply guarded_notices in E as (change & Hn & Hc); [| exact Hcb | done | done].
  by exists change.
Qed.

End Mirror.

(** ** Sites *)

Lemma forallb_hex_padded n z : 0 <= z -> forallb is_hex (hex_padded n z) = true.
Proof. intros. by apply hex_padded_ok. Qed.

Lemma fold_site_hex cs : forallb is_hex cs = true -> fold_site cs = cs.
Proof.
  unfold fold_site. induction cs as [|c r IH]; [done |]. cbn [forallb List.filter].
  intros [Hc Hr]%andb_true_iff. unfold is_hex in Hc.
  apply orb_true_iff in Hc as [Hc|Hc]; reflect_bools; zdecide; cbn [map]; zdecide; by rewrite IH.
Qed.

Lemma siteToHex_split value :
  0 <= value -> siteToHex {| low := Z.land value U64_MAX; high := Z.shiftr value 64 |} = hex_padded 32 value.
Proof.
  intros Hv. unfold siteToHex. cbn [low high]. f_equal.
  change U64_MAX with (Z.ones 64). rewrite Z.land_ones, Z.shiftr_div_pow2, Z.shiftl_mul_pow2 by lia.
  rewrite <- (Z.shiftl_mul_pow2 _ 64) by lia.
  apply Z.bits_inj'. intros i Hi. rewrite Z.lor_spec, Z.shiftl_spec by lia.
  destruct (Z.ltb_spec i 64).
  - rewrite Z.testbit_neg_r by lia. by rewrite Z.mod_pow2_bits_low.
  - rewrite Z.mod_pow2_bits_high by lia. rewrite orb_false_r.
    rewrite <- Z.shiftr_div_pow2, Z.shiftr_spec by lia. f_equal. lia.
Qed.

(** A room site survives the trip through the engine: a decimal site that
    is a nonzero u32 widens to a 128-bit id which document creation accepts
    and reports back unchanged, and narrowing that report gives the same
    decimal string; every other site string is refused before an engine id is
    made. *)
Theorem marks_site_roundtrip site :
  match marksSiteToEngine site with
  | Ok hex =>
      is_decimal site = true /\ 1 <= dec_number site <= MARKS_SITE_MAX /\
      (exists s, normalizeSiteId (SiteText hex) = Ok s /\ siteToHex s = hex) /\
      engineSiteToMarks hex = Ok site
  | Throw _ => is_decimal site = false \/ MARKS_SITE_MAX < dec_number site
  end.
Proof.
  unfold marksSiteToEngine, parseMarksSite. destruct (is_decimal site) eqn:Ed; [|by left].
  unfold mbind, res_bind. destruct (dec_digits_number site Ed) as [_ Hpos].
  destruct (_ || _) eqn:Eb; [right; apply orb_true_iff in Eb as [?|?]; reflect_bools; lia |].
  reflect_bools. set (value := dec_number site) in *. unfold MARKS_SITE_MAX in *.
  assert (hex_number (hex_padded 32 value) = value) as Hn.
  { apply hex_number_padded. change (16 ^ Z.of_nat 32) with (2 ^ 128). lia. }
  split_and!; [done | lia | lia | |].
  - exists {| low := Z.land value U64_MAX; high := Z.shiftr value 64 |}.
    split; [|apply siteToHex_split; lia].
    unfold normalizeSiteId, site_value. rewrite fold_site_hex by (apply forallb_hex_padded; lia).
    destruct (hex_padded_ok 32 value) as [Hh Hl]; [lia |]. rewrite Hl, Hh. cbn [andb].
    change (Z.of_nat 32 =? 32) with true. cbn [andb].
    unfold mbind, res_bind. rewrite Hn.
    change U128_MAX with 340282366920938463463374607431768211455. by zdecide.
  - unfold engineSiteToMarks. rewrite Hn. unfold MARKS_SITE_MAX. zdecide.
    subst value. by rewrite decimal_dec_number.
Qed.

(** ** A concrete component

    A plain text buffer that keeps the interface's promises: its updates are
    the inserted units, snapshots carry a whole text. *)
Module Buffer.

Record buf := { text : list Z; base : option (list Z) }.

Definition edit_of (f t : Z) (s : list Z) : VisibleEdit := {| v_from := f; v_to := t; v_inserted := s |}.

Definition change_of (old new : list Z) : LocalChange :=
  {| lc_update := new; lc_visibleChanged := true; lc_visibleEdits := [edit_of 0 (len old) new] |}.

Definition fits (l : list Z) : bool := len l <=? MAX_SAFE_INTEGER.

Definition splice (l : list Z) (f t : Z) (s : list Z) : list Z := slice l 0 f ++ s ++ slice_from l t.

Definition replace (b : buf) (f t : Z) (s : list Z) (g : option Z) : buf * cres (option LocalChange) :=
  if (t <? f) || (len (text b) <? t) then (b, inr (Payload 7 "out of range"))
  else let new := splice (text b) f t s in
       if negb (fits (text b)) then (b, inr (Payload 15 "too large"))
       else match base b with
            | Some _ => ({| text := new; base := base b |}, inl None)
            | None => ({| text := new; base := None |}, inl (Some (change_of (text b) new)))
            end.

Definition is_open (b : buf) : bool := match base b with Some _ => true | None => false end.

Definition begin (b : buf) (g : option Z) : buf * cres unit :=
  match base b with
  | Some _ => (b, inr (Payload 22 "transaction already active"))
  | None => ({| text := text b; base := Some (text b) |}, inl tt)
  end.

Definition commit (b : buf) : buf * cres (option LocalChange) :=
  match base b with
  | None => (b, inr (Payload 23 "no active transaction"))
  | Some old =>
      if bool_decide (old = text b) then ({| text := text b; base := None |}, inl None)
      else if negb (fits old) then (b, inr (Payload 15 "too large"))
      else ({| text := text b; base := None |}, inl (Some (change_of old (text b))))
  end.

Definition abort (b : buf) : buf * cres unit :=
  match base b with
  | None => (b, inr (Payload 23 "no active transaction"))
  | Some old => ({| text := old; base := None |}, inl tt)
  end.

Definition receive (b : buf) (bs : bytes) : buf * cres ComponentReceipt :=
  match base b with
  | Some _ => (b, inr (Payload 22 "transaction already active"))
  | None =>
      if negb (fits (text b)) then (b, inr (Payload 15 "too large"))
      else ({| text := bs; base := None |},
            inl {| cr_version := []; cr_visibleChanged := true;
                   cr_visibleEdits := [edit_of 0 (len (text b)) bs]; cr_journal := None |})
  end.

#[export] Instance buffer_component : Component buf := {
  c_length b := len (text b);
  c_text b := text b;
  c_version b := [];
  c_historyFloor b := [];
  c_pendingOperations b := 0;
  c_retainedOperations b := 0;
  c_currentDmax b := 16;
  c_beginTransaction := begin;
  c_commitTransaction := commit;
  c_abortTransaction := abort;
  c_replace := replace;
  c_undo b := (b, inl None);
  c_redo b := (b, inl None);
  c_canUndo b := false;
  c_canRedo b := false;
  c_applyUpdate := receive;
  c_applySnapshot := receive;
  c_exportUpdate b v := inl (text b);
  c_exportCompactSnapshot b := inl (text b);
  c_exportFullSnapshot b := inl (text b);
  c_pruneHistoryThrough b v := (b, inl 0);
  c_anchor b i a := inl [i];
  c_resolveAnchor b a := inl (Z.max 0 (hd 0 a));
  c_captureCausalPosition b i a := inl [i];
  c_resolveCausalPosition b p := inl (Some (hd 0 p));
  c_classifyArtifact bs := inl KUpdate }.

Lemma change_of_turns old new :
  fits old = true -> change_turns old (Some (change_of old new)) new.
Proof.
  intros Hf. unfold fits in Hf. apply Z.leb_le in Hf. split; [done |].
  unfold turns, change_of, edit_of, mapVisibleEdit. cbn [lc_visibleEdits map v_from v_to v_inserted].
  rewrite decodeUtf16_id. cbn [applyTextEdits]. unfold applyTextEdit.
  pose proof (len_nonneg old).
  rewrite (proj2 (edit_ok_spec (len old) {| from := 0; to := len old; TextChange.insert := new |}
    (conj H Hf))) by (cbn; lia).
  cbn [negb from to TextChange.insert].
  rewrite slice_0, slice_from_in by lia. cbn. unfold len. rewrite Nat2Z.id, drop_ge by lia.
  by rewrite app_nil_r.
Qed.

Lemma receive_turns b bs b' r :
  receive b bs = (b', r) ->
  is_open b' = is_open b /\
  match r with
  | inl x => receipt_turns (default (text b) (base b)) x (default (text b') (base b'))
  | inr _ => default (text b') (base b') = default (text b) (base b)
  end.
Proof.
  unfold receive, is_open. destruct (base b) eqn:Eb; [intros [= <- <-]; by rewrite Eb |].
  destruct (fits (text b)) eqn:Ef; cbn [negb]; [|intros [= <- <-]; by rewrite Eb].
  intros [= <- <-]. split; [done |]. split; [done |].
  destruct (change_of_turns (text b) bs Ef) as [_ Ht]. exact Ht.
Qed.

#[export] Program Instance buffer_laws : ComponentLaws buf := {
  c_open := is_open;
  c_base b := default (text b) (base b) }.
Next Obligation. intros b. cbn. unfold is_open. by destruct (base b). Qed.
Next Obligation.
  intros b g b' r. cbn. unfold is_open. unfold begin. destruct (base b) eqn:E; intros [= <- <-]; split; cbn; rewrite ?E; done.
Qed.
Next Obligation.
  intros b f t s g b' r. cbn. unfold is_open. unfold replace.
  destruct (_ || _); [intros [= <- <-]; done |].
  destruct (fits (text b)) eqn:Ef; cbn [negb]; [|by intros [= <- <-]].
  destruct (base b) eqn:E; intros [= <- <-]; cbn; [by rewrite ?E |].
  split; [by apply change_of_turns | done].
Qed.
Next Obligation.
  intros b b' r. cbn. unfold is_open. unfold commit. destruct (base b) as [old|] eqn:E; [|intros [= <- <-]; by rewrite E].
  destruct (bool_decide (old = text b)) eqn:Ed.
  - apply bool_decide_eq_true in Ed. intros [= <- <-]. by subst.
  - destruct (fits old) eqn:Ef; cbn [negb]; [|intros [= <- <-]; by rewrite E].
    intros [= <- <-]. cbn. unfold is_open. split; [by apply change_of_turns | done].
Qed.
Next Obligation.
  intros b b' r. cbn. unfold is_open. unfold abort. destruct (base b) eqn:E; intros [= <- <-]; cbn; rewrite ?E; done.
Qed.
Next Obligation. intros b b' r. cbn. unfold is_open. by intros [= <- <-]. Qed.
Next Obligation. intros b b' r. cbn. unfold is_open. by intros [= <- <-]. Qed.
Next Obligation. intros b bs b' r. cbn. apply receive_turns. Qed.
Next Obligation. intros b bs b' r. cbn. apply receive_turns. Qed.
Next Obligation. intros b v b' r. cbn. unfold is_open. by intros [= <- <-]. Qed.

Definition start : buf := {| text := lit "hello"; base := None |}.
Definition named (o : string) : TransactOptions := {| o_origin := Some (lit o); o_undoGroup := Some 1 |}.

(** The second transaction deletes past the end: its body throws. *)
Definition demo_ops : list doc_op :=
  [OpTransact [EdDelete 0 1; EdInsert 0 (lit "j")] (named "editor");
   OpTransact [EdInsert 0 (lit "lost"); EdDelete 3 90] (named "editor");
   OpUpdate (lit "remote"); OpEdit (EdInsert 6 (lit "!")) (named "session")].

Example demo_text : c_text (component (run_doc (new_document start) demo_ops)) = lit "remote!".
Proof. vm_compute. reflexivity. Qed.

Lemma notices_mirror_text_witness :
  replay (notices (run_doc (new_document start) demo_ops)) (lit "hello") = Ok (lit "remote!").
Proof.
  refine (eq_trans (notices_mirror_text start demo_ops eq_refl) _).
  vm_compute. reflexivity.
Defined.

End Buffer.
