(* ===== verification/EngineState.v ===== *)
(** The state of the collaboration engine ([client/src/collab/esbt-engine.ts]):
    the fields of [EsbtEngine], and the part of the page they live in - armed
    timers, clocks, the journal database with the document's lock lane, sockets
    and admission requests. *)

From S2P Require Import Prelude Timers TextChange Bytes JsValue Protocol PresenceStore PresenceActivity Journal EsbtDocument.

Inductive ConnectionStatus := Connecting | Saving | Connected | Offline.

#[global] Instance ConnectionStatus_eq_dec : EqDecision ConnectionStatus.
Proof. solve_decision. Defined.

Record LocalUser := { u_name : jstring; u_colorIndex : Z; u_id : jstring }.

Record Notice := { n_code : Z; n_message : string }.

(** What [client/src/auth/room-access.ts] hands over; the room address and the
    secret play no part here. *)
Record RoomTicket := { t_siteId : jstring; t_role : option Role; t_scratch : bool }.

Record DocumentCapabilities := {
  cap_role : option Role; edit : bool; comment : bool; saveVersion : bool; manageShares : bool }.

Record Counters := {
  received : Z; sent : Z; snapshotBytes : Z; lastUpdateBytes : Z; retained : Z;
  pendingOps : Z; historyFloorBytes : Z; dmax : Z }.

Inductive ReadyState := CONNECTING | OPEN | CLOSING | CLOSED.

#[global] Instance ReadyState_eq_dec : EqDecision ReadyState.
Proof. solve_decision. Defined.

(** A WebSocket as the page sees it: its state, and whether [send] would throw. *)
Record SocketState := { readyState : ReadyState; sendThrows : bool }.

(** The callbacks the engine gives to [setTimeout] and [setInterval]. *)
Inductive timer_kind :=
| TReconnect | TGrace | TSocketDeadline (socket : Z) | TSocketError (socket : Z)
| TSave | TMarkdown | TSnapshotReply | THeartbeat | TWaiter (waiter : Z) | TRelease.

(** ** Journal work in flight

    A request waits in the document's lock lane, runs there, and then resumes
    the method that awaits it. *)
Inductive after_checkpoint := Plain | EndMaintenance | ReleaseReplica.

Inductive job :=
| JobAppend (fallback : ReplicaJournalRecord) (m : JournalMutation) (broadcastTab : bool)
| JobAcknowledge (fallback : ReplicaJournalRecord) (id : jstring) (version : bytes) (revision : Z)
    (server : bool)
| JobCheckpoint (fallback : ReplicaJournalRecord) (after : after_checkpoint)
| JobArchive (fallback : ReplicaJournalRecord).

(** ** What the engine does to the outside, in order *)
Inductive effect :=
| Sent (socket : Z) (message : bytes)
| Opened (socket : Z) (vv : option bytes)
| CloseCalled (socket : Z)
| AdmissionRequested (controller : Z) (siteId : option jstring)
| StatusChanged (st : ConnectionStatus)
| EditableChanged (editable : bool)
| Changed (edits : list TextEdit) (origin : option jstring) (local : bool)
| ErrorReported (n : Notice)
| Resolved (waiter : Z)
| Rejected (waiter : Z)
| Hydrated
| TabHello | TabRequestSnapshot
| TabUpdate (bs : bytes)
| TabSnapshot (bs : bytes)
| MarkdownWritten (text : jstring)
| JournalRequested (j : job)
| JournalSettled (j : job) (stored : bool).

(** ** What the engine needs from its collaborators *)

(** The presence store, as the engine uses it. *)
Class Presence (P : Type) := {
  p_begin : P -> bytes -> P;
  p_encodeAll : P -> Z -> P * res bytes;
  p_apply : P -> Z -> bytes -> P;
  p_set : P -> Z -> jstring -> jsval -> P * res (list output);
  p_delete : P -> Z -> jstring -> P * res (list output);
  p_subscribe : P -> P;
  p_destroy : P -> P }.

#[export] Instance store_presence `{JSON} : Presence Store := {
  p_begin := beginConnectionLifecycle;
  p_encodeAll := PresenceStore.encodeAll;
  p_apply s now bs := (PresenceStore.apply s now bs).1;
  p_set := PresenceStore.set;
  p_delete := PresenceStore.delete;
  p_subscribe := PresenceStore.subscribeLocalUpdates;
  p_destroy := PresenceStore.destroy }.

(** The platform's randomness: the [n]-th draw. *)
Class Randomness := {
  random_bytes : Z -> bytes;         (* crypto.getRandomValues *)
  random_unit : Z -> Q }.            (* Math.random *)

(** ** The engine *)

Record Engine (C P : Type) := mkEngine {
  docId : jstring;
  access : bool;
  user : LocalUser;
  replica : option (Doc C);
  doc_bound : bool;
  ephemeral : P;
  activity : Controller;
  socket : option Z;
  admissionAbort : option Z;
  reconnectDelay : Q;
  reconnectTimer : option Z;
  graceDeadline : Q;
  graceTimer : option Z;
  presenceHeartbeat : option Z;
  snapshotReplyTimer : option Z;
  lastServerVV : option bytes;
  lastAckedVersion : option bytes;
  committedRevision : Z;
  lastPruneAt : Z;
  pendingTicket : option RoomTicket;
  permissionRole : option Role;
  destroyed : bool;
  isHydrated : bool;
  localSaved : bool;
  serverSynced : bool;
  pendingMutations : list (jstring * JournalMutation);
  marksSiteId : jstring;
  currentStatus : ConnectionStatus;
  counters : Counters;
  saveTimer : option Z;
  markdownTimer : option Z;
  socketDeadlineTimer : option Z;
  socketDeadlineTarget : option Z;
  socketErrorCloseTimer : option Z;
  socketErrorCloseTarget : option Z;
  durabilityWaiters : list (Z * Z);
  storageError : option Notice;
  terminalError : option Notice;
  storageFatal : bool;
  historyMaintenance : bool;
  clock : timers timer_kind;
  wall : Z;
  mono : Q;
  db : database;
  queue : list job;
  finished : list (job * res ReplicaJournalRecord);
  admissions : list Z;
  aborted : list Z;
  net : gmap Z SocketState;
  next : Z;
  out : list effect }.

Arguments docId {C P} _.
Arguments access {C P} _.
Arguments user {C P} _.
Arguments replica {C P} _.
Arguments doc_bound {C P} _.
Arguments ephemeral {C P} _.
Arguments activity {C P} _.
Arguments socket {C P} _.
Arguments admissionAbort {C P} _.
Arguments reconnectDelay {C P} _.
Arguments reconnectTimer {C P} _.
Arguments graceDeadline {C P} _.
Arguments graceTimer {C P} _.
Arguments presenceHeartbeat {C P} _.
Arguments snapshotReplyTimer {C P} _.
Arguments lastServerVV {C P} _.
Arguments lastAckedVersion {C P} _.
Arguments committedRevision {C P} _.
Arguments lastPruneAt {C P} _.
Arguments pendingTicket {C P} _.
Arguments permissionRole {C P} _.
Arguments destroyed {C P} _.
Arguments isHydrated {C P} _.
Arguments localSaved {C P} _.
Arguments serverSynced {C P} _.
Arguments pendingMutations {C P} _.
Arguments marksSiteId {C P} _.
Arguments currentStatus {C P} _.
Arguments counters {C P} _.
Arguments saveTimer {C P} _.
Arguments markdownTimer {C P} _.
Arguments socketDeadlineTimer {C P} _.
Arguments socketDeadlineTarget {C P} _.
Arguments socketErrorCloseTimer {C P} _.
Arguments socketErrorCloseTarget {C P} _.
Arguments durabilityWaiters {C P} _.
Arguments storageError {C P} _.
Arguments terminalError {C P} _.
Arguments storageFatal {C P} _.
Arguments historyMaintenance {C P} _.
Arguments clock {C P} _.
Arguments wall {C P} _.
Arguments mono {C P} _.
Arguments db {C P} _.
Arguments queue {C P} _.
Arguments finished {C P} _.
Arguments admissions {C P} _.
Arguments aborted {C P} _.
Arguments net {C P} _.
Arguments next {C P} _.
Arguments out {C P} _.
Arguments mkEngine {C P}.

#[export] Instance eta_engine {C P} : Eta (Engine C P) := fun s =>
  mkEngine (docId s) (access s) (user s) (replica s) (doc_bound s) (ephemeral s)
    (activity s) (socket s) (admissionAbort s) (reconnectDelay s) (reconnectTimer s) (graceDeadline s)
    (graceTimer s) (presenceHeartbeat s) (snapshotReplyTimer s) (lastServerVV s) (lastAckedVersion s) (committedRevision s)
    (lastPruneAt s) (pendingTicket s) (permissionRole s) (destroyed s) (isHydrated s) (localSaved s)
    (serverSynced s) (pendingMutations s) (marksSiteId s) (currentStatus s) (counters s) (saveTimer s)
    (markdownTimer s) (socketDeadlineTimer s) (socketDeadlineTarget s) (socketErrorCloseTimer s) (socketErrorCloseTarget s) (durabilityWaiters s)
    (storageError s) (terminalError s) (storageFatal s) (historyMaintenance s) (clock s) (wall s)
    (mono s) (db s) (queue s) (finished s) (admissions s) (aborted s)
    (net s) (next s) (out s).

#[export] Instance set_docId {C P} : SetField (@docId C P). Proof. solve_update. Defined.
#[export] Instance set_access {C P} : SetField (@access C P). Proof. solve_update. Defined.
#[export] Instance set_user {C P} : SetField (@user C P). Proof. solve_update. Defined.
#[export] Instance set_replica {C P} : SetField (@replica C P). Proof. solve_update. Defined.
#[export] Instance set_doc_bound {C P} : SetField (@doc_bound C P). Proof. solve_update. Defined.
#[export] Instance set_ephemeral {C P} : SetField (@ephemeral C P). Proof. solve_update. Defined.
#[export] Instance set_activity {C P} : SetField (@activity C P). Proof. solve_update. Defined.
#[export] Instance set_socket {C P} : SetField (@socket C P). Proof. solve_update. Defined.
#[export] Instance set_admissionAbort {C P} : SetField (@admissionAbort C P). Proof. solve_update. Defined.
#[export] Instance set_reconnectDelay {C P} : SetField (@reconnectDelay C P). Proof. solve_update. Defined.
#[export] Instance set_reconnectTimer {C P} : SetField (@reconnectTimer C P). Proof. solve_update. Defined.
#[export] Instance set_graceDeadline {C P} : SetField (@graceDeadline C P). Proof. solve_update. Defined.
#[export] Instance set_graceTimer {C P} : SetField (@graceTimer C P). Proof. solve_update. Defined.
#[export] Instance set_presenceHeartbeat {C P} : SetField (@presenceHeartbeat C P). Proof. solve_update. Defined.
#[export] Instance set_snapshotReplyTimer {C P} : SetField (@snapshotReplyTimer C P). Proof. solve_update. Defined.
#[export] Instance set_lastServerVV {C P} : SetField (@lastServerVV C P). Proof. solve_update. Defined.
#[export] Instance set_lastAckedVersion {C P} : SetField (@lastAckedVersion C P). Proof. solve_update. Defined.
#[export] Instance set_committedRevision {C P} : SetField (@committedRevision C P). Proof. solve_update. Defined.
#[export] Instance set_lastPruneAt {C P} : SetField (@lastPruneAt C P). Proof. solve_update. Defined.
#[export] Instance set_pendingTicket {C P} : SetField (@pendingTicket C P). Proof. solve_update. Defined.
#[export] Instance set_permissionRole {C P} : SetField (@permissionRole C P). Proof. solve_update. Defined.
#[export] Instance set_destroyed {C P} : SetField (@destroyed C P). Proof. solve_update. Defined.
#[export] Instance set_isHydrated {C P} : SetField (@isHydrated C P). Proof. solve_update. Defined.
#[export] Instance set_localSaved {C P} : SetField (@localSaved C P). Proof. solve_update. Defined.
#[export] Instance set_serverSynced {C P} : SetField (@serverSynced C P). Proof. solve_update. Defined.
#[export] Instance set_pendingMutations {C P} : SetField (@pendingMutations C P). Proof. solve_update. Defined.
#[export] Instance set_marksSiteId {C P} : SetField (@marksSiteId C P). Proof. solve_update. Defined.
#[export] Instance set_currentStatus {C P} : SetField (@currentStatus C P). Proof. solve_update. Defined.
#[export] Instance set_counters {C P} : SetField (@counters C P). Proof. solve_update. Defined.
#[export] Instance set_saveTimer {C P} : SetField (@saveTimer C P). Proof. solve_update. Defined.
#[export] Instance set_markdownTimer {C P} : SetField (@markdownTimer C P). Proof. solve_update. Defined.
#[export] Instance set_socketDeadlineTimer {C P} : SetField (@socketDeadlineTimer C P). Proof. solve_update. Defined.
#[export] Instance set_socketDeadlineTarget {C P} : SetField (@socketDeadlineTarget C P). Proof. solve_update. Defined.
#[export] Instance set_socketErrorCloseTimer {C P} : SetField (@socketErrorCloseTimer C P). Proof. solve_update. Defined.
#[export] Instance set_socketErrorCloseTarget {C P} : SetField (@socketErrorCloseTarget C P). Proof. solve_update. Defined.
#[export] Instance set_durabilityWaiters {C P} : SetField (@durabilityWaiters C P). Proof. solve_update. Defined.
#[export] Instance set_storageError {C P} : SetField (@storageError C P). Proof. solve_update. Defined.
#[export] Instance set_terminalError {C P} : SetField (@terminalError C P). Proof. solve_update. Defined.
#[export] Instance set_storageFatal {C P} : SetField (@storageFatal C P). Proof. solve_update. Defined.
#[export] Instance set_historyMaintenance {C P} : SetField (@historyMaintenance C P). Proof. solve_update. Defined.
#[export] Instance set_clock {C P} : SetField (@clock C P). Proof. solve_update. Defined.
#[export] Instance set_wall {C P} : SetField (@wall C P). Proof. solve_update. Defined.
#[export] Instance set_mono {C P} : SetField (@mono C P). Proof. solve_update. Defined.
#[export] Instance set_db {C P} : SetField (@db C P). Proof. solve_update. Defined.
#[export] Instance set_queue {C P} : SetField (@queue C P). Proof. solve_update. Defined.
#[export] Instance set_finished {C P} : SetField (@finished C P). Proof. solve_update. Defined.
#[export] Instance set_admissions {C P} : SetField (@admissions C P). Proof. solve_update. Defined.
#[export] Instance set_aborted {C P} : SetField (@aborted C P). Proof. solve_update. Defined.
#[export] Instance set_net {C P} : SetField (@net C P). Proof. solve_update. Defined.
#[export] Instance set_next {C P} : SetField (@next C P). Proof. solve_update. Defined.
#[export] Instance set_out {C P} : SetField (@out C P). Proof. solve_update. Defined.

#[export] Instance eta_counters : Eta Counters := fun c =>
  Build_Counters (received c) (sent c) (snapshotBytes c) (lastUpdateBytes c) (retained c)
    (pendingOps c) (historyFloorBytes c) (dmax c).

#[export] Instance set_received : SetField received. Proof. solve_update. Defined.
#[export] Instance set_sent : SetField sent. Proof. solve_update. Defined.
#[export] Instance set_snapshotBytes : SetField snapshotBytes. Proof. solve_update. Defined.
#[export] Instance set_lastUpdateBytes : SetField lastUpdateBytes. Proof. solve_update. Defined.
#[export] Instance set_retained : SetField retained. Proof. solve_update. Defined.
#[export] Instance set_pendingOps : SetField pendingOps. Proof. solve_update. Defined.
#[export] Instance set_historyFloorBytes : SetField historyFloorBytes. Proof. solve_update. Defined.
#[export] Instance set_dmax : SetField dmax. Proof. solve_update. Defined.
