(* ===== verification/Engine.v ===== *)
(** The collaboration engine ([client/src/collab/esbt-engine.ts]): authority,
    connection, synchronisation, durability and teardown. Every method is a
    function on the engine; what a method awaits is a request it queues and a
    [resume] method that runs when the request settles. *)

From S2P Require Import Prelude.
From S2P Require Import Timers.
From S2P Require Import TextChange.
From S2P Require Import Bytes.
From S2P Require Import JsValue.
From S2P Require Import Protocol.
From S2P Require Import PresenceStore.
From S2P Require Import PresenceActivity.
From S2P Require Import Journal.
From S2P Require Import EsbtDocument.
From S2P Require Import EngineState.

Definition LOCAL_SAVE_DEBOUNCE_MS : Q := 800.
Definition RECONNECT_MIN_MS : Q := 500.
Definition RECONNECT_MAX_MS : Q := 8000.
Definition CLOSE_INVALID_PAYLOAD := 4400.
Definition CLOSE_AUTHORITY_CHANGED := 4401.
Definition CLOSE_FORBIDDEN_WRITE := 4403.
Definition CLOSE_DOCUMENT_DELETED := 4404.
Definition MAX_VV_QUERY_BYTES := 4096.
Definition MARKDOWN_CHECKPOINT_MS : Q := 220.
Definition PERSIST_LOCK_TIMEOUT_MS : Q := 5000.
Definition FINAL_CHECKPOINT_RELEASE_MS : Q := PERSIST_LOCK_TIMEOUT_MS + 250.
Definition SOCKET_HANDSHAKE_TIMEOUT_MS : Q := 10000.
Definition SOCKET_INITIAL_SYNC_TIMEOUT_MS : Q := 10000.
Definition SOCKET_COMMIT_TIMEOUT_MS : Q := 15000.
Definition SOCKET_ERROR_CLOSE_GRACE_MS : Q := 1000.
Definition SERVICE_REQUEST_TIMEOUT_MS : Q := 15000.
Definition AUTHORITY_CHANGE_GRACE_MS : Q := SERVICE_REQUEST_TIMEOUT_MS + RECONNECT_MIN_MS.
Definition HEARTBEAT_MS : Q := 15000.

Definition Qltb (a b : Q) : bool := negb (Qle_bool b a).

Definition userKey (siteId : jstring) : jstring := siteId ++ lit "-cm-user".
Definition selectionKey (siteId : jstring) : jstring := siteId ++ lit "-cm-sel".

(** [WebSocket.close(code)] refuses every code but 1000 and 3000-4999. *)
Definition close_code_ok (code : option Z) : bool :=
  match code with
  | None => true
  | Some c => (c =? 1000) || ((3000 <=? c) && (c <=? 4999))
  end.

Definition no_capabilities (r : option Role) : DocumentCapabilities :=
  {| cap_role := r; edit := false; comment := false; saveVersion := false; manageShares := false |}.

Definition role_capabilities (r : option Role) : DocumentCapabilities :=
  match r with
  | Some RLocal => {| cap_role := r; edit := true; comment := true; saveVersion := true; manageShares := false |}
  | Some RScratch => {| cap_role := r; edit := true; comment := false; saveVersion := false; manageShares := false |}
  | Some ROwner => {| cap_role := r; edit := true; comment := true; saveVersion := true; manageShares := true |}
  | Some REditor => {| cap_role := r; edit := true; comment := true; saveVersion := true; manageShares := false |}
  | Some RCommenter => {| cap_role := r; edit := false; comment := true; saveVersion := false; manageShares := false |}
  | Some RViewer | None => no_capabilities r
  end.

Section Engine.
Context {C P : Type} `{Component C} `{Presence P} `{Randomness}.
Implicit Types (s : Engine C P).

(** [this.destroyed || this.storageFatal] *)
Definition stopped s : bool := destroyed s || storageFatal s.

Definition emit_ (e : effect) s : Engine C P := s <| out := out s ++ [e] |>.

Definition fresh s : Z * Engine C P := (next s, s <| next := next s + 1 |>).

Definition arm (k : timer_kind) (delay : Q) s : Z * Engine C P :=
  let '(h, t) := setTimeout k delay (clock s) in (h, s <| clock := t |>).

Definition disarm (o : option Z) s : Engine C P := s <| clock := clear_opt o (clock s) |>.

(** A document without a marks site is not bound, so [this.doc?.siteId] is
    never the answer. *)
Definition presenceSiteId s : jstring :=
  match marksSiteId s with [] => lit "local" | site => site end.

(** ** Authority *)

Definition capabilities s : DocumentCapabilities :=
  let c := role_capabilities (permissionRole s) in
  if storageFatal s || destroyed s then no_capabilities (cap_role c) else c.

Definition refreshEditorEditable s : Engine C P :=
  emit_ (EditableChanged (edit (capabilities s))) s.

(** ** Durability *)

Definition isDurable s : bool :=
  if destroyed s || storageFatal s || negb (len (pendingMutations s) =? 0) || negb (localSaved s)
  then false
  else negb (access s) || (serverSynced s && bool_decide (currentStatus s = Connected)).

(** [waiter.resolve()] and [waiter.reject(error)] clear the waiter's timer. *)
Definition settle_waiter (e : Z -> effect) s (w : Z * Z) : Engine C P :=
  emit_ (e w.1) (disarm (Some w.2) s).

Definition settle_waiters (e : Z -> effect) s : Engine C P :=
  let s := foldl (settle_waiter e) s (durabilityWaiters s) in s <| durabilityWaiters := [] |>.

Definition resolveDurabilityWaiters s : Engine C P :=
  if negb (isDurable s) then s else settle_waiters Resolved s.

Definition whenDurable (timeoutMs : Q) s : Engine C P :=
  let '(w, s) := fresh s in
  if isDurable s then emit_ (Resolved w) s
  else if storageFatal s then emit_ (Rejected w) s
  else if destroyed s then emit_ (Rejected w) s
  else
    let '(h, s) := arm (TWaiter w) (Qmax 1 timeoutMs) s in
    s <| durabilityWaiters := durabilityWaiters s ++ [(w, h)] |>.

(** [setStatus]: the status it settles on, if it changes anything. *)
Definition status_target (st : ConnectionStatus) s : option ConnectionStatus :=
  if storageFatal s then Some Offline
  else if negb (access s) then
    (if bool_decide (currentStatus s = Connected) then None else Some Connected)
  else Some st.

Definition setStatus (st : ConnectionStatus) s : Engine C P :=
  match status_target st s with
  | None => s
  | Some st =>
      if bool_decide (currentStatus s = st) then s
      else
        let s := s <| currentStatus := st |> in
        let s := emit_ (StatusChanged st) s in
        resolveDurabilityWaiters s
  end.

(** [committedRevision.toString()] of an unsigned revision. *)
Definition emptyRecord s : ReplicaJournalRecord :=
  {| siteId := marksSiteId s; role := permissionRole s; snapshot := [];
     pending := map snd (pendingMutations s); ackedVersion := lastAckedVersion s;
     Journal.committedRevision := Some (decimal (committedRevision s));
     Journal.lastPruneAt := NInt (lastPruneAt s) |}.

(** Taking a place in the document's lock lane. *)
Definition request (j : job) s : Engine C P :=
  emit_ (JournalRequested j) (s <| queue := queue s ++ [j] |>).

(** Whether [checkpointJournal] gets past its guard. *)
Definition checkpoint_allowed s : bool := doc_bound s && negb (storageFatal s).

Definition checkpointJournal (after : after_checkpoint) s : Engine C P :=
  if checkpoint_allowed s then request (JobCheckpoint (emptyRecord s) after) s
  else match after with
       | EndMaintenance => s <| historyMaintenance := false |>
       | _ => s
       end.

Definition applyPermissionRole (next : option Role) s : Engine C P :=
  if bool_decide (next = permissionRole s) then s
  else
    let s := s <| permissionRole := next |> in
    let s := refreshEditorEditable s in
    if doc_bound s then checkpointJournal Plain s else s.

Definition applyTicketPermissions (ticket : RoomTicket) s : Engine C P :=
  let next := if t_scratch ticket
              then Some (default RScratch (t_role ticket)) else t_role ticket in
  applyPermissionRole next s.

(** ** Watchdogs of a socket *)

Definition clearSocketDeadline (sock : option Z) s : Engine C P :=
  if negb (bool_decide (sock = None)) && negb (bool_decide (socketDeadlineTarget s = sock)) then s
  else
    let s := disarm (socketDeadlineTimer s) s in
    let s := s <| socketDeadlineTimer := None |> in
    s <| socketDeadlineTarget := None |>.

Definition armSocketDeadline (sock : Z) (timeoutMs : Q) s : Engine C P :=
  let s := clearSocketDeadline None s in
  if negb (bool_decide (socket s = Some sock)) || destroyed s || storageFatal s then s
  else
    let s := s <| socketDeadlineTarget := Some sock |> in
    let '(h, s) := arm (TSocketDeadline sock) timeoutMs s in
    s <| socketDeadlineTimer := Some h |>.

Definition clearSocketErrorCloseDeadline (sock : option Z) s : Engine C P :=
  if negb (bool_decide (sock = None)) && negb (bool_decide (socketErrorCloseTarget s = sock)) then s
  else
    let s := disarm (socketErrorCloseTimer s) s in
    let s := s <| socketErrorCloseTimer := None |> in
    s <| socketErrorCloseTarget := None |>.

Definition clearAuthorityChangeGrace s : Engine C P :=
  let s := disarm (graceTimer s) s in
  let s := s <| graceTimer := None |> in
  s <| graceDeadline := 0%Q |>.

Definition clear_reconnect s : Engine C P :=
  let s := disarm (reconnectTimer s) s in s <| reconnectTimer := None |>.
Definition clear_snapshot_reply s : Engine C P :=
  let s := disarm (snapshotReplyTimer s) s in s <| snapshotReplyTimer := None |>.
Definition clear_save s : Engine C P :=
  let s := disarm (saveTimer s) s in s <| saveTimer := None |>.
Definition clear_markdown s : Engine C P :=
  let s := disarm (markdownTimer s) s in s <| markdownTimer := None |>.

(** [this.admissionAbort?.abort(); this.admissionAbort = null] *)
Definition abort_admission s : Engine C P :=
  let s := match admissionAbort s with
           | Some c => s <| aborted := c :: aborted s |>
           | None => s end in
  s <| admissionAbort := None |>.

(** [socket.close(code)]: whether it threw, and the socket left closing. *)
Definition socket_close (code : option Z) (k : Z) s : bool * Engine C P :=
  if close_code_ok code then
    let s := s <| net := <[k := {| readyState := CLOSING; sendThrows := false |}]> (net s) |> in
    (false, emit_ (CloseCalled k) s)
  else (true, s).

(** [const socket = this.socket; this.socket = null; socket?.close()] *)
Definition drop_socket s : Engine C P :=
  match socket s with
  | Some k => (socket_close None k (s <| socket := None |>)).2
  | None => s
  end.

(** ** Terminal states *)

Definition recovery_advice : string :=
  " Use File → Markdown to download the text currently on this device before leaving or reloading.".
Definition disabled_advice : string :=
  " Editing has been disabled to protect this page. Reload before making more changes.".

Definition report (n : Notice) s : Engine C P := emit_ (ErrorReported n) s.

Definition enterTerminalRecovery (code : Z) (message : string) s : Engine C P :=
  if destroyed s || storageFatal s then s
  else
    let notice := {| n_code := code; n_message := (message ++ recovery_advice)%string |} in
    let s := s <| terminalError := Some notice |> <| destroyed := true |>
               <| permissionRole := None |> <| serverSynced := false |> in
    let s := abort_admission s in
    let s := clearAuthorityChangeGrace s in
    let s := clearSocketErrorCloseDeadline None s in
    let s := clearSocketDeadline None s in
    let s := clear_reconnect s in
    let s := clear_snapshot_reply s in
    let s := clear_save s in
    let s := drop_socket s in
    let s := setStatus Offline s in
    let s := refreshEditorEditable s in
    let s := settle_waiters Rejected s in
    let s := report notice s in
    if doc_bound s then checkpointJournal Plain s else s.

Definition storage_stop (notice : Notice) s : Engine C P :=
  let s := s <| storageFatal := true |> <| localSaved := false |> in
  let s := refreshEditorEditable s in
  let s := clear_save s in
  let s := clear_markdown s in
  let s := clear_reconnect s in
  let s := abort_admission s in
  let s := clearAuthorityChangeGrace s in
  let s := clearSocketErrorCloseDeadline None s in
  let s := clearSocketDeadline None s in
  let s := s <| serverSynced := false |> in
  let s := drop_socket s in
  let s := setStatus Offline s in
  settle_waiters Rejected s.

Definition recordStorageError (message : string) (fatal : bool) s : Engine C P :=
  if storageFatal s then s
  else
    let notice := {| n_code := -1;
                     n_message := if fatal then (message ++ disabled_advice)%string else message |} in
    let s := s <| storageError := Some notice |> in
    let s := if fatal then storage_stop notice s else s in
    report notice s.

Definition emitEngineError (e : exn) s : Engine C P :=
  match exn_kind e with
  | EsbtError code => report {| n_code := code; n_message := userMessageForError code |} s
  | _ => s
  end.

(** ** Connecting *)

Definition openSocket (ticket : RoomTicket) s : Engine C P :=
  if destroyed s || storageFatal s then s
  else
    let '(n, s) := fresh s in
    let s := s <| ephemeral := p_begin (ephemeral s) (random_bytes n) |> in
    let vv := match replica s with
              | Some d => match (version d).2 with
                          | Ok vv => if (0 <? len vv) && (len vv <=? MAX_VV_QUERY_BYTES)
                                     then Some vv else None
                          | Throw _ => None
                          end
              | None => None
              end in
    let '(k, s) := fresh s in
    let s := s <| net := <[k := {| readyState := CONNECTING; sendThrows := false |}]> (net s) |> in
    let s := emit_ (Opened k vv) s in
    let s := s <| socket := Some k |> <| serverSynced := false |> in
    armSocketDeadline k SOCKET_HANDSHAKE_TIMEOUT_MS s.

Definition connect s : Engine C P :=
  if negb (access s) || destroyed s || storageFatal s
     || negb (bool_decide (socket s = None)) || negb (bool_decide (admissionAbort s = None))
  then s
  else match pendingTicket s with
       | Some ticket =>
           let s := openSocket ticket s in s <| pendingTicket := None |>
       | None =>
           let '(c, s) := fresh s in
           let s := s <| admissionAbort := Some c |> in
           let s := setStatus Connecting s in
           let s := s <| admissions := c :: admissions s |> in
           emit_ (AdmissionRequested c (match marksSiteId s with [] => None | x => Some x end)) s
       end.

Definition expireAuthorityChangeGrace s : Engine C P :=
  if Qeq_bool (graceDeadline s) 0 || destroyed s || storageFatal s then s
  else
    let remaining := (graceDeadline s - mono s)%Q in
    if Qltb 0 remaining then
      let s := disarm (graceTimer s) s in
      let '(h, s) := arm TGrace remaining s in
      s <| graceTimer := Some h |>
    else
      let s := clearAuthorityChangeGrace s in
      let s := abort_admission s in
      enterTerminalRecovery CLOSE_AUTHORITY_CHANGED
        "Marks could not reauthorize this document before the login or permission change settled. Editing has been stopped so stale authority cannot create unsendable work." s.

Definition beginAuthorityChangeGrace (graceMs : Q) s : Engine C P :=
  let s := clearAuthorityChangeGrace s in
  let duration := Qmax 1 graceMs in
  let s := s <| graceDeadline := (mono s + duration)%Q |> in
  let '(h, s) := arm TGrace duration s in
  s <| graceTimer := Some h |>.

Definition scheduleReconnect s : Engine C P :=
  if negb (bool_decide (reconnectTimer s = None)) || destroyed s || storageFatal s || negb (access s)
  then s
  else
    let '(n, s) := fresh s in
    let jitter := (random_unit n * (3 # 10) + (85 # 100))%Q in
    let delay := Qmin (reconnectDelay s * jitter) RECONNECT_MAX_MS in
    let s := s <| reconnectDelay := Qmin (reconnectDelay s * 2) RECONNECT_MAX_MS |> in
    let remaining := (graceDeadline s - mono s)%Q in
    if Qltb 0 (graceDeadline s) && Qle_bool remaining 0 then expireAuthorityChangeGrace s
    else
      let delay := if Qltb 0 (graceDeadline s) then Qmin delay remaining else delay in
      let '(h, s) := arm TReconnect (Qmax 1 delay) s in
      s <| reconnectTimer := Some h |>.

Definition reconnect_callback s : Engine C P :=
  let s := s <| reconnectTimer := None |> in
  if Qltb 0 (graceDeadline s) && Qle_bool (graceDeadline s) (mono s)
  then expireAuthorityChangeGrace s
  else connect s.

Definition onDisconnect (sock : Z) (code : option Z) s : Engine C P :=
  if negb (bool_decide (socket s = Some sock)) then s
  else
    let s := clearSocketErrorCloseDeadline (Some sock) s in
    let s := clearSocketDeadline (Some sock) s in
    let s := s <| socket := None |> <| serverSynced := false |> in
    if destroyed s || storageFatal s then s
    else if bool_decide (code = Some CLOSE_INVALID_PAYLOAD) then
      enterTerminalRecovery CLOSE_INVALID_PAYLOAD
        "The collaboration service rejected a pending edit as invalid. Editing has been stopped rather than retrying the same rejected work." s
    else if bool_decide (code = Some CLOSE_FORBIDDEN_WRITE) then
      enterTerminalRecovery CLOSE_FORBIDDEN_WRITE
        "Your edit permission changed before a pending edit could be committed. Editing has been stopped rather than retrying work the service will refuse." s
    else if bool_decide (code = Some CLOSE_DOCUMENT_DELETED) then
      enterTerminalRecovery CLOSE_DOCUMENT_DELETED
        "This page was deleted in another session. Editing has been stopped because the page can no longer accept changes." s
    else
      let s := setStatus Offline s in
      if bool_decide (code = Some CLOSE_AUTHORITY_CHANGED) then
        let s := applyPermissionRole None s in
        let s := beginAuthorityChangeGrace AUTHORITY_CHANGE_GRACE_MS s in
        connect s
      else scheduleReconnect s.

Definition onSocketError (sock : Z) s : Engine C P :=
  if negb (bool_decide (socket s = Some sock)) || destroyed s || storageFatal s then s
  else if bool_decide (socketErrorCloseTarget s = Some sock) then s
  else
    let s := clearSocketErrorCloseDeadline None s in
    let s := s <| socketErrorCloseTarget := Some sock |> in
    let '(h, s) := arm (TSocketError sock) (Qmax 1 SOCKET_ERROR_CLOSE_GRACE_MS) s in
    let s := s <| socketErrorCloseTimer := Some h |> in
    (socket_close None sock s).2.

Definition socket_error_callback (sock : Z) s : Engine C P :=
  if negb (bool_decide (socket s = Some sock))
     || negb (bool_decide (socketErrorCloseTarget s = Some sock)) then s
  else
    let s := clearSocketErrorCloseDeadline (Some sock) s in
    onDisconnect sock None s.

(** The close of a stalled socket uses code 1013, which [close] refuses; the
    exception is swallowed. *)
Definition socket_deadline_callback (sock : Z) s : Engine C P :=
  if negb (bool_decide (socket s = Some sock))
     || negb (bool_decide (socketDeadlineTarget s = Some sock)) then s
  else
    let s := onDisconnect sock None s in
    (socket_close (Some 1013) sock s).2.

(** [shouldRetryAdmission(error)], or the ticket. *)
Inductive admission_result := Granted (ticket : RoomTicket) | Refused (retryable : bool).

Definition admitAndConnect (controller : Z) (result : admission_result) s : Engine C P :=
  let is_aborted := existsb (Z.eqb controller) (aborted s) in
  match result with
  | Granted ticket =>
      if destroyed s || storageFatal s || is_aborted
         || negb (bool_decide (admissionAbort s = Some controller)) then s
      else
        let s := s <| admissionAbort := None |> in
        let s := clearAuthorityChangeGrace s in
        let s := s <| marksSiteId := t_siteId ticket |> in
        let s := applyTicketPermissions ticket s in
        openSocket ticket s
  | Refused retryable =>
      let s := if bool_decide (admissionAbort s = Some controller)
               then s <| admissionAbort := None |> else s in
      if destroyed s || storageFatal s || is_aborted then s
      else if retryable || Qltb (mono s) (graceDeadline s) then
        let s := setStatus Offline s in scheduleReconnect s
      else enterTerminalRecovery CLOSE_AUTHORITY_CHANGED
             "Marks could not reauthorize this document. Editing has been stopped so stale authority cannot create unsendable work." s
  end.

Definition handleOnline s : Engine C P :=
  if destroyed s || storageFatal s then s
  else
    let s := s <| reconnectDelay := RECONNECT_MIN_MS |> in
    let s := if bool_decide (reconnectTimer s = None) then s else clear_reconnect s in
    if access s && bool_decide (socket s = None) then connect s else s.

Definition handleOffline s : Engine C P :=
  let s := abort_admission s in
  let s := clearSocketErrorCloseDeadline None s in
  let s := match socket s with
           | Some k =>
               let s := clearSocketDeadline (Some k) s in
               let s := s <| socket := None |> <| serverSynced := false |> in
               (socket_close None k s).2
           | None => s
           end in
  let s := clear_reconnect s in
  if access s then setStatus Offline s else s.

(** ** Sending *)

Definition send (tag : Z) (payload : bytes) s : Engine C P :=
  if destroyed s || storageFatal s then s
  else match socket s with
       | None => s
       | Some k =>
           match net s !! k with
           | Some ss =>
               if negb (bool_decide (readyState ss = OPEN)) || (len payload =? 0) then s
               else if sendThrows ss then
                 let s := onDisconnect k None s in (socket_close None k s).2
               else
                 let message := frame tag payload in
                 let s := emit_ (Sent k message) s in
                 s <| counters := (counters s) <| sent := sent (counters s) + len message |> |>
           | None => s
           end
       end.

(** [false]: [encodeMutation] threw. *)
Definition sendMutation (m : JournalMutation) s : bool * Engine C P :=
  if destroyed s || storageFatal s then (true, s)
  else match socket s with
       | None => (true, s)
       | Some k =>
           match net s !! k with
           | Some ss =>
               if negb (bool_decide (readyState ss = OPEN)) || negb (serverSynced s) then (true, s)
               else match encodeMutation (jm_id m) (jm_kind m) (jm_bytes m) with
                    | Ok payload =>
                        let s := send MSG_MUTATION payload s in
                        (true, armSocketDeadline k SOCKET_COMMIT_TIMEOUT_MS s)
                    | Throw _ => (false, s)
                    end
           | None => (true, s)
           end
       end.

Fixpoint send_all (ms : list JournalMutation) s : bool * Engine C P :=
  match ms with
  | [] => (true, s)
  | m :: r =>
      let '(ok, s) := sendMutation m s in
      if ok then send_all r s else (false, s)
  end.

Definition sendPendingMutations s : bool * Engine C P :=
  if destroyed s || storageFatal s then (true, s)
  else send_all (map snd (pendingMutations s)) s.

(** ** Edits *)

Definition persistAndSendMutation (bs : bytes) (kind : MutationKind) (broadcastTab : bool) s
    : Engine C P :=
  if negb (doc_bound s) || destroyed s || storageFatal s || (len bs =? 0) then s
  else
    let '(n, s) := fresh s in
    let mutation := {| jm_id := randomMutationId (random_bytes n); jm_kind := kind;
                       jm_bytes := bs; jm_createdAt := NInt (wall s) |} in
    let s := s <| pendingMutations := mset (pendingMutations s) (jm_id mutation) mutation |> in
    let s := if access s && serverSynced s then setStatus Saving s else s in
    request (JobAppend (emptyRecord s) mutation broadcastTab) s.

Definition scheduleLocalSave s : Engine C P :=
  if destroyed s || storageFatal s then s
  else
    let s := if bool_decide (saveTimer s = None) then s else disarm (saveTimer s) s in
    let '(h, s) := arm TSave LOCAL_SAVE_DEBOUNCE_MS s in
    s <| saveTimer := Some h |>.

Definition flushMarkdownCheckpoint s : Engine C P :=
  if access s || negb (doc_bound s) then s
  else match replica s with
       | Some d => match (getText d).2 with
                   | Ok text => emit_ (MarkdownWritten text) s
                   | Throw _ => s
                   end
       | None => s
       end.

Definition scheduleMarkdownCheckpoint s : Engine C P :=
  let s := if negb (access s) then disarm (markdownTimer s) s else s in
  if access s then s
  else
    let '(h, s) := arm TMarkdown MARKDOWN_CHECKPOINT_MS s in
    s <| markdownTimer := Some h |>.

(** The readouts stop at the first one that throws. *)
Definition read_telemetry (d : Doc C) (c : Counters) : Counters :=
  match (retainedOperations d).2 with
  | Throw _ => c
  | Ok r =>
      let c := c <| retained := r |> in
      match (pendingOperations d).2 with
      | Throw _ => c
      | Ok p =>
          let c := c <| pendingOps := p |> in
          match (historyFloor d).2 with
          | Throw _ => c
          | Ok f =>
              let c := c <| historyFloorBytes := len f |> in
              match (currentDmax d).2 with
              | Throw _ => c
              | Ok x =>
                  let c := c <| dmax := x |> in
                  c <| snapshotBytes := Z.max (snapshotBytes c) (lastUpdateBytes c) |>
              end
          end
      end
  end.

Definition refreshTelemetry s : Engine C P :=
  match replica s with
  | Some d => if doc_bound s then s <| counters := read_telemetry d (counters s) |> else s
  | None => s
  end.

(** The listeners that [bindDocument] registers. *)
Definition on_notice s (n : notice) : Engine C P :=
  match n with
  | NLocalUpdate bs =>
      let s := s <| counters := (counters s) <| lastUpdateBytes := len bs |> |> in
      let s := s <| localSaved := false |> in
      persistAndSendMutation bs Update true s
  | NChange edits origin local =>
      let s := refreshTelemetry s in
      let s := emit_ (Changed edits origin local) s in
      let s := scheduleLocalSave s in
      scheduleMarkdownCheckpoint s
  | NReplicaChange => s
  end.

(** A document method, with its listeners called. *)
Definition with_doc {A} (m : SE (Doc C) A) (d : Doc C) s : Engine C P * res A :=
  let '(d', r) := m {| component := component d; transactionDepth := transactionDepth d;
                       transactionOrigin := transactionOrigin d;
                       EsbtDocument.destroyed := EsbtDocument.destroyed d; notices := [] |} in
  let s := s <| replica := Some d' |> in
  (foldl on_notice s (notices d'), r).

(** [this.doc] *)
Definition this_doc s : option (Doc C) := if doc_bound s then replica s else None.

Definition importRemote (bs : bytes) s : Engine C P :=
  match this_doc s with
  | None => s
  | Some d =>
      if destroyed s || storageFatal s || (len bs =? 0) then s
      else match with_doc (import bs) d s with
           | (s, Ok _) => s
           | (s, Throw e) => if isSnapshotRefusal e then emitEngineError e s else s
           end
  end.

(** A text edit through the document API ([setText], [replaceRange], undo...). *)
Definition edit_document {A} (m : SE (Doc C) A) s : Engine C P :=
  match this_doc s with
  | None => s
  | Some d =>
      if negb (edit (capabilities s)) then s
      else match with_doc m d s with
           | (s, Ok _) => s
           | (s, Throw e) => if isEsbtError e then emitEngineError e s else s
           end
  end.

(** ** Synchronisation *)

Definition connected_if_synced s : Engine C P :=
  if serverSynced s then setStatus Connected s else s.

Definition sendMissingSince (encodedVersion : bytes) s : Engine C P :=
  match this_doc s with
  | None => s
  | Some d =>
      if destroyed s || storageFatal s then s
      else if 0 <? len (pendingMutations s) then (sendPendingMutations s).2
      else match (version d).2 with
           | Throw e => emitEngineError e s
           | Ok v =>
               if str_eqb v encodedVersion then connected_if_synced s
               else match (exportReconnectPayload encodedVersion d).2 with
                    | Throw e => emitEngineError e s
                    | Ok (kind, bs) =>
                        if len bs =? 0 then connected_if_synced s
                        else persistAndSendMutation bs kind false s
                    end
           end
  end.

Definition synchronizeWithServer s : Engine C P :=
  if negb (serverSynced s) || destroyed s || storageFatal s then s
  else if 0 <? len (pendingMutations s) then
    let s := setStatus Saving s in (sendPendingMutations s).2
  else match lastServerVV s with
       | Some vv => sendMissingSince vv s
       | None => setStatus Connected s
       end.

Definition importFromTab (bs : bytes) (kind : MutationKind) s : Engine C P :=
  if destroyed s || storageFatal s || (len bs =? 0) then s
  else
    let '(s, ok) := match this_doc s with
                    | None => (s, true)
                    | Some d => let '(s, r) := with_doc (import bs) d s in (s, is_Ok r)
                    end in
    if negb ok then s
    else match kind with
         | Update => persistAndSendMutation bs Update false s
         | Snapshot => match lastServerVV s with
                       | Some vv => sendMissingSince vv s
                       | None => s
                       end
         end.

(** ** History maintenance *)

Definition maybePrune (ackedVersion : bytes) s : Engine C P :=
  if historyMaintenance s then s
  else match this_doc s with
       | None => s
       | Some d =>
           if storageFatal s then s
           else match (retainedOperations d).2 with
           | Throw _ => s
           | Ok retained =>
               if negb (shouldPruneHistory retained (lastPruneAt s) (wall s)) then s
               else if (JOURNAL_RETAINED_THRESHOLD <? retained) || (0 <? lastPruneAt s) then
                 match with_doc (pruneHistoryThrough ackedVersion) d s with
                 | (s, Throw _) => s
                 | (s, Ok _) =>
                     let s := s <| lastPruneAt := wall s |> <| lastAckedVersion := Some ackedVersion |>
                                <| historyMaintenance := true |> in
                     checkpointJournal EndMaintenance s
                 end
               else s
           end
       end.

Definition compactDurableLocalHistory s : Engine C P :=
  if historyMaintenance s then s
  else match this_doc s with
       | None => s
       | Some d =>
           if storageFatal s then s
           else match (retainedOperations d).2 with
                | Throw _ => s
                | Ok retained =>
                    if retained <=? JOURNAL_RETAINED_THRESHOLD then s
                    else request (JobArchive (emptyRecord s)) (s <| historyMaintenance := true |>)
                end
       end.

(** After the archive: prune what it covers, then checkpoint again. *)
Definition compact_resume (r : res ReplicaJournalRecord) s : Engine C P :=
  let fail s := recordStorageError "Local CRDT history could not be compacted safely." true
                  (s <| historyMaintenance := false |>) in
  match r, replica s with
  | Ok archive, Some d =>
      let s := s <| counters := (counters s) <| snapshotBytes := len (snapshot archive) |> |>
                 <| localSaved := true |> in
      match (version d).2 with
      | Throw _ => fail s
      | Ok v =>
          match with_doc (pruneHistoryThrough v) d s with
          | (s, Throw _) => fail s
          | (s, Ok _) => checkpointJournal EndMaintenance (s <| lastPruneAt := wall s |>)
          end
      end
  | _, _ => fail s
  end.

(** ** What awaits the journal *)

Definition persist_resume (m : JournalMutation) (broadcastTab : bool)
    (r : res ReplicaJournalRecord) s : Engine C P :=
  match r with
  | Throw _ =>
      let s := s <| localSaved := false |> in
      recordStorageError "This edit could not be written to the offline journal." true s
  | Ok _ =>
      let s := s <| localSaved := true |> in
      if destroyed s || storageFatal s then s
      else
        let s := if broadcastTab
                 then emit_ (match jm_kind m with
                             | Update => TabUpdate (jm_bytes m)
                             | Snapshot => TabSnapshot (jm_bytes m) end) s
                 else s in
        if access s then
          let s := if serverSynced s then (sendMutation m s).2 else s in
          compactDurableLocalHistory s
        else
          match replica s with
          | None => s
          | Some d =>
              match (version d).2 with
              | Throw _ => recordStorageError "The local document checkpoint failed." true s
              | Ok v => request (JobAcknowledge (emptyRecord s) (jm_id m) v 0 false) s
              end
          end
  end.

Definition acknowledge_local_resume (id : jstring) (r : res ReplicaJournalRecord) s : Engine C P :=
  match r with
  | Throw _ => recordStorageError "The local document checkpoint failed." true s
  | Ok record =>
      let s := s <| pendingMutations := mdel (pendingMutations s) id |> <| localSaved := true |>
                 <| counters := (counters s) <| snapshotBytes := len (snapshot record) |> |> in
      let s := resolveDurabilityWaiters s in
      compactDurableLocalHistory s
  end.

Definition acknowledge_server_resume (id version : bytes) (r : res ReplicaJournalRecord) s
    : Engine C P :=
  match r with
  | Throw _ =>
      let s := s <| localSaved := false |> in
      recordStorageError "The server saved this edit, but its offline checkpoint failed." true s
  | Ok record =>
      let s := s <| pendingMutations := mdel (pendingMutations s) id |> <| localSaved := true |>
                 <| counters := (counters s) <| snapshotBytes := len (snapshot record) |> |> in
      if destroyed s || storageFatal s then s
      else
        let s := match socket s with
                 | Some k => if 0 <? len (pendingMutations s)
                             then armSocketDeadline k SOCKET_COMMIT_TIMEOUT_MS s
                             else clearSocketDeadline (Some k) s
                 | None => clearSocketDeadline None s
                 end in
        let s := maybePrune version s in
        let s := if len (pendingMutations s) =? 0 then sendMissingSince version s
                 else if serverSynced s then setStatus Saving s else s in
        resolveDurabilityWaiters s
  end.

Definition release_replica s : Engine C P :=
  match replica s with
  | Some d => s <| replica := Some (EsbtDocument.destroy d) |>
  | None => s
  end.

Definition checkpoint_resume (after : after_checkpoint) (r : res ReplicaJournalRecord) s
    : Engine C P :=
  let s := match r with
    | Throw _ =>
        let s := s <| localSaved := false |> in
        recordStorageError "The offline checkpoint could not be written." true s
    | Ok record =>
        let s := s <| counters := (counters s) <| snapshotBytes := len (snapshot record) |> |> in
        let s := refreshTelemetry s in
        let s := s <| localSaved := true |> in
        resolveDurabilityWaiters s
    end in
  match after with
  | Plain => s
  | EndMaintenance => s <| historyMaintenance := false |>
  | ReleaseReplica => release_replica s
  end.

Definition resume (j : job) (r : res ReplicaJournalRecord) s : Engine C P :=
  match j with
  | JobAppend _ m broadcastTab => persist_resume m broadcastTab r s
  | JobAcknowledge _ id v _ false => acknowledge_local_resume id r s
  | JobAcknowledge _ id v _ true => acknowledge_server_resume id v r s
  | JobCheckpoint _ after => checkpoint_resume after r s
  | JobArchive _ => compact_resume r s
  end.

(** One request at the head of the lane. The exporter runs inside the lock, on
    the replica as it is then; storage may fail before or after the write. *)
Inductive outcome := Stored | FailedUnwritten (e : exn) | FailedWritten (e : exn).

Definition export_now s : res bytes :=
  match replica s with
  | Some d => (exportFullSnapshot d).2
  | None => plain_error "no replica"
  end.

Definition job_op (j : job) (exported : res bytes) : res jop :=
  match j with
  | JobAppend f m _ => Ok (JAppend f m)
  | JobAcknowledge f id v rev _ => snap ← exported; Ok (JAcknowledge f id v rev snap)
  | JobCheckpoint f _ | JobArchive f => snap ← exported; Ok (JCheckpoint f snap)
  end.

Definition run_job (j : job) (o : outcome) s : Engine C P * res ReplicaJournalRecord :=
  match job_op j (export_now s) with
  | Throw e => (s, Throw e)
  | Ok op =>
      let '(db', r) := run_op (db s) (docId s) op in
      match o with
      | Stored => (s <| db := db' |>, r)
      | FailedUnwritten e => (s, Throw e)
      | FailedWritten e => (s <| db := db' |>, Throw e)
      end
  end.

Definition execute (o : outcome) s : Engine C P :=
  match queue s with
  | [] => s
  | j :: rest =>
      let '(s, r) := run_job j o (s <| queue := rest |>) in
      s <| finished := finished s ++ [(j, r)] |>
  end.

Definition settle s : Engine C P :=
  match finished s with
  | [] => s
  | (j, r) :: rest =>
      let s := s <| finished := rest |> in
      let s := emit_ (JournalSettled j (is_Ok r)) s in
      resume j r s
  end.

(** ** Frames *)

(** [1002] is refused by [close]: an invalid receipt throws out of the handler
    and leaves the socket open. *)
Definition handleCommitted (payload : bytes) s : Engine C P :=
  if destroyed s || storageFatal s then s
  else match decodeCommitted payload with
       | Throw _ => match socket s with
                    | Some k => (socket_close (Some 1002) k s).2
                    | None => s
                    end
       | Ok receipt =>
           let s := s <| lastAckedVersion := Some (Protocol.rc_version receipt) |>
                      <| lastServerVV := Some (Protocol.rc_version receipt) |> in
           let s := if committedRevision s <? rc_revision receipt
                    then s <| committedRevision := rc_revision receipt |> else s in
           if doc_bound s
           then request (JobAcknowledge (emptyRecord s) (rc_id receipt) (Protocol.rc_version receipt)
                           (rc_revision receipt) true) s
           else s
       end.

Definition onMessage (raw : bytes) s : Engine C P :=
  if destroyed s || storageFatal s then s
  else match raw with
       | [] => s
       | tag :: payload =>
           let s := s <| counters := (counters s) <| received := received (counters s) + len raw |> |> in
           if (tag =? MSG_UPDATE) || (tag =? MSG_SNAPSHOT) then importRemote payload s
           else if (tag =? MSG_EPHEMERAL) || (tag =? MSG_PRESENCE_DELTA)
                   || (tag =? MSG_PRESENCE_SNAPSHOT) || (tag =? MSG_PRESENCE_REMOVAL) then
             s <| ephemeral := p_apply (ephemeral s) (wall s) payload |>
           else if tag =? MSG_SERVER_VV then
             maybePrune payload (s <| lastServerVV := Some payload |>)
           else if tag =? MSG_SYNCED then
             let s := s <| serverSynced := true |> in
             let s := clearSocketDeadline (socket s) s in
             synchronizeWithServer s
           else if tag =? MSG_COMMITTED then handleCommitted payload s
           else s
       end.

(** ** Presence *)

Definition on_presence_output s (o : output) : Engine C P :=
  match o with
  | Notify => s                                 (* refreshPeers: the peer list of the UI *)
  | LocalUpdate bs => send MSG_PRESENCE_DELTA bs s
  end.

Definition presence_call (r : P * res (list output)) s : Engine C P :=
  let s := s <| ephemeral := r.1 |> in
  match r.2 with Ok outs => foldl on_presence_output s outs | Throw _ => s end.

Definition publishUser s : Engine C P :=
  let u := user s in
  let participant := match u_id u with [] => presenceSiteId s | i => i end in
  presence_call (p_set (ephemeral s) (wall s) (userKey (presenceSiteId s))
    (VObj [(lit "active", VBool true);
           (lit "colorPreference", VNum (NInt (u_colorIndex u)));
           (lit "name", VStr (u_name u));
           (lit "colorClassName", VStr (lit "marks-user" ++ decimal (u_colorIndex u)));
           (lit "participantId", VStr participant)])) s.

Definition clearLocalPresence s : Engine C P :=
  let site := presenceSiteId s in
  let s := presence_call (p_delete (ephemeral s) (wall s) (userKey site)) s in
  presence_call (p_delete (ephemeral s) (wall s) (selectionKey site)) s.

(** A controller method, with its two callbacks called. *)
Definition with_activity (f : Controller -> Controller) s : Engine C P :=
  let before := calls (activity s) in
  let c := f (activity s) in
  let s := s <| activity := c |> in
  foldl (fun s p => match p with PublishActive => publishUser s | PublishInactive => clearLocalPresence s end)
    s (drop (length before) (calls c)).

(** ** Tabs, page and teardown *)

Definition scheduleTabSnapshot s : Engine C P :=
  if negb (bool_decide (snapshotReplyTimer s = None)) || destroyed s || storageFatal s
     || negb (doc_bound s) then s
  else
    let '(h, s) := arm TSnapshotReply 32 s in s <| snapshotReplyTimer := Some h |>.

Definition tab_snapshot_callback s : Engine C P :=
  let s := s <| snapshotReplyTimer := None |> in
  match this_doc s with
  | None => s
  | Some d =>
      if destroyed s || storageFatal s then s
      else match (exportFullSnapshot d).2 with
           | Ok bs => emit_ (TabSnapshot bs) s
           | Throw _ => s
           end
  end.

Definition flushLocalSave (after : after_checkpoint) s : Engine C P :=
  let s := if bool_decide (saveTimer s = None) then s else clear_save s in
  let s := checkpointJournal after s in
  flushMarkdownCheckpoint s.

Definition handleVisibility (hidden : bool) s : Engine C P :=
  if hidden then flushLocalSave Plain s else emit_ TabRequestSnapshot s.

Definition handlePageHide s : Engine C P :=
  let s := flushLocalSave Plain s in
  let s := with_activity pagehide s in
  let s := clearSocketErrorCloseDeadline None s in
  let s := clearSocketDeadline None s in
  drop_socket s.

(** [releaseReplicaAfterCheckpoint]: with no checkpoint to wait for the replica
    goes at once, otherwise when it settles or when the budget runs out. *)
Definition destroy s : Engine C P :=
  let waits := checkpoint_allowed s in
  let s := flushLocalSave ReleaseReplica s in
  let s := s <| destroyed := true |> in
  let s := settle_waiters Rejected s in
  let s := abort_admission s in
  let s := clearAuthorityChangeGrace s in
  let s := clearSocketErrorCloseDeadline None s in
  let s := clearSocketDeadline None s in
  let s := disarm (reconnectTimer s) s in
  let s := disarm (snapshotReplyTimer s) s in
  let s := disarm (presenceHeartbeat s) s in
  let s := with_activity disconnect s in
  let s := disarm (markdownTimer s) s in
  let s := drop_socket s in
  let s := s <| doc_bound := false |> in
  let s := if waits then (arm TRelease FINAL_CHECKPOINT_RELEASE_MS s).2 else release_replica s in
  s <| ephemeral := p_destroy (ephemeral s) |>.

(** ** Opening *)

Definition new_engine (docId : jstring) (access : bool) (user : LocalUser) (ephemeral : P)
    (activity : Controller) : Engine C P :=
  mkEngine docId access user None false ephemeral activity None None RECONNECT_MIN_MS None
    0%Q None None None None None 0 0 None (if access then None else Some RLocal)
    false false false false [] [] Connecting (Build_Counters 0 0 0 0 0 0 0 0)
    None None None None None None [] None None false false
    no_timers 0 0%Q ∅ [] [] [] [] ∅ 1 [].

Definition bindDocument (c : C) (siteId : jstring) s : Engine C P :=
  let s := s <| replica := Some (new_document c) |> <| doc_bound := true |>
             <| marksSiteId := siteId |> in
  let s := with_activity start s in
  let s := if bool_decide (presenceHeartbeat s = None) then
             let '(h, s) := arm THeartbeat HEARTBEAT_MS s in s <| presenceHeartbeat := Some h |>
           else s in
  let s := s <| ephemeral := p_subscribe (ephemeral s) |> in
  refreshTelemetry s.

(** The replica of a stored journal; an unreadable pending edit is fatal. *)
Definition restore_mutation s (m : JournalMutation) : Engine C P :=
  match replica s with
  | None => s
  | Some d =>
      match with_doc (import (jm_bytes m)) d s with
      | (s, Ok _) => s
      | (s, Throw _) =>
          recordStorageError "A journaled edit was corrupt and could not be restored." true s
      end
  end.

Definition stored_role (access : bool) (r : option Role) : option Role :=
  if access then (if bool_decide (r = Some RLocal) then None else r) else Some RLocal.

Definition start_stored (c : C) (stored : ReplicaJournalRecord) s : res (Engine C P) :=
  let s := s <| permissionRole := stored_role (access s) (role stored) |> in
  let s := s <| pendingMutations :=
               foldl (fun ms m => mset ms (jm_id m) m) (pendingMutations s) (pending stored) |> in
  let s := bindDocument c (siteId stored) s in
  restored ←
    match replica s with
    | Some d => if 0 <? len (snapshot stored)
                then match with_doc (applySnapshot (snapshot stored)) d s with
                     | (s, Ok _) => Ok s
                     | (_, Throw e) => Throw e
                     end
                else Ok s
    | None => Ok s
    end;
  let s := foldl restore_mutation restored (pending stored) in
  let s := s <| lastAckedVersion := ackedVersion stored |>
             <| committedRevision :=
                  dec_number (default (lit "0") (Journal.committedRevision stored)) |>
             <| lastPruneAt := match Journal.lastPruneAt stored with NInt z => z | _ => 0 end |>
             <| localSaved := true |> in
  Ok s.

Definition start_admitted (c : C) (ticket : RoomTicket) s : Engine C P :=
  let s := s <| pendingTicket := Some ticket |> in
  let s := applyTicketPermissions ticket s in
  bindDocument c (t_siteId ticket) s.

(** [doc.setText(text, { origin: 'import' })] while opening: a refusal rejects
    the whole start. *)
Definition import_text (text : jstring) s : res (Engine C P) :=
  match replica s with
  | Some d =>
      match with_doc (setText text {| o_origin := Some (lit "import"); o_undoGroup := None |}) d s with
      | (s, Ok _) => Ok s
      | (_, Throw e) => Throw e
      end
  | None => Ok s
  end.

Definition start_local (c : C) (siteId markdown : jstring) s : res (Engine C P) :=
  let s := bindDocument c siteId s in
  if 0 <? len markdown then import_text markdown s else Ok s.

Definition markHydrated s : Engine C P :=
  if isHydrated s then s
  else
    let s := s <| isHydrated := true |> in
    let s := if negb (access s) then setStatus Connected s else s in
    emit_ Hydrated s.

(** The built-in introduction: its stored replica is only a cache, tried out on a
    replica of its own first and dropped when it cannot be read. *)
Definition isAboutDocument (id : jstring) : bool := str_eqb id (lit "about-marks").

Definition usable_record (docId : jstring) (create : res C) (stored : option ReplicaJournalRecord) :
    option ReplicaJournalRecord :=
  match stored with
  | Some r =>
      if isAboutDocument docId
      then match (c ← create;
                  if 0 <? len (snapshot r)
                  then _ ← (applySnapshot (snapshot r) (new_document c)).2; Ok tt else Ok tt) with
           | Ok _ => Some r
           | Throw _ => None
           end
      else Some r
  | None => None
  end.

(** Its text is refreshed when [needsRefresh] says so of what the replica shows;
    a replica that cannot be read rejects the start. *)
Definition refresh_about (needsRefresh : jstring -> bool) (about : jstring) s : res (Engine C P) :=
  if negb (isAboutDocument (docId s)) || negb (doc_bound s) then Ok s
  else
    match replica s with
    | None => Ok s
    | Some d =>
        text ← (getText d).2;
        if needsRefresh text then import_text about s else Ok s
    end.

(** After the replica exists: the rest of [start] up to the snapshot fetch... *)
Definition finish_opening s : Engine C P := emit_ TabHello (markHydrated s).

(** Where the replica comes from: the stored journal, the room's admission, the
    local copy of the text. *)
Inductive replica_source :=
| FromJournal (record : ReplicaJournalRecord)
| FromRoom (ticket : RoomTicket)
| FromLocalCopy (siteId markdown : jstring).

Definition start (needsRefresh : jstring -> bool) (about : jstring) (c : C) (src : replica_source) s :
    res (Engine C P) :=
  s ← match src with
      | FromJournal r => start_stored c r s
      | FromRoom t => Ok (start_admitted c t s)
      | FromLocalCopy site markdown => start_local c site markdown s
      end;
  s ← refresh_about needsRefresh about s;
  Ok (finish_opening s).

(** ... and from its response on. *)
Definition loadServerSnapshot (response : option bytes) s : Engine C P :=
  match response with
  | Some bs =>
      if negb (access s) || negb (doc_bound s) || storageFatal s || destroyed s || (len bs =? 0)
      then s
      else importRemote bs
             (s <| counters := (counters s) <| received := received (counters s) + len bs |> |>)
  | None => s
  end.

Definition opened (response : option bytes) s : Engine C P :=
  let s := loadServerSnapshot response s in
  if destroyed s then s
  else
    let s := checkpointJournal Plain s in
    connect s.

(** ** Everything that can happen to an open engine *)

Inductive event :=
| EClock (wall' : Z) (mono' : Q)
| ESocketState (k : Z) (st : SocketState)
| EOpen (k : Z) | EMessage (k : Z) (raw : bytes) | EClose (k code : Z) | EError (k : Z)
| ETimer (handle : Z)
| EAdmission (controller : Z) (result : admission_result)
| EOnline | EOffline | EVisibility (hidden : bool) | EPageHide
| EEdit (m : SE (Doc C) unit)
| ETabHello | ETabMessage (bs : bytes) (kind : MutationKind)
| EExecute (o : outcome) | ESettle
| EWhenDurable (timeoutMs : Q)
| EActivity (e : PresenceActivity.event)
| EOpened (response : option bytes)
| EDestroy.

Definition on_open (k : Z) s : Engine C P :=
  if negb (bool_decide (socket s = Some k)) then s
  else
    let s := s <| reconnectDelay := RECONNECT_MIN_MS |> in
    let s := armSocketDeadline k SOCKET_INITIAL_SYNC_TIMEOUT_MS s in
    let '(e, r) := p_encodeAll (ephemeral s) (wall s) in
    let s := s <| ephemeral := e |> in
    match r with Ok bs => send MSG_PRESENCE_DELTA bs s | Throw _ => s end.

Definition waiter_timeout (w : Z) s : Engine C P :=
  let s := s <| durabilityWaiters := List.filter (fun x => negb (x.1 =? w)) (durabilityWaiters s) |> in
  emit_ (Rejected w) s.

Definition save_callback s : Engine C P :=
  checkpointJournal Plain (s <| saveTimer := None |>).

Definition markdown_callback s : Engine C P :=
  flushMarkdownCheckpoint (s <| markdownTimer := None |>).

Definition run_timer (k : timer_kind) s : Engine C P :=
  match k with
  | TReconnect => reconnect_callback s
  | TGrace => expireAuthorityChangeGrace s
  | TSocketDeadline k => socket_deadline_callback k s
  | TSocketError k => socket_error_callback k s
  | TSave => save_callback s
  | TMarkdown => markdown_callback s
  | TSnapshotReply => tab_snapshot_callback s
  | THeartbeat => with_activity heartbeat s
  | TWaiter w => waiter_timeout w s
  | TRelease => release_replica s
  end.

(** An interval stays armed; a timeout is used up. *)
Definition fire (handle : Z) s : Engine C P :=
  match expire handle (clock s) with
  | Some (THeartbeat, _) => run_timer THeartbeat s
  | Some (k, t) => run_timer k (s <| clock := t |>)
  | None => s
  end.

Definition step s (e : event) : Engine C P :=
  match e with
  | EClock w m => s <| wall := w |> <| mono := m |>
  | ESocketState k st => s <| net := <[k := st]> (net s) |>
  | EOpen k => on_open k (s <| net := <[k := {| readyState := OPEN; sendThrows := false |}]> (net s) |>)
  | EMessage k raw => if bool_decide (socket s = Some k) then onMessage raw s else s
  | EClose k code =>
      onDisconnect k (Some code)
        (s <| net := <[k := {| readyState := CLOSED; sendThrows := false |}]> (net s) |>)
  | EError k => onSocketError k s
  | ETimer h => fire h s
  | EAdmission c r =>
      if existsb (Z.eqb c) (admissions s)
      then admitAndConnect c r (s <| admissions := List.filter (fun x => negb (x =? c)) (admissions s) |>)
      else s
  | EOnline => handleOnline s
  | EOffline => handleOffline s
  | EVisibility hidden => handleVisibility hidden s
  | EPageHide => handlePageHide s
  | EEdit m => edit_document m s
  | ETabHello => scheduleTabSnapshot s
  | ETabMessage bs kind => importFromTab bs kind s
  | EExecute o => execute o s
  | ESettle => settle s
  | EWhenDurable t => whenDurable t s
  | EActivity e => with_activity (fun c => PresenceActivity.step c e) s
  | EOpened r => opened r s
  | EDestroy => destroy s
  end.

Definition run s (es : list event) : Engine C P := foldl step s es.
End Engine.
