(* ===== verification/EngineSafety.v ===== *)
(** A stopped engine stays stopped: after a terminal recovery, a fatal storage
    error or [destroy], no event makes the engine talk, connect or edit again
    (over [Engine], for every component, presence store and page). *)

From S2P Require Import Prelude.
From S2P Require Import Timers.
From S2P Require Import TextChange.
From S2P Require Import Bytes.
From S2P Require Import JsValue.
From S2P Require Import Protocol.
From S2P Require Import PresenceStore.
From S2P Require Import PresenceActivity.
From S2P Require Import Journal.
From S2P Require Import EsbtDocument.
From S2P Require Import EngineState.
From S2P Require Import Engine.

(** What a stopped engine may still do to the outside: report, reject, close,
    keep the local Markdown copy and ask other tabs - never send, connect,
    change the page's text or confirm durability. *)
Definition harmless (e : effect) : bool :=
  match e with
  | Sent _ _ | Opened _ _ | AdmissionRequested _ _ | Changed _ _ _ | Resolved _
  | TabUpdate _ | TabSnapshot _ | EditableChanged true => false
  | _ => true
  end.

(** Splits the outermost conditional of a goal about an engine. *)
Ltac branch :=
  match goal with
  | |- _ (if ?b then _ else _) => destruct b eqn:?
  | |- _ (match ?x with _ => _ end) => destruct x eqn:?
  | |- _ (match ?x with _ => _ end).2 => destruct x eqn:?
  | |- _ (if ?b then _ else _).2 => destruct b eqn:?
  | |- _ (let '(_, _) := ?x in _) => destruct x eqn:?
  end.

Section Stopped.
Context {C P : Type} `{Component C} `{Presence P} `{Randomness}.
Implicit Types (s : Engine C P).

(** Stopped, having done only harmless things since the log was [o0]. *)
Record still_since (o0 : list effect) s : Prop := {
  still_stopped : stopped s = true;
  still_out : exists es, out s = o0 ++ es /\ Forall (fun e => harmless e = true) es }.

Context (o0 : list effect).
#[local] Abbreviation still := (still_since o0).

(** Assignments to any field but the flags and the log. *)
Lemma still_frame s s' :
  still s -> destroyed s' = destroyed s -> storageFatal s' = storageFatal s -> out s' = out s ->
  still s'.
Proof.
  intros [Hs Ho] Hd Hf E. split; [| by rewrite E]. unfold stopped in *. by rewrite Hd, Hf.
Qed.

Lemma still_emit s e : still s -> harmless e = true -> still (emit_ e s).
Proof.
  intros [Hs (es & Ho & Hf)] He. split; [done |]. exists (es ++ [e]).
  change (out (emit_ e s)) with (out s ++ [e]). rewrite Ho, app_assoc.
  split; [done |]. apply Forall_app. by split; [| apply Forall_singleton].
Qed.

Lemma still_guard s Q : still s -> destroyed s = false -> storageFatal s = false -> Q.
Proof. intros [Hs _] Hd Hf. unfold stopped in Hs. by rewrite Hd, Hf in Hs. Qed.

Lemma still_capabilities s : still s -> edit (capabilities s) = false.
Proof.
  intros [Hs _]. unfold stopped, capabilities in *. rewrite orb_comm in Hs. rewrite Hs. done.
Qed.

Lemma still_not_durable s : still s -> isDurable s = false.
Proof. intros [Hs _]. unfold stopped, isDurable in *. by rewrite Hs. Qed.
End Stopped.

Create HintDb still discriminated.
#[export] Hint Constants Opaque : still.
#[export] Hint Resolve still_emit : still.
(** Leaves the engine before one assignment. *)
Ltac before_assignment frame :=
  lazymatch goal with
  | |- ?I (set_field ?g ?x) =>
      let Hx := fresh in
      enough (Hx : I x);
      [ revert Hx; generalize x; let y := fresh "y" in intros y Hx;
        refine (frame y _ Hx _ _ _); reflexivity
      | ]
  end.

#[export] Hint Extern 2 (still_since ?o (set_field _ _)) =>
  before_assignment uconstr:(@still_frame _ _ o) : still.
#[export] Hint Extern 3 (still_since _ _) =>
  lazymatch goal with |- still_since _ (match ?x with _ => _ end) => destruct x end : still.
#[export] Hint Extern 1 (harmless _ = true) => reflexivity : still.

(** Finishes a branch whose guard says the engine is not stopped. *)
Ltac not_stopped :=
  reflect_bools;
  match goal with
  | Hd : destroyed ?x = false, Hf : storageFatal ?x = false |- _ =>
      refine (still_guard _ x _ _ Hd Hf); eauto 60 with still
  end.

Ltac go_still :=
  cbv zeta;
  repeat (branch; cbv zeta);
  try (solve [not_stopped]);
  try (solve [eauto 60 with still]).

Section Methods.
Context {C P : Type} `{Component C} `{Presence P} `{Randomness} (o0 : list effect).
Implicit Types (s : Engine C P).
#[local] Abbreviation still := (still_since o0).

Lemma still_refreshEditorEditable s : still s -> still (refreshEditorEditable s).
Proof.
  intros Hs. apply still_emit; [done |]. by rewrite (still_capabilities o0).
Qed.

Lemma still_settle_waiter e s w : (forall x, harmless (e x) = true) -> still s -> still (settle_waiter e s w).
Proof. intros. unfold settle_waiter, disarm. eauto 60 with still. Qed.

Lemma still_settle_waiters e s : (forall x, harmless (e x) = true) -> still s -> still (settle_waiters e s).
Proof.
  intros He Hs. unfold settle_waiters. cbv zeta.
  cut (still (foldl (settle_waiter e) s (durabilityWaiters s))); [intros; eauto with still |].
  revert s Hs. assert (forall l s, still s -> still (foldl (settle_waiter e) s l)) as Hl; [|auto].
  induction l as [|w l IH]; intros s Hs; [done |]. apply IH. by apply still_settle_waiter.
Qed.

Lemma still_reject_waiters s : still s -> still (settle_waiters Rejected s).
Proof. by apply still_settle_waiters. Qed.
Hint Resolve still_refreshEditorEditable still_reject_waiters : still.

Lemma still_resolveDurabilityWaiters s : still s -> still (resolveDurabilityWaiters s).
Proof. intros Hs. unfold resolveDurabilityWaiters. by rewrite (still_not_durable o0). Qed.
Hint Resolve still_resolveDurabilityWaiters : still.

Lemma still_whenDurable t s : still s -> still (whenDurable t s).
Proof.
  intros Hs. unfold whenDurable, fresh, arm, setTimeout. cbv zeta beta iota.
  replace (isDurable _) with false by (symmetry; apply (still_not_durable o0); eauto with still).
  go_still.
Qed.

Lemma still_setStatus st s : still s -> still (setStatus st s).
Proof. intros Hs. unfold setStatus, status_target. go_still. Qed.

Lemma still_request j s : still s -> still (request j s).
Proof. intros. unfold request. eauto with still. Qed.
Hint Resolve still_whenDurable still_setStatus still_request : still.

Lemma still_checkpointJournal a s : still s -> still (checkpointJournal a s).
Proof. intros. unfold checkpointJournal. go_still. Qed.
Hint Resolve still_checkpointJournal : still.

Lemma still_applyPermissionRole r s : still s -> still (applyPermissionRole r s).
Proof. intros. unfold applyPermissionRole. go_still. Qed.

Lemma still_disarm o s : still s -> still (disarm o s).
Proof. intros. unfold disarm. eauto with still. Qed.
Hint Resolve still_applyPermissionRole still_disarm : still.

Lemma still_clearSocketDeadline k s : still s -> still (clearSocketDeadline k s).
Proof. intros. unfold clearSocketDeadline. go_still. Qed.
Hint Resolve still_clearSocketDeadline : still.

Lemma still_armSocketDeadline k t s : still s -> still (armSocketDeadline k t s).
Proof. intros. unfold armSocketDeadline, arm, setTimeout. go_still. Qed.

Lemma still_clearSocketErrorCloseDeadline k s : still s -> still (clearSocketErrorCloseDeadline k s).
Proof. intros. unfold clearSocketErrorCloseDeadline. go_still. Qed.

Lemma still_clearAuthorityChangeGrace s : still s -> still (clearAuthorityChangeGrace s).
Proof. intros. unfold clearAuthorityChangeGrace. go_still. Qed.

Lemma still_clear_reconnect s : still s -> still (clear_reconnect s).
Proof. intros. unfold clear_reconnect. go_still. Qed.
Lemma still_clear_snapshot_reply s : still s -> still (clear_snapshot_reply s).
Proof. intros. unfold clear_snapshot_reply. go_still. Qed.
Lemma still_clear_save s : still s -> still (clear_save s).
Proof. intros. unfold clear_save. go_still. Qed.
Lemma still_clear_markdown s : still s -> still (clear_markdown s).
Proof. intros. unfold clear_markdown. go_still. Qed.

Lemma still_abort_admission s : still s -> still (abort_admission s).
Proof. intros. unfold abort_admission. destruct (admissionAbort s); eauto with still. Qed.

Lemma still_socket_close c k s : still s -> still (socket_close c k s).2.
Proof. intros. unfold socket_close. destruct (close_code_ok c); cbn [snd]; eauto with still. Qed.

Hint Resolve still_armSocketDeadline still_clearSocketErrorCloseDeadline
  still_clearAuthorityChangeGrace still_clear_reconnect still_clear_snapshot_reply
  still_clear_save still_clear_markdown still_abort_admission still_socket_close : still.

Lemma still_drop_socket s : still s -> still (drop_socket s).
Proof. intros. unfold drop_socket. go_still. Qed.
Hint Resolve still_drop_socket : still.

Lemma still_report n s : still s -> still (report n s).
Proof. intros. unfold report. eauto with still. Qed.
Hint Resolve still_report : still.

Lemma still_enterTerminalRecovery c m s : still s -> still (enterTerminalRecovery c m s).
Proof. intros. unfold enterTerminalRecovery. go_still. Qed.

(** [storage_stop] sets a flag, it clears none. *)
Lemma still_set_fatal s : still s -> still (s <| storageFatal := true |>).
Proof. intros [Hs Ho]. split; [| exact Ho]. unfold stopped. cbn. by rewrite orb_true_r. Qed.
Lemma still_set_destroyed s : still s -> still (s <| destroyed := true |>).
Proof. intros [Hs Ho]. split; [| exact Ho]. done. Qed.
Hint Resolve still_enterTerminalRecovery : still.

Lemma still_storage_stop n s : still s -> still (storage_stop n s).
Proof.
  intros Hs. unfold storage_stop. apply still_set_fatal in Hs. cbv zeta.
  revert Hs. generalize (s <| storageFatal := true |>). intros s' Hs. eauto 60 with still.
Qed.
Hint Resolve still_storage_stop : still.

Lemma still_recordStorageError m f s : still s -> still (recordStorageError m f s).
Proof. intros. unfold recordStorageError. cbv zeta. destruct (storageFatal s); [done |]. destruct f; eauto with still. Qed.
Hint Resolve still_recordStorageError : still.

Lemma still_openSocket t s : still s -> still (openSocket t s).
Proof. intros. unfold openSocket, fresh. go_still. Qed.
Hint Resolve still_openSocket : still.

Lemma still_expireAuthorityChangeGrace s : still s -> still (expireAuthorityChangeGrace s).
Proof. intros. unfold expireAuthorityChangeGrace, arm, setTimeout. go_still. Qed.
Hint Resolve still_expireAuthorityChangeGrace : still.

Lemma still_connect s : still s -> still (connect s).
Proof. intros. unfold connect, fresh. go_still. Qed.
Hint Resolve still_connect : still.

Lemma still_beginAuthorityChangeGrace q s : still s -> still (beginAuthorityChangeGrace q s).
Proof. intros. unfold beginAuthorityChangeGrace, arm, setTimeout. go_still. Qed.
Hint Resolve still_beginAuthorityChangeGrace : still.

Lemma still_scheduleReconnect s : still s -> still (scheduleReconnect s).
Proof. intros. unfold scheduleReconnect, fresh, arm, setTimeout. go_still. Qed.
Hint Resolve still_scheduleReconnect : still.

Lemma still_reconnect_callback s : still s -> still (reconnect_callback s).
Proof. intros. unfold reconnect_callback. go_still. Qed.
Hint Resolve still_reconnect_callback : still.

Lemma still_onDisconnect k c s : still s -> still (onDisconnect k c s).
Proof. intros. unfold onDisconnect. go_still. Qed.
Hint Resolve still_onDisconnect : still.

Lemma still_onSocketError k s : still s -> still (onSocketError k s).
Proof. intros. unfold onSocketError, arm, setTimeout. go_still. Qed.
Hint Resolve still_onSocketError : still.

Lemma still_socket_error_callback k s : still s -> still (socket_error_callback k s).
Proof. intros. unfold socket_error_callback. go_still. Qed.
Hint Resolve still_socket_error_callback : still.

Lemma still_socket_deadline_callback k s : still s -> still (socket_deadline_callback k s).
Proof. intros. unfold socket_deadline_callback. go_still. Qed.
Hint Resolve still_socket_deadline_callback : still.

Lemma still_applyTicketPermissions t s : still s -> still (applyTicketPermissions t s).
Proof. intros. unfold applyTicketPermissions. go_still. Qed.
Hint Resolve still_applyTicketPermissions : still.

Lemma still_admitAndConnect c r s : still s -> still (admitAndConnect c r s).
Proof. intros. unfold admitAndConnect. go_still. Qed.
Hint Resolve still_admitAndConnect : still.

Lemma still_handleOnline s : still s -> still (handleOnline s).
Proof. intros. unfold handleOnline. go_still. Qed.
Hint Resolve still_handleOnline : still.

Lemma still_handleOffline s : still s -> still (handleOffline s).
Proof. intros. unfold handleOffline. go_still. Qed.
Hint Resolve still_handleOffline : still.

Lemma still_send t bs s : still s -> still (send t bs s).
Proof. intros. unfold send. go_still. Qed.
Hint Resolve still_send : still.

Lemma still_persistAndSendMutation bs k b s : still s -> still (persistAndSendMutation bs k b s).
Proof. intros. unfold persistAndSendMutation, fresh. go_still. Qed.
Hint Resolve still_persistAndSendMutation : still.

Lemma still_scheduleLocalSave s : still s -> still (scheduleLocalSave s).
Proof. intros. unfold scheduleLocalSave, arm, setTimeout. go_still. Qed.
Hint Resolve still_scheduleLocalSave : still.

Lemma still_flushMarkdownCheckpoint s : still s -> still (flushMarkdownCheckpoint s).
Proof. intros. unfold flushMarkdownCheckpoint. go_still. Qed.
Hint Resolve still_flushMarkdownCheckpoint : still.

Lemma still_scheduleMarkdownCheckpoint s : still s -> still (scheduleMarkdownCheckpoint s).
Proof. intros. unfold scheduleMarkdownCheckpoint, arm, setTimeout. go_still. Qed.
Hint Resolve still_scheduleMarkdownCheckpoint : still.

Lemma still_refreshTelemetry s : still s -> still (refreshTelemetry s).
Proof. intros. unfold refreshTelemetry. go_still. Qed.
Hint Resolve still_refreshTelemetry : still.

Lemma still_emitEngineError e s : still s -> still (emitEngineError e s).
Proof. intros. unfold emitEngineError. go_still. Qed.
Hint Resolve still_emitEngineError : still.

Lemma still_sendMutation m s : still s -> still (sendMutation m s).2.
Proof. intros. unfold sendMutation. go_still. Qed.
Hint Resolve still_sendMutation : still.

Lemma still_sendPendingMutations s : still s -> still (sendPendingMutations s).2.
Proof. intros. unfold sendPendingMutations. go_still. Qed.
Hint Resolve still_sendPendingMutations : still.

(** Pruning tells no listener anything. *)
Lemma with_doc_prune v d s :
  exists d' r, with_doc (pruneHistoryThrough v) d s = (s <| replica := Some d' |>, r).
Proof.
  unfold with_doc, pruneHistoryThrough, mbind, SE_bind, assertLive, call_c. cbn [EsbtDocument.destroyed].
  destruct (EsbtDocument.destroyed d); [by eexists _, _ |]. cbn [component].
  destruct (c_pruneHistoryThrough (component d) v) as [c' r]. by eexists _, _.
Qed.

Lemma still_importRemote bs s : still s -> still (importRemote bs s).
Proof. intros. unfold importRemote, this_doc. go_still. Qed.

Lemma still_edit_document {A} (m : SE (Doc C) A) s : still s -> still (edit_document m s).
Proof.
  intros. unfold edit_document. rewrite (still_capabilities o0) by done. cbn [negb].
  by destruct (this_doc s).
Qed.
Hint Resolve still_importRemote still_edit_document : still.

Lemma still_sendMissingSince v s : still s -> still (sendMissingSince v s).
Proof. intros. unfold sendMissingSince. go_still. Qed.
Hint Resolve still_sendMissingSince : still.

Lemma still_synchronizeWithServer s : still s -> still (synchronizeWithServer s).
Proof. intros. unfold synchronizeWithServer. go_still. Qed.
Hint Resolve still_synchronizeWithServer : still.

Lemma still_importFromTab bs k s : still s -> still (importFromTab bs k s).
Proof. intros. unfold importFromTab. go_still. Qed.
Hint Resolve still_importFromTab : still.

Lemma still_maybePrune v s : still s -> still (maybePrune v s).
Proof.
  intros. unfold maybePrune. destruct (historyMaintenance s); [done |].
  destruct (this_doc s) as [d|]; [|done]. destruct (storageFatal s); [done |].
  destruct (retainedOperations d).2; [|done]. destruct (negb _); [done |].
  destruct (_ || _); [|done]. destruct (with_doc_prune v d s) as (d' & r & ->). go_still.
Qed.

Lemma still_compactDurableLocalHistory s : still s -> still (compactDurableLocalHistory s).
Proof. intros. unfold compactDurableLocalHistory. go_still. Qed.
Hint Resolve still_maybePrune still_compactDurableLocalHistory : still.

Lemma still_compact_resume r s : still s -> still (compact_resume r s).
Proof.
  intros. unfold compact_resume. destruct r as [archive|e]; [|go_still].
  destruct (replica s) as [d|]; [|go_still]. destruct (version d).2 as [v|e]; [|go_still].
  edestruct with_doc_prune as (d' & r & ->). go_still.
Qed.

Hint Resolve still_compact_resume : still.

Lemma still_persist_resume m b r s : still s -> still (persist_resume m b r s).
Proof. intros. unfold persist_resume. go_still. Qed.
Hint Resolve still_persist_resume : still.

Lemma still_acknowledge_local_resume id r s : still s -> still (acknowledge_local_resume id r s).
Proof. intros. unfold acknowledge_local_resume. go_still. Qed.
Hint Resolve still_acknowledge_local_resume : still.

Lemma still_acknowledge_server_resume id v r s : still s -> still (acknowledge_server_resume id v r s).
Proof. intros. unfold acknowledge_server_resume. go_still. Qed.
Hint Resolve still_acknowledge_server_resume : still.

Lemma still_release_replica s : still s -> still (release_replica s).
Proof. intros. unfold release_replica. go_still. Qed.
Hint Resolve still_release_replica : still.

Lemma still_checkpoint_resume a r s : still s -> still (checkpoint_resume a r s).
Proof. intros. unfold checkpoint_resume. go_still. Qed.
Hint Resolve still_checkpoint_resume : still.

Lemma still_resume j r s : still s -> still (resume j r s).
Proof. intros. unfold resume. go_still. Qed.
Hint Resolve still_resume : still.

Lemma still_execute w s : still s -> still (execute w s).
Proof.
  intros Hs. unfold execute, run_job. destruct (queue s) as [|j rest]; [done |]. cbv zeta.
  destruct (job_op _ _) as [op|e]; [|go_still]. destruct (run_op _ _ _) as [db' r]. destruct w; go_still.
Qed.

Lemma still_settle s : still s -> still (settle s).
Proof. intros. unfold settle. go_still. Qed.
Hint Resolve still_settle : still.

Lemma still_handleCommitted bs s : still s -> still (handleCommitted bs s).
Proof. intros. unfold handleCommitted. go_still. Qed.
Hint Resolve still_handleCommitted : still.

Lemma still_onMessage bs s : still s -> still (onMessage bs s).
Proof. intros. unfold onMessage. go_still. Qed.
Hint Resolve still_onMessage : still.

Lemma still_presence_call r s : still s -> still (presence_call r s).
Proof.
  intros Hs. unfold presence_call. cbv zeta. destruct r.2 as [outs|e]; [|go_still].
  assert (still (s <| ephemeral := r.1 |>)) as Hi by eauto with still.
  revert Hi. generalize (s <| ephemeral := r.1 |>). induction outs as [|o outs IH]; intros s' Hi; [done |].
  apply IH. destruct o; [done |]. unfold on_presence_output. eauto with still.
Qed.
Hint Resolve still_presence_call still_execute : still.

Lemma still_publishUser s : still s -> still (publishUser s).
Proof. intros. unfold publishUser. go_still. Qed.
Hint Resolve still_publishUser : still.

Lemma still_clearLocalPresence s : still s -> still (clearLocalPresence s).
Proof. intros. unfold clearLocalPresence. go_still. Qed.
Hint Resolve still_clearLocalPresence : still.

Lemma still_with_activity f s : still s -> still (with_activity f s).
Proof.
  intros Hs. unfold with_activity. cbv zeta.
  assert (still (s <| activity := f (activity s) |>)) as Hi by eauto with still.
  revert Hi. generalize (s <| activity := f (activity s) |>).
  induction (drop _ _) as [|p ps IH]; intros s' Hi; [done |]. apply IH. destruct p; eauto with still.
Qed.
Hint Resolve still_with_activity : still.

Lemma still_scheduleTabSnapshot s : still s -> still (scheduleTabSnapshot s).
Proof. intros. unfold scheduleTabSnapshot, arm, setTimeout. go_still. Qed.
Hint Resolve still_scheduleTabSnapshot : still.

Lemma still_tab_snapshot_callback s : still s -> still (tab_snapshot_callback s).
Proof. intros. unfold tab_snapshot_callback. go_still. Qed.
Hint Resolve still_tab_snapshot_callback : still.

Lemma still_flushLocalSave a s : still s -> still (flushLocalSave a s).
Proof. intros. unfold flushLocalSave. go_still. Qed.
Hint Resolve still_flushLocalSave : still.

Lemma still_handleVisibility h s : still s -> still (handleVisibility h s).
Proof. intros. unfold handleVisibility. go_still. Qed.
Hint Resolve still_handleVisibility : still.

Lemma still_handlePageHide s : still s -> still (handlePageHide s).
Proof. intros. unfold handlePageHide. go_still. Qed.
Hint Resolve still_handlePageHide : still.

Lemma still_loadServerSnapshot r s : still s -> still (loadServerSnapshot r s).
Proof. intros. unfold loadServerSnapshot. go_still. Qed.
Hint Resolve still_loadServerSnapshot : still.

Lemma still_opened r s : still s -> still (opened r s).
Proof. intros. unfold opened. go_still. Qed.
Hint Resolve still_opened : still.

Lemma still_on_open k s : still s -> still (on_open k s).
Proof. intros. unfold on_open. go_still. Qed.
Hint Resolve still_on_open : still.

Lemma still_waiter_timeout w s : still s -> still (waiter_timeout w s).
Proof. intros. unfold waiter_timeout. go_still. Qed.
Hint Resolve still_waiter_timeout : still.

Lemma still_save_callback s : still s -> still (save_callback s).
Proof. intros. unfold save_callback. go_still. Qed.
Hint Resolve still_save_callback : still.

Lemma still_markdown_callback s : still s -> still (markdown_callback s).
Proof. intros. unfold markdown_callback. go_still. Qed.
Hint Resolve still_markdown_callback : still.

Lemma still_run_timer k s : still s -> still (run_timer k s).
Proof. intros. unfold run_timer. go_still. Qed.
Hint Resolve still_run_timer : still.

Lemma still_fire h s : still s -> still (fire h s).
Proof. intros. unfold fire. go_still. Qed.
Hint Resolve still_fire : still.

Lemma still_destroy s : still s -> still (destroy s).
Proof.
  intros Hs. unfold destroy, arm, setTimeout. cbv zeta.
  assert (still ((flushLocalSave ReleaseReplica s) <| destroyed := true |>)) as Hd
    by (apply still_set_destroyed; eauto with still).
  revert Hd. generalize ((flushLocalSave ReleaseReplica s) <| destroyed := true |>). intros s' Hd.
  destruct (checkpoint_allowed s); cbn [snd]; eauto 60 with still.
Qed.
Hint Resolve still_destroy : still.

Lemma still_step s e : still s -> still (step s e).
Proof. intros. unfold step. go_still. Qed.
End Methods.

#[export] Hint Resolve still_refreshEditorEditable still_reject_waiters
  still_resolveDurabilityWaiters still_whenDurable still_setStatus still_request
  still_checkpointJournal still_applyPermissionRole still_disarm still_clearSocketDeadline
  still_armSocketDeadline still_clearSocketErrorCloseDeadline still_clearAuthorityChangeGrace
  still_clear_reconnect still_clear_snapshot_reply still_clear_save still_clear_markdown
  still_abort_admission still_socket_close still_drop_socket still_report
  still_enterTerminalRecovery still_storage_stop still_recordStorageError still_openSocket
  still_expireAuthorityChangeGrace still_connect still_beginAuthorityChangeGrace
  still_scheduleReconnect still_reconnect_callback still_onDisconnect still_onSocketError
  still_socket_error_callback still_socket_deadline_callback still_applyTicketPermissions
  still_admitAndConnect still_handleOnline still_handleOffline still_send
  still_persistAndSendMutation still_scheduleLocalSave still_flushMarkdownCheckpoint
  still_scheduleMarkdownCheckpoint still_refreshTelemetry still_emitEngineError
  still_sendMutation still_sendPendingMutations still_importRemote still_edit_document
  still_sendMissingSince still_synchronizeWithServer still_importFromTab still_maybePrune
  still_compactDurableLocalHistory still_compact_resume still_persist_resume
  still_acknowledge_local_resume still_acknowledge_server_resume still_release_replica
  still_checkpoint_resume still_resume still_execute still_settle still_handleCommitted
  still_onMessage still_presence_call still_publishUser still_clearLocalPresence
  still_with_activity still_scheduleTabSnapshot still_tab_snapshot_callback
  still_flushLocalSave still_handleVisibility still_handlePageHide still_loadServerSnapshot
  still_opened still_on_open still_waiter_timeout still_save_callback still_markdown_callback
  still_run_timer still_fire still_destroy still_step : still.

Section Final.
Context {C P : Type} `{Component C} `{Presence P} `{Randomness}.
Implicit Types (s : Engine C P).

Lemma still_start s : stopped s = true -> still_since (out s) s.
Proof. intros. split; [done |]. exists []. by rewrite app_nil_r. Qed.

Lemma still_run o0 s es : still_since o0 s -> still_since o0 (run s es).
Proof. revert s. induction es as [|e r IH]; intros s Hs; [done |]. apply IH. by apply still_step. Qed.

(** C8. A stopped engine is final: whatever happens next - network events,
    timers, admissions, journal completions, edits, other tabs, page events -
    it stays stopped, grants no capability, confirms no durability, and never
    again sends a frame, opens a socket, asks for admission, changes the page's
    text or tells other tabs about an edit. *)
Theorem stopped_is_final s es :
  stopped s = true ->
  stopped (run s es) = true /\
  capabilities (run s es) = no_capabilities (permissionRole (run s es)) /\
  isDurable (run s es) = false /\
  exists effects, out (run s es) = out s ++ effects /\
    Forall (fun e => harmless e = true) effects.
Proof.
  intros Hs. pose proof (still_run (out s) s es (still_start s Hs)) as Hr.
  split_and!; [apply Hr | | eapply still_not_durable, Hr | apply Hr].
  destruct Hr as [Hr _]. unfold capabilities. unfold stopped in Hr. rewrite orb_comm in Hr.
  rewrite Hr. by destruct (permissionRole (run s es)) as [[]|].
Qed.

(** The common end of both terminal paths. *)
Lemma settle_waiters_facts e s :
  out (settle_waiters e s) = out s ++ map (fun w => e w.1) (durabilityWaiters s) /\
  durabilityWaiters (settle_waiters e s) = [] /\
  socket (settle_waiters e s) = socket s /\ reconnectTimer (settle_waiters e s) = reconnectTimer s.
Proof.
  unfold settle_waiters. cbv zeta. cbn [durabilityWaiters].
  assert (forall l s, out (foldl (settle_waiter e) s l) = out s ++ map (fun w => e w.1) l /\
    socket (foldl (settle_waiter e) s l) = socket s /\
    reconnectTimer (foldl (settle_waiter e) s l) = reconnectTimer s) as Hl.
  { induction l as [|w l IH]; intros s'; [cbn; by rewrite app_nil_r |]. cbn [foldl map].
    destruct (IH (settle_waiter e s' w)) as (-> & -> & ->).
    change (out (settle_waiter e s' w)) with (out s' ++ [e w.1]). by rewrite <- app_assoc. }
  destruct (Hl (durabilityWaiters s) s) as (Ho & Hs & Hr).
  split_and!; [exact Ho | done | exact Hs | exact Hr].
Qed.

Lemma out_prefix_in o0 s (e : effect) : still_since o0 s -> e ∈ o0 -> e ∈ out s.
Proof. intros [_ (es & -> & _)] He. apply elem_of_app. by left. Qed.

Lemma socket_drop_socket s : socket (drop_socket s) = None.
Proof. unfold drop_socket. destruct (socket s) eqn:E; [done | exact E]. Qed.

Lemma setStatus_stopped st s :
  stopped s = true -> socket (setStatus st s) = socket s /\
  durabilityWaiters (setStatus st s) = durabilityWaiters s.
Proof.
  intros Hs. unfold setStatus. destruct (status_target st s) as [st'|]; [|done].
  destruct (bool_decide _); [done |]. cbv zeta. unfold resolveDurabilityWaiters.
  rewrite (still_not_durable (out s)); [done |]. apply still_emit; [|done]. split; [exact Hs |]. exists []. by rewrite app_nil_r.
Qed.

(** What both terminal paths leave behind, given the log and the waiters that
    the engine had before. *)
Record fallen (o0 : list effect) (ws : list (Z * Z)) s : Prop := {
  fa_still : still_since o0 s;
  fa_socket : socket s = None;
  fa_waiters : durabilityWaiters s = [];
  fa_rejected : forall w, w ∈ ws -> Rejected w.1 ∈ out s }.

Lemma reject_all_fallen o0 s :
  still_since o0 s -> socket s = None -> fallen o0 (durabilityWaiters s) (settle_waiters Rejected s).
Proof.
  intros Hs Hk. destruct (settle_waiters_facts Rejected s) as (Ho & Hn & Hk' & _).
  split; [by apply still_reject_waiters | congruence | done |].
  intros w Hin. rewrite Ho. apply elem_of_app. right. apply list_elem_of_fmap. by exists w.
Qed.

(** Later steps that keep the socket and the waiters and only add to the log. *)
Lemma fallen_later o0 ws x y :
  fallen o0 ws x -> still_since o0 y -> socket y = socket x ->
  durabilityWaiters y = durabilityWaiters x -> (exists es, out y = out x ++ es) -> fallen o0 ws y.
Proof.
  intros [F1 F2 F3 F4] Hy Hk Hw [es He]. split; [done | congruence | congruence |].
  intros w Hin. rewrite He. apply elem_of_app. left. by apply F4.
Qed.

Lemma fallen_report o0 ws n x : fallen o0 ws x -> fallen o0 ws (report n x).
Proof.
  intros Hx. eapply fallen_later; [exact Hx | eapply still_report, fa_still, Hx | done | done |].
  by exists [ErrorReported n].
Qed.

Lemma fallen_request o0 ws j x : fallen o0 ws x -> fallen o0 ws (request j x).
Proof.
  intros Hx. eapply fallen_later; [exact Hx | eapply still_request, fa_still, Hx | done | done |].
  by exists [JournalRequested j].
Qed.

Lemma fallen_maintenance o0 ws b x : fallen o0 ws x -> fallen o0 ws (x <| historyMaintenance := b |>).
Proof.
  intros Hx. eapply fallen_later; [exact Hx | destruct Hx; eauto with still | done | done |].
  exists []. by rewrite app_nil_r.
Qed.

Lemma drop_socket_waiters s : durabilityWaiters (drop_socket s) = durabilityWaiters s.
Proof. unfold drop_socket. by destruct (socket s). Qed.

Lemma abort_admission_waiters s : durabilityWaiters (abort_admission s) = durabilityWaiters s.
Proof. unfold abort_admission. by destruct (admissionAbort s). Qed.

Lemma clearSocketDeadline_waiters k s :
  durabilityWaiters (clearSocketDeadline k s) = durabilityWaiters s.
Proof. unfold clearSocketDeadline. by destruct (_ && _). Qed.

Lemma clearSocketErrorCloseDeadline_waiters k s :
  durabilityWaiters (clearSocketErrorCloseDeadline k s) = durabilityWaiters s.
Proof. unfold clearSocketErrorCloseDeadline. by destruct (_ && _). Qed.

(** The small methods leave the waiters alone. *)
Lemma waiters_serverSynced s b : durabilityWaiters (s <| serverSynced := b |>) = durabilityWaiters s.
Proof. done. Qed.
Lemma waiters_clearAuthorityChangeGrace s : durabilityWaiters (clearAuthorityChangeGrace s) = durabilityWaiters s.
Proof. done. Qed.
Lemma waiters_clear_reconnect s : durabilityWaiters (clear_reconnect s) = durabilityWaiters s.
Proof. done. Qed.
Lemma waiters_clear_snapshot_reply s : durabilityWaiters (clear_snapshot_reply s) = durabilityWaiters s.
Proof. done. Qed.
Lemma waiters_clear_markdown s : durabilityWaiters (clear_markdown s) = durabilityWaiters s.
Proof. done. Qed.
Lemma waiters_clear_save s : durabilityWaiters (clear_save s) = durabilityWaiters s.
Proof. done. Qed.
Lemma waiters_refreshEditorEditable s : durabilityWaiters (refreshEditorEditable s) = durabilityWaiters s.
Proof. done. Qed.

Ltac same_waiters :=
  rewrite ?waiters_serverSynced, ?clearSocketDeadline_waiters, ?clearSocketErrorCloseDeadline_waiters,
    ?waiters_clear_save, ?waiters_clear_snapshot_reply, ?waiters_clear_reconnect,
    ?clearSocketDeadline_waiters, ?clearSocketErrorCloseDeadline_waiters,
    ?waiters_clearAuthorityChangeGrace, ?abort_admission_waiters,
    ?waiters_clear_reconnect, ?waiters_clear_markdown, ?waiters_clear_save,
    ?waiters_refreshEditorEditable.

(** Going offline with the socket dropped. *)
Lemma offline_facts o0 s :
  still_since o0 s ->
  let off := setStatus Offline (drop_socket s) in
  still_since o0 off /\ socket off = None /\ durabilityWaiters off = durabilityWaiters s.
Proof.
  intros Hs. assert (still_since o0 (drop_socket s)) as Hd by eauto with still.
  destruct (setStatus_stopped Offline (drop_socket s)) as [Hk Hw]; [apply Hd |]. cbv zeta.
  split_and!; [eauto with still | rewrite Hk; apply socket_drop_socket |].
  by rewrite Hw, drop_socket_waiters.
Qed.

Lemma storage_stop_fallen n s o0 ws :
  out s = o0 -> durabilityWaiters s = ws -> fallen o0 ws (storage_stop n s).
Proof.
  intros <- <-. unfold storage_stop. cbv zeta.
  assert (still_since (out s) (s <| storageFatal := true |> <| localSaved := false |>)) as Hs.
  { split; [unfold stopped; cbn; apply orb_true_r |]. exists []. by rewrite app_nil_r. }
  change (durabilityWaiters s)
    with (durabilityWaiters (s <| storageFatal := true |> <| localSaved := false |>)).
  revert Hs. generalize (s <| storageFatal := true |> <| localSaved := false |>). intros x Hx.
  match goal with |- context [drop_socket ?d] =>
    assert (durabilityWaiters d = durabilityWaiters x) as <-; [| assert (still_since (out s) d) as Hd] end.
  - by same_waiters.
  - eauto 60 with still.
  - destruct (offline_facts (out s) _ Hd) as (H2 & H3 & <-). by apply reject_all_fallen.
Qed.

Lemma recordStorageError_fallen m s o0 ws :
  storageFatal s = false -> out s = o0 -> durabilityWaiters s = ws ->
  fallen o0 ws (recordStorageError m true s).
Proof.
  intros Hf <- <-. unfold recordStorageError. rewrite Hf. cbv zeta.
  set (n := {| n_code := -1; n_message := (m ++ disabled_advice)%string |}).
  apply fallen_report. by apply storage_stop_fallen.
Qed.

Lemma release_fallen o0 ws s : fallen o0 ws s -> fallen o0 ws (release_replica s).
Proof.
  intros Hs. unfold release_replica. destruct (replica s); [|done].
  eapply fallen_later; [exact Hs | destruct Hs; eauto with still | done | done |].
  exists []. by rewrite app_nil_r.
Qed.

Lemma failed_resume_fallen j e s o0 ws :
  storageFatal s = false -> out s = o0 -> durabilityWaiters s = ws ->
  fallen o0 ws (resume j (Throw e) s).
Proof.
  intros Hf <- <-. destruct j as [f m b|f id v rev [|]|f a|f]; cbn [resume];
    unfold persist_resume, acknowledge_server_resume, acknowledge_local_resume, checkpoint_resume, compact_resume;
    cbv zeta.
  1,2,3: by apply recordStorageError_fallen.
  - pose proof (recordStorageError_fallen "The offline checkpoint could not be written."
      (s <| localSaved := false |>) (out s) (durabilityWaiters s) Hf eq_refl eq_refl) as Hx.
    destruct a; [exact Hx | by apply fallen_maintenance | by apply release_fallen].
  - by apply recordStorageError_fallen.
Qed.

(** C10. Fail-stop on storage: whatever journal request fails - an append, an
    acknowledgement, a checkpoint or an archive - the engine stops at once: its
    socket is dropped, every durability waiter is rejected, and nothing is sent,
    confirmed or shown in between. *)
Theorem failed_journal_request_stops s j e rest :
  finished s = (j, Throw e) :: rest -> storageFatal s = false ->
  let s' := step s ESettle in
  stopped s' = true /\ socket s' = None /\ durabilityWaiters s' = [] /\
  (forall w, w ∈ durabilityWaiters s -> Rejected w.1 ∈ out s') /\
  exists effects, out s' = out s ++ effects /\ Forall (fun e => harmless e = true) effects.
Proof.
  intros Hq Hf. unfold step, settle. rewrite Hq. cbv zeta.
  assert (fallen (out s ++ [JournalSettled j false]) (durabilityWaiters s)
    (resume j (Throw e) (emit_ (JournalSettled j (is_Ok (Throw e : res ReplicaJournalRecord)))
      (s <| finished := rest |>)))) as [[Hs (es & Ho & Hes)] F2 F3 F4]
    by (apply failed_resume_fallen; [exact Hf | done | done]).
  split_and!; [exact Hs | exact F2 | exact F3 | exact F4 |].
  exists (JournalSettled j false :: es). split; [| by constructor].
  etransitivity; [exact Ho |]. cbn. by rewrite <- app_assoc.
Qed.

Lemma enterTerminalRecovery_fallen c m s o0 ws :
  stopped s = false -> out s = o0 -> durabilityWaiters s = ws ->
  fallen o0 ws (enterTerminalRecovery c m s).
Proof.
  intros Hs <- <-. unfold enterTerminalRecovery. unfold stopped in Hs. rewrite Hs. cbv zeta.
  set (n := {| n_code := c; n_message := (m ++ recovery_advice)%string |}).
  set (x := s <| terminalError := _ |> <| destroyed := true |> <| permissionRole := None |>
              <| serverSynced := false |>).
  assert (still_since (out s) x) as Hx.
  { split; [done |]. exists []. by rewrite app_nil_r. }
  assert (durabilityWaiters x = durabilityWaiters s) as Hw by done.
  match goal with |- context [drop_socket ?d] =>
    assert (durabilityWaiters d = durabilityWaiters s) as Hd;
    [| assert (still_since (out s) d) as Hsd by eauto 60 with still;
       destruct (offline_facts (out s) d Hsd) as (Hoff & Hk & Hwo); rewrite Hd in Hwo;
       revert Hoff Hk Hwo; generalize (setStatus Offline (drop_socket d)) ]
  end.
  { rewrite <- Hw. by same_waiters. }
  clear x Hx Hw Hd Hsd. intros off Hoff Hk Hwo.
  assert (still_since (out s) (refreshEditorEditable off)) as Hr by eauto with still.
  pose proof (reject_all_fallen (out s) _ Hr Hk) as Hfall.
  change (durabilityWaiters (refreshEditorEditable off)) with (durabilityWaiters off) in Hfall.
  rewrite Hwo in Hfall.
  apply (fallen_report _ _ n) in Hfall. revert Hfall.
  generalize (report n (settle_waiters Rejected (refreshEditorEditable off))). intros y Hy.
  destruct (doc_bound y); [|exact Hy]. unfold checkpointJournal.
  destruct (checkpoint_allowed y); [by apply fallen_request | exact Hy].
Qed.

(** What the small methods leave alone, and that they arm no timer. *)
Record hush s (x : Engine C P) : Prop := {
  hu_access : access x = access s;
  hu_fatal : storageFatal x = storageFatal s;
  hu_destroyed : destroyed x = destroyed s;
  hu_role : permissionRole x = permissionRole s;
  hu_retry : reconnectTimer x = reconnectTimer s;
  hu_admission : admissionAbort x = admissionAbort s;
  hu_status : currentStatus x = currentStatus s;
  hu_armed : t_armed (clock x) ⊆ t_armed (clock s) }.

Lemma hush_refl s : hush s s.
Proof. by split. Qed.

Lemma hush_trans s (x y : Engine C P) : hush s x -> hush x y -> hush s y.
Proof. intros [] []. split; [congruence .. | by etrans]. Qed.

Lemma clear_opt_subseteq {K} o (t : timers K) : t_armed (clear_opt o t) ⊆ t_armed t.
Proof. destruct o; [apply delete_subseteq | done]. Qed.

Lemma hush_disarm o s : hush s (disarm o s).
Proof. split; cbn; [done .. | apply clear_opt_subseteq]. Qed.

Lemma hush_emit e s : hush s (emit_ e s).
Proof. by split. Qed.

Lemma hush_clearSocketDeadline k s : hush s (clearSocketDeadline k s).
Proof.
  unfold clearSocketDeadline. destruct (_ && _); [apply hush_refl |].
  split; cbn; [done .. | apply clear_opt_subseteq].
Qed.

Lemma hush_clearSocketErrorCloseDeadline k s : hush s (clearSocketErrorCloseDeadline k s).
Proof.
  unfold clearSocketErrorCloseDeadline. destruct (_ && _); [apply hush_refl |].
  split; cbn; [done .. | apply clear_opt_subseteq].
Qed.

Lemma hush_clearAuthorityChangeGrace s : hush s (clearAuthorityChangeGrace s).
Proof. split; cbn; [done .. | apply clear_opt_subseteq]. Qed.
Lemma hush_clear_snapshot_reply s : hush s (clear_snapshot_reply s).
Proof. split; cbn; [done .. | apply clear_opt_subseteq]. Qed.
Lemma hush_clear_save s : hush s (clear_save s).
Proof. split; cbn; [done .. | apply clear_opt_subseteq]. Qed.

Lemma hush_drop_socket s : hush s (drop_socket s).
Proof. unfold drop_socket. by destruct (socket s). Qed.

Lemma hush_settle_waiters e s : hush s (settle_waiters e s).
Proof.
  unfold settle_waiters. cbv zeta.
  assert (forall l (x : Engine C P), hush x (foldl (settle_waiter e) x l)) as Hl.
  { induction l as [|w l IH]; intros x; [apply hush_refl |]. cbn [foldl].
    eapply hush_trans; [| apply IH]. eapply hush_trans; [apply hush_disarm | apply hush_emit]. }
  eapply hush_trans; [apply Hl |]. by split.
Qed.

Lemma hush_checkpoint s : hush s (if doc_bound s then checkpointJournal Plain s else s).
Proof.
  destruct (doc_bound s); [|apply hush_refl]. unfold checkpointJournal.
  by destruct (checkpoint_allowed s).
Qed.

(** An engine that is stopped without a storage failure settles on the status
    of its kind of document, and tells no waiter that it is durable. *)
Lemma offline_status (x : Engine C P) :
  destroyed x = true -> storageFatal x = false ->
  currentStatus (setStatus Offline x) = (if access x then Offline else Connected) /\
  hush (x <| currentStatus := currentStatus (setStatus Offline x) |>) (setStatus Offline x).
Proof.
  intros Hd Hf. unfold setStatus, status_target. rewrite Hf.
  assert (forall (y : Engine C P) st, destroyed y = true -> hush (y <| currentStatus := st |>)
    (resolveDurabilityWaiters (emit_ (StatusChanged st) (y <| currentStatus := st |>)))) as Hr.
  { intros y st Hy. unfold resolveDurabilityWaiters, isDurable. cbn [destroyed emit_].
    replace (destroyed (emit_ (StatusChanged st) (y <| currentStatus := st |>))) with true by (by symmetry).
    cbn [orb negb]. by split. }
  destruct (access x); cbn [negb].
  - destruct (bool_decide_reflect (currentStatus x = Offline)) as [E | _]; [by split |].
    pose proof (Hr x Offline Hd) as Hh. split; [exact (hu_status _ _ Hh) |].
    destruct Hh. by split.
  - destruct (bool_decide_reflect (currentStatus x = Connected)) as [E | E]; [by split |].
    rewrite bool_decide_eq_false_2 by done.
    pose proof (Hr x Connected Hd) as Hh. split; [exact (hu_status _ _ Hh) |]. destruct Hh. by split.
Qed.

(** No retry is left: neither a request for admission nor a timer for one, no
    timer that was not armed before, and no role. *)
Record retired s (x : Engine C P) : Prop := {
  re_status : currentStatus x = (if access s then Offline else Connected);
  re_role : permissionRole x = None;
  re_retry : reconnectTimer x = None;
  re_admission : admissionAbort x = None;
  re_armed h e : t_armed (clock x) !! h = Some e ->
    t_armed (clock s) !! h = Some e /\ reconnectTimer s <> Some h }.

Lemma hush_sockets s :
  hush (s <| admissionAbort := None |>)
    (clearSocketDeadline None (clearSocketErrorCloseDeadline None
      (clearAuthorityChangeGrace (abort_admission s)))).
Proof.
  eapply hush_trans; [| apply hush_clearSocketDeadline].
  eapply hush_trans; [| apply hush_clearSocketErrorCloseDeadline].
  eapply hush_trans; [| apply hush_clearAuthorityChangeGrace].
  unfold abort_admission. by destruct (admissionAbort s).
Qed.

Lemma hush_timers s : hush s (drop_socket (clear_save (clear_snapshot_reply s))).
Proof.
  eapply hush_trans; [| apply hush_drop_socket].
  eapply hush_trans; [apply hush_clear_snapshot_reply | apply hush_clear_save].
Qed.

Lemma hush_reports n s :
  let t := report n (settle_waiters Rejected (refreshEditorEditable s)) in
  hush s (if doc_bound t then checkpointJournal Plain t else t).
Proof.
  cbv zeta. eapply hush_trans; [| apply hush_checkpoint]. eapply hush_trans; [| apply hush_emit].
  eapply hush_trans; [apply hush_emit | apply hush_settle_waiters].
Qed.

(** The parts of the terminal path, one after the other. *)
Lemma retired_by_parts s x y z : destroyed s = true -> storageFatal s = false -> permissionRole s = None ->
  hush (s <| admissionAbort := None |>) x -> hush (clear_reconnect x) y ->
  hush (setStatus Offline y) z -> retired s z.
Proof.
  intros Hd Hf Hp [A1 F1 D1 P1 R1 B1 S1 T1] [A2 F2 D2 P2 R2 B2 S2 T2] Hz.
  cbn in A1, F1, D1, P1, R1, B1, S1, T1, A2, F2, D2, P2, R2, B2, S2, T2.
  destruct (offline_status y) as [Ho Hh]; [congruence .. |].
  destruct (hush_trans _ _ _ Hh Hz) as [A3 F3 D3 P3 R3 B3 S3 T3].
  cbn in A3, F3, D3, P3, R3, B3, S3, T3. split.
  - rewrite S3, Ho, A2. by rewrite A1.
  - congruence.
  - congruence.
  - congruence.
  - intros h e He. rewrite map_subseteq_spec in T1, T2, T3. apply T3, T2 in He.
    rewrite R1, clear_opt_lookup in He. destruct (decide (reconnectTimer s = Some h)); [done |].
    split; [by apply T1 in He | done].
Qed.

Lemma enterTerminalRecovery_retired c m s :
  stopped s = false -> retired s (enterTerminalRecovery c m s).
Proof.
  intros Hs. unfold enterTerminalRecovery. unfold stopped in Hs. rewrite Hs. cbv zeta.
  apply orb_false_iff in Hs as [_ Hf].
  set (n := {| n_code := c; n_message := (m ++ recovery_advice)%string |}).
  set (x := s <| terminalError := _ |> <| destroyed := true |> <| permissionRole := None |>
              <| serverSynced := false |>).
  assert (forall y, retired x y -> retired s y) as Hx by (intros y [R1 R2 R3 R4 R5]; by split).
  assert (destroyed x = true /\ storageFatal x = false /\ permissionRole x = None) as (Hd & Hf' & Hp) by done.
  clearbody x n. apply Hx.
  eapply (retired_by_parts x _ _ _ Hd Hf' Hp); [apply hush_sockets | apply hush_timers | apply hush_reports].
Qed.

(** C11. A definitive refusal ends the session: when the service closes the
    current socket because an edit was rejected, a write was forbidden or the
    page was deleted, the engine stops instead of retrying. It has no role and
    no socket and is offline; it holds neither a retry timer nor a request for
    admission, it has armed no timer, and the retry timer it held is disarmed;
    every durability waiter is rejected, and nothing more is said to the
    network. *)
Theorem definitive_refusal_stops s k code :
  socket s = Some k -> stopped s = false ->
  code ∈ [CLOSE_INVALID_PAYLOAD; CLOSE_FORBIDDEN_WRITE; CLOSE_DOCUMENT_DELETED] ->
  let s' := step s (EClose k code) in
  stopped s' = true /\ socket s' = None /\ permissionRole s' = None /\
  currentStatus s' = (if access s then Offline else Connected) /\
  reconnectTimer s' = None /\ admissionAbort s' = None /\
  (forall h e, t_armed (clock s') !! h = Some e ->
     t_armed (clock s) !! h = Some e /\ reconnectTimer s <> Some h) /\
  durabilityWaiters s' = [] /\
  (forall w, w ∈ durabilityWaiters s -> Rejected w.1 ∈ out s') /\
  exists effects, out s' = out s ++ effects /\ Forall (fun e => harmless e = true) effects.
Proof.
  intros Hk Hs Hcode. cbv zeta.
  assert (fallen (out s) (durabilityWaiters s) (step s (EClose k code)) /\ retired s (step s (EClose k code)))
    as [[[F1 F1'] F2 F3 F4] [R1 R2 R3 R4 R5]]; [| by split_and!].
  unfold step, onDisconnect. cbv zeta.
  rewrite bool_decide_eq_true_2 by exact Hk. cbn [negb].
  match goal with |- context [clearSocketErrorCloseDeadline (Some k) ?x0] =>
    assert (out x0 = out s /\ durabilityWaiters x0 = durabilityWaiters s /\ hush s x0) as Hx by done;
    revert Hx; generalize x0
  end.
  intros x (Ho & Hw & Hh).
  assert (out (clearSocketErrorCloseDeadline (Some k) x) = out s /\
      durabilityWaiters (clearSocketErrorCloseDeadline (Some k) x) = durabilityWaiters s) as Hy
    by (unfold clearSocketErrorCloseDeadline; by destruct (_ && _)).
  pose proof (hush_trans _ _ _ Hh (hush_clearSocketErrorCloseDeadline (Some k) x)) as Hh1.
  revert Hy Hh1. generalize (clearSocketErrorCloseDeadline (Some k) x).
  clear x Ho Hw Hh. intros x (Ho & Hw) Hh.
  assert (out (clearSocketDeadline (Some k) x) = out s /\
      durabilityWaiters (clearSocketDeadline (Some k) x) = durabilityWaiters s) as Hy
    by (unfold clearSocketDeadline; by destruct (_ && _)).
  pose proof (hush_trans _ _ _ Hh (hush_clearSocketDeadline (Some k) x)) as Hh1.
  revert Hy Hh1. generalize (clearSocketDeadline (Some k) x). clear x Ho Hw Hh. intros x (Ho & Hw) Hh.
  assert (hush s (x <| socket := None |> <| serverSynced := false |>)) as Hz by (destruct Hh; by split).
  assert (stopped (x <| socket := None |> <| serverSynced := false |>) = false) as Hst.
  { unfold stopped in *. by rewrite (hu_destroyed _ _ Hz), (hu_fatal _ _ Hz). }
  assert (forall c m, fallen (out s) (durabilityWaiters s)
      (enterTerminalRecovery c m (x <| socket := None |> <| serverSynced := false |>)) /\
    retired s (enterTerminalRecovery c m (x <| socket := None |> <| serverSynced := false |>))) as Hr.
  { intros c m. split; [by apply enterTerminalRecovery_fallen |].
    destruct (enterTerminalRecovery_retired c m _ Hst) as [R1 R2 R3 R4 R5].
    destruct Hz as [Ha _ _ _ Hre _ _ Hsub]. split; [by rewrite R1, Ha | done .. |].
    intros h e He. destruct (R5 h e He) as [He' Hne]. rewrite Hre in Hne.
    rewrite map_subseteq_spec in Hsub. split; [by apply Hsub | done]. }
  unfold stopped in Hst. rewrite Hst.
  rewrite !elem_of_cons, elem_of_nil in Hcode.
  destruct Hcode as [-> | [-> | [-> | []]]]; apply Hr.
Qed.

End Final.
