(* ===== verification/EngineLedger.v ===== *)
(** What a confirmed durability means ([whenDurable] in
    [client/src/collab/esbt-engine.ts]): no edit is ever forgotten between its
    journal request and the acknowledgement that retires it. *)

From S2P Require Import Prelude.
From S2P Require Import Timers.
From S2P Require Import TextChange.
From S2P Require Import Bytes.
From S2P Require Import JsValue.
From S2P Require Import Protocol.
From S2P Require Import PresenceStore.
From S2P Require Import PresenceActivity.
From S2P Require Import Journal.
From S2P Require Import EsbtDocument.
From S2P Require Import EngineState.
From S2P Require Import Engine.
From S2P Require Import EngineSafety.

(** Edits whose append to the journal has been requested. *)
Definition appended (log : list effect) : list jstring :=
  omap (fun e => match e with JournalRequested (JobAppend _ m _) => Some (jm_id m) | _ => None end) log.

(** The edit was retired by a journal transaction that was stored - with an
    access provider, one that a commit receipt of the server had asked for. *)
Definition acked (remote : bool) (id : jstring) (log : list effect) : Prop :=
  exists f v rev server, JournalSettled (JobAcknowledge f id v rev server) true ∈ log /\
    (remote = true -> server = true).

Lemma acked_later remote id a b : acked remote id a -> acked remote id (a ++ b).
Proof.
  intros (f & v & rev & sv & Hin & Hs). exists f, v, rev, sv. split; [|done].
  apply elem_of_app. by left.
Qed.

(** Only the server's receipts retire edits of an engine with an access provider. *)
Definition job_remote (j : job) : bool :=
  match j with JobAcknowledge _ _ _ _ false => false | _ => true end.

(** Effects that neither confirm durability nor request an append. *)
Definition neutral (e : effect) : bool :=
  match e with Resolved _ | JournalRequested (JobAppend _ _ _) => false | _ => true end.

Section Ledger.
Context {C P : Type} `{Component C} `{Presence P} `{Randomness}.
Implicit Types (s : Engine C P).

Record ledger_of (K0 : list jstring) s : Prop := {
  lg_owed : forall id, id ∈ K0 ++ appended (out s) ->
    is_Some (mget (pendingMutations s) id) \/ acked (access s) id (out s);
  lg_confirmed : forall pre w post, out s = pre ++ Resolved w :: post ->
    forall id, id ∈ K0 ++ appended pre -> acked (access s) id pre;
  lg_jobs : access s = true ->
    Forall (fun j => job_remote j = true) (queue s) /\
    Forall (fun x => job_remote x.1 = true) (finished s) }.

Context (K0 : list jstring).
#[local] Abbreviation ledger := (ledger_of K0).

Lemma ledger_frame s s' :
  ledger s -> out s' = out s -> pendingMutations s' = pendingMutations s ->
  access s' = access s -> queue s' = queue s -> finished s' = finished s -> ledger s'.
Proof. intros [L1 L2 L3] Ho Hp Ha Hq Hf. split; rewrite ?Ho, ?Hp, ?Ha, ?Hq, ?Hf; done. Qed.

Lemma appended_snoc log e : neutral e = true -> appended (log ++ [e]) = appended log.
Proof.
  intros He. unfold appended. rewrite omap_app. csimpl. destruct e; try done; [by rewrite app_nil_r..| |];
    try (by rewrite app_nil_r). destruct j; try done; by rewrite app_nil_r.
Qed.

(** Where a [Resolved] can be in a log that grew by one. *)
Lemma resolved_snoc log e pre w post :
  log ++ [e] = pre ++ Resolved w :: post ->
  (exists post', log = pre ++ Resolved w :: post') \/ (pre = log /\ e = Resolved w).
Proof.
  intros E. destruct post as [|x post _] using rev_ind.
  - apply app_inj_tail in E as [-> ->]. by right.
  - left. rewrite app_comm_cons, app_assoc in E. apply app_inj_tail in E as [-> _]. by exists post.
Qed.

Lemma ledger_emit s e : ledger s -> neutral e = true -> ledger (emit_ e s).
Proof.
  intros [L1 L2 L3] He. split; [| | exact L3].
  - change (out (emit_ e s)) with (out s ++ [e]). rewrite appended_snoc by done.
    intros id Hid. destruct (L1 id Hid); [by left | right; by apply acked_later].
  - change (out (emit_ e s)) with (out s ++ [e]). intros pre w post Hsplit id Hid.
    destruct (resolved_snoc _ _ _ _ _ Hsplit) as [[post' E] | [_ ->]]; [eauto | done].
Qed.

(** Confirming a waiter is sound when nothing is owed. *)
Definition clear s : Prop := forall id, id ∈ K0 ++ appended (out s) -> acked (access s) id (out s).

Lemma durable_clear s : ledger s -> isDurable s = true -> clear s.
Proof.
  intros [L1 _ _] Hd id Hid. destruct (L1 id Hid) as [[m Hm]|]; [|done]. exfalso. revert Hd.
  unfold isDurable. destruct (pendingMutations s); [done |].
  rewrite (proj2 (Z.eqb_neq _ 0)) by (rewrite len_cons; pose proof (len_nonneg l); lia).
  cbn [negb]. by rewrite !orb_true_r.
Qed.

Lemma ledger_confirm s w : ledger s -> clear s -> ledger (emit_ (Resolved w) s) /\ clear (emit_ (Resolved w) s).
Proof.
  intros [L1 L2 L3] Hc.
  assert (appended (out s ++ [Resolved w]) = appended (out s)) as Ha
    by (unfold appended; rewrite omap_app; apply app_nil_r).
  split; [split; [| | exact L3] |];
    change (out (emit_ (Resolved w) s)) with (out s ++ [Resolved w]);
    change (access (emit_ (Resolved w) s)) with (access s);
    change (pendingMutations (emit_ (Resolved w) s)) with (pendingMutations s).
  - rewrite Ha. intros id Hid. destruct (L1 id Hid); [by left | right; by apply acked_later].
  - intros pre w' post Hsplit id Hid.
    destruct (resolved_snoc _ _ _ _ _ Hsplit) as [[post' E] | [-> _]]; [eauto | by apply Hc].
  - intros id Hid. change (out (emit_ (Resolved w) s)) with (out s ++ [Resolved w]) in Hid.
    rewrite Ha in Hid. by apply acked_later, Hc.
Qed.

Definition job_ok s (j : job) : Prop :=
  match j with
  | JobAppend _ m _ => is_Some (mget (pendingMutations s) (jm_id m))
  | JobAcknowledge _ _ _ _ false => access s = false
  | _ => True
  end.

Lemma ledger_request j s : ledger s -> job_ok s j -> ledger (request j s).
Proof.
  intros [L1 L2 L3] Hj. split.
  - change (out (request j s)) with (out s ++ [JournalRequested j]).
    change (pendingMutations (request j s)) with (pendingMutations s).
    change (access (request j s)) with (access s).
    intros id Hid. unfold appended in Hid. rewrite omap_app in Hid.
    rewrite !elem_of_app in Hid. destruct Hid as [Hid | [Hid | Hid]].
    1,2: destruct (L1 id) as [|]; [rewrite elem_of_app; by eauto | by left | right; by apply acked_later].
    destruct j; csimpl in *; try by apply elem_of_nil in Hid.
    apply list_elem_of_singleton in Hid as ->. by left.
  - change (out (request j s)) with (out s ++ [JournalRequested j]).
    intros pre w post Hsplit. destruct (resolved_snoc _ _ _ _ _ Hsplit) as [[post' E] | [_ ?]]; [eauto | done].
  - intros Ha. destruct (L3 Ha) as [Hq Hf]. split; [|exact Hf].
    change (queue (request j s)) with (queue s ++ [j]). apply Forall_app. split; [done |].
    apply Forall_singleton. destruct j as [| ? ? ? ? [] | |]; try done.
    simpl in Hj. change (access (request _ s)) with (access s) in Ha. congruence.
Qed.

Lemma ledger_add id m s : ledger s -> ledger (s <| pendingMutations := mset (pendingMutations s) id m |>).
Proof.
  intros [L1 L2 L3]. split; [| exact L2 | exact L3]. intros id' Hid.
  destruct (L1 id' Hid) as [Hp|]; [left | by right].
  change (is_Some (mget (mset (pendingMutations s) id m) id')).
  destruct (decide (id = id')) as [-> | Hne]; [rewrite mget_mset_eq; eauto | by rewrite mget_mset_ne].
Qed.

Lemma ledger_retire id s :
  ledger s -> acked (access s) id (out s) ->
  ledger (s <| pendingMutations := mdel (pendingMutations s) id |>).
Proof.
  intros [L1 L2 L3] Ha. split; [| exact L2 | exact L3]. intros id' Hid.
  destruct (decide (id = id')) as [-> | Hne]; [by right |].
  destruct (L1 id' Hid) as [Hp|]; [left | by right].
  change (is_Some (mget (mdel (pendingMutations s) id) id')). by rewrite mget_mdel_ne.
Qed.
End Ledger.

Create HintDb ledger discriminated.
#[export] Hint Constants Opaque : ledger.
#[export] Hint Resolve ledger_emit : ledger.
#[export] Hint Extern 2 (ledger_of ?k (set_field _ _)) =>
  lazymatch goal with
  | |- ?I (set_field ?g ?x) =>
      let Hx := fresh in
      enough (Hx : I x);
      [ revert Hx; generalize x; let y := fresh "y" in intros y Hx;
        refine (@ledger_frame _ _ k y _ Hx _ _ _ _ _); reflexivity
      | ]
  end : ledger.
#[export] Hint Extern 3 (ledger_of _ _) =>
  lazymatch goal with |- ledger_of _ (match ?x with _ => _ end) => destruct x end : ledger.
#[export] Hint Extern 1 (neutral _ = true) =>
  first [ reflexivity
        | match goal with |- neutral (match ?x with _ => _ end) = true => destruct x; reflexivity end ]
  : ledger.
#[export] Hint Extern 1 (job_ok _ _) => exact I : ledger.

Ltac go_ledger := cbv zeta; repeat (branch; cbv zeta); cbn [snd]; eauto 60 with ledger.

Section Methods.
Context {C P : Type} `{Component C} `{Presence P} `{Randomness} (K0 : list jstring).
Implicit Types (s : Engine C P).
#[local] Abbreviation ledger := (ledger_of K0).
Hint Resolve ledger_request : ledger.

Lemma ledger_disarm o s : ledger s -> ledger (disarm o s).
Proof. intros. unfold disarm. go_ledger. Qed.
Hint Resolve ledger_disarm : ledger.

Lemma ledger_refreshEditorEditable s : ledger s -> ledger (refreshEditorEditable s).
Proof. intros. unfold refreshEditorEditable. go_ledger. Qed.
Hint Resolve ledger_refreshEditorEditable : ledger.

Lemma ledger_settle_waiter_rejected w s : ledger s -> ledger (settle_waiter Rejected s w).
Proof. intros. unfold settle_waiter, disarm. go_ledger. Qed.
Hint Resolve ledger_settle_waiter_rejected : ledger.

Lemma ledger_reject_waiters s : ledger s -> ledger (settle_waiters Rejected s).
Proof.
  intros Hs. unfold settle_waiters. cbv zeta.
  cut (ledger (foldl (settle_waiter Rejected) s (durabilityWaiters s))); [eauto with ledger |].
  revert s Hs. assert (forall l s, ledger s -> ledger (foldl (settle_waiter Rejected) s l)) as Hl; [|auto].
  induction l as [|w l IH]; intros s Hs; [done |]. apply IH. by apply ledger_settle_waiter_rejected.
Qed.

Lemma ledger_resolve_waiters s : ledger s -> clear K0 s -> ledger (settle_waiters Resolved s).
Proof.
  intros Hs Hc. unfold settle_waiters. cbv zeta.
  cut (ledger (foldl (settle_waiter Resolved) s (durabilityWaiters s))); [eauto with ledger |].
  generalize (durabilityWaiters s) as l. intros l. revert s Hs Hc.
  induction l as [|w l IH]; intros s Hs Hc; [done |]. cbn [foldl].
  destruct (ledger_confirm K0 (disarm (Some w.2) s) w.1) as [H2 H3];
    [eauto with ledger | exact Hc |]. by apply IH.
Qed.
Hint Resolve ledger_reject_waiters : ledger.

Lemma ledger_resolveDurabilityWaiters s : ledger s -> ledger (resolveDurabilityWaiters s).
Proof.
  intros Hs. unfold resolveDurabilityWaiters. destruct (isDurable s) eqn:E; [|done]. cbn [negb].
  apply ledger_resolve_waiters; [done | by apply durable_clear].
Qed.
Hint Resolve ledger_resolveDurabilityWaiters : ledger.

Lemma ledger_whenDurable t s : ledger s -> ledger (whenDurable t s).
Proof.
  intros Hs. unfold whenDurable, fresh, arm, setTimeout. cbv zeta beta iota.
  assert (ledger (s <| next := next s + 1 |>)) as Hn by eauto with ledger.
  revert Hn. generalize (s <| next := next s + 1 |>). intros x Hx.
  destruct (isDurable x) eqn:E; [apply ledger_confirm; [done | by apply durable_clear] |]. go_ledger.
Qed.
Hint Resolve ledger_whenDurable : ledger.

Lemma ledger_setStatus st s : ledger s -> ledger (setStatus st s).
Proof. intros. unfold setStatus, status_target. go_ledger. Qed.
Hint Resolve ledger_setStatus : ledger.

Lemma ledger_checkpointJournal a s : ledger s -> ledger (checkpointJournal a s).
Proof. intros. unfold checkpointJournal. go_ledger. Qed.
Hint Resolve ledger_checkpointJournal : ledger.

Lemma ledger_applyPermissionRole r s : ledger s -> ledger (applyPermissionRole r s).
Proof. intros. unfold applyPermissionRole. go_ledger. Qed.
Hint Resolve ledger_applyPermissionRole : ledger.

Lemma ledger_applyTicketPermissions t s : ledger s -> ledger (applyTicketPermissions t s).
Proof. intros. unfold applyTicketPermissions. go_ledger. Qed.
Hint Resolve ledger_applyTicketPermissions : ledger.

Lemma ledger_clearSocketDeadline k s : ledger s -> ledger (clearSocketDeadline k s).
Proof. intros. unfold clearSocketDeadline. go_ledger. Qed.
Hint Resolve ledger_clearSocketDeadline : ledger.

Lemma ledger_armSocketDeadline k t s : ledger s -> ledger (armSocketDeadline k t s).
Proof. intros. unfold armSocketDeadline, arm, setTimeout. go_ledger. Qed.
Hint Resolve ledger_armSocketDeadline : ledger.

Lemma ledger_clearSocketErrorCloseDeadline k s : ledger s -> ledger (clearSocketErrorCloseDeadline k s).
Proof. intros. unfold clearSocketErrorCloseDeadline. go_ledger. Qed.
Hint Resolve ledger_clearSocketErrorCloseDeadline : ledger.

Lemma ledger_clearAuthorityChangeGrace s : ledger s -> ledger (clearAuthorityChangeGrace s).
Proof. intros. unfold clearAuthorityChangeGrace. go_ledger. Qed.
Hint Resolve ledger_clearAuthorityChangeGrace : ledger.

Lemma ledger_clear_reconnect s : ledger s -> ledger (clear_reconnect s).
Proof. intros. unfold clear_reconnect. go_ledger. Qed.
Hint Resolve ledger_clear_reconnect : ledger.

Lemma ledger_clear_snapshot_reply s : ledger s -> ledger (clear_snapshot_reply s).
Proof. intros. unfold clear_snapshot_reply. go_ledger. Qed.
Hint Resolve ledger_clear_snapshot_reply : ledger.

Lemma ledger_clear_save s : ledger s -> ledger (clear_save s).
Proof. intros. unfold clear_save. go_ledger. Qed.
Hint Resolve ledger_clear_save : ledger.

Lemma ledger_clear_markdown s : ledger s -> ledger (clear_markdown s).
Proof. intros. unfold clear_markdown. go_ledger. Qed.
Hint Resolve ledger_clear_markdown : ledger.

Lemma ledger_abort_admission s : ledger s -> ledger (abort_admission s).
Proof. intros. unfold abort_admission. go_ledger. Qed.
Hint Resolve ledger_abort_admission : ledger.

Lemma ledger_socket_close c k s : ledger s -> ledger (socket_close c k s).2.
Proof. intros. unfold socket_close. destruct (close_code_ok c); cbn [snd]; eauto with ledger. Qed.
Hint Resolve ledger_socket_close : ledger.

Lemma ledger_drop_socket s : ledger s -> ledger (drop_socket s).
Proof. intros. unfold drop_socket. go_ledger. Qed.
Hint Resolve ledger_drop_socket : ledger.

Lemma ledger_report n s : ledger s -> ledger (report n s).
Proof. intros. unfold report. go_ledger. Qed.
Hint Resolve ledger_report : ledger.

Lemma ledger_enterTerminalRecovery c m s : ledger s -> ledger (enterTerminalRecovery c m s).
Proof. intros. unfold enterTerminalRecovery. go_ledger. Qed.
Hint Resolve ledger_enterTerminalRecovery : ledger.

Lemma ledger_storage_stop n s : ledger s -> ledger (storage_stop n s).
Proof. intros. unfold storage_stop. go_ledger. Qed.
Hint Resolve ledger_storage_stop : ledger.

Lemma ledger_recordStorageError m f s : ledger s -> ledger (recordStorageError m f s).
Proof. intros. unfold recordStorageError. go_ledger. Qed.
Hint Resolve ledger_recordStorageError : ledger.

Lemma ledger_emitEngineError e s : ledger s -> ledger (emitEngineError e s).
Proof. intros. unfold emitEngineError. go_ledger. Qed.
Hint Resolve ledger_emitEngineError : ledger.

Lemma ledger_openSocket t s : ledger s -> ledger (openSocket t s).
Proof. intros. unfold openSocket, fresh. go_ledger. Qed.
Hint Resolve ledger_openSocket : ledger.

Lemma ledger_connect s : ledger s -> ledger (connect s).
Proof. intros. unfold connect, fresh. go_ledger. Qed.
Hint Resolve ledger_connect : ledger.

Lemma ledger_expireAuthorityChangeGrace s : ledger s -> ledger (expireAuthorityChangeGrace s).
Proof. intros. unfold expireAuthorityChangeGrace, arm, setTimeout. go_ledger. Qed.
Hint Resolve ledger_expireAuthorityChangeGrace : ledger.

Lemma ledger_beginAuthorityChangeGrace q s : ledger s -> ledger (beginAuthorityChangeGrace q s).
Proof. intros. unfold beginAuthorityChangeGrace, arm, setTimeout. go_ledger. Qed.
Hint Resolve ledger_beginAuthorityChangeGrace : ledger.

Lemma ledger_scheduleReconnect s : ledger s -> ledger (scheduleReconnect s).
Proof. intros. unfold scheduleReconnect, fresh, arm, setTimeout. go_ledger. Qed.
Hint Resolve ledger_scheduleReconnect : ledger.

Lemma ledger_reconnect_callback s : ledger s -> ledger (reconnect_callback s).
Proof. intros. unfold reconnect_callback. go_ledger. Qed.
Hint Resolve ledger_reconnect_callback : ledger.

Lemma ledger_onDisconnect k c s : ledger s -> ledger (onDisconnect k c s).
Proof. intros. unfold onDisconnect. go_ledger. Qed.
Hint Resolve ledger_onDisconnect : ledger.

Lemma ledger_onSocketError k s : ledger s -> ledger (onSocketError k s).
Proof. intros. unfold onSocketError, arm, setTimeout. go_ledger. Qed.
Hint Resolve ledger_onSocketError : ledger.

Lemma ledger_socket_error_callback k s : ledger s -> ledger (socket_error_callback k s).
Proof. intros. unfold socket_error_callback. go_ledger. Qed.
Hint Resolve ledger_socket_error_callback : ledger.

Lemma ledger_socket_deadline_callback k s : ledger s -> ledger (socket_deadline_callback k s).
Proof. intros. unfold socket_deadline_callback. go_ledger. Qed.
Hint Resolve ledger_socket_deadline_callback : ledger.

Lemma ledger_admitAndConnect c r s : ledger s -> ledger (admitAndConnect c r s).
Proof. intros. unfold admitAndConnect. go_ledger. Qed.
Hint Resolve ledger_admitAndConnect : ledger.

Lemma ledger_handleOnline s : ledger s -> ledger (handleOnline s).
Proof. intros. unfold handleOnline. go_ledger. Qed.
Hint Resolve ledger_handleOnline : ledger.

Lemma ledger_handleOffline s : ledger s -> ledger (handleOffline s).
Proof. intros. unfold handleOffline. go_ledger. Qed.
Hint Resolve ledger_handleOffline : ledger.

Lemma ledger_send t bs s : ledger s -> ledger (send t bs s).
Proof. intros. unfold send. go_ledger. Qed.
Hint Resolve ledger_send : ledger.

Lemma ledger_sendMutation m s : ledger s -> ledger (sendMutation m s).2.
Proof. intros. unfold sendMutation. go_ledger. Qed.
Hint Resolve ledger_sendMutation : ledger.

Lemma ledger_send_all ms s : ledger s -> ledger (send_all ms s).2.
Proof.
  revert s. induction ms as [|m r IH]; intros s Hs; [done |]. cbn [send_all].
  pose proof (ledger_sendMutation m s Hs) as H2. destruct (sendMutation m s) as [[] x]; auto.
Qed.
Hint Resolve ledger_send_all : ledger.

Lemma ledger_sendPendingMutations s : ledger s -> ledger (sendPendingMutations s).2.
Proof. intros. unfold sendPendingMutations. go_ledger. Qed.
Hint Resolve ledger_sendPendingMutations : ledger.

Lemma setStatus_pending st s : pendingMutations (setStatus st s) = pendingMutations s.
Proof.
  unfold setStatus. destruct (status_target st s) as [st'|]; [|done].
  destruct (bool_decide _); [done |]. unfold resolveDurabilityWaiters, settle_waiters. cbv zeta.
  destruct (negb _); [done |].
  assert (forall l (x : Engine C P),
    pendingMutations (foldl (settle_waiter Resolved) x l) = pendingMutations x) as Hl.
  { induction l as [|w l IH]; intros x; [done |]. cbn [foldl]. by rewrite IH. }
  etransitivity; [apply Hl | done].
Qed.

Lemma ledger_persistAndSendMutation bs k b s : ledger s -> ledger (persistAndSendMutation bs k b s).
Proof.
  intros Hs. unfold persistAndSendMutation, fresh. cbv zeta. destruct (_ || _); [done |].
  assert (ledger (s <| next := next s + 1 |>)) as Hn by eauto with ledger.
  revert Hn. generalize (s <| next := next s + 1 |>). intros x Hx.
  match goal with |- context [mset (pendingMutations x) ?i ?m] =>
    pose proof (ledger_add K0 i m x Hx) as Hadd;
    assert (is_Some (mget (pendingMutations (x <| pendingMutations := mset (pendingMutations x) i m |>)) i))
      as Hin by (change (is_Some (mget (mset (pendingMutations x) i m) i)); rewrite mget_mset_eq; eauto);
    revert Hadd Hin; generalize (x <| pendingMutations := mset (pendingMutations x) i m |>) end.
  intros y Hy Hin. apply ledger_request; [go_ledger |]. simpl.
  destruct (access y && serverSynced y); [by rewrite setStatus_pending | done].
Qed.
Hint Resolve ledger_persistAndSendMutation : ledger.

Lemma ledger_scheduleLocalSave s : ledger s -> ledger (scheduleLocalSave s).
Proof. intros. unfold scheduleLocalSave, arm, setTimeout. go_ledger. Qed.
Hint Resolve ledger_scheduleLocalSave : ledger.

Lemma ledger_flushMarkdownCheckpoint s : ledger s -> ledger (flushMarkdownCheckpoint s).
Proof. intros. unfold flushMarkdownCheckpoint. go_ledger. Qed.
Hint Resolve ledger_flushMarkdownCheckpoint : ledger.

Lemma ledger_scheduleMarkdownCheckpoint s : ledger s -> ledger (scheduleMarkdownCheckpoint s).
Proof. intros. unfold scheduleMarkdownCheckpoint, arm, setTimeout. go_ledger. Qed.
Hint Resolve ledger_scheduleMarkdownCheckpoint : ledger.

Lemma ledger_refreshTelemetry s : ledger s -> ledger (refreshTelemetry s).
Proof. intros. unfold refreshTelemetry. go_ledger. Qed.
Hint Resolve ledger_refreshTelemetry : ledger.

Lemma ledger_on_notice n s : ledger s -> ledger (on_notice s n).
Proof. intros. unfold on_notice. go_ledger. Qed.
Hint Resolve ledger_on_notice : ledger.

Lemma ledger_with_doc {A} (m : SE (Doc C) A) d s x r : ledger s -> with_doc m d s = (x, r) -> ledger x.
Proof.
  intros Hs. unfold with_doc. destruct (m _) as [d' r']. cbv zeta. intros [<- _]%pair_equal_spec.
  assert (ledger (s <| replica := Some d' |>)) as Hi by eauto with ledger.
  revert Hi. generalize (s <| replica := Some d' |>). clear s Hs.
  induction (notices d') as [|n ns IH]; intros s Hs; [done |]. apply IH. eauto with ledger.
Qed.
Hint Extern 1 (ledger_of _ ?x) =>
  match goal with Hx : with_doc ?m ?d ?s = (x, _) |- _ => refine (ledger_with_doc m d s x _ _ Hx) end : ledger.

Lemma ledger_importRemote bs s : ledger s -> ledger (importRemote bs s).
Proof. intros. unfold importRemote. go_ledger. Qed.
Hint Resolve ledger_importRemote : ledger.

Lemma ledger_sendMissingSince v s : ledger s -> ledger (sendMissingSince v s).
Proof. intros. unfold sendMissingSince, connected_if_synced. go_ledger. Qed.
Hint Resolve ledger_sendMissingSince : ledger.

Lemma ledger_synchronizeWithServer s : ledger s -> ledger (synchronizeWithServer s).
Proof. intros. unfold synchronizeWithServer. go_ledger. Qed.
Hint Resolve ledger_synchronizeWithServer : ledger.

Lemma ledger_maybePrune v s : ledger s -> ledger (maybePrune v s).
Proof. intros. unfold maybePrune. go_ledger. Qed.
Hint Resolve ledger_maybePrune : ledger.

Lemma ledger_compactDurableLocalHistory s : ledger s -> ledger (compactDurableLocalHistory s).
Proof. intros. unfold compactDurableLocalHistory. go_ledger. Qed.
Hint Resolve ledger_compactDurableLocalHistory : ledger.

Lemma ledger_compact_resume r s : ledger s -> ledger (compact_resume r s).
Proof. intros. unfold compact_resume. go_ledger. Qed.
Hint Resolve ledger_compact_resume : ledger.

Lemma ledger_importFromTab bs k s : ledger s -> ledger (importFromTab bs k s).
Proof.
  intros Hs. unfold importFromTab. destruct (_ || _); [done |].
  destruct (this_doc s) as [d|]; [destruct (with_doc (import bs) d s) as [x r] eqn:E |]; go_ledger.
Qed.
Hint Resolve ledger_importFromTab : ledger.

Lemma ledger_edit_document {A} (m : SE (Doc C) A) s : ledger s -> ledger (edit_document m s).
Proof. intros. unfold edit_document. go_ledger. Qed.
Hint Resolve ledger_edit_document : ledger.

Lemma ledger_persist_resume m b r s : ledger s -> ledger (persist_resume m b r s).
Proof.
  intros Hs. unfold persist_resume. destruct r as [rec|e]; [|go_ledger]. cbv zeta.
  destruct (_ || _); [go_ledger |].
  match goal with |- context [if b then ?y else ?z] =>
    assert (ledger (if b then y else z)) as Hb by (destruct b; go_ledger);
    revert Hb; generalize (if b then y else z) end.
  intros x Hx. destruct (access x) eqn:Ea; [go_ledger |]. destruct (replica x); [|done].
  destruct (version _).2; [|go_ledger]. by apply ledger_request.
Qed.
Hint Resolve ledger_persist_resume : ledger.

(** Removing an edit from the pending map, with the fields set alongside. *)
Lemma ledger_acknowledge_local_resume id r s :
  ledger s -> (is_Ok r = true -> acked (access s) id (out s)) -> ledger (acknowledge_local_resume id r s).
Proof.
  intros Hs Ha. unfold acknowledge_local_resume. destruct r as [rec|e]; [|go_ledger]. cbv zeta.
  pose proof (ledger_retire K0 id s Hs (Ha eq_refl)) as Hr. revert Hr.
  generalize (s <| pendingMutations := mdel (pendingMutations s) id |>). intros x Hx. go_ledger.
Qed.

Lemma ledger_acknowledge_server_resume id v r s :
  ledger s -> (is_Ok r = true -> acked (access s) id (out s)) -> ledger (acknowledge_server_resume id v r s).
Proof.
  intros Hs Ha. unfold acknowledge_server_resume. destruct r as [rec|e]; [|go_ledger]. cbv zeta.
  pose proof (ledger_retire K0 id s Hs (Ha eq_refl)) as Hr. revert Hr.
  generalize (s <| pendingMutations := mdel (pendingMutations s) id |>). intros x Hx.
  match goal with |- context [destroyed ?y] =>
    assert (ledger y) as Hy by go_ledger; revert Hy; generalize y end.
  clear x Hx. intros x Hx. destruct (_ || _); [done |].
  match goal with |- context [maybePrune v ?y] =>
    assert (ledger y) as Hy by go_ledger; revert Hy; generalize y end.
  clear x Hx. intros x Hx.
  assert (ledger (maybePrune v x)) as Hp by go_ledger. revert Hp. generalize (maybePrune v x).
  clear x Hx. intros x Hx. go_ledger.
Qed.

Lemma ledger_release_replica s : ledger s -> ledger (release_replica s).
Proof. intros. unfold release_replica. go_ledger. Qed.
Hint Resolve ledger_release_replica : ledger.

Lemma ledger_checkpoint_resume a r s : ledger s -> ledger (checkpoint_resume a r s).
Proof. intros. unfold checkpoint_resume. go_ledger. Qed.
Hint Resolve ledger_checkpoint_resume : ledger.

Lemma ledger_resume j r s :
  ledger s -> (is_Ok r = true -> JournalSettled j true ∈ out s) ->
  (access s = true -> job_remote j = true) -> ledger (resume j r s).
Proof.
  intros Hs Hr Hj. destruct j as [f m b|f id v rev sv|f a|f]; cbn [resume].
  - by apply ledger_persist_resume.
  - assert (is_Ok r = true -> acked (access s) id (out s)) as Ha.
    { intros Hok. exists f, v, rev, sv. split; [by apply Hr |]. intros Hacc.
      specialize (Hj Hacc). by destruct sv. }
    destruct sv; [by apply ledger_acknowledge_server_resume | by apply ledger_acknowledge_local_resume].
  - by apply ledger_checkpoint_resume.
  - by apply ledger_compact_resume.
Qed.

Lemma ledger_settle s : ledger s -> ledger (settle s).
Proof.
  intros Hs. unfold settle. destruct (finished s) as [|[j r] rest] eqn:Ef; [done |]. cbv zeta.
  assert (access s = true -> job_remote j = true) as Hj.
  { intros Ha. destruct (lg_jobs K0 s Hs Ha) as [_ Hf]. rewrite Ef in Hf.
    by apply Forall_cons in Hf as [? _]. }
  assert (ledger (s <| finished := rest |>)) as Hd.
  { destruct Hs as [L1 L2 L3]. split; [exact L1 | exact L2 |]. intros Ha.
    destruct (L3 Ha) as [Hq Hf]. rewrite Ef in Hf. apply Forall_cons in Hf as [_ Hf]. by split. }
  revert Hd. assert (access (s <| finished := rest |>) = true -> job_remote j = true) as Hj' by exact Hj.
  revert Hj'. generalize (s <| finished := rest |>). intros x Hjx Hx.
  apply ledger_resume; [go_ledger | | exact Hjx].
  intros Hok. rewrite Hok. change (JournalSettled j true ∈ out x ++ [JournalSettled j true]).
  apply elem_of_app. right. by apply list_elem_of_singleton.
Qed.

Lemma ledger_execute w s : ledger s -> ledger (execute w s).
Proof.
  intros Hs. unfold execute. destruct (queue s) as [|j rest] eqn:Eq; [done |].
  assert (forall d r (x : Engine C P), x = (s <| queue := rest |>) \/ x = (s <| queue := rest |> <| db := d |>) ->
    ledger (x <| finished := finished x ++ [(j, r)] |>)) as Hmove.
  { intros d r x Hx. destruct Hs as [L1 L2 L3].
    destruct Hx as [-> | ->]; (split; [exact L1 | exact L2 |]; intros Ha;
      destruct (L3 Ha) as [Hq Hf]; rewrite Eq in Hq; apply Forall_cons in Hq as [Hj Hq];
      split; [exact Hq |]; apply Forall_app; by split; [| apply Forall_singleton]). }
  unfold run_job. destruct (job_op j _) as [op|e]; [|by apply (Hmove ∅); left].
  destruct (run_op _ _ op) as [db' r]. destruct w.
  - by apply (Hmove db'); right.
  - by apply (Hmove db'); left.
  - by apply (Hmove db'); right.
Qed.
Hint Resolve ledger_settle ledger_execute : ledger.

Lemma ledger_handleCommitted bs s : ledger s -> ledger (handleCommitted bs s).
Proof. intros. unfold handleCommitted. go_ledger. Qed.
Hint Resolve ledger_handleCommitted : ledger.

Lemma ledger_onMessage bs s : ledger s -> ledger (onMessage bs s).
Proof. intros. unfold onMessage. go_ledger. Qed.
Hint Resolve ledger_onMessage : ledger.

Lemma ledger_presence_call r s : ledger s -> ledger (presence_call r s).
Proof.
  intros Hs. unfold presence_call. cbv zeta. destruct r.2 as [outs|e]; [|go_ledger].
  assert (ledger (s <| ephemeral := r.1 |>)) as Hi by eauto with ledger.
  revert Hi. generalize (s <| ephemeral := r.1 |>). induction outs as [|x outs IH]; intros s' Hi; [done |].
  apply IH. destruct x; [done |]. unfold on_presence_output. eauto with ledger.
Qed.
Hint Resolve ledger_presence_call : ledger.

Lemma ledger_publishUser s : ledger s -> ledger (publishUser s).
Proof. intros. unfold publishUser. go_ledger. Qed.
Hint Resolve ledger_publishUser : ledger.

Lemma ledger_clearLocalPresence s : ledger s -> ledger (clearLocalPresence s).
Proof. intros. unfold clearLocalPresence. go_ledger. Qed.
Hint Resolve ledger_clearLocalPresence : ledger.

Lemma ledger_with_activity f s : ledger s -> ledger (with_activity f s).
Proof.
  intros Hs. unfold with_activity. cbv zeta.
  assert (ledger (s <| activity := f (activity s) |>)) as Hi by eauto with ledger.
  revert Hi. generalize (s <| activity := f (activity s) |>).
  induction (drop _ _) as [|p ps IH]; intros s' Hi; [done |]. apply IH. destruct p; eauto with ledger.
Qed.
Hint Resolve ledger_with_activity : ledger.

Lemma ledger_scheduleTabSnapshot s : ledger s -> ledger (scheduleTabSnapshot s).
Proof. intros. unfold scheduleTabSnapshot, arm, setTimeout. go_ledger. Qed.
Hint Resolve ledger_scheduleTabSnapshot : ledger.

Lemma ledger_tab_snapshot_callback s : ledger s -> ledger (tab_snapshot_callback s).
Proof. intros. unfold tab_snapshot_callback. go_ledger. Qed.
Hint Resolve ledger_tab_snapshot_callback : ledger.

Lemma ledger_flushLocalSave a s : ledger s -> ledger (flushLocalSave a s).
Proof. intros. unfold flushLocalSave. go_ledger. Qed.
Hint Resolve ledger_flushLocalSave : ledger.

Lemma ledger_handleVisibility h s : ledger s -> ledger (handleVisibility h s).
Proof. intros. unfold handleVisibility. go_ledger. Qed.
Hint Resolve ledger_handleVisibility : ledger.

Lemma ledger_handlePageHide s : ledger s -> ledger (handlePageHide s).
Proof. intros. unfold handlePageHide. go_ledger. Qed.
Hint Resolve ledger_handlePageHide : ledger.

Lemma ledger_destroy s : ledger s -> ledger (Engine.destroy s).
Proof. intros. unfold destroy, arm, setTimeout. go_ledger. Qed.
Hint Resolve ledger_destroy : ledger.

Lemma ledger_loadServerSnapshot r s : ledger s -> ledger (loadServerSnapshot r s).
Proof. intros. unfold loadServerSnapshot. go_ledger. Qed.
Hint Resolve ledger_loadServerSnapshot : ledger.

Lemma ledger_opened r s : ledger s -> ledger (opened r s).
Proof. intros. unfold opened. go_ledger. Qed.
Hint Resolve ledger_opened : ledger.

Lemma ledger_on_open k s : ledger s -> ledger (on_open k s).
Proof. intros. unfold on_open. go_ledger. Qed.
Hint Resolve ledger_on_open : ledger.

Lemma ledger_waiter_timeout w s : ledger s -> ledger (waiter_timeout w s).
Proof. intros. unfold waiter_timeout. go_ledger. Qed.
Hint Resolve ledger_waiter_timeout : ledger.

Lemma ledger_save_callback s : ledger s -> ledger (save_callback s).
Proof. intros. unfold save_callback. go_ledger. Qed.
Hint Resolve ledger_save_callback : ledger.

Lemma ledger_markdown_callback s : ledger s -> ledger (markdown_callback s).
Proof. intros. unfold markdown_callback. go_ledger. Qed.
Hint Resolve ledger_markdown_callback : ledger.

Lemma ledger_run_timer k s : ledger s -> ledger (run_timer k s).
Proof. intros. unfold run_timer. go_ledger. Qed.
Hint Resolve ledger_run_timer : ledger.

Lemma ledger_fire h s : ledger s -> ledger (fire h s).
Proof. intros. unfold fire. go_ledger. Qed.
Hint Resolve ledger_fire : ledger.

Lemma ledger_step s e : ledger s -> ledger (step s e).
Proof. intros. unfold step. go_ledger. Qed.

Lemma ledger_run s es : ledger s -> ledger (run s es).
Proof. revert s. induction es as [|e r IH]; intros s Hs; [done |]. apply IH. by apply ledger_step. Qed.

Lemma ledger_bindDocument c i s : ledger s -> ledger (bindDocument c i s).
Proof. intros. unfold bindDocument, arm, setTimeout. go_ledger. Qed.
Hint Resolve ledger_bindDocument : ledger.

Lemma ledger_start_admitted c t s : ledger s -> ledger (start_admitted c t s).
Proof. intros. unfold start_admitted. go_ledger. Qed.
Hint Resolve ledger_start_admitted : ledger.

Lemma ledger_markHydrated s : ledger s -> ledger (markHydrated s).
Proof. intros. unfold markHydrated. go_ledger. Qed.
Hint Resolve ledger_markHydrated : ledger.

Lemma ledger_finish_opening s : ledger s -> ledger (finish_opening s).
Proof. intros. unfold finish_opening. go_ledger. Qed.
Hint Resolve ledger_finish_opening : ledger.


End Methods.

(** ** From the opening of a document *)
Section Opened.
Context {C P : Type} `{Component C} `{Presence P} `{Randomness}.
Implicit Types (s : Engine C P).

Lemma Ok_eq {A} (a b : A) : Ok a = Ok b -> a = b.
Proof. congruence. Qed.

(** An engine that [start] opened, with the edits that the stored journal still
    owed to the server. *)
Definition owed (src : replica_source) : list jstring :=
  match src with FromJournal r => map jm_id (pending r) | _ => [] end.

Definition opened_from (K0 : list jstring) (s : Engine C P) : Prop :=
  exists docId access user eph act needsRefresh about c src,
    start needsRefresh about c src (new_engine docId access user eph act) = Ok s /\ K0 = owed src /\
    match src with FromJournal _ => True | FromRoom _ => access = true | FromLocalCopy _ _ => access = false end.

Lemma new_engine_ledger docId access user eph act :
  ledger_of [] (new_engine docId access user eph act : Engine C P).
Proof. split; [by intros ? ?%elem_of_nil | | done]. intros [|? pre] w post E; discriminate. Qed.

Lemma foldl_mset_mget (ms : list JournalMutation) (acc : list (jstring * JournalMutation)) id :
  (id ∈ map jm_id ms \/ is_Some (mget acc id)) ->
  is_Some (mget (foldl (fun acc m => mset acc (jm_id m) m) acc ms) id).
Proof.
  revert acc. induction ms as [|m ms IH]; intros acc Hid; cbn [foldl map] in *.
  - destruct Hid as [?%elem_of_nil |]; done.
  - apply IH. destruct (decide (jm_id m = id)) as [<- | Hne].
    + right. rewrite mget_mset_eq. eauto.
    + destruct Hid as [[? | ?]%elem_of_cons | ?]; [congruence | by left |].
      right. by rewrite mget_mset_ne.
Qed.

Lemma ledger_restore_mutation K0 s m : ledger_of K0 s -> ledger_of K0 (restore_mutation s m).
Proof.
  intros Hs. unfold restore_mutation. destruct (replica s) as [d|]; [|done].
  destruct (with_doc _ d s) as [x r] eqn:E. pose proof (ledger_with_doc K0 _ _ _ _ _ Hs E) as Hx.
  destruct r; [done |]. by apply ledger_recordStorageError.
Qed.

Lemma ledger_start_stored docId access user eph act c stored s :
  start_stored c stored (new_engine docId access user eph act) = Ok s ->
  ledger_of (map jm_id (pending stored)) s.
Proof.
  unfold start_stored. cbv zeta. set (K0 := map jm_id (pending stored)) in *.
  match goal with |- context [bindDocument c ?site ?x] => assert (ledger_of K0 x) as Hx end.
  { split; [| by intros [|? pre] w post E; discriminate | done].
    intros id Hid. left. apply foldl_mset_mget. rewrite app_nil_r in Hid. by left. }
  apply (ledger_bindDocument K0 c (siteId stored)) in Hx. revert Hx.
  match goal with |- ledger_of _ ?x -> _ => generalize x end. intros x Hx.
  match goal with |- (?r ≫= _) = _ -> _ =>
    assert (forall y, r = Ok y -> ledger_of K0 y) as Hr; [| destruct r as [y|e]; [|done]] end.
  { intros y. destruct (replica x) as [d|]; [|by intros [= <-]].
    destruct (_ <? _); [|by intros [= <-]].
    destruct (with_doc _ d x) as [z [v|e]] eqn:E; [|done]. intros [= <-].
    by eapply ledger_with_doc. }
  specialize (Hr y eq_refl). intros E. apply (f_equal (fun r => match r with Ok a => a | _ => s end)) in E.
  cbn [mbind res_bind] in E. rewrite <- E.
  assert (ledger_of K0 (foldl restore_mutation y (pending stored))) as Hf.
  { clear E. clearbody K0. revert y Hr. induction (pending stored) as [|m ms IH]; intros y Hy; [done |].
    apply IH. by apply ledger_restore_mutation. }
  revert Hf. generalize (foldl restore_mutation y (pending stored)). intros z Hz. eauto 10 with ledger.
Qed.

Lemma ledger_import_text K0 text s x : ledger_of K0 s -> import_text text s = Ok x -> ledger_of K0 x.
Proof.
  unfold import_text. destruct (replica s) as [d|]; [|by intros ? [= <-]].
  destruct (with_doc _ d s) as [y [v|e]] eqn:E; [|done]. intros Hs [= <-]. by eapply ledger_with_doc.
Qed.

Lemma ledger_refresh_about K0 needs about s x :
  ledger_of K0 s -> refresh_about needs about s = Ok x -> ledger_of K0 x.
Proof.
  unfold refresh_about. intros Hs. destruct (_ || _); [by intros [= <-] |].
  destruct (replica s) as [d|]; [|by intros [= <-]]. destruct ((getText d).2) as [t|]; [cbn [mbind res_bind] | done].
  destruct (needs t); [by apply ledger_import_text | by intros [= <-]].
Qed.

Lemma ledger_started docId access user eph act c src s :
  match src with
  | FromJournal r => start_stored c r (new_engine docId access user eph act)
  | FromRoom t => Ok (start_admitted c t (new_engine docId access user eph act))
  | FromLocalCopy site markdown => start_local c site markdown (new_engine docId access user eph act)
  end = Ok s -> ledger_of (owed src) s.
Proof.
  destruct src as [r|t|site markdown]; cbn [owed].
  - exact (ledger_start_stored docId access user eph act c r s).
  - intros <-%Ok_eq. apply ledger_start_admitted, new_engine_ledger.
  - unfold start_local. cbv zeta.
    pose proof (ledger_bindDocument [] c site _ (new_engine_ledger docId access user eph act)) as Hb.
    revert Hb. generalize (bindDocument c site (new_engine docId access user eph act)). intros x Hx.
    destruct (_ <? _); [by apply ledger_import_text | by intros <-%Ok_eq].
Qed.

Lemma opened_ledger K0 s : opened_from K0 s -> ledger_of K0 s.
Proof.
  intros (docId & access & user & eph & act & needs & about & c & src & E & -> & _). unfold start in E.
  match type of E with (?r ≫= _) = _ => destruct r as [x|] eqn:Ex; [cbn [mbind res_bind] in E | done] end.
  apply ledger_started in Ex. destruct (refresh_about needs about x) as [y|] eqn:Ey; [cbn [mbind res_bind] in E | done].
  apply Ok_eq in E as <-. apply ledger_finish_opening. by eapply ledger_refresh_about.
Qed.

(** C1. A confirmed save is a real one: whenever a durability waiter resolves,
    every edit whose journal append had been requested before, and every edit
    the stored journal still held at opening, had been retired by a journal
    transaction that was stored - for a shared document, the one its commit
    receipt from the server asked for. This holds in every run, whatever the
    order of network, storage, timer, tab and page events. *)
Theorem durable_means_acknowledged K0 s es pre w post :
  opened_from K0 s -> out (run s es) = pre ++ Resolved w :: post ->
  forall id, id ∈ K0 ++ appended pre -> acked (access (run s es)) id pre.
Proof.
  intros Ho. eapply lg_confirmed, ledger_run, opened_ledger, Ho.
Qed.
End Opened.
