(* ===== verification/EngineDemo.v ===== *)
(** Concrete runs of the engine: the witnesses of its theorems, and runs that
    show where the code does not do what it means to. *)

From S2P Require Import Prelude.
From S2P Require Import Timers.
From S2P Require Import TextChange.
From S2P Require Import Bytes.
From S2P Require Import JsValue.
From S2P Require Import Protocol.
From S2P Require Import PresenceStore.
From S2P Require Import PresenceActivity.
From S2P Require Import Journal.
From S2P Require Import EsbtDocument.
From S2P Require Import EngineState.
From S2P Require Import Engine.
From S2P Require Import EngineSafety.
From S2P Require Import EngineLedger.

Module EngineDemo.

#[local] Existing Instance Buffer.buffer_component.

(** A presence store that publishes nothing. *)
#[local] Instance silent_presence : Presence unit := {
  p_begin u _ := u; p_encodeAll u _ := (u, Ok []); p_apply u _ _ := u;
  p_set u _ _ _ := (u, Ok []); p_delete u _ _ := (u, Ok []); p_subscribe u := u; p_destroy u := u }.

#[local] Instance counting_randomness : Randomness := {
  random_bytes n := n :: replicate 15 1; random_unit n := (1 # 2)%Q }.

Definition ticket : RoomTicket := {| t_siteId := lit "7"; t_role := Some REditor; t_scratch := false |}.
Definition demo_user : LocalUser := {| u_name := lit "Ada"; u_colorIndex := 1; u_id := [] |}.
Definition empty_page : Buffer.buf := {| Buffer.text := []; Buffer.base := None |}.

Definition admitted : Engine Buffer.buf unit :=
  finish_opening (start_admitted empty_page ticket
    (new_engine (lit "doc") true demo_user tt demo_controller)).

Definition typed (s : string) : SE (Doc Buffer.buf) unit :=
  _ ← insert 0 (lit s) no_options; mret tt.

(** Socket 2 opens; the opening checkpoint is stored. *)
Definition online : list (@event Buffer.buf) := [EOpened None; EOpen 2; EExecute Stored; ESettle].
Definition synced : list (@event Buffer.buf) := online ++ [EMessage 2 [MSG_SYNCED]].

Definition receipt_of (idBytes : bytes) : bytes := MSG_COMMITTED :: receipt_layout idBytes 1 [].

(** The edit gets id 3,1,...,1: journalled, sent, committed, retired. *)
Definition saved_edit : list (@event Buffer.buf) :=
  synced ++ [EEdit (typed "hi"); EWhenDurable 1000; EExecute Stored; ESettle;
             EMessage 2 (receipt_of (3 :: replicate 15 1)); EExecute Stored; ESettle].

(** Finds an effect in a computed log. *)
Ltac find_effect := apply list_elem_of_In; vm_compute; repeat (first [left; reflexivity | right]).

Example saved_edit_run :
  currentStatus (run admitted saved_edit) = Connected /\
  pendingMutations (run admitted saved_edit) = [] /\ Resolved 4 ∈ out (run admitted saved_edit).
Proof. split; [vm_compute; reflexivity | split; [vm_compute; reflexivity | find_effect]]. Qed.

(** ** Witnesses *)

Definition refused : Engine Buffer.buf unit :=
  run admitted (synced ++ [EEdit (typed "hi"); EClose 2 CLOSE_INVALID_PAYLOAD]).

Lemma stopped_is_final_witness :
  isDurable (run refused [EOnline; EExecute Stored; ESettle; EEdit (typed "more")]) = false.
Proof.
  refine (proj1 (proj2 (proj2 (stopped_is_final refused
    [EOnline; EExecute Stored; ESettle; EEdit (typed "more")] _)))).
  vm_compute. reflexivity.
Defined.

(** Storage fails under the first edit. *)
Definition failed_append : Engine Buffer.buf unit :=
  run admitted (synced ++ [EEdit (typed "hi"); EWhenDurable 1000;
                           EExecute (FailedUnwritten (Exn PlainError "quota"))]).

Definition failed_job : job :=
  Eval vm_compute in match finished failed_append with (j, _) :: _ => j | [] => JobArchive demo_record end.

Lemma failed_journal_request_stops_witness :
  stopped (step failed_append ESettle) = true.
Proof.
  assert (finished failed_append = [(failed_job, Throw (Exn PlainError "quota"))]) as Hf
    by (vm_compute; reflexivity).
  assert (storageFatal failed_append = false) as Hg by (vm_compute; reflexivity).
  pose proof (failed_journal_request_stops failed_append failed_job (Exn PlainError "quota") [] Hf Hg) as T.
  cbv zeta in T. destruct T as [Hs _]. exact Hs.
Defined.

Lemma definitive_refusal_stops_witness :
  stopped (step (run admitted synced) (EClose 2 CLOSE_FORBIDDEN_WRITE)) = true /\
  reconnectTimer (step (run admitted synced) (EClose 2 CLOSE_FORBIDDEN_WRITE)) = None.
Proof.
  assert (socket (run admitted synced) = Some 2) as Hk by (vm_compute; reflexivity).
  assert (stopped (run admitted synced) = false) as Hs by (vm_compute; reflexivity).
  assert (CLOSE_FORBIDDEN_WRITE ∈ [CLOSE_INVALID_PAYLOAD; CLOSE_FORBIDDEN_WRITE; CLOSE_DOCUMENT_DELETED])
    as Hc by (apply list_elem_of_In; right; left; reflexivity).
  pose proof (definitive_refusal_stops (run admitted synced) 2 CLOSE_FORBIDDEN_WRITE Hk Hs Hc) as T.
  cbv zeta in T. destruct T as (Hr & _ & _ & _ & Ht & _). split; [exact Hr | exact Ht].
Defined.

(** The log up to the confirmation of the first edit. *)
Definition confirmed_log : list effect := Eval vm_compute in removelast (out (run admitted saved_edit)).

Lemma admitted_opened : opened_from [] admitted.
Proof.
  exists (lit "doc"), true, demo_user, tt, demo_controller, (fun _ => false), [], empty_page, (FromRoom ticket).
  split; [vm_compute; reflexivity | done].
Qed.

Lemma durable_means_acknowledged_witness :
  out (run admitted saved_edit) = confirmed_log ++ [Resolved 4] /\ appended confirmed_log <> [] /\
  forall id, id ∈ [] ++ appended confirmed_log ->
    acked (access (run admitted saved_edit)) id confirmed_log.
Proof.
  assert (out (run admitted saved_edit) = confirmed_log ++ [Resolved 4]) as E
    by (vm_compute; reflexivity).
  split; [exact E | split; [vm_compute; discriminate |]].
  exact (durable_means_acknowledged [] admitted saved_edit confirmed_log 4 []
    admitted_opened E).
Defined.

(** ** Where the code misses its intent *)

(** [persistAndSendMutation] promises that the network never observes an edit
    that is not yet in the journal, but it enters the edit in the pending map
    first: a [MSG_SYNCED] that arrives while the append is still waiting sends
    every pending edit. Here the journal holds no edit and the frame is out. *)
Definition unjournaled : Engine Buffer.buf unit :=
  run admitted (online ++ [EEdit (typed "hi"); EMessage 2 [MSG_SYNCED]]).

Definition is_mutation_frame (e : effect) : bool :=
  match e with Sent _ (tag :: _) => tag =? MSG_MUTATION | _ => false end.

Definition is_append_settled (e : effect) : bool :=
  match e with JournalSettled (JobAppend _ _ _) _ => true | _ => false end.

Example unjournaled_edit_is_sent :
  length (pendingMutations unjournaled) = 1%nat /\
  existsb is_mutation_frame (out unjournaled) = true /\
  existsb is_append_settled (out unjournaled) = false /\
  (pending <$> readReplicaJournal (db unjournaled) (docId unjournaled)) = Some [].
Proof. split_and!; vm_compute; reflexivity. Qed.

(** An invalid commit receipt is meant to close the socket with code 1002, which
    [WebSocket.close] refuses with an exception: nothing happens at all. *)
Example invalid_receipt_keeps_the_socket {C P} `{Component C} `{Presence P} `{Randomness}
    (s : Engine C P) payload e :
  decodeCommitted payload = Throw e -> handleCommitted payload s = s.
Proof.
  intros E. unfold handleCommitted. rewrite E. destruct (destroyed s || storageFatal s); [done |].
  by destruct (socket s).
Qed.

(** A stalled socket is detached but its transport is never closed (1013). *)
Definition is_close_of (id : Z) (e : effect) : bool :=
  match e with CloseCalled i => i =? id | _ => false end.

Definition stalled : Engine Buffer.buf unit := run admitted [EOpened None; ETimer 2].

Example stalled_socket_is_not_closed :
  socket stalled = None /\ (readyState <$> (net stalled !! 2)) = Some CONNECTING /\
  existsb (is_close_of 2) (out stalled) = false.
Proof. split_and!; vm_compute; reflexivity. Qed.

(** A page that is put away keeps the status of the socket it dropped: brought
    back, it shows a connected document with no socket, no admission request
    and no retry. *)
Definition put_away : Engine Buffer.buf unit := run admitted (synced ++ [EPageHide]).

Example hidden_page_is_stranded :
  currentStatus put_away = Connected /\ serverSynced put_away = true /\ socket put_away = None /\
  admissionAbort put_away = None /\ reconnectTimer put_away = None /\ stopped put_away = false.
Proof. split_and!; vm_compute; reflexivity. Qed.

(** The acknowledgement of an edit committed on the previous socket disarms the
    handshake watchdog of the next one. *)
Definition stale_acknowledgement : list (@event Buffer.buf) :=
  synced ++ [EEdit (typed "hi"); EExecute Stored; ESettle; EMessage 2 (receipt_of (3 :: replicate 15 1));
             EClose 2 1006; EClock 600 600; ETimer 6; EAdmission 5 (Granted ticket)].

Definition before_settling : Engine Buffer.buf unit := run admitted stale_acknowledgement.
Definition after_settling : Engine Buffer.buf unit := run before_settling [EExecute Stored; ESettle].

Example stale_acknowledgement_disarms_watchdog :
  socket after_settling = socket before_settling /\ serverSynced after_settling = false /\
  (match socket before_settling, socketDeadlineTimer before_settling with
  | Some _, Some _ => true | _, _ => false end) = true /\
  socketDeadlineTimer after_settling = None.
Proof. split_and!; vm_compute; reflexivity. Qed.

End EngineDemo.
