(* ===== verification/EngineOpening.v ===== *)
(** Opening the built-in introduction ([start] of
    [client/src/collab/esbt-engine.ts]): the stored replica that was tried out
    first can be restored. *)

From S2P Require Import Prelude TextChange.
From S2P Require Import Bytes.
From S2P Require Import JsValue.
From S2P Require Import Protocol.
From S2P Require Import Timers.
From S2P Require Import PresenceActivity.
From S2P Require Import Journal.
From S2P Require Import EsbtDocument.
From S2P Require Import EngineState.
From S2P Require Import Engine.

Section Opening.
Context {C P : Type} `{Component C} `{Presence P} `{Randomness}.
Implicit Types (s : Engine C P).

(** Without a socket nothing the page publishes touches the replica. *)
Definition unplugged (d : option (Doc C)) s : Prop := socket s = None /\ replica s = d.

Lemma unplugged_send d tag payload s : unplugged d s -> unplugged d (send tag payload s).
Proof. intros [Hs Hr]. unfold send. rewrite Hs. by destruct (_ || _). Qed.

Lemma unplugged_presence_call d r s : unplugged d s -> unplugged d (presence_call r s).
Proof.
  intros Hs. unfold presence_call. assert (unplugged d (s <| ephemeral := r.1 |>)) as Hi by exact Hs.
  revert Hi. generalize (s <| ephemeral := r.1 |>). destruct (r.2) as [outs|]; [|done].
  induction outs as [|o outs IH]; intros x Hx; [done |]. apply IH. destruct o; [done | by apply unplugged_send].
Qed.

Lemma unplugged_with_activity d f s : unplugged d s -> unplugged d (with_activity f s).
Proof.
  intros Hs. unfold with_activity. cbv zeta.
  assert (unplugged d (s <| activity := f (activity s) |>)) as Hi by exact Hs.
  revert Hi. generalize (s <| activity := f (activity s) |>).
  induction (drop _ _) as [|p ps IH]; intros x Hx; [done |]. apply IH.
  destruct p; unfold publishUser, clearLocalPresence; cbv zeta; repeat apply unplugged_presence_call; exact Hx.
Qed.

Lemma unplugged_refreshTelemetry d s : unplugged d s -> unplugged d (refreshTelemetry s).
Proof. intros [Hs Hr]. unfold refreshTelemetry. destruct (replica s) as [x|] eqn:E; [destruct (doc_bound s)|];
  (split; [exact Hs | cbn; congruence]).
Qed.

Lemma bound_replica c site s : socket s = None -> unplugged (Some (new_document c)) (bindDocument c site s).
Proof.
  intros Hs. unfold bindDocument. cbv zeta. apply unplugged_refreshTelemetry.
  match goal with |- context [with_activity ?f ?x] =>
    assert (unplugged (Some (new_document c)) (with_activity f x)) as Hi by (by apply unplugged_with_activity);
    revert Hi; generalize (with_activity f x) end.
  intros x Hx. destruct (bool_decide _); [|exact Hx]. unfold arm. destruct (setTimeout _ _ _) as [h t]. exact Hx.
Qed.

(** The introduction always opens over what it restored: a cache it kept, having
    tried it out, is restored without an error. *)
Theorem about_cache_restores docId access user eph act c stored r :
  isAboutDocument docId = true -> usable_record docId (Ok c) stored = Some r ->
  exists s, start_stored c r (new_engine docId access user eph act : Engine C P) = Ok s.
Proof.
  intros Ha Hu. unfold usable_record in Hu. destruct stored as [x|]; [|done]. rewrite Ha in Hu.
  cbn [mbind res_bind] in Hu. unfold start_stored. cbv zeta.
  match goal with |- context [bindDocument c ?site ?y] =>
    pose proof (bound_replica c site y eq_refl) as [_ Hr]; revert Hr; generalize (bindDocument c site y) end.
  intros y ->. revert Hu. destruct (0 <? len (snapshot x)) eqn:El.
  2: { intros [= <-]. rewrite El. by eexists. }
  intros Hu. assert (x = r) as -> by (destruct ((applySnapshot (snapshot x) (new_document c)).2); [by injection Hu | done]).
  rewrite El. revert Hu. unfold with_doc.
  change {| component := component (new_document c); transactionDepth := transactionDepth (new_document c);
            transactionOrigin := transactionOrigin (new_document c);
            EsbtDocument.destroyed := EsbtDocument.destroyed (new_document c); notices := [] |} with (new_document c).
  destruct (applySnapshot (snapshot r) (new_document c)) as [d [v|e]]; [|done]. intros _. by eexists.
Qed.

(** [redo] and the keys of the editor's history: a page that may not edit
    changes nothing. *)
Definition undo_key s : Engine C P :=
  match this_doc s with
  | Some d =>
      if edit (capabilities s) && match (canUndo d).2 with Ok b => b | Throw _ => false end
      then (with_doc (undo {| o_origin := Some (lit "undo"); o_undoGroup := None |}) d s).1 else s
  | None => s
  end.
Definition redo_key s : Engine C P :=
  match this_doc s with
  | Some d =>
      if edit (capabilities s) && match (canRedo d).2 with Ok b => b | Throw _ => false end
      then (with_doc (redo {| o_origin := Some (lit "redo"); o_undoGroup := None |}) d s).1 else s
  | None => s
  end.

Lemma keys_need_capability s : edit (capabilities s) = false -> undo_key s = s /\ redo_key s = s.
Proof. intros E. unfold undo_key, redo_key. rewrite E. by destruct (this_doc s). Qed.
End Opening.
