(* ===== verification/EditorText.v ===== *)
(** Text arithmetic of the editor bridge ([client/src/collab/esbt-engine.ts]):
    the minimal patch of [reconcile], the offsets of an editor update, and the
    search of [resolveReviewRange]. *)

From S2P Require Import Prelude.
From S2P Require Import TextChange.

(** A replacement inside a text. *)
Definition splice (text : jstring) (f t : Z) (insert : jstring) : jstring :=
  slice text 0 f ++ insert ++ slice_from text t.

(** ** Reconciling the editor with the replica *)

Fixpoint prefix_loop (fuel : nat) (current target : jstring) (shortest from : Z) : Z :=
  match fuel with
  | O => from
  | S n => if (from <? shortest) && bool_decide (at_index current from = at_index target from)
           then prefix_loop n current target shortest (from + 1) else from
  end.

Fixpoint suffix_loop (fuel : nat) (current target : jstring) (from currentEnd targetEnd : Z) : Z * Z :=
  match fuel with
  | O => (currentEnd, targetEnd)
  | S n =>
      if (from <? currentEnd) && (from <? targetEnd)
         && bool_decide (at_index current (currentEnd - 1) = at_index target (targetEnd - 1))
      then suffix_loop n current target from (currentEnd - 1) (targetEnd - 1)
      else (currentEnd, targetEnd)
  end.

(** The change [reconcile] dispatches, if any. *)
Definition reconcile_patch (current target : jstring) : option TextEdit :=
  if str_eqb current target then None
  else
    let shortest := Z.min (len current) (len target) in
    let f := prefix_loop (length current) current target shortest 0 in
    let '(currentEnd, targetEnd) := suffix_loop (length current) current target f (len current) (len target) in
    Some {| from := f; to := currentEnd; insert := slice target f targetEnd |}.

(** ** An editor update

    The changes of one CodeMirror update, as [iterChanges] yields them: in
    order, disjoint, with offsets in the text before the update. *)
Record Change := { fromA : Z; toA : Z; inserted : jstring }.

Fixpoint changes_ok (n pos : Z) (cs : list Change) : Prop :=
  match cs with
  | [] => pos <= n
  | c :: r => pos <= fromA c <= toA c /\ toA c <= n /\ Forall is_unit (inserted c) /\
              changes_ok n (toA c) r
  end.

(** The text after the update: the stretches between the changes are kept. *)
Fixpoint updated (old : jstring) (pos : Z) (cs : list Change) : jstring :=
  match cs with
  | [] => slice_from old pos
  | c :: r => slice old pos (fromA c) ++ inserted c ++ updated old (toA c) r
  end.

(** The running [adjust] of the forwarding loop. *)
Definition adjusted (adjust : Z) (c : Change) : Z := adjust + len (inserted c) - (toA c - fromA c).

(** ** Quotes *)

Fixpoint index_of_loop (fuel : nat) (text quote : jstring) (i : Z) : Z :=
  match fuel with
  | O => -1
  | S n => if len text <? i + len quote then -1
           else if str_eqb (slice text i (i + len quote)) quote then i
           else index_of_loop n text quote (i + 1)
  end.

(** [text.indexOf(quote, position)] for a non-empty quote. *)
Definition indexOf (text quote : jstring) (position : Z) : Z :=
  index_of_loop (S (length text)) text quote (Z.max position 0).

(** The closest match: the loop over [cursor], with the distance [None] for
    [Number.POSITIVE_INFINITY]. *)
Fixpoint closest_loop (fuel : nat) (text quote : jstring) (startOffset cursor match_ : Z)
    (distance : option Z) : Z :=
  match fuel with
  | O => match_
  | S n =>
      if cursor <? 0 then match_
      else
        let candidateDistance := Z.abs (cursor - startOffset) in
        let closer := match distance with None => true | Some d => candidateDistance <? d end in
        let match_ := if closer then cursor else match_ in
        let distance := if closer then Some candidateDistance else distance in
        closest_loop n text quote startOffset (indexOf text quote (cursor + 1)) match_ distance
  end.

Definition closest_match (text quote : jstring) (startOffset : Z) : Z :=
  closest_loop (S (length text)) text quote startOffset (indexOf text quote 0) (-1) None.

(** ** Splices *)

Lemma splice_len text f t s :
  0 <= f <= t -> t <= len text -> len (splice text f t s) = len text - (t - f) + len s.
Proof. intros. unfold splice. rewrite !len_app, len_slice, len_slice_from by lia. lia. Qed.

Lemma slice_app_r {A} (a b : list A) i j :
  len a <= i <= j -> j <= len a + len b -> slice (a ++ b) i j = slice b (i - len a) (j - len a).
Proof.
  intros. pose proof (len_nonneg a). rewrite !slice_in by (rewrite ?len_app; lia).
  rewrite drop_app_ge by (unfold len in *; lia). f_equal; [lia |]. f_equal. unfold len. lia.
Qed.

Lemma slice_app_l {A} (a b : list A) i j :
  0 <= i <= j -> j <= len a -> slice (a ++ b) i j = slice a i j.
Proof.
  intros. pose proof (len_nonneg b). rewrite !slice_in by (rewrite ?len_app; lia).
  rewrite drop_app_le by (unfold len in *; lia). rewrite take_app_le; [done |].
  rewrite length_drop. unfold len in *. lia.
Qed.

Lemma slice_all_l {A} (a b : list A) : slice (a ++ b) 0 (len a) = a.
Proof. pose proof (len_nonneg a). rewrite slice_app_l by lia. apply slice_full. Qed.

Lemma slice_left {A} (a b : list A) n : len a = n -> slice (a ++ b) 0 n = a.
Proof. intros <-. apply slice_all_l. Qed.

Lemma slice_from_right {A} (a b : list A) n : len a = n -> slice_from (a ++ b) n = b.
Proof.
  intros <-. pose proof (len_nonneg a). pose proof (len_nonneg b). unfold slice_from.
  rewrite len_app, slice_app_r by lia. rewrite Z.sub_diag. replace (len a + len b - len a) with (len b) by lia.
  apply slice_full.
Qed.

Lemma slice_from_app_r {A} (a b : list A) i :
  len a <= i <= len a + len b -> slice_from (a ++ b) i = slice_from b (i - len a).
Proof.
  intros. unfold slice_from. rewrite len_app, slice_app_r by lia. f_equal. lia.
Qed.

Lemma slice_empty {A} (l : list A) i : slice l i i = [].
Proof. unfold slice. by rewrite Z.sub_diag. Qed.

Lemma slice_from_slice {A} (l : list A) i j :
  0 <= i -> 0 <= j -> i + j <= len l -> slice_from (slice_from l i) j = slice_from l (i + j).
Proof.
  intros. assert (len (slice_from l i) = len l - i) by (apply len_slice_from; lia).
  rewrite !slice_from_in by lia. rewrite drop_drop. f_equal. lia.
Qed.

Lemma slice_of_slice_from {A} (l : list A) i j :
  0 <= i -> 0 <= j -> i + j <= len l -> slice (slice_from l i) 0 j = slice l i (i + j).
Proof.
  intros. assert (len (slice_from l i) = len l - i) by (apply len_slice_from; lia).
  rewrite (slice_0 _ j) by lia. rewrite slice_from_in, slice_in by lia. do 2 f_equal. lia.
Qed.

(** Deleting and then inserting at the same place is one replacement. *)
Lemma splice_delete_insert text f t s :
  0 <= f <= t -> t <= len text -> splice (splice text f t []) f f s = splice text f t s.
Proof.
  intros Hf Ht. assert (Hl : len (slice text 0 f) = f) by (rewrite len_slice; lia).
  pose proof (len_slice_from text t ltac:(lia)) as Hr.
  unfold splice at 1. unfold splice at 1 2. cbn [app].
  rewrite <- Hl at 2. rewrite slice_all_l.
  rewrite slice_from_app_r by lia. rewrite Hl, Z.sub_diag.
  unfold splice. do 2 f_equal. unfold slice_from at 1. apply slice_full.
Qed.

Lemma splice_id text f : 0 <= f <= len text -> splice text f f [] = text.
Proof. intros. unfold splice. cbn [app]. by apply slice_parts. Qed.

Lemma slice_over {A} (l : list A) k : len l <= k -> slice l 0 k = l.
Proof.
  intros. pose proof (len_nonneg l). unfold slice. unfold rel_index at 1 2 3. zdecide.
  replace (Z.min k (len l)) with (len l) by lia. replace (Z.min 0 (len l)) with 0 by lia.
  cbn [drop Z.to_nat]. apply take_ge. unfold len. lia.
Qed.

(** The next chunk, cut off at the end of the text. *)
Lemma slice_extend {A} (l : list A) off n :
  0 <= off <= len l -> 0 <= n -> slice l 0 off ++ slice l off (off + n) = slice l 0 (off + n).
Proof.
  intros. destruct (Z.le_gt_cases (off + n) (len l)).
  - symmetry. apply slice_split; lia.
  - rewrite (slice_over l (off + n)) by lia.
    replace (slice l off (off + n)) with (slice_from l off); [by apply slice_parts |].
    unfold slice_from, slice. do 2 f_equal. unfold rel_index. zdecide. lia.
Qed.

(** ** The reconciling patch *)

Lemma at_index_in {A} (l : list A) i : 0 <= i < len l -> exists x, at_index l i = Some x.
Proof.
  intros. rewrite at_index_lookup by lia. apply lookup_lt_is_Some_2. unfold len in *. lia.
Qed.

Lemma prefix_loop_spec n current target shortest f p :
  shortest <= len current -> shortest <= len target -> 0 <= f <= shortest ->
  shortest - f <= Z.of_nat n ->
  take (Z.to_nat f) current = take (Z.to_nat f) target ->
  prefix_loop n current target shortest f = p ->
  f <= p <= shortest /\ take (Z.to_nat p) current = take (Z.to_nat p) target /\
  (p = shortest \/ at_index current p <> at_index target p).
Proof.
  intros Hc Ht. revert f. induction n as [|n IH]; intros f Hf Hn Heq; cbn [prefix_loop].
  - intros <-. split; [lia | split; [done | left; lia]].
  - destruct (Z.ltb_spec f shortest); cbn [andb].
    2:{ intros <-. split; [lia | split; [done | left; lia]]. }
    destruct (bool_decide (at_index current f = at_index target f)) eqn:E.
    2:{ intros <-. apply bool_decide_eq_false in E. split; [lia | split; [done | by right]]. }
    apply bool_decide_eq_true in E. intros Hp.
    destruct (at_index_in current f ltac:(lia)) as [x Hx].
    apply IH in Hp; [split; [lia | apply Hp] | lia | lia |].
    rewrite Hx in E. rewrite !at_index_lookup in * by lia. symmetry in E.
    replace (Z.to_nat (f + 1)) with (S (Z.to_nat f)) by lia.
    by rewrite (take_S_r _ _ _ Hx), (take_S_r _ _ _ E), Heq.
Qed.

Lemma suffix_loop_spec n current target f a b ce te :
  0 <= f <= a -> f <= b -> a <= len current -> b <= len target -> a - f <= Z.of_nat n ->
  drop (Z.to_nat a) current = drop (Z.to_nat b) target ->
  suffix_loop n current target f a b = (ce, te) ->
  f <= ce <= a /\ f <= te <= b /\ drop (Z.to_nat ce) current = drop (Z.to_nat te) target /\
  (ce = f \/ te = f \/ at_index current (ce - 1) <> at_index target (te - 1)).
Proof.
  revert a b. induction n as [|n IH]; intros a b Ha Hb Hla Hlb Hn Heq; cbn [suffix_loop].
  - intros [= <- <-]. split_and!; try lia; done.
  - destruct (Z.ltb_spec f a); cbn [andb].
    2:{ intros [= <- <-]. split_and!; try lia; done. }
    destruct (Z.ltb_spec f b); cbn [andb].
    2:{ intros [= <- <-]. split_and!; try lia; done. }
    destruct (bool_decide (at_index current (a - 1) = at_index target (b - 1))) eqn:E.
    2:{ intros [= <- <-]. apply bool_decide_eq_false in E. split_and!; try lia; auto. }
    apply bool_decide_eq_true in E. intros Hp.
    destruct (at_index_in current (a - 1) ltac:(lia)) as [x Hx].
    apply IH in Hp; [split_and!; try lia; apply Hp | lia | lia | lia | lia | lia |].
    rewrite Hx in E. rewrite !at_index_lookup in * by lia. symmetry in E.
    rewrite (drop_S _ _ _ Hx), (drop_S _ _ _ E). f_equal.
    replace (S (Z.to_nat (a - 1))) with (Z.to_nat a) by lia.
    by replace (S (Z.to_nat (b - 1))) with (Z.to_nat b) by lia.
Qed.

(** The bounds the two loops settle on. *)
Lemma reconcile_bounds current target e :
  reconcile_patch current target = Some e ->
  current <> target /\ 0 <= from e <= to e /\ to e <= len current /\
  exists te, from e <= te <= len target /\ insert e = slice target (from e) te /\
    take (Z.to_nat (from e)) current = take (Z.to_nat (from e)) target /\
    drop (Z.to_nat (to e)) current = drop (Z.to_nat te) target /\
    (from e = Z.min (len current) (len target) \/ at_index current (from e) <> at_index target (from e)) /\
    (to e = from e \/ te = from e \/ at_index current (to e - 1) <> at_index target (te - 1)).
Proof.
  unfold reconcile_patch. destruct (str_eqb current target) eqn:Eq; [done |].
  set (m := Z.min _ _). set (f := prefix_loop _ _ _ _ _).
  pose proof (len_nonneg current) as H1. pose proof (len_nonneg target) as H2.
  destruct (prefix_loop_spec (length current) current target m 0 f) as (Hf & Hpre & Hmax);
    [lia | lia | lia | unfold len in *; lia | done | done |].
  destruct (suffix_loop _ _ _ _ _ _) as [ce te] eqn:Es.
  apply suffix_loop_spec in Es as (Hce & Hte & Hsuf & Hend);
    [| lia | lia | lia | lia | unfold len in *; lia |].
  2:{ rewrite !drop_ge by (unfold len; lia). done. }
  intros [= <-]. cbn [from to insert]. split.
  { intros ->. by rewrite str_eqb_refl in Eq. }
  split; [lia | split; [lia |]]. exists te. split; [lia |]. by split_and!.
Qed.

Lemma reconcile_patch_applies current target :
  match reconcile_patch current target with
  | None => current
  | Some e => splice current (from e) (to e) (insert e)
  end = target.
Proof.
  destruct (reconcile_patch current target) as [e|] eqn:E.
  - apply reconcile_bounds in E as (_ & Hr & Hl & te & Hte & Hi & Hpre & Hsuf & _).
    unfold splice. rewrite Hi, slice_0 by lia. rewrite Hpre, <- slice_0 by lia.
    rewrite slice_from_in by lia. rewrite Hsuf, <- slice_from_in by lia.
    unfold slice_from. rewrite <- slice_split by lia. rewrite <- slice_split by lia.
    apply slice_full.
  - unfold reconcile_patch in E. destruct (str_eqb current target) eqn:Eq; [by apply str_eqb_eq in Eq |].
    by destruct (suffix_loop _ _ _ _ _ _).
Qed.

Lemma slice_ends (l : jstring) i j :
  0 <= i < j -> j <= len l ->
  head (slice l i j) = at_index l i /\ last (slice l i j) = at_index l (j - 1).
Proof.
  intros Hi Hj. rewrite slice_in by lia. rewrite !at_index_lookup by lia. split.
  - rewrite head_lookup, lookup_take_lt, lookup_drop by lia. f_equal. lia.
  - rewrite last_lookup, length_take, length_drop.
    rewrite lookup_take_lt, lookup_drop by (unfold len in *; lia). f_equal. unfold len in *. lia.
Qed.

(** [reconcile] turns the editor's text into the replica's with one change,
    and with the smallest one: the change is in range, applying it gives exactly
    the target, and what it replaces and what it inserts neither start nor end
    with a common unit. It dispatches nothing exactly when the texts are equal. *)
Theorem reconcile_exact current target :
  match reconcile_patch current target with
  | None => current = target
  | Some e =>
      current <> target /\ 0 <= from e <= to e /\ to e <= len current /\
      splice current (from e) (to e) (insert e) = target /\
      let removed := slice current (from e) (to e) in
      (removed = [] \/ insert e = [] \/
       head removed <> head (insert e) /\ last removed <> last (insert e))
  end.
Proof.
  pose proof (reconcile_patch_applies current target) as Ha.
  destruct (reconcile_patch current target) as [e|] eqn:E; [|done].
  apply reconcile_bounds in E as (Hne & Hr & Hl & te & Hte & Hi & _ & _ & Hmax & Hend).
  split_and!; [done | lia | lia | lia | done |]. cbv zeta. rewrite Hi.
  destruct (decide (to e = from e)) as [-> | Hcf]; [left; apply slice_empty |].
  destruct (decide (te = from e)) as [-> | Htf]; [right; left; apply slice_empty |]. right; right.
  destruct (slice_ends current (from e) (to e) ltac:(lia) ltac:(lia)) as [-> ->].
  destruct (slice_ends target (from e) te ltac:(lia) ltac:(lia)) as [-> ->].
  destruct Hmax as [Hm | Hm]; [exfalso; lia |]. destruct Hend as [He | [He | He]]; [lia | lia | done].
Qed.

(** ** An update as sequential edits *)

Fixpoint splices (adjust : Z) (cs : list Change) (text : jstring) : jstring :=
  match cs with
  | [] => text
  | c :: r => splices (adjusted adjust c) r (splice text (fromA c + adjust) (toA c + adjust) (inserted c))
  end.

Lemma changes_pos n pos cs : changes_ok n pos cs -> pos <= n.
Proof. revert pos. induction cs as [|c r IH]; intros pos; cbn; [done |]. intros (? & ? & _). lia. Qed.

(** One step of the walk: what precedes [pos] is already new. *)
Lemma splice_step old pre pos adjust c :
  0 <= pos -> pos <= fromA c <= toA c -> toA c <= len old -> len pre = pos + adjust ->
  splice (pre ++ slice_from old pos) (fromA c + adjust) (toA c + adjust) (inserted c)
    = (pre ++ slice old pos (fromA c) ++ inserted c) ++ slice_from old (toA c) /\
  len (pre ++ slice old pos (fromA c) ++ inserted c) = toA c + adjusted adjust c.
Proof.
  intros Hp Hf Ht Hl. pose proof (len_nonneg pre). split.
  2:{ rewrite !len_app, len_slice by lia. unfold adjusted. lia. }
  unfold splice. rewrite slice_from_app_r by (rewrite len_slice_from; lia).
  replace (toA c + adjust - len pre) with (toA c - pos) by lia.
  rewrite slice_from_slice by lia. replace (pos + (toA c - pos)) with (toA c) by lia.
  rewrite !app_assoc. f_equal. f_equal.
  rewrite (slice_split _ 0 (len pre)) by (rewrite ?len_app, ?len_slice_from; lia).
  rewrite slice_all_l. f_equal. rewrite slice_app_r by (rewrite ?len_slice_from; lia).
  rewrite Z.sub_diag. replace (fromA c + adjust - len pre) with (fromA c - pos) by lia.
  rewrite slice_of_slice_from by lia. f_equal. lia.
Qed.

Lemma splices_updated_from old cs : forall pre pos adjust,
  0 <= pos -> len pre = pos + adjust -> changes_ok (len old) pos cs ->
  splices adjust cs (pre ++ slice_from old pos) = pre ++ updated old pos cs.
Proof.
  induction cs as [|c r IH]; intros pre pos adjust Hp Hl Hok; cbn [splices updated]; [done |].
  destruct Hok as (Hf & Ht & Hu & Hr).
  destruct (splice_step old pre pos adjust c) as [-> Hl']; [lia | lia | lia | lia |].
  rewrite IH by (lia || done). by rewrite <- !app_assoc.
Qed.

Lemma splices_updated old cs :
  changes_ok (len old) 0 cs -> splices 0 cs old = updated old 0 cs.
Proof.
  intros Hok. pose proof (splices_updated_from old cs [] 0 0 ltac:(lia) ltac:(done) Hok) as E.
  cbn [app] in E. unfold slice_from in E. by rewrite slice_full in E.
Qed.

(** ** Searching *)

Definition occurs (text quote : jstring) (i : Z) : Prop :=
  0 <= i /\ i + len quote <= len text /\ slice text i (i + len quote) = quote.

Lemma index_of_loop_spec n text quote i r :
  0 <= i -> len text - i < Z.of_nat n -> index_of_loop n text quote i = r ->
  (r = -1 /\ forall j, i <= j -> ~ occurs text quote j) \/
  (i <= r /\ occurs text quote r /\ forall j, i <= j < r -> ~ occurs text quote j).
Proof.
  revert i. induction n as [|n IH]; intros i Hi Hn; cbn [index_of_loop].
  - intros <-. left. split; [done |]. intros j Hj (_ & Hle & _). pose proof (len_nonneg quote). lia.
  - destruct (Z.ltb_spec (len text) (i + len quote)).
    { intros <-. left. split; [done |]. intros j Hj (_ & Hle & _). lia. }
    destruct (str_eqb _ quote) eqn:E.
    { apply str_eqb_eq in E. intros <-. right. split; [lia |]. split; [by repeat split |]. intros j Hj. lia. }
    assert (~ occurs text quote i) as Hno.
    { intros (_ & _ & Ho). rewrite Ho, str_eqb_refl in E. done. }
    intros Hr. apply IH in Hr; [|lia|lia].
    destruct Hr as [[-> Hr] | (Hge & Ho & Hr)]; [left | right].
    + split; [done |]. intros j Hj. destruct (decide (j = i)) as [-> |]; [done | apply Hr; lia].
    + split; [lia | split; [done |]]. intros j Hj.
      destruct (decide (j = i)) as [-> |]; [done | apply Hr; lia].
Qed.

Lemma indexOf_spec text quote i :
  0 <= i ->
  (indexOf text quote i = -1 /\ forall j, i <= j -> ~ occurs text quote j) \/
  (i <= indexOf text quote i /\ occurs text quote (indexOf text quote i) /\
   forall j, i <= j < indexOf text quote i -> ~ occurs text quote j).
Proof.
  intros Hi. unfold indexOf. rewrite Z.max_l by lia.
  apply (index_of_loop_spec (S (length text)) text quote i); [done | unfold len; lia | done].
Qed.

(** The best match among the occurrences below [bound]. *)
Definition best (text quote : jstring) (start bound match_ : Z) (distance : option Z) : Prop :=
  match distance with
  | None => match_ = -1 /\ forall j, j < bound -> ~ occurs text quote j
  | Some d =>
      occurs text quote match_ /\ d = Z.abs (match_ - start) /\ match_ < bound /\
      forall j, j < bound -> occurs text quote j ->
        d <= Z.abs (j - start) /\ (d = Z.abs (j - start) -> match_ <= j)
  end.

Definition best_overall (text quote : jstring) (start match_ : Z) : Prop :=
  (match_ = -1 /\ forall j, ~ occurs text quote j) \/
  (occurs text quote match_ /\
   forall j, occurs text quote j ->
     Z.abs (match_ - start) <= Z.abs (j - start) /\
     (Z.abs (match_ - start) = Z.abs (j - start) -> match_ <= j)).

Lemma best_step text quote start cursor bound match_ distance :
  best text quote start bound match_ distance -> occurs text quote cursor -> bound <= cursor ->
  (forall j, bound <= j < cursor -> ~ occurs text quote j) ->
  let d := Z.abs (cursor - start) in
  let closer := match distance with None => true | Some x => d <? x end in
  best text quote start (cursor + 1) (if closer then cursor else match_)
    (if closer then Some d else distance).
Proof.
  intros Hb Ho Hle Hgap d closer. subst closer.
  assert (forall j, j < cursor + 1 -> occurs text quote j -> j < bound \/ j = cursor) as Hj.
  { intros j Hlt Hoj. destruct (decide (j < bound)); [by left |]. right.
    destruct (decide (j = cursor)); [done |]. destruct (Hgap j ltac:(lia) Hoj). }
  destruct distance as [x|]; cbn [best] in Hb.
  - destruct Hb as (Hom & Hx & Hlt & Hmin).
    destruct (Z.ltb_spec d x); cbn [best].
    + split_and!; [done | done | lia |]. intros j Hj' Hoj.
      destruct (Hj j Hj' Hoj) as [Hl | ->]; [|lia]. destruct (Hmin j Hl Hoj). lia.
    + split_and!; [done | done | lia |]. intros j Hj' Hoj.
      destruct (Hj j Hj' Hoj) as [Hl | ->]; [by apply Hmin | lia].
  - destruct Hb as [-> Hnone]. cbn [best]. split_and!; [done | done | lia |]. intros j Hlt Hoj.
    destruct (Hj j Hlt Hoj) as [Hl | ->]; [by destruct (Hnone j Hl) | lia].
Qed.

(** Nothing occurs from [bound] on: the best so far is the best of all. *)
Lemma best_done text quote start bound match_ distance :
  best text quote start bound match_ distance ->
  (forall j, bound <= j -> ~ occurs text quote j) -> best_overall text quote start match_.
Proof.
  intros Hbest Hno.
  assert (forall j, occurs text quote j -> j < bound) as Hlt.
  { intros j Ho. destruct (decide (j < bound)); [done |]. destruct (Hno j ltac:(lia) Ho). }
  destruct distance as [d|]; cbn [best] in Hbest.
  - destruct Hbest as (Hom & -> & _ & Hmin). right. split; [done |]. intros j Ho. by apply Hmin, Ho; apply Hlt.
  - destruct Hbest as [-> Hnone]. left. split; [done |]. intros j Ho. by apply (Hnone j (Hlt j Ho)).
Qed.

Lemma closest_loop_spec n text quote start cursor bound match_ distance :
  len text - bound < Z.of_nat n -> 0 <= bound ->
  best text quote start bound match_ distance ->
  (cursor = -1 /\ forall j, bound <= j -> ~ occurs text quote j) \/
  (bound <= cursor /\ occurs text quote cursor /\ forall j, bound <= j < cursor -> ~ occurs text quote j) ->
  best_overall text quote start (closest_loop n text quote start cursor match_ distance).
Proof.
  revert cursor bound match_ distance.
  induction n as [|n IH]; intros cursor bound m dist Hn Hb Hbest Hcur; cbn [closest_loop].
  - eapply best_done; [exact Hbest |]. intros j Hj (_ & Hl & _). pose proof (len_nonneg quote). lia.
  - destruct Hcur as [[-> Hno] | (Hle & Ho & Hgap)]; [by eapply best_done |].
    destruct (Z.ltb_spec cursor 0) as [Hneg | Hpos]; [exfalso; lia |]. cbv zeta.
    eapply IH with (bound := cursor + 1); [lia | lia | by eapply best_step |].
    apply indexOf_spec. lia.
Qed.

Lemma closest_match_spec text quote start :
  best_overall text quote start (closest_match text quote start).
Proof.
  unfold closest_match.
  eapply closest_loop_spec with (bound := 0); [unfold len; lia | lia | |].
  - split; [done |]. intros j Hj (Hj0 & _). lia.
  - apply indexOf_spec. lia.
Qed.
