(* ===== verification/EditorBridge.v ===== *)
(** The bridge between the CodeMirror editor and the replica
    ([client/src/collab/esbt-engine.ts]): user updates forwarded as one
    transaction, replica changes patched into the editor by microtasks, text
    and review ranges held by anchors. *)

From S2P Require Import Prelude.
From S2P Require Import TextChange.
From S2P Require Import Bytes.
From S2P Require Import Protocol.
From S2P Require Import EsbtDocument.
From S2P Require Import EditorText.

Definition EDITOR_ORIGIN : jstring := lit "editor".
Definition SESSION_ORIGIN : jstring := lit "session".
Definition UNDO_MERGE_MS := 500.
Definition EDITOR_CHUNK_UNITS := 4096.

Inductive microtask :=
| MMount (view : Z)      (* the first reconcile of a mounted view *)
| MReconcile             (* scheduleReconcile *)
| MPatch.                (* scheduleEditorPatch *)

(** The editor side of the engine. [views] are the mounted editors and the
    text each of them holds; [errors] the codes reported to the user. *)
Record Bridge (C : Type) := mkBridge {
  doc : Doc C;
  views : list (Z * jstring);
  editable : bool;
  ended : bool;
  reconcileQueued : bool;
  reconcileTarget : option (Z * jstring);
  editorPatchQueued : bool;
  editorPatchTarget : option (Z * list TextEdit);
  undoGroup : Z;
  lastUndoAt : Z;
  microtasks : list microtask;
  errors : list Z }.

Arguments doc {C} _.
Arguments views {C} _.
Arguments editable {C} _.
Arguments ended {C} _.
Arguments reconcileQueued {C} _.
Arguments reconcileTarget {C} _.
Arguments editorPatchQueued {C} _.
Arguments editorPatchTarget {C} _.
Arguments undoGroup {C} _.
Arguments lastUndoAt {C} _.
Arguments microtasks {C} _.
Arguments errors {C} _.

#[export] Instance bridge_eta {C} : Eta (Bridge C) := fun b =>
  mkBridge C (doc b) (views b) (editable b) (ended b) (reconcileQueued b) (reconcileTarget b)
    (editorPatchQueued b) (editorPatchTarget b) (undoGroup b) (lastUndoAt b) (microtasks b) (errors b).

#[export] Instance set_doc {C} : SetField (@doc C). Proof. solve_update. Defined.
#[export] Instance set_views {C} : SetField (@views C). Proof. solve_update. Defined.
#[export] Instance set_reconcileQueued {C} : SetField (@reconcileQueued C). Proof. solve_update. Defined.
#[export] Instance set_reconcileTarget {C} : SetField (@reconcileTarget C). Proof. solve_update. Defined.
#[export] Instance set_editorPatchQueued {C} : SetField (@editorPatchQueued C). Proof. solve_update. Defined.
#[export] Instance set_editorPatchTarget {C} : SetField (@editorPatchTarget C). Proof. solve_update. Defined.
#[export] Instance set_undoGroup {C} : SetField (@undoGroup C). Proof. solve_update. Defined.
#[export] Instance set_lastUndoAt {C} : SetField (@lastUndoAt C). Proof. solve_update. Defined.
#[export] Instance set_microtasks {C} : SetField (@microtasks C). Proof. solve_update. Defined.
#[export] Instance set_errors {C} : SetField (@errors C). Proof. solve_update. Defined.

Section Edits.
Context {C : Type} `{Component C}.

(** ** Edits on the replica *)

(** The body of a forwarded update. *)
Fixpoint forward_changes (adjust : Z) (cs : list Change) : SE (Doc C) unit :=
  match cs with
  | [] => mret tt
  | c :: r =>
      _ ← (if fromA c <? toA c then delete (fromA c + adjust) (toA c - fromA c) no_options else mret None);
      _ ← (if 0 <? len (inserted c) then EsbtDocument.insert (fromA c + adjust) (inserted c) no_options
           else mret None);
      forward_changes (adjusted adjust c) r
  end.

Fixpoint delete_chunks (fuel : nat) (from remainingDelete : Z) (o : TransactOptions) : SE (Doc C) unit :=
  match fuel with
  | O => mret tt
  | S n =>
      if 0 <? remainingDelete then
        let count := Z.min remainingDelete EDITOR_CHUNK_UNITS in
        _ ← transact (delete from count no_options) o;
        delete_chunks n from (remainingDelete - count) o
      else mret tt
  end.

Fixpoint insert_chunks (fuel : nat) (from offset : Z) (insert : jstring) (o : TransactOptions)
    : SE (Doc C) unit :=
  match fuel with
  | O => mret tt
  | S n =>
      if offset <? len insert then
        let chunk := slice insert offset (offset + EDITOR_CHUNK_UNITS) in
        _ ← transact (EsbtDocument.insert (from + offset) chunk no_options) o;
        insert_chunks n from (offset + EDITOR_CHUNK_UNITS) insert o
      else mret tt
  end.

(** [replaceRangeChunked], under its options. *)
Definition replace_chunked (from to : Z) (insert : jstring) (o : TransactOptions) : SE (Doc C) unit :=
  if to - from + len insert <=? EDITOR_CHUNK_UNITS then
    transact
      (_ ← (if from <? to then delete from (to - from) no_options else mret None);
       _ ← (if 0 <? len insert then EsbtDocument.insert from insert no_options else mret None);
       mret tt) o
  else
    _ ← delete_chunks (Z.to_nat (to - from)) from (to - from) o;
    insert_chunks (length insert) from 0 insert o.

End Edits.

Section Bridge.
Context {C : Type} `{Component C}.
Implicit Types (b : Bridge C).

Definition nextUndoGroup (now : Z) b : Z * Bridge C :=
  let b := if UNDO_MERGE_MS <? now - lastUndoAt b then b <| undoGroup := undoGroup b + 1 |> else b in
  (undoGroup b, b <| lastUndoAt := now |>).

(** ** Patching the editor *)

Definition view_text (view : Z) b : option jstring := mget (views b) view.

(** [view.dispatch] of one change. *)
Definition dispatch (view : Z) (e : TextEdit) b : Bridge C :=
  match view_text view b with
  | Some text => b <| views := mset (views b) view (splice text (from e) (to e) (TextChange.insert e)) |>
  | None => b
  end.

Definition reconcile (view : Z) (target : jstring) b : Bridge C :=
  match view_text view b with
  | Some current => match reconcile_patch current target with
                    | Some e => dispatch view e b
                    | None => b
                    end
  | None => b
  end.

Definition current_text b : jstring := match (getText (doc b)).2 with Ok t => t | Throw _ => [] end.

Definition scheduleReconcile (view : Z) b : Bridge C :=
  let b := b <| reconcileTarget := Some (view, current_text b) |> in
  if reconcileQueued b then b
  else b <| reconcileQueued := true |> <| microtasks := microtasks b ++ [MReconcile] |>.

Definition reconcile_microtask b : Bridge C :=
  let target := reconcileTarget b in
  let b := b <| reconcileQueued := false |> <| reconcileTarget := None |> in
  match target with
  | Some (view, text) => if ended b then b else reconcile view text b
  | None => b
  end.

Definition scheduleEditorPatch (view : Z) (edits : list TextEdit) b : Bridge C :=
  match edits with
  | [] => b
  | _ =>
      let held := match editorPatchTarget b with
                  | Some (v, es) => if v =? view then es else []
                  | None => []
                  end in
      let b := b <| editorPatchTarget := Some (view, held ++ edits) |> in
      if editorPatchQueued b then b
      else b <| editorPatchQueued := true |> <| microtasks := microtasks b ++ [MPatch] |>
  end.

Fixpoint patch_loop (view : Z) (edits : list TextEdit) b : Bridge C :=
  match edits with
  | [] => b
  | e :: r =>
      let length := len (default [] (view_text view b)) in
      if (to e <? from e) || (length <? to e) then scheduleReconcile view b
      else patch_loop view r (dispatch view e b)
  end.

Definition patch_microtask b : Bridge C :=
  let target := editorPatchTarget b in
  let b := b <| editorPatchQueued := false |> <| editorPatchTarget := None |> in
  match target with
  | Some (view, edits) => if ended b then b else patch_loop view edits b
  | None => b
  end.

Definition mount_microtask (view : Z) b : Bridge C :=
  match view_text view b with
  | Some _ => scheduleReconcile view b
  | None => b                                  (* disposed *)
  end.

Definition run_microtask (m : microtask) b : Bridge C :=
  match m with
  | MMount view => mount_microtask view b
  | MReconcile => reconcile_microtask b
  | MPatch => patch_microtask b
  end.

(** The microtask queue runs dry before the next task starts. *)
Fixpoint drain (fuel : nat) b : Bridge C :=
  match fuel, microtasks b with
  | S n, m :: r => drain n (run_microtask m (b <| microtasks := r |>))
  | _, _ => b
  end.

(** ** Tasks *)

(** What the listener of every mounted view does with a change notice. *)
Definition on_change (edits : list TextEdit) (origin : option jstring) b : Bridge C :=
  if bool_decide (origin = Some EDITOR_ORIGIN) then b
  else foldl (fun b v => scheduleEditorPatch v edits b) b (map fst (views b)).

Definition on_notice b (n : notice) : Bridge C :=
  match n with NChange edits origin _ => on_change edits origin b | _ => b end.

(** A document method, with the editor listeners called. *)
Definition with_document {A} (m : SE (Doc C) A) b : Bridge C * res A :=
  let d := doc b in
  let '(d', r) := m {| component := component d; transactionDepth := transactionDepth d;
                       transactionOrigin := transactionOrigin d;
                       destroyed := destroyed d; notices := [] |} in
  (foldl on_notice (b <| doc := d' |>) (notices d'), r).

Definition replaceRangeChunked (now from to : Z) (insert origin : jstring) b : Bridge C * res unit :=
  let '(group, b) := nextUndoGroup now b in
  with_document (replace_chunked from to insert
    {| o_origin := Some origin; o_undoGroup := Some group |}) b.

Definition emitEngineError (e : exn) b : Bridge C :=
  match exn_kind e with EsbtError code => b <| errors := errors b ++ [code] |> | _ => b end.

(** What became of a user update. *)
Inductive forwarded := Forwarded | Halved | Reconciled | Rethrown (e : exn).

Fixpoint halves_loop (now : Z) (cs : list Change) b : Bridge C * res unit :=
  match cs with
  | [] => (b, Ok tt)
  | c :: r =>
      match replaceRangeChunked now (fromA c) (toA c) (inserted c) EDITOR_ORIGIN b with
      | (b, Ok _) => halves_loop now r b
      | (b, Throw e) => (b, Throw e)
      end
  end.

Definition applyChangesInHalves (now view : Z) (cs : list Change) b : Bridge C * forwarded :=
  match halves_loop now cs b with
  | (b, Ok _) => (b, Halved)
  | (b, Throw e) =>
      if isEsbtError e then (emitEngineError e (scheduleReconcile view b), Reconciled)
      else (b, Rethrown e)
  end.

Definition oversized (e : exn) : bool := error_code_in [MessageTooLarge; TooManyOperations] e.

(** The editor applied [cs]; the plugin forwards them. *)
Definition user_update (now view : Z) (cs : list Change) b : Bridge C * forwarded :=
  let '(group, b) := nextUndoGroup now b in
  match with_document (transact (forward_changes 0 cs)
          {| o_origin := Some EDITOR_ORIGIN; o_undoGroup := Some group |}) b with
  | (b, Ok _) => (b, Forwarded)
  | (b, Throw e) =>
      if oversized e then applyChangesInHalves now view cs b
      else if isRefusedEdit e then (emitEngineError e (scheduleReconcile view b), Reconciled)
      else (b, Rethrown e)
  end.

Inductive task :=
| TDocument (op : doc_op)                       (* remote import, undo, setText, ... *)
| TReplace (now from to : Z) (text : jstring)   (* [replaceRange] of the session *)
| TUser (now view : Z) (cs : list Change)       (* typing *)
| TMount (view : Z) (text : jstring)
| TUnmount (view : Z).

Definition run_task (t : task) b : Bridge C * forwarded :=
  match t with
  | TDocument op =>
      ((with_document (fun d => (run_doc_op op d, Ok tt)) b).1, Forwarded)
  | TReplace now from to text =>
      if negb (editable b) then (b, Forwarded)
      else match replaceRangeChunked now from to text SESSION_ORIGIN b with
           | (b, Ok _) => (b, Forwarded)
           | (b, Throw e) => if isEsbtError e then (emitEngineError e b, Forwarded) else (b, Rethrown e)
           end
  | TUser now view cs =>
      match view_text view b with
      | Some text =>
          if negb (editable b) then (b, Forwarded)   (* the transaction filter drops it *)
          else user_update now view cs (b <| views := mset (views b) view (updated text 0 cs) |>)
      | None => (b, Forwarded)
      end
  | TMount view text =>
      let b := b <| views := mset (views b) view text |>
                 <| microtasks := microtasks b ++ [MMount view] |> in
      (scheduleReconcile view b, Forwarded)
  | TUnmount view => (b <| views := mdel (views b) view |>, Forwarded)
  end.

(** A task, then its microtasks: at most one of each kind is ever queued, and a
    patch or a mount can queue one reconcile. *)
Definition run_to_idle (t : task) b : Bridge C * forwarded :=
  let '(b, o) := run_task t b in (drain 5 b, o).

End Bridge.

(** ** Text and review ranges *)

Record StableTextRange := {
  r_start : bytes; r_end : bytes; startOffset : Z; endOffset : Z }.

Record ReviewAnchorRange := { r_range : StableTextRange; quote : jstring }.

Record ResolvedReviewRange := { rr_from : Z; rr_to : Z; exact : bool }.

Section Ranges.
Context {C : Type} `{Component C}.

Definition captureTextRange (from to : Z) : SE (Doc C) StableTextRange :=
  length ← length_;
  let startOffset := Z.max 0 (Z.min from length) in
  let endOffset := Z.max startOffset (Z.min to length) in
  start ← indexToAnchor startOffset After;
  end_ ← indexToAnchor endOffset Before;
  mret {| r_start := start; r_end := end_; startOffset := startOffset; endOffset := endOffset |}.

Definition resolveTextRange (range : StableTextRange) : SE (Doc C) (Z * Z) :=
  length ← length_;
  start ← anchorToIndex (r_start range);
  let from := Z.min start length in
  end_ ← anchorToIndex (r_end range);
  mret (from, Z.max from (Z.min end_ length)).

Definition MAX_QUOTE_UNITS := 4096.

(** [selection]: the selection of the focused (or first) editor, if any. *)
Definition captureReviewRange (selection : option (Z * Z)) : SE (Doc C) ReviewAnchorRange :=
  let startOffset := match selection with Some (f, _) => f | None => 0 end in
  let endOffset := Z.min (match selection with Some (_, t) => t | None => startOffset end)
                         (startOffset + MAX_QUOTE_UNITS) in
  text ← getText;
  range ← captureTextRange startOffset endOffset;
  mret {| r_range := range; quote := slice text startOffset endOffset |}.

Definition resolveReviewRange (range : ReviewAnchorRange) : SE (Doc C) ResolvedReviewRange :=
  text ← getText;
  ft ← resolveTextRange (r_range range);
  let '(from, to) := ft in
  if (len (quote range) =? 0) || str_eqb (slice text from to) (quote range)
  then mret {| rr_from := from; rr_to := to; exact := true |}
  else
    let match_ := closest_match text (quote range) (startOffset (r_range range)) in
    if 0 <=? match_
    then mret {| rr_from := match_; rr_to := match_ + len (quote range); exact := true |}
    else mret {| rr_from := from; rr_to := to; exact := false |}.

End Ranges.

(** ** What a review range resolves to *)

(** What the component promises about its length and its anchors. *)
Class AnchorLaws (C : Type) `{Component C} := {
  length_text c : c_length c = len (c_text c);
  anchor_index c a i : c_resolveAnchor c a = inl i -> 0 <= i }.

Section Resolution.
Context {C : Type} `{AnchorLaws C}.

Lemma resolveTextRange_spec range (d d' : Doc C) f t :
  resolveTextRange range d = (d', Ok (f, t)) ->
  d' = d /\ destroyed d = false /\ 0 <= f <= t /\ t <= len (c_text (component d)).
Proof.
  unfold resolveTextRange, length_, anchorToIndex, assertLive, read_c, mbind, SE_bind.
  destruct (destroyed d) eqn:Hd; [done |]. cbn [callComponent]. rewrite Hd.
  destruct (c_resolveAnchor (component d) (r_start range)) as [i|[]] eqn:Ei; cbn [callComponent]; [|done..].
  rewrite Hd.
  destruct (c_resolveAnchor (component d) (r_end range)) as [j|[]] eqn:Ej; cbn [callComponent]; [|done..].
  unfold mret, SE_ret. intros [= <- <- <-]. rewrite length_text.
  apply anchor_index in Ei, Ej. pose proof (len_nonneg (c_text (component d))). split_and!; (done || lia).
Qed.

Lemma occurs_slice text quote f t :
  0 <= f <= t -> t <= len text -> quote <> [] -> slice text f t = quote -> occurs text quote f.
Proof.
  intros Hf Ht Hq Hs. assert (len quote = t - f) as Hl by (rewrite <- Hs; apply len_slice; lia).
  split_and!; [lia | lia |]. by replace (f + len quote) with t by lia.
Qed.

(** C15. A review range always resolves inside the text. An exact answer for a
    quote is an occurrence of that quote; when the anchors no longer delimit
    the quote it is the occurrence closest to where the range was created (the
    earlier one of two equally close), and the answer is inexact only if the
    quote no longer occurs at all. *)
Theorem review_range_resolves range (d d' : Doc C) rr :
  resolveReviewRange range d = (d', Ok rr) ->
  let text := c_text (component d) in
  0 <= rr_from rr <= rr_to rr /\ rr_to rr <= len text /\
  (quote range <> [] -> exact rr = true ->
     slice text (rr_from rr) (rr_to rr) = quote range) /\
  (exact rr = false -> quote range <> [] /\ forall i, ~ occurs text (quote range) i) /\
  (forall f t, resolveTextRange (r_range range) d = (d, Ok (f, t)) ->
     slice text f t <> quote range -> quote range <> [] -> exact rr = true ->
     best_overall text (quote range) (startOffset (r_range range)) (rr_from rr)).
Proof.
  intros E text. unfold resolveReviewRange in E. unfold mbind at 1, SE_bind at 1 in E.
  unfold getText in E. unfold mbind at 1, SE_bind at 1, assertLive at 1 in E.
  destruct (destroyed d) eqn:Hd; [done |]. unfold read_c at 1 in E. cbn [callComponent] in E.
  rewrite decodeUtf16_id in E. unfold mbind at 1, SE_bind at 1 in E.
  destruct (resolveTextRange (r_range range) d) as [d1 [[f t]|e]] eqn:Er; [|done].
  destruct (resolveTextRange_spec _ _ _ _ _ Er) as (-> & _ & Hf & Ht). fold text in E, Ht.
  destruct ((len (quote range) =? 0) || str_eqb (slice text f t) (quote range)) eqn:Eq.
  { unfold mret, SE_ret in E. injection E as _ <-. cbn [rr_from rr_to exact].
    split_and!; [lia | lia | lia | | done |].
    - intros Hq _. apply orb_true_iff in Eq as [Eq | Eq]; reflect_bools; [|done].
      by apply len_zero_nil in Eq.
    - intros f' t' [= <- <-] Hne Hq _. apply orb_true_iff in Eq as [Eq | Eq]; reflect_bools; [|done].
      by apply len_zero_nil in Eq. }
  apply orb_false_iff in Eq as [Hq0 _]. reflect_bools.
  assert (quote range <> []) as Hq by (intros Hn; apply Hq0; by rewrite Hn).
  pose proof (closest_match_spec text (quote range) (startOffset (r_range range))) as Hb.
  set (m := closest_match _ _ _) in *. pose proof (len_nonneg (quote range)).
  destruct (Z.leb_spec 0 m); unfold mret, SE_ret in E; injection E as _ <-; cbn [rr_from rr_to exact].
  - destruct Hb as [[Hm _] | [(Ho1 & Ho2 & Ho3) Hmin]]; [lia |].
    split_and!; [lia | lia | lia | done | done |]. intros f' t' _ _ _ _.
    unfold best_overall. right. split; [by split_and! | exact Hmin].
  - destruct Hb as [[_ Hno] | [(Ho & _) _]]; [|lia].
    split_and!; [lia | lia | lia | done | by split | done].
Qed.

End Resolution.
