(* ===== verification/EditorMirror.v ===== *)
(** The editor bridge keeps the editor and the replica equal: what the
    component promises about edits, what the chunked replacement does, and the
    invariant of the bridge over every sequence of tasks. *)

From S2P Require Import Prelude.
From S2P Require Import TextChange.
From S2P Require Import Bytes.
From S2P Require Import Protocol.
From S2P Require Import EsbtDocument.
From S2P Require Import EditorText.
From S2P Require Import EditorBridge.

(** ** What the component promises about an edit

    A replacement that succeeds was in range and spliced the text; beginning
    and committing a transaction do not touch it. *)
Class EditLaws (C : Type) `{ComponentLaws C} := {
  begin_text c g c' : c_beginTransaction c g = (c', inl tt) -> c_text c' = c_text c;
  replace_text c f t s g c' ch : c_replace c f t s g = (c', inl ch) ->
    f <= t <= len (c_text c) /\ c_text c' = splice (c_text c) f t s;
  commit_text c c' ch : c_commitTransaction c = (c', inl ch) -> c_text c' = c_text c }.

Section Mirror.
Context {C : Type} `{EditLaws C}.
Implicit Types (d : Doc C) (b : Bridge C).

Abbreviation text_of d := (c_text (component d)).

(** ** Methods that edit *)

(** On success, a live document with text [x] becomes one with text [y]. *)
Definition gives {A} (x : jstring) (m : SE (Doc C) A) (y : jstring) : Prop :=
  forall d d' a, destroyed d = false -> text_of d = x -> m d = (d', Ok a) ->
  destroyed d' = false /\ text_of d' = y.

Lemma gives_ret {A} (a : A) x : gives x (mret a) x.
Proof. intros d d' r Hd Hx [= <- <-]. auto. Qed.

Lemma gives_bind {A B} (m : SE (Doc C) A) (f : A -> SE (Doc C) B) x y z :
  gives x m y -> (forall a, gives y (f a) z) -> gives x (m ≫= f) z.
Proof.
  intros Hm Hf d d' r Hd Hx. unfold mbind, SE_bind. destruct (m d) as [d1 [a|e]] eqn:E; [|done].
  intros E'. destruct (Hm _ _ _ Hd Hx E) as [L1 T1]. exact (Hf a _ _ _ L1 T1 E').
Qed.

Lemma consume_component (change : option LocalChange) origin d d' r :
  consumeLocalChange change origin d = (d', r) ->
  component d' = component d /\ destroyed d' = destroyed d.
Proof.
  unfold consumeLocalChange, mret, SE_ret. destruct change as [ch|]; [|by intros [= <- <-]].
  destruct (negb _); [by intros [= <- <-] |]. unfold se_modify, mbind, SE_bind.
  intros [= <- <-]. unfold emitLocalUpdate, emitReplicaChange, emitChange, emit.
  by destruct (map _ _).
Qed.

Lemma checkedIndex_Ok v v' : checkedIndex v = Ok v' -> v' = v /\ 0 <= v.
Proof. unfold checkedIndex. destruct (_ || _) eqn:E; [done |]. intros [= <-]. reflect_bools. lia. Qed.

(** A replacement that succeeds was in range and spliced the text. *)
Lemma replaceRange_does f t s o d d' a :
  Forall is_unit s -> destroyed d = false -> replaceRange f t s o d = (d', Ok a) ->
  0 <= f <= t /\ t <= len (text_of d) /\ destroyed d' = false /\ text_of d' = splice (text_of d) f t s.
Proof.
  intros Hs Hd. unfold replaceRange, assertLive, se_lift, call_c, mbind, SE_bind. rewrite Hd.
  destruct (checkedIndex f) as [f'|] eqn:Ef; [|done].
  destruct (checkedIndex t) as [t'|] eqn:Et; [|done].
  destruct (normalizeUndoGroup _) as [g|]; [|done]. rewrite encodeUtf16_id by done.
  apply checkedIndex_Ok in Ef as [-> Hf], Et as [-> _].
  destruct (c_replace (component d) f t s g) as [c' [ch|[code m|e]]] eqn:E; cbn [callComponent]; [|done..].
  intros [Hc Hl]%consume_component. rewrite Hc, Hl. cbn [set_component component destroyed].
  apply replace_text in E as [? ->]. split_and!; [lia .. | done | done].
Qed.

Lemma gives_replaceRange f t s o x :
  Forall is_unit s -> gives x (replaceRange f t s o) (splice x f t s).
Proof.
  intros Hs d d' a Hd Hx E.
  destruct (replaceRange_does f t s o d d' a Hs Hd E) as (_ & _ & ? & ->). by subst.
Qed.

Lemma gives_insert i s o x : Forall is_unit s -> gives x (EsbtDocument.insert i s o) (splice x i i s).
Proof. intros. by apply gives_replaceRange. Qed.

Lemma gives_delete i n o x : gives x (delete i n o) (splice x i (i + n) []).
Proof.
  intros d d' a Hd Hx. unfold delete. unfold mbind at 1, SE_bind at 1, se_lift at 1.
  destruct (checkedIndex i) as [i'|] eqn:Ei; [|done].
  unfold mbind at 1, SE_bind at 1, se_lift at 1.
  destruct (checkedIndex n) as [n'|] eqn:En; [|done].
  apply checkedIndex_Ok in Ei as [-> _], En as [-> _].
  destruct (4294967295 <? i + n); [done |]. intros E.
  exact (gives_replaceRange i (i + n) [] o x ltac:(constructor) _ _ _ Hd Hx E).
Qed.

(** A guarded deletion and a guarded insertion make one replacement. *)
Lemma gives_one_change f n s x {A} (k : SE (Doc C) A) z :
  0 <= f -> 0 <= n -> f + n <= len x -> Forall is_unit s ->
  gives (splice x f (f + n) s) k z ->
  gives x (_ ← (if 0 <? n then delete f n no_options else mret None);
           _ ← (if 0 <? len s then EsbtDocument.insert f s no_options else mret None);
           k) z.
Proof.
  intros Hf Hn Hl Hs Hk. apply (gives_bind _ _ _ (splice x f (f + n) [])).
  { destruct (Z.ltb_spec 0 n); [apply gives_delete |].
    replace (f + n) with f by lia. rewrite splice_id by lia. apply gives_ret. }
  intros _. apply (gives_bind _ _ _ (splice x f (f + n) s)); [|done].
  destruct (Z.ltb_spec 0 (len s)).
  - rewrite <- (splice_delete_insert x f (f + n) s) by lia. by apply gives_insert.
  - pose proof (len_nonneg s). assert (s = []) as -> by (apply len_zero_nil; lia). apply gives_ret.
Qed.

(** The body of a forwarded update performs the update's splices. *)
Lemma gives_forward old cs : forall pre pos adjust,
  0 <= pos -> len pre = pos + adjust -> changes_ok (len old) pos cs ->
  gives (pre ++ slice_from old pos) (forward_changes adjust cs) (pre ++ updated old pos cs).
Proof.
  induction cs as [|c r IH]; intros pre pos adjust Hp Hl Hok; cbn [forward_changes updated];
    [apply gives_ret |].
  destruct Hok as (Hf & Hto & Hu & Hr). pose proof (len_nonneg pre).
  replace (fromA c <? toA c) with (0 <? toA c - fromA c)
    by (destruct (Z.ltb_spec 0 (toA c - fromA c)), (Z.ltb_spec (fromA c) (toA c)); lia || done).
  destruct (splice_step old pre pos adjust c) as [Hsp Hl']; [lia | lia | lia | lia |].
  apply gives_one_change; [lia | lia | | done |].
  { rewrite len_app, len_slice_from by lia. lia. }
  replace (fromA c + adjust + (toA c - fromA c)) with (toA c + adjust) by lia.
  rewrite Hsp. replace (pre ++ slice old pos (fromA c) ++ inserted c ++ updated old (toA c) r)
    with ((pre ++ slice old pos (fromA c) ++ inserted c) ++ updated old (toA c) r)
    by (by rewrite <- !app_assoc).
  apply IH; [lia | lia | done].
Qed.

Lemma gives_update old cs :
  changes_ok (len old) 0 cs -> gives old (forward_changes 0 cs) (updated old 0 cs).
Proof.
  intros Hok. pose proof (gives_forward old cs [] 0 0 ltac:(lia) ltac:(done) Hok) as G.
  cbn [app] in G. unfold slice_from in G. by rewrite slice_full in G.
Qed.

(** ** Transactions *)

(** A document between two operations. *)
Definition idle d : Prop :=
  destroyed d = false /\ transactionDepth d = 0 /\ c_open (component d) = false.

Lemma guarded_gives {A} (cb : SE (Doc C) A) x y :
  gives x cb y -> gives x (transact_guarded cb) y.
Proof.
  intros Hcb d d' a Hd Hx. unfold transact_guarded.
  destruct (se_catch _ _ d) as [d2 r2] eqn:E. intros [= <- ->].
  cut (destroyed d2 = false /\ text_of d2 = y); [done |]. revert E.
  unfold se_catch, transact_body. unfold mbind at 1, SE_bind at 1.
  destruct (cb d) as [d1 [v|e]] eqn:Ecb.
  2:{ intros E. unfold transact_rollback, se_modify, se_throw, mbind, SE_bind in E.
      destruct (se_catch _ _ _) as [d3 [u|e']]; done. }
  destruct (Hcb _ _ _ Hd Hx Ecb) as [L1 T1].
  set (m := _ ← se_modify _; _). destruct (m d1) as [d3 [w|e]] eqn:Em.
  2:{ intros E. unfold transact_rollback, se_modify, se_throw, mbind, SE_bind in E.
      destruct (se_catch _ _ _) as [d4 [u|e']]; done. }
  intros [= <- <-]. subst m. revert Em. unfold se_modify, se_get, mbind, SE_bind, call_c.
  destruct (c_commitTransaction (component (set_depth d1 0))) as [c' [ch|[code m|e]]] eqn:Ec;
    cbn [callComponent]; [|done..].
  destruct (consumeLocalChange _ _ _) as [d4 [o|e]] eqn:Eo; [|done].
  unfold mret, SE_ret. intros [= <- <-]. apply consume_component in Eo as [-> ->].
  cbn [set_component component destroyed set_depth]. apply commit_text in Ec. cbn in Ec.
  split; [done | congruence].
Qed.

(** An outermost transaction: what it does to the text, to the listeners and to
    the document's readiness. *)
Lemma transact_result {A} (cb : SE (Doc C) A) o d d' r :
  tracks cb -> quiet cb -> idle d -> transact cb o d = (d', r) ->
  idle d' /\
  (exists change, notices d' = notices d ++ commit_notices change (o_origin o) /\
     replay (commit_notices change (o_origin o)) (text_of d) = Ok (text_of d')) /\
  (is_Ok r = false -> text_of d' = text_of d /\ notices d' = notices d) /\
  (forall y, is_Ok r = true -> gives (text_of d) cb y -> text_of d' = y).
Proof.
  intros Ht Hq (Hd & Hz & Ho) E.
  destruct (transact_settles cb o d d' r Ht Hd Hz Ho E) as (L & O & D & ns & N & R).
  destruct (transact_notices cb o d d' r Hq Hd Hz Ho E) as (change & N' & Hnone).
  split; [done |]. rewrite (base_closed _ Ho), (base_closed _ O) in R.
  split.
  { exists change. split; [done |]. rewrite N in N'. by apply app_inv_head in N' as <-. }
  split.
  { intros Hr. rewrite (Hnone Hr) in N'. cbn in N'. rewrite app_nil_r in N'. split; [| done].
    rewrite N in N'. rewrite <- (app_nil_r (notices d)) in N' at 2. apply app_inv_head in N' as ->.
    by injection R. }
  intros y Hr Hg. destruct r as [a|e]; [|done]. revert E. unfold transact, assertLive, se_get.
  unfold mbind at 1, SE_bind at 1. rewrite Hd. unfold mbind at 1, SE_bind at 1. rewrite Hz.
  cbn [Z.ltb Z.compare]. unfold transact_outer, se_lift. unfold mbind at 1, SE_bind at 1.
  destruct (normalizeUndoGroup (o_undoGroup o)) as [g|]; [|done].
  unfold mbind at 1, SE_bind at 1, call_c.
  destruct (c_beginTransaction (component d) g) as [c' [[]|[code m|e]]] eqn:Eb;
    cbn [callComponent]; [|done..].
  unfold se_modify, mbind, SE_bind. intros E.
  apply (guarded_gives cb (text_of d) y Hg) in E; [apply E | done |].
  cbn. by apply (begin_text _ _ _ Eb).
Qed.

(** ** Bodies of transactions *)

Lemma tracks_delete i n o : tracks (delete i n o).
Proof. exact (tracks_run_edit (EdDelete i n) o). Qed.
Lemma tracks_insert i s o : tracks (EsbtDocument.insert i s o).
Proof. exact (tracks_run_edit (EdInsert i s) o). Qed.
Lemma quiet_ret {A} (a : A) : quiet (mret a : SE (Doc C) A).
Proof. intros d d' r Hd Ho [= <- <-]. auto. Qed.
Lemma quiet_insert i s o : quiet (EsbtDocument.insert i s o).
Proof. apply quiet_replaceRange. Qed.
Lemma quiet_delete i n o : quiet (delete i n o).
Proof.
  unfold delete. apply quiet_bind; [apply quiet_lift | intros start].
  apply quiet_bind; [apply quiet_lift | intros count].
  destruct (4294967295 <? start + count); [|apply quiet_replaceRange].
  intros d d' r Hd Ho [= <- <-]. auto.
Qed.
Create HintDb body.
#[local] Hint Resolve tracks_ret tracks_delete tracks_insert quiet_ret quiet_insert quiet_delete : body.

Lemma one_change_body {A} (x y : bool) f n s (k : SE (Doc C) A) :
  tracks k -> quiet k ->
  let m := _ ← (if x then delete f n no_options else mret None);
           _ ← (if y then EsbtDocument.insert f s no_options else mret None);
           k in
  tracks m /\ quiet m.
Proof.
  intros Ht Hq. cbv zeta. split.
  - apply tracks_bind; [destruct x; auto with body | intros _].
    apply tracks_bind; [destruct y; auto with body | auto].
  - apply quiet_bind; [destruct x; auto with body | intros _].
    apply quiet_bind; [destruct y; auto with body | auto].
Qed.

Lemma forward_body cs adjust : tracks (forward_changes adjust cs) /\ quiet (forward_changes adjust cs).
Proof.
  revert adjust. induction cs as [|c r IH]; intros adjust; [split; [apply tracks_ret | apply quiet_ret] |].
  destruct (IH (adjusted adjust c)). by apply one_change_body.
Qed.

(** ** Transactions are all or nothing *)

Definition edit_units (e : edit_op) : Prop :=
  match e with EdInsert _ s | EdReplace _ _ s => Forall is_unit s | EdDelete _ _ => True end.

(** What an edit means for a text: a splice, in range. *)
Definition edit_text (e : edit_op) (x : jstring) : option jstring :=
  let spliced f t s := if (0 <=? f) && (f <=? t) && (t <=? len x) then Some (splice x f t s) else None in
  match e with
  | EdInsert i s => spliced i i s
  | EdDelete i n => spliced i (i + n) []
  | EdReplace f t s => spliced f t s
  end.

(** What a body of edits means for a text: one edit after the other. *)
Fixpoint edited (es : list edit_op) (x : jstring) : option jstring :=
  match es with
  | [] => Some x
  | e :: r => match edit_text e x with Some y => edited r y | None => None end
  end.

Lemma run_edit_does e d d' a :
  edit_units e -> destroyed d = false -> run_edit e no_options d = (d', Ok a) ->
  destroyed d' = false /\ edit_text e (text_of d) = Some (text_of d').
Proof.
  assert (forall f t s d d' a, Forall is_unit s -> destroyed d = false ->
    replaceRange f t s no_options d = (d', Ok a) ->
    destroyed d' = false /\
    (if (0 <=? f) && (f <=? t) && (t <=? len (text_of d)) then Some (splice (text_of d) f t s) else None)
      = Some (text_of d')) as Hr.
  { intros f t s d1 d1' a1 Hs Hd E.
    destruct (replaceRange_does f t s no_options d1 d1' a1 Hs Hd E) as (Hf & Ht & Hd' & ->).
    split; [done |]. zdecide; try lia. done. }
  destruct e as [i s | i n | f t s]; cbn [edit_units run_edit edit_text]; intros Hs Hd.
  - by apply Hr.
  - unfold delete, se_lift, mbind, SE_bind.
    destruct (checkedIndex i) as [i'|] eqn:Ei; [|done]. destruct (checkedIndex n) as [n'|] eqn:En; [|done].
    apply checkedIndex_Ok in Ei as [-> _], En as [-> _].
    destruct (4294967295 <? i + n); [done |]. by apply Hr.
  - by apply Hr.
Qed.

Lemma gives_run_edits es : forall x y,
  Forall edit_units es -> (forall y', edited es x = Some y' -> y' = y) -> gives x (run_edits es) y.
Proof.
  induction es as [|e r IH]; intros x y Hu Hy; cbn [run_edits edited] in *.
  { rewrite (Hy x) by done. apply gives_ret. }
  apply Forall_cons in Hu as [He Hr]. intros d d' a Hd Hx. unfold mbind, SE_bind.
  destruct (run_edit e no_options d) as [d1 [v|ex]] eqn:E; [|done].
  destruct (run_edit_does e d d1 v He Hd E) as [Hd1 Ht]. rewrite Hx in Ht. rewrite Ht in Hy.
  by apply (IH (text_of d1) y Hr Hy).
Qed.

(** C9. A transaction is all or nothing. If it succeeds, the text is what its
    edits, one after the other and each in range, make of the text before, and
    the listeners are told of at most one change, after the body has finished
    and under the transaction's own origin, whose edits lead from the text
    before to the text after. If its body or its commit fails, the text is what
    it was and no listener has been told anything. In both cases no transaction
    is left open. *)
Theorem transact_atomic body o d d' r :
  Forall edit_units body -> idle d -> transact (run_edits body) o d = (d', r) ->
  idle d' /\
  match r with
  | Ok _ => edited body (text_of d) = Some (text_of d') /\
      exists change, notices d' = notices d ++ commit_notices change (o_origin o) /\
        replay (commit_notices change (o_origin o)) (text_of d) = Ok (text_of d')
  | Throw _ => text_of d' = text_of d /\ notices d' = notices d
  end.
Proof.
  intros Hu Hi E.
  destruct (transact_result _ _ _ _ _ (tracks_run_edits body) (quiet_run_edits body) Hi E)
    as (Hi' & Hn & Hf & Ht).
  split; [done |]. destruct r as [v|e]; [| by apply Hf]. split; [| done].
  destruct (edited body (text_of d)) as [y|] eqn:Ey.
  - f_equal. symmetry. apply Ht; [done |]. apply gives_run_edits; [done |]. rewrite Ey. by intros y' [= <-].
  - assert (forall y, text_of d' = y) as Hall.
    { intros y. apply Ht; [done |]. apply gives_run_edits; [done |]. by rewrite Ey. }
    pose proof (Hall []) as Hnil. rewrite (Hall [0]) in Hnil. discriminate.
Qed.

(** ** The chunked replacement *)

Definition origin_is (o : option jstring) (n : notice) : Prop :=
  match n with NChange _ origin _ => origin = o | _ => True end.

Lemma commit_notices_origin change o : Forall (origin_is o) (commit_notices change o).
Proof.
  destruct change as [ch|]; [|constructor]. cbn [commit_notices].
  destruct (lc_visibleEdits ch); cbn [app]; repeat constructor.
Qed.

(** A run of transactions under one origin. *)
Definition runs (o : option jstring) d d' : Prop :=
  idle d' /\ exists ns, notices d' = notices d ++ ns /\ Forall (origin_is o) ns /\
  replay ns (text_of d) = Ok (text_of d').

Lemma runs_refl o d : idle d -> runs o d d.
Proof. intros. split; [done |]. exists []. by rewrite app_nil_r. Qed.

Lemma runs_trans o d1 d2 d3 : runs o d1 d2 -> runs o d2 d3 -> runs o d1 d3.
Proof.
  intros (_ & n1 & N1 & F1 & R1) (I & n2 & N2 & F2 & R2). split; [done |].
  exists (n1 ++ n2). rewrite N2, N1, app_assoc. split; [done |]. split; [by apply Forall_app |].
  by rewrite replay_app, R1.
Qed.

Lemma transact_runs {A} (cb : SE (Doc C) A) o d d' r :
  tracks cb -> quiet cb -> idle d -> transact cb o d = (d', r) ->
  runs (o_origin o) d d' /\ (forall y, is_Ok r = true -> gives (text_of d) cb y -> text_of d' = y).
Proof.
  intros Ht Hq Hi E.
  destruct (transact_result cb o d d' r Ht Hq Hi E) as (I & (ch & N & R) & _ & T).
  split; [|done]. split; [done |]. eexists. split; [exact N |]. split; [apply commit_notices_origin | done].
Qed.

(** The chunks of a replacement. *)
Lemma splice_shrink x f c n :
  0 <= f -> 0 <= c -> 0 <= n -> f + c + n <= len x ->
  splice (splice x f (f + c) []) f (f + n) [] = splice x f (f + (c + n)) [].
Proof.
  intros. assert (Hl : len (slice x 0 f) = f) by (rewrite len_slice; lia).
  unfold splice. cbn [app]. rewrite (slice_left _ _ f Hl). f_equal.
  rewrite slice_from_app_r by (rewrite ?len_slice_from; lia). rewrite Hl.
  rewrite slice_from_slice by lia. f_equal. lia.
Qed.

Lemma splice_grow x f p q :
  0 <= f <= len x ->
  splice (splice x f f p) (f + len p) (f + len p) q = splice x f f (p ++ q).
Proof.
  intros. assert (Hl : len (slice x 0 f) = f) by (rewrite len_slice; lia).
  pose proof (len_nonneg p). unfold splice. rewrite !app_assoc.
  assert (Hl2 : len (slice x 0 f ++ p) = f + len p) by (rewrite len_app; lia).
  rewrite (slice_left _ _ _ Hl2). f_equal. by apply slice_from_right.
Qed.

Lemma delete_chunks_runs n : forall f rem o d d' r,
  idle d -> rem <= Z.of_nat n -> delete_chunks n f rem o d = (d', r) ->
  runs (o_origin o) d d' /\
  (is_Ok r = true -> 0 <= f -> 0 <= rem -> f + rem <= len (text_of d) ->
   text_of d' = splice (text_of d) f (f + rem) []).
Proof.
  induction n as [|n IH]; intros f rem o d d' r Hi Hn; cbn [delete_chunks].
  - intros [= <- <-]. split; [by apply runs_refl |]. intros _ Hf Hr Hl.
    replace (f + rem) with f by lia. by rewrite splice_id by lia.
  - destruct (Z.ltb_spec 0 rem).
    2:{ intros [= <- <-]. split; [by apply runs_refl |]. intros _ Hf Hr Hl.
        replace (f + rem) with f by lia. by rewrite splice_id by lia. }
    set (count := Z.min rem EDITOR_CHUNK_UNITS).
    assert (0 < count <= rem) by (unfold count, EDITOR_CHUNK_UNITS; lia).
    unfold mbind at 1, SE_bind at 1.
    destruct (transact _ o d) as [d1 [a|e]] eqn:E1;
      apply transact_runs in E1 as [R1 T1]; auto with body; [|by intros [= <- <-]].
    specialize (T1 _ eq_refl (gives_delete f count no_options (text_of d))).
    intros E2. apply IH in E2 as [R2 T2]; [|apply R1|lia].
    split; [by eapply runs_trans |]. intros Hr Hf Hrem Hl.
    rewrite T2, T1; [| done | lia | lia | rewrite T1, splice_len by lia; rewrite len_nil; lia].
    rewrite splice_shrink by lia. f_equal. lia.
Qed.

Lemma insert_chunks_runs n : forall f off s o d d' r,
  idle d -> Forall is_unit s -> 0 <= off -> len s - off <= Z.of_nat n ->
  insert_chunks n f off s o d = (d', r) ->
  runs (o_origin o) d d' /\
  (is_Ok r = true -> forall x, 0 <= f <= len x ->
   text_of d = splice x f f (slice s 0 off) -> text_of d' = splice x f f s).
Proof.
  induction n as [|n IH]; intros f off s o d d' r Hi Hs Ho Hn; cbn [insert_chunks].
  - intros [= <- <-]. split; [by apply runs_refl |]. intros _ x Hf ->. by rewrite slice_over by lia.
  - destruct (Z.ltb_spec off (len s)).
    2:{ intros [= <- <-]. split; [by apply runs_refl |]. intros _ x Hf ->. by rewrite slice_over by lia. }
    set (chunk := slice s off (off + EDITOR_CHUNK_UNITS)).
    assert (Forall is_unit chunk) as Hc by (unfold chunk, slice; by apply Forall_take, Forall_drop).
    unfold mbind at 1, SE_bind at 1.
    destruct (transact _ o d) as [d1 [a|e]] eqn:E1;
      apply transact_runs in E1 as [R1 T1]; auto with body; [|by intros [= <- <-]].
    specialize (T1 _ eq_refl (gives_insert (f + off) chunk no_options (text_of d) Hc)).
    intros E2. apply IH in E2 as [R2 T2]; [|apply R1|done|unfold EDITOR_CHUNK_UNITS; lia
      |unfold EDITOR_CHUNK_UNITS; lia].
    split; [by eapply runs_trans |]. intros Hr x Hf Hx.
    assert (Hp : len (slice s 0 off) = off) by (rewrite len_slice; lia).
    apply T2; [done | done |]. rewrite T1, Hx. replace (f + off) with (f + len (slice s 0 off)) by lia. rewrite splice_grow by lia.
    f_equal. apply slice_extend; unfold EDITOR_CHUNK_UNITS; lia.
Qed.

Lemma replace_chunked_runs f t s o d d' r :
  idle d -> Forall is_unit s -> replace_chunked f t s o d = (d', r) ->
  runs (o_origin o) d d' /\
  (is_Ok r = true -> 0 <= f <= t -> t <= len (text_of d) -> text_of d' = splice (text_of d) f t s).
Proof.
  intros Hi Hs. unfold replace_chunked.
  destruct (t - f + len s <=? EDITOR_CHUNK_UNITS).
  - intros E. apply transact_runs in E as [R T]; [| apply one_change_body; auto with body ..| done].
    split; [done |]. intros Hr Hf Hl. apply T; [done |].
    replace (f <? t) with (0 <? t - f)
      by (destruct (Z.ltb_spec 0 (t - f)), (Z.ltb_spec f t); lia || done).
    assert (0 <= f /\ 0 <= t - f /\ f + (t - f) <= len (text_of d)) as (B1 & B2 & B3) by lia.
    pose proof (gives_one_change f (t - f) s (text_of d) (mret tt) _ B1 B2 B3 Hs (gives_ret _ _)) as G.
    by replace (f + (t - f)) with t in G by lia.
  - unfold mbind at 1, SE_bind at 1.
    destruct (delete_chunks _ f (t - f) o d) as [d1 [[]|e]] eqn:E1;
      apply delete_chunks_runs in E1 as [R1 T1]; [| done | lia | | done | lia].
    2:{ by intros [= <- <-]. }
    intros E2. apply insert_chunks_runs in E2 as [R2 T2]; [| apply R1 | done | lia | unfold len; lia].
    split; [by eapply runs_trans |]. intros Hr Hf Hl.
    assert (text_of d1 = splice (text_of d) f t []) as T.
    { rewrite T1; [f_equal; lia | done | lia | lia | lia]. }
    rewrite (T2 Hr (splice (text_of d) f t [])); [by apply splice_delete_insert | |].
    + pose proof (@len_nil Z). rewrite splice_len by lia. lia.
    + rewrite T, slice_empty. symmetry. apply splice_id. pose proof (@len_nil Z). rewrite splice_len by lia. lia.
Qed.

(** ** Document operations *)

Definition not_editor (n : notice) : Prop :=
  match n with NChange _ origin _ => origin <> Some EDITOR_ORIGIN | _ => True end.

(** Every operation the rest of the program performs has another origin than
    the editor's, and the bridge does not outlive the document. *)
Definition op_ok (op : doc_op) : Prop :=
  match op with
  | OpEdit _ o | OpSetText _ o | OpTransact _ o | OpUndo o | OpRedo o =>
      o_origin o <> Some EDITOR_ORIGIN
  | OpDestroy => False
  | _ => True
  end.

(** Between two idle documents: notices that turn the one text into the other. *)
Definition moves d d' : Prop :=
  idle d' /\ exists ns, notices d' = notices d ++ ns /\ Forall not_editor ns /\
  replay ns (text_of d) = Ok (text_of d').

Definition speaks {A} (m : SE (Doc C) A) : Prop :=
  forall d d' r, m d = (d', r) -> exists ns, notices d' = notices d ++ ns /\ Forall not_editor ns.

Lemma speaks_lift {A} (x : res A) : speaks (se_lift x).
Proof. intros d d' r [= <- <-]. exists []. by rewrite app_nil_r. Qed.
Lemma speaks_throw {A} e : speaks (@se_throw _ A e).
Proof. intros d d' r [= <- <-]. exists []. by rewrite app_nil_r. Qed.
Lemma speaks_read {A} (f : C -> cres A) : speaks (read_c f).
Proof. intros d d' r [= <- <-]. exists []. by rewrite app_nil_r. Qed.
Lemma speaks_call {A} (f : C -> C * cres A) : speaks (call_c f).
Proof.
  intros d d' r. unfold call_c. destruct (f (component d)). intros [= <- <-]. exists [].
  by rewrite app_nil_r.
Qed.
Lemma speaks_assertLive : speaks assertLive.
Proof.
  intros d d' r. unfold assertLive. destruct (destroyed d); intros [= <- <-]; exists []; by rewrite app_nil_r.
Qed.

Lemma speaks_bind {A B} (m : SE (Doc C) A) (f : A -> SE (Doc C) B) :
  speaks m -> (forall a, speaks (f a)) -> speaks (m ≫= f).
Proof.
  intros Hm Hf d d' r. unfold mbind, SE_bind. destruct (m d) as [d1 [a|e]] eqn:E;
    destruct (Hm _ _ _ E) as (n1 & N1 & F1).
  - intros E2. destruct (Hf _ _ _ _ E2) as (n2 & N2 & F2). exists (n1 ++ n2).
    rewrite N2, N1, app_assoc. split; [done | by apply Forall_app].
  - intros [= <- <-]. eauto.
Qed.

Lemma emit_speaks ns d : Forall not_editor ns ->
  exists ms, notices (emit ns d) = notices d ++ ms /\ Forall not_editor ms.
Proof.
  intros Hn. unfold emit. cbn [notices]. destruct (destroyed d); [exists []; by rewrite app_nil_r | eauto].
Qed.

Lemma speaks_modify (f : Doc C -> Doc C) :
  (forall d, exists ns, notices (f d) = notices d ++ ns /\ Forall not_editor ns) -> speaks (se_modify f).
Proof. intros Hf d d' r [= <- <-]. apply Hf. Qed.

Lemma emit_seq_speaks (f g : Doc C -> Doc C) d :
  (forall d, exists ns, notices (f d) = notices d ++ ns /\ Forall not_editor ns) ->
  (forall d, exists ns, notices (g d) = notices d ++ ns /\ Forall not_editor ns) ->
  exists ns, notices (g (f d)) = notices d ++ ns /\ Forall not_editor ns.
Proof.
  intros Hf Hg. destruct (Hf d) as (n1 & N1 & F1), (Hg (f d)) as (n2 & N2 & F2).
  exists (n1 ++ n2). rewrite N2, N1, app_assoc. split; [done | by apply Forall_app].
Qed.

Lemma speaks_consume change origin :
  origin <> Some EDITOR_ORIGIN -> speaks (consumeLocalChange change origin).
Proof.
  intros Ho. unfold consumeLocalChange. destruct change as [ch|]; [|exact (speaks_lift (Ok None))].
  cbv zeta. destruct (negb _); [apply speaks_throw |].
  apply speaks_bind; [|intros []; exact (speaks_lift (Ok (Some (lc_update ch))))].
  apply speaks_modify. intros d. unfold emitLocalUpdate.
  assert (forall es, es = [NReplicaChange] \/ es = [NLocalUpdate (lc_update ch)] -> forall d1,
    exists ns, notices (emit es d1) = notices d1 ++ ns /\ Forall not_editor ns) as He.
  { intros es [-> | ->] d1; by apply emit_speaks; repeat constructor. }
  destruct (map mapVisibleEdit (lc_visibleEdits ch)) as [|e es].
  - apply (emit_seq_speaks (emit [NLocalUpdate (lc_update ch)]) emitReplicaChange); intros; by apply He; auto.
  - apply (emit_seq_speaks (fun d => emitChange (e :: es) origin true (emit [NLocalUpdate (lc_update ch)] d))
      emitReplicaChange); [intros d1 | intros; by apply He; auto].
    apply (emit_seq_speaks (emit [NLocalUpdate (lc_update ch)]) (emitChange (e :: es) origin true));
      [intros; by apply He; auto |]. intros d2. by apply emit_speaks; repeat constructor.
Qed.

Lemma speaks_replaceRange f t s o :
  o_origin o <> Some EDITOR_ORIGIN -> speaks (replaceRange f t s o).
Proof.
  intros Ho. unfold replaceRange.
  repeat (apply speaks_bind; [first [apply speaks_assertLive | apply speaks_lift | apply speaks_call] | intros ?]).
  by apply speaks_consume.
Qed.

Lemma speaks_receipt (f : C -> C * cres ComponentReceipt) msg :
  speaks (_ ← assertLive; raw ← call_c f; receipt ← se_lift (mapReceipt msg raw);
          _ ← se_modify (notify_receipt receipt); mret receipt).
Proof.
  apply speaks_bind; [apply speaks_assertLive | intros _].
  apply speaks_bind; [apply speaks_call | intros raw].
  apply speaks_bind; [apply speaks_lift | intros receipt].
  apply speaks_bind; [|intros _; exact (speaks_lift (Ok receipt))].
  apply speaks_modify. intros d. unfold notify_receipt.
  destruct (rc_visibleEdits receipt) as [|e es]; [by apply emit_speaks; repeat constructor |].
  apply (emit_seq_speaks (emitChange (e :: es) None false) emitReplicaChange);
    intros d1; by apply emit_speaks; repeat constructor.
Qed.

Lemma moves_tracked {A} (m : SE (Doc C) A) d :
  tracks m -> speaks m -> idle d -> moves d (m d).1.
Proof.
  intros Ht Hs (Hd & Hz & Ho). destruct (m d) as [d' r] eqn:E. cbn [fst].
  destruct (Ht _ _ _ Hd E) as [L O D (ns & N & R)]. destruct (Hs _ _ _ E) as (ns' & N' & F).
  specialize (O Ho). split; [split_and!; [done | congruence | done] |]. exists ns.
  rewrite N in N'. apply app_inv_head in N' as <-. rewrite !base_closed in R by done. done.
Qed.

Lemma op_moves op d : op_ok op -> idle d -> moves d (run_doc_op op d).
Proof.
  intros Hop Hi. destruct op; cbn [run_doc_op op_ok] in *; [| | | | | | | | | done].
  - apply moves_tracked; [apply tracks_run_edit | | done].
    destruct e; cbn [run_edit]; [by apply speaks_replaceRange | | by apply speaks_replaceRange].
    unfold delete. apply speaks_bind; [apply speaks_lift | intros x].
    apply speaks_bind; [apply speaks_lift | intros y].
    destruct (4294967295 <? x + y); [apply speaks_throw | by apply speaks_replaceRange].
  - apply moves_tracked; [apply tracks_setText | | done]. unfold setText.
    apply speaks_bind; [|intros n; by apply speaks_replaceRange].
    apply speaks_bind; [apply speaks_assertLive | intros _; apply speaks_read].
  - destruct (transact (run_edits body) o d) as [d' r] eqn:E.
    apply transact_runs in E as [(I & ns & N & F & R) _]; [| apply tracks_run_edits | apply quiet_run_edits | done].
    split; [done |]. exists ns. split; [done |]. split; [|done].
    eapply Forall_impl; [exact F |]. intros [] Hn; cbn in *; congruence.
  - apply moves_tracked; [apply tracks_undo | | done]. unfold undo.
    apply speaks_bind; [apply speaks_assertLive | intros _].
    apply speaks_bind; [apply speaks_call | intros ch]. apply speaks_consume.
    destruct (o_origin o); [done | discriminate].
  - apply moves_tracked; [apply tracks_redo | | done]. unfold redo.
    apply speaks_bind; [apply speaks_assertLive | intros _].
    apply speaks_bind; [apply speaks_call | intros ch]. apply speaks_consume.
    destruct (o_origin o); [done | discriminate].
  - apply moves_tracked; [apply tracks_applyUpdate | apply speaks_receipt | done].
  - apply moves_tracked; [apply tracks_applySnapshot | apply speaks_receipt | done].
  - apply moves_tracked; [apply tracks_import | | done]. unfold import.
    apply speaks_bind; [apply speaks_lift | intros k].
    destruct k; first [apply speaks_receipt | apply speaks_throw].
  - apply moves_tracked; [apply tracks_prune | | done]. unfold pruneHistoryThrough.
    apply speaks_bind; [apply speaks_assertLive | intros _; apply speaks_call].
Qed.

(** ** The bridge between two tasks *)

(** What the bridge holds, spelled out. *)
Record state_is b d (ws : list (Z * jstring)) (q : list microtask) (rt : option (Z * jstring))
    (pt : option (Z * list TextEdit)) : Prop := {
  st_doc : doc b = d;
  st_ended : ended b = false;
  st_views : views b = ws;
  st_queue : microtasks b = q;
  st_rq : reconcileQueued b = match rt with Some _ => true | None => false end;
  st_rt : reconcileTarget b = rt;
  st_pq : editorPatchQueued b = match pt with Some _ => true | None => false end;
  st_pt : editorPatchTarget b = pt }.

(** Nothing is pending and the mounted editor, if any, shows the replica. *)
Definition mirrored b : Prop :=
  idle (doc b) /\
  exists ws, state_is b (doc b) ws [] None None /\
    (ws = [] \/ exists v, ws = [(v, text_of (doc b))]).

Lemma current_text_idle b : idle (doc b) -> current_text b = text_of (doc b).
Proof.
  intros (Hd & _). unfold current_text, getText, assertLive, mbind, SE_bind. rewrite Hd.
  cbn. by rewrite decodeUtf16_id.
Qed.

(** One mounted view. *)
Lemma dispatch_one b d v t q rt pt e :
  state_is b d [(v, t)] q rt pt ->
  state_is (dispatch v e b) d [(v, splice t (from e) (to e) (TextChange.insert e))] q rt pt.
Proof.
  intros []. unfold dispatch, view_text. rewrite st_views0. cbn [mget]. rewrite decide_True by done.
  split; try assumption. cbn. by rewrite decide_True by done.
Qed.

Lemma reconcile_one b d v t q rt pt target :
  state_is b d [(v, t)] q rt pt -> state_is (reconcile v target b) d [(v, target)] q rt pt.
Proof.
  intros Hs. unfold reconcile, view_text. rewrite (st_views _ _ _ _ _ _ Hs). cbn [mget].
  rewrite decide_True by done. pose proof (reconcile_patch_applies t target) as Ha.
  destruct (reconcile_patch t target) as [e|]; [|by subst].
  rewrite <- Ha. by apply dispatch_one.
Qed.

Lemma schedule_reconcile_one b d ws q rt pt v :
  state_is b d ws q rt pt -> idle d ->
  state_is (scheduleReconcile v b) d ws
    (match rt with Some _ => q | None => q ++ [MReconcile] end) (Some (v, text_of d)) pt.
Proof.
  intros [] Hi. unfold scheduleReconcile. rewrite current_text_idle by congruence.
  cbn [reconcileQueued set_field set_reconcileTarget]. cbn. rewrite st_rq0.
  destruct rt; split; cbn; congruence.
Qed.

Lemma drain_idle b d ws n : state_is b d ws [] None None -> drain n b = b.
Proof. intros []. by destruct n; cbn [drain]; rewrite ?st_queue0. Qed.

Lemma drain_next b m r n :
  microtasks b = m :: r -> drain (S n) b = drain n (run_microtask m (b <| microtasks := r |>)).
Proof. intros E. cbn [drain]. by rewrite E. Qed.

Lemma drain_reconcile b d v t x n :
  state_is b d [(v, t)] [MReconcile] (Some (v, x)) None ->
  state_is (drain (S n) b) d [(v, x)] [] None None.
Proof.
  intros Hs. cbn [drain]. rewrite (st_queue _ _ _ _ _ _ Hs). cbn [run_microtask].
  assert (state_is (reconcile_microtask (b <| microtasks := [] |>)) d [(v, x)] [] None None) as Hr.
  { unfold reconcile_microtask. cbv zeta. destruct Hs.
    replace (reconcileTarget (b <| microtasks := [] |>)) with (Some (v, x)) by (cbn; congruence).
    match goal with |- context [ended ?y] => replace (ended y) with false by (cbn; congruence) end.
    eapply reconcile_one. split; cbn; try congruence; done. }
  by rewrite (drain_idle _ _ _ _ Hr).
Qed.

(** ** Pending patches *)

Definition patching b d (v : Z) (t : jstring) (es : list TextEdit) : Prop :=
  match es with
  | [] => state_is b d [(v, t)] [] None None
  | _ => state_is b d [(v, t)] [MPatch] None (Some (v, es))
  end.

Lemma schedule_patching b d v t es new :
  patching b d v t es -> patching (scheduleEditorPatch v new b) d v t (es ++ new).
Proof.
  destruct new as [|e new]; [by rewrite app_nil_r |]. unfold scheduleEditorPatch. cbv zeta.
  destruct es as [|e' es]; cbn [patching app]; intros []; rewrite st_pt0; cbn; rewrite ?Z.eqb_refl, st_pq0;
    split; cbn; rewrite ?st_queue0; first [congruence | done].
Qed.

Lemma patching_views b d v t es : patching b d v t es -> views b = [(v, t)].
Proof. destruct es; intros []; done. Qed.

Lemma on_notices_patching ns : forall b d v t es x y,
  Forall not_editor ns -> replay ns x = Ok y ->
  patching b d v t es -> applyTextEdits t es = Ok x ->
  exists es', patching (foldl on_notice b ns) d v t es' /\ applyTextEdits t es' = Ok y.
Proof.
  induction ns as [|n ns IH]; intros b d v t es x y Hf Hr Hp Ha; cbn [foldl].
  { injection Hr as <-. eauto. }
  apply Forall_cons in Hf as [Hn Hf].
  destruct n as [u|edits origin local|]; cbn [replay on_notice not_editor] in *; [by eapply IH | | by eapply IH].
  destruct (applyTextEdits x edits) as [z|] eqn:Ez; [|done]. cbn [mbind res_bind] in Hr.
  unfold on_change. rewrite bool_decide_false by done.
  rewrite (patching_views _ _ _ _ _ Hp). cbn [map foldl fst].
  eapply IH; [done | exact Hr | by apply schedule_patching |].
  rewrite applyTextEdits_app, Ha. exact Ez.
Qed.

Lemma on_notices_unmounted ns : forall b, views b = [] -> foldl on_notice b ns = b.
Proof.
  induction ns as [|n ns IH]; intros b Hv; [done |]. cbn [foldl].
  assert (on_notice b n = b) as ->; [|by apply IH].
  destruct n; try done. cbn [on_notice]. unfold on_change. rewrite Hv. by destruct (bool_decide _).
Qed.

Lemma on_notices_editor ns : forall b,
  Forall (origin_is (Some EDITOR_ORIGIN)) ns -> foldl on_notice b ns = b.
Proof.
  induction ns as [|n ns IH]; intros b Hf; [done |]. cbn [foldl].
  apply Forall_cons in Hf as [Hn Hf]. assert (on_notice b n = b) as ->; [|by apply IH].
  destruct n; try done. cbn in Hn. subst. unfold on_notice, on_change. by rewrite bool_decide_true.
Qed.

Lemma patch_loop_one es : forall b d v t y,
  state_is b d [(v, t)] [] None None -> applyTextEdits t es = Ok y ->
  state_is (patch_loop v es b) d [(v, y)] [] None None.
Proof.
  induction es as [|e es IH]; intros b d v t y Hs Ha; cbn [patch_loop].
  { injection Ha as <-. done. }
  cbn [applyTextEdits] in Ha. destruct (applyTextEdit t e) as [z|] eqn:Ez; [|done].
  pose proof (applyTextEdit_Ok _ _ _ Ez) as (Hft & Hl & ->).
  assert (view_text v b = Some t) as ->.
  { unfold view_text. rewrite (st_views _ _ _ _ _ _ Hs). cbn. by rewrite decide_True. }
  change (default [] (Some t)) with t. cbv zeta. zdecide. eapply IH; [by apply dispatch_one | exact Ha].
Qed.

Lemma drain_patching b d v t es y n :
  patching b d v t es -> applyTextEdits t es = Ok y ->
  state_is (drain (S n) b) d [(v, y)] [] None None.
Proof.
  destruct es as [|e es]; cbn [patching]; intros Hs Ha.
  { injection Ha as <-. by rewrite (drain_idle _ _ _ _ Hs). }
  cbn [drain]. rewrite (st_queue _ _ _ _ _ _ Hs). cbn [run_microtask].
  assert (state_is (patch_microtask (b <| microtasks := [] |>)) d [(v, y)] [] None None) as Hr.
  { unfold patch_microtask. cbv zeta. destruct Hs.
    replace (editorPatchTarget (b <| microtasks := [] |>)) with (Some (v, e :: es)) by (cbn; congruence).
    match goal with |- context [ended ?y] => replace (ended y) with false by (cbn; congruence) end.
    eapply patch_loop_one; [|exact Ha]. split; cbn; try congruence; done. }
  by rewrite (drain_idle _ _ _ _ Hr).
Qed.

(** ** Tasks *)

Definition start_of d : Doc C :=
  {| component := component d; transactionDepth := transactionDepth d;
     transactionOrigin := transactionOrigin d; destroyed := destroyed d; notices := [] |}.

Lemma with_document_eq {A} (m : SE (Doc C) A) b :
  with_document m b = (foldl on_notice (b <| doc := (m (start_of (doc b))).1 |>)
                         (notices (m (start_of (doc b))).1), (m (start_of (doc b))).2).
Proof. unfold with_document, start_of. by destruct (m _) as [d' r]. Qed.

Lemma state_set_doc b d d' ws q rt pt :
  state_is b d ws q rt pt -> state_is (b <| doc := d' |>) d' ws q rt pt.
Proof. intros []. by split. Qed.

Lemma state_set_views b d ws ws' q rt pt :
  state_is b d ws q rt pt -> state_is (b <| views := ws' |>) d ws' q rt pt.
Proof. intros []. by split. Qed.

Lemma state_undo_group b d ws q rt pt now :
  state_is b d ws q rt pt -> state_is (nextUndoGroup now b).2 d ws q rt pt.
Proof.
  intros []. unfold nextUndoGroup. destruct (_ <? _); by split.
Qed.

Lemma state_errors b d ws q rt pt e :
  state_is b d ws q rt pt -> state_is (emitEngineError e b) d ws q rt pt.
Proof. intros []. unfold emitEngineError. destruct (exn_kind e); by split. Qed.

(** A method that is not the editor's own, reported on or not: the microtask
    brings the editor along. *)
Lemma document_task {A} (m : SE (Doc C) A) (g : Bridge C -> Bridge C) b d v ws n :
  (forall b d ws q rt pt, state_is b d ws q rt pt -> state_is (g b) d ws q rt pt) ->
  state_is b d ws [] None None -> (ws = [] \/ ws = [(v, text_of d)]) ->
  moves (start_of d) (m (start_of d)).1 ->
  mirrored (drain (S n) (g (with_document m b).1)).
Proof.
  intros Hg Hs Hw (I & ns & N & F & R). rewrite with_document_eq. cbn [fst].
  rewrite (st_doc _ _ _ _ _ _ Hs). cbn [app start_of notices] in N. rewrite N.
  set (d' := (m (start_of d)).1) in *. pose proof (state_set_doc _ _ d' _ _ _ _ Hs) as Hs'.
  destruct Hw as [-> | ->].
  - rewrite on_notices_unmounted by apply Hs'. apply Hg in Hs'. rewrite (drain_idle _ _ _ _ Hs').
    split; [by rewrite (st_doc _ _ _ _ _ _ Hs') |]. exists []. rewrite (st_doc _ _ _ _ _ _ Hs'). auto.
  - destruct (on_notices_patching ns _ d' v (text_of d) [] _ _ F R Hs' eq_refl) as (es & Hp & Ha).
    assert (patching (g (foldl on_notice (b <| doc := d' |>) ns)) d' v (text_of d) es) as Hp'
      by (destruct es; by apply Hg).
    pose proof (drain_patching _ _ _ _ _ _ n Hp' Ha) as Hd.
    split; [by rewrite (st_doc _ _ _ _ _ _ Hd) |]. eexists.
    rewrite (st_doc _ _ _ _ _ _ Hd). split; [exact Hd |]. right. by exists v.
Qed.

(** A method of the editor's own: the listeners ignore it. *)
Lemma editor_call {A} (m : SE (Doc C) A) b d ws :
  state_is b d ws [] None None -> runs (Some EDITOR_ORIGIN) (start_of d) (m (start_of d)).1 ->
  state_is (with_document m b).1 (m (start_of d)).1 ws [] None None.
Proof.
  intros Hs (I & ns & N & F & R). rewrite with_document_eq. cbn [fst].
  rewrite (st_doc _ _ _ _ _ _ Hs). cbn [app start_of notices] in N. rewrite N.
  rewrite on_notices_editor by done. by apply state_set_doc with (d := d).
Qed.

Lemma idle_start d : idle d -> idle (start_of d).
Proof. done. Qed.

Lemma session_moves d d' : runs (Some SESSION_ORIGIN) d d' -> moves d d'.
Proof.
  intros (I & ns & N & F & R). split; [done |]. exists ns. split; [done |]. split; [|done].
  eapply Forall_impl; [exact F |]. intros [u|es o l|] Hn; cbn in *; [done | | done].
  subst. discriminate.
Qed.

(** Giving up: the microtask makes the editor show the replica. *)
Lemma reconcile_task b d v t e n :
  state_is b d [(v, t)] [] None None -> idle d ->
  mirrored (drain (S n) (emitEngineError e (scheduleReconcile v b))).
Proof.
  intros Hs Hi.
  pose proof (drain_reconcile _ _ _ _ _ n
    (state_errors _ _ _ _ _ _ e (schedule_reconcile_one _ _ _ _ _ _ v Hs Hi))) as Hd.
  split; [by rewrite (st_doc _ _ _ _ _ _ Hd) |]. eexists.
  rewrite (st_doc _ _ _ _ _ _ Hd). split; [exact Hd |]. right. by exists v.
Qed.

Lemma mirrored_now b d v t n :
  state_is b d [(v, t)] [] None None -> idle d -> t = text_of d -> mirrored (drain n b).
Proof.
  intros Hs Hi ->. rewrite (drain_idle _ _ _ _ Hs).
  split; [by rewrite (st_doc _ _ _ _ _ _ Hs) |]. eexists.
  rewrite (st_doc _ _ _ _ _ _ Hs). split; [exact Hs |]. right. by exists v.
Qed.

Lemma replaceRangeChunked_eq now f t s origin b :
  let m := replace_chunked f t s {| o_origin := Some origin;
             o_undoGroup := Some (nextUndoGroup now b).1 |} in
  replaceRangeChunked now f t s origin b = with_document m (nextUndoGroup now b).2.
Proof. unfold replaceRangeChunked. by destruct (nextUndoGroup now b). Qed.

(** The replay of an oversized update, change by change. *)
Lemma halves_step now f t s b b1 x d ws :
  state_is b d ws [] None None -> idle d -> Forall is_unit s ->
  replaceRangeChunked now f t s EDITOR_ORIGIN b = (b1, x) ->
  exists d', idle d' /\ state_is b1 d' ws [] None None /\
    (is_Ok x = true -> 0 <= f <= t -> t <= len (text_of d) -> text_of d' = splice (text_of d) f t s).
Proof.
  intros Hs Hi Hu E. rewrite replaceRangeChunked_eq in E. cbv zeta in E.
  set (m := replace_chunked _ _ _ _) in E.
  apply (state_undo_group _ _ _ _ _ _ now) in Hs.
  destruct (m (start_of d)) as [d' x'] eqn:Em.
  destruct (replace_chunked_runs _ _ _ _ _ _ _ (idle_start d Hi) Hu Em) as [Hr Hx].
  pose proof (editor_call m _ d _ Hs) as Hc. rewrite Em in Hc. specialize (Hc Hr).
  rewrite with_document_eq, (st_doc _ _ _ _ _ _ Hs), Em in E. injection E as <- <-.
  rewrite with_document_eq, (st_doc _ _ _ _ _ _ Hs), Em in Hc. cbn [fst snd] in *.
  exists d'. split; [apply Hr | by split].
Qed.

Lemma halves_state now n cs : forall pos b d ws b' r,
  state_is b d ws [] None None -> idle d -> changes_ok n pos cs ->
  halves_loop now cs b = (b', r) ->
  exists d', idle d' /\ state_is b' d' ws [] None None.
Proof.
  induction cs as [|c cs IH]; intros pos b d ws b' r Hs Hi Hok; cbn [halves_loop].
  { intros [= <- <-]. eauto. }
  destruct Hok as (_ & _ & Hu & Hok).
  destruct (replaceRangeChunked _ _ _ _ _ b) as [b1 x] eqn:E1.
  destruct (halves_step _ _ _ _ _ _ _ _ _ Hs Hi Hu E1) as (d1 & I1 & S1 & _).
  destruct x; [by apply (IH _ _ _ _ _ _ S1 I1 Hok) | intros [= <- <-]; eauto].
Qed.

(** A single change is replayed where it belongs. *)
Lemma halves_one now c b d v b' r :
  state_is b d [(v, updated (text_of d) 0 [c])] [] None None -> idle d ->
  changes_ok (len (text_of d)) 0 [c] ->
  halves_loop now [c] b = (b', r) -> is_Ok r = true ->
  exists d', idle d' /\ state_is b' d' [(v, text_of d')] [] None None.
Proof.
  intros Hs Hi Hok E Hr. pose proof (splices_updated _ _ Hok) as Hsp. cbn [splices] in Hsp.
  destruct Hok as (Hf & Ht & Hu & _). cbn [halves_loop] in E.
  destruct (replaceRangeChunked _ _ _ _ _ b) as [b1 x] eqn:E1.
  destruct (halves_step _ _ _ _ _ _ _ _ _ Hs Hi Hu E1) as (d1 & I1 & S1 & T1).
  destruct x as [u|e]; injection E as <- <-; [|done]. exists d1. split; [done |].
  rewrite T1 by (done || lia). rewrite <- Hsp, !Z.add_0_r in S1. exact S1.
Qed.

Definition task_ok (t : task) b : Prop :=
  match t with
  | TDocument op => op_ok op
  | TReplace _ _ _ text => Forall is_unit text
  | TUser _ view cs => match view_text view b with
                       | Some text => changes_ok (len text) 0 cs
                       | None => True
                       end
  | TMount _ _ => views b = []
  | TUnmount _ => True
  end.

(** The outcomes after which the editor is meant to follow the replica. *)
Definition handled (t : task) (o : forwarded) : Prop :=
  match o with
  | Forwarded | Reconciled => True
  | Halved => match t with TUser _ _ cs => (length cs <= 1)%nat | _ => True end
  | Rethrown _ => False
  end.

Lemma updated_nil x : updated x 0 [] = x.
Proof. apply slice_full. Qed.

(** The forwarded transaction. *)
Lemma forward_call now cs b d ws :
  state_is b d ws [] None None -> idle d -> changes_ok (len (text_of d)) 0 cs ->
  let m := transact (forward_changes 0 cs)
             {| o_origin := Some EDITOR_ORIGIN; o_undoGroup := Some (nextUndoGroup now b).1 |} in
  exists b2 d' r, with_document m (nextUndoGroup now b).2 = (b2, r) /\
    idle d' /\ state_is b2 d' ws [] None None /\
    text_of d' = if is_Ok r then updated (text_of d) 0 cs else text_of d.
Proof.
  intros Hs Hi Hok m. apply (state_undo_group _ _ _ _ _ _ now) in Hs.
  destruct (m (start_of d)) as [d' r] eqn:Em. destruct (forward_body cs 0) as [Ht Hq].
  pose proof (transact_result _ _ _ _ _ Ht Hq (idle_start d Hi) Em) as (_ & _ & Hfail & _).
  pose proof (transact_runs _ _ _ _ _ Ht Hq (idle_start d Hi) Em) as [Hr Hx].
  pose proof (editor_call m _ d _ Hs) as Hc. rewrite Em in Hc. specialize (Hc Hr).
  assert ((with_document m (nextUndoGroup now b).2).2 = r) as Hx2.
  { rewrite with_document_eq, (st_doc _ _ _ _ _ _ Hs). cbn [snd]. by rewrite Em. }
  destruct (with_document m (nextUndoGroup now b).2) as [b2 r2]. cbn [fst snd] in *. subst r2.
  exists b2, d', r. split; [done |]. split; [apply Hr | split; [exact Hc |]].
  destruct r; cbn [is_Ok] in *; [|by apply Hfail]. apply Hx; [done |]. by apply gives_update.
Qed.

Lemma user_task now v cs b d b' o :
  state_is b d [(v, text_of d)] [] None None -> idle d -> changes_ok (len (text_of d)) 0 cs ->
  user_update now v cs (b <| views := mset (views b) v (updated (text_of d) 0 cs) |>) = (b', o) ->
  handled (TUser now v cs) o -> mirrored (drain 5 b').
Proof.
  intros Hs Hi Hok E Hh.
  assert (mset (views b) v (updated (text_of d) 0 cs) = [(v, updated (text_of d) 0 cs)]) as Hv.
  { rewrite (st_views _ _ _ _ _ _ Hs). cbn. by rewrite decide_True. }
  rewrite Hv in E. pose proof (state_set_views _ _ _ [(v, updated (text_of d) 0 cs)] _ _ _ Hs) as Hs1.
  destruct (forward_call now cs _ d _ Hs1 Hi Hok) as (b2 & d2 & r & Eq & I2 & S2 & T2).
  unfold user_update in E. destruct (nextUndoGroup now _) as [group b1]. cbn [fst snd] in Eq.
  rewrite Eq in E. destruct r as [u|e]; cbn [is_Ok] in T2.
  { apply pair_equal_spec in E as [<- <-]. by eapply mirrored_now. }
  destruct (oversized e).
  - unfold applyChangesInHalves in E. destruct (halves_loop now cs b2) as [b3 r3] eqn:E3.
    destruct (halves_state now _ cs _ _ _ _ _ _ S2 I2 Hok E3) as (d3 & I3 & S3).
    destruct r3 as [u3|e3].
    2:{ destruct (isEsbtError e3); apply pair_equal_spec in E as [<- <-]; [|done]. by eapply reconcile_task. }
    apply pair_equal_spec in E as [<- <-]. cbn in Hh. destruct cs as [|c [|c2 cs]]; [| | cbn in Hh; lia].
    + injection E3 as <- <-. eapply mirrored_now; [exact S2 | done |]. by rewrite updated_nil.
    + rewrite <- T2 in S2, Hok.
      destruct (halves_one now c b2 d2 v b3 _ S2 I2 Hok E3 eq_refl) as (d4 & I4 & S4).
      by eapply mirrored_now.
  - destruct (isRefusedEdit e); apply pair_equal_spec in E as [<- <-]; [|done]. by eapply reconcile_task.
Qed.

(** A fresh editor is reconciled before anything else happens. *)
Lemma mount_task v text b ws :
  state_is b (doc b) ws [] None None -> idle (doc b) -> views b = [] ->
  mirrored (drain 5 (scheduleReconcile v (b <| views := mset (views b) v text |>
                       <| microtasks := microtasks b ++ [MMount v] |>))).
Proof.
  intros Hs Hi Hv. assert (state_is (b <| views := mset (views b) v text |>
      <| microtasks := microtasks b ++ [MMount v] |>) (doc b) [(v, text)] [MMount v] None None) as H1'.
  { rewrite Hv. destruct Hs. split; cbn; rewrite ?st_queue0; done. }
  apply (schedule_reconcile_one _ _ _ _ _ _ v) in H1'; [|done]. cbn [app] in H1'.
  set (b1 := scheduleReconcile v _) in *. rewrite (drain_next _ _ _ _ (st_queue _ _ _ _ _ _ H1')).
  cbn [run_microtask]. unfold mount_microtask.
  assert (state_is (b1 <| microtasks := [MReconcile] |>) (doc b) [(v, text)] [MReconcile]
            (Some (v, text_of (doc b))) None) as H2 by (destruct H1'; by split).
  unfold view_text at 1. rewrite (st_views _ _ _ _ _ _ H2). cbn [mget]. rewrite decide_True by done.
  apply (schedule_reconcile_one _ _ _ _ _ _ v) in H2; [|done].
  pose proof (drain_reconcile _ _ _ _ _ 3 H2) as Hd. by apply (mirrored_now _ _ _ _ 0 Hd).
Qed.

Lemma unmount_task v b ws :
  state_is b (doc b) ws [] None None -> idle (doc b) ->
  ws = [] \/ (exists v, ws = [(v, text_of (doc b))]) ->
  mirrored (drain 5 (b <| views := mdel (views b) v |>)).
Proof.
  intros Hs Hi Hw. rewrite (st_views _ _ _ _ _ _ Hs).
  pose proof (state_set_views _ _ _ (mdel ws v) _ _ _ Hs) as Hs1.
  rewrite (drain_idle _ _ _ _ Hs1). split; [done |]. exists (mdel ws v). split; [exact Hs1 |].
  destruct Hw as [-> | (v1 & ->)]; [by left |]. cbn [mdel].
  destruct (decide (v1 = v)); [by left | right; by exists v1].
Qed.

(** One task keeps the editor and the replica equal. *)
Lemma task_mirrored t b b' o :
  mirrored b -> task_ok t b -> run_to_idle t b = (b', o) -> handled t o -> mirrored b'.
Proof.
  intros (Hi & ws & Hs & Hw) Hok. unfold run_to_idle. destruct (run_task t b) as [b1 o1] eqn:E.
  intros [<- <-]%pair_equal_spec Hh.
  assert (exists v, ws = [] \/ ws = [(v, text_of (doc b))]) as (v0 & Hw0).
  { destruct Hw as [-> | (v & ->)]; [exists 0 | exists v]; auto. }
  destruct t as [op | now f t text | now v cs | v text | v]; cbn [run_task task_ok] in *.
  - apply pair_equal_spec in E as [<- <-]. eapply (document_task _ id _ _ v0); [done | exact Hs | exact Hw0 |].
    cbn [fst]. by apply op_moves.
  - destruct (editable b); cbn [negb] in E.
    2:{ apply pair_equal_spec in E as [<- <-]. rewrite (drain_idle _ _ _ _ Hs). split; [done | eauto]. }
    rewrite replaceRangeChunked_eq in E. cbv zeta in E.
    set (m := replace_chunked _ _ _ _) in E. pose proof (state_undo_group _ _ _ _ _ _ now Hs) as Hs1.
    destruct (m (start_of (doc b))) as [d' r] eqn:Em.
    destruct (replace_chunked_runs _ _ _ _ _ _ _ (idle_start _ Hi) Hok Em) as [Hr _].
    apply session_moves in Hr.
    assert (forall g, (forall b d ws q rt pt, state_is b d ws q rt pt -> state_is (g b) d ws q rt pt) ->
      mirrored (drain 5 (g (with_document m (nextUndoGroup now b).2).1))) as Hm.
    { intros g Hg. eapply (document_task m g _ _ v0); [done | exact Hs1 | exact Hw0 | by rewrite Em]. }
    destruct (with_document m (nextUndoGroup now b).2) as [b2 r2]. cbn [fst] in Hm.
    destruct r2 as [u|e]; [apply pair_equal_spec in E as [<- <-]; by apply (Hm id) |].
    destruct (isEsbtError e); apply pair_equal_spec in E as [<- <-]; [|done].
    apply (Hm (emitEngineError e)). intros. by apply state_errors.
  - destruct (view_text v b) as [x|] eqn:Ev.
    2:{ apply pair_equal_spec in E as [<- <-]. rewrite (drain_idle _ _ _ _ Hs). split; [done | eauto]. }
    destruct (editable b); cbn [negb] in E.
    2:{ apply pair_equal_spec in E as [<- <-]. rewrite (drain_idle _ _ _ _ Hs). split; [done | eauto]. }
    unfold view_text in Ev. rewrite (st_views _ _ _ _ _ _ Hs) in Ev.
    destruct Hw as [-> | (v1 & ->)]; [done |]. cbn [mget] in Ev.
    destruct (decide (v1 = v)) as [-> |]; [|done]. injection Ev as <-.
    by eapply user_task.
  - apply pair_equal_spec in E as [<- <-]. by eapply mount_task.
  - apply pair_equal_spec in E as [<- <-]. eapply unmount_task; eauto.
Qed.

(** ** The bridge over a session *)

(** A task and its microtasks, under the conditions CodeMirror guarantees. *)
Inductive bridge_step b b' : Prop :=
| BridgeStep t o : task_ok t b -> run_to_idle t b = (b', o) -> handled t o -> bridge_step b b'.

Definition fresh_bridge (c : C) (canEdit : bool) : Bridge C :=
  mkBridge C (new_document c) [] canEdit false false None false None 1 0 [] [].

(** C4. A single editor of an open document shows the replica. Over typing, remote
    updates, snapshots, undo, session edits, chunked replays, refused edits,
    mounting and unmounting, once the microtasks of the last task have run, the
    editor shows exactly the text of the replica and nothing is left pending.
    What [task_ok] and [handled] leave out: a view is mounted only when none is
    ([second_editor_takes_the_patch] shows two), the document is not destroyed,
    operations of others do not carry the origin of the editor, no exception is
    rethrown by the update handler, and an update too large for one patch is
    replayed only when it is a single change ([oversized_update_diverges]). *)
Theorem editor_shows_replica c canEdit b :
  c_open c = false -> rtc bridge_step (fresh_bridge c canEdit) b ->
  microtasks b = [] /\ forall view text, (view, text) ∈ views b -> text = c_text (component (doc b)).
Proof.
  intros Hc Hr.
  assert (mirrored (fresh_bridge c canEdit)) as Hm.
  { split; [done |]. exists []. split; [by split | by left]. }
  induction Hr as [b | b1 b2 b3 [t o Hok E Hh] _ IH]; [|by apply IH, (task_mirrored t b1 b2 o)].
  destruct Hm as (_ & ws & Hs & Hw). split; [apply Hs |]. intros v x.
  rewrite (st_views _ _ _ _ _ _ Hs). destruct Hw as [-> | (v1 & ->)].
  - intros Hin. by apply not_elem_of_nil in Hin.
  - intros Hin. apply list_elem_of_singleton in Hin. by injection Hin.
Qed.

(** ** Bounded transactions *)

(** [n] committed transactions lead from one text to another: each replaces, in
    range, at most [EDITOR_CHUNK_UNITS] deleted and inserted units together, and
    tells the listeners exactly that. *)
Inductive chunk_run (o : option jstring) : nat -> jstring -> list notice -> jstring -> Prop :=
| chunk_done x : chunk_run o 0 x [] x
| chunk_more n x f t s change ns y :
    0 <= f <= t -> t <= len x -> t - f + len s <= EDITOR_CHUNK_UNITS ->
    replay (commit_notices change o) x = Ok (splice x f t s) ->
    chunk_run o n (splice x f t s) ns y ->
    chunk_run o (S n) x (commit_notices change o ++ ns) y.

(** The document went through such transactions. *)
Definition chunked (o : option jstring) (n : nat) d d' : Prop :=
  exists ns, chunk_run o n (text_of d) ns (text_of d') /\ notices d' = notices d ++ ns.

Lemma chunked_refl o d d' :
  text_of d' = text_of d -> notices d' = notices d -> chunked o 0 d d'.
Proof. intros Et E. exists []. rewrite Et, app_nil_r. split; [constructor | done]. Qed.

Lemma chunk_run_app o n m x y z ns ms :
  chunk_run o n x ns y -> chunk_run o m y ms z -> chunk_run o (n + m) x (ns ++ ms) z.
Proof.
  induction 1 as [| n x f t s ch ns y Hf Hl Hs Hr _ IH]; intros H2; [done |].
  rewrite <- app_assoc. cbn [Nat.add]. apply (chunk_more o _ x f t s ch); auto.
Qed.

Lemma chunked_trans o n m d1 d2 d3 :
  chunked o n d1 d2 -> chunked o m d2 d3 -> chunked o (n + m) d1 d3.
Proof.
  intros (n1 & R1 & N1) (n2 & R2 & N2). exists (n1 ++ n2). split; [by eapply chunk_run_app |].
  by rewrite N2, N1, app_assoc.
Qed.

(** A transaction that makes a small splice: one more chunk, or nothing. *)
Lemma transact_chunk {A} (cb : SE (Doc C) A) o d d1 r f t s :
  tracks cb -> quiet cb -> gives (text_of d) cb (splice (text_of d) f t s) ->
  0 <= f <= t -> t <= len (text_of d) -> t - f + len s <= EDITOR_CHUNK_UNITS -> idle d ->
  transact cb o d = (d1, r) ->
  idle d1 /\
  if is_Ok r
  then text_of d1 = splice (text_of d) f t s /\
       forall n d2, chunked (o_origin o) n d1 d2 -> chunked (o_origin o) (S n) d d2
  else chunked (o_origin o) 0 d d1.
Proof.
  intros Ht Hq Hg Hf Hl Hs Hi E.
  destruct (transact_result _ _ _ _ _ Ht Hq Hi E) as (Hi' & (change & Hn & Hr) & Hfail & Hok).
  split; [done |]. destruct (is_Ok r).
  - pose proof (Hok _ eq_refl Hg) as Ht'. split; [done |]. intros n d2 (ns & Hc & Hn2).
    rewrite Ht' in Hr, Hc. eexists. split; [by eapply chunk_more |].
    by rewrite Hn2, Hn, app_assoc.
  - destruct (Hfail eq_refl). by apply chunked_refl.
Qed.

(** How many chunks hold [n] units. *)
Definition chunks_of (n : Z) : nat := Z.to_nat ((n + (EDITOR_CHUNK_UNITS - 1)) / EDITOR_CHUNK_UNITS).

Lemma chunks_of_none n : - EDITOR_CHUNK_UNITS < n <= 0 -> chunks_of n = 0%nat.
Proof. unfold chunks_of, EDITOR_CHUNK_UNITS. intros. rewrite Z.div_small by lia. done. Qed.

Lemma chunks_of_more n : 0 < n -> chunks_of n = S (chunks_of (n - EDITOR_CHUNK_UNITS)).
Proof.
  unfold chunks_of, EDITOR_CHUNK_UNITS. intros.
  replace (n + (4096 - 1)) with (n - 4096 + (4096 - 1) + 1 * 4096) by lia.
  rewrite Z.div_add by lia. assert (0 <= (n - 4096 + (4096 - 1)) / 4096) by (apply Z.div_pos; lia). lia.
Qed.

Lemma delete_chunks_bounded n : forall f rem o d d' r,
  idle d -> 0 <= f -> - EDITOR_CHUNK_UNITS < rem <= Z.of_nat n -> f + rem <= len (text_of d) ->
  delete_chunks n f rem o d = (d', r) ->
  exists k, chunked (o_origin o) k d d' /\ (is_Ok r = true -> k = chunks_of rem).
Proof.
  induction n as [|n IH]; intros f rem o d d' r Hi Hf Hn Hl; cbn [delete_chunks].
  { intros [= <- <-]. exists 0%nat. split; [by apply chunked_refl |]. by rewrite chunks_of_none by lia. }
  destruct (Z.ltb_spec 0 rem).
  2:{ intros [= <- <-]. exists 0%nat. split; [by apply chunked_refl |]. by rewrite chunks_of_none by lia. }
  set (count := Z.min rem EDITOR_CHUNK_UNITS). unfold mbind at 1, SE_bind at 1.
  assert (0 < count <= rem /\ count <= EDITOR_CHUNK_UNITS) as [Hc Hc'] by (unfold count, EDITOR_CHUNK_UNITS; lia).
  destruct (transact _ o d) as [d1 x] eqn:E1. intros E2.
  destruct (transact_chunk (delete f count no_options) _ _ _ _ f (f + count) [] ltac:(auto with body) ltac:(auto with body)
    (gives_delete f count no_options (text_of d)) ltac:(lia) ltac:(lia) ltac:(rewrite len_nil; lia) Hi E1)
    as [Hi1 Hx].
  destruct x as [a|e]; [|injection E2 as <- <-; by exists 0%nat]. destruct Hx as [Ht Hx].
  destruct (IH f (rem - count) o d1 d' r Hi1 Hf) as (k & Hk & Hok); [| | exact E2 |].
  - unfold count, EDITOR_CHUNK_UNITS in *. lia.
  - rewrite Ht, splice_len by lia. rewrite len_nil. lia.
  - exists (S k). split; [by apply Hx |]. intros Hr. rewrite (Hok Hr), (chunks_of_more rem) by lia.
    f_equal. unfold count. destruct (Z.min_spec rem EDITOR_CHUNK_UNITS) as [[? ->] | [? ->]]; [| done].
    rewrite !chunks_of_none by lia. done.
Qed.

Lemma insert_chunks_bounded n : forall f off s o d d' r,
  idle d -> Forall is_unit s -> 0 <= f -> 0 <= off ->
  - EDITOR_CHUNK_UNITS < len s - off <= Z.of_nat n -> (off < len s -> f + off <= len (text_of d)) ->
  insert_chunks n f off s o d = (d', r) ->
  exists k, chunked (o_origin o) k d d' /\ (is_Ok r = true -> k = chunks_of (len s - off)).
Proof.
  induction n as [|n IH]; intros f off s o d d' r Hi Hs Hf Ho Hn Hl; cbn [insert_chunks].
  { intros [= <- <-]. exists 0%nat. split; [by apply chunked_refl |]. by rewrite chunks_of_none by lia. }
  destruct (Z.ltb_spec off (len s)).
  2:{ intros [= <- <-]. exists 0%nat. split; [by apply chunked_refl |]. by rewrite chunks_of_none by lia. }
  set (chunk := slice s off (off + EDITOR_CHUNK_UNITS)). unfold mbind at 1, SE_bind at 1.
  assert (len chunk = Z.min EDITOR_CHUNK_UNITS (len s - off)) as Hc.
  { unfold chunk, slice. unfold len at 1. rewrite length_take, length_drop. unfold rel_index.
    unfold EDITOR_CHUNK_UNITS, len in *. zdecide; lia. }
  destruct (transact _ o d) as [d1 x] eqn:E1. intros E2. specialize (Hl ltac:(lia)).
  assert (Forall is_unit chunk) as Hu by (unfold chunk, slice; by apply Forall_take, Forall_drop).
  destruct (transact_chunk (EsbtDocument.insert (f + off) chunk no_options) _ _ _ _ (f + off) (f + off) chunk ltac:(auto with body) ltac:(auto with body)
    (gives_insert (f + off) chunk no_options (text_of d) Hu) ltac:(lia) ltac:(lia)
    ltac:(unfold EDITOR_CHUNK_UNITS in *; lia) Hi E1) as [Hi1 Hx].
  destruct x as [a|e]; [|injection E2 as <- <-; by exists 0%nat]. destruct Hx as [Ht Hx].
  destruct (IH f (off + EDITOR_CHUNK_UNITS) s o d1 d' r Hi1 Hs Hf) as (k & Hk & Hok); [| | | exact E2 |].
  - unfold EDITOR_CHUNK_UNITS. lia.
  - unfold EDITOR_CHUNK_UNITS in *. lia.
  - intros. rewrite Ht, splice_len by lia. unfold EDITOR_CHUNK_UNITS in *. lia.
  - exists (S k). split; [by apply Hx |]. intros Hr. rewrite (Hok Hr), (chunks_of_more (len s - off)) by lia.
    do 2 f_equal. lia.
Qed.

(** C14. A replacement of any size reaches the replica in committed transactions,
    each of which replaces, within the text of its time, at most 4,096 deleted
    and inserted units together and tells the listeners exactly that, even when
    the replacement fails half way. If it succeeds, the text is exactly the
    replacement and the transactions are one, when it fits, and otherwise as
    many as the deleted and the inserted units need. The document is ready for
    the next operation in every case. *)
Theorem replacement_in_chunks f t s o d d' r :
  idle d -> Forall is_unit s -> 0 <= f <= t -> t <= len (text_of d) ->
  replace_chunked f t s o d = (d', r) ->
  idle d' /\
  exists n ns, chunk_run (o_origin o) n (text_of d) ns (text_of d') /\ notices d' = notices d ++ ns /\
    (is_Ok r = true ->
       text_of d' = splice (text_of d) f t s /\
       n = if t - f + len s <=? EDITOR_CHUNK_UNITS then 1%nat
           else (chunks_of (t - f) + chunks_of (len s))%nat).
Proof.
  intros Hi Hs Hf Hl E.
  destruct (replace_chunked_runs _ _ _ _ _ _ _ Hi Hs E) as [[I _] Hx]. split; [done |].
  cut (exists n, chunked (o_origin o) n d d' /\ (is_Ok r = true ->
    n = if t - f + len s <=? EDITOR_CHUNK_UNITS then 1%nat else (chunks_of (t - f) + chunks_of (len s))%nat)).
  { intros (n & (ns & Hc & Hn) & Hok). exists n, ns. split_and!; [done | done |].
    intros Hr. split; [by apply Hx | by apply Hok]. }
  revert E. unfold replace_chunked.
  destruct (Z.leb_spec (t - f + len s) EDITOR_CHUNK_UNITS) as [Hle | Hgt].
  - intros E. assert (0 <= f /\ 0 <= t - f /\ f + (t - f) <= len (text_of d)) as (B1 & B2 & B3) by lia.
    pose proof (gives_one_change f (t - f) s (text_of d) (mret tt) _ B1 B2 B3 Hs (gives_ret _ _)) as G.
    replace (0 <? t - f) with (f <? t) in G
      by (destruct (Z.ltb_spec 0 (t - f)), (Z.ltb_spec f t); lia || done).
    replace (f + (t - f)) with t in G by lia.
    destruct (one_change_body (f <? t) (0 <? len s) f (t - f) s (mret tt) ltac:(auto with body) ltac:(auto with body))
      as [Bt Bq].
    destruct (transact_chunk _ _ _ _ _ f t s Bt Bq G Hf Hl Hle Hi E) as [_ Hc].
    destruct r as [a|e]; [| by exists 0%nat]. exists 1%nat. split; [| done]. apply Hc. by apply chunked_refl.
  - unfold mbind at 1, SE_bind at 1. destruct (delete_chunks _ f (t - f) o d) as [d1 x] eqn:E1. intros E2.
    destruct (delete_chunks_bounded (Z.to_nat (t - f)) f (t - f) o d d1 x Hi ltac:(lia) ltac:(unfold EDITOR_CHUNK_UNITS; lia) ltac:(lia) E1)
      as (k1 & C1 & N1).
    apply delete_chunks_runs in E1 as [R1 T1]; [| done | lia].
    destruct x as [a|e]; [| injection E2 as <- <-; by exists k1].
    specialize (T1 eq_refl ltac:(lia) ltac:(lia) ltac:(lia)). specialize (N1 eq_refl).
    assert (len (text_of d1) = len (text_of d) - (t - f)) as L1.
    { rewrite T1. rewrite splice_len by lia. rewrite len_nil. lia. }
    destruct (insert_chunks_bounded (length s) f 0 s o d1 d' r (proj1 R1) Hs ltac:(lia) ltac:(lia)
      ltac:(pose proof (len_nonneg s); unfold EDITOR_CHUNK_UNITS, len in *; lia)
      ltac:(lia) E2) as (k2 & C2 & N2).
    exists (k1 + k2)%nat. split; [by eapply chunked_trans |]. intros Hr.
    rewrite N1, (N2 Hr), Z.sub_0_r. done.
Qed.

End Mirror.
