(* ===== verification/EditorDemo.v ===== *)
(** Concrete runs of the editor bridge: the witnesses of its theorems, and the
    replay of an oversized update that the code gets wrong. *)

From S2P Require Import Prelude.
From S2P Require Import TextChange.
From S2P Require Import Bytes.
From S2P Require Import Protocol.
From S2P Require Import EsbtDocument.
From S2P Require Import EditorText.
From S2P Require Import EditorBridge.
From S2P Require Import EditorMirror.

Module EditorDemo.

#[local] Existing Instance Buffer.buffer_component.
#[local] Existing Instance Buffer.buffer_laws.

#[local] Instance buffer_edits : EditLaws Buffer.buf.
Proof.
  split.
  - intros b g b' E. cbn in *. unfold Buffer.begin in E. destruct (Buffer.base b); [done |].
    by injection E as <-.
  - intros b f t s g b' ch E. cbn in *. unfold Buffer.replace in E.
    destruct ((t <? f) || (len (Buffer.text b) <? t)) eqn:Er; [done |]. reflect_bools.
    destruct (negb (Buffer.fits (Buffer.text b))); [done |]. split; [lia |].
    destruct (Buffer.base b); by injection E as <- _.
  - intros b b' ch E. cbn in *. unfold Buffer.commit in E. destruct (Buffer.base b) as [old|]; [|done].
    destruct (bool_decide (old = Buffer.text b)); [by injection E as <- _ |].
    destruct (negb (Buffer.fits old)); [done | by injection E as <- _].
Defined.

#[local] Instance buffer_anchors : AnchorLaws Buffer.buf.
Proof.
  split; [reflexivity |]. intros b a i E. cbn in E. injection E as <-. lia.
Defined.

Definition page : Buffer.buf := {| Buffer.text := lit "hello"; Buffer.base := None |}.

Definition typed (at_ : Z) (s : string) : Change := {| fromA := at_; toA := at_; inserted := lit s |}.

(** Mounting, typing in two places, a remote update, typing again. *)
Definition session : list task :=
  [TMount 1 (lit "stale"); TUser 1000 1 [typed 0 "oh "; typed 5 "!"];
   TDocument (OpUpdate (lit "remote")); TUser 2000 1 [typed 6 "."]; TReplace 2100 0 0 (lit "> ")].

Definition run_session (b : Bridge Buffer.buf) (ts : list task) : Bridge Buffer.buf :=
  foldl (fun b t => (run_to_idle t b).1) b ts.

Example session_run :
  views (run_session (fresh_bridge page true) session) = [(1, lit "> remote.")].
Proof. vm_compute. reflexivity. Qed.

Definition bridge0 : Bridge Buffer.buf := fresh_bridge page true.
Definition bridge1 : Bridge Buffer.buf := (run_to_idle (TMount 1 (lit "stale")) bridge0).1.
Definition bridge2 : Bridge Buffer.buf :=
  (run_to_idle (TUser 1000 1 [typed 0 "oh "; typed 5 "!"]) bridge1).1.
Definition bridge3 : Bridge Buffer.buf := (run_to_idle (TDocument (OpUpdate (lit "remote"))) bridge2).1.

Lemma editor_shows_replica_witness :
  rtc bridge_step bridge0 bridge3 /\
  forall view text, (view, text) ∈ views bridge3 -> text = c_text (component (doc bridge3)).
Proof.
  assert (rtc bridge_step bridge0 bridge3) as Hr.
  { apply rtc_l with bridge1.
    { exists (TMount 1 (lit "stale")) Forwarded; [reflexivity | vm_compute; reflexivity | exact I]. }
    apply rtc_l with bridge2.
    { exists (TUser 1000 1 [typed 0 "oh "; typed 5 "!"]) Forwarded; [| vm_compute; reflexivity | exact I].
      assert (view_text 1 bridge1 = Some (lit "hello")) as E by (vm_compute; reflexivity).
      unfold task_ok. rewrite E. cbn [changes_ok typed fromA toA inserted].
      change (len (lit "hello")) with 5. split_and!; try lia; apply lit_units. }
    apply rtc_once. exists (TDocument (OpUpdate (lit "remote"))) Forwarded; [exact I | vm_compute; reflexivity | exact I]. }
  split; [exact Hr |].
  pose proof (editor_shows_replica page true bridge3 eq_refl Hr) as [_ T]. exact T.
Defined.

Definition page_doc : Doc Buffer.buf := new_document page.
Definition options : TransactOptions := {| o_origin := Some EDITOR_ORIGIN; o_undoGroup := Some 1 |}.

Lemma replacement_in_chunks_witness :
  exists d', replace_chunked 1 4 (lit "ipp") options page_doc = (d', Ok tt) /\
  c_text (component d') = lit "hippo" /\ idle d'.
Proof.
  destruct (replace_chunked 1 4 (lit "ipp") options page_doc) as [d' r] eqn:E.
  assert (r = Ok tt) as Hr by (change r with (d', r).2; rewrite <- E; vm_compute; reflexivity).
  assert (idle page_doc) as Hi by (split_and!; reflexivity).
  assert (0 <= 1 <= 4) as Hf by lia.
  assert (4 <= len (c_text (component page_doc))) as Hl by (vm_compute; discriminate).
  pose proof (replacement_in_chunks 1 4 (lit "ipp") options page_doc d' r Hi (lit_units "ipp") Hf Hl E) as T.
  destruct T as (I & n & ns & _ & _ & T). exists d'. split; [by rewrite Hr |]. split; [|exact I].
  destruct T as [T _]; [rewrite Hr; reflexivity |]. rewrite T. vm_compute. reflexivity.
Defined.

(** One transaction whose second edit is out of range, and one that succeeds. *)
Definition lost : list edit_op := [EdInsert 0 (lit "lost"); EdDelete 3 90].
Definition swapped : list edit_op := [EdDelete 0 1; EdInsert 0 (lit "j")].

Lemma units_of (es : list edit_op) :
  forallb (fun e => match e with EdInsert _ s | EdReplace _ _ s => forallb (fun u => (0 <=? u) && (u <? 65536)) s
                    | EdDelete _ _ => true end) es = true -> Forall edit_units es.
Proof.
  intros H. rewrite forallb_forall in H. apply Forall_forall. intros e He%list_elem_of_In.
  specialize (H e He). destruct e as [i s | i n | f t s]; cbn in *; [| done |];
    (rewrite forallb_forall in H; apply Forall_forall; intros u Hu%list_elem_of_In; specialize (H u Hu);
     reflect_bools; unfold is_unit; lia).
Qed.

Lemma transact_atomic_witness :
  (let p := transact (run_edits lost) options page_doc in
   c_text (component p.1) = lit "hello" /\ notices p.1 = []) /\
  (let p := transact (run_edits swapped) options page_doc in
   Some (c_text (component p.1)) = Some (lit "jello")).
Proof.
  assert (idle page_doc) as Hi by (split_and!; reflexivity).
  assert (Forall edit_units lost) as H1 by (apply units_of; vm_compute; reflexivity).
  assert (Forall edit_units swapped) as H2 by (apply units_of; vm_compute; reflexivity).
  assert (transact (run_edits lost) options page_doc =
    ((transact (run_edits lost) options page_doc).1, esbt_error 7 "out of range" : res unit)) as E1
    by (vm_compute; reflexivity).
  assert (transact (run_edits swapped) options page_doc =
    ((transact (run_edits swapped) options page_doc).1, Ok tt)) as E2 by (vm_compute; reflexivity).
  split; cbv zeta.
  - pose proof (transact_atomic lost options page_doc _ _ H1 Hi E1) as (_ & T & N).
    split; [exact T | exact N].
  - pose proof (transact_atomic swapped options page_doc _ _ H2 Hi E2) as (_ & T & _).
    rewrite <- T. vm_compute. reflexivity.
Defined.

(** The quote moved three units to the right: the anchors point before it. *)
Definition review : ReviewAnchorRange :=
  {| r_range := {| r_start := [1]; r_end := [3]; startOffset := 1; endOffset := 3 |};
     quote := lit "lo" |}.

Definition resolved : ResolvedReviewRange := {| rr_from := 3; rr_to := 5; exact := true |}.

Lemma review_range_resolves_witness :
  slice (lit "hello") (rr_from resolved) (rr_to resolved) = lit "lo".
Proof.
  assert (resolveReviewRange review page_doc = (page_doc, Ok resolved)) as E by (vm_compute; reflexivity).
  pose proof (review_range_resolves review page_doc page_doc resolved E) as T.
  cbv zeta in T. destruct T as (_ & _ & T & _). apply T; [discriminate | reflexivity].
Defined.

(** ** Where the code misses its intent

    A component that refuses transactions growing by more than 4,096 units. The
    update inserts 3,000 units at the start and 3,000 at the end of "xy". The
    replay drops the running adjustment of the offsets, so the second insertion
    lands inside the first: editor and replica differ, and stay different. *)
Definition small_replace (b : Buffer.buf) (f t : Z) (s : list Z) (g : option Z) :=
  match Buffer.base b with
  | Some old => if 4096 <? len (Buffer.text b) + len s - len old
                then (b, inr (Payload MessageTooLarge "too large"))
                else Buffer.replace b f t s g
  | None => Buffer.replace b f t s g
  end.

#[local] Instance small_component : Component Buffer.buf := {
  c_length := c_length; c_text := c_text; c_version := c_version; c_historyFloor := c_historyFloor;
  c_pendingOperations := c_pendingOperations; c_retainedOperations := c_retainedOperations;
  c_currentDmax := c_currentDmax; c_beginTransaction := c_beginTransaction;
  c_commitTransaction := c_commitTransaction; c_abortTransaction := c_abortTransaction;
  c_replace := small_replace; c_undo := c_undo; c_redo := c_redo; c_canUndo := c_canUndo;
  c_canRedo := c_canRedo; c_applyUpdate := c_applyUpdate; c_applySnapshot := c_applySnapshot;
  c_exportUpdate := c_exportUpdate; c_exportCompactSnapshot := c_exportCompactSnapshot;
  c_exportFullSnapshot := c_exportFullSnapshot; c_pruneHistoryThrough := c_pruneHistoryThrough;
  c_anchor := c_anchor; c_resolveAnchor := c_resolveAnchor;
  c_captureCausalPosition := c_captureCausalPosition;
  c_resolveCausalPosition := c_resolveCausalPosition; c_classifyArtifact := c_classifyArtifact }.

Definition many (c : Z) : jstring := replicate 3000 c.
Definition two_pastes : list Change :=
  [{| fromA := 0; toA := 0; inserted := many 97 |}; {| fromA := 2; toA := 2; inserted := many 98 |}].

Definition small_page : Buffer.buf := {| Buffer.text := lit "xy"; Buffer.base := None |}.
Definition small_bridge : Bridge Buffer.buf := (run_to_idle (TMount 1 (lit "xy")) (fresh_bridge small_page true)).1.
Definition pasted : Bridge Buffer.buf := (run_to_idle (TUser 1000 1 two_pastes) small_bridge).1.

Example oversized_update_diverges :
  view_text 1 pasted = Some (many 97 ++ lit "xy" ++ many 98) /\
  slice (c_text (component (doc pasted))) 0 5 = lit "aabbb" /\ microtasks pasted = [].
Proof. split_and!; vm_compute; reflexivity. Qed.

(** Two mounted editors share one patch target: the first one never receives
    a remote change. *)
Definition two_editors : Bridge Buffer.buf :=
  run_session (fresh_bridge page true)
    [TMount 1 (lit "hello"); TMount 2 (lit "hello"); TDocument (OpUpdate (lit "remote"))].

Example second_editor_takes_the_patch : views two_editors = [(1, lit "hello"); (2, lit "remote")].
Proof. vm_compute. reflexivity. Qed.

End EditorDemo.
