(* ===== verification/Int32.v ===== *)
(** The 32-bit operators of the language: [ToInt32], [ToUint32], [^], [&], [>>>]
    and [Math.imul] on integral numbers, which the checksum, the hash and the
    matrix-code sources compute with. *)

From S2P Require Import Prelude.

(** [ToUint32] and [ToInt32] of an integral number. *)
Definition u32 (z : Z) : Z := z mod 4294967296.
Definition i32 (z : Z) : Z := if u32 z <? 2147483648 then u32 z else u32 z - 4294967296.

Definition js_xor (a b : Z) : Z := Z.lxor (i32 a) (i32 b).
Definition js_and (a b : Z) : Z := Z.land (i32 a) (i32 b).
Definition js_or (a b : Z) : Z := Z.lor (i32 a) (i32 b).
Definition js_shl (a n : Z) : Z := i32 (Z.shiftl (i32 a) n).
(** [a >> n] and [a >>> n]. *)
Definition js_shr (a n : Z) : Z := Z.shiftr (i32 a) n.
Definition js_ushr (a n : Z) : Z := Z.shiftr (u32 a) n.
Definition imul (a b : Z) : Z := i32 (a * b).

Lemma u32_range z : 0 <= u32 z < 4294967296.
Proof. apply Z.mod_pos_bound. lia. Qed.

Lemma u32_small z : 0 <= z < 4294967296 -> u32 z = z.
Proof. apply Z.mod_small. Qed.

Lemma u32_mod_eq a k : u32 (a + k * 4294967296) = u32 a.
Proof. apply Z.mod_add. lia. Qed.

Lemma u32_i32 z : u32 (i32 z) = u32 z.
Proof.
  pose proof (u32_range z). unfold i32. destruct (_ <? _).
  - by apply u32_small.
  - replace (u32 z - 4294967296) with (u32 z + -1 * 4294967296) by lia.
    rewrite u32_mod_eq. by apply u32_small.
Qed.

Lemma i32_small z : 0 <= z < 2147483648 -> i32 z = z.
Proof. intros. unfold i32. rewrite u32_small by lia. by zdecide. Qed.

Lemma u32_testbit z i : 0 <= i -> Z.testbit (u32 z) i = if i <? 32 then Z.testbit z i else false.
Proof.
  intros Hi. unfold u32. change 4294967296 with (2 ^ 32).
  destruct (Z.ltb_spec i 32).
  - by rewrite Z.mod_pow2_bits_low by lia.
  - by rewrite Z.mod_pow2_bits_high by lia.
Qed.

(** Bitwise operators act on the unsigned views. *)
Ltac by_u32_bits :=
  apply Z.bits_inj'; intros i Hi;
  rewrite ?Z.lxor_spec, ?Z.land_spec, ?Z.lor_spec, !u32_testbit, ?Z.lxor_spec, ?Z.land_spec, ?Z.lor_spec by done;
  destruct (Z.ltb_spec i 32); try done.

Lemma u32_lxor a b : u32 (Z.lxor a b) = Z.lxor (u32 a) (u32 b).
Proof. by_u32_bits. Qed.

Lemma u32_land a b : u32 (Z.land a b) = Z.land (u32 a) (u32 b).
Proof. by_u32_bits. Qed.

Lemma u32_js_xor a b : u32 (js_xor a b) = Z.lxor (u32 a) (u32 b).
Proof. unfold js_xor. by rewrite u32_lxor, !u32_i32. Qed.

Lemma u32_js_and a b : u32 (js_and a b) = Z.land (u32 a) (u32 b).
Proof. unfold js_and. by rewrite u32_land, !u32_i32. Qed.

Lemma js_ushr_u32 a n : js_ushr (u32 a) n = js_ushr a n.
Proof. unfold js_ushr. by rewrite (u32_small (u32 a)) by apply u32_range. Qed.

(** A mask of at most 31 bits does not see the sign. *)
Lemma js_and_mask a n : 0 <= n <= 31 -> js_and a (2 ^ n - 1) = u32 a mod 2 ^ n.
Proof.
  intros Hn. assert (0 < 2 ^ n <= 2 ^ 31) by (split; [lia | apply Z.pow_le_mono_r; lia]).
  unfold js_and. rewrite (i32_small (2 ^ n - 1)) by (change (2 ^ 31) with 2147483648 in *; lia).
  replace (2 ^ n - 1) with (Z.ones n) by (rewrite Z.ones_equiv; lia).
  rewrite Z.land_ones by lia. unfold i32. destruct (_ <? _); [done |].
  replace (u32 a - 4294967296) with (u32 a + - 2 ^ (32 - n) * 2 ^ n).
  { apply Z.mod_add. lia. }
  rewrite Z.mul_opp_l, <- Z.pow_add_r by lia. replace (32 - n + n) with 32 by lia. lia.
Qed.

Lemma js_ushr_range a n : 0 <= n -> 0 <= js_ushr a n < 4294967296.
Proof.
  intros. pose proof (u32_range a). unfold js_ushr. rewrite Z.shiftr_div_pow2 by done.
  pose proof (Z.pow_pos_nonneg 2 n ltac:(lia) ltac:(lia)).
  split; [apply Z.div_pos; lia | apply Z.div_lt_upper_bound; nia].
Qed.

Lemma i32_range z : -2147483648 <= i32 z < 2147483648.
Proof. pose proof (u32_range z). unfold i32. destruct (Z.ltb_spec (u32 z) 2147483648); lia. Qed.

Lemma lxor_u32_range a b :
  0 <= a < 4294967296 -> 0 <= b < 4294967296 -> 0 <= Z.lxor a b < 4294967296.
Proof.
  intros Ha Hb. rewrite <- (u32_small a), <- (u32_small b), <- u32_lxor by done. apply u32_range.
Qed.
