(* ===== verification/StoredZip.v ===== *)
(** The store-only ZIP writer behind the portable bundle
    ([client/src/lib/stored-zip.ts]): table-driven CRC-32, path screening and
    archive layout, against a bitwise CRC-32 and a reference reader that
    follows the format's central directory. *)

From S2P Require Import Prelude.
From S2P Require Import Bytes.
From S2P Require Import Int32.

(** ** Errors *)

Inductive ZipError :=
| UnsafePath (path : jstring)
| PathTooLong
| TooManyEntries
| BundleTooLarge
| DirectoryTooLarge
| BlobUnreadable (e : exn).

Definition zres (A : Type) : Type := ZipError + A.
#[global] Instance zres_ret : MRet zres := fun A a => inr a.
#[global] Instance zres_bind : MBind zres := fun A B f r =>
  match r with inl e => inl e | inr a => f a end.

Lemma zres_bind_inr {A B} (r : zres A) (f : A -> zres B) b :
  (r ≫= f) = inr b -> exists a, r = inr a /\ f a = inr b.
Proof. destruct r as [e | a]; [done | eauto]. Qed.

(** ** CRC-32 *)

Definition POLYNOMIAL : Z := 3988292384.

Definition crc_bit (crc : Z) : Z :=
  if js_and crc 1 =? 1 then js_xor POLYNOMIAL (js_ushr crc 1) else js_ushr crc 1.

Definition crc_entry (value : Z) : Z := js_ushr (Nat.iter 8 crc_bit value) 0.

Definition CRC_TABLE : list Z := map crc_entry (seqZ 0 256).

Definition crc_step (crc byte : Z) : Z :=
  js_xor (default 0 (at_index CRC_TABLE (js_and (js_xor crc byte) 255))) (js_ushr crc 8).

Definition crc32 (bs : bytes) : Z :=
  js_ushr (js_xor (fold_left crc_step bs 4294967295) 4294967295) 0.

(** The checksum bit by bit, as the polynomial division defines it. *)
Definition shift_bit (c : Z) : Z := Z.lxor (if Z.odd c then POLYNOMIAL else 0) (Z.shiftr c 1).
Definition shift_byte (c b : Z) : Z := Nat.iter 8 shift_bit (Z.lxor c b).
Definition crc32_bitwise (bs : bytes) : Z :=
  Z.lxor (fold_left shift_byte bs 4294967295) 4294967295.

(** ** Archive layout *)

(** [new DataView(new ArrayBuffer(length))] and a little-endian write inside it. *)
Definition block (length : Z) : bytes := replicate (Z.to_nat length) 0.
Definition setUint (n : nat) (offset value : Z) (view : bytes) : bytes :=
  take (Z.to_nat offset) view ++ le_bytes n value ++ drop (Z.to_nat offset + n) view.
Definition setUint16 := setUint 2.
Definition setUint32 := setUint 4.

Definition UTF8_FLAG : Z := 2048.
Definition MAX_U16 : Z := 65535.
Definition MAX_U32 : Z := 4294967295.

Inductive StoredZipSource :=
| BlobSource (arrayBuffer : res bytes)
| ArraySource (data : bytes)
| TextSource (text : jstring).

Record StoredZipEntry := { path : jstring; data : StoredZipSource }.

Definition SLASH : Z := 47.

Definition unsafe_part (part : jstring) : bool :=
  str_eqb part [] || str_eqb part (lit ".") || str_eqb part (lit "..").

Definition safePath (p : jstring) : zres bytes :=
  if str_eqb p [] || bool_decide (head p = Some SLASH) || bool_decide (92 ∈ p)
     || bool_decide (0 ∈ p) || existsb unsafe_part (split_on SLASH p)
  then inl (UnsafePath p)
  else
    let encoded := utf8_encode p in
    if MAX_U16 <? len encoded then inl PathTooLong else inr encoded.

Definition bytesFor (source : StoredZipSource) : zres bytes :=
  match source with
  | TextSource text => inr (utf8_encode text)
  | ArraySource bs => inr bs
  | BlobSource (Ok bs) => inr bs
  | BlobSource (Throw e) => inl (BlobUnreadable e)
  end.

Definition local_header (checksum size nameBytes : Z) : bytes :=
  let view := block 30 in
  let view := setUint32 0 67324752 view in
  let view := setUint16 4 20 view in
  let view := setUint16 6 UTF8_FLAG view in
  let view := setUint16 8 0 view in
  let view := setUint16 10 0 view in
  let view := setUint16 12 33 view in
  let view := setUint32 14 checksum view in
  let view := setUint32 18 size view in
  let view := setUint32 22 size view in
  let view := setUint16 26 nameBytes view in
  setUint16 28 0 view.

Definition directory_header (checksum size nameBytes offset : Z) : bytes :=
  let view := block 46 in
  let view := setUint32 0 33639248 view in
  let view := setUint16 4 20 view in
  let view := setUint16 6 20 view in
  let view := setUint16 8 UTF8_FLAG view in
  let view := setUint16 10 0 view in
  let view := setUint16 12 0 view in
  let view := setUint16 14 33 view in
  let view := setUint32 16 checksum view in
  let view := setUint32 20 size view in
  let view := setUint32 24 size view in
  let view := setUint16 28 nameBytes view in
  let view := setUint16 30 0 view in
  let view := setUint16 32 0 view in
  let view := setUint16 34 0 view in
  let view := setUint16 36 0 view in
  let view := setUint32 38 0 view in
  setUint32 42 offset view.

Definition end_record (entries centralBytes offset : Z) : bytes :=
  let view := block 22 in
  let view := setUint32 0 101010256 view in
  let view := setUint16 4 0 view in
  let view := setUint16 6 0 view in
  let view := setUint16 8 entries view in
  let view := setUint16 10 entries view in
  let view := setUint32 12 centralBytes view in
  let view := setUint32 16 offset view in
  setUint16 20 0 view.

(** The writer's accumulators; a [Blob] is the concatenation of its parts. *)
Record zip_state := {
  output : list bytes; central : list bytes; offset : Z; centralBytes : Z }.

Definition add_entry (st : zip_state) (entry : StoredZipEntry) : zres zip_state :=
  name ← safePath (path entry);
  source ← bytesFor (data entry);
  let size := len source in
  if (MAX_U32 <? size) || (MAX_U32 <? offset st + 30 + len name + size) then inl BundleTooLarge
  else
    let checksum := crc32 source in
    let local := local_header checksum size (len name) in
    let directory := directory_header checksum size (len name) (offset st) in
    inr {| output := output st ++ [local; name; source];
           central := central st ++ [directory; name];
           centralBytes := centralBytes st + (len directory + len name);
           offset := offset st + (len local + len name + size) |}.

Fixpoint add_entries (st : zip_state) (entries : list StoredZipEntry) : zres zip_state :=
  match entries with
  | [] => inr st
  | entry :: rest => st' ← add_entry st entry; add_entries st' rest
  end.

Definition buildStoredZip (entries : list StoredZipEntry) : zres bytes :=
  if MAX_U16 <? len entries then inl TooManyEntries
  else
    st ← add_entries {| output := []; central := []; offset := 0; centralBytes := 0 |} entries;
    if MAX_U32 <? offset st + centralBytes st then inl DirectoryTooLarge
    else
      let end_ := end_record (len entries) (centralBytes st) (offset st) in
      inr (concat (output st ++ central st ++ [end_])).

(** ** The reference reader

    It starts from the end-of-central-directory record, walks the directory and
    checks every local header and checksum against it. *)

Definition get_le (n : nat) (bs : bytes) : option (Z * bytes) :=
  if bool_decide (n <= length bs)%nat then Some (le_value (take n bs), drop n bs) else None.

(** A field that must hold [v]. *)
Definition skip_le (n : nat) (v : Z) (bs : bytes) : option bytes :=
  '(x, bs) ← get_le n bs; if x =? v then Some bs else None.

Definition get_bytes (n : Z) (bs : bytes) : option (bytes * bytes) :=
  if (0 <=? n) && (n <=? len bs) then Some (take (Z.to_nat n) bs, drop (Z.to_nat n) bs) else None.

Definition read_local (archive : bytes) (offset checksum size : Z) (name : bytes) : option bytes :=
  if len archive <? offset then None
  else
    bs ← skip_le 4 67324752 (drop (Z.to_nat offset) archive);
    bs ← skip_le 2 20 bs; bs ← skip_le 2 UTF8_FLAG bs; bs ← skip_le 2 0 bs;
    '(_, bs) ← get_le 2 bs; '(_, bs) ← get_le 2 bs;
    bs ← skip_le 4 checksum bs; bs ← skip_le 4 size bs; bs ← skip_le 4 size bs;
    bs ← skip_le 2 (len name) bs; bs ← skip_le 2 0 bs;
    '(local_name, bs) ← get_bytes (len name) bs;
    '(data, _) ← get_bytes size bs;
    if str_eqb local_name name && (crc32_bitwise data =? checksum) then Some data else None.

Definition read_directory_entry (archive bs : bytes) : option ((bytes * bytes) * bytes) :=
  bs ← skip_le 4 33639248 bs;
  bs ← skip_le 2 20 bs; bs ← skip_le 2 20 bs; bs ← skip_le 2 UTF8_FLAG bs; bs ← skip_le 2 0 bs;
  '(_, bs) ← get_le 2 bs; '(_, bs) ← get_le 2 bs;
  '(checksum, bs) ← get_le 4 bs;
  '(size, bs) ← get_le 4 bs; bs ← skip_le 4 size bs;
  '(nameBytes, bs) ← get_le 2 bs;
  bs ← skip_le 2 0 bs; bs ← skip_le 2 0 bs; bs ← skip_le 2 0 bs; bs ← skip_le 2 0 bs;
  bs ← skip_le 4 0 bs;
  '(offset, bs) ← get_le 4 bs;
  '(name, bs) ← get_bytes nameBytes bs;
  data ← read_local archive offset checksum size name;
  Some ((name, data), bs).

Fixpoint read_directory (n : nat) (archive bs : bytes) : option (list (bytes * bytes)) :=
  match n with
  | O => if str_eqb bs [] then Some [] else None
  | S m =>
      '(file, bs) ← read_directory_entry archive bs;
      files ← read_directory m archive bs;
      Some (file :: files)
  end.

Definition readZip (archive : bytes) : option (list (bytes * bytes)) :=
  if len archive <? 22 then None
  else
    bs ← skip_le 4 101010256 (drop (length archive - 22) archive);
    bs ← skip_le 2 0 bs; bs ← skip_le 2 0 bs;
    '(n, bs) ← get_le 2 bs; bs ← skip_le 2 n bs;
    '(size, bs) ← get_le 4 bs; '(offset, bs) ← get_le 4 bs;
    bs ← skip_le 2 0 bs;
    if str_eqb bs [] && (offset + size =? len archive - 22)
    then read_directory (Z.to_nat n) archive (slice archive offset (offset + size))
    else None.

(** ** The checksum *)

Lemma shift_bit_range c : 0 <= c < 4294967296 -> 0 <= shift_bit c < 4294967296.
Proof.
  intros Hc. apply lxor_u32_range; [by destruct (Z.odd c) |].
  rewrite <- (u32_small c) by done. by apply js_ushr_range.
Qed.

Lemma crc_bit_u32 c : u32 (crc_bit c) = shift_bit (u32 c).
Proof.
  unfold crc_bit, shift_bit. change (js_and c 1) with (js_and c (2 ^ 1 - 1)).
  rewrite js_and_mask by lia. change (2 ^ 1) with 2.
  assert (Z.odd (u32 c) = (u32 c mod 2 =? 1)) as -> by (by rewrite Zmod_odd; destruct (Z.odd _)).
  assert (u32 (js_ushr c 1) = Z.shiftr (u32 c) 1) as Hs by (apply u32_small, js_ushr_range; lia).
  destruct (_ =? 1); [by rewrite u32_js_xor, Hs | by rewrite Hs].
Qed.

Lemma crc_entry_bitwise v : 0 <= v < 4294967296 -> crc_entry v = Nat.iter 8 shift_bit v.
Proof.
  intros Hv. unfold crc_entry, js_ushr. rewrite Z.shiftr_0_r. cbn [Nat.iter nat_rect].
  by rewrite !crc_bit_u32, u32_small.
Qed.

(** The shift register is linear, and a zero low byte just moves down. *)
Lemma shift_bit_lxor a b : shift_bit (Z.lxor a b) = Z.lxor (shift_bit a) (shift_bit b).
Proof.
  unfold shift_bit. rewrite Z.shiftr_lxor, <- !Z.bit0_odd, Z.lxor_spec.
  destruct (Z.testbit a 0), (Z.testbit b 0); cbn [xorb];
    apply Z.bits_inj'; intros i _; rewrite !Z.lxor_spec, ?Z.bits_0;
    destruct (Z.testbit POLYNOMIAL i), (Z.testbit (Z.shiftr a 1) i), (Z.testbit (Z.shiftr b 1) i); done.
Qed.

Lemma shift_bit_shiftl c n : 0 < n -> shift_bit (Z.shiftl c n) = Z.shiftl c (n - 1).
Proof.
  intros Hn. unfold shift_bit. rewrite <- Z.bit0_odd, Z.shiftl_spec_low by done.
  rewrite Z.lxor_0_l, Z.shiftr_shiftl_l by lia. done.
Qed.

Lemma iter_shift_lxor n a b :
  Nat.iter n shift_bit (Z.lxor a b) = Z.lxor (Nat.iter n shift_bit a) (Nat.iter n shift_bit b).
Proof. induction n as [|n IH]; [done |]. cbn. unfold Nat.iter in IH. by rewrite IH, shift_bit_lxor. Qed.

Lemma low_and_high c n : 0 <= n -> c = Z.lxor (c mod 2 ^ n) (Z.shiftl (Z.shiftr c n) n).
Proof.
  intros Hn. apply Z.bits_inj'. intros i Hi. rewrite Z.lxor_spec.
  destruct (Z.lt_ge_cases i n).
  - rewrite Z.mod_pow2_bits_low, Z.shiftl_spec_low by lia. by destruct (Z.testbit c i).
  - rewrite Z.mod_pow2_bits_high, Z.shiftl_spec, Z.shiftr_spec by lia.
    by replace (i - n + n) with i by lia.
Qed.

Lemma shift_byte_table c :
  Nat.iter 8 shift_bit c = Z.lxor (Nat.iter 8 shift_bit (c mod 256)) (Z.shiftr c 8).
Proof.
  rewrite (low_and_high c 8) at 1 by lia. change (2 ^ 8) with 256.
  rewrite iter_shift_lxor. f_equal. cbn [Nat.iter nat_rect].
  by rewrite !shift_bit_shiftl, Z.shiftl_0_r.
Qed.

Lemma table_entry i : 0 <= i < 256 -> default 0 (at_index CRC_TABLE i) = crc_entry i.
Proof.
  intros Hi. rewrite at_index_lookup by lia. unfold CRC_TABLE.
  rewrite (list_lookup_fmap crc_entry), lookup_seqZ_lt by lia. simpl. f_equal. lia.
Qed.

Lemma crc_step_bitwise c b :
  is_byte b -> u32 (crc_step c b) = shift_byte (u32 c) b.
Proof.
  intros Hb. unfold is_byte in Hb. unfold crc_step, shift_byte.
  change (js_and (js_xor c b) 255) with (js_and (js_xor c b) (2 ^ 8 - 1)).
  rewrite js_and_mask by lia. change (2 ^ 8) with 256.
  rewrite (u32_js_xor c b), (u32_small b) by lia.
  pose proof (Z.mod_pos_bound (Z.lxor (u32 c) b) 256).
  rewrite table_entry, crc_entry_bitwise by lia.
  rewrite u32_js_xor, (u32_small (js_ushr _ _)) by (apply js_ushr_range; lia).
  rewrite (shift_byte_table (Z.lxor (u32 c) b)). f_equal.
  - apply u32_small. cbn [Nat.iter nat_rect]. do 8 apply shift_bit_range. lia.
  - unfold js_ushr. rewrite Z.shiftr_lxor, (Z.shiftr_div_pow2 b) by lia.
    change (2 ^ 8) with 256. by rewrite (Z.div_small b), Z.lxor_0_r by lia.
Qed.

(** Two loops over the same list stay related when their bodies are. *)
Lemma fold_left_simulation {A B X : Type} (ok : X -> Prop) (view : A -> B)
    (f : A -> X -> A) (g : B -> X -> B) l a :
  (forall c x, ok x -> view (f c x) = g (view c) x) -> Forall ok l ->
  view (fold_left f l a) = fold_left g l (view a).
Proof.
  intros Hfg Hl. revert a. induction Hl as [|x l Hx _ IH]; intros a; [done |]. simpl.
  by rewrite IH, Hfg.
Qed.

Lemma fold_crc_step bs c :
  Forall is_byte bs -> u32 (fold_left crc_step bs c) = fold_left shift_byte bs (u32 c).
Proof. apply fold_left_simulation, crc_step_bitwise. Qed.

Lemma crc_finish bs c m :
  Forall is_byte bs -> 0 <= c < 4294967296 -> 0 <= m < 4294967296 ->
  js_ushr (js_xor (fold_left crc_step bs c) m) 0 = Z.lxor (fold_left shift_byte bs c) m.
Proof.
  intros Hb Hc Hm. unfold js_ushr. rewrite Z.shiftr_0_r, u32_js_xor, fold_crc_step by done.
  by rewrite (u32_small c), (u32_small m).
Qed.

(** The table-driven checksum of the source is the bitwise CRC-32 of the ZIP
    format, for every byte string: the table lookups, the signed 32-bit
    intermediate values and the final conversion to an unsigned number change
    nothing. *)
Lemma crc32_is_bitwise bs : Forall is_byte bs -> crc32 bs = crc32_bitwise bs.
Proof. intros Hb. apply crc_finish; [done | lia | lia]. Qed.

(** ** The headers, field by field *)

Lemma local_header_layout checksum size n :
  local_header checksum size n =
  le_bytes 4 67324752 ++ le_bytes 2 20 ++ le_bytes 2 UTF8_FLAG ++ le_bytes 2 0 ++ le_bytes 2 0 ++
  le_bytes 2 33 ++ le_bytes 4 checksum ++ le_bytes 4 size ++ le_bytes 4 size ++ le_bytes 2 n ++
  le_bytes 2 0.
Proof. reflexivity. Qed.

Lemma directory_header_layout checksum size n off :
  directory_header checksum size n off =
  le_bytes 4 33639248 ++ le_bytes 2 20 ++ le_bytes 2 20 ++ le_bytes 2 UTF8_FLAG ++ le_bytes 2 0 ++
  le_bytes 2 0 ++ le_bytes 2 33 ++ le_bytes 4 checksum ++ le_bytes 4 size ++ le_bytes 4 size ++
  le_bytes 2 n ++ le_bytes 2 0 ++ le_bytes 2 0 ++ le_bytes 2 0 ++ le_bytes 2 0 ++ le_bytes 4 0 ++
  le_bytes 4 off.
Proof. reflexivity. Qed.

Lemma end_record_layout n size off :
  end_record n size off =
  le_bytes 4 101010256 ++ le_bytes 2 0 ++ le_bytes 2 0 ++ le_bytes 2 n ++ le_bytes 2 n ++
  le_bytes 4 size ++ le_bytes 4 off ++ le_bytes 2 0.
Proof. reflexivity. Qed.

Lemma len_local_header checksum size n : len (local_header checksum size n) = 30.
Proof. done. Qed.

Lemma len_directory_header checksum size n off : len (directory_header checksum size n off) = 46.
Proof. done. Qed.

Lemma get_le_app n v r :
  0 <= v < 256 ^ Z.of_nat n -> get_le n (le_bytes n v ++ r) = Some (v, r).
Proof.
  intros Hv. unfold get_le. rewrite bool_decide_true.
  - rewrite take_app_length', drop_app_length' by (by rewrite length_le_bytes).
    by rewrite le_value_le_bytes.
  - rewrite length_app, length_le_bytes. lia.
Qed.

Lemma skip_le_app n v r : 0 <= v < 256 ^ Z.of_nat n -> skip_le n v (le_bytes n v ++ r) = Some r.
Proof. intros Hv. unfold skip_le. rewrite get_le_app by done. cbn. by rewrite Z.eqb_refl. Qed.

Lemma skip_le_end n v : 0 <= v < 256 ^ Z.of_nat n -> skip_le n v (le_bytes n v) = Some [].
Proof. intros. rewrite <- (app_nil_r (le_bytes n v)). by apply skip_le_app. Qed.

Lemma get_bytes_app n (a r : bytes) : n = len a -> get_bytes n (a ++ r) = Some (a, r).
Proof.
  intros ->. unfold get_bytes.
  replace ((0 <=? len a) && (len a <=? len (a ++ r))) with true
    by (symmetry; rewrite andb_true_iff, !Z.leb_le; len_lia).
  unfold len. rewrite Nat2Z.id, take_app_length, drop_app_length. done.
Qed.

Ltac field_bound := first [ done | change (256 ^ Z.of_nat 4) with 4294967296; lia
  | change (256 ^ Z.of_nat 2) with 65536; lia ].

Ltac read_fields :=
  repeat (first [ rewrite skip_le_app by field_bound | rewrite get_le_app by field_bound
                | rewrite get_bytes_app by done | rewrite skip_le_end by field_bound ];
          cbn [mbind option_bind]).

(** ** Archives *)

(** What an entry contributes: its encoded path and its data. *)
Definition file : Type := (bytes * bytes).

Definition provides (e : StoredZipEntry) (f : file) : Prop :=
  safePath (path e) = inr f.1 /\ bytesFor (data e) = inr f.2.

Definition local_part (f : file) : bytes :=
  local_header (crc32 f.2) (len f.2) (len f.1) ++ f.1 ++ f.2.

Definition local_parts (fs : list file) : bytes := concat (map local_part fs).

Fixpoint directory_parts (off : Z) (fs : list file) : bytes :=
  match fs with
  | [] => []
  | f :: rest =>
      (directory_header (crc32 f.2) (len f.2) (len f.1) off ++ f.1) ++
      directory_parts (off + len (local_part f)) rest
  end.

Definition fits (f : file) : Prop :=
  Forall is_byte f.2 /\ len f.1 <= MAX_U16 /\ len f.2 <= MAX_U32.

Lemma len_local_part f : len (local_part f) = 30 + len f.1 + len f.2.
Proof. unfold local_part. rewrite !len_app, len_local_header. lia. Qed.

Lemma local_parts_cons f fs : local_parts (f :: fs) = local_part f ++ local_parts fs.
Proof. done. Qed.

Lemma crc32_range bs : 0 <= crc32 bs < 4294967296.
Proof. unfold crc32, js_ushr. rewrite Z.shiftr_0_r. apply u32_range. Qed.

Lemma read_local_part pre f post :
  fits f -> read_local (pre ++ local_part f ++ post) (len pre) (crc32 f.2) (len f.2) f.1 = Some f.2.
Proof.
  intros (Hb & Hn & Hs). unfold MAX_U16, MAX_U32 in *.
  pose proof (len_nonneg f.1). pose proof (len_nonneg f.2). pose proof (crc32_range f.2).
  unfold read_local. rewrite len_app.
  replace (len pre + len (local_part f ++ post) <? len pre) with false
    by (symmetry; apply Z.ltb_ge; pose proof (len_nonneg (local_part f ++ post)); lia).
  replace (Z.to_nat (len pre)) with (length pre) by (unfold len; lia). rewrite drop_app_length.
  unfold local_part. rewrite local_header_layout, <- !app_assoc. read_fields.
  rewrite str_eqb_refl, crc32_is_bitwise, Z.eqb_refl by done. done.
Qed.

Lemma read_directory_part pre f post rest :
  fits f -> len pre <= MAX_U32 ->
  read_directory_entry (pre ++ local_part f ++ post)
    ((directory_header (crc32 f.2) (len f.2) (len f.1) (len pre) ++ f.1) ++ rest) = Some (f, rest).
Proof.
  intros Hf Hp. destruct (Hf) as (Hb & Hn & Hs). unfold MAX_U16, MAX_U32 in *.
  pose proof (len_nonneg f.1). pose proof (len_nonneg f.2). pose proof (len_nonneg pre).
  pose proof (crc32_range f.2).
  unfold read_directory_entry. rewrite directory_header_layout, <- !app_assoc. read_fields.
  rewrite read_local_part by done. cbn. by destruct f.
Qed.

Lemma read_directory_parts fs pre post :
  Forall fits fs -> len pre + len (local_parts fs) <= MAX_U32 ->
  read_directory (length fs) (pre ++ local_parts fs ++ post) (directory_parts (len pre) fs) = Some fs.
Proof.
  intros Hf. revert pre. induction Hf as [|f fs Hf _ IH]; intros pre Hp; [done |].
  rewrite local_parts_cons in *. rewrite len_app in Hp.
  pose proof (len_nonneg (local_part f)). pose proof (len_nonneg (local_parts fs)).
  cbn [length read_directory directory_parts]. rewrite <- app_assoc.
  rewrite read_directory_part by (done || lia). cbn [mbind option_bind].
  rewrite (app_assoc pre (local_part f)), <- len_app.
  rewrite IH by (rewrite len_app; lia). done.
Qed.

(** ** The writer *)

Definition source_bytes_ok (e : StoredZipEntry) : Prop :=
  forall bs, bytesFor (data e) = inr bs -> Forall is_byte bs.

Lemma safePath_inr p n : safePath p = inr n -> n = utf8_encode p /\ len n <= MAX_U16 /\
  p <> [] /\ head p <> Some SLASH /\ (92 ∉ p) /\ (0 ∉ p) /\
  Forall (fun part => part <> [] /\ part <> lit "." /\ part <> lit "..") (split_on SLASH p).
Proof.
  unfold safePath. destruct (_ || _) eqn:E; [done |].
  destruct (Z.ltb_spec MAX_U16 (len (utf8_encode p))); [done |]. intros [= <-].
  apply orb_false_iff in E as [E Hparts]. rewrite !orb_false_iff, !bool_decide_eq_false in E.
  destruct E as [[[E0 E1] E2] E3]. split_and!; try done.
  - intros ->. by rewrite str_eqb_refl in E0.
  - apply Forall_forall. intros part Hin. apply list_elem_of_In in Hin.
    assert (unsafe_part part = false) as Hp.
    { destruct (unsafe_part part) eqn:Eu; [|done]. enough (existsb unsafe_part (split_on SLASH p) = true) by congruence.
      apply existsb_exists. eauto. }
    unfold unsafe_part in Hp. rewrite !orb_false_iff in Hp. destruct Hp as [[H1 H2] H3].
    split_and!; intros ->; by rewrite str_eqb_refl in *.
Qed.

Lemma add_entry_inr st e st' :
  source_bytes_ok e -> add_entry st e = inr st' ->
  exists f, provides e f /\ fits f /\ offset st + len (local_part f) <= MAX_U32 /\
    concat (output st') = concat (output st) ++ local_part f /\
    concat (central st') = concat (central st) ++ directory_parts (offset st) [f] /\
    offset st' = offset st + len (local_part f) /\
    centralBytes st' = centralBytes st + len (directory_parts (offset st) [f]).
Proof.
  intros Hb H. unfold add_entry in H.
  apply zres_bind_inr in H as (name & Hname & H). apply zres_bind_inr in H as (source & Hsource & H).
  destruct (_ || _) eqn:E; [done |]. injection H as <-. reflect_bools. cbn [output central offset centralBytes].
  exists (name, source). unfold provides, fits.
  apply safePath_inr in Hname as Hn. rewrite len_local_part, !concat_app. cbn [fst snd concat directory_parts].
  rewrite !app_nil_r, !len_app, len_local_header, len_directory_header.
  split_and!; try done; try tauto; try lia; by apply Hb.
Qed.

Lemma add_entries_inr entries st st' :
  Forall source_bytes_ok entries -> add_entries st entries = inr st' -> offset st <= MAX_U32 ->
  exists fs, Forall2 provides entries fs /\ Forall fits fs /\ offset st' <= MAX_U32 /\
    concat (output st') = concat (output st) ++ local_parts fs /\
    concat (central st') = concat (central st) ++ directory_parts (offset st) fs /\
    offset st' = offset st + len (local_parts fs) /\
    centralBytes st' = centralBytes st + len (directory_parts (offset st) fs).
Proof.
  intros Hb. revert st. induction Hb as [|e entries He _ IH]; intros st H Ho.
  - injection H as <-. exists []. cbn. rewrite !app_nil_r. split_and!; try done; len_lia.
  - cbn [add_entries] in H. apply zres_bind_inr in H as (st1 & H1 & H).
    apply add_entry_inr in H1 as (f & Hp & Hf & Hm & Ho1 & Hc1 & Hoff & Hcb); [|done].
    apply IH in H as (fs & Hps & Hfs & Hm' & Ho2 & Hc2 & Hoff2 & Hcb2); [|lia].
    exists (f :: fs). rewrite local_parts_cons, len_app.
    rewrite Ho2, Ho1, Hc2, Hc1, Hoff2, Hcb2, Hcb, Hoff. cbn [directory_parts].
    rewrite !len_app, app_nil_r, <- !app_assoc, ?len_app, ?len_nil.
    split_and!; [by constructor | by constructor | lia | done | done | lia | lia].
Qed.

(** The header of the whole archive. *)
Lemma read_archive (l d : bytes) (n : nat) fs :
  read_directory n (l ++ d ++ end_record (Z.of_nat n) (len d) (len l)) d = Some fs ->
  Z.of_nat n <= MAX_U16 -> len l + len d <= MAX_U32 ->
  readZip (l ++ d ++ end_record (Z.of_nat n) (len d) (len l)) = Some fs.
Proof.
  intros Hr Hn Hs. unfold MAX_U16, MAX_U32 in *.
  pose proof (len_nonneg l). pose proof (len_nonneg d).
  set (tail := end_record _ _ _) in *. assert (length tail = 22%nat) as Ht by done.
  set (archive := l ++ d ++ tail) in *.
  assert (len archive = len l + len d + 22) as Ha
    by (unfold archive; rewrite !len_app; unfold len at 3; rewrite Ht; lia).
  unfold readZip. replace (len archive <? 22) with false by (symmetry; apply Z.ltb_ge; lia).
  replace (drop (length archive - 22) archive) with tail.
  - unfold tail at 1. rewrite end_record_layout, <- ?app_assoc. read_fields.
    rewrite str_eqb_refl, Nat2Z.id.
    replace (len l + len d =? len archive - 22) with true by (symmetry; apply Z.eqb_eq; lia).
    cbn [andb]. replace (slice archive (len l) (len l + len d)) with d; [done |].
    rewrite slice_in by lia. unfold archive.
    replace (Z.to_nat (len l)) with (length l) by (unfold len; lia).
    replace (Z.to_nat (len l + len d - len l)) with (length d) by (unfold len; lia).
    by rewrite drop_app_length, take_app_length.
  - unfold archive. rewrite app_assoc. rewrite (length_app (l ++ d)), Ht.
    replace (length (l ++ d) + 22 - 22)%nat with (length (l ++ d)) by lia. by rewrite drop_app_length.
Qed.

(** The entry as a reader finds it, and the paths the writer lets through. *)
Definition contents (e : StoredZipEntry) : bytes * bytes :=
  (utf8_encode (path e), match bytesFor (data e) with inr bs => bs | inl _ => [] end).

Definition relative_path (p : jstring) : Prop :=
  p <> [] /\ head p <> Some SLASH /\ (92 ∉ p) /\ (0 ∉ p) /\
  Forall (fun part => part <> [] /\ part <> lit "." /\ part <> lit "..") (split_on SLASH p).

(** C23. An archive the writer returns is read back, by the reference reader of
    the format, to exactly the entries it was given, in order: every path
    encoded in UTF-8, every byte of the data, the sizes, offsets and checksums
    agreeing between the directory and the local headers. Every accepted path
    is a relative one without empty, dot or dot-dot parts, backslashes or
    zeros. *)
Theorem zip_roundtrip entries archive :
  Forall source_bytes_ok entries -> buildStoredZip entries = inr archive ->
  readZip archive = Some (map contents entries) /\
  Forall (fun e => relative_path (path e)) entries.
Proof.
  intros Hb H. unfold buildStoredZip in H. destruct (Z.ltb_spec MAX_U16 (len entries)); [done |].
  apply zres_bind_inr in H as (st & Hst & H).
  apply add_entries_inr in Hst as (fs & Hp & Hf & Ho & Hout & Hcen & Hoff & Hcb); [|done..].
  destruct (Z.ltb_spec MAX_U32 (offset st + centralBytes st)); [done |].
  apply (f_equal (fun r => match r with inr x => x | inl _ => [] end)) in H. subst archive.
  cbn [output central offset centralBytes concat app] in *. split.
  - replace (map contents entries) with fs.
    + rewrite !concat_app. cbn [concat]. rewrite app_nil_r, Hout, Hcen, Hoff, Hcb.
      rewrite !Z.add_0_l in *. pose proof (Forall2_length _ _ _ Hp) as Hl.
      unfold len at 1. rewrite Hl. apply read_archive; [|unfold len in *; lia | lia].
      apply (read_directory_parts fs []); [done | rewrite len_nil; lia].
    + clear -Hp. induction Hp as [|e [n d] entries fs [Hn Hd] _ IH]; [done |]. cbn [map].
      rewrite <- IH. unfold contents. rewrite Hd. by apply safePath_inr in Hn as [<- _].
  - clear -Hp. induction Hp as [|e f entries fs [Hn _] _ IH]; constructor; [|done].
    apply safePath_inr in Hn. unfold relative_path. tauto.
Qed.

Definition demo_entries : list StoredZipEntry :=
  [ {| path := lit "notes/readme.md"; data := TextSource (lit "# Marks") |};
    {| path := lit "a.bin"; data := BlobSource (Ok [0; 255; 7]) |};
    {| path := lit "empty"; data := ArraySource [] |} ].

Lemma zip_roundtrip_witness :
  match buildStoredZip demo_entries with
  | inr archive => readZip archive = Some [(lit "notes/readme.md", lit "# Marks");
      (lit "a.bin", [0; 255; 7]); (lit "empty", [])]
  | inl _ => False
  end.
Proof.
  assert (Forall source_bytes_ok demo_entries) as Hb.
  { repeat constructor; intros bs Hbs; injection Hbs as <-; repeat constructor; done. }
  assert (match buildStoredZip demo_entries with inr _ => true | inl _ => false end = true) as Ht
    by (vm_compute; reflexivity).
  destruct (buildStoredZip demo_entries) as [e | archive] eqn:E; [done |].
  exact (proj1 (zip_roundtrip demo_entries archive Hb E)).
Defined.

Example unsafe_paths_refused :
  map (fun p => match safePath (lit p) with inl (UnsafePath _) => true | _ => false end)
    ["/etc/passwd"; "a/../b"; "a//b"; ""; "./a"; "a/"; "ok/name"]
  = [true; true; true; true; true; true; false].
Proof. vm_compute. reflexivity. Qed.

(** The standard check value of CRC-32. *)
Example crc32_check_value : crc32 (lit "123456789") = 3421780262.
Proof. vm_compute. reflexivity. Qed.

(** ** What the checksum detects *)

Lemma shift_bit_zero c : 0 <= c < 4294967296 -> shift_bit c = 0 -> c = 0.
Proof.
  intros Hc. unfold shift_bit. rewrite Z.lxor_eq_0_iff. intros H.
  assert (0 <= Z.shiftr c 1 < 2147483648) as Hs.
  { rewrite Z.shiftr_div_pow2 by lia. change (2 ^ 1) with 2.
    split; [apply Z.div_pos | apply Z.div_lt_upper_bound]; lia. }
  destruct (Z.odd c) eqn:E; unfold POLYNOMIAL in H; [lia |].
  rewrite Z.shiftr_div_pow2 in H by lia. change (2 ^ 1) with 2 in H.
  rewrite (Z.div_mod c 2), <- H by lia. by rewrite Zmod_odd, E.
Qed.

(** Iteration and loops keep invariants and keep different values apart. *)
Section Loops.
Context {A X : Type} (I : A -> Prop) (ok : X -> Prop).

Lemma iter_keeps n (f : A -> A) a : (forall c, I c -> I (f c)) -> I a -> I (Nat.iter n f a).
Proof. intros Hf Ha. induction n; simpl; auto. Qed.

Lemma iter_reaches n (f : A -> A) z a :
  (forall c, I c -> I (f c)) -> (forall c, I c -> f c = z -> c = z) ->
  I a -> Nat.iter n f a = z -> a = z.
Proof.
  intros Hf Hz Ha. induction n as [|n IH]; [done |]. simpl. intros H. apply IH, Hz; [|done].
  by apply iter_keeps.
Qed.

Lemma fold_keeps (f : A -> X -> A) l a :
  (forall c x, I c -> ok x -> I (f c x)) -> Forall ok l -> I a -> I (fold_left f l a).
Proof. intros Hf Hl. revert a. induction Hl; intros a Ha; simpl; auto. Qed.

Lemma fold_apart (f : A -> X -> A) l a b :
  (forall c x, I c -> ok x -> I (f c x)) ->
  (forall c d x, I c -> I d -> ok x -> c <> d -> f c x <> f d x) ->
  Forall ok l -> I a -> I b -> a <> b -> fold_left f l a <> fold_left f l b.
Proof. intros Hk Hf Hl. revert a b. induction Hl; intros a b Ha Hb Hne; simpl; auto. Qed.

Lemma fold_change_apart (f : A -> X -> A) l x y r a :
  (forall c x, I c -> ok x -> I (f c x)) ->
  (forall c d x, I c -> I d -> ok x -> c <> d -> f c x <> f d x) ->
  (forall c, I c -> f c x <> f c y) ->
  Forall ok (l ++ x :: r) -> ok y -> I a ->
  fold_left f (l ++ x :: r) a <> fold_left f (l ++ y :: r) a.
Proof.
  intros Hk Hf Hxy Hl Hy Ha.
  apply Forall_app in Hl as [Hl [Hx Hr]%Forall_cons].
  rewrite !fold_left_app. simpl. pose proof (fold_keeps f l a Hk Hl Ha).
  apply fold_apart; auto.
Qed.
End Loops.

Definition word (c : Z) : Prop := 0 <= c < 4294967296.

Lemma shift_byte_eq c x : shift_byte c x = Nat.iter 8 shift_bit (Z.lxor c x).
Proof. reflexivity. Qed.

Lemma iter_shift_zero n c : word c -> Nat.iter n shift_bit c = 0 -> c = 0.
Proof. apply iter_reaches; [apply shift_bit_range | apply shift_bit_zero]. Qed.

Lemma shift_byte_apart c d x y :
  word c -> word d -> is_byte x -> is_byte y ->
  Z.lxor c x <> Z.lxor d y -> shift_byte c x <> shift_byte d y.
Proof.
  unfold word. intros Hc Hd Hx Hy Hne Heq. unfold is_byte in *. apply Hne, Z.lxor_eq_0_iff.
  rewrite !shift_byte_eq in Heq. apply Z.lxor_eq_0_iff in Heq. rewrite <- iter_shift_lxor in Heq.
  apply iter_shift_zero in Heq; [done |]. repeat apply lxor_u32_range; lia.
Qed.

Lemma shift_byte_range c x : word c -> is_byte x -> word (shift_byte c x).
Proof.
  intros Hc Hx. unfold is_byte in Hx. rewrite shift_byte_eq. apply iter_keeps; [apply shift_bit_range |].
  apply lxor_u32_range; [done | lia].
Qed.

Lemma lxor_inj_l c x y : Z.lxor c x = Z.lxor c y -> x = y.
Proof.
  intros E%(f_equal (Z.lxor c)). by rewrite <- !Z.lxor_assoc, !Z.lxor_nilpotent, !Z.lxor_0_l in E.
Qed.

Lemma lxor_inj_r x c d : Z.lxor c x = Z.lxor d x -> c = d.
Proof. rewrite !(Z.lxor_comm _ x). apply lxor_inj_l. Qed.

(** The checksum tells every single-byte change apart: two byte strings of
    the same length that differ in exactly one byte have different checksums. *)
Theorem crc32_detects_byte a x y b :
  Forall is_byte (a ++ x :: b) -> is_byte y -> x <> y ->
  crc32 (a ++ x :: b) <> crc32 (a ++ y :: b).
Proof.
  intros Hb Hy Hne. assert (Forall is_byte (a ++ y :: b)) as Hb'
    by (apply Forall_app in Hb as [? [_ ?]%Forall_cons]; apply Forall_app; auto).
  rewrite !crc32_is_bitwise by done. intros Heq%lxor_inj_r. revert Heq.
  apply (fold_change_apart word is_byte); auto using shift_byte_range; [| |done].
  - intros c d z Hc Hd Hz Hcd. apply shift_byte_apart; try done. by intros ?%lxor_inj_r.
  - intros c Hc. apply Forall_app in Hb as [_ [Hx _]%Forall_cons].
    apply shift_byte_apart; try done. by intros ?%lxor_inj_l.
Qed.

Lemma crc32_detects_byte_witness : crc32 [77; 0; 107] <> crc32 [77; 128; 107].
Proof.
  apply (crc32_detects_byte [77] 0 128 [107]); [repeat constructor; done | done | done].
Defined.
