(* ===== verification/Qr.v ===== *)
(** The matrix code of a pairing link ([client/src/lib/qr.ts]): the field tables,
    the error correction, the bits and their places, against a reference reader
    that follows the standard's walk over the modules and checks every
    syndrome. *)

From S2P Require Import Prelude.
From S2P Require Import Bytes.
From S2P Require Import Int32.
From Stdlib Require Import Btauto.

(** A loop over given indices that mutates a state. *)
Definition for_each {A S : Type} (l : list A) (body : A -> S -> S) (s : S) : S :=
  fold_left (fun s a => body a s) l s.

(** ** The field *)

Definition read (table : list Z) (i : Z) : Z := default 0 (at_index table i).
Definition write (table : list Z) (i value : Z) : list Z := <[Z.to_nat i := value mod 256]> table.

Definition next_power (value : Z) : Z :=
  js_xor (js_shl value 1) (if js_and value 128 =? 0 then 0 else 285).

(** The two tables and [value], filled by the module's loop. *)
Definition TABLES : list Z * list Z * Z :=
  for_each (seqZ 0 255)
    (fun i '(exps, logs, value) => (write exps i value, write logs value i, next_power value))
    (replicate 256 0, replicate 256 0, 1).
Definition EXP : list Z := TABLES.1.1.
Definition LOG : list Z := TABLES.1.2.

Definition gfMul (a b : Z) : Z :=
  if negb (a =? 0) && negb (b =? 0) then read EXP ((read LOG a + read LOG b) mod 255) else 0.

Definition rsGenerator (degree : Z) : list Z :=
  for_each (seqZ 0 degree)
    (fun i poly => for_each (rev (seqZ 1 (i + 1)))
      (fun j poly => write poly j (js_xor (read poly j) (gfMul (read poly (j - 1)) (read EXP i)))) poly)
    (write (replicate (Z.to_nat (degree + 1)) 0) 0 1).

(** [ecc.copyWithin(0, 1)] *)
Definition copyWithin_0_1 (l : list Z) : list Z := drop 1 l ++ drop (length l - 1) l.

Definition rs_step (generator : list Z) (degree : Z) (ecc : list Z) (byte : Z) : list Z :=
  let factor := js_xor byte (read ecc 0) in
  let ecc := write (copyWithin_0_1 ecc) (degree - 1) 0 in
  if factor =? 0 then ecc
  else for_each (seqZ 0 degree)
    (fun i ecc => write ecc i (js_xor (read ecc i) (gfMul (read generator (i + 1)) factor))) ecc.

Definition rsEncode (data : list Z) (degree : Z) : list Z :=
  fold_left (rs_step (rsGenerator degree) degree) data (replicate (Z.to_nat degree) 0).

(** ** Versions and bits *)

Record version := Version { number : Z; size : Z; data_bytes : Z; ecc_bytes : Z; remainder_bits : Z }.

Definition VERSIONS : list version :=
  [Version 1 21 16 10 0; Version 2 25 28 16 7; Version 3 29 44 26 7;
   Version 4 33 64 36 7; Version 5 37 86 48 7; Version 6 41 108 64 7].

Definition chooseVersion (payload : Z) : res version :=
  match List.find (fun v => payload + 2 <=? data_bytes v) VERSIONS with
  | Some v => Ok v
  | None => type_error "pairing URL is too long for the QR renderer"
  end.

Definition pushBits (bits : list Z) (value width : Z) : list Z :=
  bits ++ map (fun i => js_and (js_shr value i) 1) (rev (seqZ 0 width)).

(** [while (bits.length % 8) bits.push(0)] *)
Fixpoint fill_byte (fuel : nat) (bits : list Z) : list Z :=
  match fuel with
  | O => bits
  | S fuel => if len bits mod 8 =? 0 then bits else fill_byte fuel (bits ++ [0])
  end.

Definition byte_at (bits : list Z) (i : Z) : Z :=
  for_each (seqZ 0 8) (fun b value => js_or (js_shl value 1) (read bits (i * 8 + b))) 0.

(** One turn of the padding loop. *)
Definition pad_byte (i : Z) (s : list Z * Z) : list Z * Z :=
  let '(out, padIndex) := s in (write out i (read [236; 17] (padIndex mod 2)), padIndex + 1).

Definition encodeData (text : jstring) (dataBytes : Z) : list Z :=
  let bytes := utf8_encode text in
  let bits := pushBits [] 4 4 in
  let bits := pushBits bits (len bytes) 8 in
  let bits := for_each bytes (fun byte bits => pushBits bits byte 8) bits in
  let capacity := dataBytes * 8 in
  let terminator := Z.min 4 (capacity - len bits) in
  let bits := bits ++ replicate (Z.to_nat terminator) 0 in
  let bits := fill_byte 8 bits in
  let out := map (byte_at bits) (seqZ 0 dataBytes) in
  let start := (len bits + 7) / 8 in
  (for_each (seqZ start (dataBytes - start)) pad_byte (out, 0)).1.

(** ** Modules *)

Abbreviation grid := (list (list bool)).

(** [grid[y][x] = on] and [grid[y][x]] inside the square. *)
Definition put (x y : Z) (on : bool) (g : grid) : grid :=
  alter (fun row => <[Z.to_nat x := on]> row) (Z.to_nat y) g.
Definition get (g : grid) (x y : Z) : bool := default false (g !! Z.to_nat y ≫= (.!! Z.to_nat x)).

Definition setFinder (x y : Z) (g : grid) : grid :=
  for_each (seqZ (-1) 9) (fun dy => for_each (seqZ (-1) 9) (fun dx g =>
    let xx := x + dx in
    let yy := y + dy in
    if (yy <? 0) || (xx <? 0) || (len g <=? yy) || (len g <=? xx) then g
    else
      let on :=
        if (dx =? -1) || (dx =? 7) || (dy =? -1) || (dy =? 7) then false
        else (dx =? 0) || (dx =? 6) || (dy =? 0) || (dy =? 6)
             || ((2 <=? dx) && (dx <=? 4) && (2 <=? dy) && (dy <=? 4)) in
      if (0 <=? dx) && (dx <=? 6) && (0 <=? dy) && (dy <=? 6) then put xx yy on g else g)) g.

Definition ALIGNMENT : list Z := [0; 0; 18; 22; 26; 30; 34].

(** The sizes are 4 version + 17. *)
Definition alignmentCenter (size : Z) : Z := read ALIGNMENT ((size - 17) / 4).

Definition inAlignment (size x y : Z) : bool :=
  let center := alignmentCenter size in
  if center <? 8 then false else (Z.abs (x - center) <=? 2) && (Z.abs (y - center) <=? 2).

Definition reserved (size x y : Z) : bool :=
  if (x <? 9) && (y <? 9) then true
  else if (size - 8 <=? x) && (y <? 9) then true
  else if (x <? 9) && (size - 8 <=? y) then true
  else if (y =? 6) || (x =? 6) then true
  else inAlignment size x y.

Definition setAlignment (g : grid) : grid :=
  let center := alignmentCenter (len g) in
  if center <? 8 then g
  else for_each (seqZ (-2) 5) (fun dy => for_each (seqZ (-2) 5) (fun dx =>
    let on := negb (Z.max (Z.abs dx) (Z.abs dy) =? 1) in
    put (center + dx) (center + dy) (on || ((dx =? 0) && (dy =? 0))))) g.

Definition formatBits (mask : Z) : Z :=
  let data := js_shl (js_or (js_shl 0 3) mask) 10 in
  let bits := for_each (rev (seqZ 10 5))
    (fun i bits => if js_and bits (js_shl 1 i) =? 0 then bits else js_xor bits (js_shl 1335 (i - 10))) data in
  js_or data (js_xor bits 21522).

Definition applyFormat (mask : Z) (g : grid) : grid :=
  let bits := formatBits mask in
  let size := len g in
  let g := for_each (seqZ 0 15) (fun i g =>
    let on := negb (js_and bits (js_shl 1 (14 - i)) =? 0) in
    let g := if i <? 6 then put 8 i on g else if i =? 6 then put 8 7 on g
             else if i =? 7 then put 8 8 on g else put (14 - i) 8 on g in
    if i <? 8 then put (size - 1 - i) 8 on g else put 8 (size - 15 + i) on g) g in
  put 8 (size - 8) true g.

Definition maskBit (mask x y : Z) : bool :=
  if mask =? 0 then (x + y) mod 2 =? 0
  else if mask =? 1 then y mod 2 =? 0
  else if mask =? 2 then x mod 3 =? 0
  else if mask =? 3 then (x + y) mod 3 =? 0
  else if mask =? 4 then (y / 2 + x / 3) mod 2 =? 0
  else if mask =? 5 then (x * y) mod 2 + (x * y) mod 3 =? 0
  else (x + y) mod 2 =? 0.

Definition place_module (size : Z) (bits : list Z) (xx y : Z) (s : grid * Z) : grid * Z :=
  let '(g, index) := s in
  if reserved size xx y || get g xx y then (g, index)
  else (put xx y (negb (read bits index =? 0)) g, index + 1).

(** [x] goes down by pairs of columns; [size] turns are more than enough. *)
Fixpoint place_columns (fuel : nat) (size : Z) (bits : list Z) (x : Z) (upward : bool) (s : grid * Z) : grid * Z :=
  match fuel with
  | O => s
  | S fuel =>
      if x <=? 0 then s
      else
        let x := if x =? 6 then x - 1 else x in
        place_columns fuel size bits (x - 2) (negb upward)
          (for_each (seqZ 0 size) (fun i =>
             let y := if upward then size - 1 - i else i in
             for_each [0; -1] (fun dx => place_module size bits (x + dx) y)) s)
  end.

Definition placeData (bits : list Z) (g : grid) : grid :=
  let size := len g in
  (place_columns (Z.to_nat size) size bits (size - 1) true (g, 0)).1.

(** The fixed modules. *)
Definition patterns (size : Z) : grid :=
  let g := replicate (Z.to_nat size) (replicate (Z.to_nat size) false) in
  let g := setFinder 0 (size - 7) (setFinder (size - 7) 0 (setFinder 0 0 g)) in
  let g := setAlignment g in
  for_each (seqZ 8 (size - 16)) (fun i g => put 6 i (i mod 2 =? 0) (put i 6 (i mod 2 =? 0) g)) g.

Definition apply_mask (size mask : Z) (filled : grid) : grid :=
  for_each (seqZ 0 size) (fun y => for_each (seqZ 0 size) (fun x filled =>
    if reserved size x y then filled
    else if maskBit mask x y then put x y (negb (get filled x y)) filled else filled)) filled.

Definition encodeQr (text : jstring) : res grid :=
  let payload := len (utf8_encode text) in
  v ← chooseVersion payload;
  let data := encodeData text (data_bytes v) in
  let ecc := rsEncode data (ecc_bytes v) in
  let stream := data ++ ecc in
  let bits := for_each stream (fun byte bits => pushBits bits byte 8) [] in
  let filled := placeData bits (patterns (size v)) in
  Ok (applyFormat 0 (apply_mask (size v) 0 filled)).

(** ** The reference reader *)

(** The walk of the standard: pairs of columns from the right without the
    timing column, every other pair upwards, the right module first. *)
Definition right_columns (size : Z) : list Z :=
  map (fun k => size - 1 - 2 * k) (seqZ 0 ((size - 7) / 2)) ++ [5; 3; 1].
Definition walk (size : Z) : list (Z * Z) :=
  concat (imap (fun k c => concat (map (fun y => [(c, y); (c - 1, y)])
    (if Nat.even k then rev (seqZ 0 size) else seqZ 0 size))) (right_columns size)).
Definition data_modules (size : Z) : list (Z * Z) := List.filter (fun p => negb (reserved size p.1 p.2)) (walk size).

Fixpoint value_of (bits : list bool) (acc : Z) : Z :=
  match bits with [] => acc | b :: r => value_of r (2 * acc + (if b then 1 else 0)) end.
Fixpoint codewords (n : nat) (bits : list bool) : list Z :=
  match n with O => [] | S n => value_of (take 8 bits) 0 :: codewords n (drop 8 bits) end.

(** The polynomial of these coefficients, highest first, at [r]. *)
Definition evaluate (r : Z) (cs : list Z) : Z := fold_left (fun acc c => Z.lxor (gfMul acc r) c) cs 0.

Definition read_bits (g : grid) (size : Z) : list bool :=
  map (fun '(x, y) => xorb (get g x y) ((x + y) mod 2 =? 0)) (data_modules size).

(** The payload of a byte segment. *)
Definition byte_segment (data : list Z) : option (list Z) :=
  match data with
  | a :: b :: _ =>
      if a / 16 =? 4 then
        let n := Z.to_nat (a mod 16 * 16 + b / 16) in
        if (S n <? length data)%nat
        then Some (zip_with (fun b c => b mod 16 * 16 + c / 16) (take n (drop 1 data)) (drop 2 data))
        else None
      else None
  | _ => None
  end.

Definition read_code (g : grid) : option jstring :=
  v ← List.find (fun v => size v =? len g) VERSIONS;
  let stream := codewords (Z.to_nat (data_bytes v + ecc_bytes v)) (read_bits g (size v)) in
  if forallb (fun i => evaluate (read EXP i) stream =? 0) (seqZ 0 (ecc_bytes v))
  then bytes ← byte_segment (take (Z.to_nat (data_bytes v)) stream);
    (fun cs => concat (map utf16_scalar cs)) <$> utf8_scalars bytes
  else None.


(** ** The field is a field *)

Lemma for_each_app {A S} (l k : list A) body (s : S) : for_each (l ++ k) body s = for_each k body (for_each l body s).
Proof. apply fold_left_app. Qed.

Lemma for_each_concat {A B S} (f : A -> list B) l body (s : S) :
  for_each (concat (map f l)) body s = for_each l (fun a => for_each (f a) body) s.
Proof.
  unfold for_each. revert s. induction l as [|a l IH]; intros s; [done |]. cbn. rewrite fold_left_app. apply IH.
Qed.

Lemma for_each_ext {A S} (l : list A) (b1 b2 : A -> S -> S) s :
  (forall a s, a ∈ l -> b1 a s = b2 a s) -> for_each l b1 s = for_each l b2 s.
Proof.
  revert s. induction l as [|a l IH]; intros s H; [done |]. cbn. rewrite (H a s) by (by left).
  apply IH. intros. apply H. by right.
Qed.

Lemma for_each_invariant {A S} (P : S -> Prop) (l : list A) body s :
  P s -> (forall a s, a ∈ l -> P s -> P (body a s)) -> P (for_each l body s).
Proof.
  revert s. induction l as [|a l IH]; intros s Hs H; [done |]. cbn. apply IH; [apply H; [by left | done] |].
  intros. apply H; [by right | done].
Qed.

(** A fact about all bytes, by evaluation. *)
Definition all_bytes (P : Z -> bool) : bool := forallb P (seqZ 0 256).
Lemma all_bytes_spec P : all_bytes P = true -> forall b, is_byte b -> P b = true.
Proof.
  intros H b Hb. unfold all_bytes in H. rewrite forallb_forall in H. apply H.
  apply list_elem_of_In, elem_of_seqZ. unfold is_byte in Hb. lia.
Qed.

Lemma zero_byte : is_byte 0.
Proof. unfold is_byte. lia. Qed.

Lemma read_byte l i : Forall is_byte l -> is_byte (read l i).
Proof.
  intros H. unfold read, at_index. destruct (i <? 0); [exact zero_byte |].
  destruct (l !! Z.to_nat i) eqn:E; [|exact zero_byte]. by apply (Forall_lookup_1 _ _ _ _ H E).
Qed.

Lemma forallb_bytes l : forallb byteb l = true -> Forall is_byte l.
Proof.
  intros H. rewrite forallb_forall in H. apply Forall_forall. intros x Hx%list_elem_of_In.
  specialize (H x Hx). unfold byteb in H. unfold is_byte. apply andb_true_iff in H as [?%Z.leb_le ?%Z.ltb_lt]. lia.
Qed.

Lemma EXP_bytes : Forall is_byte EXP.
Proof. apply forallb_bytes. vm_compute. reflexivity. Qed.

(** Powers and logarithms are inverse to each other. *)
Lemma power_log a : is_byte a -> a <> 0 -> 0 <= read LOG a < 255 /\ read EXP (read LOG a) = a.
Proof.
  intros Ha Hn. pose proof (all_bytes_spec
    (fun a => (a =? 0) || ((0 <=? read LOG a) && (read LOG a <? 255) && (read EXP (read LOG a) =? a)))
    ltac:(vm_compute; reflexivity) a Ha) as H. cbn in H.
  rewrite (proj2 (Z.eqb_neq a 0)) in H by done. cbn [orb] in H.
  apply andb_true_iff in H as [[?%Z.leb_le ?%Z.ltb_lt]%andb_true_iff ?%Z.eqb_eq]. lia.
Qed.

Lemma log_power i : 0 <= i < 255 -> read LOG (read EXP i) = i /\ read EXP i <> 0.
Proof.
  intros Hi. pose proof (all_bytes_spec
    (fun i => (i =? 255) || ((read LOG (read EXP i) =? i) && negb (read EXP i =? 0)))
    ltac:(vm_compute; reflexivity) i ltac:(unfold is_byte; lia)) as H. cbn in H.
  rewrite (proj2 (Z.eqb_neq i 255)) in H by lia. cbn [orb] in H.
  apply andb_true_iff in H as [?%Z.eqb_eq ?%negb_true_iff]. split; [done | by apply Z.eqb_neq].
Qed.

Lemma gfMul_byte a b : is_byte (gfMul a b).
Proof. unfold gfMul. destruct (_ && _); [apply read_byte, EXP_bytes | exact zero_byte]. Qed.

Lemma gfMul_comm a b : gfMul a b = gfMul b a.
Proof. unfold gfMul. rewrite andb_comm, Z.add_comm. done. Qed.

Lemma gfMul_0 a : gfMul a 0 = 0.
Proof. unfold gfMul. by rewrite andb_false_r. Qed.

Lemma gfMul_powers i j : 0 <= i < 255 -> 0 <= j < 255 -> gfMul (read EXP i) (read EXP j) = read EXP ((i + j) mod 255).
Proof.
  intros Hi Hj. destruct (log_power i Hi) as [Li Ni], (log_power j Hj) as [Lj Nj]. unfold gfMul.
  rewrite (proj2 (Z.eqb_neq _ 0) Ni), (proj2 (Z.eqb_neq _ 0) Nj). cbn [negb andb]. by rewrite Li, Lj.
Qed.

(** Every byte is zero or a power of the generator. *)
Lemma zero_or_power a : is_byte a -> a = 0 \/ exists i, 0 <= i < 255 /\ a = read EXP i.
Proof.
  intros Ha. destruct (decide (a = 0)) as [|Hn]; [by left | right].
  destruct (power_log a Ha Hn) as [Hi E]. by exists (read LOG a).
Qed.

Lemma gfMul_assoc a b c : is_byte a -> is_byte b -> is_byte c -> gfMul a (gfMul b c) = gfMul (gfMul a b) c.
Proof.
  intros [-> | (i & Hi & ->)]%zero_or_power [-> | (j & Hj & ->)]%zero_or_power [-> | (k & Hk & ->)]%zero_or_power;
    rewrite ?gfMul_0, ?(gfMul_comm 0), ?gfMul_0, ?(gfMul_comm 0), ?gfMul_0; try done.
  assert (forall z, 0 <= z mod 255 < 255) as M by (intros; apply Z.mod_pos_bound; lia).
  rewrite (gfMul_powers j k), (gfMul_powers i j), !gfMul_powers by (done || apply M).
  rewrite Z.add_mod_idemp_r, Z.add_mod_idemp_l by lia. by rewrite Z.add_assoc.
Qed.

(** Sums: bitwise, with no order. *)
Ltac xor_ring := apply Z.bits_inj; intros ?i; rewrite ?Z.lxor_spec, ?Z.bits_0; btauto.

(** Multiplication by the generator is a shift, which respects sums. *)
Definition double (a : Z) : Z := Z.lxor (Z.shiftl a 1) (if Z.testbit a 7 then 285 else 0).

Lemma gfMul_generator a : is_byte a -> gfMul a (read EXP 1) = double a.
Proof.
  intros Ha. apply Z.eqb_eq.
  exact (all_bytes_spec (fun a => gfMul a (read EXP 1) =? double a) ltac:(vm_compute; reflexivity) a Ha).
Qed.

Lemma double_lxor a b : double (Z.lxor a b) = Z.lxor (double a) (double b).
Proof.
  unfold double. rewrite Z.lxor_spec, Z.shiftl_lxor.
  destruct (Z.testbit a 7), (Z.testbit b 7); cbn [xorb]; xor_ring.
Qed.

Lemma lxor_byte a b : is_byte a -> is_byte b -> is_byte (Z.lxor a b).
Proof.
  unfold is_byte. intros Ha Hb. split; [apply Z.lxor_nonneg; lia |].
  destruct (decide (Z.lxor a b = 0)) as [->|Hn]; [lia |].
  apply Z.log2_lt_cancel. change (Z.log2 256) with 8. pose proof (Z.log2_lxor a b ltac:(lia) ltac:(lia)).
  assert (forall x, 0 <= x < 256 -> Z.log2 x < 8) as L.
  { intros x Hx. destruct (decide (x = 0)) as [->|]; [done |]. apply Z.log2_lt_pow2; lia. }
  pose proof (L a Ha). pose proof (L b Hb). lia.
Qed.

Lemma EXP_succ i : 0 <= i < 254 -> read EXP (i + 1) = gfMul (read EXP i) (read EXP 1).
Proof. intros. rewrite gfMul_powers by lia. by rewrite Z.mod_small by lia. Qed.

Lemma EXP_byte i : is_byte (read EXP i).
Proof. apply read_byte, EXP_bytes. Qed.

(** Multiplication by a power is iterated shifting. *)
Lemma gfMul_power a n : is_byte a -> (n < 255)%nat -> gfMul a (read EXP (Z.of_nat n)) = Nat.iter n double a.
Proof.
  intros Ha. induction n as [|n IH]; intros Hn.
  - apply Z.eqb_eq.
    exact (all_bytes_spec (fun a => gfMul a (read EXP 0) =? a) ltac:(vm_compute; reflexivity) a Ha).
  - replace (Z.of_nat (S n)) with (Z.of_nat n + 1) by lia. rewrite EXP_succ by lia.
    rewrite gfMul_assoc by auto using EXP_byte. rewrite gfMul_generator by apply gfMul_byte. rewrite Nat.iter_succ. f_equal. apply IH. lia.
Qed.

Lemma iter_double_lxor n a b : Nat.iter n double (Z.lxor a b) = Z.lxor (Nat.iter n double a) (Nat.iter n double b).
Proof. induction n as [|n IH]; [done |]. rewrite !Nat.iter_succ. by rewrite IH, double_lxor. Qed.

Lemma gfMul_lxor_l a b c : is_byte a -> is_byte b -> is_byte c ->
  gfMul (Z.lxor a b) c = Z.lxor (gfMul a c) (gfMul b c).
Proof.
  intros Ha Hb Hc. destruct (zero_or_power c Hc) as [-> | (i & Hi & ->)]; [by rewrite !gfMul_0 |].
  rewrite <- (Z2Nat.id i) by lia. rewrite !gfMul_power by (auto using lxor_byte || lia). apply iter_double_lxor.
Qed.

Lemma gfMul_lxor_r a b c : is_byte a -> is_byte b -> is_byte c ->
  gfMul c (Z.lxor a b) = Z.lxor (gfMul c a) (gfMul c b).
Proof. intros. rewrite !(gfMul_comm c). by apply gfMul_lxor_l. Qed.

(** ** Error correction *)

Section Evaluate.
Context (r : Z) (Hr : is_byte r).

Definition mul_power (n : nat) (a : Z) : Z := Nat.iter n (fun a => gfMul a r) a.

Lemma mul_power_byte n a : is_byte a -> is_byte (mul_power n a).
Proof. unfold mul_power. destruct n; [done |]. intros. rewrite Nat.iter_succ. apply gfMul_byte. Qed.

Lemma mul_power_succ n a : mul_power (S n) a = mul_power n (gfMul a r).
Proof. unfold mul_power. by rewrite Nat.iter_succ_r. Qed.

Lemma mul_power_lxor n a b : is_byte a -> is_byte b ->
  mul_power n (Z.lxor a b) = Z.lxor (mul_power n a) (mul_power n b).
Proof.
  intros Ha Hb. induction n as [|n IH]; [done |]. unfold mul_power in *. rewrite !Nat.iter_succ, IH.
  apply gfMul_lxor_l; try done; by apply mul_power_byte.
Qed.

Lemma mul_power_mul n a f : is_byte a -> is_byte f -> mul_power n (gfMul f a) = gfMul f (mul_power n a).
Proof.
  intros Ha Hf. induction n as [|n IH]; [done |]. unfold mul_power in *. rewrite !Nat.iter_succ, IH.
  symmetry. apply gfMul_assoc; try done. by apply mul_power_byte.
Qed.

Lemma evaluate_byte cs : Forall is_byte cs -> is_byte (evaluate r cs).
Proof.
  intros H. unfold evaluate. assert (is_byte 0) as H0 by done. revert H0. generalize 0.
  induction H as [|c cs Hc _ IH]; intros acc Ha; [done |]. cbn. apply IH, lxor_byte; [apply gfMul_byte | done].
Qed.

(** Horner's rule from any start. *)
Lemma evaluate_from cs acc : Forall is_byte cs -> is_byte acc ->
  fold_left (fun acc c => Z.lxor (gfMul acc r) c) cs acc = Z.lxor (mul_power (length cs) acc) (evaluate r cs).
Proof.
  intros H. revert acc. unfold evaluate. induction H as [|c cs Hc H IH]; intros acc Ha; cbn [fold_left length].
  { symmetry. apply Z.lxor_0_r. }
  rewrite IH by (apply lxor_byte; [apply gfMul_byte | done]).
  rewrite (IH (Z.lxor (gfMul 0 r) c)) by (apply lxor_byte; [apply gfMul_byte | done]).
  rewrite (gfMul_comm 0), gfMul_0, !mul_power_succ, Z.lxor_0_l || rewrite (gfMul_comm 0), gfMul_0, Z.lxor_0_l, mul_power_succ.
  rewrite mul_power_lxor by (try apply gfMul_byte; done). xor_ring.
Qed.

Lemma evaluate_app a b : Forall is_byte a -> Forall is_byte b ->
  evaluate r (a ++ b) = Z.lxor (mul_power (length b) (evaluate r a)) (evaluate r b).
Proof. intros Ha Hb. unfold evaluate at 1. rewrite fold_left_app. apply evaluate_from; [done | by apply evaluate_byte]. Qed.

Lemma evaluate_cons c cs : is_byte c -> Forall is_byte cs ->
  evaluate r (c :: cs) = Z.lxor (mul_power (length cs) c) (evaluate r cs).
Proof.
  intros Hc H. change (c :: cs) with ([c] ++ cs). rewrite evaluate_app; [|by apply Forall_singleton|done].
  unfold evaluate at 1. cbn [fold_left]. rewrite (gfMul_comm 0), gfMul_0. by rewrite Z.lxor_0_l.
Qed.

Lemma sum_bytes a b : Forall is_byte a -> Forall is_byte b -> Forall is_byte (zip_with Z.lxor a b).
Proof.
  intros Ha. revert b. induction Ha as [|x a Hx Ha IH]; intros [|y b] Hb; try constructor;
    apply Forall_cons in Hb as [Hy Hb]; [by apply lxor_byte | by apply IH].
Qed.

Lemma evaluate_sum a b : length a = length b -> Forall is_byte a -> Forall is_byte b ->
  evaluate r (zip_with Z.lxor a b) = Z.lxor (evaluate r a) (evaluate r b).
Proof.
  intros Hl Ha. revert b Hl. induction Ha as [|x a Hx Ha IH]; intros [|y b] Hl Hb; try done.
  apply Forall_cons in Hb as [Hy Hb]. injection Hl as Hl. cbn [zip_with].
  assert (Forall is_byte (zip_with Z.lxor a b)) by (by apply sum_bytes).
  rewrite !evaluate_cons by auto using lxor_byte. rewrite IH by done.
  rewrite length_zip_with, Hl, Nat.min_id, mul_power_lxor by done. xor_ring.
Qed.

Lemma evaluate_scale f cs : is_byte f -> Forall is_byte cs ->
  evaluate r (map (fun c => gfMul c f) cs) = gfMul f (evaluate r cs).
Proof.
  intros Hf. induction 1 as [|c cs Hc H IH]; [symmetry; apply gfMul_0 |]. cbn [map].
  rewrite !evaluate_cons; try done; [| apply gfMul_byte | apply Forall_map, Forall_forall; intros; apply gfMul_byte].
  rewrite IH, length_map, gfMul_comm, mul_power_mul by done. symmetry.
  apply gfMul_lxor_r; [by apply mul_power_byte | by apply evaluate_byte | done].
Qed.
End Evaluate.

(** A loop that rewrites every element from its own value. *)
Lemma for_each_elements (f : Z -> Z -> Z) p l :
  for_each (seqZ (len p) (len l)) (fun i l => write l i (f i (read l i))) (p ++ l)
  = p ++ imap (fun i x => f (len p + Z.of_nat i) x mod 256) l.
Proof.
  revert p. induction l as [|x l IH]; intros p; [by rewrite len_nil |].
  rewrite len_cons, seqZ_cons by (pose proof (len_nonneg l); lia).
  replace (Z.pred (1 + len l)) with (len l) by lia. unfold for_each. cbn [fold_left].
  assert (read (p ++ x :: l) (len p) = x) as E1.
  { unfold read, at_index, len. rewrite (proj2 (Z.ltb_ge _ 0)) by lia. rewrite Nat2Z.id, lookup_app_r by lia.
    by rewrite Nat.sub_diag. }
  assert (forall y, write (p ++ x :: l) (len p) y = (p ++ [y mod 256]) ++ l) as E2.
  { intros y. unfold write, len. rewrite Nat2Z.id.
    rewrite insert_app_r_alt, Nat.sub_diag by lia. by rewrite <- app_assoc. }
  rewrite E1, E2. pose proof (IH (p ++ [f (len p) x mod 256])) as IH'. unfold for_each in IH'.
  rewrite len_app in IH'. change (len [_]) with 1 in IH'. replace (Z.succ (len p)) with (len p + 1) by lia.
  rewrite IH', <- app_assoc. cbn [app imap]. rewrite Z.add_0_r. do 2 f_equal. apply imap_ext.
  intros i y _. cbn. do 2 f_equal. lia.
Qed.

Lemma read_cons x l i : 0 <= i -> read (x :: l) (i + 1) = read l i.
Proof.
  intros. unfold read, at_index. rewrite !(proj2 (Z.ltb_ge _ 0)) by lia.
  replace (Z.to_nat (i + 1)) with (S (Z.to_nat i)) by lia. done.
Qed.

Definition generator_ok (d : Z) (g : list Z) : bool :=
  match g with
  | u :: t => (u =? 1) && (0 <? d) && (len t =? d) && forallb byteb t
              && forallb (fun i => evaluate (read EXP i) g =? 0) (seqZ 0 d)
  | [] => false
  end.

Lemma generators d : In d (map ecc_bytes VERSIONS) -> generator_ok d (rsGenerator d) = true.
Proof. cbn. intros [<- | [<- | [<- | [<- | [<- | [<- | []]]]]]]; vm_compute; reflexivity. Qed.

Lemma js_xor_bytes a b : is_byte a -> is_byte b -> js_xor a b = Z.lxor a b.
Proof. unfold is_byte. intros. unfold js_xor. by rewrite !i32_small by lia. Qed.

Section Remainder.
Context (d : Z) (g : list Z) (Hg : generator_ok d (1 :: g) = true).

Lemma generator_facts : 0 < d /\ len g = d /\ Forall is_byte g /\
  forall i, 0 <= i < d -> evaluate (read EXP i) (1 :: g) = 0.
Proof.
  unfold generator_ok in Hg. apply andb_true_iff in Hg as [H Hroots]. apply andb_true_iff in H as [H Hb].
  apply andb_true_iff in H as [H Hl]. apply andb_true_iff in H as [_ Hd].
  apply Z.ltb_lt in Hd. apply Z.eqb_eq in Hl. split_and!; [done | done | by apply forallb_bytes |].
  intros i Hi. rewrite forallb_forall in Hroots. apply Z.eqb_eq, Hroots. apply list_elem_of_In, elem_of_seqZ. lia.
Qed.

(** One byte of the division: shift, and take the multiple of the generator
    that clears the leading coefficient. *)
Lemma rs_step_spec e rest b : len (e :: rest) = d -> Forall is_byte (e :: rest) -> is_byte b ->
  rs_step (1 :: g) d (e :: rest) b =
  zip_with Z.lxor (rest ++ [0]) (map (fun c => gfMul c (Z.lxor b e)) g).
Proof.
  intros Hl He Hb. destruct generator_facts as (Hd & Hlg & Hbg & _).
  apply Forall_cons in He as [He Hrest]. unfold rs_step. change (read (e :: rest) 0) with e.
  rewrite js_xor_bytes by done.
  assert (write (copyWithin_0_1 (e :: rest)) (d - 1) 0 = rest ++ [0]) as ->.
  { unfold copyWithin_0_1, write. cbn [drop length]. rewrite drop_0, Nat.sub_succ, Nat.sub_0_r.
    unfold len in Hl. cbn [length] in Hl. replace (Z.to_nat (d - 1)) with (length rest) by lia.
    destruct (list_eq_nil_dec rest) as [->|Hne]; [done |].
    assert (exists x, drop (length rest) (e :: rest) = [x]) as [x ->].
    { destruct (drop (length rest) (e :: rest)) as [|x [|y r]] eqn:E; [| by exists x |];
        apply (f_equal length) in E; rewrite length_drop in E; cbn [length] in E; lia. }
    rewrite insert_app_r_alt, Nat.sub_diag by lia. done. }
  set (l := rest ++ [0]). assert (len l = d) as Hll by (unfold l; rewrite len_app; rewrite len_cons in Hl; change (len [0]) with 1; lia).
  assert (Forall is_byte l) as Hlb by (apply Forall_app; split; [done | apply Forall_singleton, zero_byte]).
  destruct (Z.eqb_spec (Z.lxor b e) 0) as [->|Hf].
  - symmetry. clearbody l. assert (length l = length g) as E by (unfold len in *; lia).
    clear - E.
    revert E. generalize g. induction l as [|x l IH]; intros [|c g'] E; try done.
    injection E as E. cbn [map zip_with]. rewrite gfMul_0, Z.lxor_0_r. f_equal. by apply IH.
  - pose proof (for_each_elements (fun i x => js_xor x (gfMul (read (1 :: g) (i + 1)) (Z.lxor b e))) [] l) as E.
    change (len (@nil Z)) with 0 in E. rewrite Hll in E. cbn [app] in E. rewrite E.
    assert (length l = length g) as El by (unfold len in *; lia).
    rewrite (imap_ext _ (fun i x => js_xor x (gfMul (read g (Z.of_nat i)) (Z.lxor b e)) mod 256));
      [|intros i x _; by rewrite Z.add_0_l, read_cons by lia].
    clearbody l. clear - El Hlb Hbg Hb He. revert l El Hlb. induction Hbg as [|c g Hc Hg IH]; intros [|x l] El Hl; try done.
    apply Forall_cons in Hl as [Hx Hl]. injection El as El. cbn [map zip_with imap]. f_equal.
    + change (read (c :: g) (Z.of_nat 0)) with c. rewrite js_xor_bytes by (done || apply gfMul_byte).
      apply Z.mod_small, lxor_byte; [done | apply gfMul_byte].
    + rewrite <- IH by done. apply imap_ext. intros i y _. cbn -[read Z.of_nat].
      by rewrite Nat2Z.inj_succ, <- Z.add_1_r, read_cons by lia.
Qed.

(** Appending a byte keeps the division's remainder. *)
Lemma rs_step_root r p ecc b : is_byte r -> evaluate r (1 :: g) = 0 -> len ecc = d ->
  Forall is_byte p -> Forall is_byte ecc -> is_byte b ->
  evaluate r (p ++ ecc) = 0 -> evaluate r ((p ++ [b]) ++ rs_step (1 :: g) d ecc b) = 0.
Proof.
  intros Hr Hroot Hl Hp He Hb H0. destruct generator_facts as (Hd & Hlg & Hbg & _).
  destruct ecc as [|e rest]; [rewrite len_nil in Hl; lia |]. rewrite rs_step_spec by done.
  apply Forall_cons in He as [He Hrest]. set (f := Z.lxor b e). assert (is_byte f) as Hf by (unfold f; by apply lxor_byte).
  assert (is_byte 1) as H1 by (unfold is_byte; lia). assert (length (rest ++ [0]) = length g) as El.
  { rewrite length_app. unfold len in *. cbn [length] in *. lia. }
  assert (Forall is_byte (rest ++ [0])) by (apply Forall_app; split; [done | apply Forall_singleton, zero_byte]).
  assert (Forall is_byte (map (fun c => gfMul c f) g)) by (apply Forall_map, Forall_forall; intros; apply gfMul_byte).
  rewrite evaluate_cons in Hroot by done. apply Z.lxor_eq in Hroot.
  rewrite evaluate_app, evaluate_cons in H0 by (done || by apply Forall_cons).
  assert (forall x, is_byte x -> Forall is_byte [x]) as Hone by (intros; by apply Forall_singleton).
  assert (forall x, is_byte x -> evaluate r [x] = x) as Eone.
  { intros x Hx. unfold evaluate. cbn [fold_left]. rewrite (gfMul_comm 0), gfMul_0. apply Z.lxor_0_l. }
  rewrite evaluate_app; [| done | apply Forall_app; by auto | by apply sum_bytes].
  rewrite evaluate_app, Eone by auto.
  rewrite evaluate_sum, evaluate_scale by (done || by rewrite length_map).
  rewrite (evaluate_app r Hr rest [0]), Eone by auto using zero_byte.
  rewrite length_zip_with, length_map, El, Nat.min_id, <- Hroot.
  rewrite <- mul_power_mul by done. replace (gfMul f 1) with f.
  2: { rewrite gfMul_comm. symmetry. apply Z.eqb_eq.
       exact (all_bytes_spec (fun a => gfMul 1 a =? a) ltac:(vm_compute; reflexivity) f Hf). }
  assert (length g = S (length rest)) as -> by (unfold len in *; cbn [length] in *; lia).
  pose proof (evaluate_byte r p Hp) as HA. pose proof (evaluate_byte r rest Hrest) as HR.
  unfold f. cbn [length]. rewrite !mul_power_lxor by (try apply gfMul_byte; done).
  assert (forall n x, mul_power r n (mul_power r 1 x) = gfMul (mul_power r n x) r) as Es.
  { intros n x. unfold mul_power. induction n as [|n IH]; [done |]. rewrite !Nat.iter_succ. by f_equal. }
  assert (forall n x, mul_power r (S n) x = gfMul (mul_power r n x) r) as Esucc by (intros; unfold mul_power; by rewrite Nat.iter_succ).
  cbn [length] in H0. apply (f_equal (fun x => gfMul x r)) in H0. rewrite (gfMul_comm 0), gfMul_0 in H0.
  rewrite !gfMul_lxor_l in H0 by (auto using mul_power_byte, lxor_byte).
  rewrite Es, (Esucc _ e). etransitivity; [|exact H0]. change (mul_power r 1 (evaluate r rest)) with (gfMul (evaluate r rest) r). xor_ring.
Qed.
End Remainder.

(** The error correction completes the data to a multiple of the generator. *)
Lemma rsEncode_roots d data : In d (map ecc_bytes VERSIONS) -> Forall is_byte data ->
  len (rsEncode data d) = d /\ Forall is_byte (rsEncode data d) /\
  forall i, 0 <= i < d -> evaluate (read EXP i) (data ++ rsEncode data d) = 0.
Proof.
  intros Hd Hdata. pose proof (generators d Hd) as Hg. unfold rsEncode.
  destruct (rsGenerator d) as [|u g]; [done |].
  assert (u = 1) as ->.
  { unfold generator_ok in Hg. repeat (apply andb_true_iff in Hg as [Hg _]). by apply Z.eqb_eq. }
  destruct (generator_facts d g Hg) as (H0 & Hlg & Hbg & Hroot).
  assert (forall pre rest ecc, Forall is_byte pre -> Forall is_byte rest -> Forall is_byte ecc -> len ecc = d ->
    (forall i, 0 <= i < d -> evaluate (read EXP i) (pre ++ ecc) = 0) ->
    let out := fold_left (rs_step (1 :: g) d) rest ecc in
    len out = d /\ Forall is_byte out /\ forall i, 0 <= i < d -> evaluate (read EXP i) ((pre ++ rest) ++ out) = 0) as Hloop.
  { intros pre rest. revert pre. induction rest as [|b rest IH]; intros pre ecc Hp Hr He Hl Hz.
    - cbn. rewrite app_nil_r. by split_and!.
    - apply Forall_cons in Hr as [Hb Hr]. cbn [fold_left]. cbv zeta.
      replace (pre ++ b :: rest) with ((pre ++ [b]) ++ rest) by by rewrite <- app_assoc.
      destruct ecc as [|e ecc]; [rewrite len_nil in Hl; lia |].
      assert (len (rs_step (1 :: g) d (e :: ecc) b) = d /\ Forall is_byte (rs_step (1 :: g) d (e :: ecc) b)) as [L B].
      { rewrite rs_step_spec by done. apply Forall_cons in He as [He Hecc].
        unfold len in *. rewrite length_zip_with, length_map, length_app. cbn [length] in *. split; [lia |].
        apply sum_bytes; [apply Forall_app; split; [done | apply Forall_singleton, zero_byte] |].
        apply Forall_map, Forall_forall. intros. apply gfMul_byte. }
      apply IH; try done; [apply Forall_app; split; [done | by apply Forall_singleton] |].
      intros i Hi. apply rs_step_root; try done; [apply EXP_byte | by apply Hroot | by apply Hz]. }
  apply (Hloop [] data); try done.
  - apply Forall_replicate, zero_byte.
  - unfold len. rewrite length_replicate. lia.
  - intros i Hi. cbn [app]. unfold evaluate. clear. induction (Z.to_nat d) as [|n IH]; [done |].
    cbn [replicate fold_left]. by rewrite (gfMul_comm 0), gfMul_0.
Qed.

(** ** Bits *)

Definition bits8 (b : Z) : list Z := pushBits [] b 8.
Definition bits4 (b : Z) : list Z := pushBits [] b 4.

Lemma push_all l bits : for_each l (fun byte bits => pushBits bits byte 8) bits = bits ++ concat (map bits8 l).
Proof.
  unfold for_each. revert bits. induction l as [|b l IH]; intros bits; cbn [fold_left map concat]; [by rewrite app_nil_r |].
  rewrite IH. unfold bits8 at 2, pushBits at 1 2. rewrite app_nil_l. by rewrite <- app_assoc.
Qed.

Lemma length_bits8 b : length (bits8 b) = 8%nat.
Proof. reflexivity. Qed.

Lemma len_stream l : len (concat (map bits8 l)) = 8 * len l.
Proof. induction l as [|b l IH]; [done |]. cbn [map concat]. rewrite len_app, len_cons, IH. change (len (bits8 b)) with 8. lia. Qed.

Definition bools : list Z -> list bool := map (fun b => negb (b =? 0)).

Lemma value_bits8 b : is_byte b -> value_of (bools (bits8 b)) 0 = b.
Proof.
  intros Hb. apply Z.eqb_eq.
  exact (all_bytes_spec (fun b => value_of (bools (bits8 b)) 0 =? b) ltac:(vm_compute; reflexivity) b Hb).
Qed.

Lemma codewords_stream l rest : Forall is_byte l ->
  codewords (length l) (bools (concat (map bits8 l)) ++ rest) = l.
Proof.
  induction 1 as [|b l Hb _ IH]; [done |]. cbn [map concat length codewords]. unfold bools in *. rewrite map_app, <- app_assoc.
  rewrite take_app_length' by done. rewrite drop_app_length' by done. by rewrite IH, value_bits8.
Qed.

(** The byte cut out of a run of bytes is that byte. *)
Lemma byte_at_stream l i b : l !! i = Some b -> Forall is_byte l -> byte_at (concat (map bits8 l)) (Z.of_nat i) = b.
Proof.
  intros Hi Hl. pose proof (Forall_lookup_1 _ _ _ _ Hl Hi) as Hb. unfold byte_at.
  rewrite (for_each_ext _ _ (fun k value => js_or (js_shl value 1) (read (bits8 b) k))).
  - apply Z.eqb_eq. exact (all_bytes_spec
      (fun b => for_each (seqZ 0 8) (fun k value => js_or (js_shl value 1) (read (bits8 b) k)) 0 =? b)
      ltac:(vm_compute; reflexivity) b Hb).
  - intros k value Hk%elem_of_seqZ. f_equal. clear Hl Hb. unfold read, at_index.
    rewrite !(proj2 (Z.ltb_ge _ 0)) by lia. f_equal. revert i Hi. induction l as [|c l IH]; intros [|i] Hi; try done.
    + injection Hi as ->. cbn [map concat]. replace (Z.of_nat 0 * 8 + k) with k by lia.
      apply lookup_app_l. rewrite length_bits8. lia.
    + cbn [map concat]. rewrite lookup_app_r by (rewrite length_bits8; lia). rewrite length_bits8, <- (IH i Hi). f_equal. lia.
Qed.

(** Bytes behind a half byte: [shifted h xs] starts with [h]. *)
Fixpoint shifted (h : Z) (xs : list Z) : list Z :=
  match xs with [] => [h * 16] | x :: xs => h * 16 + x / 16 :: shifted (x mod 16) xs end.

Lemma length_shifted h xs : length (shifted h xs) = S (length xs).
Proof. revert h. induction xs as [|x xs IH]; intros h; [done |]. cbn. by rewrite IH. Qed.

Lemma halves x : is_byte x -> 0 <= x / 16 < 16 /\ 0 <= x mod 16 < 16 /\ x = x / 16 * 16 + x mod 16.
Proof. unfold is_byte. intros. pose proof (Z.mod_pos_bound x 16 ltac:(lia)). pose proof (Z.div_mod x 16 ltac:(lia)). lia. Qed.

Lemma shifted_bytes h xs : 0 <= h < 16 -> Forall is_byte xs -> Forall is_byte (shifted h xs).
Proof.
  intros Hh H. revert h Hh. induction H as [|x xs Hx _ IH]; intros h Hh.
  - apply Forall_singleton. unfold is_byte. lia.
  - destruct (halves x Hx) as (? & ? & _). cbn [shifted]. apply Forall_cons. split; [unfold is_byte; lia | by apply IH].
Qed.

Lemma bits8_halves a b : 0 <= a < 16 -> 0 <= b < 16 -> bits8 (a * 16 + b) = bits4 a ++ bits4 b.
Proof.
  intros Ha Hb. pose proof (all_bytes_spec
    (fun x => str_eqb (bits8 x) (bits4 (x / 16) ++ bits4 (x mod 16))) ltac:(vm_compute; reflexivity)
    (a * 16 + b) ltac:(unfold is_byte; lia)) as H.
  apply str_eqb_eq in H. rewrite H.
  by rewrite Z.div_add_l, (Z.div_small b), Z.add_0_r, Z.add_comm, Z.mod_add, Z.mod_small by lia.
Qed.

Lemma shifted_bits h xs : 0 <= h < 16 -> Forall is_byte xs ->
  concat (map bits8 (shifted h xs)) = bits4 h ++ concat (map bits8 xs) ++ bits4 0.
Proof.
  intros Hh H. revert h Hh. induction H as [|x xs Hx _ IH]; intros h Hh; cbn [shifted map concat].
  - rewrite <- (Z.add_0_r (h * 16)), bits8_halves by lia. by rewrite app_nil_r.
  - destruct (halves x Hx) as (? & ? & E). rewrite IH, bits8_halves by done.
    rewrite E at 3. rewrite bits8_halves by done. by rewrite <- !app_assoc.
Qed.

Lemma shifted_head h xs tail : Forall is_byte xs ->
  exists y l, shifted h xs ++ tail = h * 16 + y :: l /\ 0 <= y < 16.
Proof.
  intros [|x xs' Hx _]; cbn [shifted app]; [exists 0, tail; by rewrite Z.add_0_r |].
  eexists _, _. split; [done |]. by destruct (halves x Hx).
Qed.

Lemma unshift h xs tail : 0 <= h < 16 -> Forall is_byte xs ->
  zip_with (fun b c => b mod 16 * 16 + c / 16) (take (length xs) (shifted h xs ++ tail)) (drop 1 (shifted h xs ++ tail)) = xs.
Proof.
  intros Hh H. revert h Hh. induction H as [|x xs Hx Hxs IH]; intros h Hh; [done |].
  destruct (halves x Hx) as (? & ? & E). cbn [shifted length app take drop]. rewrite drop_0.
  destruct (shifted_head (x mod 16) xs tail Hxs) as (y & l & El & Hy).
  specialize (IH (x mod 16) ltac:(done)). rewrite El in IH |- *. cbn [zip_with]. cbn [drop] in IH. rewrite drop_0 in IH.
  rewrite IH. f_equal. Z.to_euclidean_division_equations; lia.
Qed.

(** The pad bytes fill what is left and change nothing else. *)
Lemma pads ys n k t p : length t = (Z.to_nat k + n)%nat -> 0 <= k ->
  exists t' p', for_each (seqZ (len ys + k) (Z.of_nat n)) pad_byte (ys ++ t, p) = (ys ++ t', p') /\
    length t' = length t /\ take (Z.to_nat k) t' = take (Z.to_nat k) t /\ Forall is_byte (drop (Z.to_nat k) t').
Proof.
  revert k t p. induction n as [|n IH]; intros k t p Hl Hk.
  - exists t, p. split_and!; try done. rewrite drop_ge by lia. constructor.
  - rewrite seqZ_cons by lia. replace (Z.pred (Z.of_nat (S n))) with (Z.of_nat n) by lia.
    unfold for_each. cbn [fold_left pad_byte]. set (v := read _ _).
    assert (write (ys ++ t) (len ys + k) v = ys ++ <[Z.to_nat k := v mod 256]> t) as ->.
    { unfold write, len. rewrite insert_app_r_alt by lia. do 2 f_equal. lia. }
    replace (Z.succ (len ys + k)) with (len ys + (k + 1)) by lia.
    destruct (IH (k + 1) (<[Z.to_nat k := v mod 256]> t) (p + 1)) as (t2 & p2 & E & L & T & F); [rewrite length_insert; lia | lia |].
    exists t2, p2. rewrite length_insert in L. split_and!; [exact E | done | |].
    + apply (f_equal (take (Z.to_nat k))) in T. rewrite !take_take, !Nat.min_l in T by lia.
      rewrite T. apply take_insert_ge. lia.
    + destruct (lookup_lt_is_Some_2 t2 (Z.to_nat k)) as [x Hx]; [lia |].
      rewrite (drop_S t2 x (Z.to_nat k)) by done. apply Forall_cons. split.
      * apply (f_equal (fun l => l !! Z.to_nat k)) in T. rewrite !lookup_take_lt, list_lookup_insert_eq, Hx in T by lia.
        injection T as ->. unfold is_byte. apply Z.mod_pos_bound. lia.
      * by replace (S (Z.to_nat k)) with (Z.to_nat (k + 1)) by lia.
Qed.

Lemma encodeData_spec text D : let bytes := utf8_encode text in
  Forall is_byte bytes -> len bytes + 2 <= D -> D < 256 ->
  exists tail, encodeData text D = shifted 4 (len bytes :: bytes) ++ tail /\ len (encodeData text D) = D /\
    Forall is_byte (encodeData text D).
Proof.
  cbv zeta. intros Hb Hlen HD. unfold encodeData. generalize dependent (utf8_encode text). intros bytes Hb Hlen.
  pose proof (len_nonneg bytes) as Hn. rewrite push_all.
  assert (Forall is_byte (len bytes :: bytes)) as Hx by (apply Forall_cons; split; [unfold is_byte; lia | done]).
  change (pushBits (pushBits [] 4 4) (len bytes) 8) with (bits4 4 ++ bits8 (len bytes)).
  set (ys := shifted 4 (len bytes :: bytes)).
  assert (len ys = len bytes + 2) as Hys by (unfold ys, len; rewrite length_shifted; cbn [length]; lia).
  set (raw := (bits4 4 ++ bits8 (len bytes)) ++ concat (map bits8 bytes)).
  assert (len raw = 12 + 8 * len bytes) as Hraw.
  { unfold raw. rewrite !len_app, len_stream. change (len (bits4 4)) with 4. change (len (bits8 (len bytes))) with 8. lia. }
  rewrite Hraw, Z.min_l by lia.
  assert (raw ++ replicate (Z.to_nat 4) 0 = concat (map bits8 ys)) as ->.
  { unfold ys. rewrite shifted_bits by (done || lia). unfold raw. cbn [map concat]. by rewrite <- !app_assoc. }
  assert (fill_byte 8 (concat (map bits8 ys)) = concat (map bits8 ys)) as ->.
  { cbn [fill_byte]. rewrite len_stream, Z.mul_comm, Z.mod_mul by lia. done. }
  rewrite len_stream. replace ((8 * len ys + 7) / 8) with (len ys) by (Z.to_euclidean_division_equations; lia).
  assert (Forall is_byte ys) as Hby by (apply shifted_bytes; [lia | done]).
  set (out := map _ (seqZ 0 D)).
  assert (exists t, out = ys ++ t /\ length t = Z.to_nat (D - len ys)) as (t & -> & Ht).
  { exists (drop (length ys) out). split.
    - rewrite <- (take_drop (length ys) out) at 1. f_equal. apply list_eq. intros i.
      destruct (decide (i < length ys)%nat) as [Hi|Hi].
      + rewrite lookup_take_lt by done. unfold out. 
        destruct (lookup_lt_is_Some_2 ys i Hi) as [y Hy]. rewrite Hy.
        rewrite list_lookup_fmap, lookup_seqZ_lt by (unfold len in *; lia). cbn. f_equal.
        rewrite Z.add_0_l. exact (byte_at_stream ys i y Hy Hby).
      + rewrite lookup_take_ge by lia. symmetry. apply lookup_ge_None. lia.
    - rewrite length_drop. unfold out. rewrite length_map, length_seqZ. unfold len in *. lia. }
  destruct (pads ys (length t) 0 t 0) as (t' & p' & E & L & _ & F); [done | done |].
  rewrite Z.add_0_r in E. replace (Z.of_nat (length t)) with (D - len ys) in E by lia. rewrite E. exists t'. cbn [fst].
  rewrite drop_0 in F. split_and!; [done | rewrite len_app; unfold len in *; lia | by apply Forall_app].
Qed.

(** The payload comes back out of the data bytes. *)
Lemma byte_segment_encodeData text D : let bytes := utf8_encode text in
  Forall is_byte bytes -> len bytes + 2 <= D -> D < 256 -> byte_segment (encodeData text D) = Some bytes.
Proof.
  cbv zeta. intros Hb Hlen HD. destruct (encodeData_spec text D Hb Hlen HD) as (tail & E & Hl & _).
  rewrite E in Hl |- *. revert Hb Hlen Hl. generalize (utf8_encode text). clear - HD. intros bytes Hb Hlen Hl.
  pose proof (len_nonneg bytes) as Hn. set (n := len bytes) in *.
  assert (is_byte n) as Hbn by (unfold is_byte; lia). destruct (halves n Hbn) as (H1 & H2 & En).
  cbn [shifted app] in Hl |- *. pose proof (unshift (n mod 16) bytes tail H2 Hb) as Hun.
  destruct (shifted_head (n mod 16) bytes tail Hb) as (y & l & El & Hy). rewrite El in Hl, Hun |- *.
  unfold byte_segment. replace ((4 * 16 + n / 16) / 16) with 4 by (Z.to_euclidean_division_equations; lia).
  change (4 =? 4) with true. cbv iota zeta.
  replace ((4 * 16 + n / 16) mod 16 * 16 + (n mod 16 * 16 + y) / 16) with n by (Z.to_euclidean_division_equations; lia).
  assert (Z.to_nat n = length bytes) as -> by (unfold n, len; lia).
  rewrite (proj2 (Nat.ltb_lt _ _)) by (unfold n, len in Hlen, Hl; cbn [length] in *; lia).
  cbn [drop] in Hun |- *. rewrite drop_0 in Hun |- *. by rewrite Hun.
Qed.

(** ** Modules *)

Definition square (s : Z) (g : grid) : Prop := length g = Z.to_nat s /\ Forall (fun row => length row = Z.to_nat s) g.
Definition inside (s : Z) (p : Z * Z) : Prop := 0 <= p.1 < s /\ 0 <= p.2 < s.
Abbreviation look g p := (get g p.1 p.2).

Lemma put_square s x y on g : square s g -> square s (put x y on g).
Proof.
  intros [Hl Hr]. unfold put. split; [by rewrite length_alter |].
  apply Forall_alter; [done |]. intros row _ H. by rewrite length_insert.
Qed.

Lemma look_put s x y on g q : square s g -> inside s (x, y) -> inside s q ->
  look (put x y on g) q = if decide (q = (x, y)) then on else look g q.
Proof.
  intros [Hl Hr] [Hx Hy] [Hqx Hqy]. destruct q as [qx qy]. cbn [fst snd] in *. unfold get, put.
  destruct (decide (qy = y)) as [->|Hne].
  - rewrite list_lookup_alter_eq. destruct (lookup_lt_is_Some_2 g (Z.to_nat y)) as [row Hrow]; [lia |].
    pose proof (Forall_lookup_1 _ _ _ _ Hr Hrow) as Hlr. cbn in Hlr. rewrite Hrow. cbn.
    destruct (decide (qx = x)) as [->|Hnx].
    + rewrite decide_True by done. by rewrite list_lookup_insert_eq by lia.
    + rewrite decide_False by congruence. by rewrite list_lookup_insert_ne by lia.
  - rewrite decide_False by congruence. by rewrite list_lookup_alter_ne by lia.
Qed.

Lemma place_all s bits ps g k : square s g -> NoDup ps -> Forall (inside s) ps ->
  let free := List.filter (fun p => negb (reserved s p.1 p.2)) ps in
  Forall (fun p => look g p = false) free ->
  let g' := (for_each ps (fun p => place_module s bits p.1 p.2) (g, k)).1 in
  square s g' /\ (forall q, inside s q -> q ∉ free -> look g' q = look g q) /\
  forall i p, free !! i = Some p -> look g' p = negb (read bits (k + Z.of_nat i) =? 0).
Proof.
  cbv zeta. revert g k. unfold for_each. induction ps as [|p ps IH]; intros g k Hs Hd Hin Hf; [by split_and! |].
  apply NoDup_cons in Hd as [Hfresh Hd]. apply Forall_cons in Hin as [Hp Hin]. cbn [List.filter fold_left] in *.
  destruct p as [x y]. cbn [fst snd] in *. unfold place_module at 2 4 6. destruct (reserved s x y) eqn:Er; cbn [negb orb] in *.
  { by apply IH. }
  apply Forall_cons in Hf as [Hg Hf]. cbn [fst snd] in Hg. rewrite Hg. set (b := negb _).
  assert (forall q, q ∈ List.filter (fun p => negb (reserved s p.1 p.2)) ps -> q ∈ ps) as Hsub.
  { intros q [Hq _]%list_elem_of_In%filter_In. by apply list_elem_of_In. }
  destruct (IH (put x y b g) (k + 1)) as (Hs' & Hother & Hbit); try done; [by apply put_square | |].
  { rewrite Forall_forall in Hf |- *. intros q Hq. rewrite Forall_forall in Hin.
    rewrite (look_put s) by auto. rewrite decide_False by (intros ->; auto). by apply Hf. }
  split_and!; [done | |].
  - intros q Hq Hnq. rewrite not_elem_of_cons in Hnq. destruct Hnq as [Hne Hnq]. rewrite Hother by done.
    rewrite (look_put s) by done. by rewrite decide_False.
  - intros [|i] q Hi; cbn in Hi.
    + injection Hi as <-. rewrite Hother by (done || (intros Hq; auto)). rewrite (look_put s) by done.
      rewrite decide_True by done. unfold b. by rewrite Z.add_0_r.
    + rewrite (Hbit i q Hi). do 2 f_equal. f_equal. lia.
Qed.

(** Rewriting modules one by one from their own values. *)
Lemma rewrite_all s (c : Z * Z -> bool) ps g : square s g -> NoDup ps -> Forall (inside s) ps ->
  let g' := for_each ps (fun p g => if c p then put p.1 p.2 (negb (look g p)) g else g) g in
  square s g' /\ forall q, inside s q -> look g' q = if decide (q ∈ ps) then xorb (look g q) (c q) else look g q.
Proof.
  cbv zeta. unfold for_each. revert g. induction ps as [|p ps IH]; intros g Hs Hd Hin.
  { split; [done |]. intros q _. by rewrite decide_False by set_solver. }
  apply NoDup_cons in Hd as [Hfresh Hd]. apply Forall_cons in Hin as [Hp Hin]. cbn [fold_left].
  destruct (IH (if c p then put p.1 p.2 (negb (look g p)) g else g)) as [Hs' Hl]; try done.
  { destruct (c p); [by apply put_square | done]. }
  split; [done |]. intros q Hq. rewrite Hl by done.
  assert (look (if c p then put p.1 p.2 (negb (look g p)) g else g) q = if decide (q = p) then xorb (look g p) (c p) else look g q) as ->.
  { destruct (c p); [|by case_decide; subst; rewrite ?xorb_false_r].
    rewrite (look_put s) by (done || by destruct p). destruct p as [x y]. cbn [fst snd]. case_decide; [|done]. by rewrite xorb_true_r. }
  destruct (decide (q = p)) as [->|Hne].
  - rewrite decide_False, decide_True by (done || by left). done.
  - destruct (decide (q ∈ ps)); [rewrite decide_True by (by right) | rewrite decide_False by (rewrite elem_of_cons; tauto)]; done.
Qed.

Lemma for_each_map {A B S} (f : A -> B) l (body : B -> S -> S) s :
  for_each (map f l) body s = for_each l (fun a => body (f a)) s.
Proof. unfold for_each. revert s. induction l as [|a l IH]; intros s; [done | apply IH]. Qed.

(** The modules [place_columns] goes through, and those of the masking loop. *)
Fixpoint visits (fuel : nat) (size x : Z) (upward : bool) : list (Z * Z) :=
  match fuel with
  | O => []
  | S fuel =>
      if x <=? 0 then []
      else
        let x := if x =? 6 then x - 1 else x in
        concat (map (fun i => map (fun dx => (x + dx, if upward then size - 1 - i else i)) [0; -1]) (seqZ 0 size))
        ++ visits fuel size (x - 2) (negb upward)
  end.
Definition positions (size : Z) : list (Z * Z) :=
  concat (map (fun y => map (fun x => (x, y)) (seqZ 0 size)) (seqZ 0 size)).

Lemma place_columns_visits fuel size bits x upward s :
  place_columns fuel size bits x upward s = for_each (visits fuel size x upward) (fun p => place_module size bits p.1 p.2) s.
Proof.
  revert x upward s. induction fuel as [|fuel IH]; intros x upward s; [done |]. cbn [place_columns visits].
  destruct (x <=? 0); [done |]. rewrite for_each_app, IH. f_equal. rewrite for_each_concat.
  apply for_each_ext. intros i s' _. by rewrite for_each_map.
Qed.

Lemma apply_mask_positions size mask g :
  apply_mask size mask g = for_each (positions size) (fun p g =>
    if negb (reserved size p.1 p.2) && maskBit mask p.1 p.2 then put p.1 p.2 (negb (look g p)) g else g) g.
Proof.
  unfold apply_mask, positions. rewrite for_each_concat. apply for_each_ext. intros y g' _. rewrite for_each_map.
  apply for_each_ext. intros x g2 _. cbn [fst snd]. by destruct (reserved size x y).
Qed.

(** Where the format goes: both copies and the module beside them. *)
Definition format_places (size i : Z) : list (Z * Z) :=
  [if i <? 6 then (8, i) else if i =? 6 then (8, 7) else if i =? 7 then (8, 8) else (14 - i, 8);
   if i <? 8 then (size - 1 - i, 8) else (8, size - 15 + i)].

Lemma applyFormat_places mask g :
  applyFormat mask g = put 8 (len g - 8) true (for_each (seqZ 0 15) (fun i =>
    for_each (format_places (len g) i) (fun p => put p.1 p.2 (negb (js_and (formatBits mask) (js_shl 1 (14 - i)) =? 0)))) g).
Proof.
  unfold applyFormat. apply (f_equal (put 8 (len g - 8) true)). apply for_each_ext. intros i g' _. unfold format_places, for_each. cbn [fold_left].
  destruct (i <? 6), (i =? 6), (i =? 7), (i <? 8); done.
Qed.

Definition insideb (s : Z) (p : Z * Z) : bool := (0 <=? p.1) && (p.1 <? s) && (0 <=? p.2) && (p.2 <? s).
Lemma insideb_spec s p : insideb s p = true -> inside s p.
Proof.
  unfold insideb, inside. rewrite !andb_true_iff, !Z.leb_le, !Z.ltb_lt. lia.
Qed.

Fixpoint pairs_eqb (a b : list (Z * Z)) : bool :=
  match a, b with
  | [], [] => true
  | p :: a, q :: b => (p.1 =? q.1) && (p.2 =? q.2) && pairs_eqb a b
  | _, _ => false
  end.
Lemma pairs_eqb_eq a b : pairs_eqb a b = true -> a = b.
Proof.
  revert b. induction a as [|[x y] a IH]; intros [|[x' y'] b]; try done. cbn.
  rewrite !andb_true_iff, !Z.eqb_eq. intros [[-> ->] E]. f_equal. by apply IH.
Qed.

(** The rank of a module in the walk, and in the masking loop: no module comes
    twice. *)
Definition rank (size : Z) (p : Z * Z) : Z :=
  let c := if 6 <? p.1 then size - 1 - p.1 else size - 2 - p.1 in
  2 * size * (c / 2) + 2 * (if Z.even (c / 2) then size - 1 - p.2 else p.2) + c mod 2.

Lemma ranked_NoDup {A} (f : A -> Z) l n : str_eqb (map f l) (seqZ 0 n) = true -> NoDup l.
Proof. intros E%str_eqb_eq. apply (NoDup_fmap_1 f). change (NoDup (map f l)). rewrite E. apply NoDup_seqZ. Qed.

Lemma elem_of_positions s p : p ∈ positions s <-> inside s p.
Proof.
  unfold positions, inside. rewrite list_elem_of_In, in_concat. destruct p as [x y]. cbn [fst snd]. split.
  - intros (l & Hl & Hp). apply in_map_iff in Hl as (y' & <- & Hy%list_elem_of_In%elem_of_seqZ).
    apply in_map_iff in Hp as (x' & [= -> ->] & Hx%list_elem_of_In%elem_of_seqZ). lia.
  - intros [Hx Hy]. exists (map (fun x => (x, y)) (seqZ 0 s)). split; apply in_map_iff; eexists; (split; [reflexivity |]);
      apply list_elem_of_In, elem_of_seqZ; lia.
Qed.

(** What the proofs need of a version's layout. *)
Definition layout_ok (v : version) : bool :=
  let s := size v in
  let g := patterns s in
  pairs_eqb (visits (Z.to_nat s) s (s - 1) true) (walk s)
  && str_eqb (map (rank s) (walk s)) (seqZ 0 (s * (s - 1))) && forallb (insideb s) (walk s)
  && str_eqb (map (fun p => p.2 * s + p.1) (positions s)) (seqZ 0 (s * s))
  && (len (data_modules s) =? 8 * (data_bytes v + ecc_bytes v) + remainder_bits v)
  && forallb (fun p => negb (look g p)) (data_modules s)
  && (len g =? s) && forallb (fun row => len row =? s) g
  && forallb (fun p => insideb s p && reserved s p.1 p.2) ((8, s - 8) :: concat (map (format_places s) (seqZ 0 15))).

Lemma layouts : forallb layout_ok VERSIONS = true.
Proof. vm_compute. reflexivity. Qed.

Lemma layout v : In v VERSIONS -> let s := size v in let g := patterns s in
  visits (Z.to_nat s) s (s - 1) true = walk s /\ NoDup (walk s) /\ Forall (inside s) (walk s) /\ NoDup (positions s) /\
  len (data_modules s) = 8 * (data_bytes v + ecc_bytes v) + remainder_bits v /\
  Forall (fun p => look g p = false) (data_modules s) /\ len g = s /\ square s g /\
  Forall (fun p => inside s p /\ reserved s p.1 p.2 = true) ((8, s - 8) :: concat (map (format_places s) (seqZ 0 15))).
Proof.
  intros Hv. cbv zeta. pose proof layouts as H. rewrite forallb_forall in H. specialize (H v Hv).
  unfold layout_ok in H. rewrite !andb_true_iff, !forallb_forall in H.
  destruct H as ((((((((H1 & H2) & H3) & H4) & H5) & H6) & H7) & H8) & H9). apply Z.eqb_eq in H5, H7.
  split_and!; [by apply pairs_eqb_eq | by eapply ranked_NoDup | | by eapply ranked_NoDup | done | | done | |].
  - apply Forall_forall. intros p Hp%list_elem_of_In. by apply insideb_spec, H3.
  - apply Forall_forall. intros p Hp%list_elem_of_In. by apply negb_true_iff, H6.
  - split; [unfold len in H7; lia |]. apply Forall_forall. intros row Hrow%list_elem_of_In.
    specialize (H8 row Hrow). apply Z.eqb_eq in H8. unfold len in H8. lia.
  - apply Forall_forall. intros p Hp%list_elem_of_In. specialize (H9 p Hp).
    apply andb_true_iff in H9 as [Hi Hr]. split; [by apply insideb_spec | done].
Qed.

Lemma puts_elsewhere s on ps g : Forall (fun p => inside s p /\ reserved s p.1 p.2 = true) ps -> square s g ->
  let g' := for_each ps (fun p => put p.1 p.2 on) g in
  square s g' /\ forall q, inside s q -> reserved s q.1 q.2 = false -> look g' q = look g q.
Proof.
  cbv zeta. unfold for_each. intros Hp. revert g. induction Hp as [|p ps [Hi Hr] _ IH]; intros g Hs; [done |]. cbn [fold_left].
  destruct (IH (put p.1 p.2 on g) ltac:(by apply put_square)) as [Hs' Hl]. split; [done |].
  intros q Hq Hn. rewrite Hl by done. rewrite (look_put s) by (done || by destruct p).
  apply decide_False. intros ->. cbn in Hn. congruence.
Qed.

Lemma applyFormat_elsewhere s mask g : square s g -> 0 <= s ->
  Forall (fun p => inside s p /\ reserved s p.1 p.2 = true) ((8, s - 8) :: concat (map (format_places s) (seqZ 0 15))) ->
  square s (applyFormat mask g) /\
  forall q, inside s q -> reserved s q.1 q.2 = false -> look (applyFormat mask g) q = look g q.
Proof.
  intros Hs H0 Hp. apply Forall_cons in Hp as [[Hdark Hrd] Hp]. rewrite applyFormat_places.
  assert (len g = s) as -> by (destruct Hs as [Hl _]; unfold len; lia).
  assert (forall l g, (forall i, i ∈ l -> i ∈ seqZ 0 15) -> square s g -> let g' := for_each l (fun i => for_each (format_places s i)
     (fun p => put p.1 p.2 (negb (js_and (formatBits mask) (js_shl 1 (14 - i)) =? 0)))) g in
     square s g' /\ forall q, inside s q -> reserved s q.1 q.2 = false -> look g' q = look g q) as Hloop.
  { cbv zeta. unfold for_each at 1 3. induction l as [|i l IH]; intros g0 Hl Hs0; [done |]. cbn [fold_left].
    assert (Forall (fun p => inside s p /\ reserved s p.1 p.2 = true) (format_places s i)) as Hi.
    { apply Forall_forall. intros p Hpi. rewrite Forall_forall in Hp. apply Hp.
      apply list_elem_of_In, in_concat. exists (format_places s i). split; [|by apply list_elem_of_In].
      apply in_map, list_elem_of_In, Hl. by left. }
    destruct (puts_elsewhere s (negb (js_and (formatBits mask) (js_shl 1 (14 - i)) =? 0)) _ g0 Hi Hs0) as [Hs1 Hl1].
    destruct (IH _ ltac:(intros; apply Hl; by right) Hs1) as [Hs2 Hl2]. split; [exact Hs2 |].
    intros q Hq Hn. rewrite Hl2 by done. by apply Hl1. }
  destruct (Hloop (seqZ 0 15) g ltac:(done) Hs) as [Hs1 Hl1]. split; [by apply put_square |].
  intros q Hq Hn. rewrite (look_put s) by done. rewrite decide_False; [by apply Hl1 |].
  intros ->. cbn in Hn, Hrd. congruence.
Qed.

Lemma chooseVersion_spec n : 0 <= n ->
  match chooseVersion n with
  | Ok v => In v VERSIONS /\ n + 2 <= data_bytes v /\ n <= 106
  | Throw _ => 106 < n
  end.
Proof.
  intros Hn. unfold chooseVersion. cbn [List.find VERSIONS data_bytes].
  repeat match goal with |- context [n + 2 <=? ?m] => destruct (Z.leb_spec (n + 2) m);
    [cbn [data_bytes VERSIONS In]; split_and!; [tauto | lia | lia] |] end.
  cbn [type_error]. lia.
Qed.

Lemma version_facts v : In v VERSIONS -> In (ecc_bytes v) (map ecc_bytes VERSIONS) /\
  0 < data_bytes v < 256 /\ 0 <= ecc_bytes v /\ 0 <= remainder_bits v /\ 0 <= size v /\
  forall g : grid, len g = size v -> List.find (fun v => size v =? len g) VERSIONS = Some v.
Proof.
  intros H. split; [by apply in_map |]. cbn in H.
  destruct H as [<- | [<- | [<- | [<- | [<- | [<- | []]]]]]]; cbn -[Z.eqb]; (split_and!; [lia.. |]); intros g ->; reflexivity.
Qed.

(** The bits of the walk, once each of its modules is known. *)
Lemma read_placed g s bits rem : 0 <= rem -> len (data_modules s) = len bits + rem ->
  (forall i p, data_modules s !! i = Some p -> xorb (look g p) ((p.1 + p.2) mod 2 =? 0) = negb (read bits (Z.of_nat i) =? 0)) ->
  read_bits g s = bools bits ++ replicate (Z.to_nat rem) false.
Proof.
  intros Hrem Hl H. apply list_eq. intros i. unfold read_bits, bools. rewrite list_lookup_fmap.
  assert (forall b i, read b (Z.of_nat i) = default 0 (b !! i)) as Er.
  { intros b k. unfold read, at_index. rewrite (proj2 (Z.ltb_ge _ 0)) by lia. by rewrite Nat2Z.id. }
  destruct (data_modules s !! i) as [[x y]|] eqn:Ep; cbn [fmap option_fmap option_map].
  - pose proof (lookup_lt_Some _ _ _ Ep) as Hi. specialize (H i _ Ep). cbn [fst snd] in H. rewrite H, Er.
    destruct (decide (i < length bits)%nat) as [Hb|Hb].
    + rewrite lookup_app_l by (rewrite length_map; lia). rewrite list_lookup_fmap.
      destruct (lookup_lt_is_Some_2 bits i Hb) as [b Eb]. by rewrite Eb.
    + rewrite lookup_app_r by (rewrite length_map; lia). rewrite lookup_replicate_2 by (rewrite length_map; unfold len in *; lia).
      by rewrite (lookup_ge_None_2 bits i) by lia.
  - apply lookup_ge_None in Ep. symmetry. apply lookup_ge_None. rewrite length_app, length_map, length_replicate.
    unfold len in *. lia.
Qed.

(** What the reader finds in the modules is what [placeData] was given. *)
Lemma drawn_modules v bits : In v VERSIONS -> len bits = 8 * (data_bytes v + ecc_bytes v) ->
  let g := applyFormat 0 (apply_mask (size v) 0 (placeData bits (patterns (size v)))) in
  len g = size v /\ read_bits g (size v) = bools bits ++ replicate (Z.to_nat (remainder_bits v)) false.
Proof.
  intros Hv Hlb. cbv zeta. destruct (version_facts v Hv) as (_ & _ & _ & Hr0 & Hs0 & _).
  destruct (layout v Hv) as (Hvis & Hnd & Hin & Hndp & Hcount & Hfree & Hlen0 & Hsq & Hfmt).
  set (s := size v) in *. unfold placeData. rewrite Hlen0, place_columns_visits, Hvis.
  destruct (place_all s bits (walk s) (patterns s) 0 Hsq Hnd Hin Hfree) as (Hsq1 & _ & Hbits).
  set (g1 := (for_each (walk s) _ _).1) in *. rewrite apply_mask_positions.
  destruct (rewrite_all s (fun p => negb (reserved s p.1 p.2) && maskBit 0 p.1 p.2) (positions s) g1 Hsq1 Hndp) as [Hsq2 Hmask].
  { apply Forall_forall. intros p. apply elem_of_positions. }
  set (g2 := for_each (positions s) _ g1) in *.
  destruct (applyFormat_elsewhere s 0 g2 Hsq2 Hs0 Hfmt) as [Hsq3 Hel].
  split; [destruct Hsq3 as [Hl _]; unfold len; lia |].
  apply read_placed; [done | lia |]. intros i p Hp. rewrite <- (Z.add_0_l (Z.of_nat i)), <- (Hbits i p Hp).
  assert (p ∈ data_modules s) as Hpin by by eapply list_elem_of_lookup_2.
  apply list_elem_of_In, filter_In in Hpin as [Hpw%list_elem_of_In Hres%negb_true_iff].
  rewrite Forall_forall in Hin. specialize (Hin p Hpw). rewrite Hel, Hmask by done.
  rewrite decide_True by by apply elem_of_positions. rewrite Hres. cbn [negb andb]. change (maskBit 0 p.1 p.2) with ((p.1 + p.2) mod 2 =? 0).
  by destruct (look g1 p), ((p.1 + p.2) mod 2 =? 0).
Qed.

(** C31. The modules [encodeQr] draws outside the format area hold the link: a
    reader that walks them in the standard's order, takes the mask off, checks
    that the codewords are a multiple of the generator at every one of its
    roots and decodes the byte segment reads the text, for every text of at
    most 106 bytes; a longer one throws a [TypeError]. *)
Theorem qr_reads_back text : well_formed16 text ->
  match encodeQr text with
  | Ok g => len (utf8_encode text) <= 106 /\ read_code g = Some text
  | Throw e => 106 < len (utf8_encode text) /\ exn_kind e = TypeError
  end.
Proof.
  intros Hw. pose proof (utf8_encode_are_bytes text Hw) as Hb. unfold encodeQr.
  pose proof (chooseVersion_spec (len (utf8_encode text)) (len_nonneg _)) as Hv.
  destruct (chooseVersion _) as [v|e] eqn:Ev; cbn [mbind res_bind]; [|].
  2: { unfold chooseVersion in Ev. destruct (List.find _ _); [done |]. injection Ev as <-. by split. }
  destruct Hv as (Hv & Hlen & Hmax). split; [done |].
  destruct (version_facts v Hv) as (Hec & HD & He0 & Hr0 & Hs0 & Hfind).
  set (D := data_bytes v) in *. set (E := ecc_bytes v) in *.
  destruct (encodeData_spec text D Hb ltac:(done) ltac:(lia)) as (_ & _ & HlD & HbD).
  destruct (rsEncode_roots E (encodeData text D) Hec HbD) as (HlE & HbE & Hroots).
  set (data := encodeData text D) in *. set (ecc := rsEncode data E) in *.
  rewrite push_all. cbn [app]. set (bits := concat (map bits8 (data ++ ecc))).
  destruct (drawn_modules v bits Hv) as [Hlg Hread]; [unfold bits; rewrite len_stream, len_app; lia |].
  unfold read_code. rewrite (Hfind _ Hlg). cbn [mbind option_bind]. fold D E. rewrite Hread.
  assert (Z.to_nat (D + E) = length (data ++ ecc)) as -> by (rewrite length_app; unfold len in *; lia).
  unfold bits. rewrite codewords_stream by by apply Forall_app.
  assert (forallb (fun i => evaluate (read EXP i) (data ++ ecc) =? 0) (seqZ 0 E) = true) as ->.
  { apply forallb_forall. intros i Hi%list_elem_of_In%elem_of_seqZ. apply Z.eqb_eq, Hroots. lia. }
  rewrite take_app_length' by (unfold len in *; lia). unfold data. rewrite byte_segment_encodeData by (done || lia).
  cbn [mbind option_bind]. destruct (scalars_well_formed text Hw) as [Hsc Hc].
  unfold utf8_encode. rewrite utf8_scalars_concat by done. cbn. by rewrite Hc.
Qed.

(** The witness reads a concrete code, and refuses a long one. *)
Lemma qr_reads_back_witness :
  match encodeQr (lit "https://marks.local/link") with
  | Ok g => len (utf8_encode (lit "https://marks.local/link")) <= 106 /\ read_code g = Some (lit "https://marks.local/link")
  | Throw e => 106 < len (utf8_encode (lit "https://marks.local/link")) /\ exn_kind e = TypeError
  end.
Proof. apply qr_reads_back. apply wf16b_sound. vm_compute. reflexivity. Defined.

(** ** The format information *)

Lemma puts_kept s l g : square s g -> Forall (fun w => inside s w.1) l -> NoDup (map fst l) ->
  let g' := for_each l (fun w => put w.1.1 w.1.2 w.2) g in
  square s g' /\ (forall q, inside s q -> q ∉ map fst l -> look g' q = look g q) /\
  forall w, w ∈ l -> look g' w.1 = w.2.
Proof.
  cbv zeta. unfold for_each. revert g. induction l as [|[[x y] on] l IH]; intros g Hs Hi Hd.
  { split_and!; [done | done |]. intros w Hw. by apply not_elem_of_nil in Hw. }
  apply Forall_cons in Hi as [Hp Hi]. cbn [map fst snd fold_left] in *. apply NoDup_cons in Hd as [Hn Hd].
  destruct (IH (put x y on g)) as (Hs' & Hother & Hin); try done; [by apply put_square |].
  split_and!; [done | |].
  - intros q Hq Hnq. rewrite not_elem_of_cons in Hnq. destruct Hnq as [Hne Hnq]. rewrite Hother by done.
    rewrite (look_put s) by done. by rewrite decide_False.
  - intros w [->|Hw]%elem_of_cons; [|by apply Hin]. rewrite Hother by done. rewrite (look_put s) by done.
    by rewrite decide_True.
Qed.

(** Where the standard puts bit [i] of the second copy, bit 0 the lowest. *)
Definition standard_place (size i : Z) : Z * Z := if i <? 8 then (size - 1 - i, 8) else (8, size - 15 + i).

Definition format_writes (size mask : Z) : list (Z * Z * bool) :=
  concat (map (fun i => map (fun p => (p, negb (js_and (formatBits mask) (js_shl 1 (14 - i)) =? 0))) (format_places size i)) (seqZ 0 15))
  ++ [((8, size - 8), true)].

Lemma applyFormat_writes mask g :
  applyFormat mask g = for_each (format_writes (len g) mask) (fun w => put w.1.1 w.1.2 w.2) g.
Proof.
  rewrite applyFormat_places. unfold format_writes. rewrite for_each_app, for_each_concat. unfold for_each at 3. cbn [fold_left fst snd].
  apply (f_equal (put 8 (len g - 8) true)). apply for_each_ext. intros i g' _. by rewrite for_each_map.
Qed.

Definition writes_ok (v : version) : bool :=
  let ps := map fst (format_writes (size v) 0) in
  forallb (insideb (size v)) ps && bool_decide (NoDup (map (fun p => p.2 * size v + p.1) ps))
  && forallb (fun i => existsb (fun w => (w.1.1 =? (standard_place (size v) i).1) && (w.1.2 =? (standard_place (size v) i).2)
       && eqb w.2 (Z.testbit (formatBits 0) (14 - i))) (format_writes (size v) 0)) (seqZ 0 15).

Lemma format_copies : forallb writes_ok VERSIONS = true.
Proof. vm_compute. reflexivity. Qed.

(** The format word is drawn backwards: where a reader looks for bit [i] of the
    15, every code has bit [14 - i]. *)
Theorem format_is_reversed text g : encodeQr text = Ok g ->
  forall i, 0 <= i < 15 -> let p := standard_place (len g) i in
  get g p.1 p.2 = Z.testbit (formatBits 0) (14 - i).
Proof.
  unfold encodeQr. pose proof (chooseVersion_spec (len (utf8_encode text)) (len_nonneg _)) as Hv.
  destruct (chooseVersion _) as [v|e]; [|done]. destruct Hv as [Hv _]. cbn [mbind res_bind]. intros [= <-] i Hi. cbv zeta.
  destruct (layout v Hv) as (Hvis & Hnd & Hin & Hndp & _ & Hfree & Hlen0 & Hsq & _).
  set (s := size v) in *. unfold placeData. rewrite Hlen0, place_columns_visits, Hvis.
  set (bits := for_each _ _ []).
  destruct (place_all s bits (walk s) (patterns s) 0 Hsq Hnd Hin Hfree) as (Hsq1 & _).
  set (g1 := (for_each (walk s) _ _).1) in *. rewrite apply_mask_positions.
  destruct (rewrite_all s (fun p => negb (reserved s p.1 p.2) && maskBit 0 p.1 p.2) (positions s) g1 Hsq1 Hndp) as [Hsq2 _].
  { apply Forall_forall. intros p. apply elem_of_positions. }
  set (g2 := for_each (positions s) _ g1) in *.
  destruct (version_facts v Hv) as (_ & _ & _ & _ & Hs0 & _). fold s in Hs0.
  assert (len g2 = s) as Hl2 by (destruct Hsq2 as [Hl _]; unfold len; lia).
  pose proof format_copies as Hw. rewrite forallb_forall in Hw. specialize (Hw v Hv). unfold writes_ok in Hw.
  rewrite !andb_true_iff, !forallb_forall in Hw. destruct Hw as ((Hins & Hdis) & Hval). fold s in Hins, Hdis, Hval.
  destruct (puts_kept s (format_writes s 0) g2 Hsq2) as (Hsq3 & _ & Hk).
  { apply Forall_forall. intros w Hw. apply insideb_spec, Hins, in_map. by apply list_elem_of_In. }
  { apply bool_decide_eq_true in Hdis. by apply NoDup_fmap_1 in Hdis. }
  rewrite applyFormat_writes, Hl2. replace (len (for_each _ _ g2)) with s by (destruct Hsq3 as [Hl _]; unfold len; lia).
  specialize (Hval i ltac:(by apply list_elem_of_In, elem_of_seqZ)). apply existsb_exists in Hval as (w & Hwin & Hw).
  rewrite !andb_true_iff, !Z.eqb_eq in Hw. destruct Hw as ((Hx & Hy) & Hb%eqb_prop).
  rewrite <- Hx, <- Hy, <- Hb. apply Hk. by apply list_elem_of_In.
Qed.

(** The word as read, and its distance to the 32 valid ones: the nearest is that
    of another correction level and mask. *)
Fixpoint ones (n : nat) (z : Z) : Z := match n with O => 0 | S n => (if Z.odd z then 1 else 0) + ones n (Z.div2 z) end.
Definition valid_word (data : Z) : Z :=
  let rest := fold_left (fun w i => if Z.testbit w i then Z.lxor w (Z.shiftl 1335 (i - 10)) else w)
                [14; 13; 12; 11; 10] (Z.shiftl data 10) in
  Z.lxor (Z.lor (Z.shiftl data 10) rest) 21522.
Definition word_read : Z := fold_left (fun w i => if Z.testbit (formatBits 0) i then 2 * w + 1 else 2 * w) (seqZ 0 15) 0.

Example nearest_format :
  (* level M and mask 0 are the data 0; level Q and mask 4 the data 28 *)
  valid_word 0 = formatBits 0 /\ ones 15 (Z.lxor word_read (valid_word 0)) = 6 /\
  ones 15 (Z.lxor word_read (valid_word 28)) = 3 /\
  forallb (fun d => (d =? 28) || (3 <? ones 15 (Z.lxor word_read (valid_word d)))) (seqZ 0 32) = true.
Proof. vm_compute. done. Qed.
