(* ===== verification/Regex.v ===== *)
(** The regular expressions of the language, as far as the sources use them: the
    backtracking matcher of the specification over UTF-16 code units, with
    greedy and lazy repetition, captures and (multiline) anchors, and the
    declarative meaning it is sound for. *)

From S2P Require Import Prelude.

Inductive regex :=
| Any_of (class : Z -> bool)
| Empty
| Seq (a b : regex)
| Alt (a b : regex)
| Rep (greedy : bool) (lo : nat) (hi : option nat) (r : regex)
| Group (n : nat) (r : regex)
| At_start (multiline : bool)
| At_end (multiline : bool)
| Assert (between_units : option Z -> option Z -> bool).

(** ** Character classes *)

Definition one_of (s : jstring) (u : Z) : bool := bool_decide (u ∈ s).
Definition none_of (s : jstring) (u : Z) : bool := negb (one_of s u).
(** Line terminators, and white space as [\s] and [trim] see it. *)
Definition line_terminator (u : Z) : bool := one_of [10; 13; 8232; 8233] u.
Definition white (u : Z) : bool :=
  ((9 <=? u) && (u <=? 13)) || one_of [32; 160; 5760; 8232; 8233; 8239; 8287; 12288; 65279] u
  || ((8192 <=? u) && (u <=? 8202)).
Definition dot (u : Z) : bool := negb (line_terminator u).
Definition digit (u : Z) : bool := (48 <=? u) && (u <=? 57).
Definition letter (u : Z) : bool := ((65 <=? u) && (u <=? 90)) || ((97 <=? u) && (u <=? 122)).
Definition word_unit (u : Z) : bool := digit u || letter u || (u =? 95).

(** [r*], [r+], [r{n,m}] and a literal string. *)
Definition star (r : regex) : regex := Rep true 0 None r.
Definition plus (r : regex) : regex := Rep true 1 None r.
Definition lazy_plus (r : regex) : regex := Rep false 1 None r.
Definition between (n m : nat) (r : regex) : regex := Rep true n (Some m) r.
Definition at_least (n : nat) (r : regex) : regex := Rep true n None r.
Definition opt (r : regex) : regex := Rep true 0 (Some 1%nat) r.
Definition unit_ (u : Z) : regex := Any_of (fun v => v =? u).
Fixpoint text (s : jstring) : regex :=
  match s with [] => Empty | u :: r => Seq (unit_ u) (text r) end.
Fixpoint seq (rs : list regex) : regex :=
  match rs with [] => Empty | [r] => r | r :: rest => Seq r (seq rest) end.
Fixpoint alt (r : regex) (rs : list regex) : regex :=
  match rs with [] => r | r' :: rest => Alt r (alt r' rest) end.

(** [(?=...)] and [(?<=...)] of one unit, and the word boundary [\b]. *)
Definition next_is (class : Z -> bool) : regex :=
  Assert (fun _ v => match v with Some v => class v | None => false end).
Definition next_is_or_end (class : Z -> bool) : regex :=
  Assert (fun _ v => match v with Some v => class v | None => true end).
Definition previous_is (class : Z -> bool) : regex :=
  Assert (fun u _ => match u with Some u => class u | None => false end).
Definition word_boundary : regex :=
  Assert (fun u v => let is_word o := match o with Some u => word_unit u | None => false end in
                     negb (Bool.eqb (is_word u) (is_word v))).

(** ASCII letters under the [i] flag. *)
Definition lower (u : Z) : Z := if (65 <=? u) && (u <=? 90) then u + 32 else u.
Fixpoint text_i (s : jstring) : regex :=
  match s with [] => Empty | u :: r => Seq (Any_of (fun v => lower v =? lower u)) (text_i r) end.

(** ** Matching *)

Definition captures : Type := list (nat * (nat * nat)).

Fixpoint groups (r : regex) : list nat :=
  match r with
  | Any_of _ | Empty | At_start _ | At_end _ | Assert _ => []
  | Seq a b | Alt a b => groups a ++ groups b
  | Rep _ _ _ r => groups r
  | Group n r => n :: groups r
  end.

(** A repetition forgets what its body captured in the previous turn. *)
Definition forget (r : regex) (c : captures) : captures :=
  List.filter (fun x => negb (bool_decide (x.1 ∈ groups r))) c.

Lemma forget_none r c : groups r = [] -> forget r c = c.
Proof.
  intros E. unfold forget. rewrite E. induction c as [|z c IH]; [done |].
  cbn. rewrite bool_decide_false by apply not_elem_of_nil. cbn. by rewrite IH.
Qed.

Section Matcher.
Context (s : jstring).
Implicit Types (p q : nat) (c : captures) (r : regex).

Definition starts_line (multiline : bool) p : bool :=
  match p with
  | O => true
  | S q => multiline && match s !! q with Some u => line_terminator u | None => false end
  end.

Definition ends_line (multiline : bool) p : bool :=
  match s !! p with
  | None => true
  | Some u => multiline && line_terminator u
  end.

(** The units before and after a position, [None] at an end of the input. *)
Definition unit_before p : option Z := match p with O => None | S q => s !! q end.
Definition unit_after p : option Z := s !! p.

Definition result : Type := option (nat * captures).

(** A repetition of [a], given its matcher [m]: every turn past the minimum
    consumes a unit, so the length of the input bounds the turns. *)
Fixpoint repeat_matcher (m : nat -> captures -> (nat -> captures -> result) -> result) (a : regex)
    (greedy : bool) (fuel lo : nat) (hi : option nat) p c (k : nat -> captures -> result) : result :=
  match fuel with
  | O => None
  | S fuel =>
      match hi with
      | Some O => k p c
      | _ =>
          let more := m p (forget a c) (fun q d =>
            if bool_decide (lo = 0%nat) && bool_decide (q = p) then None
            else repeat_matcher m a greedy fuel (pred lo) (pred <$> hi) q d k) in
          match lo with
          | S _ => more
          | O =>
              if greedy then match more with Some x => Some x | None => k p c end
              else match k p c with Some x => Some x | None => more end
          end
      end
  end.

(** The continuation-passing matcher of the specification. *)
Fixpoint mtch r p c (k : nat -> captures -> result) {struct r} : result :=
  match r with
  | Any_of class =>
      match s !! p with
      | Some u => if class u then k (S p) c else None
      | None => None
      end
  | Empty => k p c
  | Seq a b => mtch a p c (fun q d => mtch b q d k)
  | Alt a b => match mtch a p c k with Some x => Some x | None => mtch b p c k end
  | Group n a => mtch a p c (fun q d => k q ((n, (p, q)) :: d))
  | At_start multiline => if starts_line multiline p then k p c else None
  | At_end multiline => if ends_line multiline p then k p c else None
  | Assert f => if f (unit_before p) (unit_after p) then k p c else None
  | Rep greedy lo hi a =>
      repeat_matcher (mtch a) a greedy (S (S (lo + length s))) lo hi p c k
  end.

Definition match_at r p : result := mtch r p [] (fun q c => Some (q, c)).

(** [r.exec(s)]: the leftmost match, as its bounds and captures. *)
Fixpoint exec_from (n p : nat) r : option (nat * nat * captures) :=
  match match_at r p with
  | Some (q, c) => Some (p, q, c)
  | None => match n with O => None | S n => exec_from n (S p) r end
  end.

Definition exec r : option (nat * nat * captures) := exec_from (length s) 0 r.
Definition test r : bool := match exec r with Some _ => true | None => false end.

(** The matches of a global expression, each searched from the end of the one
    before it, or one further when that was empty; every turn advances. *)
Definition exec_at p r : option (nat * nat * captures) :=
  if (p <=? length s)%nat then exec_from (length s - p) p r else None.

Fixpoint matches_loop (fuel p : nat) r : list (nat * nat * captures) :=
  match fuel with
  | O => []
  | S fuel =>
      match exec_at p r with
      | Some (a, b, c) => (a, b, c) :: matches_loop fuel (if (b =? a)%nat then S b else b) r
      | None => []
      end
  end.
Definition matchAll r : list (nat * nat * captures) := matches_loop (S (S (length s))) 0 r.

(** The units of a match or of a capture. *)
Definition units (a b : nat) : jstring := take (b - a) (drop a s).

(** [s.replace(r, f)] of a global expression. *)
Fixpoint replace_matches (p : nat) (ms : list (nat * nat * captures)) (f : captures -> jstring) : jstring :=
  match ms with
  | [] => drop p s
  | (a, b, c) :: ms => units p a ++ f c ++ replace_matches b ms f
  end.
Definition replaceAll r (f : captures -> jstring) : jstring := replace_matches 0 (matchAll r) f.

Definition capture (c : captures) (n : nat) : option (nat * nat) :=
  snd <$> List.find (fun x => bool_decide (x.1 = n)) c.

(** A matcher looks only at continuations further along the input. *)
Definition looks_ahead (m : nat -> captures -> (nat -> captures -> result) -> result) : Prop :=
  forall p c k k', (p <= length s)%nat ->
    (forall q d, (p <= q <= length s)%nat -> k q d = k' q d) -> m p c k = m p c k'.

Lemma repeat_matcher_ext m a greedy : looks_ahead m ->
  forall fuel lo hi p c k k', (p <= length s)%nat ->
    (forall q d, (p <= q <= length s)%nat -> k q d = k' q d) ->
    repeat_matcher m a greedy fuel lo hi p c k = repeat_matcher m a greedy fuel lo hi p c k'.
Proof.
  intros Hm fuel. induction fuel as [|fuel IH]; intros lo hi p c k k' Hp Hk; [done |].
  cbn [repeat_matcher]. cbv zeta. rewrite (Hk p c) by lia.
  erewrite (Hm p (forget a c)); [reflexivity | done |]. intros q d Hq. cbv beta.
  destruct (_ && _); [done |]. apply IH; [lia |]. intros; apply Hk; lia.
Qed.

(** Past the bound, more turns change nothing: the matcher never runs out. *)
Lemma repeat_matcher_fuel m a greedy : looks_ahead m ->
  forall fuel fuel' lo hi p c k, (p <= length s)%nat ->
    (lo + (length s - p) < fuel)%nat -> (fuel <= fuel')%nat ->
    repeat_matcher m a greedy fuel lo hi p c k = repeat_matcher m a greedy fuel' lo hi p c k.
Proof.
  intros Hm fuel. induction fuel as [|fuel IH]; intros fuel' lo hi p c k Hp Hf Hle; [lia |].
  destruct fuel' as [|fuel']; [lia |]. cbn [repeat_matcher]. cbv zeta.
  erewrite (Hm p (forget a c)); [reflexivity | done |]. intros q d Hq. cbv beta.
  destruct (bool_decide (lo = 0%nat)) eqn:El; [|apply bool_decide_eq_false in El; apply IH; lia].
  apply bool_decide_eq_true in El. destruct (bool_decide (q = p)) eqn:Eq; [done |].
  apply bool_decide_eq_false in Eq. apply IH; lia.
Qed.

Lemma mtch_ahead r : looks_ahead (mtch r).
Proof.
  induction r; intros p c k k' Hp Hk; cbn [mtch].
  - destruct (s !! p) as [u|] eqn:E; [|done]. apply lookup_lt_Some in E.
    destruct (class u); [apply Hk; lia | done].
  - apply Hk; lia.
  - apply IHr1; [done |]. intros q d Hq. apply IHr2; [lia |]. intros; apply Hk; lia.
  - by rewrite (IHr1 p c k k'), (IHr2 p c k k').
  - by apply repeat_matcher_ext.
  - apply IHr; [done |]. intros; apply Hk; lia.
  - destruct (starts_line _ _); [apply Hk; lia | done].
  - destruct (ends_line _ _); [apply Hk; lia | done].
  - destruct (between_units _ _); [apply Hk; lia | done].
Qed.

(** What a match means. *)
Inductive derives : regex -> nat * captures -> nat * captures -> Prop :=
| d_class class p c u : s !! p = Some u -> class u = true -> derives (Any_of class) (p, c) (S p, c)
| d_empty x : derives Empty x x
| d_seq a b x y z : derives a x y -> derives b y z -> derives (Seq a b) x z
| d_left a b x y : derives a x y -> derives (Alt a b) x y
| d_right a b x y : derives b x y -> derives (Alt a b) x y
| d_group n a p c q d : derives a (p, c) (q, d) -> derives (Group n a) (p, c) (q, (n, (p, q)) :: d)
| d_start multiline p c : starts_line multiline p = true -> derives (At_start multiline) (p, c) (p, c)
| d_end multiline p c : ends_line multiline p = true -> derives (At_end multiline) (p, c) (p, c)
| d_assert f p c : f (unit_before p) (unit_after p) = true -> derives (Assert f) (p, c) (p, c)
| d_stop greedy hi a x : derives (Rep greedy 0 hi a) x x
| d_more greedy lo hi a p c y z :
    hi <> Some 0%nat -> derives a (p, forget a c) y ->
    derives (Rep greedy (pred lo) (pred <$> hi) a) y z -> derives (Rep greedy lo hi a) (p, c) z.

Fixpoint well_bounded r : Prop :=
  match r with
  | Seq a b | Alt a b => well_bounded a /\ well_bounded b
  | Rep _ lo hi a => match hi with Some h => (lo <= h)%nat | None => True end /\ well_bounded a
  | Group _ a => well_bounded a
  | _ => True
  end.

Lemma mtch_sound r p c k x :
  well_bounded r -> mtch r p c k = Some x ->
  exists q d, derives r (p, c) (q, d) /\ k q d = Some x.
Proof.
  revert p c k. induction r as [class| |a IHa b IHb|a IHa b IHb|greedy lo hi a IHa|n a IHa|ml|ml|f];
    intros p c k Hb; cbn [mtch].
  - destruct (s !! p) as [u|] eqn:E; [|done]. destruct (class u) eqn:Eu; [|done].
    intros H. exists (S p), c. split; [by econstructor | done].
  - intros H. exists p, c. split; [constructor | done].
  - destruct Hb. intros (q & d & Ha & Hk')%IHa; [|done]. apply IHb in Hk' as (q' & d' & Hb' & Hk); [|done].
    exists q', d'. split; [by econstructor | done].
  - destruct Hb. destruct (mtch a p c k) eqn:E.
    + intros [= ->]. apply IHa in E as (q & d & Ha & Hk); [|done]. exists q, d. split; [by constructor | done].
    + intros (q & d & Hd & Hk)%IHb; [|done]. exists q, d. split; [by apply d_right | done].
  - destruct Hb as [Hlo Hb]. generalize (S (S (lo + length s))). intros fuel. revert lo hi p c Hlo.
    induction fuel as [|fuel IH]; intros lo hi p c Hlo; [done |].
    cbn [repeat_matcher]. set (more := mtch a p (forget a c) _).
    assert (hi <> Some 0%nat -> more = Some x ->
      exists q d, derives (Rep greedy lo hi a) (p, c) (q, d) /\ k q d = Some x) as Hmore.
    { intros Hhi (q & d & Ha & Hk')%IHa; [|done]. destruct (_ && _); [done |].
      apply IH in Hk' as (q' & d' & Hr & Hk); [|destruct hi; cbn; [lia | done]].
      exists q', d'. split; [by eapply d_more | done]. }
    destruct hi as [[|h]|]; cbn beta iota.
    + intros Hk. exists p, c. replace lo with 0%nat by lia. split; [constructor | done].
    + destruct lo; [destruct greedy |]; [destruct more; [intros [= ->]; by apply Hmore |] |
        destruct (k p c) eqn:E; [intros [= ->] |] |]; try (intros; by apply Hmore);
        intros; exists p, c; (split; [constructor | done]).
    + destruct lo; [destruct greedy |]; [destruct more; [intros [= ->]; by apply Hmore |] |
        destruct (k p c) eqn:E; [intros [= ->] |] |]; try (intros; by apply Hmore);
        intros; exists p, c; (split; [constructor | done]).
  - intros (q & d & Ha & H)%IHa; [|done]. exists q, ((n, (p, q)) :: d). split; [by constructor | done].
  - destruct (starts_line ml p) eqn:E; [|done]. intros H. exists p, c. split; [by constructor | done].
  - destruct (ends_line ml p) eqn:E; [|done]. intros H. exists p, c. split; [by constructor | done].
  - destruct (f _ _) eqn:E; [|done]. intros H. exists p, c. split; [by constructor | done].
Qed.

Lemma derives_bounds r x y : derives r x y -> (x.1 <= length s)%nat -> (x.1 <= y.1 <= length s)%nat.
Proof.
  induction 1; cbn in *; intros; try lia.
  match goal with H : s !! _ = Some _ |- _ => apply lookup_lt_Some in H end. lia.
Qed.

Lemma match_at_sound r p q c :
  well_bounded r -> match_at r p = Some (q, c) -> derives r (p, []) (q, c).
Proof. intros Hb (q' & c' & Hd & [= -> ->])%mtch_sound; done. Qed.

(** What a search finds. *)
Lemma exec_from_range r (n p a b : nat) c :
  well_bounded r -> (p + n <= length s)%nat -> exec_from n p r = Some (a, b, c) ->
  derives r (a, []) (b, c) /\ (p <= a <= b)%nat /\ (b <= length s)%nat.
Proof.
  intros Hb. revert p. induction n as [|n IH]; intros p Hp; cbn [exec_from];
    (destruct (match_at r p) as [[q' c']|] eqn:E; [intros [= -> -> ->]|]; [|try done]).
  - apply match_at_sound in E; [|done]. pose proof (derives_bounds _ _ _ E). cbn in *. split_and!; [done | lia..].
  - apply match_at_sound in E; [|done]. pose proof (derives_bounds _ _ _ E). cbn in *. split_and!; [done | lia..].
  - intros H%IH; [|lia]. destruct H as (? & ? & ?). split_and!; [done | lia..].
Qed.

Lemma exec_sound r p q c :
  well_bounded r -> exec r = Some (p, q, c) -> derives r (p, []) (q, c) /\ (p <= q <= length s)%nat.
Proof. intros Hb H%exec_from_range; [|done|lia]. destruct H as (? & ? & ?). split; [done | lia]. Qed.

(** A greedy run of a class takes the longest stretch its continuation accepts. *)
Lemma greedy_run class (k : nat -> captures -> result) x : forall n p c lo fuel,
  (forall i, (i < n)%nat -> exists u, s !! (p + i)%nat = Some u /\ class u = true) ->
  (lo <= n)%nat -> (n < fuel)%nat ->
  match s !! (p + n)%nat with Some u => class u = false | None => True end ->
  k (p + n)%nat c = Some x ->
  repeat_matcher (mtch (Any_of class)) (Any_of class) true fuel lo None p c k = Some x.
Proof.
  induction n as [|n IH]; intros p c lo fuel Hin Hlo Hfuel Hend Hk;
    (destruct fuel as [|fuel]; [lia |]); cbn [repeat_matcher mtch]; cbv zeta; rewrite (forget_none (Any_of class)) by done.
  - rewrite Nat.add_0_r in *. replace lo with 0%nat by lia.
    destruct (s !! p) as [u|]; [|done]. by rewrite Hend.
  - destruct (Hin 0%nat ltac:(lia)) as (u & Hu & Hc). rewrite Nat.add_0_r in Hu. rewrite Hu, Hc.
    rewrite (bool_decide_false (S p = p)) by lia. rewrite andb_false_r. cbn [option_map fmap option_fmap].
    assert (repeat_matcher (mtch (Any_of class)) (Any_of class) true fuel (pred lo) None (S p) c k = Some x) as E.
    { apply IH.
      - intros i Hi. destruct (Hin (S i) ltac:(lia)) as (v & Hv & ?). exists v. by rewrite <- plus_n_Sm in Hv.
      - lia.
      - lia.
      - by rewrite plus_Sn_m, plus_n_Sm.
      - by rewrite plus_Sn_m, plus_n_Sm. }
    cbn in E |- *. destruct lo; cbn in *; by rewrite E.
Qed.

(** An expression without groups captures nothing. *)
Lemma derives_no_groups r x y : derives r x y -> groups r = [] -> y.2 = x.2.
Proof.
  induction 1; cbn [groups snd] in *; intros E; try done.
  - apply app_nil in E as [? ?]. rewrite IHderives2, IHderives1; done.
  - apply app_nil in E as [? ?]. auto.
  - apply app_nil in E as [? ?]. auto.
  - rewrite IHderives2, IHderives1 by done. cbn. by apply forget_none.
Qed.

(** The matches of a global expression follow each other. *)
Fixpoint matches_follow (p : nat) (ms : list (nat * nat * captures)) : Prop :=
  match ms with
  | [] => True
  | (a, b, _) :: ms => (p <= a <= b)%nat /\ (b <= length s)%nat /\ matches_follow b ms
  end.

Lemma matchAll_follow r : well_bounded r -> matches_follow 0 (matchAll r).
Proof.
  intros Hb. unfold matchAll. generalize (S (S (length s))). intros n.
  assert (forall p q, (q <= p)%nat -> matches_follow q (matches_loop n p r)) as H; [|by apply H].
  induction n as [|n IH]; intros p q Hq; cbn [matches_loop]; [done |].
  unfold exec_at. destruct (Nat.leb_spec p (length s)); [|done].
  destruct (exec_from _ p r) as [[[a b] c]|] eqn:E; [|done].
  apply exec_from_range in E as (_ & ? & ?); [|done|lia]. cbn. split_and!; [lia..|].
  apply IH. destruct (Nat.eqb_spec b a); lia.
Qed.

(** Inversion principles for the expressions the sources are made of. *)
Lemma derives_seq a b x z : derives (Seq a b) x z -> exists y, derives a x y /\ derives b y z.
Proof. inversion 1; eauto. Qed.

Lemma derives_class class x y :
  derives (Any_of class) x y ->
  exists u, s !! x.1 = Some u /\ class u = true /\ y = (S x.1, x.2).
Proof. inversion 1; subst. eauto. Qed.

Lemma derives_group n a x y :
  derives (Group n a) x y -> groups a = [] ->
  derives a x (y.1, x.2) /\ y = (y.1, (n, (x.1, y.1)) :: x.2).
Proof.
  inversion 1 as [| | | | |n' a' p c q d Hd| | | | |]; subst. intros Hg. cbn.
  pose proof (derives_no_groups _ _ _ Hd Hg) as E. cbn in E. by subst d.
Qed.

Lemma derives_start ml x y : derives (At_start ml) x y -> starts_line ml x.1 = true /\ y = x.
Proof. by inversion 1. Qed.

Lemma derives_end ml x y : derives (At_end ml) x y -> ends_line ml x.1 = true /\ y = x.
Proof. by inversion 1. Qed.

Lemma derives_alt a b x y : derives (Alt a b) x y -> derives a x y \/ derives b x y.
Proof. inversion 1; eauto. Qed.

Lemma derives_opt a x y : derives (opt a) x y -> y = x \/ derives a (x.1, forget a x.2) y.
Proof.
  inversion 1 as [| | | | | | | | |? ? ? ? |? ? ? ? p c y' z Hhi Ha Hd]; subst; [by left | right].
  inversion Hd; subst; [done |]. by match goal with Hn : _ <> Some 0%nat |- _ => destruct Hn end.
Qed.

(** A repetition of a class: a stretch of its units. *)
Lemma derives_run g lo hi class x y :
  derives (Rep g lo hi (Any_of class)) x y ->
  y.2 = x.2 /\ (x.1 <= y.1)%nat /\ (lo <= y.1 - x.1)%nat /\
  forall i, (x.1 <= i < y.1)%nat -> exists u, s !! i = Some u /\ class u = true.
Proof.
  remember (Rep g lo hi (Any_of class)) as r. intros Hd. revert lo hi Heqr.
  induction Hd as [| | | | | | | | |g' hi' a' x'|g' lo' hi' a' p c y' z Hhi Ha _ Hd IH]; intros lo0 hi0 [= ]; subst.
  - split_and!; [done | lia..|]. lia.
  - apply derives_class in Ha as (u & Hu & Hc & ->). cbn [fst snd] in *.
    destruct (IH _ _ eq_refl) as (E & ? & ? & Hi). rewrite E. split_and!; [|lia..|].
    + by apply forget_none.
    + intros i ?. destruct (decide (i = p)) as [->|]; [by exists u | apply Hi; lia].
Qed.

Lemma derives_text t x y :
  derives (text t) x y -> y = ((x.1 + length t)%nat, x.2) /\ take (length t) (drop x.1 s) = t.
Proof.
  revert x. induction t as [|u t IH]; intros x Hd.
  - inversion Hd; subst. split; [|done]. destruct y; cbn; f_equal; lia.
  - apply derives_seq in Hd as (z & (v & Hv & Hc & ->)%derives_class & Hd). apply IH in Hd as [-> E].
    apply Z.eqb_eq in Hc. subst v. cbn [fst snd] in *. split; [cbn; f_equal; lia |].
    rewrite (drop_S s u x.1 Hv). cbn. by rewrite E.
Qed.

Lemma derives_text_i t x y :
  derives (text_i t) x y -> y = ((x.1 + length t)%nat, x.2) /\ map lower (take (length t) (drop x.1 s)) = map lower t.
Proof.
  revert x. induction t as [|u t IH]; intros x Hd.
  - inversion Hd; subst. split; [|done]. destruct y; cbn; f_equal; lia.
  - apply derives_seq in Hd as (z & (v & Hv & Hc & ->)%derives_class & Hd). apply IH in Hd as [-> E].
    apply Z.eqb_eq in Hc. cbn [fst snd] in *. split; [cbn; f_equal; lia |].
    rewrite (drop_S s v x.1 Hv). cbn. by rewrite E, Hc.
Qed.

Lemma derives_unit u x y :
  derives (Seq (unit_ u) Empty) x y -> s !! x.1 = Some u /\ y = (S x.1, x.2).
Proof.
  intros (z & (v & Hv & Hu & ->)%derives_class & He)%derives_seq. inversion He; subst.
  apply Z.eqb_eq in Hu. by subst v.
Qed.
End Matcher.

(** ** Runs in a string with known parts *)

Lemma exec_at_start s r q c : match_at s r 0 = Some (q, c) -> exec s r = Some (0%nat, q, c).
Proof. intros E. unfold exec. destruct (length s); cbn [exec_from]; by rewrite E. Qed.

(** A stretch of a string made of a class, and the unit after it. *)
Lemma stretch (pre mid post : jstring) class :
  forallb class mid = true ->
  forall i, (i < length mid)%nat -> exists u, (pre ++ mid ++ post) !! (length pre + i)%nat = Some u /\ class u = true.
Proof.
  intros Hm i Hi. destruct (lookup_lt_is_Some_2 mid i Hi) as [u Hu]. exists u.
  rewrite lookup_app_r, Nat.add_sub', lookup_app_l by lia. split; [done |].
  apply (proj1 (forallb_forall _ _) Hm). apply list_elem_of_In. by apply list_elem_of_lookup_2 in Hu.
Qed.

Lemma after_stretch (pre mid post : jstring) :
  (pre ++ mid ++ post) !! (length pre + length mid)%nat = head post.
Proof.
  rewrite lookup_app_r, Nat.add_sub' by lia. rewrite lookup_app_r, Nat.sub_diag by lia. by destruct post.
Qed.

Lemma units_mid (pre m post : jstring) a b :
  a = length pre -> b = (length pre + length m)%nat -> units (pre ++ m ++ post) a b = m.
Proof.
  intros -> ->. unfold units. rewrite drop_app_length, Nat.add_sub'. apply take_app_length.
Qed.

Lemma units_end (s pre m : jstring) a : s = pre ++ m -> a = length pre -> units s a (length s) = m.
Proof.
  intros -> ->. rewrite <- (app_nil_r m) at 1. apply units_mid; rewrite ?length_app; lia.
Qed.

Lemma derives_run_upto s g lo h class x y :
  derives s (Rep g lo (Some h) (Any_of class)) x y -> (y.1 - x.1 <= h)%nat.
Proof.
  remember (Rep g lo (Some h) (Any_of class)) as r. intros Hd. revert lo h Heqr.
  induction Hd as [| | | | | | | | |g' hi' a' x'|g' lo' hi' a' p c y' z Hhi Ha _ Hd IH]; intros lo0 h0 [= ]; subst; [lia |].
  apply derives_class in Ha as (u & Hu & Hc & ->). cbn [fst snd] in *.
  destruct h0 as [|h0]; [done |]. specialize (IH _ h0 eq_refl). lia.
Qed.

(** A bounded greedy run that its class ends before the bound. *)
Lemma greedy_run_upto s class k x : forall n p c lo h fuel,
  (forall i, (i < n)%nat -> exists u, s !! (p + i)%nat = Some u /\ class u = true) ->
  (lo <= n)%nat -> (n <= h)%nat -> (n < fuel)%nat ->
  match s !! (p + n)%nat with Some u => class u = false | None => True end ->
  k (p + n)%nat c = Some x ->
  repeat_matcher (mtch s (Any_of class)) (Any_of class) true fuel lo (Some h) p c k = Some x.
Proof.
  induction n as [|n IH]; intros p c lo h fuel Hin Hlo Hh Hfuel Hend Hk; (destruct fuel as [|fuel]; [lia |]); cbn [repeat_matcher].
  - rewrite Nat.add_0_r in *. destruct h as [|h]; [done |]. replace lo with 0%nat by lia. cbn [mtch].
    destruct (s !! p) as [u|]; [|done]. by rewrite Hend.
  - destruct h as [|h]; [lia |]. destruct (Hin 0%nat ltac:(lia)) as (u & Hu & Hc). rewrite Nat.add_0_r in Hu.
    cbn [mtch]. rewrite Hu, Hc, (forget_none (Any_of class)) by done.
    rewrite (bool_decide_false (S p = p)) by lia. rewrite andb_false_r.
    change (pred <$> Some (S h)) with (Some h).
    assert (repeat_matcher (mtch s (Any_of class)) (Any_of class) true fuel (pred lo) (Some h) (S p) c k = Some x) as E.
    { apply IH; try lia; rewrite ?plus_Sn_m, ?plus_n_Sm; try done.
      intros i Hi. destruct (Hin (S i) ltac:(lia)) as (v & Hv & ?). exists v. by rewrite <- plus_n_Sm in Hv. }
    destruct lo; cbn [pred mtch] in E |- *; by rewrite E.
Qed.

(** ** White space *)

(** [s.trimStart()], [s.trimEnd()] and [s.trim()]. *)
Fixpoint trimStart (s : jstring) : jstring :=
  match s with
  | u :: r => if white u then trimStart r else s
  | [] => []
  end.
Definition trimEnd (s : jstring) : jstring := rev (trimStart (rev s)).
Definition trim (s : jstring) : jstring := trimEnd (trimStart s).

Lemma trim_nil s : trim s = [] <-> forallb white s = true.
Proof.
  unfold trim, trimEnd. induction s as [|u r IH]; cbn [trimStart forallb]; [done |].
  destruct (white u) eqn:E; [exact IH |]. cbn. split; [|done]. intros H.
  exfalso. apply (f_equal (@rev Z)) in H. rewrite rev_involutive in H.
  assert (forall a, trimStart (a ++ [u]) <> []) as Hne.
  { induction a as [|v a IHa]; cbn; [by rewrite E | by destruct (white v)]. }
  by apply Hne in H.
Qed.
