(* ===== verification/EsbtRuntime.v ===== *)
(** The runtime of the document engine ([EsbtRuntime] of
    [client/src/collab/wasm/esbt-document.ts]): the provenance manifest and its
    validation, the verification of every core module against it, the load with
    its deadline, and the runtime the documents of a page share. *)

From S2P Require Import Prelude TextChange.
From S2P Require Import JsValue.
From S2P Require Import Regex.

(** ** The manifest *)

Definition MAX_COMPONENT_MODULE_BYTES : Z := 67108864.

Definition isRecord (v : jsval) : bool := is_object v && negb (is_array v).

Definition hex_unit (u : Z) : bool := digit u || ((97 <=? u) && (u <=? 102)).
Definition whole (r : regex) : regex := seq [At_start false; r; At_end false].
(** [/^[0-9a-f]{64}$/u], [/^[0-9a-f]{40}$/u], [/^\d+\.\d+\.\d+$/u],
    [/^rustc \d+\.\d+\.\d+ /u], and the path of a core module, with or without
    a number. *)
Definition hash_regex : regex := whole (between 64 64 (Any_of hex_unit)).
Definition revision_regex : regex := whole (between 40 40 (Any_of hex_unit)).
Definition digits : regex := plus (Any_of digit).
Definition version_numbers : regex := seq [digits; unit_ 46; digits; unit_ 46; digits].
Definition version_regex : regex := whole version_numbers.
Definition compiler_regex : regex := seq [At_start false; text (lit "rustc "); version_numbers; unit_ 32].
Definition core_regex : regex :=
  whole (seq [text (lit "/esbt.core");
              opt (Seq (Any_of (fun u => (49 <=? u) && (u <=? 57))) (star (Any_of digit))); text (lit ".wasm")]).

Definition string_matches (r : regex) (v : jsval) : bool :=
  match v with VStr s => test s r | _ => false end.

Definition validHash (v : jsval) : bool := string_matches hash_regex v.

Definition valid_size (v : jsval) : bool :=
  match as_safe_int v with Some n => (0 <? n) && (n <=? MAX_COMPONENT_MODULE_BYTES) | None => false end.

Definition isArtifactDescriptor (v : jsval) : bool :=
  isRecord v && match field v "path" with VStr (u :: _) => u =? 47 | _ => false end &&
  valid_size (field v "bytes") && validHash (field v "sha256").

Definition isComponentDescriptor (v : jsval) : bool :=
  isArtifactDescriptor v && is_lit (field v "path") "/esbt.component.wasm".
Definition isCoreDescriptor (v : jsval) : bool :=
  isArtifactDescriptor v && string_matches core_regex (field v "path").
Definition isWrapperDescriptor (v : jsval) : bool :=
  isRecord v && is_lit (field v "path") "client:collab/wasm/generated/esbt.js" &&
  valid_size (field v "bytes") && validHash (field v "sha256").

(** What is read of a descriptor. *)
Definition d_path (v : jsval) : jstring := match field v "path" with VStr p => p | _ => [] end.
Definition d_bytes (v : jsval) : Z := default 0 (as_safe_int (field v "bytes")).
Definition d_sha256 (v : jsval) : jstring := match field v "sha256" with VStr h => h | _ => [] end.
Definition core_modules (v : jsval) : list jsval := match field v "core_modules" with VArr l => l | _ => [] end.

Definition isEsbtComponentManifest (v : jsval) : bool :=
  isRecord v && is_lit (field v "schema") "esbt.component-artifact" && is_int (field v "format") 1 &&
  string_matches revision_regex (field v "engine_revision") &&
  match field v "source_dirty" with VBool _ => true | _ => false end &&
  validHash (field v "source_sha256") && validHash (field v "profile_sha256") &&
  is_lit (field v "wit_package") "esbt:document@1.0.0" && validHash (field v "wit_sha256") &&
  is_int (field v "wire_version") 1 && is_lit (field v "transpiler_package") "@bytecodealliance/jco-transpile" &&
  string_matches version_regex (field v "transpiler_version") &&
  isComponentDescriptor (field v "component") && isWrapperDescriptor (field v "wrapper") &&
  is_array (field v "core_modules") && (0 <? len (core_modules v)) && (len (core_modules v) <=? 16) &&
  forallb isCoreDescriptor (core_modules v) && bool_decide (base.NoDup (map d_path (core_modules v))) &&
  string_matches compiler_regex (field v "compiler") && is_lit (field v "target") "wasm32-unknown-unknown".

(** ** The load *)

(** [path.slice(path.lastIndexOf('/') + 1)] *)
Fixpoint up_to_slash (s : jstring) : jstring :=
  match s with u :: r => if u =? 47 then [] else u :: up_to_slash r | [] => [] end.
Definition basename (path : jstring) : jstring := rev (up_to_slash (rev path)).

(** [new Map(core_modules.map((entry) => [name, entry]))] *)
Definition byName (manifest : jsval) : list (jstring * jsval) :=
  foldl (fun m entry => mset m (basename (d_path entry)) entry) [] (core_modules manifest).

Section Load.
(** [crypto.subtle.digest('SHA-256', bytes)] in lower-case hexadecimal. *)
Context (sha256 : bytes -> jstring).

(** [verifyComponentArtifact], before and after the digest is computed. *)
Definition verify_size (bs : bytes) (descriptor : jsval) : res unit :=
  if negb (isArtifactDescriptor descriptor) then Throw (Exn TypeError "esbt: invalid component artifact descriptor")
  else if negb (len bs =? d_bytes descriptor) then Throw (Exn TypeError "esbt: byte length differs from its manifest")
  else Ok tt.
Definition verify_digest (bs : bytes) (descriptor : jsval) : res unit :=
  if negb (str_eqb (sha256 bs) (d_sha256 descriptor))
  then Throw (Exn TypeError "esbt: bytes do not match their manifest") else Ok tt.

(** The promise of one core module: its request, its body, the digest, the
    compilation; compiled, it is handed to the instantiation. *)
Inductive module_state :=
| MRequested
| MReading
| MDigesting (bs : bytes)
| MCompiling (bs : bytes)
| MCompiled (bs : bytes)
| MFailed (e : exn).

Inductive load_phase := LRequested | LReading | LInstantiating | LOver.

Inductive load_result := Runtime (manifest : jsval) (coreModuleBytes : Z) | LoadError (e : exn).

Record Load := {
  l_phase : load_phase;
  l_manifest : option jsval;
  l_compiled : list (jstring * module_state);
  l_fetched : list jstring;
  l_result : option load_result
}.

#[export] Instance load_eta : Eta Load := fun l =>
  {| l_phase := l_phase l; l_manifest := l_manifest l; l_compiled := l_compiled l; l_fetched := l_fetched l;
     l_result := l_result l |}.
#[export] Instance set_l_phase : SetField l_phase. Proof. solve_update. Defined.
#[export] Instance set_l_manifest : SetField l_manifest. Proof. solve_update. Defined.
#[export] Instance set_l_compiled : SetField l_compiled. Proof. solve_update. Defined.
#[export] Instance set_l_fetched : SetField l_fetched. Proof. solve_update. Defined.
#[export] Instance set_l_result : SetField l_result. Proof. solve_update. Defined.

Definition begin_load : Load :=
  {| l_phase := LRequested; l_manifest := None; l_compiled := []; l_fetched := []; l_result := None |}.

(** The caller's promise settles once: with the load or with the deadline. *)
Definition settle_load (r : load_result) (l : Load) : Load :=
  match l_result l with Some _ => l | None => l <| l_result := Some r |> end.

Definition load_fails (e : exn) (l : Load) : Load := settle_load (LoadError e) (l <| l_phase := LOver |>).

Definition coreModuleBytes (manifest : jsval) : Z :=
  foldl (fun sum entry => sum + d_bytes entry) 0 (core_modules manifest).

(** [new EsbtRuntime(root.engine, manifest, coreModuleBytes)] *)
Definition instantiated (m : jsval) (l : Load) : Load :=
  settle_load (Runtime m (coreModuleBytes m)) (l <| l_phase := LOver |>).

(** [loader], called by the generated instantiation for each module it needs. *)
Definition loader (name : jstring) (l : Load) : res Load :=
  match mget (l_compiled l) name with
  | Some _ => Ok l
  | None =>
      match m ← l_manifest l; mget (byName m) name with
      | None => Throw (Exn TypeError "esbt: manifest does not declare the module")
      | Some descriptor =>
          Ok (l <| l_compiled := mset (l_compiled l) name MRequested |>
                <| l_fetched := l_fetched l ++ [d_path descriptor] |>)
      end
  end.

(** What settles next for a module: the response and its status, its body, the
    digest, the compilation. *)
Inductive module_event :=
| MResponse (ok : bool)
| MBody (bs : bytes)
| MDigest
| MCompile
| MRejects (e : exn).

Definition module_step (descriptor : jsval) (e : module_event) (m : module_state) : option module_state :=
  match m, e with
  | MRequested, MResponse true => Some MReading
  | MRequested, MResponse false => Some (MFailed (Exn PlainError "esbt: failed to fetch a core module"))
  | MReading, MBody bs =>
      Some (match verify_size bs descriptor with Ok _ => MDigesting bs | Throw e => MFailed e end)
  | MDigesting bs, MDigest =>
      Some (match verify_digest bs descriptor with Ok _ => MCompiling bs | Throw e => MFailed e end)
  | MCompiling bs, MCompile => Some (MCompiled bs)
  | (MRequested | MReading | MDigesting _ | MCompiling _), MRejects e => Some (MFailed e)
  | _, _ => None
  end.

Inductive load_event :=
| LResponse (ok : bool)
| LBody (v : jsval)
| LRejects (e : exn)
| LNeeds (name : jstring)
| LModule (name : jstring) (e : module_event)
| LInstantiated (wireVersion : option Z)
| LTimeout.

Definition load_step (e : load_event) (l : Load) : option Load :=
  match l_phase l, e with
  | LRequested, LResponse true => Some (l <| l_phase := LReading |>)
  | LRequested, LResponse false => Some (load_fails (Exn PlainError "esbt: failed to fetch component manifest") l)
  | LReading, LBody v =>
      Some (if isEsbtComponentManifest v
            then l <| l_manifest := Some v |> <| l_phase := LInstantiating |>
            else load_fails (Exn TypeError "esbt: invalid component provenance manifest") l)
  | (LRequested | LReading | LInstantiating), LRejects e => Some (load_fails e l)
  | LInstantiating, LNeeds name =>
      (* an undeclared name throws into the instantiation *)
      match loader name l with Ok l => Some l | Throw e => Some (load_fails e l) end
  | LInstantiating, LInstantiated None =>
      Some (load_fails (Exn PlainError "esbt: component did not export its WIT engine interface") l)
  | LInstantiating, LInstantiated (Some version) =>
      Some (if negb (version =? 1) then load_fails (Exn (EsbtError 5) "esbt: component wire version differs from Marks") l
            else match l_manifest l with
                 | Some m => instantiated m l
                 | None => l
                 end)
  | (LInstantiating | LOver), LModule name e =>
      m ← mget (l_compiled l) name; manifest ← l_manifest l; descriptor ← mget (byName manifest) name;
      m ← module_step descriptor e m; Some (l <| l_compiled := mset (l_compiled l) name m |>)
  | _, LTimeout => Some (settle_load (LoadError (Exn PlainError "The collaboration engine took too long to start.")) l)
  | _, _ => None
  end.

Fixpoint load_run (es : list load_event) (l : Load) : option Load :=
  match es with [] => Some l | e :: r => l ← load_step e l; load_run r l end.

(** ** What is compiled *)

(** The bytes are those of a module the manifest declares. *)
Definition declared (manifest : jsval) (name : jstring) (bs : bytes) : Prop :=
  exists d, d ∈ core_modules manifest /\ basename (d_path d) = name /\ isCoreDescriptor d = true /\
    len bs = d_bytes d /\ sha256 bs = d_sha256 d.

Definition module_ok (manifest : jsval) (name : jstring) (m : module_state) : Prop :=
  exists d, mget (byName manifest) name = Some d /\
    match m with
    | MDigesting bs => len bs = d_bytes d
    | MCompiling bs | MCompiled bs => len bs = d_bytes d /\ sha256 bs = d_sha256 d
    | _ => True
    end.

(** The modules asked for are exactly those fetched, each once. *)
Definition path_of (manifest : jsval) (name : jstring) : option jstring := d_path <$> mget (byName manifest) name.

Record bound (l : Load) (manifest : jsval) : Prop := {
  b_valid : isEsbtComponentManifest manifest = true;
  b_names : NoDup (l_compiled l).*1;
  b_modules : forall name m, mget (l_compiled l) name = Some m -> module_ok manifest name m;
  b_fetched : Some <$> l_fetched l = path_of manifest <$> (l_compiled l).*1;
  b_phase : l_phase l = LInstantiating \/ l_phase l = LOver
}.

Record load_ok (l : Load) : Prop := {
  ok_manifest : match l_manifest l with
                | Some manifest => bound l manifest
                | None => l_compiled l = [] /\ l_fetched l = [] /\ l_phase l <> LInstantiating
                end;
  ok_result : forall m n, l_result l = Some (Runtime m n) -> l_manifest l = Some m /\ n = coreModuleBytes m
}.

Lemma byName_entry manifest name d :
  mget (byName manifest) name = Some d -> d ∈ core_modules manifest /\ basename (d_path d) = name.
Proof.
  unfold byName. set (all := core_modules manifest).
  assert (forall l acc, (forall x, x ∈ l -> x ∈ all) ->
    (forall x, mget acc name = Some x -> x ∈ all /\ basename (d_path x) = name) ->
    mget (foldl (fun m entry => mset m (basename (d_path entry)) entry) acc l) name = Some d ->
    d ∈ all /\ basename (d_path d) = name) as H.
  { induction l as [|y l IH]; intros acc Hl Hacc; cbn [foldl]; [by apply Hacc |].
    apply IH; [intros x Hx; apply Hl; by right |]. intros x.
    destruct (decide (basename (d_path y) = name)) as [E | Hne].
    - rewrite E, mget_mset_eq. intros [= <-]. split; [apply Hl; by left | done].
    - rewrite mget_mset_ne by done. apply Hacc. }
  by apply H.
Qed.

Lemma manifest_cores manifest d :
  isEsbtComponentManifest manifest = true -> d ∈ core_modules manifest -> isCoreDescriptor d = true.
Proof.
  unfold isEsbtComponentManifest. intros H Hd. repeat (apply andb_true_iff in H as [H ?]).
  assert (forallb isCoreDescriptor (core_modules manifest) = true) as Hall by done.
  rewrite forallb_forall in Hall. by apply Hall, list_elem_of_In.
Qed.

Lemma settle_load_ok r l :
  load_ok l -> (forall m n, r = Runtime m n -> l_manifest l = Some m /\ n = coreModuleBytes m) -> load_ok (settle_load r l).
Proof.
  intros [Hm Hr] H. unfold settle_load. destruct (l_result l) as [x|] eqn:E; [by constructor; rewrite ?E |].
  constructor; [|cbn; intros m n [= ->]; by apply H].
  cbn. revert Hm. destruct (l_manifest l); [|done]. by intros [].
Qed.

Lemma over_ok l : load_ok l -> load_ok (l <| l_phase := LOver |>).
Proof.
  intros [Hm Hr]. constructor; [|exact Hr]. cbn. revert Hm. destruct (l_manifest l).
  - intros []. constructor; try done. by right.
  - by intros (-> & -> & _).
Qed.

Lemma load_fails_ok e l : load_ok l -> load_ok (load_fails e l).
Proof. intros H. apply settle_load_ok; [by apply over_ok | done]. Qed.

Lemma loader_ok name l l' : load_ok l -> loader name l = Ok l' -> load_ok l'.
Proof.
  intros Hl. unfold loader. destruct (mget (l_compiled l) name) eqn:En; [by intros [= <-] |].
  destruct (l_manifest l) as [manifest|] eqn:Em; cbn [mbind option_bind]; [|done].
  destruct (mget (byName manifest) name) as [d|] eqn:Ed; [|done]. intros [= <-].
  destruct Hl as [Hm Hr]. rewrite Em in Hm. destruct Hm as [Hv Hn Hmod Hf Hp].
  constructor; [|exact Hr]. cbn. rewrite Em. constructor; [done | by apply mset_NoDup | | |done].
  - cbn. intros n m. destruct (decide (name = n)) as [<- | Hne].
    + rewrite mget_mset_eq. intros [= <-]. by exists d.
    + rewrite mget_mset_ne by done. apply Hmod.
  - cbn. rewrite mset_new by done. rewrite !fmap_app, Hf. cbn. unfold path_of at 3. by rewrite Ed.
Qed.

Lemma module_step_ok manifest name d e m m' :
  mget (byName manifest) name = Some d -> module_ok manifest name m -> module_step d e m = Some m' ->
  module_ok manifest name m'.
Proof.
  intros Ed (x & Ex & Hx) Hs. rewrite Ed in Ex. injection Ex as <-. exists d. split; [done |].
  destruct m as [| |bs|bs|bs|x], e as [[]|b| | |y]; try done; injection Hs as <-; try done.
  - unfold verify_size. destruct (negb (isArtifactDescriptor d)); [done |].
    destruct (Z.eqb_spec (len b) (d_bytes d)); done.
  - unfold verify_digest. destruct (str_eqb (sha256 bs) (d_sha256 d)) eqn:E; cbn [negb]; [|done].
    apply str_eqb_eq in E. done.
Qed.

Lemma module_event_ok name e l l' :
  load_ok l ->
  (m ← mget (l_compiled l) name; manifest ← l_manifest l; descriptor ← mget (byName manifest) name;
   m ← module_step descriptor e m; Some (l <| l_compiled := mset (l_compiled l) name m |>)) = Some l' ->
  load_ok l'.
Proof.
  intros [Hm Hr]. destruct (mget (l_compiled l) name) as [m|] eqn:Ec; cbn [mbind option_bind]; [|done].
  destruct (l_manifest l) as [manifest|] eqn:Em; cbn [mbind option_bind]; [|done].
  destruct (mget (byName manifest) name) as [d|] eqn:Ed; cbn [mbind option_bind]; [|done].
  destruct (module_step d e m) as [m'|] eqn:Es; cbn [mbind option_bind]; [|done]. intros [= <-].
  destruct Hm as [Hv Hn Hmod Hf Hp]. constructor; [|cbn; rewrite Em; exact Hr]. cbn. rewrite Em.
  constructor; [done | by apply mset_NoDup | | |done]; cbn.
  - intros n x. destruct (decide (name = n)) as [<- | Hne].
    + rewrite mget_mset_eq. intros [= <-]. eapply module_step_ok; [done | by apply Hmod | done].
    + rewrite mget_mset_ne by done. apply Hmod.
  - by rewrite mset_keys_old by eauto.
Qed.

Lemma body_ok v l : load_ok l -> l_phase l = LReading -> isEsbtComponentManifest v = true ->
  load_ok (l <| l_manifest := Some v |> <| l_phase := LInstantiating |>).
Proof.
  intros [Hm Hr] Hp Hv. destruct (l_manifest l) as [m|] eqn:Em.
  { destruct Hm as [_ _ _ _ [? | ?]]; congruence. }
  destruct Hm as (Hc & Hf & _). constructor; cbn; [|intros m n E; by destruct (Hr m n E)].
  constructor; cbn; rewrite ?Hc, ?Hf; try done; [constructor | by left].
Qed.

Lemma instantiated_ok m l : load_ok l -> l_manifest l = Some m ->
  load_ok (instantiated m l).
Proof. intros Hl Em. apply settle_load_ok; [by apply over_ok |]. cbn. by intros ? ? [= <- <-]. Qed.

Lemma reading_ok l : load_ok l -> l_phase l = LRequested -> load_ok (l <| l_phase := LReading |>).
Proof.
  intros [Hm Hr] Hp. constructor; [|exact Hr]. cbn. revert Hm. destruct (l_manifest l).
  - intros [_ _ _ _ [? | ?]]; congruence.
  - by intros (-> & -> & _).
Qed.

Lemma load_step_ok e l l' : load_ok l -> load_step e l = Some l' -> load_ok l'.
Proof.
  intros Hl Hs. unfold load_step in Hs.
  destruct e as [ok|v|x|name|name e|[version|]|], (l_phase l) eqn:Ep; try done;
    try (eapply module_event_ok; [exact Hl | exact Hs]);
    try (injection Hs as <-; first [by apply settle_load_ok | by apply load_fails_ok]).
  - destruct ok; injection Hs as <-; [by apply reading_ok | by apply load_fails_ok].
  - destruct (isEsbtComponentManifest v) eqn:Ev; injection Hs as <-; [by apply body_ok | by apply load_fails_ok].
  - destruct (loader name l) as [y|] eqn:E; injection Hs as <-; [by eapply loader_ok | by apply load_fails_ok].
  - destruct (negb _); injection Hs as <-; [by apply load_fails_ok |].
    pose proof (fun m => instantiated_ok m l Hl) as H. revert H.
    destruct (l_manifest l) as [m|]; intros H; [by apply H | done].
Qed.

Lemma load_run_ok es l l' : load_ok l -> load_run es l = Some l' -> load_ok l'.
Proof.
  revert l. induction es as [|e es IH]; intros l Hl; cbn [load_run]; [by intros [= <-] |].
  destruct (load_step e l) as [x|] eqn:E; cbn [mbind option_bind]; [|done]. apply IH. by eapply load_step_ok.
Qed.

Lemma begin_load_ok : load_ok begin_load.
Proof. by constructor. Qed.

Lemma paths_once manifest names fetched :
  NoDup names -> Some <$> fetched = path_of manifest <$> names -> NoDup fetched.
Proof.
  revert fetched. induction names as [|n names IH]; intros [|p fetched] Hn E; try done.
  apply NoDup_cons in Hn as [Hni Hn]. cbn in E. injection E as Ep E. constructor; [|by apply IH].
  intros Hin. apply Hni. assert (Some p ∈ path_of manifest <$> names) as Hp.
  { rewrite <- E. apply list_elem_of_fmap. by exists p. }
  apply list_elem_of_fmap in Hp as (n' & Ep' & Hn'). unfold path_of in *.
  destruct (mget (byName manifest) n) as [d|] eqn:Ed; [|done].
  destruct (mget (byName manifest) n') as [d'|] eqn:Ed'; [|done].
  apply byName_entry in Ed as [_ Ed], Ed' as [_ Ed']. cbn in Ep, Ep'. congruence.
Qed.

(** C27. Nothing but the declared engine runs: every module the page compiles
    has the name, the size and the SHA-256 digest of a core module of the
    manifest it was loaded with, whatever the server answers and in whatever
    order modules are asked for; every module is fetched at most once, from the
    path the manifest gives; and a runtime is only ever made of a manifest that
    passed validation. *)
Theorem only_declared_modules_compile es l :
  load_run es begin_load = Some l ->
  (forall name bs, mget (l_compiled l) name = Some (MCompiling bs) \/ mget (l_compiled l) name = Some (MCompiled bs) ->
    exists manifest, l_manifest l = Some manifest /\ declared manifest name bs) /\
  NoDup (l_fetched l) /\
  (forall path, path ∈ l_fetched l -> exists manifest, l_manifest l = Some manifest /\ path ∈ map d_path (core_modules manifest)) /\
  (forall manifest n, l_result l = Some (Runtime manifest n) ->
    l_manifest l = Some manifest /\ isEsbtComponentManifest manifest = true /\ n = coreModuleBytes manifest).
Proof.
  intros Hrun. destruct (load_run_ok es begin_load l begin_load_ok Hrun) as [Hm Hr].
  destruct (l_manifest l) as [manifest|] eqn:Em.
  - destruct Hm as [Hv Hn Hmod Hf _]. split_and!.
    + intros name bs H. exists manifest. split; [done |].
      assert (exists m, mget (l_compiled l) name = Some m /\ (m = MCompiling bs \/ m = MCompiled bs)) as (m & Ec & Hm)
        by (destruct H; eauto).
      destruct (Hmod name m Ec) as (d & Ed & Hd). apply byName_entry in Ed as [Hin Hbase].
      exists d. split_and!; try done; [by eapply manifest_cores | |]; destruct Hm as [-> | ->]; by destruct Hd.
    + by eapply paths_once.
    + intros path Hp. exists manifest. split; [done |].
      assert (Some path ∈ path_of manifest <$> (l_compiled l).*1) as Hin.
      { rewrite <- Hf. apply list_elem_of_fmap. by exists path. }
      apply list_elem_of_fmap in Hin as (n & En & _). unfold path_of in En.
      destruct (mget (byName manifest) n) as [d|] eqn:Ed; [|done]. injection En as ->.
      apply byName_entry in Ed as [Hin _]. apply list_elem_of_fmap. by exists d.
    + intros m n E. destruct (Hr m n E) as [[= <-] ->]. done.
  - destruct Hm as (Hc & Hf & _). rewrite Hc, Hf. split_and!; [by intros ? ? [? | ?] | constructor | by intros ? ?%not_elem_of_nil |].
    intros m n E. by destruct (Hr m n E).
Qed.
End Load.

(** ** The configuration of a document *)

Inductive strategy_kind := Midpoint | BoundaryLow | BoundaryHigh | AlternatingByDepth.
Definition numbers : Type := list (jstring * Z).

Record Strategy := { s_kind : strategy_kind; s_boundary : Z }.
Record DocumentConfig := {
  dmax : Z; base_ : Z; depth : Z; strategy : Strategy; adaptiveDmax : option numbers; limits : numbers
}.

(** [DocumentConfigInput]: [in_adaptiveDmax] tells an absent member from one that
    is [null] or [undefined]. *)
Record ConfigInput := {
  in_dmax : option Z; in_base : option Z; in_depth : option Z;
  in_strategy : option (strategy_kind * option Z);
  in_adaptiveDmax : option (option numbers);
  in_limits : option numbers
}.

(** [{ ...a, ...b }] *)
Definition spread (a b : numbers) : numbers := foldl (fun m kv => mset m kv.1 kv.2) a b.

Definition resolveConfig (defaults : DocumentConfig) (defaultAdaptive : numbers) (config : ConfigInput) : DocumentConfig :=
  {| dmax := default (dmax defaults) (in_dmax config);
     base_ := default (base_ defaults) (in_base config);
     depth := default (depth defaults) (in_depth config);
     strategy := match in_strategy config with
                 | Some (Midpoint, _) => {| s_kind := Midpoint; s_boundary := 0 |}
                 | Some (k, b) => {| s_kind := k; s_boundary := default 64 b |}
                 | None => strategy defaults
                 end;
     adaptiveDmax := match in_adaptiveDmax config with
                     | Some (Some a) => Some (spread defaultAdaptive a)
                     | Some None => None
                     | None => adaptiveDmax defaults
                     end;
     limits := spread (limits defaults) (default [] (in_limits config)) |}.

(** A spread keeps what the second object does not mention. *)
Lemma mget_spread a b k :
  mget (spread a b) k = match mget (rev b) k with Some v => Some v | None => mget a k end.
Proof.
  unfold spread. revert a. induction b as [|[k' v] b IH]; intros a; [done |]. cbn [foldl rev].
  rewrite IH. assert (forall l : numbers, mget (l ++ [(k', v)]) k =
    match mget l k with Some x => Some x | None => if decide (k' = k) then Some v else None end) as ->.
  { induction l as [|[k2 v2] l IHl]; cbn; [done |]. destruct (decide (k2 = k)); [done | exact IHl]. }
  destruct (mget (rev b) k); [done |]. destruct (decide (k' = k)) as [-> | Hne];
    [apply mget_mset_eq | by apply mget_mset_ne].
Qed.

(** ** Core modules already at hand ([fromCoreModules]) *)

(** One request of the instantiation: the modules handed out, and the sum of
    their sizes. *)
Definition core_module (get : jstring -> option bytes) (name : jstring) (st : list (jstring * bytes) * Z) :
    res (list (jstring * bytes) * Z) :=
  let '(cache, total) := st in
  match mget cache name with
  | Some _ => Ok st
  | None =>
      match get name with
      | None => Throw (Exn TypeError "esbt: missing component core module")
      | Some bs => Ok (mset cache name bs, total + len bs)
      end
  end.
Definition fromCoreModules (get : jstring -> option bytes) (names : list jstring) : res (list (jstring * bytes) * Z) :=
  foldl (fun st name => st ← st; core_module get name st) (Ok ([], 0)) names.

(** ** The runtime a page shares *)

Inductive load_status := Loading | Loaded | LoadFailed.
#[export] Instance load_status_dec : EqDecision load_status. Proof. solve_decision. Defined.

(** [sharedRuntime], the loads begun so far, and what each caller was given. *)
Record Page := { sharedRuntime : option nat; page_loads : list load_status; given : list nat }.

Definition fresh_page : Page := {| sharedRuntime := None; page_loads := []; given := [] |}.

(** [loadSharedEsbtRuntime] *)
Definition loadSharedEsbtRuntime (p : Page) : Page :=
  match sharedRuntime p with
  | Some i => {| sharedRuntime := Some i; page_loads := page_loads p; given := given p ++ [i] |}
  | None =>
      let i := length (page_loads p) in
      {| sharedRuntime := Some i; page_loads := page_loads p ++ [Loading]; given := given p ++ [i] |}
  end.

Definition runtime_settled (i : nat) (ok : bool) (p : Page) : Page :=
  {| sharedRuntime := sharedRuntime p; page_loads := <[i := if ok then Loaded else LoadFailed]> (page_loads p);
     given := given p |}.

(** [pending.catch(...)] of load [i]. *)
Definition caught (i : nat) (p : Page) : Page :=
  if bool_decide (sharedRuntime p = Some i)
  then {| sharedRuntime := None; page_loads := page_loads p; given := given p |} else p.

(** Callers, loads that settle, and the handlers of those that failed. *)
Inductive page_step (p : Page) : Page -> Prop :=
| p_call : page_step p (loadSharedEsbtRuntime p)
| p_settles i ok : page_loads p !! i = Some Loading -> page_step p (runtime_settled i ok p)
| p_catch i : page_loads p !! i = Some LoadFailed -> page_step p (caught i p).

Inductive page_steps (p : Page) : Page -> Prop :=
| ps_refl : page_steps p p
| ps_snoc q r : page_steps p q -> page_step q r -> page_steps p r.

Definition page_ok (p : Page) : Prop :=
  (forall i, i ∈ given p -> (i < length (page_loads p))%nat) /\
  match sharedRuntime p with
  | Some i => S i = length (page_loads p) /\
              forall j, (j < i)%nat -> page_loads p !! j = Some LoadFailed
  | None => forall j, (j < length (page_loads p))%nat -> page_loads p !! j = Some LoadFailed
  end.

Lemma page_step_ok p q : page_ok p -> page_step p q -> page_ok q.
Proof.
  intros [Hg Hs] []; unfold page_ok.
  - unfold loadSharedEsbtRuntime. destruct (sharedRuntime p) as [i|]; cbn.
    + destruct Hs as [Hi Hf]. split; [|done]. intros j [Hj | ->%list_elem_of_singleton]%elem_of_app; [by apply Hg | lia].
    + rewrite length_app. cbn. split.
      * intros j [Hj%Hg | ->%list_elem_of_singleton]%elem_of_app; lia.
      * split; [lia |]. intros j Hj. rewrite lookup_app_l by done. by apply Hs.
  - cbn. rewrite length_insert. split; [done |].
    assert (forall j, page_loads p !! j = Some LoadFailed -> <[i:=if ok then Loaded else LoadFailed]> (page_loads p) !! j = Some LoadFailed) as Hk.
    { intros j Hj. rewrite list_lookup_insert_ne by congruence. done. }
    destruct (sharedRuntime p); [destruct Hs as [? Hs]; split; [done |] |]; intros; by apply Hk, Hs.
  - unfold caught. case_bool_decide as E; [|done]. cbn. split; [done |]. rewrite E in Hs. destruct Hs as [Hi Hf].
    intros j Hj. destruct (decide (j = i)) as [-> | Hne]; [done |]. apply Hf. lia.
Qed.

Lemma page_steps_ok p q : page_ok p -> page_steps p q -> page_ok q.
Proof. intros Hp. induction 1; [done | by eapply page_step_ok]. Qed.

(** One runtime per page: all callers who are given a runtime are given the
    same one, and no second load is begun while one is under way or has
    succeeded; and a load that failed is not kept: once its failure is handled
    the next caller begins a new one. *)
Theorem one_shared_runtime p :
  page_steps fresh_page p ->
  (forall i j, i ∈ given p -> j ∈ given p -> page_loads p !! i = Some Loaded -> page_loads p !! j = Some Loaded -> i = j) /\
  (forall i, page_loads p !! i = Some Loaded \/ page_loads p !! i = Some Loading ->
    sharedRuntime p = Some i /\ page_loads (loadSharedEsbtRuntime p) = page_loads p) /\
  (forall i, page_loads p !! i = Some LoadFailed ->
    sharedRuntime (caught i p) <> Some i /\
    (sharedRuntime (caught i p) = None -> page_loads (loadSharedEsbtRuntime (caught i p)) = page_loads p ++ [Loading])).
Proof.
  intros Hp. apply page_steps_ok in Hp as [Hg Hs]; [|split; [by intros ? ?%not_elem_of_nil | intros; cbn in *; lia]].
  assert (forall i, page_loads p !! i = Some Loaded \/ page_loads p !! i = Some Loading -> sharedRuntime p = Some i) as Hone.
  { intros i Hi. assert (i < length (page_loads p))%nat as Hlt by (destruct Hi; by eapply lookup_lt_Some).
    destruct (sharedRuntime p) as [k|].
    - destruct Hs as [Hk Hf]. destruct (decide (i = k)) as [-> | Hne]; [done |].
      rewrite Hf in Hi by lia. by destruct Hi.
    - rewrite Hs in Hi by done. by destruct Hi. }
  split_and!.
  - intros i j _ _ Hi Hj. assert (Some i = Some j) as [= ->]; [|done].
    rewrite <- (Hone i), <- (Hone j); auto.
  - intros i Hi. rewrite (Hone i Hi). split; [done |]. unfold loadSharedEsbtRuntime. by rewrite (Hone i Hi).
  - intros i Hi. unfold caught. case_bool_decide as E; split; try done.
    intros E'. unfold loadSharedEsbtRuntime. by rewrite E'.
Qed.

(** ** A concrete load *)

Definition zeros (n : nat) : jstring := replicate n 48.
Definition described (path : string) (n : Z) : jsval :=
  VObj [(lit "path", VStr (lit path)); (lit "bytes", VNum (NInt n)); (lit "sha256", VStr (zeros 64))].
Definition demo_manifest : jsval :=
  VObj [(lit "schema", VStr (lit "esbt.component-artifact")); (lit "format", VNum (NInt 1));
        (lit "engine_revision", VStr (zeros 40)); (lit "source_dirty", VBool false);
        (lit "source_sha256", VStr (zeros 64)); (lit "profile_sha256", VStr (zeros 64));
        (lit "wit_package", VStr (lit "esbt:document@1.0.0")); (lit "wit_sha256", VStr (zeros 64));
        (lit "wire_version", VNum (NInt 1)); (lit "transpiler_package", VStr (lit "@bytecodealliance/jco-transpile"));
        (lit "transpiler_version", VStr (lit "0.12.1")); (lit "component", described "/esbt.component.wasm" 1);
        (lit "wrapper", described "client:collab/wasm/generated/esbt.js" 1);
        (lit "core_modules", VArr [described "/esbt.core.wasm" 1; described "/esbt.core2.wasm" 2]);
        (lit "compiler", VStr (lit "rustc 1.95.0 (test)")); (lit "target", VStr (lit "wasm32-unknown-unknown"))].

(** A digest that only the empty module and that of one zero byte share. *)
Definition demo_sha256 (bs : bytes) : jstring := if forallb (Z.eqb 0) bs then zeros 64 else 49 :: zeros 63.

Definition demo_load : list load_event :=
  [LResponse true; LBody demo_manifest; LNeeds (lit "esbt.core.wasm"); LNeeds (lit "esbt.core2.wasm");
   LNeeds (lit "esbt.core.wasm"); LModule (lit "esbt.core2.wasm") (MResponse true);
   LModule (lit "esbt.core.wasm") (MResponse true); LModule (lit "esbt.core.wasm") (MBody [0]);
   LModule (lit "esbt.core.wasm") MDigest; LModule (lit "esbt.core.wasm") MCompile;
   LModule (lit "esbt.core2.wasm") (MBody [0; 7]); LModule (lit "esbt.core2.wasm") MDigest].

(** The first module compiles; the second, altered on the way, does not. *)
Lemma only_declared_modules_compile_witness :
  exists l, load_run demo_sha256 demo_load begin_load = Some l /\
    map fst (l_compiled l) = [lit "esbt.core.wasm"; lit "esbt.core2.wasm"] /\
    mget (l_compiled l) (lit "esbt.core.wasm") = Some (MCompiled [0]) /\
    (exists e, mget (l_compiled l) (lit "esbt.core2.wasm") = Some (MFailed e)) /\
    NoDup (l_fetched l).
Proof.
  destruct (load_run demo_sha256 demo_load begin_load) as [l|] eqn:E; [|vm_compute in E; discriminate].
  exists l. split; [reflexivity |].
  pose proof (only_declared_modules_compile demo_sha256 demo_load l E) as (_ & Hnd & _).
  vm_compute in E. injection E as <-. split; [reflexivity |]. split; [reflexivity |].
  split; [eexists; reflexivity | exact Hnd].
Defined.

Lemma one_shared_runtime_witness :
  exists p, page_steps fresh_page p /\ given p = [0; 0; 1; 1]%nat /\ page_loads p = [LoadFailed; Loaded].
Proof.
  exists {| sharedRuntime := Some 1%nat; page_loads := [LoadFailed; Loaded]; given := [0; 0; 1; 1]%nat |}.
  assert (page_steps fresh_page {| sharedRuntime := Some 1%nat; page_loads := [LoadFailed; Loaded]; given := [0; 0; 1; 1]%nat |}) as H.
  { set (p2 := loadSharedEsbtRuntime (loadSharedEsbtRuntime fresh_page)).
    set (p4 := caught 0 (runtime_settled 0 false p2)). set (p6 := loadSharedEsbtRuntime (loadSharedEsbtRuntime p4)).
    assert (page_steps fresh_page p2) as H2
      by exact (ps_snoc _ _ _ (ps_snoc _ _ _ (ps_refl _) (p_call _)) (p_call _)).
    assert (page_steps fresh_page p4) as H4
      by exact (ps_snoc _ _ _ (ps_snoc _ _ _ H2 (p_settles p2 0 false eq_refl)) (p_catch (runtime_settled 0 false p2) 0 eq_refl)).
    assert (page_steps fresh_page p6) as H6 by exact (ps_snoc _ _ _ (ps_snoc _ _ _ H4 (p_call _)) (p_call _)).
    exact (ps_snoc _ _ _ H6 (p_settles p6 1 true eq_refl)). }
  destruct (one_shared_runtime _ H) as (_ & _ & _). split; [exact H |]. split; reflexivity.
Defined.
