(* ===== verification/PresenceView.v ===== *)
(** What the page shows of presence: remote carets and selections
    ([client/src/collab/presence-position.ts]), their publication by the editor
    ([presence.ts]) and the list of peers ([refreshPeers] of
    [esbt-engine.ts]). *)

From S2P Require Import Prelude TextChange.
From Stdlib Require Import Sorting.Sorted.
From S2P Require Import Bytes.
From S2P Require Import JsValue.
From S2P Require Import Protocol.
From S2P Require Import EsbtDocument.

(** ** The document as presence sees it *)

Record PresenceDocument := {
  pd_length : Z;
  pd_capture : Z -> Z -> CaretAffinity -> CaretAffinity -> res (bytes * bytes);
  pd_resolve : bytes -> bytes -> res (Z * Z)
}.

(** [Pick<EsbtDocument, ...>]: the two methods leave the document as it is. *)
Definition presence_document {C} `{Component C} (d : Doc C) : PresenceDocument :=
  {| pd_length := match (length_ d).2 with Ok n => n | Throw _ => 0 end;
     pd_capture := fun a h x y => (capturePresencePosition a h x y d).2;
     pd_resolve := fun a h => (resolvePresencePosition a h d).2 |}.

(** ** Selections *)

Definition captureSelectionPresence (document : PresenceDocument) (anchor head sequence : Z) : res SelectionPresence :=
  let forward := anchor <=? head in
  let direction := if forward then Forward else Backward in
  let anchorAffinity := if (anchor =? head) || forward then Before else After in
  let headAffinity := if (anchor =? head) || negb forward then Before else After in
  '(a, h) ← pd_capture document anchor head anchorAffinity headAffinity;
  Ok {| sp_anchor := a; sp_head := h; sp_direction := direction; sp_sequence := sequence |}.

Definition SEL : jstring := lit "-cm-sel".
Definition USER : jstring := lit "-cm-user".

(** [key.endsWith(suffix)], [key.slice(0, -suffix.length)] *)
Definition endsWith (key suffix : jstring) : bool :=
  (len suffix <=? len key) && str_eqb (slice_from key (len key - len suffix)) suffix.
Definition before (key suffix : jstring) : jstring := slice key 0 (- len suffix).

Record RemoteSelection := {
  rs_from : Z; rs_to : Z; rs_name : jstring; rs_colorClassName : jstring; rs_direction : SelectionDirection
}.

Definition states_of : Type := list (jstring * jsval).

(** [typeof user?.field === 'string' ? user.field : otherwise] *)
Definition text_or (user : option jsval) (k otherwise : string) : jstring :=
  match user with
  | Some v => match field v k with VStr s => s | _ => lit otherwise end
  | None => lit otherwise
  end.

(** One entry of the states: what is shown, and the newest sequence seen of every
    site. *)
Definition show_entry (states : states_of) (self : jstring) (document : option PresenceDocument)
    (seen : list (jstring * Z)) (entry : jstring * jsval) : option RemoteSelection * list (jstring * Z) :=
  let '(key, value) := entry in
  if negb (endsWith key SEL) || negb (is_object value) then (None, seen)
  else
    let site := before key SEL in
    if str_eqb site self then (None, seen)
    else
      match decodeSelectionPresence value, document with
      | Some selection, Some document =>
          if sp_sequence selection <? default (-1) (mget seen site) then (None, seen)
          else
            let seen := mset seen site (sp_sequence selection) in
            match pd_resolve document (sp_anchor selection) (sp_head selection) with
            | Throw _ => (None, seen)
            | Ok (anchor, head) =>
                if (pd_length document <? anchor) || (pd_length document <? head) then (None, seen)
                else
                  let user := mget states (site ++ USER) in
                  (Some {| rs_from := Z.min anchor head; rs_to := Z.max anchor head;
                           rs_name := text_or user "name" "Anonymous";
                           rs_colorClassName := text_or user "colorClassName" "marks-user1";
                           rs_direction := sp_direction selection |}, seen)
            end
      | _, _ => (None, seen)
      end.

Fixpoint show_entries (states : states_of) (self : jstring) (document : option PresenceDocument)
    (seen : list (jstring * Z)) (entries : states_of) : list RemoteSelection * list (jstring * Z) :=
  match entries with
  | [] => ([], seen)
  | e :: r =>
      let '(shown, seen) := show_entry states self document seen e in
      let '(more, seen) := show_entries states self document seen r in
      (match shown with Some s => s :: more | None => more end, seen)
  end.

Definition remoteSelections (states : states_of) (self : jstring) (document : option PresenceDocument)
    (seen : list (jstring * Z)) : list RemoteSelection * list (jstring * Z) :=
  show_entries states self document seen states.

(** What one entry shows on its own, given what was seen before. *)
Definition shows (states : states_of) (self : jstring) (document : option PresenceDocument)
    (seen : list (jstring * Z)) (entry : jstring * jsval) : option RemoteSelection :=
  (show_entry states self document seen entry).1.

(** ** Publication by the editor ([esbtPresence]) *)

(** [let sequence = Date.now() * 1_000] *)
Definition first_sequence (now : Z) : Z := now * 1000.

(** The editor's selection, whether it has focus, whether the page is active, and
    the document if it is open. *)
Record EditorView := {
  ev_active : bool; ev_hasFocus : bool; ev_anchor : Z; ev_head : Z; ev_document : option PresenceDocument
}.

Definition swallowed (e : exn) : bool := match exn_kind e with RangeError | EsbtError _ => true | _ => false end.

(** [publishSelection]: the sequence counter, and what is put into the store, if
    anything. *)
Definition publishSelection (view : EditorView) (sequence : Z) : Z * res (option jsval) :=
  if negb (ev_active view) || negb (ev_hasFocus view) then (sequence, Ok None)
  else
    match ev_document view with
    | None => (sequence, Ok None)
    | Some document =>
        if (pd_length document <? ev_anchor view) || (pd_length document <? ev_head view) then (sequence, Ok None)
        else
          let sequence := sequence + 1 in
          (sequence, match (selection ← captureSelectionPresence document (ev_anchor view) (ev_head view) sequence;
                            encodeSelectionPresence selection) with
                     | Ok wire => Ok (Some (wire_value wire))
                     | Throw e => if swallowed e then Ok None else Throw e
                     end)
    end.

(** ** The list of peers ([refreshPeers]) *)

Record Peer := {
  p_id : jstring; p_participantId : jstring; p_connectionId : jstring; p_name : jstring; p_colorIndex : Z;
  p_self : bool; p_selection : option (jsval * jsval)
}.

(** Numbers that are not integers are opaque here; the room stamps integers. *)
Definition colour (v : jsval) : Z :=
  match v with VNum (NInt n) => if (1 <=? n) && (n <=? 8) then n else 1 | _ => 1 end.

Definition peer_of (states : states_of) (selfKey : jstring) (entry : jstring * jsval) : option Peer :=
  let '(key, user) := entry in
  if negb (endsWith key USER) || negb (is_object user) then None
  else
    let site := before key USER in
    let connectionId := match field user "connectionId" with VStr s => s | _ => site end in
    let rawSelection := mget states (site ++ SEL) in
    Some {| p_id := connectionId;
            p_participantId := match field user "participantId" with VStr s => s | _ => connectionId end;
            p_connectionId := connectionId;
            p_name := match field user "name" with VStr s => s | _ => lit "Anonymous" end;
            p_colorIndex := colour (field user "colorIndex");
            p_self := str_eqb key selfKey;
            p_selection := match rawSelection with
                           | Some v => if is_number (field v "from") && is_number (field v "to")
                                       then Some (field v "from", field v "to") else None
                           | None => None
                           end |}.

(** [peers.sort(...)]: a stable sort; the page's own entry first, then by
    connection. *)
Section Sorting.
Context {A : Type} (le : A -> A -> bool).
Fixpoint insert_sorted (a : A) (l : list A) : list A :=
  match l with [] => [a] | b :: r => if le a b then a :: l else b :: insert_sorted a r end.
Fixpoint sort (l : list A) : list A := match l with [] => [] | a :: r => insert_sorted a (sort r) end.
End Sorting.

Section Peers.
(** [a.localeCompare(b)], whether not after. *)
Context (locale_le : jstring -> jstring -> bool).

Definition peer_le (a b : Peer) : bool :=
  if Bool.eqb (p_self a) (p_self b) then locale_le (p_connectionId a) (p_connectionId b) else p_self a.

Definition own_peer (site name : jstring) (color : Z) : Peer :=
  let id := lit "self-" ++ site in
  {| p_id := id; p_participantId := id; p_connectionId := id; p_name := name; p_colorIndex := color; p_self := true;
     p_selection := None |}.

Definition refreshPeers (states : states_of) (site name : jstring) (color : Z) : list Peer :=
  let peers := omap (peer_of states (site ++ USER)) states in
  let peers := if existsb p_self peers then peers else own_peer site name color :: peers in
  sort peer_le peers.
End Peers.

(** ** Remote carets *)

Lemma endsWith_app a suffix : endsWith (a ++ suffix) suffix = true.
Proof.
  unfold endsWith. pose proof (len_nonneg a). pose proof (len_nonneg suffix). rewrite len_app.
  rewrite (proj2 (Z.leb_le _ _)) by lia. cbn [andb].
  replace (len a + len suffix - len suffix) with (len a) by lia.
  rewrite slice_from_in by (rewrite len_app; lia). unfold len at 1. rewrite Nat2Z.id, drop_app_length. apply str_eqb_refl.
Qed.

Lemma before_app a suffix : suffix <> [] -> before (a ++ suffix) suffix = a.
Proof.
  intros Hne. unfold before, slice. pose proof (len_nonneg a). rewrite len_app.
  assert (0 < len suffix) by (destruct suffix as [|u r]; [done | rewrite len_cons; pose proof (len_nonneg r); lia]).
  rewrite (rel_index_in _ 0) by lia. unfold rel_index. zdecide.
  replace (Z.max (len a + len suffix + - len suffix) 0) with (len a) by lia.
  rewrite Z.sub_0_r. unfold len. rewrite Nat2Z.id. cbn. apply take_app_length.
Qed.

Lemma endsWith_split key suffix : endsWith key suffix = true -> suffix <> [] -> key = before key suffix ++ suffix.
Proof.
  unfold endsWith. intros [Hle Heq]%andb_true_iff Hne. apply Z.leb_le in Hle. apply str_eqb_eq in Heq.
  set (a := take (Z.to_nat (len key - len suffix)) key).
  assert (key = a ++ suffix) as E.
  { rewrite <- Heq at 1. rewrite slice_from_in by (pose proof (len_nonneg suffix); lia). symmetry. apply take_drop. }
  rewrite E at 2. by rewrite before_app.
Qed.

(** The site whose newest sequence an entry can move. *)
Definition site_of (entry : jstring * jsval) : jstring := before entry.1 SEL.

Lemma show_entry_spec states self document seen entry shown seen' :
  show_entry states self document seen entry = (shown, seen') ->
  (seen' = seen /\ shown = None) \/
  (exists s d, document = Some d /\ entry.1 = site_of entry ++ SEL /\ site_of entry <> self /\
     decodeSelectionPresence entry.2 = Some s /\ default (-1) (mget seen (site_of entry)) <= sp_sequence s /\
     seen' = mset seen (site_of entry) (sp_sequence s) /\
     (forall r, shown = Some r -> exists x y, pd_resolve d (sp_anchor s) (sp_head s) = Ok (x, y) /\
        x <= pd_length d /\ y <= pd_length d /\ rs_from r = Z.min x y /\ rs_to r = Z.max x y)).
Proof.
  destruct entry as [key value]. unfold show_entry, site_of. cbn [fst snd].
  destruct (endsWith key SEL) eqn:Ek; [cbn [negb orb] | by intros [= <- <-]; left].
  destruct (is_object value); [cbn [negb] | by intros [= <- <-]; left].
  destruct (str_eqb (before key SEL) self) eqn:Es; [by intros [= <- <-]; left |].
  destruct (decodeSelectionPresence value) as [s|]; [|by intros [= <- <-]; left].
  destruct document as [d|]; [|by intros [= <- <-]; left].
  destruct (Z.ltb_spec (sp_sequence s) (default (-1) (mget seen (before key SEL)))) as [? | Hge]; [by intros [= <- <-]; left |].
  intros H. right. exists s, d. split; [done |]. split; [by apply endsWith_split |].
  split; [intros E; by rewrite E, str_eqb_refl in Es |]. split; [done |]. split; [exact Hge |].
  destruct (pd_resolve d _ _) as [[x y]|]; [|by injection H as <- <-].
  destruct (Z.ltb_spec (pd_length d) x), (Z.ltb_spec (pd_length d) y); cbn [orb] in H; injection H as <- <-; try (by split).
  split; [done |]. intros r [= <-]. exists x, y. split_and!; done || lia.
Qed.

(** *** What a caret is, apart from how it is computed *)

(** [t] is the text under [k] of the user entry of [key], or else [otherwise]. *)
Definition user_text (states : states_of) (key : jstring) (k otherwise : string) (t : jstring) : Prop :=
  (exists v, mget states key = Some v /\ field v k = VStr t) \/
  (forall v s, mget states key = Some v -> field v k <> VStr s) /\ t = lit otherwise.

(** [r] is the caret or selection of [site], as its entry [v] publishes it: the
    decoded anchors, resolved in the document of this moment and inside it, with
    the published direction and the name and colour of the site's user entry; not
    this page's, and not older than what was seen. *)
Definition caret_of (states : states_of) (self : jstring) (d : PresenceDocument) (seen : list (jstring * Z))
    (site : jstring) (v : jsval) (r : RemoteSelection) : Prop :=
  site <> self /\ exists s x y,
    decodeSelectionPresence v = Some s /\ default (-1) (mget seen site) <= sp_sequence s /\
    pd_resolve d (sp_anchor s) (sp_head s) = Ok (x, y) /\ x <= pd_length d /\ y <= pd_length d /\
    rs_from r = Z.min x y /\ rs_to r = Z.max x y /\ rs_direction r = sp_direction s /\
    user_text states (site ++ USER) "name" "Anonymous" (rs_name r) /\
    user_text states (site ++ USER) "colorClassName" "marks-user1" (rs_colorClassName r).

Lemma text_or_user states key k otherwise t :
  text_or (mget states key) k otherwise = t <-> user_text states key k otherwise t.
Proof.
  unfold text_or, user_text. destruct (mget states key) as [v|].
  - split.
    + destruct (field v k) as [| | | | s | | |] eqn:E; intros <-;
        first [left; by exists v | right; split; [intros v' s' [= <-]; congruence | done]].
    + intros [(v' & [= <-] & ->) | [H ->]]; [done |]. specialize (H v).
      destruct (field v k) as [| | | | s | | |] eqn:E; try done. by destruct (H s).
  - split; [intros <-; by right | by intros [(v & ? & _) | [_ ->]]].
Qed.

Lemma decoded_object v s : decodeSelectionPresence v = Some s -> is_object v = true.
Proof. unfold decodeSelectionPresence. by destruct v. Qed.

Lemma shows_caret states self d seen entry r :
  shows states self (Some d) seen entry = Some r <->
  exists site v, entry = (site ++ SEL, v) /\ caret_of states self d seen site v r.
Proof.
  split.
  - destruct entry as [key value]. unfold shows, show_entry. destruct (endsWith key SEL) eqn:Ek; [|done].
    destruct (is_object value); [cbn [negb orb] |done].
    destruct (str_eqb (before key SEL) self) eqn:Es; [done |].
    destruct (decodeSelectionPresence value) as [s|] eqn:Ed; [|done].
    destruct (Z.ltb_spec (sp_sequence s) (default (-1) (mget seen (before key SEL)))); [done |].
    destruct (pd_resolve d (sp_anchor s) (sp_head s)) as [[x y]|] eqn:Er; [|done].
    destruct (Z.ltb_spec (pd_length d) x), (Z.ltb_spec (pd_length d) y); cbn [orb fst]; try done.
    intros [= <-]. exists (before key SEL), value. split; [by rewrite <- endsWith_split |].
    split; [intros E; by rewrite E, str_eqb_refl in Es |]. exists s, x, y.
    split_and!; try done; cbn [rs_name rs_colorClassName]; by apply text_or_user.
  - intros (site & v & -> & Hne & s & x & y & Ed & Hseq & Er & Hx & Hy & H1 & H2 & H3 & H4 & H5).
    unfold shows, show_entry. rewrite endsWith_app, before_app by done.
    rewrite (decoded_object _ _ Ed). cbn [negb orb]. rewrite (str_eqb_neq _ _ Hne), Ed.
    rewrite (proj2 (Z.ltb_ge _ _)) by done. rewrite Er.
    rewrite !(proj2 (Z.ltb_ge _ _)) by done. cbn [orb fst].
    apply text_or_user in H4, H5. rewrite H4, H5, <- H1, <- H2, <- H3. by destruct r.
Qed.

Lemma seen_grows states self document seen entry site :
  default (-1) (mget seen site) <= default (-1) (mget (show_entry states self document seen entry).2 site).
Proof.
  destruct (show_entry _ _ _ _ _) as [shown seen'] eqn:E. cbn [snd].
  apply show_entry_spec in E as [[-> _] | (s & d & _ & _ & _ & _ & Hge & -> & _)]; [done |].
  destruct (decide (site_of entry = site)) as [<- | Hne]; [by rewrite mget_mset_eq | by rewrite mget_mset_ne].
Qed.

Lemma entries_grow states self document seen es site :
  default (-1) (mget seen site) <= default (-1) (mget (show_entries states self document seen es).2 site).
Proof.
  revert seen. induction es as [|e es IH]; intros seen; [done |]. cbn [show_entries].
  pose proof (seen_grows states self document seen e site) as H1.
  destruct (show_entry _ _ _ _ _) as [shown seen1]. cbn [snd] in H1. specialize (IH seen1).
  destruct (show_entries _ _ _ _ _) as [more seen2]. cbn [snd] in *. lia.
Qed.

(** An entry of another site sees the same. *)
Lemma show_entry_seen states self document seen seen2 entry :
  mget seen (site_of entry) = mget seen2 (site_of entry) ->
  shows states self document seen entry = shows states self document seen2 entry.
Proof.
  destruct entry as [key value]. unfold shows, show_entry, site_of. cbn [fst]. intros E. rewrite E.
  destruct (_ || _); [done |]. destruct (str_eqb _ _); [done |]. destruct (decodeSelectionPresence value); [|done].
  destruct document as [d|]; [|done]. destruct (_ <? _); [done |]. destruct (pd_resolve _ _ _) as [[]|]; [|done].
  by destruct (_ || _).
Qed.

Lemma shows_other states self document seen site n entry :
  site_of entry <> site -> shows states self document (mset seen site n) entry = shows states self document seen entry.
Proof. intros Hne. apply show_entry_seen. by rewrite mget_mset_ne. Qed.

Lemma shows_not_selection states self document seen entry :
  endsWith entry.1 SEL = false -> shows states self document seen entry = None.
Proof. destruct entry as [key v]. cbn [fst]. intros E. unfold shows, show_entry. by rewrite E. Qed.

Lemma selection_key entry : endsWith entry.1 SEL = true -> entry.1 = site_of entry ++ SEL.
Proof. intros E. by apply endsWith_split. Qed.

(** Two entries of one list with the same site are the same key. *)
Lemma same_site (es : states_of) x y :
  x.1 ∉ es.*1 -> y ∈ es -> x.1 = site_of x ++ SEL -> endsWith y.1 SEL = true -> site_of y <> site_of x.
Proof.
  intros Hni Hy Ex Ey Es. apply Hni. rewrite Ex, <- Es, <- selection_key by done.
  apply list_elem_of_fmap. by exists y.
Qed.

Lemma show_entries_each states self document seen es :
  NoDup es.*1 ->
  (show_entries states self document seen es).1 = omap (shows states self document seen) es.
Proof.
  revert seen. induction es as [|e es IH]; intros seen Hnd; [done |]. cbn [show_entries].
  rewrite fmap_cons in Hnd. apply NoDup_cons in Hnd as [Hni Hnd].
  destruct (show_entry _ _ _ _ e) as [shown seen1] eqn:E. specialize (IH seen1 Hnd).
  destruct (show_entries _ _ _ _ es) as [more seen2] eqn:Em. cbn [fst] in *.
  assert (omap (shows states self document seen1) es = omap (shows states self document seen) es) as Heq.
  { apply show_entry_spec in E as [[-> _] | (s & d & _ & Ek & _ & _ & _ & -> & _)]; [done |].
    apply list_omap_ext, Forall2_same_length_lookup. split; [done |]. intros i x y Hx Hy. rewrite Hx in Hy.
    injection Hy as <-. destruct (endsWith x.1 SEL) eqn:Ex; [|by rewrite !shows_not_selection].
    apply shows_other. eapply same_site; [done | by eapply list_elem_of_lookup_2 | done..]. }
  assert (shows states self document seen e = shown) as Hs by (unfold shows; by rewrite E).
  rewrite IH, Heq. cbn [omap list_omap]. rewrite Hs. by destruct shown.
Qed.

Lemma entries_keep states self document seen es site :
  (forall x, x ∈ es -> endsWith x.1 SEL = true -> site_of x <> site) ->
  mget (show_entries states self document seen es).2 site = mget seen site.
Proof.
  revert seen. induction es as [|x es IH]; intros seen Hs; [done |]. cbn [show_entries].
  destruct (show_entry _ _ _ _ x) as [sx seenx] eqn:Ex.
  specialize (IH seenx (fun y Hy => Hs y ltac:(by right))).
  destruct (show_entries _ _ _ seenx es) as [mx seeny]. cbn [snd] in *. rewrite IH.
  apply show_entry_spec in Ex as [[-> _] | (s & d & _ & Ek & _ & _ & _ & -> & _)]; [done |].
  apply mget_mset_ne. apply Hs; [by left |]. rewrite Ek. apply endsWith_app.
Qed.

Lemma entries_seen states self document seen es key v r :
  NoDup es.*1 -> (key, v) ∈ es -> shows states self document seen (key, v) = Some r ->
  exists s, decodeSelectionPresence v = Some s /\
    mget (show_entries states self document seen es).2 (before key SEL) = Some (sp_sequence s).
Proof.
  revert seen. induction es as [|e es IH]; intros seen Hnd Hin Hr; [by apply not_elem_of_nil in Hin |].
  rewrite fmap_cons in Hnd. apply NoDup_cons in Hnd as [Hni Hnd]. cbn [show_entries].
  destruct (show_entry _ _ _ _ e) as [shown seen1] eqn:E.
  pose proof (entries_keep states self document seen1 es (site_of e)) as Hkeep. specialize (IH seen1 Hnd).
  destruct (show_entries states self document seen1 es) as [more seen2] eqn:Em. cbn [snd] in *.
  apply show_entry_spec in E as Hspec. apply elem_of_cons in Hin as [<- | Hin].
  - assert (shown = Some r) as -> by (unfold shows in Hr; by rewrite E in Hr).
    destruct Hspec as [[_ ?] | (s & d & _ & Ek & _ & Ed & _ & -> & _)]; [done |].
    exists s. split; [exact Ed |]. change (before key SEL) with (site_of (key, v)).
    rewrite Hkeep; [by apply mget_mset_eq |]. intros x Hx Hxe. by eapply same_site.
  - apply IH; [done |]. rewrite <- Hr.
    destruct Hspec as [[-> _] | (s & d & _ & Ek & _ & _ & _ & -> & _)]; [done |].
    destruct (endsWith key SEL) eqn:Ex; [|by rewrite !shows_not_selection].
    apply shows_other. by eapply same_site.
Qed.

(** The refreshes of one editor: every store or document notification. *)
Definition refreshes (self : jstring) (rs : list (states_of * option PresenceDocument)) (seen : list (jstring * Z)) :
    list (jstring * Z) :=
  foldl (fun seen r => (remoteSelections r.1 self r.2 seen).2) seen rs.

Lemma refreshes_grow self rs seen site :
  default (-1) (mget seen site) <= default (-1) (mget (refreshes self rs seen) site).
Proof.
  revert seen. induction rs as [|r rs IH]; intros seen; [done |]. cbn [refreshes foldl].
  specialize (IH (remoteSelections r.1 self r.2 seen).2). unfold refreshes in IH.
  pose proof (entries_grow r.1 self r.2 seen r.1 site) as H. unfold remoteSelections in *. lia.
Qed.

(** C28. Remote carets are sound and complete: whatever peers put into the store, a
    refresh shows, in the order of the store and one for every entry, exactly
    the carets that are some other site's own decoded selection, resolved in the
    document and inside it, under that site's direction, name and colour, and
    not older than what was seen of the site ([caret_of]). And a caret never
    goes back: once a site's selection was shown, an older one of that site is
    shown by no later refresh, whatever comes between. *)
Theorem remote_carets_sound states self d seen out seen' :
  NoDup states.*1 -> (forall a h x y, pd_resolve d a h = Ok (x, y) -> 0 <= x /\ 0 <= y) ->
  remoteSelections states self (Some d) seen = (out, seen') ->
  out = omap (shows states self (Some d) seen) states /\
  (forall entry r, shows states self (Some d) seen entry = Some r <->
     exists site v, entry = (site ++ SEL, v) /\ caret_of states self d seen site v r) /\
  Forall (fun r => 0 <= rs_from r <= rs_to r /\ rs_to r <= pd_length d /\
     exists site v, (site ++ SEL, v) ∈ states /\ caret_of states self d seen site v r) out /\
  (forall v, shows states self (Some d) seen (self ++ SEL, v) = None) /\
  (forall site v r, (site ++ SEL, v) ∈ states -> shows states self (Some d) seen (site ++ SEL, v) = Some r ->
     exists s, decodeSelectionPresence v = Some s /\
       forall later st doc v' s', decodeSelectionPresence v' = Some s' -> sp_sequence s' < sp_sequence s ->
         shows st self doc (refreshes self later seen') (site ++ SEL, v') = None).
Proof.
  intros Hnd Hpos E. unfold remoteSelections in E.
  pose proof (show_entries_each states self (Some d) seen states Hnd) as Hout. rewrite E in Hout. cbn [fst] in Hout.
  split; [done |]. split; [intros; apply shows_caret |]. split; [|split].
  - rewrite Hout. apply Forall_forall. intros r (e & He & Hr)%list_elem_of_omap.
    apply shows_caret in Hr as (site & v & -> & Hc). pose proof Hc as (_ & s & x & y & _ & _ & Hxy & Hx & Hy & Ef & Et & _).
    apply Hpos in Hxy. rewrite Ef, Et. split_and!; [lia .. |]. by exists site, v.
  - intros v. unfold shows, show_entry. rewrite endsWith_app, before_app by done. cbn [negb orb].
    destruct (negb _); [done |]. by rewrite str_eqb_refl.
  - intros site v r Hin Hr. destruct (entries_seen _ _ _ _ _ _ _ _ Hnd Hin Hr) as (s & Es & Hs).
    rewrite E, before_app in Hs by done. cbn [snd] in Hs. exists s. split; [done |].
    intros later st doc v' s' Es' Hlt. unfold shows, show_entry. rewrite endsWith_app, before_app by done. cbn [negb orb].
    destruct (negb _); [done |]. destruct (str_eqb _ _); [done |]. rewrite Es'. destruct doc; [|done].
    pose proof (refreshes_grow self later seen' site) as Hg. rewrite Hs in Hg. cbn [default] in Hg.
    rewrite (proj2 (Z.ltb_lt _ _)); [done |]. change (sp_sequence s <= default (-1) (mget (refreshes self later seen') site)) in Hg. lia.
Qed.

(** ** The list of peers *)

Section SortingFacts.
Context {A : Type} (le : A -> A -> bool).
Hypothesis le_total : forall a b, le a b = true \/ le b a = true.
Hypothesis le_trans : forall a b c, le a b = true -> le b c = true -> le a c = true.

Lemma insert_sorted_perm a l : insert_sorted le a l ≡ₚ a :: l.
Proof. induction l as [|b l IH]; cbn; [done |]. destruct (le a b); [done |]. rewrite IH. constructor. Qed.

Lemma sort_perm l : sort le l ≡ₚ l.
Proof. induction l as [|a l IH]; cbn; [done |]. by rewrite insert_sorted_perm, IH. Qed.

Lemma insert_sorted_sorted a l :
  StronglySorted (fun x y => le x y = true) l -> StronglySorted (fun x y => le x y = true) (insert_sorted le a l).
Proof.
  induction 1 as [|b l Hs IH Hf]; cbn; [by repeat constructor |]. destruct (le a b) eqn:E.
  - constructor; [by constructor |]. constructor; [done |]. eapply Forall_impl; [exact Hf |]. intros x Hx. by eapply le_trans.
  - constructor; [done |]. rewrite insert_sorted_perm. constructor; [|done]. by destruct (le_total a b) as [H | H]; [congruence |].
Qed.

Lemma sort_sorted l : StronglySorted (fun x y => le x y = true) (sort le l).
Proof. induction l as [|a l IH]; cbn; [constructor | by apply insert_sorted_sorted]. Qed.
End SortingFacts.

Section PeerFacts.
Context (locale_le : jstring -> jstring -> bool).
Hypothesis locale_total : forall a b, locale_le a b = true \/ locale_le b a = true.
Hypothesis locale_trans : forall a b c, locale_le a b = true -> locale_le b c = true -> locale_le a c = true.

Lemma peer_le_total a b : peer_le locale_le a b = true \/ peer_le locale_le b a = true.
Proof. unfold peer_le. destruct (p_self a), (p_self b); cbn; auto. Qed.

Lemma peer_le_trans a b c : peer_le locale_le a b = true -> peer_le locale_le b c = true -> peer_le locale_le a c = true.
Proof. unfold peer_le. destruct (p_self a), (p_self b), (p_self c); cbn; try done; apply locale_trans. Qed.

(** The entries of the list, before this page's own. *)
Definition listed (states : states_of) (site : jstring) : list Peer := omap (peer_of states (site ++ USER)) states.

Lemma peer_of_self states selfKey key v p : peer_of states selfKey (key, v) = Some p -> p_self p = str_eqb key selfKey.
Proof. unfold peer_of. destruct (_ || _); [done |]. by intros [= <-]. Qed.

Lemma others_not_self (states es : states_of) selfKey :
  selfKey ∉ es.*1 -> Forall (fun p => p_self p = false) (omap (peer_of states selfKey) es).
Proof.
  intros Hni. apply Forall_forall. intros p ((key & v) & Hin & Hp)%list_elem_of_omap.
  rewrite (peer_of_self _ _ _ _ _ Hp). apply str_eqb_neq. intros ->. apply Hni. apply list_elem_of_fmap. by exists (selfKey, v).
Qed.

(** Of the listed entries at most one is this page's. *)
Lemma one_self states selfKey es :
  NoDup es.*1 -> existsb p_self (omap (peer_of states selfKey) es) = true ->
  exists me others, omap (peer_of states selfKey) es ≡ₚ me :: others /\ p_self me = true /\ Forall (fun p => p_self p = false) others.
Proof.
  induction es as [|[key v] es IH]; [done |]. rewrite fmap_cons. intros [Hni Hnd]%NoDup_cons. cbn [omap list_omap].
  destruct (peer_of states selfKey (key, v)) as [p|] eqn:Ep; [|by apply IH].
  pose proof (peer_of_self _ _ _ _ _ Ep) as Hself. cbn [existsb]. destruct (p_self p) eqn:Es.
  - intros _. exists p, (omap (peer_of states selfKey) es). split; [done |]. split; [done |].
    apply others_not_self. symmetry in Hself. apply str_eqb_eq in Hself. by rewrite <- Hself.
  - cbn [orb]. intros He. destruct (IH Hnd He) as (me & others & Hp & Hme & Ho).
    exists me, (p :: others). split; [rewrite Hp; constructor | by split; [|constructor]].
Qed.

(** The list of peers is this page first, exactly once - from its own live
    entry, or made up when it has none yet -, then everyone else who published
    a user entry, each once, ordered by connection. *)
Theorem peers_listed states site name color :
  NoDup states.*1 ->
  exists me others,
    refreshPeers locale_le states site name color = me :: others /\
    p_self me = true /\ Forall (fun p => p_self p = false) others /\
    StronglySorted (fun a b => locale_le (p_connectionId a) (p_connectionId b) = true) others /\
    (if existsb p_self (listed states site) then me :: others ≡ₚ listed states site
     else me = own_peer site name color /\ others ≡ₚ listed states site).
Proof.
  intros Hnd. unfold refreshPeers. fold (listed states site).
  set (all := if existsb p_self (listed states site) then listed states site else own_peer site name color :: listed states site).
  assert (exists me others, all ≡ₚ me :: others /\ p_self me = true /\ Forall (fun p => p_self p = false) others /\
    (existsb p_self (listed states site) = false -> me = own_peer site name color /\ others ≡ₚ listed states site))
    as (me & others & Hall & Hme & Ho & Hown).
  { unfold all. destruct (existsb p_self (listed states site)) eqn:E.
    - destruct (one_self states (site ++ USER) states Hnd E) as (me & others & ? & ? & ?). by exists me, others.
    - exists (own_peer site name color), (listed states site). split_and!; try done.
      apply Forall_forall. intros p Hp. destruct (p_self p) eqn:Es; [|done].
      assert (existsb p_self (listed states site) = true); [|congruence].
      apply existsb_exists. exists p. split; [by apply list_elem_of_In | done]. }
  pose proof (sort_perm (peer_le locale_le) all) as Hperm.
  pose proof (sort_sorted (peer_le locale_le) peer_le_total peer_le_trans all) as Hsorted.
  destruct (sort (peer_le locale_le) all) as [|first rest] eqn:Es.
  { rewrite Hall in Hperm. by apply Permutation_nil_cons in Hperm. }
  rewrite Hall in Hperm. apply StronglySorted_inv in Hsorted as [Hrest Hfirst].
  assert (first = me) as ->.
  { assert (me ∈ first :: rest) as Hin by (rewrite Hperm; left). apply elem_of_cons in Hin as [-> | Hin]; [done |].
    rewrite Forall_forall in Hfirst. specialize (Hfirst me Hin).
    assert (first ∈ me :: others) as Hf by (rewrite <- Hperm; left).
    apply elem_of_cons in Hf as [-> | Hf]; [done |]. rewrite Forall_forall in Ho. specialize (Ho first Hf).
    unfold peer_le in Hfirst. by rewrite Ho, Hme in Hfirst. }
  apply Permutation_cons_inv in Hperm. exists me, rest. split; [done |]. split; [done |].
  assert (Forall (fun p => p_self p = false) rest) as Hr by (by rewrite Hperm). split; [done |]. split.
  - clear -Hrest Hr. induction Hrest as [|a l Hl IH Hf]; [constructor |]. apply Forall_cons in Hr as [Ha Hr].
    constructor; [by apply IH |]. rewrite Forall_forall in Hf, Hr |- *. intros x Hx. specialize (Hf x Hx).
    unfold peer_le in Hf. by rewrite Ha, Hr in Hf.
  - destruct (existsb p_self (listed states site)) eqn:E.
    + rewrite Hperm. symmetry. exact Hall.
    + destruct (Hown eq_refl) as [-> Hl]. split; [done |]. by rewrite Hperm.
Qed.
End PeerFacts.

(** What this client publishes as its selection is never shown in the list: the
    list reads numbers [from] and [to], the entry holds anchors. *)
Lemma published_selection_not_listed states selfKey site user wire p :
  mget states (site ++ SEL) = Some (wire_value wire) ->
  peer_of states selfKey (site ++ USER, user) = Some p -> p_selection p = None.
Proof.
  unfold peer_of. intros E. rewrite endsWith_app, before_app by done. destruct (_ || _); [done |].
  rewrite E. by intros [= <-].
Qed.

(** ** A concrete store *)

Definition demo_document : PresenceDocument :=
  {| pd_length := 10; pd_capture := fun a h _ _ => Ok ([a], [h]);
     pd_resolve := fun a h => match a, h with [x], [y] => if (0 <=? x) && (0 <=? y) then Ok (x, y) else Throw (Exn PlainError "")
                                            | _, _ => Throw (Exn PlainError "") end |}.

Definition selection_of (anchor head sequence : Z) : jsval :=
  match encodeSelectionPresence {| sp_anchor := [anchor]; sp_head := [head];
          sp_direction := if anchor <=? head then Forward else Backward; sp_sequence := sequence |} with
  | Ok w => wire_value w | Throw _ => VNull end.

Definition demo_states : states_of :=
  [(lit "2-cm-user", VObj [(lit "name", VStr (lit "Ada")); (lit "colorIndex", VNum (NInt 3)); (lit "connectionId", VStr (lit "7"))]);
   (lit "2-cm-sel", selection_of 8 3 5); (lit "3-cm-sel", selection_of 2 40 1);
   (lit "1-cm-sel", selection_of 1 1 9)].

Lemma remote_carets_sound_witness :
  remoteSelections demo_states (lit "1") (Some demo_document) [] =
    ([{| rs_from := 3; rs_to := 8; rs_name := lit "Ada"; rs_colorClassName := lit "marks-user1"; rs_direction := Backward |}],
     [(lit "2", 5); (lit "3", 1)]) /\
  Forall (fun r => 0 <= rs_from r <= rs_to r /\ rs_to r <= 10 /\
      exists site v, (site ++ SEL, v) ∈ demo_states /\ caret_of demo_states (lit "1") demo_document [] site v r)
    (remoteSelections demo_states (lit "1") (Some demo_document) []).1.
Proof.
  assert (remoteSelections demo_states (lit "1") (Some demo_document) [] =
    ([{| rs_from := 3; rs_to := 8; rs_name := lit "Ada"; rs_colorClassName := lit "marks-user1"; rs_direction := Backward |}],
     [(lit "2", 5); (lit "3", 1)])) as E by (vm_compute; reflexivity).
  split; [exact E |]. rewrite E.
  refine (proj1 (proj2 (proj2 (remote_carets_sound demo_states (lit "1") demo_document [] _ _ _ _ E)))).
  - apply (bool_decide_unpack _). vm_compute. exact I.
  - intros [|x [|]] [|y [|]] u v; cbn; try discriminate. destruct (Z.leb_spec 0 x), (Z.leb_spec 0 y); cbn; try discriminate.
    intros [= <- <-]. split; assumption.
Defined.

Lemma peers_listed_witness :
  map p_name (refreshPeers (fun _ _ => true) demo_states (lit "1") (lit "Me") 4) = [lit "Me"; lit "Ada"] /\
  exists me others, refreshPeers (fun _ _ => true) demo_states (lit "1") (lit "Me") 4 = me :: others /\ p_self me = true.
Proof.
  split; [vm_compute; reflexivity |].
  destruct (peers_listed (fun _ _ => true) (fun _ _ => or_introl eq_refl) (fun _ _ _ _ _ => eq_refl)
    demo_states (lit "1") (lit "Me") 4) as (me & others & E & Hme & _).
  - apply (bool_decide_unpack _). vm_compute. exact I.
  - exists me, others. split; [exact E | exact Hme].
Defined.
