(* ===== verification/SourceBlocks.v ===== *)
(** Blocks of Markdown source: the 53-bit hash that names them and the grouping
    of a token stream ([client/src/markdown/blocks.ts]), the split of a text
    into top-level source blocks and the test for an incremental pass
    ([client/src/markdown/incremental.ts]), task markers
    ([client/src/markdown/tasks.ts]) and the block a position is in
    ([client/src/collab/presence-location.ts]). *)

From Stdlib Require Import QArith.
From S2P Require Import Prelude.
From S2P Require Import Bytes.
From S2P Require Import Int32.
From S2P Require Import Regex.
From S2P Require Import TextChange.

#[local] Open Scope Z_scope.

(** ** The hash *)

Definition hash_turn (h : Z * Z) (ch : Z) : Z * Z :=
  (imul (js_xor h.1 ch) 2654435761, imul (js_xor h.2 ch) 1597334677).

(** [n.toString(36)] for a nonnegative safe integer: at most eleven digits. *)
Definition digit36 (d : Z) : Z := if d <? 10 then 48 + d else 87 + d.
Fixpoint digits36 (n : nat) (z : Z) : jstring :=
  match n with
  | O => []
  | S n => if z <? 36 then [digit36 z] else digits36 n (z / 36) ++ [digit36 (z mod 36)]
  end.
Definition toString36 (z : Z) : jstring := digits36 11 z.

Definition hashString (input : jstring) : jstring :=
  let '(h1, h2) := fold_left hash_turn input (3735928559, 1103547991) in
  let h1 := js_xor (imul (js_xor h1 (js_ushr h1 16)) 2246822507)
                   (imul (js_xor h2 (js_ushr h2 13)) 3266489909) in
  let h2 := js_xor (imul (js_xor h2 (js_ushr h2 16)) 2246822507)
                   (imul (js_xor h1 (js_ushr h1 13)) 3266489909) in
  toString36 (4294967296 * js_and 2097151 h2 + js_ushr h1 0).

(** The key of a block: its hash, numbered from the second occurrence on. *)
Definition TILDE : Z := 126.
Definition occurrence_key (base : jstring) (occurrence : Z) : jstring :=
  if occurrence =? 1 then base else base ++ [TILDE] ++ decimal occurrence.

(** ** Token groups *)

(** What the sources read of a markdown-it token. *)
Record Token := {
  nesting : Z;
  t_map : option (Z * Z);
  t_type : jstring;
  t_tag : jstring;
  t_id : option jstring;
  content : option jstring;
  children : option (list (jstring * jstring)) }.

Record TokenGroup := { g_tokens : list Token; g_line : Z; g_source : option jstring }.

(** [do { depth += nesting; index += 1 } while (index < length && depth > 0)],
    from the token at the head of the list: how many tokens it walks over. *)
Fixpoint nested_run (depth : Z) (tokens : list Token) : nat :=
  match tokens with
  | [] => O
  | t :: rest =>
      let depth := depth + nesting t in
      if 0 <? depth then S (nested_run depth rest) else 1%nat
  end.

Definition group_length (tokens : list Token) : nat :=
  match tokens with
  | [] => O
  | t :: _ => if nesting t =? 1 then nested_run 0 tokens else 1%nat
  end.

Definition NEWLINE : Z := 10.
Definition lines_of (text : jstring) : list jstring := split_on NEWLINE text.

Definition make_group (lines : list jstring) (group : list Token) : TokenGroup :=
  let map_ := match List.find (fun t => bool_decide (is_Some (t_map t))) group with
              | Some t => t_map t | None => None end in
  {| g_tokens := group;
     g_line := match map_ with Some (a, _) => a | None => -1 end;
     g_source := match map_ with
                 | Some (a, b) => Some (join [NEWLINE] (slice lines a b))
                 | None => None end |}.

Fixpoint group_loop (fuel : nat) (lines : list jstring) (tokens : list Token) : list TokenGroup :=
  match fuel, tokens with
  | S fuel, _ :: _ =>
      let n := group_length tokens in
      make_group lines (take n tokens) :: group_loop fuel lines (drop n tokens)
  | _, _ => []
  end.

Definition groupTokens (tokens : list Token) (lines : list jstring) : list TokenGroup :=
  group_loop (length tokens) lines tokens.

(** The document-wide definitions as [JSON.stringify] shows them, [None] when
    the environment has none. *)
Record env_json := {
  j_references : option jstring; j_footnotes : option jstring; j_abbreviations : option jstring }.

Definition is_heading (t : Token) : bool := str_eqb (t_type t) (lit "heading_open").

Definition envSignature (env : env_json) (tokens : list Token) : jstring :=
  let headingIds := join [0] (map (fun t => default [] (t_id t)) (List.filter is_heading tokens)) in
  join (lit ":") (map hashString
    [default [] (j_references env); default [] (j_footnotes env); default [] (j_abbreviations env); headingIds]).

Definition inline_piece (child : jstring * jstring) : jstring :=
  if existsb (str_eqb child.1) [lit "text"; lit "code_inline"; lit "emoji"; lit "image"] then child.2
  else if existsb (str_eqb child.1) [lit "softbreak"; lit "hardbreak"] then lit " "
  else [].

Definition inlineText (inline : Token) : jstring :=
  match children inline with
  | Some ((_ :: _) as cs) => trim (concat (map inline_piece cs))
  | _ => trim (default [] (content inline))
  end.

Record Heading := { h_level : Z; h_text : jstring; h_slug : jstring; h_line : Z }.

(** [Number(tag.slice(1)) || 1] for tags followed by decimal digits, as
    markdown-it's [h1] to [h6]; anything else counts as not a number. *)
Definition tag_level (tag : jstring) : Z :=
  let d := slice_from tag 1 in
  if forallb digit d && negb (len d =? 0) && negb (dec_number d =? 0) then dec_number d else 1.

Fixpoint collectHeadings (tokens : list Token) : list Heading :=
  match tokens with
  | token :: (inline :: _) as rest =>
      if is_heading token && str_eqb (t_type inline) (lit "inline")
      then {| h_level := tag_level (t_tag token); h_text := inlineText inline;
              h_slug := default [] (t_id token);
              h_line := match t_map token with Some (a, _) => a | None => 0 end |}
             :: collectHeadings rest
      else collectHeadings rest
  | _ => []
  end.

(** ** Source blocks *)

Record SourceBlock := {
  sourceStart : Z; sourceEnd : Z; start : Z; end_ : Z; source : jstring; key : jstring }.

Definition SPACE : regex := unit_ 32.

(** [/^(?:\s{0,3}(?:\[[^\]]+\]:|\*\[.+?\]:|\[\^.+?\]:))/] *)
Definition GLOBAL_DEF : regex :=
  seq [At_start false; between 0 3 (Any_of white);
       alt (seq [text (lit "["); plus (Any_of (none_of (lit "]"))); text (lit "]:")])
           [seq [text (lit "*["); lazy_plus (Any_of dot); text (lit "]:")];
            seq [text (lit "[^"); lazy_plus (Any_of dot); text (lit "]:")]]].

(** [/^( {0,3})(`{3,}|~{3,})/] *)
Definition FENCE : regex :=
  seq [At_start false; Group 1 (between 0 3 SPACE);
       Group 2 (Alt (at_least 3 (unit_ 96)) (at_least 3 (unit_ 126)))].

Definition isFence (line : jstring) : option jstring :=
  match exec line FENCE with
  | Some (_, _, c) =>
      match capture c 2 with
      | Some (a, b) => (fun u => replicate (b - a) u) <$> line !! a
      | None => None
      end
  | None => None
  end.

(** [new RegExp(`^ {0,3}${close}`)] *)
Definition closing_fence (close : jstring) : regex :=
  seq [At_start false; between 0 3 SPACE; text close].

(** [/^( {0,3})(?:[-+*] |\d+[.)] )/] *)
Definition LIST_START : regex :=
  seq [At_start false; Group 1 (between 0 3 SPACE);
       Alt (seq [Any_of (one_of (lit "-+*")); SPACE])
           (seq [plus (Any_of digit); Any_of (one_of (lit ".)")); SPACE])].
Definition isListStart (line : jstring) : bool := test line LIST_START.

(** [/^( {1,}|$)/], [/^( {0,3}#{1,6} )/] and [/^ {0,3}#{1,6}\s+\S/] *)
Definition CONTINUES : regex := seq [At_start false; Group 1 (Alt (at_least 1 SPACE) (At_end false))].
Definition HEADING : regex :=
  seq [At_start false; Group 1 (seq [between 0 3 SPACE; between 1 6 (unit_ 35); SPACE])].
Definition HEADING_SOURCE : regex :=
  seq [At_start false; between 0 3 SPACE; between 1 6 (unit_ 35); plus (Any_of white);
       Any_of (fun u => negb (white u))].

Definition blank (line : jstring) : bool := str_eqb (trim line) [].
Definition fenced (line : jstring) : bool := bool_decide (is_Some (isFence line)).

(** The inner loops, as the number of lines they step over. *)
Fixpoint skip_until (stop : jstring -> bool) (rest : list jstring) : nat :=
  match rest with
  | [] => O
  | line :: more => if stop line then O else S (skip_until stop more)
  end.

Definition fence_run (close : jstring) (rest : list jstring) : nat :=
  let n := skip_until (fun line => test line (closing_fence close)) rest in
  if (n <? length rest)%nat then S n else n.

Fixpoint list_run (rest : list jstring) : nat :=
  match rest with
  | [] => O
  | next :: more =>
      if blank next then
        let ahead := default [] (head more) in
        if isListStart ahead || test ahead CONTINUES then S (list_run more) else O
      else if fenced next || test next HEADING then O
      else S (list_run more)
  end.

Definition paragraph_run (rest : list jstring) : nat :=
  skip_until (fun next => blank next || fenced next || isListStart next || test next HEADING) rest.

(** The end of the block that starts at a non-blank line with [rest] after it. *)
Definition block_run (line : jstring) (rest : list jstring) : nat :=
  S match isFence line with
    | Some close => fence_run close rest
    | None => if isListStart line then list_run rest else paragraph_run rest
    end.

Fixpoint line_offsets (offset : Z) (lines : list jstring) : list Z :=
  match lines with
  | [] => []
  | line :: rest => offset :: line_offsets (offset + len line + 1) rest
  end.

Record split_state := { s_blocks : list SourceBlock; seen : list (jstring * Z) }.

Definition push (text : jstring) (lines : list jstring) (start end_ : Z) (st : split_state) : split_state :=
  let offsets := line_offsets 0 lines in
  let source := join [NEWLINE] (slice lines start end_) in
  if (start =? end_) && (len source =? 0) && negb (len (s_blocks st) =? 0) then st
  else
    let base := hashString source in
    let occurrence := default 0 (mget (seen st) base) + 1 in
    {| seen := mset (seen st) base occurrence;
       s_blocks := s_blocks st ++
         [{| sourceStart := default 0 (at_index offsets start);
             sourceEnd := if len lines <=? end_ then len text
                          else Z.max (default 0 (at_index offsets end_) - 1) 0;
             start := start; end_ := end_; source := source;
             key := occurrence_key base occurrence |}] |}.

(** The outer loop; every turn steps over at least one line, so the number of
    lines bounds the turns. *)
Fixpoint split_loop (fuel : nat) (text : jstring) (lines : list jstring) (index : nat)
    (st : split_state) : split_state :=
  match fuel, drop index lines with
  | S fuel, line :: rest =>
      if blank line then split_loop fuel text lines (S index) st
      else
        let n := block_run line rest in
        split_loop fuel text lines (index + n)
          (push text lines (Z.of_nat index) (Z.of_nat (index + n)) st)
  | _, _ => st
  end.

Definition splitSourceBlocks (text : jstring) : list SourceBlock :=
  let lines := lines_of text in
  let st := split_loop (length lines) text lines 0 {| s_blocks := []; seen := [] |} in
  let st := if (len (s_blocks st) =? 0) && (0 <? len text)
            then push text lines 0 (len lines) st else st in
  s_blocks st.

(** ** Incremental passes *)

Definition globalDefinitionSignature (text : jstring) : jstring :=
  hashString (join [NEWLINE] (List.filter (fun line => test line GLOBAL_DEF) (lines_of text))).

Definition headingSources (text : jstring) : list jstring :=
  List.filter (fun line => test line HEADING_SOURCE) (lines_of text).

Definition dirty_blocks (previousBlocks nextBlocks : list SourceBlock) : list SourceBlock :=
  List.filter (fun b => negb (bool_decide (key b ∈ map key previousBlocks))) nextBlocks.

Record IncrementalParse := {
  dirty : list SourceBlock; previousBlocks : list SourceBlock; nextBlocks : list SourceBlock; safe : bool }.

Definition DIRTY_RATIO_LIMIT : Q := 35 # 100.

(** The ratio is compared exactly: the quotient of two lengths is never within a
    rounding error of the limit without being equal to it. *)
Definition incrementalParseSafe (previous next : jstring) (dirtyRatioLimit : Q) : IncrementalParse :=
  let previousBlocks := splitSourceBlocks previous in
  let nextBlocks := splitSourceBlocks next in
  let dirty := dirty_blocks previousBlocks nextBlocks in
  let globalsUnchanged := str_eqb (globalDefinitionSignature previous) (globalDefinitionSignature next) in
  let headingsUnchanged := str_eqb (join [0] (headingSources previous)) (join [0] (headingSources next)) in
  let dirtyRatio := if len nextBlocks =? 0 then 0%Q else (inject_Z (len dirty) / inject_Z (len nextBlocks))%Q in
  {| dirty := dirty; previousBlocks := previousBlocks; nextBlocks := nextBlocks;
     safe := globalsUnchanged && headingsUnchanged && Qle_bool dirtyRatio dirtyRatioLimit && (0 <? len dirty) |}.

(** ** Task markers *)

(** [/^(\s*(?:[-*+]|\d+\.)\s+)\[([ xX])\]/u] *)
Definition TASK_LINE : regex :=
  seq [At_start false;
       Group 1 (seq [star (Any_of white);
                     Alt (Any_of (one_of (lit "-*+"))) (seq [plus (Any_of digit); text (lit ".")]);
                     plus (Any_of white)]);
       text (lit "["); Group 2 (Any_of (one_of (lit " xX"))); text (lit "]")].

Record TaskMarker := { marker_from : Z; checked : bool }.

Fixpoint task_loop (base lineOffset seen ordinal : Z) (lines : list jstring) : option TaskMarker :=
  match lines with
  | [] => None
  | line :: rest =>
      let next := task_loop base (lineOffset + len line + 1) in
      match exec line TASK_LINE with
      | Some (_, _, c) =>
          match capture c 1, capture c 2 with
          | Some (a1, b1), Some (a2, _) =>
              if seen =? ordinal
              then Some {| marker_from := base + lineOffset + (Z.of_nat b1 - Z.of_nat a1) + 1;
                           checked := negb (bool_decide (line !! a2 = Some 32)) |}
              else next (seen + 1) ordinal rest
          | _, _ => next seen ordinal rest
          end
      | None => next seen ordinal rest
      end
  end.

Definition taskMarkerAt (source : jstring) (sourceStart sourceEnd ordinal : Z) : option TaskMarker :=
  if negb (isSafeInteger sourceStart) || negb (isSafeInteger sourceEnd) || negb (isSafeInteger ordinal)
     || (sourceStart <? 0) || (sourceEnd <? sourceStart) || (len source <? sourceEnd) || (ordinal <? 0)
  then None
  else task_loop sourceStart 0 0 ordinal (lines_of (slice source sourceStart sourceEnd)).

(** ** Token groups cover the stream *)

Lemma nested_run_pos depth tokens : (length tokens <> 0)%nat -> (0 < nested_run depth tokens)%nat.
Proof. destruct tokens; cbn [length nested_run]; [lia |]. intros _. destruct (0 <? _); lia. Qed.

Lemma group_length_pos tokens : (length tokens <> 0)%nat -> (0 < group_length tokens)%nat.
Proof.
  destruct tokens as [|t tokens]; [done |]. intros. unfold group_length.
  destruct (nesting t =? 1); [by apply nested_run_pos | lia].
Qed.

Lemma group_loop_concat fuel lines tokens :
  (length tokens <= fuel)%nat -> concat (map g_tokens (group_loop fuel lines tokens)) = tokens.
Proof.
  revert tokens. induction fuel as [|fuel IH]; intros tokens Hf; [destruct tokens; [done | cbn in Hf; lia] |].
  destruct tokens as [|t tokens]; [done |]. cbn [group_loop]. cbv zeta. cbn [map concat].
  pose proof (group_length_pos (t :: tokens) ltac:(done)). rewrite IH.
  - apply take_drop.
  - rewrite length_drop. lia.
Qed.

(** No token is lost, duplicated or reordered by the grouping, whatever the
    nesting of the stream; the loop never runs out. *)
Lemma groupTokens_concat tokens lines : concat (map g_tokens (groupTokens tokens lines)) = tokens.
Proof. by apply group_loop_concat. Qed.

(** ** Offsets of lines *)

(** The length of the first [n] lines with their newlines. *)
Definition offset_of (lines : list jstring) (n : nat) : Z :=
  foldr (fun line acc => len line + 1 + acc) 0 (take n lines).

Lemma offset_of_app a b : offset_of (a ++ b) (length a) = offset_of a (length a).
Proof. unfold offset_of. by rewrite take_app_length, firstn_all. Qed.

Lemma offset_of_cons line lines n : offset_of (line :: lines) (S n) = len line + 1 + offset_of lines n.
Proof. done. Qed.

Lemma line_offsets_lookup off lines i :
  (i < length lines)%nat -> line_offsets off lines !! i = Some (off + offset_of lines i).
Proof.
  revert off i. induction lines as [|line lines IH]; intros off i Hi; [cbn in Hi; lia |].
  destruct i as [|i]; cbn [line_offsets lookup list_lookup].
  - f_equal. unfold offset_of. simpl. lia.
  - rewrite offset_of_cons, IH by (cbn in Hi; lia). f_equal. lia.
Qed.

Lemma offset_at lines i :
  (i < length lines)%nat -> default 0 (at_index (line_offsets 0 lines) (Z.of_nat i)) = offset_of lines i.
Proof.
  intros. rewrite at_index_lookup, Nat2Z.id, line_offsets_lookup by lia. simpl. lia.
Qed.

Lemma join_app sep ps qs : ps <> [] -> qs <> [] -> join sep (ps ++ qs) = join sep ps ++ sep ++ join sep qs.
Proof.
  intros Hp Hq. induction ps as [|p ps IH]; [done |]. destruct ps as [|p' ps].
  - cbn [app]. by rewrite join_cons.
  - rewrite <- app_comm_cons, (join_cons sep p ((p' :: ps) ++ qs)), (join_cons sep p (p' :: ps)) by done.
    rewrite IH by done. by rewrite <- !app_assoc.
Qed.

Lemma len_join_offset ps : ps <> [] -> len (join [NEWLINE] ps) + 1 = offset_of ps (length ps).
Proof.
  intros Hp. unfold offset_of. rewrite firstn_all. induction ps as [|p ps IH]; [done |].
  destruct ps as [|q qs]; [cbn [join foldr]; lia |].
  rewrite join_cons by done. cbn [foldr] in *. rewrite !len_app, <- IH by done. cbn. unfold NEWLINE. len_lia.
Qed.

(** A run of lines is the text between their offsets. *)
Lemma lines_slice a b c :
  b <> [] ->
  let ls := a ++ b ++ c in let text := join [NEWLINE] ls in
  let from := offset_of ls (length a) in
  let to := if (length c =? 0)%nat then len text else offset_of ls (length (a ++ b)) - 1 in
  0 <= from <= to /\ to <= len text /\ slice text from to = join [NEWLINE] b.
Proof.
  intros Hb. cbv zeta. rewrite offset_of_app.
  set (pre := if (length a =? 0)%nat then [] else join [NEWLINE] a ++ [NEWLINE]).
  set (post := if (length c =? 0)%nat then [] else [NEWLINE] ++ join [NEWLINE] c).
  assert (join [NEWLINE] (a ++ b ++ c) = pre ++ join [NEWLINE] b ++ post) as ->.
  { assert (join [NEWLINE] (b ++ c) = join [NEWLINE] b ++ post) as E.
    { unfold post. destruct c; [cbn; by rewrite !app_nil_r | by rewrite join_app]. }
    unfold pre. destruct a as [|x a]; [exact E |]. rewrite join_app by (done || destruct b; done).
    rewrite E. cbn [length Nat.eqb]. by rewrite <- !app_assoc. }
  assert (offset_of a (length a) = len pre) as Hpre.
  { unfold pre. destruct a; [done |]. rewrite <- len_join_offset by done. cbn [length Nat.eqb]. len_lia. }
  assert ((if (length c =? 0)%nat then len (pre ++ join [NEWLINE] b ++ post)
           else offset_of (a ++ b ++ c) (length (a ++ b)) - 1) = len (pre ++ join [NEWLINE] b)) as ->.
  { unfold post. destruct c; cbn [length Nat.eqb]; [by rewrite app_nil_r |].
    rewrite app_assoc, offset_of_app.
    rewrite <- len_join_offset by (destruct a; [exact Hb | done]).
    unfold pre. destruct a; cbn [length Nat.eqb app]; [lia |].
    rewrite app_comm_cons, join_app by done. rewrite !len_app. lia. }
  rewrite Hpre, !len_app. pose proof (len_nonneg pre). pose proof (len_nonneg post).
  pose proof (len_nonneg (join [NEWLINE] b)). split_and!; [lia..|].
  rewrite slice_in by (rewrite !len_app; lia).
  replace (Z.to_nat (len pre)) with (length pre) by (unfold len; lia). rewrite drop_app_length.
  replace (Z.to_nat _) with (length (join [NEWLINE] b)) by (unfold len; lia). apply take_app_length.
Qed.

(** The same for a text and two line numbers. *)
Lemma lines_between text i j :
  (i < j)%nat -> (j <= length (lines_of text))%nat ->
  let ls := lines_of text in
  let to := if (length ls <=? j)%nat then len text else offset_of ls j - 1 in
  0 <= offset_of ls i <= to /\ to <= len text /\
  slice text (offset_of ls i) to = join [NEWLINE] (slice ls (Z.of_nat i) (Z.of_nat j)).
Proof.
  intros Hij Hj. set (ls := lines_of text) in *.
  set (a := take i ls). set (m := take (j - i) (drop i ls)). set (c := drop j ls).
  assert (length a = i) as Ha by (unfold a; rewrite length_take; lia).
  assert (length m = (j - i)%nat) as Hm by (unfold m; rewrite length_take, length_drop; lia).
  assert (length c = (length ls - j)%nat) as Hc by (unfold c; by rewrite length_drop).
  assert (ls = a ++ m ++ c) as Els.
  { unfold a, m, c. rewrite <- (take_drop i ls) at 1. f_equal.
    rewrite <- (take_drop (j - i) (drop i ls)) at 1. rewrite drop_drop. by replace (i + (j - i))%nat with j by lia. }
  assert (text = join [NEWLINE] ls) as Etext by (unfold ls, lines_of; by rewrite join_split_on).
  pose proof (lines_slice a m c ltac:(destruct m; [cbn in Hm; lia | done])) as Hs. cbv zeta in *.
  rewrite <- Els, <- Etext, length_app, Ha, Hm, Hc in Hs. replace (i + (j - i))%nat with j in Hs by lia.
  assert (slice ls (Z.of_nat i) (Z.of_nat j) = m) as ->.
  { rewrite slice_in by (unfold len; lia). unfold m. f_equal; [lia |]. by rewrite Nat2Z.id. }
  destruct (Nat.leb_spec (length ls) j); destruct (Nat.eqb_spec (length ls - j) 0); done || lia.
Qed.

(** ** The split *)

Definition block_ok (text : jstring) (b : SourceBlock) : Prop :=
  0 <= start b < end_ b /\ end_ b <= len (lines_of text) /\
  source b = join [NEWLINE] (slice (lines_of text) (start b) (end_ b)) /\
  0 <= sourceStart b <= sourceEnd b /\ sourceEnd b <= len text /\
  source b = slice text (sourceStart b) (sourceEnd b).

(** Blocks follow each other between two lines. *)
Fixpoint in_order (lo : Z) (bs : list SourceBlock) (hi : Z) : Prop :=
  match bs with
  | [] => lo <= hi
  | b :: rest => lo <= start b /\ in_order (end_ b) rest hi
  end.

Definition covered (lines : list jstring) (bs : list SourceBlock) (n : Z) : Prop :=
  forall k line, 0 <= k < n -> at_index lines k = Some line -> blank line = false ->
    Exists (fun b => start b <= k < end_ b) bs.

Lemma in_order_snoc lo bs hi b :
  in_order lo bs hi -> hi <= start b -> in_order lo (bs ++ [b]) (end_ b).
Proof. revert lo. induction bs as [|x bs IH]; intros lo; cbn; [lia |]. intros [? ?] ?. auto. Qed.

Lemma in_order_weaken lo bs hi hi' : in_order lo bs hi -> hi <= hi' -> in_order lo bs hi'.
Proof. revert lo. induction bs as [|x bs IH]; intros lo; cbn; [lia |]. intros [? ?] ?. eauto. Qed.

Lemma skip_until_le stop rest : (skip_until stop rest <= length rest)%nat.
Proof. induction rest as [|l rest IH]; cbn; [lia |]. destruct (stop l); lia. Qed.

Lemma block_run_le line rest : (1 <= block_run line rest <= S (length rest))%nat.
Proof.
  unfold block_run. split; [lia |]. apply le_n_S. destruct (isFence line) as [close|].
  - unfold fence_run. pose proof (skip_until_le (fun l => test l (closing_fence close)) rest).
    destruct (Nat.ltb_spec (skip_until (fun l => test l (closing_fence close)) rest) (length rest)); lia.
  - destruct (isListStart line); [|apply skip_until_le].
    induction rest as [|l rest IH]; cbn [list_run length]; [lia |].
    destruct (blank l); [destruct (_ || _)|destruct (_ || _)]; lia.
Qed.

(** The block a push adds. *)
Lemma push_adds text i j st :
  (i < j)%nat -> (j <= length (lines_of text))%nat ->
  exists b, block_ok text b /\ start b = Z.of_nat i /\ end_ b = Z.of_nat j /\
    let base := hashString (source b) in
    let occurrence := default 0 (mget (seen st) base) + 1 in
    key b = occurrence_key base occurrence /\
    push text (lines_of text) (Z.of_nat i) (Z.of_nat j) st =
      {| s_blocks := s_blocks st ++ [b]; seen := mset (seen st) base occurrence |}.
Proof.
  intros Hij Hj. pose proof (lines_between text i j Hij Hj) as Hs. cbv zeta in Hs.
  set (ls := lines_of text) in *.
  unfold push. replace (Z.of_nat i =? Z.of_nat j) with false by (symmetry; apply Z.eqb_neq; lia).
  cbn [andb]. rewrite (offset_at ls i) by lia.
  set (to := if len ls <=? Z.of_nat j then _ else _).
  assert (to = if (length ls <=? j)%nat then len text else offset_of ls j - 1) as Hto.
  { unfold to, len in *. destruct (Nat.leb_spec (length ls) j); zdecide; [done |].
    rewrite (offset_at ls j) by lia. lia. }
  rewrite <- Hto in Hs. set (source := join [NEWLINE] (slice ls (Z.of_nat i) (Z.of_nat j))) in *.
  exists (Build_SourceBlock (offset_of ls i) to (Z.of_nat i) (Z.of_nat j) source
    (occurrence_key (hashString source) (default 0 (mget (seen st) (hashString source)) + 1))).
  split; [|split_and!; reflexivity]. unfold block_ok. cbn. fold ls. destruct Hs as (H1 & H2 & H3).
  split_and!; try done; unfold len; lia.
Qed.

(** The number after a key's tilde tells its occurrence. *)
Lemma digit36_not_tilde d : 0 <= d < 36 -> digit36 d <> TILDE.
Proof. unfold digit36, TILDE. zcases; lia. Qed.

Lemma digits36_no_tilde n z : 0 <= z -> TILDE ∉ digits36 n z.
Proof.
  revert z. induction n as [|n IH]; intros z Hz; cbn [digits36]; [apply not_elem_of_nil |].
  destruct (Z.ltb_spec z 36).
  - intros Hin%list_elem_of_singleton. by apply (digit36_not_tilde z).
  - rewrite not_elem_of_app. split; [apply IH, Z.div_pos; lia |].
    intros Hin%list_elem_of_singleton. pose proof (Z.mod_pos_bound z 36 ltac:(lia)).
    by apply (digit36_not_tilde (z mod 36)).
Qed.

Lemma hashString_no_tilde s : TILDE ∉ hashString s.
Proof.
  unfold hashString. destruct (fold_left hash_turn s (3735928559, 1103547991)) as [h1 h2].
  apply digits36_no_tilde. set (x := js_xor _ _) at 1. set (y := js_xor _ _).
  assert (0 <= js_and 2097151 x); [|pose proof (js_ushr_range y 0); lia].
  unfold js_and. apply Z.land_nonneg. left. rewrite i32_small; lia.
Qed.

Lemma split_at_tilde a a' b b' :
  TILDE ∉ a -> TILDE ∉ a' -> a ++ TILDE :: b = a' ++ TILDE :: b' -> a = a' /\ b = b'.
Proof.
  revert a'. induction a as [|x a IH]; intros [|y a'] Ha Ha' E.
  - by injection E.
  - injection E as <- _. destruct Ha'. apply elem_of_cons. by left.
  - injection E as -> _. destruct Ha. apply elem_of_cons. by left.
  - injection E as -> E. rewrite not_elem_of_cons in Ha, Ha'.
    destruct (IH a') as [-> ->]; tauto.
Qed.

Lemma occurrence_key_inj a a' n n' :
  TILDE ∉ a -> TILDE ∉ a' -> 0 < n -> 0 < n' ->
  occurrence_key a n = occurrence_key a' n' -> a = a' /\ n = n'.
Proof.
  intros Ha Ha' Hn Hn'. unfold occurrence_key.
  destruct (Z.eqb_spec n 1) as [-> | ?]; destruct (Z.eqb_spec n' 1) as [-> | ?].
  - done.
  - intros ->. exfalso. apply Ha. rewrite !elem_of_app, list_elem_of_singleton. tauto.
  - intros <-. exfalso. apply Ha'. rewrite !elem_of_app, list_elem_of_singleton. tauto.
  - intros [-> E]%split_at_tilde; [|done..]. split; [done |].
    rewrite <- (dec_number_decimal n), <- (dec_number_decimal n') by lia. by rewrite E.
Qed.

(** Keys given so far, each with the source it names: numbered below what
    [seen] counts for the hash, all different. *)
Definition numbered (seen : list (jstring * Z)) (named : list (jstring * jstring)) : Prop :=
  NoDup named.*2 /\
  (forall base n, mget seen base = Some n -> 0 < n) /\
  Forall (fun ik => exists n, ik.2 = occurrence_key (hashString ik.1) n /\
            0 < n <= default 0 (mget seen (hashString ik.1))) named.

Lemma numbered_nil : numbered [] [].
Proof. split_and!; [constructor | done | constructor]. Qed.

Lemma numbered_next seen named identity :
  numbered seen named ->
  let base := hashString identity in
  let occurrence := default 0 (mget seen base) + 1 in
  numbered (mset seen base occurrence) (named ++ [(identity, occurrence_key base occurrence)]).
Proof.
  intros (Hnd & Hpos & Hall). cbv zeta. set (base := hashString identity).
  set (occ := default 0 (mget seen base) + 1).
  assert (0 < occ) as Hocc.
  { unfold occ. destruct (mget seen base) eqn:E; [apply Hpos in E|]; cbn; lia. }
  assert (forall x n, mget (mset seen base occ) x = Some n -> x = base /\ n = occ \/ mget seen x = Some n) as Hget.
  { intros x n. destruct (decide (x = base)) as [-> |].
    - rewrite mget_mset_eq. intros [= <-]. by left.
    - rewrite mget_mset_ne by done. by right. }
  rewrite Forall_forall in Hall. split_and!.
  - rewrite fmap_app. apply NoDup_app. split_and!; [done | | apply NoDup_singleton].
    intros k Hin ->%list_elem_of_singleton.
    apply list_elem_of_fmap in Hin as ([i k'] & Hb' & Hin). destruct (Hall _ Hin) as (n & Hn & Hle).
    csimpl in *. rewrite Hn in Hb'. apply occurrence_key_inj in Hb' as [Hb Ho];
      [|apply hashString_no_tilde..|lia|lia]. rewrite <- Hb in Hle. unfold occ, base in *. lia.
  - intros x n [[-> ->] | Hx]%Hget; [done | by eapply Hpos].
  - apply Forall_app. split; [|constructor; [|done]].
    + apply Forall_forall. intros ik Hin. destruct (Hall ik Hin) as (n & Hn & Hle). exists n.
      split; [done |]. destruct (decide (hashString ik.1 = base)) as [E|].
      * rewrite E, mget_mset_eq. rewrite E in Hle. cbn. unfold occ. lia.
      * by rewrite mget_mset_ne.
    + exists occ. split; [done |]. cbn. fold base. rewrite mget_mset_eq. cbn. lia.
Qed.

Definition keys_ok (st : split_state) : Prop :=
  numbered (seen st) (map (fun b => (source b, key b)) (s_blocks st)).

Lemma keys_ok_push st b :
  keys_ok st ->
  let base := hashString (source b) in
  let occurrence := default 0 (mget (seen st) base) + 1 in
  key b = occurrence_key base occurrence ->
  keys_ok {| s_blocks := s_blocks st ++ [b]; seen := mset (seen st) base occurrence |}.
Proof.
  intros Hk. cbv zeta. intros E. unfold keys_ok. cbn. rewrite map_app. cbn. rewrite E.
  by apply numbered_next.
Qed.

(** ** What the split keeps *)

Definition split_inv (text : jstring) (i : Z) (st : split_state) : Prop :=
  Forall (block_ok text) (s_blocks st) /\ in_order 0 (s_blocks st) i /\
  covered (lines_of text) (s_blocks st) i /\ keys_ok st.

Lemma split_inv_push text i j st :
  (i < j)%nat -> (j <= length (lines_of text))%nat -> split_inv text (Z.of_nat i) st ->
  split_inv text (Z.of_nat j) (push text (lines_of text) (Z.of_nat i) (Z.of_nat j) st).
Proof.
  intros Hij Hj (Hb & Ho & Hc & Hk). destruct (push_adds text i j st Hij Hj) as (b & Hok & Hs & He & Hkey & ->).
  split_and!; cbn.
  - apply Forall_app. auto.
  - rewrite <- He. eapply in_order_snoc; [exact Ho | lia].
  - intros k line Hk' Hl Hbl. apply Exists_app. destruct (Z.lt_ge_cases k (Z.of_nat i)).
    + left. apply (Hc k line); [lia | done | done].
    + right. constructor. lia.
  - by apply keys_ok_push.
Qed.

Lemma split_inv_skip text i line st :
  split_inv text (Z.of_nat i) st -> lines_of text !! i = Some line -> blank line = true ->
  split_inv text (Z.of_nat (S i)) st.
Proof.
  intros (Hb & Ho & Hc & Hk) Hl Hbl. split_and!; try done.
  - eapply in_order_weaken; [exact Ho | lia].
  - intros k line' Hk' Hl' Hbl'. destruct (Z.eq_dec k (Z.of_nat i)) as [-> |].
    + rewrite at_index_lookup, Nat2Z.id in Hl' by lia. congruence.
    + apply (Hc k line'); [lia | done | done].
Qed.

Lemma split_loop_inv fuel text i st :
  (length (lines_of text) <= i + fuel)%nat -> (i <= length (lines_of text))%nat ->
  split_inv text (Z.of_nat i) st ->
  split_inv text (len (lines_of text)) (split_loop fuel text (lines_of text) i st).
Proof.
  revert i st. induction fuel as [|fuel IH]; intros i st Hf Hi Hinv; cbn [split_loop].
  { unfold len. replace (length (lines_of text)) with i by lia. exact Hinv. }
  destruct (drop i (lines_of text)) as [|line rest] eqn:Ed.
  { apply (f_equal length) in Ed. rewrite length_drop in Ed. cbn in Ed. unfold len.
    by replace (length (lines_of text)) with i by lia. }
  assert (lines_of text !! i = Some line) as Hl.
  { rewrite <- (Nat.add_0_r i), <- lookup_drop, Ed. done. }
  assert (length (lines_of text) = (i + S (length rest))%nat) as Hn.
  { apply (f_equal length) in Ed. rewrite length_drop in Ed. cbn in Ed. lia. }
  destruct (blank line) eqn:Eb.
  - apply IH; [lia | lia |]. by eapply split_inv_skip.
  - pose proof (block_run_le line rest). cbv zeta. apply IH; [lia | lia |].
    apply split_inv_push; [lia | lia | done].
Qed.

Lemma splitSourceBlocks_inv text :
  exists st, splitSourceBlocks text = s_blocks st /\ split_inv text (len (lines_of text)) st.
Proof.
  unfold splitSourceBlocks. set (st := split_loop _ _ _ _ _).
  assert (split_inv text (len (lines_of text)) st) as Hinv.
  { apply (split_loop_inv _ _ 0); [lia | lia |]. split_and!; cbn; try done.
    - intros k line Hk. lia.
    - apply numbered_nil. }
  destruct (_ && _) eqn:E; [|by exists st]. eexists. split; [reflexivity |].
  assert (0 < length (lines_of text))%nat as Hn.
  { pose proof (split_on_nonempty NEWLINE text). unfold lines_of. destruct (split_on NEWLINE text); [done | cbn; lia]. }
  apply (split_inv_push text 0); [done | done |]. destruct Hinv as (Hb & Ho & Hc & Hk).
  split_and!; try done.
  - reflect_bools. destruct (s_blocks st); [done |]. exfalso. unfold len in *. cbn in *. lia.
  - intros k line Hk'. lia.
Qed.

Lemma splitSourceBlocks_keys text : NoDup (map key (splitSourceBlocks text)).
Proof.
  destruct (splitSourceBlocks_inv text) as (st & -> & _ & _ & _ & Hk). destruct Hk as [Hk _].
  by rewrite <- list_fmap_compose in Hk.
Qed.

(** C25. The blocks of a text are exactly its pieces: each block's source is the
    text between its offsets and the lines between its line numbers, blocks
    follow each other without overlap, every line that is not blank is in a
    block, and no two blocks share a key - identical blocks are numbered, and no
    hash can be mistaken for a numbered key. *)
Theorem source_blocks_exact text :
  let blocks := splitSourceBlocks text in
  Forall (block_ok text) blocks /\ in_order 0 blocks (len (lines_of text)) /\
  covered (lines_of text) blocks (len (lines_of text)) /\ NoDup (map key blocks).
Proof.
  cbv zeta. pose proof (splitSourceBlocks_keys text).
  destruct (splitSourceBlocks_inv text) as (st & E & ? & ? & ? & _). rewrite E in *. done.
Qed.

(** ** Task markers are markers *)

Lemma task_line_sound line p q c :
  exec line TASK_LINE = Some (p, q, c) ->
  exists n u, capture c 1 = Some (0, n)%nat /\ capture c 2 = Some (S n, S (S n)) /\
    line !! n = Some 91 /\ line !! S n = Some u /\ one_of (lit " xX") u = true /\
    line !! S (S n) = Some 93.
Proof.
  intros [Hd Hb]%exec_sound; [|cbn; lia]. unfold TASK_LINE in Hd. cbn [seq text] in Hd.
  apply derives_seq in Hd as (x0 & Hstart & Hd). apply derives_start in Hstart as [Hs ->].
  assert (p = 0)%nat as -> by (destruct p; done).
  apply derives_seq in Hd as (x1 & H1 & Hd). apply derives_group in H1 as [_ E1]; [|done]. rewrite E1 in Hd.
  apply derives_seq in Hd as (x2 & H2 & Hd). apply derives_unit in H2 as [H2 ->].
  apply derives_seq in Hd as (x3 & H3 & Hd). apply derives_group in H3 as [H3 E3]; [|done].
  apply derives_class in H3 as (u & Hu & Hc & E). cbn in E, Hu, H2. injection E as E.
  rewrite E3 in Hd. cbn in Hd. apply derives_unit in Hd as [H4 E4]. cbn in H4, E4.
  injection E4 as -> ->. rewrite E in *. exists x1.1, u. by split_and!.
Qed.

(** Units of a text against the lines it is made of. *)
Lemma line_unit (span : jstring) off line rest k u :
  drop off span = join [NEWLINE] (line :: rest) -> line !! k = Some u -> span !! (off + k)%nat = Some u.
Proof.
  intros Hd Hk. rewrite <- lookup_drop, Hd. destruct rest as [|l rest]; [done |].
  rewrite join_cons by done. by apply lookup_app_l_Some.
Qed.

Lemma task_loop_sound span a ordinal m lines off sn :
  drop off span = join [NEWLINE] lines -> task_loop a (Z.of_nat off) sn ordinal lines = Some m ->
  exists i u, marker_from m = a + Z.of_nat (S i) /\ span !! i = Some 91 /\ span !! S i = Some u /\
    one_of (lit " xX") u = true /\ checked m = negb (u =? 32) /\ span !! S (S i) = Some 93.
Proof.
  revert off sn. induction lines as [|line rest IH]; intros off sn Hd; cbn [task_loop]; [done |].
  assert (forall sn', task_loop a (Z.of_nat off + len line + 1) sn' ordinal rest = Some m ->
    exists i u, marker_from m = a + Z.of_nat (S i) /\ span !! i = Some 91 /\ span !! S i = Some u /\
      one_of (lit " xX") u = true /\ checked m = negb (u =? 32) /\ span !! S (S i) = Some 93) as Hnext.
  { intros sn'. destruct rest as [|l rest]; [done |].
    replace (Z.of_nat off + len line + 1) with (Z.of_nat (off + S (length line))) by (unfold len; lia).
    apply IH. rewrite <- drop_drop, Hd, join_cons by done.
    cbn [app]. rewrite cons_middle, app_assoc. apply drop_app_length'. rewrite length_app. cbn. lia. }
  cbv zeta. destruct (exec line TASK_LINE) as [[[p q] c]|] eqn:E; [|apply Hnext].
  apply task_line_sound in E as (n & u & -> & -> & H1 & H2 & Hu & H3).
  destruct (sn =? ordinal); [|apply Hnext]. intros [= <-]. exists (off + n)%nat, u. cbn.
  rewrite !plus_n_Sm, (line_unit span off line rest n 91), (line_unit span off line rest (S n) u),
    (line_unit span off line rest (S (S n)) 93) by done.
  split_and!; try done; [lia |]. f_equal. rewrite H2. destruct (Z.eqb_spec u 32) as [-> |].
  - by apply bool_decide_true.
  - apply bool_decide_false. congruence.
Qed.

(** The marker found for a task is one: within the given span of the source
    stand a bracket, one of space, x and X, and a closing bracket, and the task
    is reported checked exactly when the unit is not a space. *)
Theorem task_marker_sound source a b ordinal m :
  taskMarkerAt source a b ordinal = Some m ->
  a < marker_from m /\ marker_from m + 1 < b /\
  at_index source (marker_from m - 1) = Some 91 /\ at_index source (marker_from m + 1) = Some 93 /\
  exists u, at_index source (marker_from m) = Some u /\ one_of (lit " xX") u = true /\
    checked m = negb (u =? 32).
Proof.
  unfold taskMarkerAt. destruct (_ || _) eqn:E; [done |]. reflect_bools.
  set (span := slice source a b).
  assert (len span = b - a) as Hspan by (apply len_slice; lia).
  assert (forall i u, span !! i = Some u -> a + Z.of_nat i < b /\ at_index source (a + Z.of_nat i) = Some u) as Hat.
  { intros i u Hu. pose proof (lookup_lt_Some _ _ _ Hu). unfold len in Hspan. split; [lia |].
    unfold span in Hu. rewrite slice_in in Hu by lia. apply lookup_take_Some in Hu as [Hu _].
    rewrite lookup_drop in Hu. rewrite at_index_lookup by lia. rewrite <- Hu. f_equal. lia. }
  intros (i & u & Hm & U1 & U2 & Hu & Hc & U3)%(task_loop_sound span a ordinal m _ 0).
  - apply Hat in U1 as [? U1]. apply Hat in U2 as [? U2]. apply Hat in U3 as [? U3].
    replace (marker_from m - 1) with (a + Z.of_nat i) by lia.
    replace (marker_from m + 1) with (a + Z.of_nat (S (S i))) by lia. rewrite Hm.
    split_and!; [lia | lia | done | done | by exists u].
  - unfold lines_of. rewrite join_split_on. apply drop_0.
Qed.

Lemma task_marker_sound_witness :
  exists m, taskMarkerAt (lit "- [ ] a, 10. [X] b") 9 18 0 = Some m /\ marker_from m = 14 /\ checked m = true /\
    at_index (lit "- [ ] a, 10. [X] b") (marker_from m - 1) = Some 91.
Proof.
  eexists. assert (taskMarkerAt (lit "- [ ] a, 10. [X] b") 9 18 0
    = Some {| marker_from := 14; checked := true |}) as E by (vm_compute; reflexivity).
  split; [exact E |]. split_and!; [done | done |].
  exact (proj1 (proj2 (proj2 (task_marker_sound _ _ _ _ _ E)))).
Defined.

(** ** Where a position is *)

Record PresenceLocation := {
  blockStart : Z; blockEnd : Z; blockKey : jstring; heading : option jstring; headingLine : option Z }.

(** [/^ {0,3}#{1,6}\s+(.+?)\s*$/] and [/\s+#+\s*$/] *)
Definition HEADING_LINE : regex :=
  seq [At_start false; between 0 3 SPACE; between 1 6 (unit_ 35); plus (Any_of white);
       Group 1 (lazy_plus (Any_of dot)); star (Any_of white); At_end false].
Definition CLOSING_HASHES : regex :=
  seq [plus (Any_of white); plus (unit_ 35); star (Any_of white); At_end false].

Definition heading_text (line : jstring) : option jstring :=
  match exec line HEADING_LINE with
  | Some (_, _, c) =>
      (fun ab => let m := slice line (Z.of_nat ab.1) (Z.of_nat ab.2) in
         match exec m CLOSING_HASHES with
         | Some (p, q, _) => take p m ++ drop q m
         | None => m
         end) <$> capture c 1
  | None => None
  end.

(** The line a position is on: the loop stops at the last line. *)
Fixpoint line_at (clamped offset : Z) (line : nat) (lines : list jstring) : nat :=
  match lines with
  | l :: (_ :: _) as rest =>
      if offset + len l <? clamped then line_at clamped (offset + len l + 1) (S line) rest else line
  | _ => line
  end.

(** The loops back to the previous blank line and forward to the next one. *)
Fixpoint paragraph_start (lines : list jstring) (n : nat) : nat :=
  match n with
  | O => O
  | S m => match lines !! m with
           | Some l => if blank l then n else paragraph_start lines m
           | None => n
           end
  end.

Fixpoint heading_above (lines : list jstring) (n : nat) : option (jstring * Z) :=
  let here := match lines !! n with
              | Some l => (fun h => (h, Z.of_nat n)) <$> heading_text l
              | None => None
              end in
  match here, n with
  | Some x, _ => Some x
  | None, S m => heading_above lines m
  | None, O => None
  end.

Definition sourcePresenceLocation (text : jstring) (position : Z) : PresenceLocation :=
  let clamped := Z.max 0 (Z.min position (len text)) in
  let lines := lines_of text in
  let line := line_at clamped 0 0 lines in
  let startLine := paragraph_start lines line in
  let endLine := (S line + skip_until blank (drop (S line) lines))%nat in
  let blockStart := offset_of lines startLine in
  let blockSource := join [NEWLINE] (slice lines (Z.of_nat startLine) (Z.of_nat endLine)) in
  let above := heading_above lines line in
  {| blockStart := blockStart; blockEnd := blockStart + len blockSource;
     blockKey := hashString blockSource;
     heading := fst <$> above; headingLine := snd <$> above |}.

Lemma line_at_spec lines clamped off n :
  lines <> [] -> off <= clamped -> clamped <= off + len (join [NEWLINE] lines) ->
  exists k, line_at clamped off n lines = (n + k)%nat /\ (k < length lines)%nat /\
    off + offset_of lines k <= clamped < off + offset_of lines (S k).
Proof.
  revert off n. induction lines as [|l lines IH]; intros off n Hne Ho Hc; [done |].
  destruct lines as [|l' lines].
  - exists 0%nat. unfold offset_of. cbn in *. split_and!; lia.
  - rewrite join_cons in Hc by done. rewrite !len_app in Hc.
    change (line_at clamped off n (l :: l' :: lines))
      with (if off + len l <? clamped then line_at clamped (off + len l + 1) (S n) (l' :: lines) else n).
    assert (len [NEWLINE] = 1) as H1 by done. rewrite H1 in Hc.
    destruct (Z.ltb_spec (off + len l) clamped).
    + destruct (IH (off + len l + 1) (S n) ltac:(done) ltac:(lia) ltac:(lia)) as (k & E & Hk & Hb).
      exists (S k). split_and!; [rewrite E; lia | cbn in *; lia | |]; rewrite offset_of_cons; lia.
    + exists 0%nat. unfold offset_of. cbn. split_and!; lia.
Qed.

Lemma paragraph_start_le lines n : (paragraph_start lines n <= n)%nat.
Proof.
  induction n as [|n IH]; cbn; [lia |]. destruct (lines !! n) as [l|]; [|lia]. destruct (blank l); lia.
Qed.

Lemma offset_of_mono lines i j : (i <= j)%nat -> offset_of lines i <= offset_of lines j.
Proof.
  intros Hij. revert i j Hij. induction lines as [|l lines IH]; intros i j Hij.
  { unfold offset_of. by rewrite !take_nil. }
  destruct j as [|j]; [by replace i with 0%nat by lia |]. destruct i as [|i].
  - rewrite offset_of_cons. pose proof (IH 0%nat j ltac:(lia)) as H0. pose proof (len_nonneg l).
    change (offset_of (l :: lines) 0) with 0. change (offset_of lines 0) with 0 in H0. lia.
  - rewrite !offset_of_cons. specialize (IH i j ltac:(lia)). lia.
Qed.

(** The block of a position is the one around it: its bounds enclose the
    clamped position, and its key is the hash of the text between them. *)
Theorem presence_location_encloses text position :
  let p := Z.max 0 (Z.min position (len text)) in
  let l := sourcePresenceLocation text position in
  0 <= blockStart l <= p /\ p <= blockEnd l <= len text /\
  blockKey l = hashString (slice text (blockStart l) (blockEnd l)).
Proof.
  cbv zeta. unfold sourcePresenceLocation. cbn [blockStart blockEnd blockKey].
  set (p := Z.max 0 (Z.min position (len text))). set (ls := lines_of text).
  assert (text = join [NEWLINE] ls) as Etext by (unfold ls, lines_of; by rewrite join_split_on).
  assert (ls <> []) as Hne by apply split_on_nonempty.
  assert (0 <= p <= len text) as Hp by (pose proof (len_nonneg text); lia).
  destruct (line_at_spec ls p 0 0 Hne ltac:(lia) ltac:(rewrite <- Etext; lia)) as (k & -> & Hk & Hb).
  change (0 + k)%nat with k. set (i := paragraph_start ls k). pose proof (paragraph_start_le ls k) as Hi. fold i in Hi.
  set (j := (S k + _)%nat).
  assert (S k <= j <= length ls)%nat as Hj.
  { pose proof (skip_until_le blank (drop (S k) ls)) as Hs. rewrite length_drop in Hs. lia. }
  pose proof (lines_between text i j ltac:(lia) ltac:(fold ls; lia)) as (H1 & H2 & H3).
  fold ls in H1, H2, H3. set (to := if (length ls <=? j)%nat then len text else offset_of ls j - 1) in *.
  rewrite <- H3, len_slice, Zplus_minus by lia.
  pose proof (offset_of_mono ls i k Hi). pose proof (offset_of_mono ls (S k) j ltac:(lia)).
  assert (p <= to) by (unfold to; destruct (length ls <=? j)%nat; lia).
  split_and!; done || lia.
Qed.
