(* ===== verification/EditorLines.v ===== *)
(** What the editing commands see of the editor: its document by lines and its
    selection. CodeMirror's document is an interface with its documented
    behaviour as laws; the plain text split at its newlines implements it. The
    loops of [client/src/editor/commands.ts] over the selected lines are here
    too, with the lemma that says what they do to a text. *)

From stdpp Require Import sorting.
From S2P Require Import Prelude.
From S2P Require Import EditorText.
From S2P Require Import SourceBlocks.

(** ** The document *)

Record Line := { number : Z; l_from : Z; l_to : Z; l_text : jstring }.

(** The line at an index of a list of lines. *)
Definition nth_line (ls : list jstring) (n : nat) (t : jstring) : Line :=
  {| number := Z.of_nat n + 1; l_from := offset_of ls n; l_to := offset_of ls n + len t; l_text := t |}.

Class Text (D : Type) := {
  text_lines : D -> list jstring;
  doc_length : D -> Z;
  lineAt : D -> Z -> Line;
  line : D -> Z -> Line;
  sliceDoc : D -> Z -> Z -> jstring }.

Definition doc_text {D} `{Text D} (d : D) : jstring := join [NEWLINE] (text_lines d).

(** Positions and numbers out of range raise; nothing is said of them. *)
Class TextLaws (D : Type) `{Text D} := {
  law_lines d : text_lines d <> [] /\ Forall (fun t => NEWLINE ∉ t) (text_lines d);
  law_length d : doc_length d = len (doc_text d);
  law_line d n t : text_lines d !! n = Some t -> line d (Z.of_nat n + 1) = nth_line (text_lines d) n t;
  law_lineAt d p : 0 <= p <= doc_length d ->
    exists n t, text_lines d !! n = Some t /\ lineAt d p = nth_line (text_lines d) n t /\
      l_from (lineAt d p) <= p <= l_to (lineAt d p);
  law_slice d a b : 0 <= a <= b -> b <= doc_length d -> sliceDoc d a b = slice (doc_text d) a b }.

(** ** The selection *)

Record Range := { r_from : Z; r_to : Z }.
Definition r_empty (r : Range) : bool := r_from r =? r_to r.

Record EditorState (D : Type) := { doc : D; ranges : list Range; main : Range }.
Arguments doc {D} _.
Arguments ranges {D} _.
Arguments main {D} _.

(** The ranges of a selection are sorted and do not overlap. *)
Fixpoint ranges_ok (n lo : Z) (rs : list Range) : Prop :=
  match rs with
  | [] => True
  | r :: rs => lo <= r_from r <= r_to r /\ r_to r <= n /\ ranges_ok n (r_to r) rs
  end.

Definition state_ok {D} `{Text D} (st : EditorState D) : Prop :=
  ranges_ok (doc_length (doc st)) 0 (ranges st) /\ main st ∈ ranges st.

Lemma range_ok_in n lo rs r : ranges_ok n lo rs -> r ∈ rs -> lo <= r_from r <= r_to r /\ r_to r <= n.
Proof.
  revert lo. induction rs as [|x rs IH]; intros lo; cbn; [by intros _ ?%elem_of_nil |].
  intros (? & ? & Hr) [-> | Hx]%elem_of_cons; [lia |]. apply (IH _ Hr) in Hx. lia.
Qed.

Lemma main_ok {D} `{Text D} (st : EditorState D) :
  state_ok st -> 0 <= r_from (main st) <= r_to (main st) /\ r_to (main st) <= doc_length (doc st).
Proof. intros [Hr Hm]. by apply (range_ok_in _ _ _ _ Hr). Qed.

(** ** Visiting every selected line once *)

Section Visit.
Context {D : Type} `{Text D}.

(** The body of the loops: [seen], and the changes pushed so far. *)
Definition visit (edit : Line -> option Change) (d : D) (st : list Z * list Change) (n : Z)
    : list Z * list Change :=
  if existsb (Z.eqb n) st.1 then st
  else (n :: st.1, st.2 ++ option_list (edit (line d n))).

(** [for (number = first; number <= last; number++)] *)
Definition visit_range (edit : Line -> option Change) (d : D) (st : list Z * list Change) (r : Range)
    : list Z * list Change :=
  let first := number (lineAt d (r_from r)) in
  let last := number (lineAt d (r_to r)) in
  fold_left (visit edit d) (seqZ first (last - first + 1)) st.

Definition visit_lines (edit : Line -> option Change) (d : D) (rs : list Range) : list Change :=
  (fold_left (visit_range edit d) rs ([], [])).2.

(** The numbers of the lines a range of the selection touches. *)
Definition touches (d : D) (r : Range) (n : Z) : bool :=
  (number (lineAt d (r_from r)) <=? n) && (n <=? number (lineAt d (r_to r))).
Definition selected (d : D) (rs : list Range) (n : Z) : bool := existsb (fun r => touches d r n) rs.

(** The same, from the first and last line of every range. *)
Definition spans (d : D) (rs : list Range) : list (Z * Z) :=
  map (fun r => (number (lineAt d (r_from r)), number (lineAt d (r_to r)))) rs.

Lemma selected_spans d rs n : selected d rs n = existsb (fun s => (s.1 <=? n) && (n <=? s.2)) (spans d rs).
Proof. unfold selected, spans. induction rs as [|r rs IH]; [done |]. cbn. by rewrite IH. Qed.

(** [seen] holds the numbers visited, in order, and nothing else was pushed. *)
Definition visited (edit : Line -> option Change) (d : D) (P : Z -> Prop) (hi : Z)
    (st : list Z * list Change) : Prop :=
  StronglySorted Z.lt (rev st.1) /\ (forall n, n ∈ st.1 <-> P n) /\ (forall n, n ∈ st.1 -> n <= hi) /\
  st.2 = omap (fun n => edit (line d n)) (rev st.1).

Lemma visit_next edit d P n st :
  visited edit d P n st ->
  visited edit d (fun m => P m \/ m = n) n (visit edit d st n).
Proof.
  intros (Hs & Hin & Hhi & Hc). unfold visit. destruct (existsb _ _) eqn:E.
  - apply existsb_exists in E as (m & Hm%list_elem_of_In & <-%Z.eqb_eq). split_and!; try done.
    intros m. rewrite Hin. split; [by left |]. intros [? | ->]; [done | by apply Hin].
  - assert (n ∉ st.1) as Hn.
    { intros Hn%list_elem_of_In. assert (existsb (Z.eqb n) st.1 = true); [|congruence].
      apply existsb_exists. exists n. by rewrite Z.eqb_refl. }
    unfold visited. cbn [fst snd rev]. split_and!.
    + apply StronglySorted_app. split_and!; [|done|by repeat constructor].
      intros a b Ha%list_elem_of_In%in_rev%list_elem_of_In ->%list_elem_of_singleton.
      specialize (Hhi _ Ha). destruct (decide (a = n)) as [->|]; [done | lia].
    + intros m. rewrite elem_of_cons, Hin. tauto.
    + intros m. rewrite elem_of_cons. intros [->|?%Hhi]; lia.
    + rewrite omap_app, <- Hc. f_equal.
Qed.

Lemma visited_mono edit d (P Q : Z -> Prop) a b st :
  (forall n, P n <-> Q n) -> a <= b -> visited edit d P a st -> visited edit d Q b st.
Proof.
  intros Hpq ? (? & Hin & Hhi & ?). split_and!; try done.
  - intros m. by rewrite Hin.
  - intros m ?%Hhi. lia.
Qed.

Lemma visit_many edit d k : forall P a st,
  visited edit d P a st ->
  visited edit d (fun m => P m \/ a <= m <= a + Z.of_nat k) (a + Z.of_nat k)
    (fold_left (visit edit d) (seqZ a (Z.of_nat (S k))) st).
Proof.
  induction k as [|k IH]; intros P a st Hv; rewrite seqZ_cons by lia; cbn [fold_left].
  - cbn. eapply visited_mono; [| |by apply visit_next]; [|lia]. intros m; cbn. split; intros [?|?]; lia || tauto.
  - replace (Z.pred (Z.of_nat (S (S k)))) with (Z.of_nat (S k)) by lia.
    eapply visited_mono; [| |apply IH].
    3: { eapply visited_mono; [| |by apply visit_next]; [done | lia]. }
    + intros m; cbn. split; [intros [[?|?]|?]; lia || tauto |]. intros [?|?]; [tauto |].
      destruct (decide (m = a)); [tauto | right; lia].
    + lia.
Qed.

Context `{!TextLaws D}.

Lemma offset_step (ls : list jstring) n t :
  ls !! n = Some t -> offset_of ls (S n) = offset_of ls n + len t + 1.
Proof.
  revert n. induction ls as [|x ls IH]; intros [|n] Hn; try done.
  - injection Hn as ->. rewrite offset_of_cons. change (offset_of _ 0) with 0. lia.
  - rewrite !offset_of_cons, (IH n) by done. lia.
Qed.

Lemma lineAt_mono d p q :
  0 <= p <= q -> q <= doc_length d -> number (lineAt d p) <= number (lineAt d q).
Proof.
  intros Hp Hq. destruct (law_lineAt d p) as (n & t & Hn & Ep & Bp); [lia |].
  destruct (law_lineAt d q) as (m & u & Hm & Eq & Bq); [lia |].
  rewrite Ep, Eq in *. cbn in *. destruct (decide (n <= m)%nat); [lia |]. exfalso.
  pose proof (offset_of_mono (text_lines d) (S m) n ltac:(lia)) as Hmono.
  rewrite (offset_step _ _ _ Hm) in Hmono. lia.
Qed.

Lemma lineAt_number d p :
  0 <= p <= doc_length d -> 1 <= number (lineAt d p) <= len (text_lines d).
Proof.
  intros Hp. destruct (law_lineAt d p Hp) as (n & t & Hn & -> & _).
  apply lookup_lt_Some in Hn. cbn. unfold len. lia.
Qed.

Lemma visit_ranges edit d rs : forall P lo st,
  ranges_ok (doc_length d) lo rs -> 0 <= lo ->
  (forall r, head rs = Some r -> visited edit d P (number (lineAt d (r_from r))) st) ->
  (rs = [] -> visited edit d P (len (text_lines d)) st) ->
  visited edit d (fun n => P n \/ selected d rs n = true) (len (text_lines d))
    (fold_left (visit_range edit d) rs st).
Proof.
  induction rs as [|r rs IH]; intros P lo st Hok Hlo Hh Hn.
  - cbn. eapply visited_mono; [|done|by apply Hn]. intros n. cbn. split; [by left | by intros [?|?]].
  - cbn [fold_left]. destruct Hok as (? & ? & Hok). specialize (Hh r eq_refl).
    assert (number (lineAt d (r_from r)) <= number (lineAt d (r_to r))) by (apply lineAt_mono; lia).
    assert (1 <= number (lineAt d (r_to r)) <= len (text_lines d)) by (apply lineAt_number; lia).
    apply (visit_many edit d (Z.to_nat (number (lineAt d (r_to r)) - number (lineAt d (r_from r))))) in Hh.
    rewrite Nat2Z.inj_succ, !Z2Nat.id in Hh by lia.
    assert (visited edit d (fun m => P m \/ touches d r m = true) (number (lineAt d (r_to r)))
      (visit_range edit d st r)) as Hv.
    { unfold visit_range. rewrite <- Z.add_1_r in Hh. eapply visited_mono; [| |exact Hh]; [|lia].
      intros m; cbn. unfold touches. rewrite andb_true_iff, !Z.leb_le.
      split; (intros [?|?]; [by left | right; lia]). }
    eapply visited_mono; [|done|apply (IH (fun m => P m \/ touches d r m = true) (r_to r)); [exact Hok | lia | |]].
    + intros m. unfold selected. cbn [existsb]. rewrite orb_true_iff. tauto.
    + intros r' Hr'. eapply visited_mono; [| |exact Hv]; [reflexivity |].
      destruct rs as [|x rs]; [done |]. injection Hr' as ->. destruct Hok as (? & ? & _).
      apply lineAt_mono; lia.
    + intros ->. eapply visited_mono; [| |exact Hv]; [reflexivity | lia].
Qed.

Lemma seqZ_sorted k : forall a, StronglySorted Z.lt (seqZ a (Z.of_nat k)).
Proof.
  induction k as [|k IH]; intros a; [constructor |]. rewrite seqZ_cons by lia.
  replace (Z.pred (Z.of_nat (S k))) with (Z.of_nat k) by lia. constructor; [apply IH |].
  apply Forall_forall. intros m ?%elem_of_seqZ. lia.
Qed.

Lemma filter_sorted (f : Z -> bool) l : StronglySorted Z.lt l -> StronglySorted Z.lt (List.filter f l).
Proof.
  induction 1 as [|x l Hs IH Hx]; cbn; [constructor |]. destruct (f x); [|done]. constructor; [done |].
  apply Forall_forall. intros y [Hy _]%list_elem_of_In%filter_In. apply list_elem_of_In in Hy.
  by apply (proj1 (Forall_forall _ _) Hx).
Qed.

Lemma sorted_NoDup l : StronglySorted Z.lt l -> NoDup l.
Proof.
  induction 1 as [|x l Hs IH Hx]; constructor; [|done]. intros Hin.
  apply (proj1 (Forall_forall _ _) Hx) in Hin. lia.
Qed.

Lemma selected_number d rs n :
  ranges_ok (doc_length d) 0 rs -> selected d rs n = true -> 1 <= n <= len (text_lines d).
Proof.
  intros Hok (r & Hr%list_elem_of_In & [H1%Z.leb_le H2%Z.leb_le]%andb_true_iff)%existsb_exists.
  apply (range_ok_in _ _ _ _ Hok) in Hr. pose proof (lineAt_number d (r_from r)). pose proof (lineAt_number d (r_to r)).
  lia.
Qed.

(** Every selected line is visited once, from the first to the last. *)
Lemma visit_lines_spec edit d rs :
  ranges_ok (doc_length d) 0 rs ->
  visit_lines edit d rs
  = omap (fun n => edit (line d n)) (List.filter (selected d rs) (seqZ 1 (len (text_lines d)))).
Proof.
  intros Hok.
  assert (forall hi, visited edit d (fun _ => False) hi ([], [])) as H0.
  { intros hi. split_and!; [constructor | | |done]; cbn; intros n; [by split; [intros ?%elem_of_nil |] |].
    by intros ?%elem_of_nil. }
  destruct (visit_ranges edit d rs (fun _ => False) 0 ([], []) Hok) as (Hs & Hin & _ & Hc);
    [lia | intros; apply H0 | intros; apply H0 |].
  unfold visit_lines. rewrite Hc. f_equal. unfold len.
  pose proof (filter_sorted (selected d rs) _ (seqZ_sorted (length (text_lines d)) 1)) as Hf.
  apply (StronglySorted_unique_strong Z.lt); [lia | done | done |].
  apply NoDup_Permutation; [by apply sorted_NoDup | by apply sorted_NoDup |].
  intros n. rewrite list_elem_of_In, <- in_rev, <- list_elem_of_In, Hin.
  rewrite list_elem_of_In, filter_In, <- list_elem_of_In, elem_of_seqZ.
  split; [|tauto]. intros [[]|Hn]. pose proof (selected_number _ _ _ Hok Hn). unfold len in *. split; [lia | done].
Qed.
End Visit.

(** ** What line edits do to the text

    An edit of a line says which of its units it replaces, relative to the
    start of the line. *)
Definition relocate (off : Z) (c : Change) : Change :=
  {| fromA := off + fromA c; toA := off + toA c; inserted := inserted c |}.
Definition line_edit (rel : jstring -> option Change) (ln : Line) : option Change :=
  relocate (l_from ln) <$> rel (l_text ln).

Definition edited (rel : jstring -> option Change) (t : jstring) : jstring :=
  match rel t with Some c => splice t (fromA c) (toA c) (inserted c) | None => t end.

Definition edit_in_line (rel : jstring -> option Change) : Prop :=
  forall t c, rel t = Some c -> 0 <= fromA c <= toA c /\ toA c <= len t /\ Forall is_unit (inserted c).

(** The changes of the lines that a predicate on their numbers picks. *)
Fixpoint changes_of (sel : Z -> bool) (rel : jstring -> option Change) (n off : Z) (ls : list jstring)
    : list Change :=
  match ls with
  | [] => []
  | t :: ls => (if sel n then option_list (relocate off <$> rel t) else [])
               ++ changes_of sel rel (n + 1) (off + len t + 1) ls
  end.

Definition rewritten (sel : Z -> bool) (rel : jstring -> option Change) (i : nat) (t : jstring) : jstring :=
  if sel (Z.of_nat i + 1) then edited rel t else t.

Lemma updated_from old pos p cs : 0 <= pos <= p -> p <= len old ->
  match cs with [] => True | c :: _ => p <= fromA c <= len old end ->
  updated old pos cs = slice old pos p ++ updated old p cs.
Proof.
  intros Hp Hl Hc. destruct cs as [|c cs]; cbn [updated].
  - unfold slice_from. by apply slice_split.
  - rewrite (slice_split old pos p (fromA c)) by lia. by rewrite <- app_assoc.
Qed.

(** The rest of the text after a line. *)
Definition tail_of (ls : list jstring) : jstring :=
  match ls with [] => [] | _ :: _ => NEWLINE :: join [NEWLINE] ls end.

Lemma join_tail t ls : join [NEWLINE] (t :: ls) = t ++ tail_of ls.
Proof. destruct ls; cbn [join tail_of]; [by rewrite app_nil_r | done]. Qed.

Lemma slice_inside {A} (pre t tail : list A) a b :
  0 <= a <= b -> b <= len t -> slice (pre ++ t ++ tail) (len pre + a) (len pre + b) = slice t a b.
Proof.
  intros. rewrite slice_app_r by (rewrite ?len_app; pose proof (len_nonneg tail); lia).
  replace (len pre + a - len pre) with a by lia. replace (len pre + b - len pre) with b by lia.
  by apply slice_app_l.
Qed.

Lemma slice_mid {A} (pre t tail : list A) n m :
  n = len pre -> m = len pre + len t -> slice (pre ++ t ++ tail) n m = t.
Proof.
  intros -> ->. pose proof (len_nonneg t). rewrite <- (Z.add_0_r (len pre)) at 1.
  rewrite slice_inside by lia. apply slice_full.
Qed.

Lemma changes_of_app sel rel a : forall n off b,
  changes_of sel rel n off (a ++ b)
  = changes_of sel rel n off a ++ changes_of sel rel (n + len a) (off + offset_of a (length a)) b.
Proof.
  induction a as [|t a IH]; intros n off b.
  - change (offset_of [] _) with 0. by rewrite len_nil, !Z.add_0_r.
  - cbn [app changes_of length]. rewrite IH, <- app_assoc, len_cons, offset_of_cons. do 3 f_equal; lia.
Qed.

Lemma changes_of_none sel rel ls : forall n off,
  (forall k, n <= k < n + len ls -> sel k = false) -> changes_of sel rel n off ls = [].
Proof.
  induction ls as [|t ls IH]; intros n off Hs; cbn [changes_of]; [done |].
  rewrite len_cons in Hs. pose proof (len_nonneg ls). rewrite (Hs n) by lia. apply IH. intros; apply Hs. lia.
Qed.

(** Edits of lines give the lines edited, and nothing else. *)
Lemma changes_of_apply sel rel : edit_in_line rel -> forall ls i pre pos,
  ls <> [] -> 0 <= pos <= len pre ->
  let old := pre ++ join [NEWLINE] ls in
  let cs := changes_of sel rel (Z.of_nat i + 1) (len pre) ls in
  changes_ok (len old) pos cs /\
  updated old pos cs = slice old pos (len pre) ++ join [NEWLINE] (imap (fun j => rewritten sel rel (i + j)) ls).
Proof.
  intros Hrel. induction ls as [|t ls IH]; intros i pre pos Hne Hpos; [done |]. cbv zeta.
  rewrite imap_cons, !join_tail, Nat.add_0_r.
  set (old := pre ++ t ++ tail_of ls). set (new := imap _ ls). set (e := len pre + len t).
  pose proof (len_nonneg t). pose proof (len_nonneg (tail_of ls)).
  assert (len old = e + len (tail_of ls)) as Hlen by (unfold old, e; rewrite !len_app; lia).
  assert (forall p, 0 <= p <= e ->
    let rest := changes_of sel rel (Z.of_nat i + 1 + 1) (len pre + len t + 1) ls in
    changes_ok (len old) p rest /\ updated old p rest = slice old p e ++ tail_of new) as Hrest.
  { intros p Hp. cbv zeta. destruct ls as [|u ls].
    - cbn [changes_of updated changes_ok tail_of] in *. unfold new. cbn. rewrite app_nil_r.
      unfold slice_from. rewrite Hlen, len_nil. split; [lia |]. f_equal. lia.
    - assert (old = (pre ++ t ++ [NEWLINE]) ++ join [NEWLINE] (u :: ls)) as Eold.
      { unfold old. cbn [tail_of]. by rewrite <- !app_assoc. }
      assert (len (pre ++ t ++ [NEWLINE]) = e + 1) as El by (unfold e; rewrite !len_app; change (len [NEWLINE]) with 1; lia).
      specialize (IH (S i) (pre ++ t ++ [NEWLINE]) p ltac:(done) ltac:(lia)). cbv zeta in IH.
      rewrite <- Eold, El in IH. replace (Z.of_nat (S i) + 1) with (Z.of_nat i + 1 + 1) in IH by lia.
      assert (1 <= len (tail_of (u :: ls))) by (cbn [tail_of]; rewrite len_cons; pose proof (len_nonneg (join [NEWLINE] (u :: ls))); lia).
      destruct IH as [Hok Hup]. split; [done |]. unfold e in Hup |- *. rewrite Hup.
      rewrite (slice_split old p (len pre + len t)) by (unfold e in *; lia). rewrite <- app_assoc. f_equal.
      assert (slice old (len pre + len t) (len pre + len t + 1) = [NEWLINE]) as ->.
      { rewrite Eold, app_assoc, <- (app_assoc _ [NEWLINE]). rewrite <- len_app.
        replace (len (pre ++ t)) with (len (pre ++ t) + 0) at 1 by lia.
        by rewrite (slice_inside (pre ++ t) [NEWLINE]). }
      assert (imap (fun j => rewritten sel rel (S i + j)) (u :: ls) = new) as ->; [|done].
      apply imap_ext. intros j x _. cbn. f_equal. lia. }
  assert (forall a b, 0 <= a <= b -> b <= len t -> slice old (len pre + a) (len pre + b) = slice t a b) as Hin
    by (intros; by apply slice_inside).
  cbn [changes_of]. unfold rewritten at 1.
  destruct (if sel _ then option_list _ else []) as [|c cs] eqn:Ec; cbn [app].
  - destruct (Hrest pos) as [Hok Hup]; [unfold e; lia |]. split; [done |]. rewrite Hup. unfold e.
    rewrite (slice_split old pos (len pre)) by (unfold e in *; lia). rewrite <- app_assoc. f_equal. f_equal.
    replace (len pre) with (len pre + 0) at 1 by lia. rewrite Hin, slice_full by lia.
    unfold edited. destruct (sel _); [|done]. by destruct (rel t).
  - destruct (sel _) eqn:Es; [|done]. destruct (rel t) as [c0|] eqn:E; [|done]. injection Ec as <- <-.
    destruct (Hrel _ _ E) as (? & ? & ?). destruct (Hrest (len pre + toA c0)) as [Hok Hup]; [unfold e; lia |].
    cbn [app changes_ok updated relocate fromA toA inserted]. split; [split_and!; try lia; done |].
    rewrite Hup. unfold e. rewrite Hin by lia. unfold edited. rewrite E. unfold splice, slice_from.
    rewrite (slice_split old pos (len pre)) by (unfold e in *; lia).
    replace (len pre) with (len pre + 0) at 2 by lia. rewrite Hin by lia. by rewrite <- !app_assoc.
Qed.

Section Effect.
Context {D : Type} `{TextLaws D}.

Lemma visit_changes sel rel (d : D) : forall suf pre,
  text_lines d = pre ++ suf ->
  omap (fun n => line_edit rel (line d n)) (List.filter sel (seqZ (len pre + 1) (len suf)))
  = changes_of sel rel (len pre + 1) (offset_of (text_lines d) (length pre)) suf.
Proof.
  induction suf as [|t suf IH]; intros pre Epre; [done |].
  assert (text_lines d !! length pre = Some t) as Ht by (rewrite Epre; by apply list_lookup_middle).
  unfold len at 2. rewrite seqZ_cons by (cbn; lia). cbn [List.filter changes_of].
  specialize (IH (pre ++ [t])). rewrite <- app_assoc in IH. specialize (IH Epre).
  rewrite len_app, length_app, Nat.add_comm in IH. change (len [t]) with 1 in IH. cbn [length Nat.add] in IH.
  rewrite (offset_step _ _ _ Ht) in IH.
  replace (Z.succ (len pre + 1)) with (len pre + 1 + 1) by lia.
  replace (Z.pred (Z.of_nat (length (t :: suf)))) with (len suf) by (unfold len; cbn; lia).
  assert (line_edit rel (line d (len pre + 1)) = relocate (offset_of (text_lines d) (length pre)) <$> rel t) as El.
  { unfold len at 1. by rewrite (law_line _ _ _ Ht). }
  destruct (sel _); [|exact IH]. cbn [omap list_omap]. rewrite El, IH. by destruct (rel t).
Qed.

(** A command made of line edits rewrites the selected lines, once each, and
    leaves the others. *)
Lemma line_edits_rewrite rel (d : D) rs :
  edit_in_line rel -> ranges_ok (doc_length d) 0 rs ->
  let cs := visit_lines (line_edit rel) d rs in
  changes_ok (doc_length d) 0 cs /\
  updated (doc_text d) 0 cs = join [NEWLINE] (imap (rewritten (selected d rs) rel) (text_lines d)).
Proof.
  intros Hrel Hok. cbv zeta. rewrite visit_lines_spec by done.
  pose proof (visit_changes (selected d rs) rel d (text_lines d) [] eq_refl) as E.
  change (len (@nil jstring) + 1) with 1 in E. change (offset_of _ (length [])) with 0 in E.
  rewrite E, law_length. destruct (law_lines d) as [Hne _].
  pose proof (changes_of_apply (selected d rs) rel Hrel (text_lines d) 0 [] 0 Hne) as Ha.
  cbv zeta in Ha. rewrite (len_nil (A := Z)) in Ha. rewrite slice_empty in Ha. apply Ha. lia.
Qed.

(** A single replacement. *)
Lemma one_change (d : D) a b s :
  0 <= a <= b -> b <= doc_length d -> Forall is_unit s ->
  let cs := [{| fromA := a; toA := b; inserted := s |}] in
  changes_ok (doc_length d) 0 cs /\ updated (doc_text d) 0 cs = splice (doc_text d) a b s.
Proof. intros. cbn. split_and!; lia || done. Qed.

(** ** Where the lines are *)

Lemma lookup_offset (d : D) n t :
  text_lines d !! n = Some t -> 0 <= offset_of (text_lines d) n /\ offset_of (text_lines d) n + len t <= doc_length d.
Proof.
  intros Hn. pose proof (offset_step _ _ _ Hn). pose proof (lookup_lt_Some _ _ _ Hn).
  pose proof (offset_of_mono (text_lines d) (S n) (length (text_lines d)) ltac:(lia)).
  pose proof (offset_of_mono (text_lines d) 0 n ltac:(lia)) as H0n. change (offset_of (text_lines d) 0) with 0 in H0n.
  rewrite law_length. pose proof (len_join_offset (text_lines d) (proj1 (law_lines d))). unfold doc_text. lia.
Qed.

Lemma last_line (d : D) n t : text_lines d !! n = Some t ->
  (offset_of (text_lines d) n + len t < doc_length d <-> (S n < length (text_lines d))%nat).
Proof.
  intros Hn. pose proof (offset_step _ _ _ Hn) as Hs. pose proof (lookup_lt_Some _ _ _ Hn).
  rewrite law_length. pose proof (len_join_offset (text_lines d) (proj1 (law_lines d))) as Hl.
  fold (doc_text d) in Hl. split; intros Hlt.
  - destruct (decide (S n = length (text_lines d))) as [E|]; [|lia]. rewrite <- E in Hl. lia.
  - destruct (lookup_lt_is_Some_2 (text_lines d) (S n) Hlt) as [u Hu]. apply lookup_offset in Hu.
    rewrite law_length in Hu. pose proof (len_nonneg u). lia.
Qed.

Lemma lineAt_in (d : D) n t p : text_lines d !! n = Some t ->
  offset_of (text_lines d) n <= p <= offset_of (text_lines d) n + len t ->
  lineAt d p = nth_line (text_lines d) n t.
Proof.
  intros Hn Hp. pose proof (lookup_offset d n t Hn). destruct (law_lineAt d p) as (m & u & Hm & E & B); [lia |].
  rewrite E in B |- *. cbn in B. pose proof (offset_step _ _ _ Hn). pose proof (offset_step _ _ _ Hm).
  destruct (lt_eq_lt_dec m n) as [[?| ->]|?]; [|congruence|].
  - pose proof (offset_of_mono (text_lines d) (S m) n). lia.
  - pose proof (offset_of_mono (text_lines d) (S n) m). lia.
Qed.

(** A line starts the document or follows a newline. *)
Lemma line_starts (d : D) n t : text_lines d !! n = Some t ->
  offset_of (text_lines d) n = 0 \/ at_index (doc_text d) (offset_of (text_lines d) n - 1) = Some NEWLINE.
Proof.
  intros Hn. destruct n as [|n]; [by left | right].
  assert (text_lines d = take (S n) (text_lines d) ++ drop (S n) (text_lines d)) as E by (by rewrite take_drop).
  pose proof (lookup_lt_Some _ _ _ Hn) as Hlt.
  assert (take (S n) (text_lines d) <> []) as Ht by (destruct (text_lines d); done).
  assert (drop (S n) (text_lines d) <> []) as Hd.
  { intros E'. apply (f_equal length) in E'. rewrite length_drop in E'. cbn in E'. lia. }
  assert (offset_of (text_lines d) (S n) = len (join [NEWLINE] (take (S n) (text_lines d))) + 1) as ->.
  { rewrite len_join_offset, length_take_le by (done || lia).
    rewrite <- (length_take_le (text_lines d) (S n)) at 1 by lia. rewrite E at 1. rewrite offset_of_app.
    by rewrite length_take_le by lia. }
  unfold doc_text. rewrite E at 1. rewrite join_app by done.
  rewrite at_index_lookup by (pose proof (len_nonneg (join [NEWLINE] (take (S n) (text_lines d)))); lia).
  rewrite lookup_app_r by (unfold len; lia). replace (_ - _)%nat with 0%nat by (unfold len; lia). done.
Qed.

(** A stretch of lines as a slice of the text. *)
Lemma lines_text (d : D) a b c : text_lines d = a ++ b ++ c -> b <> [] ->
  let from := offset_of (text_lines d) (length a) in
  let to := offset_of (text_lines d) (length (a ++ b)) - 1 in
  0 <= from <= to /\ to <= doc_length d /\ sliceDoc d from to = join [NEWLINE] b.
Proof.
  intros E Hb. cbv zeta. pose proof (lines_slice a b c Hb) as Hs. cbv zeta in Hs. rewrite <- E in Hs.
  fold (doc_text d) in Hs.
  assert ((if (length c =? 0)%nat then len (doc_text d) else offset_of (text_lines d) (length (a ++ b)) - 1)
          = offset_of (text_lines d) (length (a ++ b)) - 1) as Et.
  { destruct c; [|done]. cbn [length Nat.eqb]. rewrite app_nil_r in E. rewrite <- E.
    rewrite <- len_join_offset by apply law_lines. unfold doc_text. lia. }
  rewrite Et in Hs. rewrite law_length. destruct Hs as (? & ? & Hs). split_and!; [lia..|].
  by rewrite law_slice, Hs by (rewrite ?law_length; lia).
Qed.
End Effect.

(** ** Editing one line *)

Definition head_of (a : list jstring) : jstring :=
  match a with [] => [] | _ :: _ => join [NEWLINE] a ++ [NEWLINE] end.

Lemma join_around a u c : join [NEWLINE] (a ++ u :: c) = head_of a ++ u ++ tail_of c.
Proof.
  destruct a as [|x a]; [apply join_tail |]. rewrite join_app, (join_tail u) by done. cbn [head_of].
  by rewrite <- app_assoc.
Qed.

Lemma len_head_of a : len (head_of a) = offset_of a (length a).
Proof. destruct a; [done |]. cbn [head_of]. rewrite len_app, <- len_join_offset by done. done. Qed.

Lemma splice_mid (pre t tail s : jstring) a b :
  0 <= a <= b -> b <= len t ->
  splice (pre ++ t ++ tail) (len pre + a) (len pre + b) s = pre ++ splice t a b s ++ tail.
Proof.
  intros Ha Hb. pose proof (len_nonneg pre). pose proof (len_nonneg tail). unfold splice.
  rewrite (slice_split (pre ++ t ++ tail) 0 (len pre) (len pre + a)) by (rewrite ?len_app; lia).
  rewrite slice_left by done. rewrite <- (Z.add_0_r (len pre)) at 1. rewrite slice_inside by lia.
  rewrite slice_from_app_r by (rewrite ?len_app; lia). replace (len pre + b - len pre) with b by lia.
  assert (slice_from (t ++ tail) b = slice_from t b ++ tail) as ->; [|by rewrite <- !app_assoc].
  unfold slice_from. rewrite len_app, (slice_split (t ++ tail) b (len t)) by (rewrite ?len_app; lia).
  f_equal; [apply slice_app_l; lia |]. replace (len t + len tail) with (len (t ++ tail)) by apply len_app.
  fold (slice_from (t ++ tail) (len t)). by apply slice_from_right.
Qed.

Section OneLine.
Context {D : Type} `{TextLaws D}.

Lemma split_lines (d : D) n t : text_lines d !! n = Some t ->
  text_lines d = take n (text_lines d) ++ t :: drop (S n) (text_lines d) /\
  length (take n (text_lines d)) = n /\
  offset_of (text_lines d) n = len (head_of (take n (text_lines d))).
Proof.
  intros Hn. pose proof (lookup_lt_Some _ _ _ Hn).
  assert (length (take n (text_lines d)) = n) as Hl by (apply length_take_le; lia).
  split; [by rewrite take_drop_middle |]. split; [done |].
  rewrite len_head_of, Hl. unfold offset_of. by rewrite take_take, Nat.min_id.
Qed.

Lemma edit_line (d : D) n t a b s :
  text_lines d !! n = Some t -> 0 <= a <= b -> b <= len t ->
  splice (doc_text d) (offset_of (text_lines d) n + a) (offset_of (text_lines d) n + b) s
  = join [NEWLINE] (take n (text_lines d) ++ splice t a b s :: drop (S n) (text_lines d)).
Proof.
  intros Hn Ha Hb. destruct (split_lines d n t Hn) as (E & _ & ->). unfold doc_text. rewrite E at 1.
  rewrite !join_around. by apply splice_mid.
Qed.

(** A new line after another one. *)
Lemma insert_line (d : D) n t s :
  text_lines d !! n = Some t ->
  splice (doc_text d) (offset_of (text_lines d) n + len t) (offset_of (text_lines d) n + len t) (NEWLINE :: s)
  = join [NEWLINE] (take (S n) (text_lines d) ++ s :: drop (S n) (text_lines d)).
Proof.
  intros Hn. pose proof (len_nonneg t). rewrite (edit_line d n t) by (done || lia).
  rewrite (take_S_r _ _ _ Hn), <- app_assoc, join_around. cbn [app]. rewrite (join_around _ t). f_equal.
  unfold splice, slice_from. rewrite slice_full, slice_empty, app_nil_r. cbn [tail_of]. rewrite join_tail.
  by rewrite <- app_assoc.
Qed.
End OneLine.

(** The cursor's line. *)
Definition cursor_line {D} `{Text D} (st : EditorState D) (n : nat) (t : jstring) : Prop :=
  text_lines (doc st) !! n = Some t /\ lineAt (doc st) (r_from (main st)) = nth_line (text_lines (doc st)) n t.

(** ** A plain text *)

Fixpoint find_line (p off : Z) (n : nat) (ls : list jstring) : Line :=
  match ls with
  | [] => {| number := Z.of_nat n; l_from := off; l_to := off; l_text := [] |}
  | t :: rest =>
      if p <=? off + len t then {| number := Z.of_nat n + 1; l_from := off; l_to := off + len t; l_text := t |}
      else find_line p (off + len t + 1) (S n) rest
  end.

#[export] Instance plain_text : Text jstring := {
  text_lines := lines_of;
  doc_length := len;
  lineAt d p := find_line p 0 0 (lines_of d);
  line d n := match lines_of d !! Z.to_nat (n - 1) with
              | Some t => nth_line (lines_of d) (Z.to_nat (n - 1)) t
              | None => {| number := n; l_from := 0; l_to := 0; l_text := [] |} end;
  sliceDoc d a b := slice d a b }.

Lemma find_line_spec p ls : forall suf pre,
  ls = pre ++ suf -> suf <> [] -> offset_of ls (length pre) <= p -> p + 1 <= offset_of ls (length ls) ->
  exists n t, ls !! n = Some t /\ find_line p (offset_of ls (length pre)) (length pre) suf = nth_line ls n t /\
    offset_of ls n <= p <= offset_of ls n + len t.
Proof.
  induction suf as [|t suf IH]; intros pre E Hne Hlo Hhi; [done |]. cbn [find_line].
  assert (ls !! length pre = Some t) as Ht by (rewrite E; by apply list_lookup_middle).
  destruct (Z.leb_spec p (offset_of ls (length pre) + len t)).
  - exists (length pre), t. split_and!; [done | done | lia | lia].
  - specialize (IH (pre ++ [t])). rewrite <- app_assoc, length_app, Nat.add_comm in IH. cbn [length Nat.add] in IH.
    pose proof (offset_step _ _ _ Ht) as Hs. rewrite <- Hs. apply IH; [done | | lia | done].
    intros ->. assert (length ls = S (length pre)) as El by (rewrite E, length_app; cbn; lia).
    rewrite El in Hhi. lia.
Qed.

#[export] Instance plain_text_laws : TextLaws jstring.
Proof.
  assert (forall d, doc_text d = d) as Ed by (intros d; apply join_split_on).
  split.
  - intros d. split; [apply split_on_nonempty | apply split_on_pieces].
  - intros d. by rewrite Ed.
  - intros d n t Hn. cbn in *. replace (Z.of_nat n + 1 - 1) with (Z.of_nat n) by lia.
    by rewrite Nat2Z.id, Hn.
  - intros d p Hp. cbn in *.
    destruct (find_line_spec p (lines_of d) (lines_of d) []) as (n & t & Hn & E & B);
      [done | apply split_on_nonempty | change (offset_of (lines_of d) (length [])) with 0; lia | |].
    + rewrite <- len_join_offset by apply split_on_nonempty. unfold lines_of. rewrite join_split_on. lia.
    + exists n, t. change (find_line p 0 0 (lines_of d) = nth_line (lines_of d) n t) in E. rewrite E. split_and!; [done | done | cbn; lia | cbn; lia].
  - intros d a b Ha Hb. by rewrite Ed.
Qed.

Definition plain_state (text : jstring) (a b : Z) : EditorState jstring :=
  {| doc := text; ranges := [{| r_from := a; r_to := b |}]; main := {| r_from := a; r_to := b |} |}.
