(* ===== verification/EditorCommands.v ===== *)
(** The editing commands ([client/src/editor/commands.ts]) and the table that
    names them ([client/src/commands/executor.ts]): what each dispatches, over
    the document and selection of [EditorLines]. A command that returns false
    dispatches nothing. *)

From S2P Require Import Prelude.
From S2P Require Import Bytes.
From S2P Require Import Regex.
From S2P Require Import EditorText.
From S2P Require Import SourceBlocks.
From S2P Require Import EditorLines.

(** ** Transactions *)

(** What [state.update] is given: changes in offsets of the document before,
    and the selection as anchor and head; or the changes and range of every
    range of the selection, as [changeByRange] collects them. *)
Inductive Dispatch :=
| Update (changes : list Change) (selection : option (Z * Z)) (scrollIntoView : bool) (userEvent : jstring)
| UpdateByRange (results : list (list Change * (Z * Z))) (scrollIntoView : bool) (userEvent : jstring).

Definition change (a b : Z) (s : jstring) : Change := {| fromA := a; toA := b; inserted := s |}.

Definition changes_of_dispatch (t : Dispatch) : list Change :=
  match t with
  | Update cs _ _ _ => cs
  | UpdateByRange rs _ _ => concat (map fst rs)
  end.

Definition nl : jstring := [NEWLINE].
Definition INPUT_FORMAT : jstring := lit "input.format".

(** ** Regular expressions *)

(** [/^\s{0,3}>\s?/] *)
Definition QUOTE_PREFIX : regex :=
  seq [At_start false; between 0 3 (Any_of white); unit_ 62; opt (Any_of white)].
(** [/^\s*(?:[-*+]|\d+\.)\s+/] *)
Definition ORDINAL : regex := seq [plus (Any_of digit); unit_ 46].
Definition LIST_PREFIX : regex :=
  seq [At_start false; star (Any_of white); Alt (Any_of (one_of (lit "-*+"))) ORDINAL; plus (Any_of white)].
(** [/^\s*(?:[-*+]\s+(?:\[[ xX]\]\s+)?|\d+\.\s+)/] *)
Definition TASK_BOX : regex :=
  seq [unit_ 91; Any_of (one_of (lit " xX")); unit_ 93; plus (Any_of white)].
Definition TASK_PREFIX : regex :=
  seq [At_start false; star (Any_of white);
       Alt (seq [Any_of (one_of (lit "-*+")); plus (Any_of white); opt TASK_BOX])
           (seq [plus (Any_of digit); unit_ 46; plus (Any_of white)])].
(** [/^\s{0,3}#{1,6}\s+/] *)
Definition HEADING_PREFIX : regex :=
  seq [At_start false; between 0 3 (Any_of white); between 1 6 (unit_ 35); plus (Any_of white)].
(** [/^( {1,2}|\t)/] *)
Definition INDENT : regex := seq [At_start false; Group 1 (Alt (between 1 2 (unit_ 32)) (unit_ 9))].
(** [/^(#{1,6})\s/] *)
Definition HEADING_LEVEL : regex :=
  seq [At_start false; Group 1 (between 1 6 (unit_ 35)); Any_of white].
(** [/^\s*\|/] and [/^\s*\|[\s:|-]+\|/] *)
Definition PIPE : Z := 124.
Definition ROW : regex := seq [At_start false; star (Any_of white); unit_ PIPE].
Definition SEPARATOR : regex :=
  seq [At_start false; star (Any_of white); unit_ PIPE;
       plus (Any_of (fun u => white u || one_of (lit ":|-") u)); unit_ PIPE].
(** [LIST_ITEM]: indent, bullet or ordinal, space, task box and content. *)
Definition LIST_ITEM : regex :=
  seq [At_start false; Group 1 (star (Any_of white));
       Alt (Group 2 (Any_of (one_of (lit "-*+")))) (seq [Group 3 (plus (Any_of digit)); unit_ 46]);
       Group 4 (plus (Any_of white)); opt (Group 5 TASK_BOX); Group 6 (star (Any_of dot)); At_end false].
(** [/^https?:\/\/\S+$/i] *)
Definition PLAIN_URL : regex :=
  seq [At_start false; text_i (lit "http"); opt (text_i (lit "s")); text (lit "://");
       plus (Any_of (fun u => negb (white u))); At_end false].
(** The three replacements of [clearFormatting]. *)
Definition MARKERS : regex :=
  Group 1 (alt (text (lit "**"))
    [text (lit "__"); text (lit "~~"); text (lit "=="); text (lit "`"); text (lit "++")]).
Definition nonwhite (u : Z) : bool := negb (white u).
Definition OPENING_MARKER : regex :=
  seq [Group 1 (Alt (At_start false) (Any_of white)); Group 2 (Any_of (one_of (lit "*_"))); next_is nonwhite].
Definition CLOSING_MARKER : regex :=
  seq [previous_is nonwhite; Group 1 (Any_of (one_of (lit "*_"))); next_is_or_end white].

(** A capture as a string, [None] for [undefined]. *)
Definition captured (t : jstring) (c : captures) (n : nat) : option jstring :=
  (fun ab => units t ab.1 ab.2) <$> capture c n.

(** ** Numbers: [Number(ordinal) + 1] as text

    Integers are exact up to 2^53; beyond, to the nearest double, shown with
    the fewest digits that read back as it. *)
Definition to_double (n : Z) : Z :=
  let e := Z.max 0 (Z.log2 n - 52) in
  let q := n / 2 ^ e in
  let r := 2 * (n mod 2 ^ e) in
  if (r <? 2 ^ e) || ((r =? 2 ^ e) && Z.even q) then q * 2 ^ e else (q + 1) * 2 ^ e.

Fixpoint shortest (fuel : nat) (digits k : Z) (x : Z) : Z :=
  match fuel with
  | O => x
  | S fuel =>
      let p := 10 ^ Z.max 0 (digits - k) in
      let m := (x + p / 2) / p * p in
      if to_double m =? x then m else shortest fuel digits (k + 1) x
  end.

Fixpoint drop_zeros (s : jstring) : jstring :=
  match s with u :: r => if u =? 48 then drop_zeros r else s | [] => [] end.

Definition large_text (x : Z) : jstring :=
  if 2 ^ 1024 - 2 ^ 970 <=? x then lit "Infinity"
  else
    let s := decimal (shortest 17 (len (decimal x)) 1 x) in
    if len s <=? 21 then s
    else
      let significant := rev (drop_zeros (rev s)) in
      take 1 significant
      ++ (if len significant =? 1 then [] else lit "." ++ drop 1 significant)
      ++ lit "e+" ++ decimal (len s - 1).

Definition next_ordinal (ordinal : jstring) : jstring :=
  let n := dec_number ordinal in
  if n <? 2 ^ 53 then decimal (n + 1) else large_text (to_double (to_double n + 1)).

(** ** Commands *)

Section Commands.
Context {D : Type} `{Text D}.
Implicit Types (st : EditorState D).

Definition StateCommand : Type := EditorState D -> option Dispatch.

(** Is a range between two markers? *)
Definition wrapped (marker : jstring) (d : D) (range : Range) : bool :=
  let width := len marker in
  let before := sliceDoc d (Z.max 0 (r_from range - width)) (r_from range) in
  let after := sliceDoc d (r_to range) (Z.min (doc_length d) (r_to range + width)) in
  str_eqb before marker && str_eqb after marker.

Definition wrap_range (marker placeholder : jstring) (d : D) (range : Range) : list Change * (Z * Z) :=
  let width := len marker in
  if wrapped marker d range then
    ([change (r_from range - width) (r_from range) []; change (r_to range) (r_to range + width) []],
     (r_from range - width, r_to range - width))
  else
    let slice := sliceDoc d (r_from range) (r_to range) in
    let selected := if str_eqb slice [] then placeholder else slice in
    ([change (r_from range) (r_to range) (marker ++ selected ++ marker)],
     if r_empty range then (r_from range + width, r_from range + width + len placeholder)
     else (r_from range + width, r_from range + width + len selected)).

Definition toggleWrap (marker placeholder : jstring) : StateCommand := fun st =>
  Some (UpdateByRange (map (wrap_range marker placeholder (doc st)) (ranges st)) true INPUT_FORMAT).

Definition prefix_edit (prefix : jstring) (pattern : regex) (t : jstring) : option Change :=
  match exec t pattern with
  | Some (a, b, _) =>
      let existing := units t a b in
      if str_eqb existing prefix then Some (change 0 (len existing) [])
      else Some (change 0 (len existing) prefix)
  | None => Some (change 0 0 prefix)
  end.

(** A command that edits lines. *)
Definition line_command (rel : jstring -> option Change) (userEvent : jstring) : StateCommand := fun st =>
  match visit_lines (line_edit rel) (doc st) (ranges st) with
  | [] => None
  | changes => Some (Update changes None false userEvent)
  end.

Definition toggleLinePrefix (prefix : jstring) (pattern : regex) : StateCommand :=
  line_command (prefix_edit prefix pattern) INPUT_FORMAT.

Definition toggleBold : StateCommand := toggleWrap (lit "**") (lit "bold text").
Definition toggleItalic : StateCommand := toggleWrap (lit "*") (lit "italic text").
Definition toggleStrikethrough : StateCommand := toggleWrap (lit "~~") (lit "struck out").
Definition toggleInlineCode : StateCommand := toggleWrap (lit "`") (lit "code").
Definition toggleHighlight : StateCommand := toggleWrap (lit "==") (lit "highlight").
Definition toggleUnderline : StateCommand := toggleWrap (lit "++") (lit "underlined").
Definition toggleSuperscript : StateCommand := toggleWrap (lit "^") (lit "sup").
Definition toggleSubscript : StateCommand := toggleWrap (lit "~") (lit "sub").

Definition toggleQuote : StateCommand := toggleLinePrefix (lit "> ") QUOTE_PREFIX.
Definition toggleBullet : StateCommand := toggleLinePrefix (lit "- ") LIST_PREFIX.
Definition toggleNumbered : StateCommand := toggleLinePrefix (lit "1. ") LIST_PREFIX.
Definition toggleTask : StateCommand := toggleLinePrefix (lit "- [ ] ") TASK_PREFIX.
Definition heading_prefix (level : Z) : jstring := replicate (Z.to_nat level) 35 ++ lit " ".
Definition setHeading (level : Z) : StateCommand := toggleLinePrefix (heading_prefix level) HEADING_PREFIX.
Definition setParagraph : StateCommand := toggleLinePrefix [] HEADING_PREFIX.

Definition indent_edit (t : jstring) : option Change :=
  if len t =? 0 then None else Some (change 0 0 (lit "  ")).
Definition outdent_edit (t : jstring) : option Change :=
  match exec t INDENT with
  | Some (a, b, _) => Some (change 0 (len (units t a b)) [])
  | None => None
  end.
Definition indentLines : StateCommand := line_command indent_edit (lit "input.indent").
Definition outdentLines : StateCommand := line_command outdent_edit (lit "input.indent").

Definition insertSnippet (text : jstring) (selectFrom selectTo : Z) : StateCommand := fun st =>
  let range := main st in
  let atLineStart := l_from (lineAt (doc st) (r_from range)) =? r_from range in
  let prefix := if atLineStart || (r_from range =? 0) then [] else nl in
  Some (Update [change (r_from range) (r_to range) (prefix ++ text)]
    (Some (r_from range + len prefix + selectFrom, r_from range + len prefix + selectTo)) true INPUT_FORMAT).

Definition insertHorizontalRule : StateCommand := insertSnippet (nl ++ lit "---" ++ nl ++ nl) 5 5.
Definition insertCodeBlock : StateCommand := insertSnippet (lit "```" ++ nl ++ nl ++ lit "```" ++ nl) 3 3.
Definition insertMath : StateCommand := insertSnippet (lit "$$" ++ nl ++ nl ++ lit "$$" ++ nl) 3 3.
Definition MERMAID : jstring :=
  lit "```mermaid" ++ nl ++ lit "flowchart LR" ++ nl ++ lit "  A[Start] --> B[Next]" ++ nl ++ lit "```" ++ nl.
Definition insertMermaid : StateCommand := insertSnippet MERMAID 21 26.
Definition insertFootnote : StateCommand := insertSnippet (lit "[^1]: footnote" ++ nl) 6 14.
Definition insertToc : StateCommand := insertSnippet (lit "<!-- toc -->" ++ nl ++ nl) 13 13.
Definition insertTable : StateCommand :=
  insertSnippet (lit "| Column | Column |" ++ nl ++ lit "| --- | --- |" ++ nl ++ lit "| Cell | Cell |" ++ nl) 2 8.
Definition callout (kind : jstring) : jstring :=
  lit ":::" ++ kind ++ nl ++ lit "Note" ++ nl ++ lit ":::" ++ nl.
Definition insertCallout (kind : jstring) : StateCommand :=
  insertSnippet (callout kind) (len kind + 5) (len kind + 9).

(** Markup: an attribute with its value in quotation marks. *)
Definition attr (name value : jstring) : jstring := name ++ [61; 34] ++ value ++ [34].

Inductive ShapeKind := rect | ellipse | diamond | arrow | bubble.
Definition kind_text (k : ShapeKind) : jstring :=
  lit (match k with rect => "rect" | ellipse => "ellipse" | diamond => "diamond" | arrow => "arrow"
       | bubble => "bubble" end).
Definition attrs (l : list (string * string)) : jstring :=
  concat (map (fun nv => lit " " ++ attr (lit nv.1) (lit nv.2)) l).
Definition shapePath (k : ShapeKind) : jstring :=
  match k with
  | rect => lit "<rect" ++ attrs [("x","12");("y","18");("width","136");("height","60");("rx","10")]%string ++ lit "/>"
  | ellipse => lit "<ellipse" ++ attrs [("cx","80");("cy","48");("rx","62");("ry","28")]%string ++ lit "/>"
  | diamond => lit "<polygon" ++ attrs [("points","80,14 138,48 80,82 22,48")]%string ++ lit "/>"
  | arrow => lit "<path" ++ attrs [("d","M18 48h92l-12-16M110 48l-12 16")]%string ++ lit "/>"
  | bubble => lit "<path" ++ attrs [("d","M24 18h96a16 16 0 0 1 16 16v28a16 16 0 0 1-16 16H70l-18 14v-14H24A16 16 0 0 1 8 62V34A16 16 0 0 1 24 18z")]%string ++ lit "/>"
  end.

Definition shape_svg (kind : ShapeKind) (label : jstring) : jstring :=
  lit "<figure" ++ attrs [("class","marks-shape")]%string ++ lit " " ++ attr (lit "data-shape") (kind_text kind)
    ++ attrs [("data-fill","accent")]%string ++ lit ">" ++ nl
  ++ lit "<svg" ++ attrs [("viewBox","0 0 160 96");("role","img")]%string ++ lit " " ++ attr (lit "aria-label") label
    ++ lit ">" ++ shapePath kind ++ lit "</svg>" ++ nl
  ++ lit "<figcaption>" ++ label ++ lit "</figcaption>" ++ nl
  ++ lit "</figure>" ++ nl.
Definition insertShape (kind : ShapeKind) (label : jstring) : StateCommand :=
  let svg := shape_svg kind label in
  insertSnippet svg (indexOf svg label 0) (indexOf svg label 0 + len label).

Definition html_image (url alt : jstring) (width : Z) (align : jstring) : jstring :=
  lit "<img " ++ attr (lit "src") url ++ lit " " ++ attr (lit "alt") alt
  ++ attrs [("class","marks-figure")]%string ++ lit " " ++ attr (lit "width") (decimal width) ++ lit " "
  ++ attr (lit "data-align") align ++ lit " />" ++ nl.
Definition insertHtmlImage (url alt : jstring) (width : Z) (align : jstring) : StateCommand :=
  let insert := html_image url alt width align in
  insertSnippet insert (indexOf insert alt 0) (indexOf insert alt 0 + len alt).

Definition clean (selected : jstring) : jstring :=
  let s := replaceAll selected MARKERS (fun _ => []) in
  let s := replaceAll s OPENING_MARKER (fun c => default [] (captured s c 1)) in
  replaceAll s CLOSING_MARKER (fun _ => []).

Definition clearFormatting : StateCommand := fun st =>
  let range := main st in
  if r_empty range then None
  else
    let selected := sliceDoc (doc st) (r_from range) (r_to range) in
    let cleaned := clean selected in
    if str_eqb cleaned selected then None
    else Some (Update [change (r_from range) (r_to range) cleaned]
                 (Some (r_from range, r_from range + len cleaned)) false INPUT_FORMAT).

(** The level of a heading line. *)
Definition heading_level (t : jstring) : option Z :=
  match exec t HEADING_LEVEL with
  | Some (_, _, c) => Some (len (default [] (captured t c 1)))
  | None => None
  end.

Definition growHeading : StateCommand := fun st =>
  let t := l_text (lineAt (doc st) (r_from (main st))) in
  setHeading (match heading_level t with Some n => Z.max 1 (n - 1) | None => 2 end) st.

Definition shrinkHeading : StateCommand := fun st =>
  let t := l_text (lineAt (doc st) (r_from (main st))) in
  match heading_level t with
  | None => None
  | Some n => if 6 <=? n then setParagraph st else setHeading (n + 1) st
  end.

(** ** Tables *)

Definition is_row (t : jstring) : bool := test t ROW.

(** [while (cursor < doc.length) ...]: the end of the last row from here. *)
Fixpoint last_row (fuel : nat) (d : D) (insertAt cursor : Z) : Z :=
  match fuel with
  | O => insertAt
  | S fuel =>
      if cursor <? doc_length d then
        let next := lineAt d cursor in
        if is_row (l_text next) then last_row fuel d (l_to next) (l_to next + 1) else insertAt
      else insertAt
  end.

Definition table_row (t : jstring) : jstring :=
  let cells := len (split_on PIPE t) - 2 in
  lit "| " ++ join (lit " | ") (replicate (Z.to_nat (Z.max 1 cells)) (lit "Cell")) ++ lit " |".

(** The loops advance by a unit at least: the length of the document bounds
    them. *)
Definition row_fuel (d : D) : nat := S (Z.to_nat (doc_length d)).

Definition addTableRow : StateCommand := fun st =>
  let ln := lineAt (doc st) (r_from (main st)) in
  if is_row (l_text ln) then
    let insertAt := last_row (row_fuel (doc st)) (doc st) (l_to ln) (r_from (main st)) in
    Some (Update [change insertAt insertAt (nl ++ table_row (l_text ln))]
            (Some (insertAt + 3, insertAt + 3)) false INPUT_FORMAT)
  else None.

Fixpoint block_start (fuel : nat) (d : D) (start : Z) : Z :=
  match fuel with
  | O => start
  | S fuel =>
      if 0 <? start then
        let previous := lineAt d (start - 1) in
        if is_row (l_text previous) then block_start fuel d (l_from previous) else start
      else start
  end.

Fixpoint block_end (fuel : nat) (d : D) (end_ : Z) : Z :=
  match fuel with
  | O => end_
  | S fuel =>
      if end_ <? doc_length d then
        let next := lineAt d (end_ + 1) in
        if is_row (l_text next) then block_end fuel d (l_to next) else end_
      else end_
  end.

Definition cell (row : jstring) : jstring :=
  if test row SEPARATOR then lit " --- |" else lit " Cell |".

Fixpoint column_changes (offset : Z) (block : list jstring) : list Change :=
  match block with
  | [] => []
  | row :: rest => change (offset + len row) (offset + len row) (cell row)
                   :: column_changes (offset + len row + 1) rest
  end.

Definition addTableColumn : StateCommand := fun st =>
  let d := doc st in
  let ln := lineAt d (r_from (main st)) in
  if is_row (l_text ln) then
    let start := block_start (row_fuel d) d (l_from ln) in
    let end_ := block_end (row_fuel d) d (l_to ln) in
    Some (Update (column_changes start (split_on NEWLINE (sliceDoc d start end_))) None false INPUT_FORMAT)
  else None.

(** ** Replacements and insertions *)

Definition replaceRange (a b : Z) (insert : jstring) : StateCommand := fun _ =>
  Some (Update [change a b insert] (Some (a, a + len insert)) true INPUT_FORMAT).

Definition insertGenerated (text : jstring) (replaceSelection : bool) : StateCommand := fun st =>
  let range := main st in
  let a := if replaceSelection then r_from range else r_to range in
  let b := r_to range in
  let prefix := if negb replaceSelection && (0 <? a)
                   && negb (str_eqb (sliceDoc (doc st) (a - 1) a) nl) then nl else [] in
  let insert := prefix ++ text in
  Some (Update [change a b insert] (Some (a + len insert, a + len insert)) true (lit "input")).

Definition link_range (d : D) (range : Range) : list Change * (Z * Z) :=
  let selected := sliceDoc d (r_from range) (r_to range) in
  let label := if str_eqb selected [] then lit "link text" else selected in
  let urlStart := r_from range + len label + 3 in
  ([change (r_from range) (r_to range) (lit "[" ++ label ++ lit "](url)")], (urlStart, urlStart + 3)).

Definition insertLink : StateCommand := fun st =>
  Some (UpdateByRange (map (link_range (doc st)) (ranges st)) true INPUT_FORMAT).

Definition insertImage : StateCommand := fun st =>
  let range := main st in
  let selected := sliceDoc (doc st) (r_from range) (r_to range) in
  let alt := if str_eqb selected [] then lit "alt text" else selected in
  let urlStart := r_from range + len alt + 4 in
  Some (Update [change (r_from range) (r_to range) (lit "![" ++ alt ++ lit "](url)")]
          (Some (urlStart, urlStart + 3)) true INPUT_FORMAT).

(** ** Enter in a list *)

Record Item := {
  i_indent : jstring; i_bullet : option jstring; i_ordinal : option jstring;
  i_space : jstring; i_task : option jstring; i_content : jstring }.

Definition list_item (t : jstring) : option Item :=
  match exec t LIST_ITEM with
  | Some (_, _, c) => Some {|
      i_indent := default [] (captured t c 1); i_bullet := captured t c 2; i_ordinal := captured t c 3;
      i_space := default [] (captured t c 4); i_task := captured t c 5; i_content := default [] (captured t c 6) |}
  | None => None
  end.

(** The line that continues a list after an item. *)
Definition continuation (i : Item) : jstring :=
  let marker := match i_bullet i with
                | Some b => b
                | None => next_ordinal (default [] (i_ordinal i)) ++ lit "." end in
  i_indent i ++ marker ++ i_space i ++ match i_task i with Some (_ :: _) => lit "[ ] " | _ => [] end.

Definition continueList : StateCommand := fun st =>
  let range := main st in
  if negb (r_empty range) then None
  else
    let ln := lineAt (doc st) (r_from range) in
    match list_item (l_text ln) with
    | None => None
    | Some i =>
        if str_eqb (trim (i_content i)) [] then
          Some (Update [change (l_from ln) (l_to ln) []] (Some (l_from ln, l_from ln)) false (lit "input"))
        else
          let insert := nl ++ continuation i in
          Some (Update [change (r_from range) (r_from range) insert]
                  (Some (r_from range + len insert, r_from range + len insert)) true (lit "input"))
    end.

(** ** Clipboard *)

Definition isPlainUrl (value : jstring) : bool :=
  test (trim value) PLAIN_URL && negb (bool_decide (NEWLINE ∈ value)).

(** The paste event: its plain text, [None] when it carries no data. *)
Definition pasteLinkHandler (plain : option jstring) : StateCommand := fun st =>
  let pasted := trim (default [] plain) in
  if str_eqb pasted [] || negb (isPlainUrl pasted) then None
  else
    let range := main st in
    if r_empty range then None
    else
      let selected := sliceDoc (doc st) (r_from range) (r_to range) in
      Some (Update [change (r_from range) (r_to range) (lit "[" ++ selected ++ lit "](" ++ pasted ++ lit ")")]
              None false (lit "input.paste")).

(** [converted] is what [markdownFromClipboard] makes of the event. *)
Definition handleEditorPaste (clipboard : option (jstring * option jstring)) : StateCommand := fun st =>
  match clipboard with
  | None => None
  | Some (plain, converted) =>
      match pasteLinkHandler (Some plain) st with
      | Some t => Some t
      | None =>
          match converted with
          | Some ((_ :: _) as c) =>
              if str_eqb c plain then None
              else Some (Update [change (r_from (main st)) (r_to (main st)) c] None false (lit "input.paste"))
          | _ => None
          end
      end
  end.

(** What a copy writes, as text and as Markdown. *)
Definition handleEditorCopy st : option jstring :=
  if r_empty (main st) then None else Some (sliceDoc (doc st) (r_from (main st)) (r_to (main st))).

(** [written]: whether the clipboard took the text. *)
Definition handleEditorCut (written : jstring -> bool) : StateCommand := fun st =>
  match handleEditorCopy st with
  | None => None
  | Some t => if written t then Some (Update [change (r_from (main st)) (r_to (main st)) []] None false (lit "delete.cut"))
              else None
  end.

Definition insertAtSelection (text userEvent : jstring) : StateCommand := fun st =>
  let range := main st in
  Some (Update [change (r_from range) (r_to range) text]
          (Some (r_from range + len text, r_from range + len text)) true userEvent).

(** ** Names *)

Definition markdownKeymap : list (jstring * StateCommand) :=
  [(lit "Mod-b", toggleBold); (lit "Mod-i", toggleItalic); (lit "Mod-e", toggleInlineCode);
   (lit "Mod-Shift-x", toggleStrikethrough); (lit "Mod-Shift-h", toggleHighlight); (lit "Mod-k", insertLink);
   (lit "Mod-Shift-.", toggleQuote); (lit "Mod-Shift-8", toggleBullet); (lit "Mod-Shift-7", toggleNumbered);
   (lit "Mod-Shift-9", toggleTask); (lit "Mod-1", setHeading 1); (lit "Mod-2", setHeading 2);
   (lit "Mod-3", setHeading 3); (lit "Enter", continueList)].

Definition stateCommands : list (jstring * StateCommand) :=
  [(lit "paragraph", setParagraph); (lit "heading-1", setHeading 1); (lit "heading-2", setHeading 2);
   (lit "heading-3", setHeading 3); (lit "heading-4", setHeading 4); (lit "bold", toggleBold);
   (lit "italic", toggleItalic); (lit "underline", toggleUnderline); (lit "strikethrough", toggleStrikethrough);
   (lit "highlight", toggleHighlight); (lit "inline-code", toggleInlineCode); (lit "grow-heading", growHeading);
   (lit "shrink-heading", shrinkHeading); (lit "clear-formatting", clearFormatting);
   (lit "bullet-list", toggleBullet); (lit "numbered-list", toggleNumbered); (lit "task-list", toggleTask);
   (lit "quote", toggleQuote); (lit "indent", indentLines); (lit "outdent", outdentLines);
   (lit "insert-shape-rect", insertShape rect (lit "Rectangle"));
   (lit "insert-shape-ellipse", insertShape ellipse (lit "Ellipse"));
   (lit "insert-shape-diamond", insertShape diamond (lit "Diamond"));
   (lit "insert-shape-arrow", insertShape arrow (lit "Arrow"));
   (lit "insert-shape-bubble", insertShape bubble (lit "Callout"));
   (lit "insert-table", insertTable); (lit "add-table-row", addTableRow); (lit "add-table-column", addTableColumn);
   (lit "insert-link", insertLink); (lit "insert-footnote", insertFootnote);
   (lit "insert-code-block", insertCodeBlock); (lit "insert-math", insertMath);
   (lit "insert-mermaid", insertMermaid); (lit "insert-callout-info", insertCallout (lit "info"));
   (lit "insert-callout-warning", insertCallout (lit "warning"));
   (lit "insert-callout-danger", insertCallout (lit "danger"));
   (lit "insert-horizontal-rule", insertHorizontalRule); (lit "insert-toc", insertToc)].
End Commands.

(** ** What the commands do to the text *)

Lemma len_units t a b : (a <= b)%nat -> (b <= length t)%nat -> len (units t a b) = Z.of_nat b - Z.of_nat a.
Proof. intros. unfold units, len. rewrite length_take, length_drop. lia. Qed.

(** The edits of lines the commands are made of. *)
Inductive line_rel : (jstring -> option Change) -> Prop :=
| rel_prefix prefix pattern : Forall is_unit prefix -> well_bounded pattern -> line_rel (prefix_edit prefix pattern)
| rel_indent : line_rel indent_edit
| rel_outdent : line_rel outdent_edit.

Lemma exec_len t r a b c : well_bounded r -> exec t r = Some (a, b, c) -> 0 <= len (units t a b) <= len t.
Proof.
  intros Hb [_ Hr]%exec_sound; [|done]. rewrite len_units by lia. unfold len. lia.
Qed.

Lemma line_rel_in_line rel : line_rel rel -> edit_in_line rel.
Proof.
  intros Hr t c. pose proof (len_nonneg t). destruct Hr as [prefix pattern Hu Hb| |].
  - unfold prefix_edit. destruct (exec t pattern) as [[[a b] x]|] eqn:E; [|intros [= <-]; cbn; split_and!; done || lia].
    apply exec_len in E; [|done]. destruct (str_eqb _ _); intros [= <-]; cbn; split_and!; done || lia.
  - unfold indent_edit. destruct (len t =? 0); [done |]. intros [= <-]. cbn. split_and!; [lia..|].
    repeat constructor; unfold is_unit; lia.
  - unfold outdent_edit. destruct (exec t INDENT) as [[[a b] x]|] eqn:E; [|done]. intros [= <-].
    apply exec_len in E; [|cbn; lia]. cbn. split_and!; done || lia.
Qed.

Definition dispatched (t : option Dispatch) : list Change :=
  match t with Some t => changes_of_dispatch t | None => [] end.

Section Theorems.
Context {D : Type} `{TextLaws D}.
Implicit Types (st : EditorState D).

(** The text a command leaves. *)
Definition text_after (c : EditorState D -> option Dispatch) st : jstring :=
  updated (doc_text (doc st)) 0 (dispatched (c st)).

Lemma line_command_rewrites rel ev st :
  edit_in_line rel -> state_ok st ->
  changes_ok (doc_length (doc st)) 0 (dispatched (line_command rel ev st)) /\
  text_after (line_command rel ev) st
  = join nl (imap (rewritten (selected (doc st) (ranges st)) rel) (text_lines (doc st))).
Proof.
  intros Hrel [Hok _]. unfold text_after, line_command.
  pose proof (line_edits_rewrite rel (doc st) (ranges st) Hrel Hok) as Hr. cbv zeta in Hr.
  by destruct (visit_lines _ _ _).
Qed.

(** C29. Every command that edits lines (a prefix toggled by its expression, as
    headings, quotes and lists, the indentation added or removed) rewrites
    exactly the lines its selection touches, each once however many ranges
    touch it, and leaves every other line as it was; its changes are in order
    and inside the document. *)
Theorem line_commands_rewrite rel ev st :
  line_rel rel -> state_ok st ->
  changes_ok (doc_length (doc st)) 0 (dispatched (line_command rel ev st)) /\
  text_after (line_command rel ev) st
  = join nl (imap (rewritten (selected (doc st) (ranges st)) rel) (text_lines (doc st))).
Proof. intros Hr%line_rel_in_line Hst. by apply line_command_rewrites. Qed.

(** ** Indentation *)

Lemma outdent_indented t : edited outdent_edit (edited indent_edit t) = t.
Proof.
  destruct t as [|u t]; [done |]. unfold edited at 2, indent_edit.
  rewrite (proj2 (Z.eqb_neq _ _)) by (rewrite len_cons; pose proof (len_nonneg t); lia).
  unfold splice. cbn [change fromA toA inserted]. rewrite slice_empty. cbn [app].
  change (slice_from (u :: t) 0) with (slice (u :: t) 0 (len (u :: t))). rewrite slice_full.
  unfold edited, outdent_edit.
  assert (exec (lit "  " ++ u :: t) INDENT = Some (0%nat, 2%nat, [(1%nat, (0%nat, 2%nat))])) as -> by done.
  unfold splice. cbn [change fromA toA inserted].
  change (len (units (lit "  " ++ u :: t) 0 2)) with (len (lit "  ")). by rewrite slice_empty, slice_from_right.
Qed.

(** Removing the indentation after adding it gives the document back, for
    any selection over the same lines, blank and already indented lines
    included. *)
Theorem outdent_undoes_indent st st' :
  state_ok st -> state_ok st' ->
  text_lines (doc st') = imap (rewritten (selected (doc st) (ranges st)) indent_edit) (text_lines (doc st)) ->
  (forall n, selected (doc st') (ranges st') n = selected (doc st) (ranges st) n) ->
  doc_text (doc st') = text_after indentLines st /\ text_after outdentLines st' = doc_text (doc st).
Proof.
  intros Hst Hst' Hl Hsel. split.
  - unfold doc_text at 1. rewrite Hl. symmetry. apply line_command_rewrites; [|done].
    apply line_rel_in_line. constructor.
  - destruct (line_command_rewrites outdent_edit (lit "input.indent") st') as [_ Ht];
      [apply line_rel_in_line; constructor | done |].
    unfold outdentLines. rewrite Ht, Hl. unfold doc_text. f_equal. apply list_eq. intros i.
    rewrite !list_lookup_imap. destruct (text_lines (doc st) !! i) as [t|]; [|done]. cbn. f_equal.
    unfold rewritten. rewrite Hsel. destruct (selected _ _ _); [apply outdent_indented | done].
Qed.

(** ** Markers *)

Lemma wrap_around marker placeholder (d : D) r :
  r_from r < r_to r -> 0 <= r_from r -> r_to r <= doc_length d -> wrapped marker d r = false ->
  wrap_range marker placeholder d r
  = ([change (r_from r) (r_to r) (marker ++ slice (doc_text d) (r_from r) (r_to r) ++ marker)],
     (r_from r + len marker, r_to r + len marker)).
Proof.
  intros Hr H0' H1 Hw. unfold wrap_range. rewrite Hw, law_slice by lia.
  unfold r_empty. rewrite (proj2 (Z.eqb_neq _ _)) by lia. rewrite law_length in H1.
  assert (len (slice (doc_text d) (r_from r) (r_to r)) = r_to r - r_from r) as Hl by (apply len_slice; lia).
  rewrite str_eqb_neq by (intros E; rewrite E, len_nil in Hl; lia).
  rewrite Hl. by replace (r_from r + len marker + (r_to r - r_from r)) with (r_to r + len marker) by lia.
Qed.

Lemma unwrap pre marker sel post (d : D) :
  doc_text d = pre ++ marker ++ sel ++ marker ++ post ->
  forall placeholder,
  let r := {| r_from := len pre + len marker; r_to := len pre + len marker + len sel |} in
  let res := wrap_range marker placeholder d r in
  updated (doc_text d) 0 res.1 = pre ++ sel ++ post /\ res.2 = (len pre, len pre + len sel).
Proof.
  intros E placeholder. cbv zeta.
  pose proof (len_nonneg pre). pose proof (len_nonneg marker). pose proof (len_nonneg sel). pose proof (len_nonneg post).
  assert (doc_length d = len pre + len marker + len sel + len marker + len post) as Hl
    by (rewrite law_length, E, !len_app; lia).
  assert (slice (doc_text d) (len pre) (len pre + len marker) = marker) as Hb by (rewrite E; by apply slice_mid).
  assert (doc_text d = (pre ++ marker) ++ sel ++ marker ++ post) as E1 by (by rewrite E, <- !app_assoc).
  assert (doc_text d = (pre ++ marker ++ sel) ++ marker ++ post) as E2 by (by rewrite E, <- !app_assoc).
  assert (slice (doc_text d) (len pre + len marker + len sel) (len pre + len marker + len sel + len marker) = marker) as Ha
    by (rewrite E2; apply slice_mid; rewrite !len_app; lia).
  assert (wrapped marker d {| r_from := len pre + len marker; r_to := len pre + len marker + len sel |} = true) as Hw.
  { unfold wrapped. cbn [r_from r_to]. rewrite !law_slice by lia.
    rewrite Z.max_r, Z.min_r by lia. replace (len pre + len marker - len marker) with (len pre) by lia.
    by rewrite Ha, Hb, str_eqb_refl. }
  unfold wrap_range. rewrite Hw. cbn [r_from r_to fst snd updated change fromA toA inserted].
  replace (len pre + len marker - len marker) with (len pre) by lia.
  split; [|f_equal; lia]. cbn [app]. f_equal; [rewrite E; by apply slice_left |]. f_equal.
  - rewrite E1. apply slice_mid; rewrite !len_app; lia.
  - rewrite E2, app_assoc. apply slice_from_right. rewrite !len_app. lia.
Qed.

(** Toggling a marker twice on a selection gives back the text and the
    selection: the second toggle finds the markers the first one put around
    it, whatever the marker and whatever surrounds them. *)
Theorem toggle_wrap_twice marker placeholder st st' r r' :
  state_ok st -> ranges st = [r] -> r_from r < r_to r -> wrapped marker (doc st) r = false ->
  doc_text (doc st') = text_after (toggleWrap marker placeholder) st -> ranges st' = [r'] ->
  (r_from r', r_to r') = (wrap_range marker placeholder (doc st) r).2 ->
  text_after (toggleWrap marker placeholder) st' = doc_text (doc st) /\
  (wrap_range marker placeholder (doc st') r').2 = (r_from r, r_to r).
Proof.
  intros Hst Er Hr Hw Et Er' Esel.
  assert (0 <= r_from r <= r_to r /\ r_to r <= doc_length (doc st)) as [? ?]
    by (apply (range_ok_in _ 0 (ranges st)); [apply Hst | rewrite Er; apply list_elem_of_singleton; reflexivity]).
  set (T := doc_text (doc st)) in *.
  assert (doc_length (doc st) = len T) as Hlen by apply law_length.
  pose proof (wrap_around marker placeholder (doc st) r Hr ltac:(lia) ltac:(lia) Hw) as E. fold T in E.
  rewrite E in Esel. injection Esel as Ef Eto.
  unfold text_after, toggleWrap in Et. rewrite Er in Et. cbn [map dispatched changes_of_dispatch concat] in Et.
  rewrite E, app_nil_r in Et. cbn [fst updated change fromA toA inserted] in Et. fold T in Et. rewrite <- !app_assoc in Et.
  pose proof (unwrap _ _ _ _ (doc st') Et placeholder) as Hun. cbv zeta in Hun.
  rewrite !len_slice in Hun by lia.
  replace {| r_from := _; r_to := _ |} with r' in Hun by (destruct r'; cbn in *; f_equal; lia).
  destruct Hun as [Ht Hs]. unfold text_after, toggleWrap. rewrite Er'.
  cbn [map dispatched changes_of_dispatch concat]. rewrite app_nil_r, Ht, Hs. split.
  - rewrite app_assoc, <- slice_split by lia. apply slice_parts; lia.
  - f_equal; lia.
Qed.

(** ** Snippets *)

(** A snippet replaces the selection, starts on a line of its own, and
    leaves selected the part of it that it names. *)
Theorem snippet_lands text a b st :
  state_ok st -> 0 <= a <= b -> b <= len text ->
  exists prefix x y,
    insertSnippet text a b st
      = Some (Update [change (r_from (main st)) (r_to (main st)) (prefix ++ text)] (Some (x, y)) true INPUT_FORMAT) /\
    let after := text_after (insertSnippet text a b) st in
    let start := x - a in
    after = splice (doc_text (doc st)) (r_from (main st)) (r_to (main st)) (prefix ++ text) /\
    slice after x y = slice text a b /\ y - x = b - a /\
    (start = 0 \/ at_index after (start - 1) = Some NEWLINE).
Proof.
  intros Hst Ha Hb. destruct (main_ok st Hst) as [Hm1 Hm2]. set (r := main st) in *.
  set (T := doc_text (doc st)). assert (doc_length (doc st) = len T) as Hlen by apply law_length.
  destruct (law_lineAt (doc st) (r_from r)) as (n & t & Hn & El & Hin); [lia |].
  set (prefix := if (l_from (lineAt (doc st) (r_from r)) =? r_from r) || (r_from r =? 0) then [] else nl).
  exists prefix, (r_from r + len prefix + a), (r_from r + len prefix + b).
  split; [done |]. cbv zeta. unfold text_after. cbn [insertSnippet dispatched changes_of_dispatch].
  fold r. fold prefix. cbn [updated change fromA toA inserted]. fold T. fold (splice T (r_from r) (r_to r) (prefix ++ text)).
  split; [done |]. assert (len (slice T 0 (r_from r)) = r_from r) as Hp by (rewrite len_slice; lia).
  unfold splice. rewrite <- !app_assoc. split_and!; [|lia|].
  - rewrite app_assoc. replace (r_from r + len prefix) with (len (slice T 0 (r_from r) ++ prefix)) by (rewrite len_app; lia).
    by apply slice_inside.
  - replace (r_from r + len prefix + a - a) with (r_from r + len prefix) by lia. unfold prefix.
    destruct (Z.eqb_spec (r_from r) 0) as [E0|]; [rewrite orb_true_r, E0; by left |]. rewrite orb_false_r. clear prefix.
    destruct (Z.eqb_spec (l_from (lineAt (doc st) (r_from r))) (r_from r)) as [E1|].
    + right. change (len (@nil Z)) with 0. rewrite Z.add_0_r. destruct (line_starts (doc st) n t Hn) as [E2|E2].
      * rewrite El in E1. cbn in E1. lia.
      * rewrite El in E1. cbn in E1. rewrite <- E1. fold T in E2. cbn [app].
        rewrite at_index_lookup in E2 |- * by lia.
        rewrite lookup_app_l by (rewrite <- E1 in Hp; unfold len in Hp; lia).
        rewrite slice_0 by lia. rewrite lookup_take_lt by lia. done.
    + right. change (len nl) with 1. rewrite at_index_lookup by lia.
      rewrite lookup_app_r by (unfold len in Hp; lia). replace (_ - _)%nat with 0%nat by (unfold len in Hp; lia). done.
Qed.
End Theorems.

(** ** Concrete runs *)

Definition list3 : jstring := lit "- a" ++ nl ++ nl ++ lit "  - b" ++ nl ++ lit "end".

(** Two ranges, both on the first line, the second as far as the third. *)
Definition two_ranges (text : jstring) : EditorState jstring :=
  {| doc := text; ranges := [{| r_from := 0; r_to := 1 |}; {| r_from := 2; r_to := 7 |}];
     main := {| r_from := 0; r_to := 1 |} |}.

Lemma two_ranges_ok : state_ok (two_ranges list3).
Proof. split; [vm_compute; repeat split; discriminate | left]. Qed.

Lemma line_commands_rewrite_witness :
  text_after (setHeading 2) (two_ranges list3)
  = lit "## - a" ++ nl ++ lit "## " ++ nl ++ lit "##   - b" ++ nl ++ lit "end".
Proof.
  destruct (line_commands_rewrite (prefix_edit (heading_prefix 2) HEADING_PREFIX) INPUT_FORMAT (two_ranges list3)) as [_ E].
  - apply rel_prefix; [|cbn; repeat split; lia].
    repeat (constructor; [vm_compute; split; [discriminate | reflexivity] |]). constructor.
  - exact two_ranges_ok.
  - etransitivity; [exact E |]. vm_compute. reflexivity.
Defined.

Lemma outdent_undoes_indent_witness :
  text_after indentLines (two_ranges list3) = lit "  - a" ++ nl ++ nl ++ lit "    - b" ++ nl ++ lit "end" /\
  text_after outdentLines (plain_state (text_after indentLines (two_ranges list3)) 0 9) = list3.
Proof.
  split; [vm_compute; reflexivity |].
  destruct (outdent_undoes_indent (two_ranges list3) (plain_state (text_after indentLines (two_ranges list3)) 0 9)) as [_ E];
    [ | | | | etransitivity; [exact E | vm_compute; reflexivity]].
  - exact two_ranges_ok.
  - split; [vm_compute; repeat split; discriminate | by apply list_elem_of_singleton].
  - vm_compute. reflexivity.
  - intros n. rewrite !selected_spans.
    assert (spans (doc (two_ranges list3)) (ranges (two_ranges list3)) = [(1, 1); (1, 3)]) as -> by (vm_compute; reflexivity).
    assert (spans (text_after indentLines (two_ranges list3)) [{| r_from := 0; r_to := 9 |}] = [(1, 3)]) as E
      by (vm_compute; reflexivity).
    etransitivity; [exact (f_equal (existsb (fun s => (s.1 <=? n) && (n <=? s.2))) E) |]. cbn.
    destruct (Z.leb_spec 1 n), (Z.leb_spec n 1), (Z.leb_spec n 3); done || lia.
Defined.

Lemma toggle_wrap_twice_witness :
  text_after toggleBold (plain_state (lit "a word here") 2 6) = lit "a **word** here" /\
  text_after toggleBold (plain_state (lit "a **word** here") 4 8) = lit "a word here".
Proof.
  split; [vm_compute; reflexivity |].
  destruct (toggle_wrap_twice (lit "**") (lit "bold text") (plain_state (lit "a word here") 2 6)
    (plain_state (lit "a **word** here") 4 8) {| r_from := 2; r_to := 6 |} {| r_from := 4; r_to := 8 |}) as [E _];
    [ | | | | | | | exact E]; try (vm_compute; reflexivity).
  split; [vm_compute; repeat split; discriminate | by apply list_elem_of_singleton].
Defined.

(** What a snippet leaves selected, at the start of an empty document. *)
Definition snippet_selection (c : StateCommand (D := jstring)) : option jstring :=
  match c (plain_state [] 0 0) with
  | Some (Update cs (Some (x, y)) _ _) => Some (slice (updated [] 0 cs) x y)
  | _ => None
  end.

Example snippets_select_their_placeholder :
  map snippet_selection [insertTable; insertFootnote; insertToc] = [Some (lit "Column"); Some (lit "footnote"); Some []].
Proof. vm_compute. reflexivity. Qed.

(** The offsets of a callout are one too far, those of the diagram are those of
    another text. *)
Example callout_selects_past_its_note :
  snippet_selection (insertCallout (lit "info")) = Some (lit "ote" ++ nl).
Proof. vm_compute. reflexivity. Qed.
Example diagram_selects_half_a_word : snippet_selection insertMermaid = Some (lit "LR" ++ nl ++ lit "  ").
Proof. vm_compute. reflexivity. Qed.

(** The alternative text is looked for in the address first. *)
Example image_selects_its_address :
  match insertHtmlImage (lit "/image/a.png") (lit "image") 480 (lit "center") (plain_state [] 0 0) with
  | Some (Update cs sel _ _) => (take 23 (updated [] 0 cs), sel)
  | _ => ([], None)
  end = (lit "<img src=" ++ [34] ++ lit "/image/a.png" ++ [34], Some (11, 16)).
Proof. vm_compute. reflexivity. Qed.

(** Toggling italics in bold text takes the bold away; growing a first-level
    heading makes it a paragraph. *)
Example italic_unbolds : text_after toggleItalic (plain_state (lit "**bold**") 2 6) = lit "*bold*".
Proof. vm_compute. reflexivity. Qed.
Example largest_heading_grows_away : text_after growHeading (plain_state (lit "# A") 2 2) = lit "A".
Proof. vm_compute. reflexivity. Qed.
