(* ===== verification/EditorTables.v ===== *)
(** Growing a Markdown table ([addTableRow] and [addTableColumn] of
    [client/src/editor/commands.ts]): the loops find the rows around the
    cursor, and the change is to those rows only. *)

From S2P Require Import Prelude.
From S2P Require Import Bytes.
From S2P Require Import Regex.
From S2P Require Import EditorText.
From S2P Require Import SourceBlocks.
From S2P Require Import EditorLines.
From S2P Require Import EditorCommands.

Section Tables.
Context {D : Type} `{TextLaws D}.
Implicit Types (st : EditorState D) (d : D).

Abbreviation lines d := (text_lines d).
Definition line_end d (n : nat) (t : jstring) : Z := offset_of (lines d) n + len t.

(** All lines from one index up to another, excluded, are rows. *)
Definition rows_between d (lo hi : nat) : Prop :=
  forall k t, (lo <= k < hi)%nat -> lines d !! k = Some t -> is_row t = true.
(** A run of rows ends here: the next line, if any, is not a row. *)
Definition ends_rows d (n : nat) : Prop := forall t, lines d !! n = Some t -> is_row t = false.
Definition starts_rows d (n : nat) : Prop := forall k t, n = S k -> lines d !! k = Some t -> is_row t = false.

Lemma block_start_spec d fuel : forall n t,
  lines d !! n = Some t -> offset_of (lines d) n < Z.of_nat fuel ->
  exists lo, (lo <= n)%nat /\ block_start fuel d (offset_of (lines d) n) = offset_of (lines d) lo /\
    rows_between d lo n /\ starts_rows d lo.
Proof.
  induction fuel as [|fuel IH]; intros n t Hn Hf; [apply lookup_offset in Hn; lia |].
  cbn [block_start]. destruct (Z.ltb_spec 0 (offset_of (lines d) n)) as [Hpos|Hz].
  2: { exists n. split_and!; [lia | done | intros k u ?; lia |]. intros k u -> Hk.
       pose proof (offset_step _ _ _ Hk). apply lookup_offset in Hk. pose proof (len_nonneg u). lia. }
  destruct n as [|n]; [by change (offset_of (lines d) 0) with 0 in Hpos |].
  pose proof (lookup_lt_Some _ _ _ Hn).
  destruct (lookup_lt_is_Some_2 (lines d) n) as [u Hu]; [lia |].
  pose proof (offset_step _ _ _ Hu) as Hs. pose proof (len_nonneg u).
  rewrite (lineAt_in d n u) by (done || lia). cbn [l_text l_from nth_line].
  destruct (is_row u) eqn:Eu.
  - destruct (IH n u Hu) as (lo & Hlo & E & Hrows & Hst); [lia |]. exists lo. split_and!; [lia | done | | done].
    intros k v Hk Hv. destruct (decide (k = n)) as [->|]; [congruence | apply (Hrows k); [lia | done]].
  - exists (S n). split_and!; [lia | done | intros k v ?; lia |]. intros k v [= <-] Hv. congruence.
Qed.

Lemma block_end_spec d fuel : forall n t,
  lines d !! n = Some t -> doc_length d - line_end d n t < Z.of_nat fuel ->
  exists hi u, (n <= hi)%nat /\ lines d !! hi = Some u /\ block_end fuel d (line_end d n t) = line_end d hi u /\
    rows_between d (S n) (S hi) /\ ends_rows d (S hi).
Proof.
  unfold line_end. induction fuel as [|fuel IH]; intros n t Hn Hf; [apply lookup_offset in Hn; lia |].
  cbn [block_end]. destruct (Z.ltb_spec (offset_of (lines d) n + len t) (doc_length d)) as [Hlt|Hge].
  2: { exists n, t. split_and!; [lia | done | done | intros k v ?; lia |]. intros v Hv.
       apply lookup_lt_Some, (last_line d n t Hn) in Hv. lia. }
  apply (last_line d n t Hn) in Hlt. destruct (lookup_lt_is_Some_2 (lines d) (S n) Hlt) as [u Hu].
  pose proof (offset_step _ _ _ Hn) as Hs. pose proof (len_nonneg u).
  rewrite (lineAt_in d (S n) u) by (done || lia). cbn [l_text l_to nth_line].
  destruct (is_row u) eqn:Eu.
  - destruct (IH (S n) u Hu) as (hi & v & Hhi & Hv & E & Hrows & He); [lia |]. exists hi, v.
    split_and!; [lia | done | done | | done]. intros k w Hk Hw.
    destruct (decide (k = S n)) as [->|]; [congruence | apply (Hrows k); [lia | done]].
  - exists n, t. split_and!; [lia | done | done | intros k v ?; lia |]. intros v Hv. congruence.
Qed.

(** The other loop finds the same end. *)
Lemma last_row_spec d fuel : forall n t,
  lines d !! n = Some t -> doc_length d - line_end d n t < Z.of_nat fuel ->
  exists hi u, (n <= hi)%nat /\ lines d !! hi = Some u /\
    last_row fuel d (line_end d n t) (line_end d n t + 1) = line_end d hi u /\
    rows_between d (S n) (S hi) /\ ends_rows d (S hi).
Proof.
  unfold line_end. induction fuel as [|fuel IH]; intros n t Hn Hf; [apply lookup_offset in Hn; lia |].
  cbn [last_row]. pose proof (offset_step _ _ _ Hn) as Hs.
  destruct (decide (S n < length (lines d))%nat) as [Hlt|Hge].
  - destruct (lookup_lt_is_Some_2 (lines d) (S n) Hlt) as [u Hu]. pose proof (len_nonneg u).
    destruct (Z.ltb_spec (offset_of (lines d) n + len t + 1) (doc_length d)) as [Hd|Hd].
    + rewrite (lineAt_in d (S n) u) by (done || lia). cbn [l_text l_to nth_line]. destruct (is_row u) eqn:Eu.
      * destruct (IH (S n) u Hu) as (hi & v & Hhi & Hv & E & Hrows & He); [lia |]. exists hi, v.
        split_and!; [lia | done | done | | done]. intros k w Hk Hw.
        destruct (decide (k = S n)) as [->|]; [congruence | apply (Hrows k); [lia | done]].
      * exists n, t. split_and!; [lia | done | done | intros k v ?; lia |]. intros v Hv. congruence.
    + exists n, t. split_and!; [lia | done | done | intros k v ?; lia |]. intros v Hv.
      rewrite Hu in Hv. injection Hv as <-. apply lookup_offset in Hu. rewrite Hs in Hu.
      assert (u = []) as -> by (apply len_zero_nil; lia). done.
  - assert (~ offset_of (lines d) n + len t < doc_length d) by (by rewrite (last_line d n t Hn)).
    rewrite (proj2 (Z.ltb_ge _ _)) by lia. exists n, t.
    split_and!; [lia | done | done | intros k v ?; lia |]. intros v Hv%lookup_lt_Some. lia.
Qed.

Lemma cell_units t : Forall is_unit (cell t).
Proof. unfold cell. destruct (test _ _); apply lit_units. Qed.

(** ** The column *)

Definition in_block (lo hi : nat) (n : Z) : bool := (Z.of_nat lo <? n) && (n <=? Z.of_nat hi + 1).
Definition cell_edit (t : jstring) : option Change := Some (change (len t) (len t) (cell t)).

Lemma column_changes_spec sel block : forall n off,
  (forall k, n <= k < n + len block -> sel k = true) ->
  column_changes off block = changes_of sel cell_edit n off block.
Proof.
  induction block as [|t block IH]; intros n off Hs; [done |]. cbn [column_changes changes_of].
  rewrite len_cons in Hs. pose proof (len_nonneg block). rewrite (Hs n) by lia.
  rewrite (IH (n + 1)) by (intros; apply Hs; lia). done.
Qed.

Lemma append_cells d lo hi : (lo <= hi < length (lines d))%nat ->
  let block := take (S hi - lo) (drop lo (lines d)) in
  updated (doc_text d) 0 (column_changes (offset_of (lines d) lo) block)
  = join nl (imap (fun i t => if decide (lo <= i <= hi)%nat then t ++ cell t else t) (lines d)).
Proof.
  intros Hh. cbv zeta. set (a := take lo (lines d)). set (b := take _ _). set (c := drop (S hi) (lines d)).
  assert (lines d = a ++ b ++ c) as E.
  { unfold a, b, c. rewrite <- (take_drop lo (lines d)) at 1. f_equal.
    rewrite <- (take_drop (S hi - lo) (drop lo (lines d))) at 1. f_equal. rewrite drop_drop. f_equal. lia. }
  assert (length a = lo) as Ea by (unfold a; rewrite length_take; lia).
  assert (length b = (S hi - lo)%nat) as Eb by (unfold b; rewrite length_take, length_drop; lia).
  set (sel := in_block lo hi).
  assert (edit_in_line cell_edit) as Hrel.
  { intros t x [= <-]. cbn. pose proof (len_nonneg t). split_and!; [lia..|]. apply cell_units. }
  pose proof (changes_of_apply sel cell_edit Hrel (lines d) 0 [] 0 (proj1 (law_lines d))) as Ha. cbv zeta in Ha.
  destruct Ha as [_ Ha]; [done |]. rewrite (len_nil (A := Z)), slice_empty in Ha. cbn [app] in Ha.
  assert (changes_of sel cell_edit (Z.of_nat 0 + 1) 0 (lines d) = column_changes (offset_of (lines d) lo) b) as Ec.
  { rewrite E at 1. rewrite !changes_of_app, (changes_of_none _ _ a), (changes_of_none _ _ c); cbn [app].
    - rewrite app_nil_r, Z.add_0_l. rewrite (column_changes_spec sel b (Z.of_nat 0 + 1 + len a)).
      + f_equal. rewrite E at 1. rewrite <- Ea. symmetry. apply offset_of_app.
      + intros k Hk. unfold sel, in_block. unfold len in Hk. rewrite Ea, Eb in Hk.
        apply andb_true_iff. rewrite Z.ltb_lt, Z.leb_le. lia.
    - intros k Hk. unfold sel, in_block. unfold len in Hk. rewrite Ea, Eb in Hk.
      apply andb_false_iff. rewrite Z.ltb_ge, Z.leb_gt. lia.
    - intros k Hk. unfold sel, in_block. unfold len in Hk. rewrite Ea in Hk.
      apply andb_false_iff. rewrite Z.ltb_ge, Z.leb_gt. lia. }
  rewrite Ec in Ha. unfold doc_text. rewrite Ha. unfold nl. f_equal. apply imap_ext. intros i t _.
  unfold rewritten, sel, in_block. cbn [Nat.add].
  destruct (decide (lo <= i <= hi)%nat).
  - rewrite (proj2 (Z.ltb_lt _ _)), (proj2 (Z.leb_le _ _)) by lia. cbn [andb].
    unfold edited, cell_edit, splice. cbn. rewrite slice_full. unfold slice_from. by rewrite slice_empty, app_nil_r.
  - destruct (andb _ _) eqn:Es; [|done]. apply andb_true_iff in Es as [?%Z.ltb_lt ?%Z.leb_le]. lia.
Qed.

(** ** Both commands *)

Lemma run_ends_once d n hi hi' u u' :
  (n <= hi)%nat -> (n <= hi')%nat -> lines d !! hi = Some u -> lines d !! hi' = Some u' ->
  rows_between d (S n) (S hi) -> ends_rows d (S hi) ->
  rows_between d (S n) (S hi') -> ends_rows d (S hi') -> hi = hi'.
Proof.
  intros ? ? Hu Hu' Hr He Hr' He'. apply lookup_lt_Some in Hu, Hu'.
  destruct (lt_eq_lt_dec hi hi') as [[Hlt|]|Hlt]; [|done|].
  - destruct (lookup_lt_is_Some_2 (lines d) (S hi)) as [v Hv]; [lia |].
    pose proof (He v Hv) as Hf. rewrite (Hr' (S hi) v) in Hf; [done | lia | done].
  - destruct (lookup_lt_is_Some_2 (lines d) (S hi')) as [v Hv]; [lia |].
    pose proof (He' v Hv) as Hf. rewrite (Hr (S hi') v) in Hf; [done | lia | done].
Qed.

(** The row goes where the column ends. *)
Lemma row_place d n t hi u p :
  lines d !! n = Some t -> is_row t = true ->
  offset_of (lines d) n <= p <= line_end d n t -> lineAt d p = nth_line (lines d) n t ->
  (n <= hi)%nat -> lines d !! hi = Some u -> rows_between d (S n) (S hi) -> ends_rows d (S hi) ->
  last_row (row_fuel d) d (line_end d n t) p = line_end d hi u.
Proof.
  intros Hn Er Hp El Hhi Hu Hr He. unfold row_fuel. cbn [last_row].
  pose proof (lookup_offset d n t Hn) as Ho. fold (line_end d n t) in Ho. pose proof (len_nonneg t).
  destruct (Z.ltb_spec p (doc_length d)) as [Hlt|Hge].
  - rewrite El. cbn [l_text l_to nth_line]. rewrite Er. fold (line_end d n t).
    destruct (last_row_spec d (Z.to_nat (doc_length d)) n t Hn) as (hi' & u' & ? & Hu' & -> & Hr' & He').
    { assert (0 < len t); [|unfold line_end in *; lia]. destruct t; [done |]. rewrite len_cons.
      pose proof (len_nonneg t). lia. }
    assert (hi' = hi) as -> by (symmetry; by eapply (run_ends_once d n hi hi' u u')). congruence.
  - assert (hi = n) as ->; [|congruence].
    destruct (decide (hi = n)); [done |]. apply lookup_lt_Some in Hu.
    pose proof (proj2 (last_line d n t Hn) ltac:(lia)). unfold line_end in *. lia.
Qed.

(** In a table, a new row goes after the last row below the cursor, with a
    cell for every column of the cursor's row, and a new column ends every row
    of the whole run of rows around the cursor; every other line stays as it
    was. Outside a table both do nothing. *)
Theorem table_grows st n t :
  state_ok st -> cursor_line st n t ->
  if is_row t then
    exists lo hi, (lo <= n <= hi)%nat /\ rows_between (doc st) lo (S hi) /\
      starts_rows (doc st) lo /\ ends_rows (doc st) (S hi) /\
      text_after addTableRow st
      = join nl (take (S hi) (lines (doc st)) ++ table_row t :: drop (S hi) (lines (doc st))) /\
      text_after addTableColumn st
      = join nl (imap (fun i u => if decide (lo <= i <= hi)%nat then u ++ cell u else u) (lines (doc st)))
  else addTableRow st = None /\ addTableColumn st = None.
Proof.
  intros Hst [Hn El]. destruct (main_ok st Hst) as [Hm1 Hm2]. set (d := doc st) in *. set (p := r_from (main st)) in *.
  assert (line_end d n t <= doc_length d) as Hend by (by apply lookup_offset).
  assert (0 <= p <= doc_length d) as Hp by (subst p; lia).
  destruct (law_lineAt d p Hp) as (m & w & Hm & El' & Hin). rewrite El in Hin. cbn in Hin.
  pose proof (lookup_offset d n t Hn) as Ho. pose proof (len_nonneg t).
  unfold text_after, addTableRow, addTableColumn. fold d p. rewrite El. cbn [l_text l_to l_from nth_line].
  destruct (is_row t) eqn:Er; [|done]. cbn [dispatched changes_of_dispatch].
  destruct (block_start_spec d (row_fuel d) n t Hn) as (lo & Hlo & -> & Hrlo & Hslo); [unfold row_fuel; lia |].
  destruct (block_end_spec d (row_fuel d) n t Hn) as (hi & u & Hhi & Hu & Ee & Hrhi & Hehi); [unfold line_end, row_fuel; lia |].
  fold (line_end d n t). rewrite Ee. exists lo, hi.
  assert (rows_between d lo (S hi)) as Hrows.
  { intros k v Hk Hv. destruct (decide (k < n)%nat); [apply (Hrlo k); [lia | done] |].
    destruct (decide (k = n)) as [->|]; [congruence | apply (Hrhi k); [lia | done]]. }
  pose proof (lookup_lt_Some _ _ _ Hu) as Hlt.
  split_and!; [lia | lia | done | done | done | |].
  - rewrite (row_place d n t hi u p) by (done || unfold line_end; lia).
    exact (insert_line d hi u (table_row t) Hu).
  - set (b := take (S hi - lo) (drop lo (lines d))).
    assert (lines d = take lo (lines d) ++ b ++ drop (S hi) (lines d)) as E.
    { unfold b. rewrite <- (take_drop lo (lines d)) at 1. f_equal.
      rewrite <- (take_drop (S hi - lo) (drop lo (lines d))) at 1. f_equal. rewrite drop_drop. f_equal. lia. }
    assert (length b = (S hi - lo)%nat) as Hb by (unfold b; rewrite length_take, length_drop; lia).
    destruct (lines_text d _ b _ E) as (_ & _ & Et); [by intros ->; cbn in Hb; lia |].
    rewrite length_app, Hb, length_take_le in Et by lia. replace (lo + (S hi - lo))%nat with (S hi) in Et by lia.
    rewrite (offset_step _ _ _ Hu) in Et. unfold line_end.
    replace (offset_of (lines d) hi + len u + 1 - 1) with (offset_of (lines d) hi + len u) in Et by lia.
    rewrite Et, split_on_join.
    + apply append_cells. lia.
    + intros ->. cbn in Hb. lia.
    + unfold b. apply Forall_take, Forall_drop, law_lines.
Qed.
End Tables.

(** ** A concrete table *)

Definition table3 : jstring :=
  lit "| A | B |" ++ nl ++ lit "| --- | --- |" ++ nl ++ lit "| 1 | 2 |" ++ nl ++ lit "after".

Lemma table_grows_witness :
  text_after addTableColumn (plain_state table3 3 3)
  = lit "| A | B | Cell |" ++ nl ++ lit "| --- | --- | --- |" ++ nl ++ lit "| 1 | 2 | Cell |" ++ nl ++ lit "after" /\
  exists lo hi, (lo <= 0 <= hi)%nat /\ rows_between table3 lo (S hi) /\
    text_after addTableRow (plain_state table3 3 3)
    = join nl (take (S hi) (text_lines table3) ++ table_row (lit "| A | B |") :: drop (S hi) (text_lines table3)).
Proof.
  split; [vm_compute; reflexivity |].
  destruct (table_grows (plain_state table3 3 3) 0 (lit "| A | B |")) as (lo & hi & Hn & Hr & _ & _ & Ht & _).
  - split; [vm_compute; repeat split; discriminate | by apply list_elem_of_singleton].
  - split; vm_compute; reflexivity.
  - exists lo, hi. split; [exact Hn | split; [exact Hr | exact Ht]].
Defined.

(** A body row whose first cell is empty counts as the separator. *)
Example empty_first_cell_is_taken_for_a_separator :
  text_after addTableColumn (plain_state (lit "|   | B |" ++ nl ++ lit "| --- | --- |" ++ nl ++ lit "| 1 | 2 |") 0 0)
  = lit "|   | B | --- |" ++ nl ++ lit "| --- | --- | --- |" ++ nl ++ lit "| 1 | 2 | Cell |".
Proof. vm_compute. reflexivity. Qed.
