(* ===== verification/EditorLists.v ===== *)
(** Enter in a list ([continueList] of [client/src/editor/commands.ts]): what an
    item is made of, and that the line it inserts is an empty item of the same
    list, so that a second Enter ends the list. *)

From S2P Require Import Prelude.
From S2P Require Import Bytes.
From S2P Require Import Regex.
From S2P Require Import EditorText.
From S2P Require Import SourceBlocks.
From S2P Require Import EditorLines.
From S2P Require Import EditorCommands.

(** ** The parts of an item *)

Definition is_marker (i : Item) : Prop :=
  (exists u, i_bullet i = Some [u] /\ one_of (lit "-*+") u = true) \/
  (i_bullet i = None /\ exists ds, i_ordinal i = Some ds /\ ds <> [] /\ forallb digit ds = true).

Definition item_ok (i : Item) : Prop :=
  forallb white (i_indent i) = true /\ is_marker i /\ forallb white (i_space i) = true /\ i_space i <> [].

Lemma run_units (s : jstring) class a b :
  (a <= b)%nat -> (forall i, (a <= i < b)%nat -> exists u, s !! i = Some u /\ class u = true) ->
  forallb class (units s a b) = true /\ length (units s a b) = (b - a)%nat.
Proof.
  intros Hab Hi. unfold units. split.
  - apply forallb_forall. intros u Hu%list_elem_of_In. apply list_elem_of_lookup in Hu as [j Hj].
    apply lookup_take_Some in Hj as [Hj Hlt]. rewrite lookup_drop in Hj.
    destruct (Hi (a + j)%nat ltac:(lia)) as (v & Hv & Hc). congruence.
  - rewrite length_take, length_drop. destruct (decide (a = b)); [lia |].
    destruct (Hi (b - 1)%nat ltac:(lia)) as (u & Hu%lookup_lt_Some & _). lia.
Qed.

Lemma list_item_ok t i : list_item t = Some i -> item_ok i.
Proof.
  unfold list_item. destruct (exec t LIST_ITEM) as [[[p q] c]|] eqn:E; [|done]. intros [= <-].
  apply exec_sound in E as [Hd Hb]; [|cbn; repeat split; lia]. unfold LIST_ITEM in Hd. cbn [seq] in Hd.
  apply derives_seq in Hd as (x0 & [Hs ->]%derives_start & Hd).
  assert (p = 0)%nat as -> by (destruct p; done).
  apply derives_seq in Hd as (x1 & H1 & Hd). apply derives_group in H1 as [H1 E1]; [|done].
  apply derives_run in H1 as (_ & Hle1 & _ & Hi1). cbn [fst snd] in *. destruct x1 as [a c1]. cbn in *. injection E1 as ->.
  apply derives_seq in Hd as (x2 & H2 & Hd).
  apply derives_seq in Hd as (x4 & H4 & Hd). apply derives_group in H4 as [H4 E4]; [|done].
  apply derives_run in H4 as (_ & Hle4 & Hn4 & Hi4). cbn [fst snd] in *. destruct x4 as [e c4]. cbn [fst snd] in *. injection E4 as ->.
  apply derives_seq in Hd as (x5 & H5 & Hd). apply derives_seq in Hd as (x6 & H6 & Hd).
  apply derives_group in H6 as [H6 E6]; [|done]. rewrite E6 in Hd. apply derives_end in Hd as [_ Hd].
  injection Hd as -> ->. destruct x2 as [b c2]. cbn [fst snd] in *.
  destruct (run_units t white 0 a Hle1 Hi1) as [W1 _]. destruct (run_units t white b e Hle4 Hi4) as [W4 L4].
  assert (units t b e <> []) as Hsp by (intros E; rewrite E in L4; cbn in L4; lia).
  assert (forall c3, c2 = c3 ++ [(1%nat, (0%nat, a))] ->
    (exists u, c3 = [(2%nat, (a, S a))] /\ units t a (S a) = [u] /\ one_of (lit "-*+") u = true) \/
    (exists d, c3 = [(3%nat, (a, d))] /\ units t a d <> [] /\ forallb digit (units t a d) = true) ->
    item_ok {| i_indent := default [] (captured t ((6%nat, (x5.1, x6.1)) :: x5.2) 1);
               i_bullet := captured t ((6%nat, (x5.1, x6.1)) :: x5.2) 2;
               i_ordinal := captured t ((6%nat, (x5.1, x6.1)) :: x5.2) 3;
               i_space := default [] (captured t ((6%nat, (x5.1, x6.1)) :: x5.2) 4);
               i_task := captured t ((6%nat, (x5.1, x6.1)) :: x5.2) 5;
               i_content := default [] (captured t ((6%nat, (x5.1, x6.1)) :: x5.2) 6) |}) as Hfin.
  { intros c3 -> Hc3.
    apply derives_opt in H5 as [-> | H5]; [|apply derives_group in H5 as [_ ->]; [|done]]; cbn [fst snd];
      (destruct Hc3 as [(u & -> & Eu & Hu) | (d & -> & Ed & Hd)];
       (split; [exact W1 | split; [| split; [exact W4 | exact Hsp]]]);
       [left; exists u; split; [change (Some (units t a (S a)) = Some [u]); by rewrite Eu | done]
       |right; split; [reflexivity | exists (units t a d); split_and!; [reflexivity | done | done]]]). }
  destruct (derives_alt _ _ _ _ _ H2) as [H | H].
  - apply derives_group in H as [H E]; [|done]. apply derives_class in H as (u & Hu & Hc & E'). cbn [fst snd] in *.
    injection E' as ->. injection E as ->. apply (Hfin [(2%nat, (a, S a))]); [done | left]. exists u.
    split; [done |]. split; [|done]. unfold units. replace (S a - a)%nat with 1%nat by lia.
    rewrite (drop_S t u a Hu). done.
  - apply derives_seq in H as (y & Hy & Hdot). apply derives_group in Hy as [Hy Ey]; [|done].
    apply derives_run in Hy as (_ & Hle & Hn & Hi). destruct y as [d cy]. cbn [fst snd] in *. injection Ey as ->.
    apply derives_class in Hdot as (v & _ & _ & E'). cbn [fst snd] in E'. injection E' as -> ->.
    destruct (run_units t digit a d Hle Hi) as [W L]. apply (Hfin [(3%nat, (a, d))]); [done | right]. exists d.
    split_and!; [done | | done]. intros E. rewrite E in L. cbn in L. lia.
Qed.

(** ** The line a continuation makes *)

Lemma chosen {A} (x y : option A) r : x = Some r -> match x with Some z => Some z | None => y end = Some r.
Proof. by intros ->. Qed.

Definition TAIL : regex :=
  seq [Group 4 (plus (Any_of white)); opt (Group 5 TASK_BOX); Group 6 (star (Any_of dot)); At_end false].
Definition BOX : jstring := lit "[ ] ".

Lemma tail_matches pre sp box c :
  forallb white sp = true -> sp <> [] -> box = [] \/ box = BOX -> forget (Group 5 TASK_BOX) c = c ->
  let s := pre ++ sp ++ box in
  let p := length pre in let e := (p + length sp)%nat in
  mtch s TAIL p c (fun q d => Some (q, d))
  = Some (length s, (6, (length s, length s)) :: (if decide (box = []) then [] else [(5, (e, length s))]) ++ (4, (p, e)) :: c)%nat.
Proof.
  intros Hsp Hne Hbox Hc. cbv zeta. set (s := pre ++ sp ++ box).
  unfold TAIL, opt, star. cbn [seq mtch].
  assert (0 < length sp)%nat by (destruct sp; [done | cbn; lia]).
  assert (length s = length pre + length sp + length box)%nat as Hl by (unfold s; rewrite !length_app; lia).
  apply (greedy_run s white _ _ (length sp)); [by apply stretch | lia | lia | |].
  { unfold s. rewrite after_stretch. by destruct Hbox as [-> | ->]. }
  cbv beta. set (e := (length pre + length sp)%nat) in *.
  assert (forall d : captures,
    repeat_matcher (mtch s (Any_of dot)) (Any_of dot) true (S (S (0 + length s))) 0 None (length s) d
      (fun q d => if ends_line s false q then Some (q, (6%nat, (length s, q)) :: d) else None)
    = Some (length s, (6%nat, (length s, length s)) :: d)) as Hend.
  { intros d. apply (greedy_run s dot _ _ 0); [lia | lia | lia | |]; rewrite Nat.add_0_r.
    - by rewrite (proj2 (lookup_ge_None s _)) by done.
    - unfold ends_line. by rewrite (proj2 (lookup_ge_None s _)) by done. }
  destruct Hbox as [-> | ->].
  - cbn [length] in Hl. rewrite Nat.add_0_r in Hl. rewrite decide_True by done. cbn [repeat_matcher]. cbv zeta.
    cbn [mtch TASK_BOX seq unit_].
    assert (s !! e = None) as -> by (apply lookup_ge_None; lia).
    rewrite <- Hl. unfold ends_line. by rewrite (proj2 (lookup_ge_None s (length s))).
  - assert (forall j u, BOX !! j = Some u -> s !! (e + j)%nat = Some u) as Hbox.
    { intros j u Hj. unfold s. rewrite app_assoc, lookup_app_r by (rewrite length_app; lia).
      rewrite length_app. unfold e. by replace (_ + _ + _ - _)%nat with j by lia. }
    rewrite decide_False by done. cbn [repeat_matcher]. cbv zeta. apply chosen.
    assert (forget (Group 5 TASK_BOX) ((4%nat, (length pre, e)) :: c) = (4%nat, (length pre, e)) :: c) as ->.
    { change ((4%nat, (length pre, e)) :: forget (Group 5 TASK_BOX) c = (4%nat, (length pre, e)) :: c). by rewrite Hc. }
    change (length BOX) with 4%nat in Hl.
    cbn [mtch TASK_BOX seq unit_]. pose proof (Hbox 0%nat 91 eq_refl) as E0. rewrite Nat.add_0_r in E0. rewrite E0. cbn [Z.eqb Pos.eqb].
    pose proof (Hbox 1%nat 32 eq_refl) as E1. rewrite Nat.add_1_r in E1. rewrite E1.
    pose proof (Hbox 2%nat 93 eq_refl) as E2. replace (e + 2)%nat with (S (S e)) in E2 by lia.
    change (one_of (lit " xX") 32) with true. cbv iota. rewrite E2. cbn [Z.eqb Pos.eqb].
    pose proof (Hbox 3%nat 32 eq_refl) as E3.
    apply (greedy_run s white _ _ 1); [|lia|lia| |].
    + intros [|j] Hj; [|lia]. exists 32. by replace (S (S (S e)) + 0)%nat with (e + 3)%nat by lia.
    + by rewrite (proj2 (lookup_ge_None s _)) by lia.
    + cbv beta. rewrite (bool_decide_false (_ = e)) by lia. rewrite andb_false_r. cbn [pred fmap option_fmap option_map repeat_matcher].
      replace (S (S (S e)) + 1)%nat with (length s) by lia. exact (Hend _).
Qed.

Lemma bullet_not_white u : one_of (lit "-*+") u = true -> white u = false.
Proof.
  unfold one_of. rewrite bool_decide_eq_true. change (lit "-*+") with [45; 42; 43]. rewrite !elem_of_cons. intros [->|[->|[->|H]]]; [done..|].
  by apply elem_of_nil in H.
Qed.

Lemma digit_not_bullet u : digit u = true -> one_of (lit "-*+") u = false /\ white u = false.
Proof.
  unfold digit. rewrite andb_true_iff, !Z.leb_le. intros Hu. split.
  - unfold one_of. apply bool_decide_eq_false. change (lit "-*+") with [45; 42; 43]. rewrite !elem_of_cons.
    intros [->|[->|[->|H]]]; [lia..|]. by apply elem_of_nil in H.
  - unfold white. assert (one_of [32; 160; 5760; 8232; 8233; 8239; 8287; 12288; 65279] u = false) as ->.
    { unfold one_of. apply bool_decide_eq_false. rewrite !elem_of_cons.
      intros H. repeat (destruct H as [->|H]; [lia |]). by apply elem_of_nil in H. }
    apply orb_false_iff. split; [apply orb_false_iff; split; [|done] |];
      apply andb_false_iff; rewrite ?Z.leb_gt; lia.
Qed.

Lemma LIST_ITEM_parts :
  LIST_ITEM = Seq (At_start false) (Seq (Group 1 (star (Any_of white)))
    (Seq (Alt (Group 2 (Any_of (one_of (lit "-*+")))) (Seq (Group 3 (plus (Any_of digit))) (unit_ 46))) TAIL)).
Proof. done. Qed.

Definition made (ind sp box : jstring) (bullet ordinal : option jstring) : Item :=
  {| i_indent := ind; i_bullet := bullet; i_ordinal := ordinal; i_space := sp;
     i_task := if decide (box = []) then None else Some box; i_content := [] |}.

Section Made.
Context (ind sp box : jstring).
Hypothesis (Hind : forallb white ind = true) (Hsp : forallb white sp = true) (Hne : sp <> [])
  (Hbox : box = [] \/ box = BOX).

(** The captures of a match around a marker [m]. *)
Definition caps (m : jstring) (n : nat) (marker : nat * nat) : captures :=
  let p := length (ind ++ m) in let e := (p + length sp)%nat in let q := (e + length box)%nat in
  ((6, (q, q)) :: (if decide (box = []) then [] else [(5, (e, q))]) ++ [(4, (p, e)); (n, marker); (1, (0, length ind))])%nat.

Lemma item_read m n a b :
  let s := ind ++ m ++ sp ++ box in
  n = 2%nat \/ n = 3%nat ->
  exec s LIST_ITEM = Some (0%nat, length s, caps m n (a, b)) ->
  list_item s = Some (made ind sp box (if decide (n = 2)%nat then Some (units s a b) else None)
                                      (if decide (n = 3)%nat then Some (units s a b) else None)).
Proof.
  cbv zeta. set (s := ind ++ m ++ sp ++ box). intros Hn E. unfold list_item. rewrite E.
  assert (s = (ind ++ m) ++ sp ++ box) as Es by (unfold s; by rewrite <- app_assoc).
  assert (length s = (length (ind ++ m) + length sp + length box)%nat) as Hl by (rewrite Es, !length_app; lia).
  assert (units s 0 (length ind) = ind) as U1 by (by apply (units_mid [] ind)).
  assert (units s (length (ind ++ m)) (length (ind ++ m) + length sp) = sp) as U4 by (rewrite Es; by apply units_mid).
  assert (units s (length (ind ++ m) + length sp) (length s) = box) as U5.
  { apply (units_end s ((ind ++ m) ++ sp)); [by rewrite Es, app_assoc | by rewrite (length_app (ind ++ m))]. }
  assert (units s (length s) (length s) = []) as U6 by (apply (units_end s s); [by rewrite app_nil_r | done]).
  assert (forall k, captured s (caps m n (a, b)) k = match k with
    | 1 => Some (units s 0 (length ind)) | 2 => if decide (n = 2) then Some (units s a b) else None
    | 3 => if decide (n = 3) then Some (units s a b) else None
    | 4 => Some (units s (length (ind ++ m)) (length (ind ++ m) + length sp))
    | 5 => if decide (box = []) then None else Some (units s (length (ind ++ m) + length sp) (length s))
    | 6 => Some (units s (length s) (length s)) | _ => captured s (caps m n (a, b)) k end%nat) as C.
  { intros k. unfold caps. rewrite <- Hl.
    destruct Hn as [-> | ->], (decide (box = [])); do 7 (destruct k as [|k]; [reflexivity |]); reflexivity. }
  rewrite !C, U1, U4, U5, U6. unfold made. by destruct (decide (box = [])).
Qed.

Lemma ends_in_tail m k :
  (0 < length m)%nat -> forget (Group 5 TASK_BOX) k = k ->
  let s := ind ++ m ++ sp ++ box in
  mtch s TAIL (length (ind ++ m)) k (fun q d => Some (q, d))
  = Some (length s, ((6, (length s, length s)) :: (if decide (box = []) then [] else [(5, (length (ind ++ m) + length sp, length s))])
      ++ (4, (length (ind ++ m), length (ind ++ m) + length sp)) :: k)%nat).
Proof.
  intros Hm Hk. cbv zeta. assert (ind ++ m ++ sp ++ box = (ind ++ m) ++ sp ++ box) as -> by (by rewrite <- app_assoc).
  by apply tail_matches.
Qed.

(** The match starts with the indentation, then the marker. *)
Lemma after_indent m n marker :
  (0 < length m)%nat -> match head m with Some u => white u = false | None => False end ->
  let s := ind ++ m ++ sp ++ box in
  mtch s (Seq (Alt (Group 2 (Any_of (one_of (lit "-*+")))) (Seq (Group 3 (plus (Any_of digit))) (unit_ 46))) TAIL)
    (length ind) [(1%nat, (0%nat, length ind))] (fun q d => Some (q, d)) = Some (length s, caps m n marker) ->
  exec s LIST_ITEM = Some (0%nat, length s, caps m n marker).
Proof.
  intros Hm Hw. cbv zeta. set (s := ind ++ m ++ sp ++ box). intros Hk.
  apply exec_at_start. unfold match_at. rewrite LIST_ITEM_parts. unfold star at 1. cbn [mtch starts_line].
  apply (greedy_run s white _ _ (length ind)); cbn [Nat.add].
  - intros i Hi. by apply (stretch [] ind (m ++ sp ++ box) white Hind i).
  - lia.
  - unfold s. rewrite length_app. lia.
  - pose proof (after_stretch [] ind (m ++ sp ++ box)) as E. cbn [app length Nat.add] in E. fold s in E. rewrite E.
    by destruct m.
  - exact Hk.
Qed.

Lemma caps_eq m n marker :
  let s := ind ++ m ++ sp ++ box in
  caps m n marker
  = ((6, (length s, length s)) :: (if decide (box = []) then [] else [(5, (length (ind ++ m) + length sp, length s))])
      ++ (4, (length (ind ++ m), length (ind ++ m) + length sp)) :: [(n, marker); (1, (0, length ind))])%nat.
Proof.
  cbv zeta. unfold caps. assert (length (ind ++ m ++ sp ++ box) = (length (ind ++ m) + length sp + length box)%nat) as ->
    by (rewrite !length_app; lia). done.
Qed.

Lemma bullet_made u :
  one_of (lit "-*+") u = true -> list_item (ind ++ [u] ++ sp ++ box) = Some (made ind sp box (Some [u]) None).
Proof.
  intros Hu. rewrite (item_read [u] 2 (length ind) (S (length ind))); [|by left |].
  - rewrite decide_True, decide_False by done. repeat f_equal. apply (units_mid ind [u]); [done | cbn; lia].
  - apply after_indent; [cbn; lia | by apply bullet_not_white |]. rewrite caps_eq.
    set (s := ind ++ [u] ++ sp ++ box). cbn [mtch]. apply chosen.
    assert (s !! length ind = Some u) as -> by exact (after_stretch [] ind ([u] ++ sp ++ box)).
    rewrite Hu. replace (S (length ind)) with (length (ind ++ [u])) at 1 by (rewrite length_app; cbn; lia).
    by rewrite (ends_in_tail [u]) by (done || cbn; lia).
Qed.

Lemma ordinal_made ds :
  ds <> [] -> forallb digit ds = true ->
  list_item (ind ++ (ds ++ [46]) ++ sp ++ box) = Some (made ind sp box None (Some ds)).
Proof.
  intros Hds Hd. set (m := ds ++ [46]). assert (length m = S (length ds)) as Hm by (unfold m; rewrite length_app; cbn; lia).
  assert (forall post, ind ++ m ++ post = ind ++ ds ++ [46] ++ post) as Em by (intros; unfold m; by rewrite <- !app_assoc).
  rewrite (item_read m 3 (length ind) (length ind + length ds)); [|by right |].
  - rewrite decide_False, decide_True by done. repeat f_equal. rewrite Em. by apply (units_mid ind ds).
  - destruct ds as [|u ds']; [done |]. assert (digit u = true /\ forallb digit ds' = true) as [Hu _] by (cbn in Hd; by apply andb_true_iff in Hd).
    destruct (digit_not_bullet u Hu) as [Hb Hw].
    apply after_indent; [lia | done |]. rewrite caps_eq. set (s := ind ++ m ++ sp ++ box). cbn [mtch].
    assert (s !! length ind = Some u) as -> by exact (after_stretch [] ind (m ++ sp ++ box)).
    rewrite Hb. unfold plus, unit_. cbn [mtch].
    assert (s = ind ++ (u :: ds') ++ [46] ++ sp ++ box) as Es by apply Em.
    apply (greedy_run s digit _ _ (length (u :: ds'))).
    + intros i Hi. rewrite Es. by apply stretch.
    + cbn; lia.
    + rewrite Es, !length_app. lia.
    + rewrite Es, after_stretch. done.
    + cbn [mtch]. rewrite Es, after_stretch. cbn [head Z.eqb Pos.eqb]. rewrite <- Es.
      replace (S (length ind + length (u :: ds'))) with (length (ind ++ m)) by (rewrite length_app; lia).
      by rewrite (ends_in_tail m) by (done || lia).
Qed.
End Made.

(** Ordinals that a double holds exactly. *)
Definition exact_ordinal (i : Item) : Prop :=
  match i_bullet i, i_ordinal i with None, Some ds => dec_number ds < 2 ^ 53 | _, _ => True end.

Lemma digits_number ds : forallb digit ds = true -> 0 <= dec_number ds.
Proof.
  unfold dec_number. assert (forall acc, 0 <= acc -> forallb digit ds = true -> 0 <= dec_from acc ds) as Hg; [|by apply Hg].
  induction ds as [|u ds IH]; intros acc Hacc; cbn; [done |].
  intros [Hu Hds]%andb_true_iff. apply IH; [|done]. unfold digit in Hu.
  apply andb_true_iff in Hu as [?%Z.leb_le _]. lia.
Qed.

(** The same list, one further. *)
Definition next_item (i i' : Item) : Prop :=
  i_indent i' = i_indent i /\ i_space i' = i_space i /\ i_content i' = [] /\ i_bullet i' = i_bullet i /\
  i_task i' = match i_task i with Some (_ :: _) => Some BOX | _ => None end /\
  match i_bullet i, i_ordinal i with
  | None, Some ds => i_ordinal i' = Some (decimal (dec_number ds + 1))
  | _, _ => i_ordinal i' = None
  end.

Lemma continuation_item i :
  item_ok i -> exact_ordinal i -> exists i', list_item (continuation i) = Some i' /\ next_item i i'.
Proof.
  intros (Hind & Hm & Hsp & Hne) Hex. unfold continuation, next_item, exact_ordinal in *.
  set (box := match i_task i with Some (_ :: _) => lit "[ ] " | _ => [] end).
  assert (box = [] \/ box = BOX) as Hbox by (unfold box; destruct (i_task i) as [[|? ?]|]; [by left | by right | by left]).
  destruct Hm as [(u & Eb & Hu) | (Eb & ds & Ed & Hds & Hd)]; rewrite Eb in *.
  - rewrite (bullet_made _ _ box Hind Hsp Hne Hbox u Hu). eexists. split; [reflexivity |]. cbn. unfold box. by destruct (i_task i) as [[|? ?]|].
  - rewrite Ed in *. change (default [] (Some ds)) with ds. unfold next_ordinal. rewrite (proj2 (Z.ltb_lt _ _)) by done.
    pose proof (digits_number _ Hd). destruct (decimal_all_digits (dec_number ds + 1)) as [Hn Hdd]; [lia |].
    change (lit ".") with [46]. rewrite (ordinal_made _ _ box Hind Hsp Hne Hbox _ Hn Hdd). eexists. split; [reflexivity |]. cbn. unfold box. by destruct (i_task i) as [[|? ?]|].
Qed.

(** Nothing an item is made of, nor what continues it, holds a newline. *)
Lemma units_subset (s : jstring) a b (u : Z) : u ∈ units s a b -> u ∈ s.
Proof.
  unfold units. intros Hu%subseteq_take. rewrite <- (take_drop a s). apply elem_of_app. by right.
Qed.

Lemma captured_subset t c n u : u ∈ default [] (captured t c n) -> u ∈ t.
Proof.
  unfold captured. destruct (capture c n) as [[a b]|]; cbn; [apply units_subset | by intros ?%elem_of_nil].
Qed.

Lemma continuation_one_line t i :
  list_item t = Some i -> exact_ordinal i -> NEWLINE ∉ t -> NEWLINE ∉ continuation i.
Proof.
  intros Hi Hex Ht. pose proof (list_item_ok t i Hi) as (_ & Hm & _). unfold list_item in Hi.
  destruct (exec t LIST_ITEM) as [[[p q] c]|]; [|done]. injection Hi as <-. unfold continuation, exact_ordinal in *.
  cbn [i_indent i_bullet i_ordinal i_space i_task] in *.
  assert (forall n, NEWLINE ∉ default [] (captured t c n)) as Hc by (intros n Hn%captured_subset; done).
  rewrite !not_elem_of_app. split_and!; [apply Hc | | apply Hc |].
  - destruct Hm as [(u & Eb & _) | (Eb & ds & Ed & _ & Hd)]; cbn in Eb; rewrite Eb in *.
    + specialize (Hc 2%nat). by rewrite Eb in Hc.
    + cbn in Ed. rewrite Ed in *. change (default [] (Some ds)) with ds. unfold next_ordinal. rewrite (proj2 (Z.ltb_lt _ _)) by done.
      pose proof (digits_number _ Hd). destruct (decimal_all_digits (dec_number ds + 1)) as [_ Hdd]; [lia |].
      apply not_elem_of_app. split; [|by apply not_elem_of_cons; split; [|apply not_elem_of_nil]].
      intros Hn%list_elem_of_In. by apply (proj1 (forallb_forall _ _) Hdd) in Hn.
  - destruct (captured t c 5) as [[|? ?]|]; [apply not_elem_of_nil | | apply not_elem_of_nil].
    unfold NEWLINE. change (lit "[ ] ") with [91; 32; 93; 32]. rewrite !not_elem_of_cons.
    split_and!; [done..|]. apply not_elem_of_nil.
Qed.

(** ** Enter *)

Section Enter.
Context {D : Type} `{TextLaws D}.
Implicit Types (st : EditorState D).

(** A cursor at the end of a line. *)
Definition cursor_at_end st (n : nat) (t : jstring) : Prop :=
  text_lines (doc st) !! n = Some t /\
  main st = {| r_from := offset_of (text_lines (doc st)) n + len t; r_to := offset_of (text_lines (doc st)) n + len t |}.

Lemma enter_at_end st n t :
  cursor_at_end st n t ->
  continueList st =
  match list_item t with
  | None => None
  | Some i =>
      let off := offset_of (text_lines (doc st)) n in
      if str_eqb (trim (i_content i)) [] then
        Some (Update [change off (off + len t) []] (Some (off, off)) false (lit "input"))
      else
        let insert := nl ++ continuation i in
        Some (Update [change (off + len t) (off + len t) insert]
                (Some (off + len t + len insert, off + len t + len insert)) true (lit "input"))
  end.
Proof.
  intros [Hn Em]. unfold continueList, r_empty. rewrite Em. cbn [r_from r_to]. rewrite Z.eqb_refl. cbn [negb].
  pose proof (len_nonneg t). rewrite (lineAt_in (doc st) n t) by (done || lia). done.
Qed.

(** Enter at the end of a list item starts the next item of the same list
    on a new line (same indentation, marker and spacing, the ordinal counted
    on, a task unticked), and Enter on that new item ends the list: its line
    becomes empty. Everything else in the document stays as it was. *)
Theorem enter_continues_then_ends st st' n t i :
  cursor_at_end st n t -> list_item t = Some i -> trim (i_content i) <> [] -> exact_ordinal i ->
  text_lines (doc st') = split_on NEWLINE (text_after continueList st) ->
  main st' = {| r_from := r_from (main st) + 1 + len (continuation i); r_to := r_from (main st) + 1 + len (continuation i) |} ->
  let before := take (S n) (text_lines (doc st)) in
  let after := drop (S n) (text_lines (doc st)) in
  text_lines (doc st') = before ++ continuation i :: after /\
  (exists i', list_item (continuation i) = Some i' /\ next_item i i') /\
  text_after continueList st' = join nl (before ++ [] :: after).
Proof.
  intros Hc Hi Hne Hex El Em. cbv zeta. destruct Hc as [Hn Em0].
  pose proof (lookup_lt_Some _ _ _ Hn) as Hlt. set (d := doc st) in *.
  set (before := take (S n) (text_lines d)). set (after := drop (S n) (text_lines d)).
  assert (text_after continueList st = join nl (before ++ continuation i :: after)) as Et.
  { unfold text_after. rewrite (enter_at_end st n t) by done. rewrite Hi, str_eqb_neq by done.
    exact (insert_line d n t (continuation i) Hn). }
  destruct (law_lines d) as [_ Hnl].
  assert (text_lines (doc st') = before ++ continuation i :: after) as E'.
  { rewrite El, Et. apply split_on_join; [by destruct before |]. apply Forall_app. split; [by apply Forall_take |].
    constructor; [|by apply Forall_drop]. apply (continuation_one_line t); [done..|].
    by apply (proj1 (Forall_lookup _ _) Hnl n). }
  destruct (continuation_item i (list_item_ok t i Hi) Hex) as (i' & Hi' & Hnext).
  split; [done |]. split; [by exists i' |].
  assert (length before = S n) as Hb by (unfold before; rewrite length_take; lia).
  assert (text_lines (doc st') !! S n = Some (continuation i)) as Hn'.
  { rewrite E', lookup_app_r by lia. by rewrite Hb, Nat.sub_diag. }
  assert (offset_of (text_lines (doc st')) (S n) = offset_of (text_lines d) n + len t + 1) as Eo.
  { rewrite <- (offset_step _ _ _ Hn). rewrite E', <- Hb, offset_of_app. unfold offset_of.
    rewrite firstn_all, Hb. done. }
  unfold text_after. rewrite (enter_at_end st' (S n) (continuation i)).
  2: { split; [done |]. rewrite Em, Em0, Eo. done. }
  rewrite Hi'. destruct Hnext as (_ & _ & -> & _). cbn [trim trimStart trimEnd rev]. rewrite str_eqb_refl.
  cbn [dispatched changes_of_dispatch]. pose proof (len_nonneg (continuation i)).
  pose proof (edit_line (doc st') (S n) (continuation i) 0 (len (continuation i)) [] Hn' ltac:(lia) ltac:(lia)) as He.
  rewrite Z.add_0_r in He. etransitivity; [exact He |]. unfold splice. cbn [app].
  rewrite slice_empty. unfold slice_from. rewrite slice_empty, E'. unfold nl. do 2 f_equal.
  - rewrite <- Hb. by rewrite take_app_length.
  - f_equal. rewrite <- Hb. rewrite cons_middle, app_assoc. rewrite drop_app_ge by (rewrite length_app; cbn; lia).
    rewrite length_app. cbn. by replace (S (length before) - (length before + 1))%nat with 0%nat by lia.
Qed.
End Enter.

Definition ordered : jstring := lit "9. write" ++ nl ++ lit "end".

Lemma enter_continues_then_ends_witness :
  text_after continueList (plain_state ordered 8 8) = lit "9. write" ++ nl ++ lit "10. " ++ nl ++ lit "end" /\
  text_after continueList (plain_state (text_after continueList (plain_state ordered 8 8)) 13 13)
  = lit "9. write" ++ nl ++ nl ++ lit "end".
Proof.
  split; [vm_compute; reflexivity |].
  destruct (enter_continues_then_ends (plain_state ordered 8 8)
    (plain_state (text_after continueList (plain_state ordered 8 8)) 13 13) 0 (lit "9. write")
    {| i_indent := []; i_bullet := None; i_ordinal := Some (lit "9"); i_space := lit " "; i_task := None;
       i_content := lit "write" |}) as (_ & _ & E).
  - split; vm_compute; reflexivity.
  - vm_compute. reflexivity.
  - vm_compute. discriminate.
  - vm_compute. reflexivity.
  - reflexivity.
  - vm_compute. reflexivity.
  - etransitivity; [exact E |]. vm_compute. reflexivity.
Defined.

(** Enter before the marker of an item puts a second marker in front of it. *)
Example enter_at_line_start : text_after continueList (plain_state (lit "- a") 0 0) = nl ++ lit "- - a".
Proof. vm_compute. reflexivity. Qed.
