(* ===== verification/EditorContext.v ===== *)
(** What the cursor is in ([client/src/editor/context.ts]): a heading, a fenced
    block, an image, a shape or a table, and the edits of images and formats
    that rest on it ([client/src/editor/actions.ts]). *)

From S2P Require Import Prelude.
From S2P Require Import Bytes.
From S2P Require Import Regex.
From S2P Require Import EditorText.
From S2P Require Import SourceBlocks.
From S2P Require Import EditorLines.
From S2P Require Import EditorCommands.

(** ** Searching *)

(** [text.lastIndexOf(quote, position)]: a negative position counts as 0. *)
Fixpoint last_index_loop (fuel : nat) (text quote : jstring) (i : Z) : Z :=
  match fuel with
  | O => -1
  | S n => if i <? 0 then -1
           else if str_eqb (slice text i (i + len quote)) quote then i
           else last_index_loop n text quote (i - 1)
  end.
Definition lastIndexOf (text quote : jstring) (position : Z) : Z :=
  last_index_loop (S (length text)) text quote (Z.min (Z.max position 0) (len text - len quote)).

(** ** Expressions *)

Definition any (_ : Z) : bool := true.
Definition not_in (s : jstring) : regex := Any_of (none_of s).
Definition lazy_star (r : regex) : regex := Rep false 0 None r.
(** [IMAGE_MD]: a Markdown image, its text and its address. *)
Definition IMAGE_MD : regex :=
  seq [text (lit "!["); Group 1 (star (not_in (lit "]"))); text (lit "](");
       Group 2 (plus (not_in (lit ")"))); unit_ 41].
(** [IMAGE_HTML]: an [img] tag and what it holds. *)
Definition IMAGE_HTML : regex :=
  seq [text_i (lit "<img"); word_boundary; Group 1 (lazy_star (not_in (lit ">"))); opt (unit_ 47); unit_ 62].
Definition QUOTES : jstring := [34; 39].
(** A figure of class [marks-shape] up to its end. *)
Definition SHAPE : regex :=
  seq [text_i (lit "<figure"); word_boundary; star (not_in (lit ">")); text_i (lit "class=" ++ [34]);
       star (not_in [34]); text_i (lit "marks-shape"); star (not_in [34]); unit_ 34; star (not_in (lit ">"));
       unit_ 62; lazy_star (Any_of any); text_i (lit "</figure>")].
(** [ATTR]: a name, an equals sign and a quoted value. *)
Definition ATTR : regex :=
  seq [Group 1 (plus (Any_of (fun u => word_unit u || (u =? 45)))); unit_ 61; Any_of (one_of QUOTES);
       Group 2 (star (not_in QUOTES)); Any_of (one_of QUOTES)].
(** [/^(#{1,6})\s+\S/], the fence of a diagram, and a caption *)
Definition HEADING_START : regex :=
  seq [At_start false; Group 1 (between 1 6 (unit_ 35)); plus (Any_of white); Any_of nonwhite].
Definition TICKS : jstring := lit "```".
Definition SHAPE_FENCE : regex :=
  seq [At_start false; text TICKS; Alt (text_i (lit "mermaid")) (text_i (lit "shape"))].
Definition CAPTION : regex :=
  seq [text_i (lit "<figcaption>"); Group 1 (lazy_star (Any_of any)); text_i (lit "</figcaption>")].

(** ** Contexts *)

Inductive EditorContextKind := KText | KHeading | KImage | KTable | KShape | KCode.
Record ImageContext := {
  im_from : Z; im_to : Z; im_alt : jstring; im_url : jstring; im_width : option Z;
  im_align : option jstring; im_html : bool }.
Record TableContext := { tb_from : Z; tb_to : Z; tb_rows : Z; tb_cols : Z }.
Record ShapeContext := { sh_from : Z; sh_to : Z; sh_shape : jstring; sh_label : jstring }.
Record EditorContext := {
  c_kind : EditorContextKind; c_headingLevel : option Z; c_image : option ImageContext;
  c_table : option TableContext; c_shape : option ShapeContext }.
Definition context (k : EditorContextKind) : EditorContext :=
  {| c_kind := k; c_headingLevel := None; c_image := None; c_table := None; c_shape := None |}.

Record TextLine := { tl_from : Z; tl_to : Z; tl_text : jstring }.

Definition text_line_at (doc : jstring) (pos : Z) : TextLine :=
  let a := lastIndexOf doc nl (pos - 1) + 1 in
  let b := indexOf doc nl pos in
  let e := if b =? -1 then len doc else b in
  {| tl_from := a; tl_to := e; tl_text := slice doc a e |}.

Definition fenceAt (doc : jstring) (pos : Z) : option jstring :=
  let before := slice doc 0 pos in
  let openIndex := lastIndexOf before TICKS (len before) in
  if openIndex =? -1 then None
  else
    let afterOpen := slice_from doc (openIndex + 3) in
    let close := indexOf afterOpen TICKS 0 in
    if (close =? -1) || (openIndex + 3 + close <? pos) then None
    else Some (slice doc openIndex (indexOf doc nl openIndex)).

Fixpoint table_start (fuel : nat) (doc : jstring) (start : Z) : Z :=
  match fuel with
  | O => start
  | S fuel =>
      if 0 <? start then
        let previous := text_line_at doc (start - 1) in
        if is_row (tl_text previous) then table_start fuel doc (tl_from previous) else start
      else start
  end.
Fixpoint table_end (fuel : nat) (doc : jstring) (end_ : Z) : Z :=
  match fuel with
  | O => end_
  | S fuel =>
      if end_ <? len doc then
        let next := text_line_at doc (end_ + 1) in
        if is_row (tl_text next) then table_end fuel doc (tl_to next) else end_
      else end_
  end.

Definition tableAt (doc : jstring) (pos : Z) : option TableContext :=
  let ln := text_line_at doc pos in
  if negb (is_row (tl_text ln)) || negb (bool_decide (PIPE ∈ tl_text ln)) then None
  else
    let start := table_start (S (length doc)) doc (tl_from ln) in
    let end_ := table_end (S (length doc)) doc (tl_to ln) in
    let rows := List.filter (fun row => is_row row && negb (test row SEPARATOR))
                  (split_on NEWLINE (slice doc start end_)) in
    let cols := Z.max 0 (match rows with r :: _ => len (split_on PIPE r) | [] => 2 end - 2) in
    if (len rows =? 0) || (cols =? 0) then None
    else Some {| tb_from := start; tb_to := end_; tb_rows := len rows; tb_cols := cols |}.

Definition attributes (source : jstring) : list (jstring * jstring) :=
  fold_left (fun found m => mset found (default [] (captured source m.2 1)) (default [] (captured source m.2 2)))
    (matchAll source ATTR) [].

Definition truthy (s : option jstring) : option jstring :=
  match s with Some ((_ :: _) as s) => Some s | _ => None end.

Section Context_.
(** [Number] of a text that is not a plain numeral, [None] for not a number. *)
Context (other_number : jstring -> option Z).

Definition js_Number (s : jstring) : option Z :=
  match s with
  | _ :: _ => if forallb digit s then Some (dec_number s) else other_number s
  | [] => Some 0
  end.

Definition readHtmlImage (raw attrs : jstring) (a b : Z) : ImageContext :=
  let parsed := attributes (match attrs with [] => raw | _ => attrs end) in
  let align := mget parsed (lit "data-align") in
  let width := match mget parsed (lit "width") with Some w => js_Number w | None => None end in
  {| im_from := a; im_to := b; im_alt := default [] (mget parsed (lit "alt"));
     im_url := default [] (mget parsed (lit "src"));
     im_width := match width with Some w => if 0 <? w then Some w else None | None => None end;
     im_align := match align with
                 | Some x => if existsb (str_eqb x) [lit "left"; lit "center"; lit "right"] then Some x else None
                 | None => None end;
     im_html := true |}.

(** The window of an HTML image, and where it starts. *)
Definition nearby (doc : jstring) (ln : TextLine) : jstring :=
  slice doc (Z.max 0 (tl_from ln - 80)) (Z.min (len doc) (tl_to ln + 80)).

Definition html_image_at (doc : jstring) (ln : TextLine) : option ImageContext :=
  let near := nearby doc ln in
  match exec near IMAGE_HTML with
  | Some (a, b, c) =>
      let raw := units near a b in
      let abs := indexOf near raw 0 + Z.max 0 (tl_from ln - 80) in
      Some (readHtmlImage raw (default [] (captured near c 1)) abs (abs + len raw))
  | None => None
  end.

Definition md_image_at (ln : TextLine) : option ImageContext :=
  match exec (tl_text ln) IMAGE_MD with
  | Some (a, b, c) => Some {|
      im_from := tl_from ln + Z.of_nat a; im_to := tl_from ln + Z.of_nat a + len (units (tl_text ln) a b);
      im_alt := default [] (captured (tl_text ln) c 1); im_url := default [] (captured (tl_text ln) c 2);
      im_width := None; im_align := None; im_html := false |}
  | None => None
  end.

Definition shape_at (doc : jstring) (pos : Z) : option ShapeContext :=
  let window := slice doc (Z.max 0 (pos - 400)) (Z.min (len doc) (pos + 800)) in
  match exec window SHAPE with
  | Some (a, b, _) =>
      let source := units window a b in
      let abs := indexOf doc source (Z.max 0 (pos - 400)) in
      let found := attributes source in
      let caption := match exec source CAPTION with
                     | Some (_, _, c) => trim <$> captured source c 1 | None => None end in
      Some {| sh_from := abs; sh_to := abs + len source;
              sh_shape := default (lit "rect") (truthy (mget found (lit "data-shape")));
              sh_label := default (default (lit "Shape") (truthy (mget found (lit "aria-label")))) (truthy caption) |}
  | None => None
  end.

Definition inspectEditorContext (doc : jstring) (a : Z) : EditorContext :=
  let pos := Z.max 0 (Z.min (len doc) a) in
  let ln := text_line_at doc pos in
  match exec (tl_text ln) HEADING_START with
  | Some (_, _, c) =>
      {| c_kind := KHeading; c_headingLevel := Some (len (default [] (captured (tl_text ln) c 1)));
         c_image := None; c_table := None; c_shape := None |}
  | None =>
  match fenceAt doc pos with
  | Some open_ => context (if test open_ SHAPE_FENCE then KShape else KCode)
  | None =>
  match html_image_at doc ln with
  | Some i => {| c_kind := KImage; c_headingLevel := None; c_image := Some i; c_table := None; c_shape := None |}
  | None =>
  match md_image_at ln with
  | Some i => {| c_kind := KImage; c_headingLevel := None; c_image := Some i; c_table := None; c_shape := None |}
  | None =>
  match shape_at doc pos with
  | Some s => {| c_kind := KShape; c_headingLevel := None; c_image := None; c_table := None; c_shape := Some s |}
  | None =>
  match tableAt doc pos with
  | Some t => {| c_kind := KTable; c_headingLevel := None; c_image := None; c_table := Some t; c_shape := None |}
  | None => context KText
  end end end end end end.
End Context_.

(** ** Images *)

Definition imageMarkup (url alt : jstring) (width : option Z) (align : option jstring) : jstring :=
  let width := match width with Some 0 => None | w => w end in
  match width, truthy align with
  | None, None => lit "![" ++ alt ++ lit "](" ++ url ++ lit ")"
  | _, _ =>
      lit "<img " ++ attr (lit "src") url ++ lit " " ++ attr (lit "alt") alt ++ attrs [("class","marks-figure")]%string
      ++ match width with Some w => lit " " ++ attr (lit "width") (decimal w) | None => [] end
      ++ lit " " ++ attr (lit "data-align") (default (lit "center") align) ++ lit " />"
  end.

Record ImagePatch := {
  ip_alt : option jstring; ip_url : option jstring; ip_width : option Z; ip_align : option jstring }.
Definition or_else {A} (x y : option A) : option A := match x with Some _ => x | None => y end.

Section Images.
Context (other_number : jstring -> option Z).
Context {D : Type} `{Text D}.
Implicit Types (st : EditorState D).

Definition image_at_cursor st : option ImageContext :=
  c_image (inspectEditorContext other_number (doc_text (doc st)) (r_from (main st))).

Definition updateImageAtCursor (patch : ImagePatch) : StateCommand := fun st =>
  match image_at_cursor st with
  | None => None
  | Some i =>
      let next := imageMarkup (default (im_url i) (ip_url patch)) (default (im_alt i) (ip_alt patch))
                    (or_else (ip_width patch) (im_width i)) (or_else (ip_align patch) (im_align i)) in
      replaceRange (im_from i) (im_to i) next st
  end.

(** [name.replace(/\.[^.]+$/, '')] *)
Definition EXTENSION : regex := seq [unit_ 46; plus (not_in [46]); At_end false].
Definition without_extension (name : jstring) : jstring :=
  match exec name EXTENSION with Some (a, b, _) => take a name ++ drop b name | None => name end.

(** [replaceImageFileAtCursor] up to the upload: the image, the text it had and
    the range that is captured. *)
Definition select_image st : res (ImageContext * jstring) :=
  match image_at_cursor st with
  | None => plain_error "Select an image before choosing a replacement."
  | Some i => Ok (i, sliceDoc (doc st) (im_from i) (im_to i))
  end.

(** The rest of it, once the upload is done: [text] and [resolved] are the
    document and the captured range then, the result is the edit. *)
Definition replace_image (selected : ImageContext * jstring) (can_edit : bool) (url name text : jstring) (resolved : Range)
    : res Change :=
  if negb can_edit then plain_error "Edit access changed before the upload completed."
  else if negb (str_eqb (slice text (r_from resolved) (r_to resolved)) selected.2) then
    plain_error "The selected image changed while its replacement was uploading. Select it and try again."
  else
    let i := selected.1 in
    let alt := match im_alt i with [] => without_extension name | a => a end in
    Ok (change (r_from resolved) (r_to resolved) (imageMarkup url alt (im_width i) (im_align i))).

(** [insertImageFilesAtRange] after its uploads: the addresses that arrived,
    [None] for a refused file, by the names of the files. *)
Definition MAX_FILES : Z := 8.
Definition files_to_upload (can_edit : bool) (files : list jstring) : res (option (list jstring)) :=
  if negb can_edit then plain_error "Your current role cannot insert images."
  else match slice files 0 MAX_FILES with [] => Ok None | bounded => Ok (Some bounded) end.
Definition escape_alt (name : jstring) : jstring :=
  concat (map (fun u => if (u =? 92) || (u =? 93) then [92; u] else [u]) (without_extension name)).
Definition insert_images (can_edit : bool) (uploads : list (jstring * option jstring)) (resolved : Range)
    : res (Change * bool) :=
  let markup := omap (fun u => (fun url => imageMarkup url (escape_alt u.1) None None) <$> u.2) uploads in
  match markup with
  | [] => plain_error "No supported image was uploaded."
  | _ =>
      if negb can_edit then plain_error "Edit access changed before the upload completed."
      else Ok (change (r_from resolved) (r_to resolved) (join (nl ++ nl) markup), len markup =? len uploads)
  end.

(** ** The format painter *)

Record MarkdownFormatSample := { fs_inline : list jstring; fs_linePrefix : option jstring }.
Definition INLINE_MARKERS : list jstring := [lit "**"; lit "~~"; lit "++"; lit "=="; lit "`"; lit "*"].
(** The prefix of a heading, a quote or a list item. *)
Definition LINE_PREFIX : regex :=
  seq [At_start false; Group 1 (seq [between 0 3 (Any_of white);
    alt (seq [between 1 6 (unit_ 35); plus (Any_of white)])
        [seq [unit_ 62; plus (Any_of white)];
         seq [Alt (seq [Any_of (one_of (lit "-*+")); unit_ 32]) (seq [plus (Any_of digit); unit_ 46; unit_ 32]);
              opt (seq [unit_ 91; Any_of (one_of (lit " xX")); unit_ 93; unit_ 32])]]])].
Definition line_prefix (t : jstring) : option jstring :=
  match exec t LINE_PREFIX with Some (_, _, c) => captured t c 1 | None => None end.

Definition startsWith (s m : jstring) : bool := str_eqb (slice s 0 (len m)) m.
Definition endsWith (s m : jstring) : bool := str_eqb (slice s (Z.max 0 (len s - len m)) (len s)) m.

Definition captureMarkdownFormatting st : option MarkdownFormatSample :=
  let range := main st in
  if r_empty range then None
  else
    let selected := sliceDoc (doc st) (r_from range) (r_to range) in
    let inline := List.filter (fun m =>
      (startsWith selected m && endsWith selected m && (len m * 2 <? len selected)) || wrapped m (doc st) range) INLINE_MARKERS in
    let prefix := line_prefix (l_text (lineAt (doc st) (r_from range))) in
    match inline, truthy prefix with
    | [], None => Some {| fs_inline := []; fs_linePrefix := None |}
    | _, _ => Some {| fs_inline := inline; fs_linePrefix := prefix |}
    end.

(** The loop over the lines: one change per line up to the last selected. *)
Fixpoint paint_lines (fuel : nat) (d : D) (prefix : jstring) (position endLine : Z) : list Change :=
  match fuel with
  | O => []
  | S fuel =>
      if doc_length d <? position then []
      else
        let ln := lineAt d position in
        change (l_from ln) (l_from ln + len (default [] (line_prefix (l_text ln)))) prefix
        :: if (endLine <=? number ln) || (doc_length d <=? l_to ln) then []
           else paint_lines fuel d prefix (l_to ln + 1) endLine
  end.

Definition applyMarkdownFormatting (sample : MarkdownFormatSample) : StateCommand := fun st =>
  let range := main st in
  if r_empty range then None
  else
    let prefix := concat (fs_inline sample) in
    let suffix := concat (rev (fs_inline sample)) in
    let wraps := match prefix, suffix with
                 | [], [] => []
                 | _, _ => [change (r_from range) (r_from range) prefix; change (r_to range) (r_to range) suffix]
                 end in
    let lines := match truthy (fs_linePrefix sample) with
                 | None => []
                 | Some p => paint_lines (row_fuel (doc st)) (doc st) p
                     (l_from (lineAt (doc st) (r_from range))) (number (lineAt (doc st) (r_to range)))
                 end in
    match wraps ++ lines with
    | [] => None
    | cs => Some (Update cs None false (lit "input.format-painter"))
    end.
End Images.

Definition escapeHtml (value : jstring) : jstring :=
  concat (map (fun u => if u =? 38 then lit "&amp;" else if u =? 60 then lit "&lt;" else if u =? 62 then lit "&gt;"
                        else if u =? 34 then lit "&quot;" else if u =? 39 then lit "&#39;" else [u]) value).

(** ** What an image context points at *)

(** [s] is a whole image and [i] its reading: a Markdown image with its text, up to
    the first closing bracket, and its address, up to the first closing
    parenthesis; or one [img] tag up to its first closing angle bracket, read by
    its attributes. *)
Inductive image_text (other_number : jstring -> option Z) (i : ImageContext) : jstring -> Prop :=
| markdown_image :
    im_html i = false -> 93 ∉ im_alt i -> 41 ∉ im_url i -> im_url i <> [] ->
    im_width i = None -> im_align i = None ->
    image_text other_number i (lit "![" ++ im_alt i ++ lit "](" ++ im_url i ++ lit ")")
| html_image tag attrs slash :
    im_html i = true -> map lower tag = lit "<img" -> 62 ∉ attrs -> slash = [] \/ slash = lit "/" ->
    (forall u rest, attrs ++ slash = u :: rest -> word_unit u = false) ->
    i = readHtmlImage other_number (tag ++ attrs ++ slash ++ lit ">") attrs (im_from i) (im_to i) ->
    image_text other_number i (tag ++ attrs ++ slash ++ lit ">").


Lemma units_split t a m b : (a <= m <= b)%nat -> units t a b = units t a m ++ units t m b.
Proof.
  intros. unfold units. replace (b - a)%nat with ((m - a) + (b - m))%nat by lia.
  rewrite <- (take_take_drop (drop a t) (m - a) (b - m)), drop_drop. do 2 f_equal. f_equal. lia.
Qed.

Lemma units_length t a n : units t a (a + n) = take n (drop a t).
Proof. unfold units. f_equal. lia. Qed.

Lemma units_one t a u : t !! a = Some u -> units t a (S a) = [u].
Proof. intros E. unfold units. replace (S a - a)%nat with 1%nat by lia. by rewrite (drop_S t u a E). Qed.

(** The units of a stretch of a class. *)
Lemma units_none_of t a b s :
  (forall k, (a <= k < b)%nat -> exists u, t !! k = Some u /\ none_of s u = true) ->
  forall u, u ∈ s -> u ∉ units t a b.
Proof.
  intros Hall u Hu Hin. apply list_elem_of_lookup in Hin as (k & Hk).
  apply lookup_lt_Some in Hk as Hl. unfold units in *. rewrite length_take in Hl.
  rewrite lookup_take_lt, lookup_drop in Hk by lia.
  destruct (Hall (a + k)%nat) as (v & Hv & Hn); [lia |]. rewrite Hv in Hk. injection Hk as ->.
  unfold none_of, one_of in Hn. by rewrite bool_decide_eq_true_2 in Hn.
Qed.

Lemma md_match t a b c : exec t IMAGE_MD = Some (a, b, c) ->
  (a < b <= length t)%nat /\ exists alt url, captured t c 1 = Some alt /\ captured t c 2 = Some url /\
    units t a b = lit "![" ++ alt ++ lit "](" ++ url ++ lit ")" /\ (93 ∉ alt) /\ (41 ∉ url) /\ url <> [].
Proof.
  intros [Hd Hb]%exec_sound; [|cbn; repeat split; lia]. unfold IMAGE_MD in Hd.
  apply derives_seq in Hd as (z1 & [-> T1]%derives_text & Hd).
  apply derives_seq in Hd as (z2 & [Ha E2]%derives_group & Hd); [|done].
  apply derives_run in Ha as (_ & B2 & _ & C2).
  apply derives_seq in Hd as (z3 & [-> T3]%derives_text & Hd).
  apply derives_seq in Hd as (z4 & [Hu E4]%derives_group & Hd); [|done].
  apply derives_run in Hu as (_ & B4 & L4 & C4).
  apply derives_class in Hd as (u & Hu & Hc & E). apply Z.eqb_eq in Hc. subst u. injection E as -> ->.
  destruct z2 as [p2 c2], z4 as [p4 c4]. cbn [fst snd] in *.
  change (length (lit "![")) with 2%nat in *. change (length (lit "](")) with 2%nat in *.
  injection E2 as ->. injection E4 as ->.
  split; [lia |]. exists (units t (a + 2) p2), (units t (p2 + 2) p4). split_and!.
  - reflexivity.
  - reflexivity.
  - rewrite (units_split t a (a + 2)), (units_split t (a + 2) p2), (units_split t p2 (p2 + 2)),
      (units_split t (p2 + 2) p4), (units_one t p4 41) by (done || lia).
    by rewrite (units_length t a 2), (units_length t p2 2), T1, T3.
  - apply (units_none_of t _ _ (lit "]")); [done | by apply list_elem_of_singleton].
  - apply (units_none_of t _ _ (lit ")")); [done | by apply list_elem_of_singleton].
  - intros E. apply (f_equal len) in E. apply lookup_lt_Some in Hu. rewrite len_units, len_nil in E by lia. lia.
Qed.

Lemma html_match t a b c : exec t IMAGE_HTML = Some (a, b, c) ->
  (a < b <= length t)%nat /\ exists tag attrs slash, captured t c 1 = Some attrs /\
    units t a b = tag ++ attrs ++ slash ++ lit ">" /\ map lower tag = lit "<img" /\ (62 ∉ attrs) /\
    (slash = [] \/ slash = lit "/") /\ (forall u rest, attrs ++ slash = u :: rest -> word_unit u = false).
Proof.
  intros [Hd Hb]%exec_sound; [|cbn; repeat split; lia]. unfold IMAGE_HTML in Hd.
  apply derives_seq in Hd as (z1 & [-> T1]%derives_text_i & Hd).
  apply derives_seq in Hd as (z2 & Hw & Hd). inversion Hw as [| | | | | | | |f p0 c0 Hf| |]; subst. clear Hw.
  apply derives_seq in Hd as (z3 & [Ha E3]%derives_group & Hd); [|done].
  apply derives_run in Ha as (_ & B3 & _ & C3).
  apply derives_seq in Hd as (z4 & Ho & Hd).
  apply derives_class in Hd as (u & Hu & Hc & E). apply Z.eqb_eq in Hc. subst u. injection E as -> ->.
  destruct z3 as [p3 c3], z4 as [p4 c4]. cbn [fst snd] in *. change (length (lit "<img")) with 4%nat in *.
  injection E3 as ->.
  assert (exists slash, units t p3 p4 = slash /\ (slash = [] \/ slash = lit "/") /\ (p3 <= p4)%nat /\
    c4 = (1%nat, ((a + 4)%nat, p3)) :: []) as (slash & Es & Hs & Hp & Ec).
  { apply derives_opt in Ho as [[= -> ->] | Hc].
    - exists []. split_and!; [unfold units; by rewrite Nat.sub_diag | by left | lia | done].
    - apply derives_class in Hc as (u & Hv & Hc & E). apply Z.eqb_eq in Hc. subst u. cbn [fst snd] in *.
      rewrite (forget_none (unit_ 47)) in E by done. injection E as -> ->.
      exists (lit "/"). split_and!; [by apply units_one | by right | lia | done]. }
  subst c4. split; [lia |]. exists (units t a (a + 4)), (units t (a + 4) p3), slash. split_and!.
  - reflexivity.
  - rewrite (units_split t a (a + 4)), (units_split t (a + 4) p3), (units_split t p3 p4),
      (units_one t p4 62), Es by (done || lia). done.
  - change (lit "<img") with (map lower (lit "<img")). by rewrite <- T1, units_length.
  - apply (units_none_of t _ _ (lit ">")); [done | by apply list_elem_of_singleton].
  - done.
  - intros u rest E. rewrite <- Es, <- units_split in E by lia.
    assert (t !! (a + 4)%nat = Some u) as Hat.
    { apply (f_equal head) in E. unfold units in E. rewrite head_lookup in E. cbn [head] in E.
      destruct (decide (p4 - (a + 4) = 0)%nat) as [Ez | Ez]; [by rewrite Ez in E |].
      rewrite lookup_take_lt, lookup_drop in E by lia. by rewrite Nat.add_0_r in E. }
    assert (exists v, t !! (a + 3)%nat = Some v /\ lower v = 103) as (v & Hv & Hl).
    { assert ((a + 4 <= length t)%nat) as Hlen by (apply lookup_lt_Some in Hat; lia).
      apply (f_equal (fun l => l !! 3%nat)) in T1. rewrite !list_lookup_fmap, lookup_take_lt, lookup_drop in T1 by lia.
      destruct (t !! (a + 3)%nat) as [v|]; [|done]. exists v. split; [done |]. cbn in T1. by injection T1. }
    unfold unit_before, unit_after in Hf. replace (a + 4)%nat with (S (a + 3)) in Hf, Hat by lia.
    cbn beta iota in Hf. rewrite Hv, Hat in Hf.
    assert (word_unit v = true) as Hwv.
    { assert (v = 71 \/ v = 103) as [-> | ->]; [| reflexivity | reflexivity].
      revert Hl. unfold lower. destruct (Z.leb_spec 65 v), (Z.leb_spec v 90); cbn [andb]; lia. }
    rewrite Hwv in Hf. by destruct (word_unit u).
Qed.

Lemma units_slice (doc : jstring) f e a b :
  0 <= f -> 0 <= e <= len doc -> (a < b <= length (slice doc f e))%nat ->
  f + Z.of_nat b <= len doc /\ units (slice doc f e) a b = slice doc (f + Z.of_nat a) (f + Z.of_nat b).
Proof.
  intros Hf He Hb. destruct (Z.leb_spec f e) as [Hfe|Hfe].
  - pose proof (len_slice doc f e ltac:(lia) ltac:(lia)) as Hl. unfold len in Hl. split; [unfold len in *; lia |].
    rewrite !slice_in by (unfold len in *; lia). unfold units.
    replace (Z.to_nat (e - f)) with (a + (Z.to_nat (e - f) - a))%nat by lia.
    rewrite <- take_drop_commute, take_take, drop_drop. f_equal; [lia |]. f_equal. lia.
  - assert (length (slice doc f e) = 0%nat); [|lia]. unfold slice. rewrite length_take.
    assert (rel_index (len doc) e <= rel_index (len doc) f); [|lia].
    rewrite (rel_index_in _ e) by lia. unfold rel_index. destruct (Z.ltb_spec f 0); lia.
Qed.

Lemma last_index_loop_range n text quote : forall i, -1 <= last_index_loop n text quote i <= Z.max (-1) i.
Proof.
  induction n as [|n IH]; intros i; cbn [last_index_loop]; [lia |].
  destruct (Z.ltb_spec i 0); [lia |]. destruct (str_eqb _ _); [lia |]. specialize (IH (i - 1)). lia.
Qed.

Lemma text_line_bounds doc pos :
  0 <= pos <= len doc -> let ln := text_line_at doc pos in
  0 <= tl_from ln /\ 0 <= tl_to ln <= len doc /\ tl_text ln = slice doc (tl_from ln) (tl_to ln).
Proof.
  intros Hp. cbv zeta. unfold text_line_at. cbn [tl_from tl_to tl_text]. split; [|split; [|done]].
  - unfold lastIndexOf. pose proof (last_index_loop_range (S (length doc)) doc nl
      (Z.min (Z.max (pos - 1) 0) (len doc - len nl))). lia.
  - destruct (indexOf_spec doc nl pos) as [[E _] | (Hge & (_ & Hle & _) & _)]; [lia | rewrite E; cbn; lia |].
    change (len nl) with 1 in Hle. destruct (Z.eqb_spec (indexOf doc nl pos) (-1)); lia.
Qed.

Lemma md_image_exact other doc ln i :
  0 <= tl_from ln -> 0 <= tl_to ln <= len doc -> tl_text ln = slice doc (tl_from ln) (tl_to ln) ->
  md_image_at ln = Some i ->
  0 <= im_from i <= im_to i /\ im_to i <= len doc /\ image_text other i (slice doc (im_from i) (im_to i)).
Proof.
  intros Hf Ht E. unfold md_image_at. destruct (exec (tl_text ln) IMAGE_MD) as [[[a b] c]|] eqn:Ex; [|done].
  intros [= <-]. cbn [im_from im_to]. apply md_match in Ex as (Hb & alt & url & -> & -> & Hi & Ha & Hl & Hne).
  rewrite len_units by lia. rewrite E in Hb, Hi. destruct (units_slice doc _ _ a b Hf Ht Hb) as [Hle Hu].
  rewrite Hu in Hi. replace (tl_from ln + Z.of_nat a + (Z.of_nat b - Z.of_nat a)) with (tl_from ln + Z.of_nat b) by lia.
  split; [lia | split; [lia |]]. rewrite Hi. by apply markdown_image.
Qed.

Lemma html_image_exact other doc ln i :
  0 <= tl_from ln -> 0 <= tl_to ln <= len doc -> html_image_at other doc ln = Some i ->
  0 <= im_from i <= im_to i /\ im_to i <= len doc /\ image_text other i (slice doc (im_from i) (im_to i)).
Proof.
  intros Hf Ht. unfold html_image_at, nearby. set (o := Z.max 0 (tl_from ln - 80)). set (e := Z.min (len doc) (tl_to ln + 80)).
  set (near := slice doc o e). destruct (exec near IMAGE_HTML) as [[[a b] c]|] eqn:Ex; [|done].
  intros [= <-]. cbn [im_from im_to readHtmlImage].
  apply html_match in Ex as (Hb & tag & attrs & slash & -> & Hi & Htag & Ha & Hsl & Hw).
  set (raw := units near a b) in *. assert (len raw = Z.of_nat b - Z.of_nat a) as Hraw by (apply len_units; lia).
  destruct (indexOf_spec near raw 0 ltac:(lia)) as [[_ Hno] | (Hge & (_ & Hle & Heq) & _)].
  { destruct (Hno (Z.of_nat a) ltac:(lia)). split_and!; [lia | rewrite Hraw; unfold len; lia |].
    rewrite Hraw, slice_in by (unfold len; lia). unfold raw, units. f_equal; [lia |]. f_equal. lia. }
  set (k := indexOf near raw 0) in *.
  destruct (units_slice doc o e (Z.to_nat k) (Z.to_nat (k + len raw)) ltac:(lia) ltac:(lia)) as [Hlen Hu];
    [fold near; unfold len in *; lia |].
  fold near in Hu. rewrite slice_in in Heq by (unfold len in *; lia).
  assert (units near (Z.to_nat k) (Z.to_nat (k + len raw)) = raw) as Hr.
  { rewrite <- Heq at 2. unfold units. f_equal. lia. }
  rewrite Hr in Hu. rewrite (Z2Nat.id k), (Z2Nat.id (k + len raw)) in Hu by lia. rewrite (Z2Nat.id (k + len raw)) in Hlen by lia.
  replace (k + o) with (o + k) by lia. replace (o + k + len raw) with (o + (k + len raw)) by lia.
  rewrite <- Hu. split; [lia | split; [lia |]]. rewrite Hi. by apply html_image.
Qed.

Section ImageTheorems.
Context (other_number : jstring -> option Z).
Context {D : Type} `{TextLaws D}.
Implicit Types (st : EditorState D).

Lemma image_at_exact st i :
  state_ok st -> image_at_cursor other_number st = Some i ->
  0 <= im_from i <= im_to i /\ im_to i <= doc_length (doc st) /\
  image_text other_number i (slice (doc_text (doc st)) (im_from i) (im_to i)).
Proof.
  intros Hst. rewrite law_length. unfold image_at_cursor, inspectEditorContext. cbv zeta.
  set (T := doc_text (doc st)). set (pos := Z.max 0 (Z.min (len T) (r_from (main st)))).
  pose proof (len_nonneg T). destruct (text_line_bounds T pos ltac:(lia)) as (Hf & Ht & E).
  destruct (exec _ HEADING_START) as [[[? ?] ?]|]; [done |]. destruct (fenceAt T pos); [done |].
  destruct (html_image_at _ _ _) as [j|] eqn:Eh; [intros [= <-]; by apply (html_image_exact other_number T _ _ Hf Ht) |].
  destruct (md_image_at _) as [j|] eqn:Em; [intros [= <-]; by apply (md_image_exact other_number T _ _ Hf Ht E) |].
  destruct (shape_at T pos); [done |]. by destruct (tableAt T pos).
Qed.

(** C30. The image an edit of images works on - the first tag within 80 units of the
    cursor's line, or else the first Markdown image of that line, not always the
    one under the cursor (Examples [second_image_of_a_line], [image_nearby]) - is
    a whole image of the document, read as it stands ([image_text]). A change of
    its attributes replaces exactly that range by the markup of the changed
    attributes, the others kept. A replacement whose upload took time is made
    exactly when editing is still allowed and the captured range still holds the
    very text that was selected, and then writes there the markup of the new
    address with the attributes of the image. *)
Theorem image_edits_are_exact st i :
  state_ok st -> image_at_cursor other_number st = Some i ->
  let T := doc_text (doc st) in
  (0 <= im_from i <= im_to i /\ im_to i <= len T /\
   image_text other_number i (slice T (im_from i) (im_to i))) /\
  (forall patch, text_after (updateImageAtCursor other_number patch) st =
     splice T (im_from i) (im_to i)
       (imageMarkup (match ip_url patch with Some url => url | None => im_url i end)
                    (match ip_alt patch with Some alt => alt | None => im_alt i end)
                    (match ip_width patch with Some w => Some w | None => im_width i end)
                    (match ip_align patch with Some a => Some a | None => im_align i end))) /\
  (exists sel, select_image other_number st = Ok sel /\
     forall can_edit url name text resolved c,
       replace_image sel can_edit url name text resolved = Ok c <->
       can_edit = true /\ slice text (r_from resolved) (r_to resolved) = slice T (im_from i) (im_to i) /\
       c = change (r_from resolved) (r_to resolved)
             (imageMarkup url (if bool_decide (im_alt i = []) then without_extension name else im_alt i)
                (im_width i) (im_align i))).
Proof.
  intros Hst Hi. cbv zeta. destruct (image_at_exact st i Hst Hi) as (Hf & Ht & Hx). pose proof Ht as Ht'.
  rewrite law_length in Ht'. split; [done |]. split.
  - intros patch. unfold text_after, updateImageAtCursor. rewrite Hi. destruct patch as [[] [] [] []]; reflexivity.
  - unfold select_image. rewrite Hi. eexists. split; [reflexivity |].
    intros can_edit url name text resolved c.
    unfold replace_image. rewrite law_slice by (rewrite ?law_length; lia). cbn [fst snd].
    assert ((match im_alt i with [] => without_extension name | a => a end) =
      (if bool_decide (im_alt i = []) then without_extension name else im_alt i)) as ->
      by (by destruct (im_alt i)).
    destruct can_edit; cbn [negb]; [|split; [done | by intros (? & _)]].
    destruct (str_eqb _ _) eqn:E; cbn [negb].
    + apply str_eqb_eq in E. split; [intros [= <-]; by split_and! | by intros (_ & _ & ->)].
    + split; [done |]. intros (_ & E2 & _). by rewrite E2, str_eqb_refl in E.
Qed.
End ImageTheorems.

(** ** Concrete contexts *)

Definition no_number (_ : jstring) : option Z := None.
Definition two_images : jstring := lit "see ![a](x) and ![b](y)".

Lemma image_edits_are_exact_witness :
  text_after (updateImageAtCursor no_number {| ip_alt := None; ip_url := Some (lit "z"); ip_width := None; ip_align := None |})
    (plain_state two_images 6 6) = lit "see ![a](z) and ![b](y)" /\
  exists i, image_text no_number i (slice two_images 4 11).
Proof.
  split; [vm_compute; reflexivity |].
  pose proof (image_edits_are_exact no_number (plain_state two_images 6 6)
    {| im_from := 4; im_to := 11; im_alt := lit "a"; im_url := lit "x"; im_width := None; im_align := None; im_html := false |})
    as Ht.
  destruct Ht as ((_ & _ & Hi) & _).
  - split; [vm_compute; repeat split; discriminate | by apply list_elem_of_singleton].
  - vm_compute. reflexivity.
  - assert (doc_text (doc (plain_state two_images 6 6)) = two_images) as E by (vm_compute; reflexivity).
    rewrite E in Hi. eexists. exact Hi.
Defined.

(** With the cursor in the second image of a line, the first one is meant. *)
Example second_image_of_a_line :
  im_from <$> image_at_cursor no_number (plain_state two_images 18 18) = Some 4.
Proof. vm_compute. reflexivity. Qed.

(** Text between two fenced blocks counts as code. *)
Example between_fences :
  c_kind (inspectEditorContext no_number
    (TICKS ++ nl ++ lit "a" ++ nl ++ TICKS ++ nl ++ lit "text" ++ nl ++ TICKS ++ nl ++ lit "b" ++ nl ++ TICKS) 12) = KCode.
Proof. vm_compute. reflexivity. Qed.

(** An image up to 80 units away counts as the one at the cursor. *)
Example image_nearby :
  c_kind (inspectEditorContext no_number (lit "<img src='x' />" ++ nl ++ nl ++ lit "words") 19) = KImage.
Proof. vm_compute. reflexivity. Qed.
