(* ===== verification/WorkerSupervisor.v ===== *)
(** The failure boundary around a request/response Web Worker
    ([client/src/markdown/worker-supervisor.ts]): one deadline per awaited
    response, a bounded number of restarts between responses, and a terminal
    notice after which nothing happens any more. *)

From S2P Require Import Prelude.
From S2P Require Import Bytes.
From S2P Require Import Timers.

Inductive WorkerFailureKind := Timeout | WorkerError | MessageError | PostMessage.

Record WorkerFailure := { kind : WorkerFailureKind; error : jstring }.

(** A thrown value: an [Error], another truthy value as [String] shows it, or a
    falsy one. *)
Inductive thrown := AnError (message : jstring) | Truthy (shown : jstring) | Falsy.

Definition asError (value : thrown) (fallback : jstring) : jstring :=
  match value with AnError m => m | Truthy shown => shown | Falsy => fallback end.

(** What the supervisor calls its owner back with. Every call is the last
    statement of the method that makes it, so what the owner does in it comes
    after the method. *)
Inductive SupervisorNotice (Response : Type) :=
| OnMessage (response : Response)
| OnRecover (failure : WorkerFailure)
| OnTerminal (failure : WorkerFailure).
Arguments OnMessage {Response} response.
Arguments OnRecover {Response} failure.
Arguments OnTerminal {Response} failure.

(** [created] counts the calls of [createWorker]; a worker is its call's number.
    [alive] are the workers neither terminated nor detached; [starting] is the
    microtask the constructor queues when the first worker cannot start. *)
Record Supervisor := mkSupervisor {
  worker : option Z;
  deadlineHandle : option Z;
  awaitingResponse : bool;
  failuresWithoutResponse : Z;
  stopped : bool;
  maxRecoveries : Z;
  deadlineMs : Z;
  created : Z;
  alive : list Z;
  clock : timers Z;
  starting : option WorkerFailure }.

#[export] Instance eta_sup : Eta (Supervisor) := fun s =>
  mkSupervisor (worker s) (deadlineHandle s) (awaitingResponse s) (failuresWithoutResponse s) (stopped s) (maxRecoveries s) (deadlineMs s) (created s) (alive s) (clock s) (starting s).
#[export] Instance set_sup_worker : SetField worker. Proof. solve_update. Defined.
#[export] Instance set_sup_deadlineHandle : SetField deadlineHandle. Proof. solve_update. Defined.
#[export] Instance set_sup_awaitingResponse : SetField awaitingResponse. Proof. solve_update. Defined.
#[export] Instance set_sup_failuresWithoutResponse : SetField failuresWithoutResponse. Proof. solve_update. Defined.
#[export] Instance set_sup_stopped : SetField stopped. Proof. solve_update. Defined.
#[export] Instance set_sup_maxRecoveries : SetField maxRecoveries. Proof. solve_update. Defined.
#[export] Instance set_sup_deadlineMs : SetField deadlineMs. Proof. solve_update. Defined.
#[export] Instance set_sup_created : SetField created. Proof. solve_update. Defined.
#[export] Instance set_sup_alive : SetField alive. Proof. solve_update. Defined.
#[export] Instance set_sup_clock : SetField clock. Proof. solve_update. Defined.
#[export] Instance set_sup_starting : SetField starting. Proof. solve_update. Defined.

Section Supervisor.
Context {Response : Type}.
(** The owner's worker factory: the [n]-th call returns a worker or throws. *)
Context (createWorker : Z -> option thrown).
Implicit Types (s : Supervisor) (w h : Z) (failure : WorkerFailure).

Definition is_worker s w : bool := bool_decide (worker s = Some w).

(** [!this.stopped && this.worker === worker]: the guard of every handler. *)
Definition listening s w : bool := negb (stopped s || negb (is_worker s w)).

Definition spawn s : Supervisor * (thrown + Z) :=
  let w := created s in
  match createWorker w with
  | Some e => (s <| created := w + 1 |>, inl e)
  | None => (s <| created := w + 1 |> <| alive := w :: alive s |>, inr w)
  end.

Definition clearDeadline s : Supervisor :=
  let s := s <| awaitingResponse := false |> in
  match deadlineHandle s with
  | None => s
  | Some h => s <| clock := clearTimeout h (clock s) |> <| deadlineHandle := None |>
  end.

(** The handlers are removed and the worker terminated. *)
Definition detachAndTerminate (w : option Z) s : Supervisor :=
  match w with
  | None => s
  | Some w => s <| alive := filter (fun v => v <> w) (alive s) |>
  end.

Definition armDeadline w s : Supervisor :=
  let s := clearDeadline s in
  let s := s <| awaitingResponse := true |> in
  let '(h, t) := setTimeout w (inject_Z (deadlineMs s)) (clock s) in
  s <| clock := t |> <| deadlineHandle := Some h |>.

Definition fail w failure s : Supervisor * list (SupervisorNotice Response) :=
  if stopped s || negb (is_worker s w) then (s, [])
  else
    let s := clearDeadline s in
    let s := detachAndTerminate (Some w) s in
    let s := s <| worker := None |> in
    let s := s <| failuresWithoutResponse := failuresWithoutResponse s + 1 |> in
    if maxRecoveries s <? failuresWithoutResponse s
    then (s <| stopped := true |>, [OnTerminal failure])
    else
      match spawn s with
      | (s, inl e) =>
          (s <| stopped := true |>,
           [OnTerminal {| kind := WorkerError;
                          error := asError e (lit "Markdown worker could not restart") |}])
      | (s, inr v) => (s <| worker := Some v |>, [OnRecover failure])
      end.

(** [new WorkerSupervisor(createWorker, { deadlineMs, maxRecoveries, ... })] *)
Definition construct (deadlineMs : Z) (maxRecoveries : option Z) : Supervisor :=
  let s := mkSupervisor None None false 0 false (default 1 maxRecoveries) deadlineMs 0 []
             no_timers None in
  match spawn s with
  | (s, inr w) => s <| worker := Some w |>
  | (s, inl e) =>
      s <| stopped := true |>
        <| starting := Some {| kind := WorkerError;
                               error := asError e (lit "Markdown worker could not start") |} |>
  end.

(** [reject]: what [worker.postMessage] throws, if it does. The last component
    says whether the message was sent. *)
Definition post (expectResponse : bool) (reject : option thrown) s
    : Supervisor * list (SupervisorNotice Response) * bool :=
  match worker s with
  | None => (s, [], false)
  | Some w =>
      if stopped s then (s, [], false)
      else
        match reject with
        | Some e =>
            (fail w {| kind := PostMessage;
                       error := asError e (lit "Markdown worker rejected a message") |} s, false)
        | None => ((if expectResponse then armDeadline w s else s, []), true)
        end
  end.

Definition destroy s : Supervisor :=
  if stopped s then s
  else
    let s := s <| stopped := true |> in
    let s := clearDeadline s in
    let s := detachAndTerminate (worker s) s in
    s <| worker := None |>.

(** The handlers [spawn] installs, as the browser calls them. *)
Definition onmessage w (response : Response) s : Supervisor * list (SupervisorNotice Response) :=
  if negb (listening s w) then (s, [])
  else
    let s := clearDeadline s in
    let s := s <| failuresWithoutResponse := 0 |> in
    (s, [OnMessage response]).

Definition onerror w (message : jstring) s : Supervisor * list (SupervisorNotice Response) :=
  if negb (listening s w) then (s, [])
  else fail w {| kind := WorkerError;
                 error := if str_eqb message [] then lit "Markdown worker failed" else message |} s.

Definition onmessageerror w s : Supervisor * list (SupervisorNotice Response) :=
  if negb (listening s w) then (s, [])
  else fail w {| kind := MessageError;
                 error := lit "Markdown worker returned an unreadable message" |} s.

Definition deadline_callback w s : Supervisor * list (SupervisorNotice Response) :=
  if negb (listening s w) || negb (awaitingResponse s) then (s, [])
  else fail w {| kind := Timeout;
                 error := lit "Markdown worker timed out after " ++ decimal (deadlineMs s) ++ lit " ms" |} s.

(** ** Runs *)

Inductive event :=
| EPost (expectResponse : bool) (reject : option thrown)
| EDestroy
| EMessage (w : Z) (response : Response)
| EError (w : Z) (message : jstring)
| EMessageError (w : Z)
| ETimer (h : Z)
| EMicrotask.

(** One event. The browser delivers worker events only through handlers that
    are still installed, and fires an armed timer once. *)
Definition step s e : Supervisor * list (SupervisorNotice Response) :=
  match e with
  | EPost expect reject => (post expect reject s).1
  | EDestroy => (destroy s, [])
  | EMessage w r => if bool_decide (w ∈ alive s) then onmessage w r s else (s, [])
  | EError w m => if bool_decide (w ∈ alive s) then onerror w m s else (s, [])
  | EMessageError w => if bool_decide (w ∈ alive s) then onmessageerror w s else (s, [])
  | ETimer h =>
      match expire h (clock s) with
      | None => (s, [])
      | Some (w, t) => deadline_callback w (s <| clock := t |>)
      end
  | EMicrotask =>
      match starting s with
      | None => (s, [])
      | Some failure => (s <| starting := None |>, [OnTerminal failure])
      end
  end.

Fixpoint run s (es : list event) : Supervisor * list (SupervisorNotice Response) :=
  match es with
  | [] => (s, [])
  | e :: rest => let '(s1, n1) := step s e in let '(s2, n2) := run s1 rest in (s2, n1 ++ n2)
  end.
End Supervisor.

(** ** The supervisor's contract *)

Section Contract.
Context {Response : Type} (createWorker : Z -> option thrown).
Implicit Types (s : Supervisor) (w h : Z) (ns : list (SupervisorNotice Response)).

(** Recoveries since the last response, and responses. *)
Definition tally (n : Z * Z) (x : SupervisorNotice Response) : Z * Z :=
  match x with
  | OnMessage _ => (0, n.2 + 1)
  | OnRecover _ => (n.1 + 1, n.2)
  | OnTerminal _ => n
  end.
Definition tallied ns : Z * Z := fold_left tally ns (0, 0).
Definition recoveries ns : Z := (tallied ns).1.
Definition responses ns : Z := (tallied ns).2.

Definition is_terminal (x : SupervisorNotice Response) : bool :=
  match x with OnTerminal _ => true | _ => false end.

(** The deadline is armed exactly while a response is awaited. *)
Definition deadline_ok s : Prop :=
  timers_wf (clock s) /\
  match awaitingResponse s, worker s with
  | true, Some w => exists h, deadlineHandle s = Some h /\
      t_armed (clock s) = {[ h := (w, inject_Z (deadlineMs s)) ]}
  | true, None => False
  | false, _ => deadlineHandle s = None /\ t_armed (clock s) = ∅
  end.

Record supervisor_ok s : Prop := {
  so_deadline : deadline_ok s;
  so_alive : alive s = option_list (worker s);
  so_worker : stopped s = bool_decide (worker s = None);
  so_failures : 0 <= failuresWithoutResponse s /\
    (stopped s = false -> failuresWithoutResponse s <= maxRecoveries s);
  so_starting : is_Some (starting s) -> stopped s = true }.

(** The state against the notices given so far. *)
Record tracked (m d : Z) s ns : Prop := {
  tr_ok : supervisor_ok s;
  tr_config : maxRecoveries s = m /\ deadlineMs s = d;
  tr_silent : existsb is_terminal ns = true -> stopped s = true /\ starting s = None;
  tr_last : forall a x b, ns = a ++ x :: b -> is_terminal x = true -> b = [];
  tr_bound : forall a b, ns = a ++ b -> recoveries a <= m;
  tr_failures : stopped s = false -> recoveries ns = failuresWithoutResponse s;
  tr_created : 1 <= created s <= 1 + m * responses ns +
    (if stopped s then m else failuresWithoutResponse s) }.

Lemma tallied_snoc ns x : tallied (ns ++ [x]) = tally (tallied ns) x.
Proof. unfold tallied. by rewrite fold_left_app. Qed.

Lemma existsb_none {A} (f : A -> bool) l a x b : existsb f l = false -> l = a ++ x :: b -> f x = true -> False.
Proof. intros H -> Hx. rewrite existsb_app in H. simpl in H. rewrite Hx, orb_true_r in H. done. Qed.

(** The last notice of a history that was not over. *)
Lemma snoc_split {A} (ns a b : list A) x y :
  ns ++ [x] = a ++ y :: b -> (b = [] /\ a = ns /\ y = x) \/ exists b', ns = a ++ y :: b'.
Proof.
  destruct b as [|z b _] using rev_ind.
  - intros [-> [= ->]]%app_inj_tail. by left.
  - rewrite app_comm_cons, app_assoc. intros [-> _]%app_inj_tail. right. by exists b.
Qed.

Lemma prefix_snoc {A} (ns a b : list A) x :
  ns ++ [x] = a ++ b -> a = ns ++ [x] \/ exists b', ns = a ++ b'.
Proof.
  destruct b as [|y b _] using rev_ind.
  - rewrite app_nil_r. intros <-. by left.
  - rewrite app_assoc. intros [-> _]%app_inj_tail. right. by exists b.
Qed.

Lemma recoveries_nonneg ns : 0 <= recoveries ns /\ 0 <= responses ns.
Proof.
  unfold recoveries, responses. induction ns as [|x ns IH] using rev_ind; [done |].
  rewrite tallied_snoc. destruct x; simpl; lia.
Qed.

(** Adding one notice to a history that has no terminal one. *)
Lemma tracked_snoc m d s s' ns x :
  tracked m d s ns ->
  stopped s = false \/ is_Some (starting s) ->
  supervisor_ok s' -> maxRecoveries s' = m -> deadlineMs s' = d ->
  (is_terminal x = true -> stopped s' = true /\ starting s' = None) ->
  recoveries (ns ++ [x]) <= m ->
  (stopped s' = false -> recoveries (ns ++ [x]) = failuresWithoutResponse s') ->
  1 <= created s' <= 1 + m * responses (ns ++ [x]) + (if stopped s' then m else failuresWithoutResponse s') ->
  tracked m d s' (ns ++ [x]).
Proof.
  intros [] Hlive Hok Hm Hd Hx Hr Hf Hc.
  assert (existsb is_terminal ns = false) as Hn.
  { destruct (existsb is_terminal ns); [|done]. destruct tr_silent0 as [Hs Ht]; [done |].
    destruct Hlive as [Hl | [? Hl]]; congruence. }
  split; try done.
  - rewrite existsb_app, Hn. simpl. rewrite orb_false_r. done.
  - intros a y b [(-> & -> & ->) | [b' Hb']]%snoc_split Hy; [done |].
    exfalso. exact (existsb_none is_terminal ns a y b' Hn Hb' Hy).
  - intros a b [-> | [b' Hb']]%prefix_snoc; [done | by eapply tr_bound0].
Qed.

(** Assigning a timer's handle and clearing it. *)
Lemma clearDeadline_spec s :
  deadline_ok s ->
  clearDeadline s = s <| awaitingResponse := false |> <| deadlineHandle := None |>
                      <| clock := clock (clearDeadline s) |> /\
  timers_wf (clock (clearDeadline s)) /\ t_armed (clock (clearDeadline s)) = ∅.
Proof.
  destruct s as [w dh aw f st mr dm cr al ck stt]. unfold deadline_ok, clearDeadline. cbn.
  intros [Hw H]. destruct dh as [h|]; cbn.
  - split_and!; [done | by apply clearTimeout_wf |]. destruct aw; [destruct w |]; try done.
    + destruct H as (h' & [= <-] & ->). apply delete_singleton_eq.
    + by destruct H.
  - split_and!; try done. destruct aw; [destruct w |]; try done.
    + by destruct H as (h' & ? & _).
    + by destruct H.
Qed.

(** Everything of a state but its deadline. *)
Lemma ok_clearDeadline s : supervisor_ok s -> supervisor_ok (clearDeadline s).
Proof.
  intros []. destruct (clearDeadline_spec s so_deadline0) as (E & Hw & He).
  rewrite E. by split.
Qed.

Lemma ok_not_stopped s : supervisor_ok s -> stopped s = false ->
  exists w, worker s = Some w /\ alive s = [w].
Proof.
  intros [] Hs. rewrite Hs in so_worker0. symmetry in so_worker0. apply bool_decide_eq_false in so_worker0.
  destruct (worker s) as [w|]; [|done]. exists w. by rewrite so_alive0.
Qed.

(** Where [fail] leads from a healthy state. *)
Lemma fail_listening w failure s :
  supervisor_ok s -> stopped s = false -> worker s = Some w ->
  exists s' x, fail (Response := Response) createWorker w failure s = (s', [x]) /\
    supervisor_ok s' /\ maxRecoveries s' = maxRecoveries s /\ deadlineMs s' = deadlineMs s /\
    ((is_terminal x = true /\ stopped s' = true /\ starting s' = None /\
      created s <= created s' /\
      created s' + failuresWithoutResponse s <= created s + maxRecoveries s) \/
     (exists f, x = OnRecover f /\ stopped s' = false /\ created s' = created s + 1 /\
      failuresWithoutResponse s' = failuresWithoutResponse s + 1 /\
      failuresWithoutResponse s' <= maxRecoveries s)).
Proof.
  intros Hok Hs Hw. destruct (Hok) as [Hd Ha Hwk [Hf0 Hf] Hst]. specialize (Hf Hs).
  assert (starting s = None) as Hsn by (destruct (starting s); [rewrite Hst in Hs by eauto; done | done]).
  destruct (clearDeadline_spec s Hd) as (E & Hwf & He). rewrite Hw in Ha.
  unfold fail, is_worker. rewrite Hs, Hw, bool_decide_true by done. cbn [orb negb]. rewrite E.
  revert Hwf He. generalize (clock (clearDeadline s)). intros t Hwf He.
  unfold detachAndTerminate, spawn. cbn. rewrite Ha. cbn. rewrite decide_False by (intros Hn; by apply Hn).
  destruct (Z.ltb_spec (maxRecoveries s) (failuresWithoutResponse s + 1)); [|destruct (createWorker (created s)) as [e|]];
    eexists _, _; (split; [reflexivity |]); cbn.
  - split_and!; try done.
    + split; cbn; try done. split; [lia | done].
    + left. split_and!; try done; lia.
  - split_and!; try done.
    + split; cbn; try done. split; [lia | done].
    + left. split_and!; try done; lia.
  - split_and!; try done.
    + split; cbn; try done; lia.
    + right. exists failure. split_and!; try done; lia.
Qed.

Lemma fail_tracked m d w failure s ns :
  tracked m d s ns -> let '(s', n) := fail createWorker w failure s in tracked m d s' (ns ++ n).
Proof.
  intros Ht. destruct (stopped s) eqn:Es.
  { unfold fail. rewrite Es. cbn. by rewrite app_nil_r. }
  destruct (decide (worker s = Some w)) as [Hw | Hw].
  2: { unfold fail, is_worker. rewrite bool_decide_false, orb_true_r by done. by rewrite app_nil_r. }
  pose proof Ht as [Hok [Hm Hd] _ _ _ Hf Hc]. specialize (Hf Es). rewrite Es in Hc.
  destruct (fail_listening w failure s Hok Es Hw) as (s' & x & -> & Hok' & Hm' & Hd' & Hx).
  destruct (recoveries_nonneg ns) as [Hr0 Hr1].
  pose proof (so_failures s Hok) as [Hf0 Hf1]. specialize (Hf1 Es).
  eapply tracked_snoc; try done; [by left | congruence | congruence | ..];
    unfold recoveries, responses in *; rewrite ?tallied_snoc.
  - intros Hxt. destruct Hx as [(_ & ? & ? & _) | (f & -> & _)]; done.
  - destruct Hx as [(Hxt & _) | (f & -> & _ & _ & H1 & H2)].
    + destruct x; try done. simpl. lia.
    + simpl. lia.
  - intros Hs'. destruct Hx as [(_ & ? & _) | (f & -> & _ & _ & H1 & H2)]; [congruence |]. simpl. lia.
  - destruct Hx as [(Hxt & -> & _ & H1) | (f & -> & -> & H1 & H2 & H3)].
    + destruct x; try done. simpl. lia.
    + simpl. lia.
Qed.
(** A step that gives no notice and keeps the counters. *)
Lemma tracked_silent m d s s' ns :
  tracked m d s ns -> supervisor_ok s' -> maxRecoveries s' = maxRecoveries s ->
  deadlineMs s' = deadlineMs s -> created s' = created s -> starting s' = starting s ->
  failuresWithoutResponse s' = failuresWithoutResponse s ->
  (stopped s = true -> stopped s' = true) ->
  tracked m d s' (ns ++ []).
Proof.
  rewrite app_nil_r. intros [] Hok Hm Hd Hc Hst Hf Hs. split; try done.
  - by rewrite Hm, Hd.
  - rewrite Hst. intros H. destruct (tr_silent0 H). auto.
  - intros Hs'. rewrite Hf. apply tr_failures0. destruct (stopped s); [rewrite Hs in Hs' by done; done | done].
  - rewrite Hc, Hf. destruct tr_config0 as [<- _]. destruct tr_ok0 as [_ _ _ [Hf0 Hf1] _].
    destruct (stopped s); [rewrite Hs by done; lia |]. specialize (Hf1 eq_refl). destruct (stopped s'); lia.
Qed.

Lemma armDeadline_ok w s :
  supervisor_ok s -> worker s = Some w -> supervisor_ok (armDeadline w s).
Proof.
  intros [] Hw. destruct (clearDeadline_spec s so_deadline0) as (E & Hwf & He).
  unfold armDeadline. rewrite E. revert Hwf He. generalize (clock (clearDeadline s)). intros t Hwf He.
  split; cbn; try done. split; cbn; [by apply (setTimeout_wf w (inject_Z (deadlineMs s))) |].
  rewrite Hw. exists (t_next t). split; [done |]. by rewrite He, insert_empty.
Qed.

Lemma armDeadline_fields w s :
  supervisor_ok s -> let s' := armDeadline w s in
  maxRecoveries s' = maxRecoveries s /\ deadlineMs s' = deadlineMs s /\ created s' = created s /\
  starting s' = starting s /\ failuresWithoutResponse s' = failuresWithoutResponse s /\
  stopped s' = stopped s.
Proof.
  intros []. destruct (clearDeadline_spec s so_deadline0) as (E & _).
  unfold armDeadline. rewrite E. by split_and!.
Qed.

(** The only armed timer is the deadline of the current worker. *)
Lemma deadline_fires s h w t :
  supervisor_ok s -> expire h (clock s) = Some (w, t) ->
  worker s = Some w /\ awaitingResponse s = true /\ stopped s = false /\
  deadlineHandle s = Some h /\ t_armed t = ∅ /\ t = clearTimeout h (clock s).
Proof.
  intros [Hd _ Hwk _ _] [[q Hq] ->]%expire_Some. destruct Hd as [_ Hd].
  destruct (awaitingResponse s); [|destruct Hd as [_ Hd]; by rewrite Hd, lookup_empty in Hq].
  destruct (worker s) as [v|]; [|done]. destruct Hd as (h' & Hh & He). rewrite He in Hq.
  apply lookup_singleton_Some in Hq as [-> [= -> _]]. split_and!; try done.
  simpl. rewrite He. apply delete_singleton_eq.
Qed.

Lemma deadline_callback_fails s h w t :
  supervisor_ok s -> expire h (clock s) = Some (w, t) ->
  exists failure, deadline_callback (Response := Response) createWorker w (s <| clock := t |>) =
    fail createWorker w failure s /\ kind failure = Timeout.
Proof.
  intros Hok E. destruct (deadline_fires s h w t Hok E) as (Hw & Ha & Hs & Hh & _ & ->).
  assert (clearDeadline (s <| clock := clearTimeout h (clock s) |>) = clearDeadline s) as Hc.
  { unfold clearDeadline. cbn. rewrite Hh. unfold clearTimeout. cbn. by rewrite delete_delete_eq. }
  unfold deadline_callback. set (s1 := s <| clock := _ |>) in *.
  assert (listening s1 w = true) as Hl
    by (unfold listening, is_worker; cbn; by rewrite Hs, Hw, bool_decide_true).
  rewrite Hl. change (awaitingResponse s1) with (awaitingResponse s). rewrite Ha. cbn [negb orb].
  eexists (Build_WorkerFailure _ _). split; [|reflexivity]. unfold fail. rewrite Hc.
  change (stopped s1 || negb (is_worker s1 w)) with (stopped s || negb (is_worker s w)).
  unfold is_worker. rewrite Hs, Hw, bool_decide_true by done. reflexivity.
Qed.

Lemma onmessage_tracked m d w r s ns :
  0 <= m -> tracked m d s ns -> let '(s', n) := onmessage w r s in tracked m d s' (ns ++ n).
Proof.
  intros Hm Ht. unfold onmessage, listening. destruct (stopped s) eqn:Es; cbn [orb negb].
  { by rewrite app_nil_r. }
  destruct (is_worker s w); cbn [negb]; [|by rewrite app_nil_r].
  pose proof Ht as [Hok [Hm' Hd] _ _ _ _ Hc]. rewrite Es in Hc.
  pose proof (ok_clearDeadline s Hok) as Hok'. pose proof Hok as [Hdl Ha Hwk [Hf0 Hf1] Hst].
  destruct (clearDeadline_spec s Hdl) as (E & _).
  assert (starting s = None) as Hsn by (destruct (starting s); [rewrite Hst in Es by eauto; done | done]).
  destruct (recoveries_nonneg ns) as [Hr0 Hr1]. specialize (Hf1 Es).
  rewrite E in *. clear E.
  eapply tracked_snoc; try done; [by left | ..];
    unfold recoveries, responses in *; rewrite ?tallied_snoc; cbn; try lia.
  - destruct Hok'. split; try done; cbn; lia.
  - rewrite Es. lia.
Qed.

Lemma destroy_ok s :
  supervisor_ok s ->
  supervisor_ok (destroy s) /\ maxRecoveries (destroy s) = maxRecoveries s /\
  deadlineMs (destroy s) = deadlineMs s /\ created (destroy s) = created s /\
  starting (destroy s) = starting s /\
  failuresWithoutResponse (destroy s) = failuresWithoutResponse s /\ stopped (destroy s) = true.
Proof.
  intros Hok. unfold destroy. destruct (stopped s) eqn:Es; [done |].
  pose proof Hok as [Hd Ha Hwk Hf Hst].
  assert (deadline_ok (s <| stopped := true |>)) as Hd' by done.
  destruct (clearDeadline_spec _ Hd') as (E & Hwf & He). rewrite E.
  revert Hwf He. generalize (clock (clearDeadline (s <| stopped := true |>))). intros t Hwf He.
  destruct (ok_not_stopped s Hok Es) as (w & Hw & Hal). cbn. rewrite Hw. cbn. split_and!; try done.
  split; cbn; try done; [rewrite Hal; cbn; by rewrite decide_False by (intros Hn; by apply Hn) | lia].
Qed.

Lemma step_tracked m d s ns e :
  0 <= m -> tracked m d s ns ->
  let '(s', n) := step createWorker s e in tracked m d s' (ns ++ n).
Proof.
  intros Hm Ht. pose proof Ht as [Hok _ _ _ _ _ _].
  assert (tracked m d s (ns ++ [])) as Hid by (by rewrite app_nil_r).
  destruct e as [expect reject| |w r|w x|w|h|]; cbn [step].
  - unfold post. destruct (worker s) as [w|] eqn:Hw; [|done]. destruct (stopped s) eqn:Es; [done |].
    destruct reject as [x|]; [by apply fail_tracked |]. cbn. destruct expect; [|done].
    pose proof (armDeadline_fields w s Hok) as (? & ? & ? & ? & ? & ?).
    eapply tracked_silent; try done; [by apply armDeadline_ok | congruence].
  - destruct (destroy_ok s Hok) as (? & ? & ? & ? & ? & ? & ?). by eapply tracked_silent.
  - destruct (bool_decide _); [by apply onmessage_tracked | done].
  - destruct (bool_decide _); [|done]. unfold onerror. destruct (negb _); [done | by apply fail_tracked].
  - destruct (bool_decide _); [|done]. unfold onmessageerror. destruct (negb _); [done | by apply fail_tracked].
  - destruct (expire h (clock s)) as [[w t]|] eqn:E; [|done].
    destruct (deadline_callback_fails s h w t Hok E) as (f & -> & _). by apply fail_tracked.
  - destruct (starting s) as [f|] eqn:Est; [|done].
    pose proof Hok as [Hd Ha Hwk Hf Hst]. rewrite Est in Hst.
    assert (stopped s = true) as Es by auto. pose proof Ht as [_ [Hm' Hd'] _ _ Hb _ Hc]. rewrite Es in Hc.
    destruct (recoveries_nonneg ns) as [Hr0 Hr1].
    eapply tracked_snoc; try done; [right; by rewrite Est | ..];
      unfold recoveries, responses in *; rewrite ?tallied_snoc; cbn; rewrite ?Es; try done.
    apply (Hb ns []). by rewrite app_nil_r.
Qed.

Lemma construct_tracked m d : 0 <= default 1 m ->
  tracked (default 1 m) d (construct createWorker d m) [].
Proof.
  intros Hm. unfold construct, spawn. cbn [created]. destruct (createWorker 0); cbn;
    (split; cbn; try done;
     first [ by intros [] | split; cbn; try done; lia | intros [] ? ?; [done | discriminate]
           | intros [] ? ? ?; discriminate | unfold responses; cbn; lia ]).
Qed.

Lemma run_tracked m d s ns es :
  0 <= m -> tracked m d s ns -> let '(s', n) := run createWorker s es in tracked m d s' (ns ++ n).
Proof.
  intros Hm. revert s ns. induction es as [|e es IH]; intros s ns Ht; cbn [run]; [by rewrite app_nil_r |].
  pose proof (step_tracked m d s ns e Hm Ht) as H1. destruct (step createWorker s e) as [s1 n1].
  specialize (IH s1 _ H1). destruct (run createWorker s1 es) as [s2 n2]. by rewrite app_assoc.
Qed.
(** *** One event, by what the owner is told *)

Definition known s : Prop := forall w, worker s = Some w -> w < created s.

Inductive reacted s (e : event (Response := Response)) : Supervisor -> list (SupervisorNotice Response) -> Prop :=
| re_silent : reacted s e s []
| re_message w r : e = EMessage w r -> worker s = Some w -> stopped s = false ->
    reacted s e ((clearDeadline s) <| failuresWithoutResponse := 0 |>) [OnMessage r]
| re_recover f s' : stopped s = false -> supervisor_ok s' -> deadlineMs s' = deadlineMs s ->
    worker s' = Some (created s) -> created s' = created s + 1 -> stopped s' = false ->
    reacted s e s' [OnRecover f]
| re_terminal f s' : supervisor_ok s' -> deadlineMs s' = deadlineMs s -> stopped s' = true ->
    starting s' = None -> created s <= created s' -> reacted s e s' [OnTerminal f].

Lemma fail_recovers w failure s s' f :
  fail (Response := Response) createWorker w failure s = (s', [OnRecover f]) -> worker s' = Some (created s).
Proof.
  unfold fail. destruct (_ || _); [done |]. destruct (_ <? _); [done |]. unfold spawn.
  assert (created (clearDeadline s) = created s) as E by (unfold clearDeadline; by destruct (deadlineHandle _)).
  unfold detachAndTerminate. cbn. rewrite E. destruct (createWorker (created s)) as [x|]; [done |].
  by intros [<- _]%pair_equal_spec.
Qed.

Lemma fail_reacted e w failure s :
  supervisor_ok s -> listening s w = true ->
  let r := fail (Response := Response) createWorker w failure s in reacted s e r.1 r.2.
Proof.
  cbv zeta. intros Hok Hl. unfold listening in Hl. apply negb_true_iff, orb_false_iff in Hl as [Hs Hw].
  apply negb_false_iff, bool_decide_eq_true in Hw.
  destruct (fail_listening w failure s Hok Hs Hw) as (s' & x & E & Hok' & _ & Hd & Hx).
  rewrite E. cbn [fst snd]. destruct Hx as [(Hx & ? & ? & ? & _) | (f & -> & ? & ? & _)].
  - destruct x; [done | done |]. by eapply re_terminal.
  - eapply re_recover; try done. by eapply fail_recovers.
Qed.

Lemma deadline_listening s h w t :
  supervisor_ok s -> expire h (clock s) = Some (w, t) -> listening s w = true.
Proof.
  intros Hok E. destruct (deadline_fires s h w t Hok E) as (Hw & _ & Hs & _).
  unfold listening, is_worker. by rewrite Hs, Hw, bool_decide_true.
Qed.

Lemma step_reacted s e :
  supervisor_ok s -> match e with EPost _ _ | EDestroy => False | _ => True end ->
  reacted s e (step createWorker s e).1 (step createWorker s e).2.
Proof.
  intros Hok He. destruct e as [? ?| |w r|w x|w|h|]; try done; cbn [step].
  - destruct (bool_decide _); [|constructor]. unfold onmessage.
    destruct (listening s w) eqn:El; cbn [negb]; [|constructor].
    unfold listening in El. apply negb_true_iff, orb_false_iff in El as [Hs Hw].
    apply negb_false_iff, bool_decide_eq_true in Hw. by eapply re_message.
  - destruct (bool_decide _); [|constructor]. unfold onerror.
    destruct (listening s w) eqn:El; cbn [negb]; [by apply fail_reacted | constructor].
  - destruct (bool_decide _); [|constructor]. unfold onmessageerror.
    destruct (listening s w) eqn:El; cbn [negb]; [by apply fail_reacted | constructor].
  - destruct (expire h (clock s)) as [[w t]|] eqn:E; [|constructor].
    destruct (deadline_callback_fails s h w t Hok E) as (f & -> & _). apply fail_reacted; [done |].
    by eapply deadline_listening.
  - destruct (starting s) as [f|] eqn:Est; [|constructor]. pose proof Hok as [Hd Ha Hwk Hf Hst].
    rewrite Est in Hst. eapply re_terminal; try done; cbn; auto.
    split; cbn; try done.
Qed.

Lemma armDeadline_eq w s :
  supervisor_ok s -> exists h t,
    armDeadline w s = s <| awaitingResponse := true |> <| deadlineHandle := Some h |> <| clock := t |>.
Proof.
  intros []. destruct (clearDeadline_spec s so_deadline0) as (E & _). unfold armDeadline. rewrite E.
  by eexists _, _.
Qed.

Lemma clearDeadline_eq s :
  supervisor_ok s -> exists t,
    clearDeadline s = s <| awaitingResponse := false |> <| deadlineHandle := None |> <| clock := t |>.
Proof. intros []. destruct (clearDeadline_spec s so_deadline0) as (E & _). by eexists. Qed.
End Contract.

(** C24. A supervised worker cannot fail for ever. Over every sequence of posts,
    responses, worker errors, deadlines and destruction, and whatever the worker
    factory does: between two responses the owner sees at most [maxRecoveries]
    restarts, the factory is called at most once more than
    [maxRecoveries * (responses + 1)], a terminal notice is the last notice, and
    the only worker left running is the current one - none once the supervisor
    has stopped. *)
Theorem supervisor_gives_up {Response} createWorker maxRecoveries deadlineMs es :
  0 <= default 1 maxRecoveries ->
  let '(s, ns) := run (Response := Response) createWorker
                    (construct createWorker deadlineMs maxRecoveries) es in
  let m := default 1 maxRecoveries in
  (forall a b, ns = a ++ b -> recoveries a <= m) /\
  created s <= 1 + m * (responses ns + 1) /\
  (forall a x b, ns = a ++ x :: b -> is_terminal x = true -> b = [] /\ stopped s = true) /\
  alive s = option_list (worker s) /\ (stopped s = true <-> worker s = None).
Proof.
  intros Hm. pose proof (run_tracked createWorker _ _ _ [] es Hm (construct_tracked createWorker maxRecoveries deadlineMs Hm)) as Ht.
  cbv zeta. destruct (run createWorker _ es) as [s ns]. rewrite app_nil_l in Ht. destruct Ht as [[_ Ha Hwk Hf _] [Hm' _] Hs Hl Hb _ Hc].
  split_and!; try done.
  - destruct (stopped s); [rewrite Z.mul_add_distr_l; lia |]. rewrite Hm' in Hf. destruct Hf as [_ Hf]. specialize (Hf eq_refl).
    rewrite Z.mul_add_distr_l. lia.
  - intros a x b E Hx. split; [by eapply Hl |]. apply Hs. rewrite E, existsb_app. cbn. rewrite Hx.
    by rewrite orb_true_r.
  - rewrite Hwk. by rewrite bool_decide_eq_true.
Qed.

(** A worker that times out, answers after its restart, fails to load twice. *)
Definition demo_factory (n : Z) : option thrown := if n =? 7 then Some Falsy else None.
Definition demo_events : list (event (Response := Z)) :=
  [EPost true None; ETimer 1; EPost true None; EMessage 1 42; EPost true None; EError 1 []; EError 0 [];
   EPost true (Some (AnError (lit "no"))); EPost true None; EMicrotask].

Lemma supervisor_gives_up_witness :
  let '(s, ns) := run demo_factory (construct demo_factory 20000 None) demo_events in
  created s <= 5 /\ len ns = 4 /\ stopped s = true /\ alive s = [].
Proof.
  pose proof (supervisor_gives_up demo_factory None 20000 demo_events ltac:(cbn; lia)) as T.
  destruct (run demo_factory (construct demo_factory 20000 None) demo_events) as [s ns] eqn:E.
  assert (responses ns = 1 /\ len ns = 4 /\ existsb is_terminal ns = true /\ stopped s = true) as (Hr & Hl & _ & Hs)
    by (replace ns with (run demo_factory (construct demo_factory 20000 None) demo_events).2 by (by rewrite E);
        replace s with (run demo_factory (construct demo_factory 20000 None) demo_events).1 by (by rewrite E);
        vm_compute; done).
  cbv zeta in T. destruct T as (_ & Hc & _ & Ha & Hw). rewrite Hr in Hc. simpl in Hc.
  split_and!; [lia | done | done |]. rewrite Ha. apply Hw in Hs. by rewrite Hs.
Defined.

(** ** Delivery order across asynchronous handlers
    ([client/src/markdown/serial-dispatch.ts])

    Each dispatched message is a job whose handler runs when the promise [after]
    has settled; promise [0] is the resolved initial tail, promise [k + 1] the
    tail after job [k], which settles with the handler and never rejects. *)
Section Serial.
Context {Message : Type}.

Inductive job_status := JWaiting | JRunning | JSettled.
Record serial_job := { message : Message; after : nat; status : job_status }.

Record Dispatcher := { jobs : list serial_job; tail : nat; unexpected : list thrown }.

Definition createSerialDispatcher : Dispatcher := {| jobs := []; tail := 0; unexpected := [] |}.

Definition dispatchMessage (m : Message) (d : Dispatcher) : Dispatcher :=
  {| jobs := jobs d ++ [{| message := m; after := tail d; status := JWaiting |}];
     tail := S (length (jobs d)); unexpected := unexpected d |}.

Definition with_status (j : serial_job) (st : job_status) : serial_job :=
  {| message := message j; after := after j; status := st |}.

Definition settled (d : Dispatcher) (promise : nat) : Prop :=
  match promise with
  | O => True
  | S k => exists j, jobs d !! k = Some j /\ status j = JSettled
  end.

Inductive serial_step (d : Dispatcher) : Dispatcher -> Prop :=
| s_dispatch m : serial_step d (dispatchMessage m d)
| s_start k j : jobs d !! k = Some j -> status j = JWaiting -> settled d (after j) ->
    serial_step d {| jobs := <[k := with_status j JRunning]> (jobs d); tail := tail d;
                     unexpected := unexpected d |}
| s_settle k j (rejected : option thrown) : jobs d !! k = Some j -> status j = JRunning ->
    serial_step d {| jobs := <[k := with_status j JSettled]> (jobs d); tail := tail d;
                     unexpected := unexpected d ++ option_list rejected |}.

Inductive serial_reachable : Dispatcher -> Prop :=
| sr_init : serial_reachable createSerialDispatcher
| sr_step d d' : serial_reachable d -> serial_step d d' -> serial_reachable d'.

(** Jobs settled, at most one running, the others waiting. *)
Definition in_turn (l : list serial_job) : Prop :=
  exists a r w, l = a ++ r ++ w /\ (length r <= 1)%nat /\
    Forall (fun j => status j = JSettled) a /\ Forall (fun j => status j = JRunning) r /\
    Forall (fun j => status j = JWaiting) w.

Definition chained (d : Dispatcher) : Prop :=
  tail d = length (jobs d) /\ forall k j, jobs d !! k = Some j -> after j = k.

Lemma chained_alter (d : Dispatcher) k j st u :
  chained d -> jobs d !! k = Some j ->
  chained {| jobs := <[k := with_status j st]> (jobs d); tail := tail d; unexpected := u |}.
Proof.
  intros [Ht Ha] Hk. split; cbn; [by rewrite length_insert |].
  intros i x [(<- & <- & _) | [_ Hi]]%list_lookup_insert_Some; [exact (Ha k j Hk) | exact (Ha i x Hi)].
Qed.

(** The job at the border of the settled and the waiting ones. *)
Lemma in_turn_start a w k j :
  Forall (fun j => status j = JSettled) a -> Forall (fun j => status j = JWaiting) w ->
  (a ++ w) !! k = Some j -> status j = JWaiting ->
  (k = 0%nat \/ exists j', (a ++ w) !! (k - 1)%nat = Some j' /\ status j' = JSettled) ->
  k = length a /\ exists w', w = j :: w'.
Proof.
  intros Ha Hw Hk Hj Hp. rewrite Forall_forall in Ha. rewrite Forall_forall in Hw.
  assert (~ (k < length a)%nat) as Hge.
  { intros Hlt. rewrite lookup_app_l in Hk by done. apply list_elem_of_lookup_2 in Hk.
    specialize (Ha _ Hk). congruence. }
  rewrite lookup_app_r in Hk by lia. destruct (decide (k = length a)) as [-> | Hne].
  - split; [done |]. rewrite Nat.sub_diag in Hk. destruct w as [|x w']; [done |].
    injection Hk as ->. by exists w'.
  - destruct Hp as [-> | (j' & Hj' & Hs)]; [lia |]. rewrite lookup_app_r in Hj' by lia.
    apply list_elem_of_lookup_2 in Hj'. specialize (Hw _ Hj'). congruence.
Qed.

Lemma insert_middle {A} (a w : list A) x y : <[length a := y]> (a ++ x :: w) = a ++ y :: w.
Proof. rewrite insert_app_r_alt by lia. by rewrite Nat.sub_diag. Qed.

Lemma running_index a (j0 : serial_job) w k j :
  Forall (fun j => status j = JSettled) a -> Forall (fun j => status j = JWaiting) w ->
  (a ++ j0 :: w) !! k = Some j -> status j = JRunning -> k = length a /\ j = j0.
Proof.
  intros Ha Hw Hk Hj. rewrite Forall_forall in Ha. rewrite Forall_forall in Hw.
  destruct (Nat.lt_trichotomy k (length a)) as [Hlt | [-> | Hgt]].
  - rewrite lookup_app_l in Hk by done. apply list_elem_of_lookup_2 in Hk. specialize (Ha _ Hk). congruence.
  - rewrite lookup_app_r, Nat.sub_diag in Hk by lia. by injection Hk as ->.
  - rewrite lookup_app_r in Hk by lia. destruct (k - length a)%nat eqn:E; [lia |]. cbn in Hk.
    apply list_elem_of_lookup_2 in Hk. specialize (Hw _ Hk). congruence.
Qed.

Lemma serial_step_keeps d d' :
  serial_step d d' -> chained d -> in_turn (jobs d) -> chained d' /\ in_turn (jobs d').
Proof.
  intros [m | k j Hk Hj Hs | k j rej Hk Hj] Hc (a & r & w & E & Hr & Ha & Hrun & Hw).
  - destruct Hc as [Ht Hafter]. split.
    + split; cbn; [by rewrite length_app, Nat.add_1_r |].
      intros k j [[_ Hk] | [-> <-]]%lookup_snoc_Some; [by apply Hafter | done].
    + exists a, r, (w ++ [{| message := m; after := tail d; status := JWaiting |}]).
      split_and!; [cbn; rewrite E, <- !app_assoc; done | done..| apply Forall_app; auto].
  - split; [by apply chained_alter |]. destruct Hc as [_ Hafter]. rewrite (Hafter _ _ Hk) in Hs.
    assert (k = 0%nat \/ exists j', jobs d !! (k - 1)%nat = Some j' /\ status j' = JSettled) as Hp.
    { destruct k as [|k]; [by left | right]. cbn. rewrite Nat.sub_0_r. exact Hs. }
    cbn. rewrite E in *. destruct r as [|j0 [|]]; cbn in Hr; [| |lia].
    + cbn in *. destruct (in_turn_start a w k j Ha Hw Hk Hj Hp) as (-> & w' & ->).
      rewrite insert_middle. apply Forall_cons in Hw as [_ Hw].
      exists a, [with_status j JRunning], w'. split_and!; auto.
    + exfalso. apply Forall_cons in Hrun as [Hrun _]. cbn in *.
      rewrite Forall_forall in Ha. rewrite Forall_forall in Hw.
      destruct (Nat.lt_trichotomy k (length a)) as [Hlt | [-> | Hgt]].
      * rewrite lookup_app_l in Hk by done. apply list_elem_of_lookup_2 in Hk. specialize (Ha _ Hk). congruence.
      * rewrite lookup_app_r, Nat.sub_diag in Hk by lia. injection Hk as ->. congruence.
      * destruct Hp as [-> | (j' & Hj' & Hset)]; [lia |]. rewrite lookup_app_r in Hj' by lia.
        destruct (k - 1 - length a)%nat eqn:En; cbn in Hj'; [injection Hj' as ->; congruence |].
        apply list_elem_of_lookup_2 in Hj'. specialize (Hw _ Hj'). congruence.
  - split; [by apply chained_alter |]. cbn. rewrite E in *. destruct r as [|j0 [|]]; cbn in Hr; [| |lia].
    + exfalso. cbn in *. apply list_elem_of_lookup_2 in Hk. apply elem_of_app in Hk as [Hk | Hk].
      * rewrite Forall_forall in Ha. specialize (Ha _ Hk). congruence.
      * rewrite Forall_forall in Hw. specialize (Hw _ Hk). congruence.
    + cbn in *. destruct (running_index a j0 w k j Ha Hw Hk Hj) as [-> ->]. rewrite insert_middle.
      exists (a ++ [with_status j0 JSettled]), [], w. rewrite <- app_assoc. split_and!; auto.
      apply Forall_app. auto.
Qed.

(** Handlers run one at a time and in the order their messages were
    dispatched, whatever they throw: the jobs are always settled ones, then at
    most one running, then waiting ones, and when none runs the first waiting
    job can start. *)
Theorem handlers_run_in_turn d :
  serial_reachable d ->
  in_turn (jobs d) /\
  (Exists (fun j => status j = JWaiting) (jobs d) -> Forall (fun j => status j <> JRunning) (jobs d) ->
   exists k j, jobs d !! k = Some j /\ status j = JWaiting /\ settled d (after j)).
Proof.
  intros Hd. assert (chained d /\ in_turn (jobs d)) as [[_ Hc] Ht].
  { induction Hd as [|d d' _ IH Hs]; [|destruct IH; by eapply serial_step_keeps].
    split; [by split |]. exists [], [], []. cbn. split_and!; auto with lia. }
  split; [done |]. intros Hw Hr. destruct Ht as (a & r & w & E & _ & Ha & Hrun & Hwait).
  rewrite E in Hr. apply Forall_app in Hr as [_ [Hr _]%Forall_app].
  destruct r as [|j0 r]; [|apply Forall_cons in Hr as [? _]; apply Forall_cons in Hrun as [? _]; done].
  destruct w as [|j w].
  { rewrite E, !app_nil_r in Hw. exfalso. apply Exists_exists in Hw as (j & Hin & Hj).
    rewrite Forall_forall in Ha. specialize (Ha _ Hin). congruence. }
  assert (jobs d !! length a = Some j) as Hk by (rewrite E; cbn; by rewrite lookup_app_r, Nat.sub_diag by lia).
  exists (length a), j. apply Forall_cons in Hwait as [Hj _]. split_and!; [done..|].
  rewrite (Hc _ _ Hk). destruct (length a) as [|n] eqn:El; [done |]. cbn.
  assert (n < length a)%nat as Hn by lia. apply lookup_lt_is_Some_2 in Hn as [x Hx].
  exists x. split; [rewrite E; by apply lookup_app_l_Some |].
  rewrite Forall_forall in Ha. apply Ha. by eapply list_elem_of_lookup_2.
Qed.
End Serial.

(** Three messages; the first handler throws, the second is running. *)
Lemma handlers_run_in_turn_witness :
  in_turn [{| message := 1; after := 0; status := JSettled |};
           {| message := 2; after := 1; status := JRunning |};
           {| message := 3; after := 2; status := JWaiting |}].
Proof.
  pose (d3 := dispatchMessage 3 (dispatchMessage 2 (dispatchMessage 1 createSerialDispatcher))).
  assert (serial_reachable d3) as H3
    by (repeat (eapply sr_step; [|exact (s_dispatch _ _)]); exact sr_init).
  pose (j m a st := {| message := m; after := a; status := st |} : serial_job (Message := Z)).
  pose (d4 := {| jobs := [j 1 0%nat JRunning; j 2 1%nat JWaiting; j 3 2%nat JWaiting]; tail := 3; unexpected := [] |}).
  pose (d5 := {| jobs := [j 1 0%nat JSettled; j 2 1%nat JWaiting; j 3 2%nat JWaiting]; tail := 3; unexpected := [Falsy] |}).
  pose (d6 := {| jobs := [j 1 0%nat JSettled; j 2 1%nat JRunning; j 3 2%nat JWaiting]; tail := 3; unexpected := [Falsy] |}).
  assert (serial_reachable d4) as H4
    by exact (sr_step d3 d4 H3 (s_start d3 0 (j 1 0%nat JWaiting) eq_refl eq_refl I)).
  assert (serial_reachable d5) as H5
    by exact (sr_step d4 d5 H4 (s_settle d4 0 (j 1 0%nat JRunning) (Some Falsy) eq_refl eq_refl)).
  assert (serial_reachable d6) as H6
    by exact (sr_step d5 d6 H5 (s_start d5 1 (j 2 1%nat JWaiting) eq_refl eq_refl
               (ex_intro _ (j 1 0%nat JSettled) (conj eq_refl eq_refl)))).
  exact (proj1 (handlers_run_in_turn d6 H6)).
Defined.
