(* ===== verification/PreviewDom.v ===== *)
(** The keyed repainting of the preview ([client/src/markdown/preview.ts],
    [patchRange]): elements in a store, the container as the ordered list of its
    children, and the map from block keys to elements. *)

From S2P Require Import Prelude.

(** ** Elements *)

Record BlockPatch := {
  key : jstring; line : Z; sourceStart : Z; sourceEnd : Z;
  exactTextStart : option Z; html : option jstring }.

(** A block's element: the markup assigned to it and its data attributes. *)
Record Element := {
  e_key : jstring; e_html : jstring; e_line : Z; e_start : Z; e_end : Z; e_exact : option Z }.

Record Dom := mkDom {
  elements : gmap Z Element;
  container : list Z;
  nodes : list (jstring * Z);
  fresh : Z }.

#[export] Instance eta_dom : Eta (Dom) := fun s =>
  mkDom (elements s) (container s) (nodes s) (fresh s).
#[export] Instance set_dom_elements : SetField elements. Proof. solve_update. Defined.
#[export] Instance set_dom_container : SetField container. Proof. solve_update. Defined.
#[export] Instance set_dom_nodes : SetField nodes. Proof. solve_update. Defined.
#[export] Instance set_dom_fresh : SetField fresh. Proof. solve_update. Defined.

(** [parent.insertBefore(node, cursor)]: a node already there moves; without a
    cursor it goes to the end. *)
Fixpoint insert_at (x : Z) (cursor : Z) (l : list Z) : list Z :=
  match l with
  | [] => [x]
  | y :: r => if y =? cursor then x :: l else y :: insert_at x cursor r
  end.
Definition remove (x : Z) (l : list Z) : list Z := filter (fun y => y <> x) l.
Definition insertBefore (x : Z) (cursor : option Z) (l : list Z) : list Z :=
  match cursor with
  | Some c => insert_at x c (remove x l)
  | None => remove x l ++ [x]
  end.

Definition firstElementChild (l : list Z) : option Z := head l.
Fixpoint nextElementSibling (x : Z) (l : list Z) : option Z :=
  match l with
  | [] => None
  | y :: r => if y =? x then head r else nextElementSibling x r
  end.

Section Patch.
(** DOMPurify, as a function on markup. *)
Context (sanitize : jstring -> jstring).
Implicit Types (d : Dom) (b : BlockPatch).

Definition with_html (h : jstring) (e : Element) : Element :=
  {| e_key := e_key e; e_html := h; e_line := e_line e; e_start := e_start e; e_end := e_end e;
     e_exact := e_exact e |}.
Definition with_data b (e : Element) : Element :=
  {| e_key := e_key e; e_html := e_html e; e_line := line b; e_start := sourceStart b;
     e_end := sourceEnd b; e_exact := exactTextStart b |}.

(** The nodes whose keys are gone leave the container and the map. *)
Definition retire_stale (keys : list jstring) d : Dom * Z :=
  let stale := filter (fun kn => kn.1 ∉ keys) (nodes d) in
  (d <| container := filter (fun x => x ∉ stale.*2) (container d) |>
     <| nodes := filter (fun kn => kn.1 ∈ keys) (nodes d) |>, len stale).

(** One turn of the loop. [next] is the map being built: at the start of a pass
    a new one, else the map itself. *)
Record pass := { p_dom : Dom; p_cursor : option Z; p_next : list (jstring * Z); p_touched : Z }.

Definition lookup_node (new_map : bool) (p : pass) (k : jstring) : option Z :=
  mget (if new_map then nodes (p_dom p) else p_next p) k.

Definition patch_block (new_map : bool) (p : pass) b : pass :=
  let d := p_dom p in
  let '(d, node, touched) :=
    match lookup_node new_map p (key b) with
    | None =>
        let x := fresh d in
        let e := {| e_key := key b; e_html := sanitize (default [] (html b)); e_line := 0; e_start := 0;
                    e_end := 0; e_exact := None |} in
        (d <| elements := <[x := e]> (elements d) |> <| fresh := x + 1 |>, x, p_touched p + 1)
    | Some x =>
        match html b with
        | Some h => (d <| elements := alter (with_html (sanitize h)) x (elements d) |>, x, p_touched p + 1)
        | None => (d, x, p_touched p)
        end
    end in
  let d := d <| elements := alter (with_data b) node (elements d) |> in
  let '(d, cursor, touched) :=
    if bool_decide (p_cursor p = Some node) then (d, nextElementSibling node (container d), touched)
    else (d <| container := insertBefore node (p_cursor p) (container d) |>, p_cursor p, touched + 1) in
  {| p_dom := d; p_cursor := cursor; p_next := mset (p_next p) (key b) node; p_touched := touched |}.

Definition first_cursor (blocks : list BlockPatch) (start : Z) d : option Z :=
  let before :=
    if start =? 0 then firstElementChild (container d)
    else match mget (nodes d) (match at_index blocks (start - 1) with Some b => key b | None => [] end) with
         | Some x => nextElementSibling x (container d)
         | None => None
         end in
  match before with Some x => Some x | None => firstElementChild (container d) end.

Definition patchRange (blocks : list BlockPatch) (start end_ : Z) (retire : bool) d : Dom * Z :=
  let '(d, retired) := if retire then retire_stale (map key blocks) d else (d, 0) in
  let new_map := start =? 0 in
  let p := {| p_dom := d; p_cursor := first_cursor blocks start d;
              p_next := if new_map then [] else nodes d; p_touched := retired |} in
  let p := fold_left (patch_block new_map) (slice blocks start end_) p in
  let d := p_dom p in
  (d <| nodes := p_next p |>, p_touched p).

(** ** Idle painting of long documents *)

Definition FIRST_PAINT_BLOCKS : Z := 48.
Definition IDLE_PAINT_BLOCKS : Z := 40.

(** What [patch] leaves for idle time: the blocks and the offset of the closure
    [step], if a callback is scheduled. *)
Definition remainder : Type := option (list BlockPatch * Z).

Definition patch (blocks : list BlockPatch) d : Dom * Z * remainder :=
  if (len (nodes d) =? 0) && (FIRST_PAINT_BLOCKS <? len blocks) then
    let '(d, first) := patchRange blocks 0 FIRST_PAINT_BLOCKS false d in
    (d, first, Some (blocks, FIRST_PAINT_BLOCKS))
  else
    let '(d, touched) := patchRange blocks 0 (len blocks) true d in (d, touched, None).

(** The idle callback. *)
Definition remainder_step (blocks : list BlockPatch) (offset : Z) d : Dom * remainder :=
  let end_ := Z.min (offset + IDLE_PAINT_BLOCKS) (len blocks) in
  let d := (patchRange blocks offset end_ (end_ =? len blocks) d).1 in
  (d, if end_ <? len blocks then Some (blocks, end_) else None).

(** The preview as it is seen: keys and markup of the container's children. *)
Definition shown d : list (jstring * jstring) :=
  omap (fun x => (fun e => (e_key e, e_html e)) <$> elements d !! x) (container d).
End Patch.

(** ** Child lists *)

Lemma elem_of_remove x y l : y ∈ remove x l <-> y <> x /\ y ∈ l.
Proof. unfold remove. by rewrite list_elem_of_filter. Qed.

Lemma remove_absent x l : x ∉ l -> remove x l = l.
Proof.
  induction l as [|y l IH]; [done |]. rewrite not_elem_of_cons. intros [Hne Hl]. unfold remove in *.
  rewrite filter_cons, decide_True by done. by rewrite IH.
Qed.

Lemma remove_app x a b : remove x (a ++ b) = remove x a ++ remove x b.
Proof. apply filter_app. Qed.

Lemma remove_head x l : NoDup (x :: l) -> remove x (x :: l) = l.
Proof.
  intros [Hx _]%NoDup_cons. unfold remove. rewrite filter_cons, decide_False by (intros Hn; by apply Hn).
  by apply remove_absent.
Qed.

Lemma insert_at_app x c a b : c ∉ a -> insert_at x c (a ++ c :: b) = a ++ x :: c :: b.
Proof.
  induction a as [|y a IH]; cbn.
  - by rewrite Z.eqb_refl.
  - rewrite not_elem_of_cons. intros [Hne Ha]. destruct (Z.eqb_spec y c); [congruence |]. by rewrite IH.
Qed.

(** Putting a node in front of the cursor, which stands after the blocks done. *)
Lemma insertBefore_cursor x a rest :
  NoDup (a ++ rest) -> x ∉ a -> head rest <> Some x ->
  insertBefore x (head rest) (a ++ rest) = a ++ x :: remove x rest.
Proof.
  intros Hnd Ha Hh. unfold insertBefore. destruct rest as [|c rest]; cbn [head].
  - by rewrite app_nil_r, remove_absent.
  - rewrite remove_app, (remove_absent x a) by done.
    assert (c <> x) as Hc by (intros ->; done).
    assert (remove x (c :: rest) = c :: remove x rest) as ->
      by (unfold remove; by rewrite filter_cons, decide_True).
    rewrite insert_at_app; [done |]. apply NoDup_app in Hnd as (_ & Hd & _).
    intros Hin. apply (Hd c Hin). apply elem_of_cons. by left.
Qed.

Lemma nextElementSibling_app x a b : x ∉ a -> nextElementSibling x (a ++ x :: b) = head b.
Proof.
  induction a as [|y a IH]; cbn.
  - by rewrite Z.eqb_refl.
  - rewrite not_elem_of_cons. intros [Hne Ha]. destruct (Z.eqb_spec y x); [congruence | by apply IH].
Qed.

Lemma head_remove x rest : head rest <> Some x -> head (remove x rest) = head rest.
Proof.
  destruct rest as [|c rest]; [done |]. intros Hne. unfold remove.
  rewrite filter_cons, decide_True by (cbn in Hne; congruence). done.
Qed.

(** ** What a repaint shows *)

Section Exact.
Context (sanitize : jstring -> jstring).
Implicit Types (d : Dom) (b : BlockPatch).

(** Each key of the map has one element of its own, and the container holds
    exactly these elements. *)
Record dom_ok d : Prop := {
  do_keys : NoDup (nodes d).*1;
  do_ids : NoDup (nodes d).*2;
  do_container : NoDup (container d);
  do_children : forall x, x ∈ container d <-> x ∈ (nodes d).*2;
  do_elements : forall k x, (k, x) ∈ nodes d -> exists e, elements d !! x = Some e /\ e_key e = k;
  do_fresh : forall k x, (k, x) ∈ nodes d -> x < fresh d }.

(** The markup a key has in the preview, and what a block patch makes of it. *)
Definition markup d (k : jstring) : option jstring :=
  mget (nodes d) k ≫= fun x => e_html <$> elements d !! x.

Definition painted d b : jstring :=
  match html b with
  | Some h => sanitize h
  | None => default (sanitize []) (markup d (key b))
  end.

Definition element_for d b : Element :=
  {| e_key := key b; e_html := painted d b; e_line := line b; e_start := sourceStart b;
     e_end := sourceEnd b; e_exact := exactTextStart b |}.

Lemma ids_apart (m : list (jstring * Z)) k k' x : NoDup m.*2 -> (k, x) ∈ m -> (k', x) ∈ m -> k = k'.
Proof.
  intros Hnd Hk Hk'. induction m as [|[k0 x0] m IH]; [by apply not_elem_of_nil in Hk |].
  csimpl in *. apply NoDup_cons in Hnd as [Hx Hnd].
  apply elem_of_cons in Hk as [[E1 E2]%pair_equal_spec | Hk];
    apply elem_of_cons in Hk' as [[E1' E2']%pair_equal_spec | Hk']; subst.
  - done.
  - destruct Hx. apply list_elem_of_fmap. by exists (k', x0).
  - destruct Hx. apply list_elem_of_fmap. by exists (k, x0).
  - by apply IH.
Qed.

(** The state after the blocks [bs] of a pass over the map of [d]. *)
Record passed d (bs : list BlockPatch) (p : pass) : Prop := {
  pa_next : (p_next p).*1 = map key bs;
  pa_nodes : nodes (p_dom p) = nodes d;
  pa_container : exists rest, container (p_dom p) = (p_next p).*2 ++ rest /\ p_cursor p = head rest /\
    (forall x, x ∈ rest <-> exists k, (k, x) ∈ nodes d /\ k ∉ map key bs);
  pa_nodup : NoDup (container (p_dom p));
  pa_done : Forall2 (fun b x => elements (p_dom p) !! x = Some (element_for d b)) bs (p_next p).*2;
  pa_left : forall k x, (k, x) ∈ nodes d -> k ∉ map key bs -> elements (p_dom p) !! x = elements d !! x;
  pa_fresh : forall x, x ∈ (p_next p).*2 \/ x ∈ (nodes d).*2 -> x < fresh (p_dom p) }.

(** One turn, as what it does to the element, the container and the map. *)
Lemma patch_block_spec p b :
  let d := p_dom p in
  let node := match mget (nodes d) (key b) with Some x => x | None => fresh d end in
  let p' := patch_block sanitize true p b in
  nodes (p_dom p') = nodes d /\
  fresh (p_dom p') = (match mget (nodes d) (key b) with Some _ => fresh d | None => fresh d + 1 end) /\
  p_next p' = mset (p_next p) (key b) node /\
  (forall x, x <> node -> elements (p_dom p') !! x = elements d !! x) /\
  (mget (nodes d) (key b) = None \/ (exists e, elements d !! node = Some e /\ e_key e = key b) ->
   elements (p_dom p') !! node = Some (element_for d b)) /\
  (container (p_dom p'), p_cursor p') =
    (if bool_decide (p_cursor p = Some node) then (container d, nextElementSibling node (container d))
     else (insertBefore node (p_cursor p) (container d), p_cursor p)).
Proof.
  cbv zeta. unfold patch_block, lookup_node, element_for, painted, markup.
  destruct (mget (nodes (p_dom p)) (key b)) as [x|] eqn:E; [destruct (html b) as [h|] eqn:Eh|];
    (destruct (bool_decide (p_cursor p = Some _)); cbn; split_and!; try done);
    try (intros y Hy; by rewrite ?lookup_alter_ne, ?lookup_insert_ne by done);
    try (intros [? | (e & He & Hk)]; [done |]; rewrite !lookup_alter_eq, He; simpl;
      unfold with_data, with_html; simpl; by rewrite Hk).
  all: intros _; rewrite lookup_alter_eq, lookup_insert_eq; unfold with_data; simpl; by destruct (html b).
Qed.

Lemma passed_step d bs b p :
  dom_ok d -> passed d bs p -> key b ∉ map key bs ->
  passed d (bs ++ [b]) (patch_block sanitize true p b).
Proof.
  intros Hd [Hn Hnodes (rest & Hc & Hcur & Hrest) Hnd Hdone Hleft Hfresh] Hb.
  assert (mget (p_next p) (key b) = None) as Hnew by (apply mget_None_keys; by rewrite Hn).
  destruct (patch_block_spec p b) as (S1 & S2 & S3 & S4 & S5 & S6). rewrite Hnodes in *.
  set (node := match mget (nodes d) (key b) with Some x => x | None => fresh (p_dom p) end) in *.
  set (p' := patch_block sanitize true p b) in *.
  rewrite Hc in Hnd. apply NoDup_app in Hnd as (Hnd1 & Hdis & Hnd2).
  assert (mget (nodes d) (key b) = Some node /\ node ∈ rest \/
          mget (nodes d) (key b) = None /\ node = fresh (p_dom p) /\ (node ∉ rest) /\ (node ∉ (nodes d).*2)) as Hcase.
  { unfold node. destruct (mget (nodes d) (key b)) as [x|] eqn:E.
    - left. apply mget_In in E; [|apply Hd]. split; [done |]. apply Hrest. by exists (key b).
    - right. assert (fresh (p_dom p) ∉ (nodes d).*2) as Hf.
      { intros Hx. specialize (Hfresh _ (or_intror Hx)). lia. }
      split_and!; try done. intros (k & Hk & _)%Hrest. apply Hf, list_elem_of_fmap. by exists (k, fresh (p_dom p)). }
  assert (node ∉ (p_next p).*2) as Hnode.
  { intros Hx. destruct Hcase as [[_ Hr] | (_ & Hr & _)]; [by apply (Hdis node) |].
    specialize (Hfresh _ (or_introl Hx)). lia. }
  rewrite mset_new in S3 by done.
  assert (container (p_dom p') = (p_next p).*2 ++ node :: remove node rest /\
          p_cursor p' = head (remove node rest)) as [Hc' Hcur'].
  { rewrite Hcur, Hc in S6. destruct (decide (head rest = Some node)) as [Hh | Hh].
    - rewrite bool_decide_true in S6 by done. destruct rest as [|c rest]; [done |]. injection Hh as ->.
      rewrite nextElementSibling_app, remove_head in * by done. by apply pair_equal_spec in S6.
    - rewrite bool_decide_false in S6 by done.
      rewrite insertBefore_cursor, head_remove in * by (done || (apply NoDup_app; done)).
      by apply pair_equal_spec in S6. }
  split.
  - by rewrite S3, fmap_app, Hn, map_app.
  - done.
  - exists (remove node rest). rewrite S3, fmap_app, <- app_assoc. split_and!; [done | done |].
    intros x. rewrite elem_of_remove, Hrest. split.
    + intros (Hx & k & Hk & Hkb). exists k. split; [done |].
      rewrite map_app, not_elem_of_app. split; [done |]. intros ->%list_elem_of_singleton.
      apply mget_In in Hk; [|apply Hd]. destruct Hcase as [[E _] | (E & _)]; congruence.
    + intros (k & Hk & Hkb). rewrite map_app, not_elem_of_app in Hkb. destruct Hkb as [Hkb Hkb'].
      split; [|by exists k]. intros ->. destruct Hcase as [[E _] | (_ & _ & _ & Hni)].
      * apply mget_In in E; [|apply Hd]. apply Hkb', list_elem_of_singleton. eapply ids_apart; [apply Hd | done..].
      * apply Hni, list_elem_of_fmap. by exists (k, node).
  - rewrite Hc'. apply NoDup_app. split_and!; [done | |].
    + intros x Hx [-> | [_ Hr]%elem_of_remove]%elem_of_cons; [done | by apply (Hdis x)].
    + apply NoDup_cons. split; [|by apply NoDup_filter]. by intros [? _]%elem_of_remove.
  - rewrite S3, fmap_app. apply Forall2_app.
    + rewrite Forall2_lookup in Hdone |- *. intros i. specialize (Hdone i).
      destruct (bs !! i), ((p_next p).*2 !! i) as [x|] eqn:Ex; inversion Hdone as [? ? He|]; subst; constructor.
      rewrite S4; [done |]. intros ->. by apply Hnode; eapply list_elem_of_lookup_2.
    + constructor; [|done].
      assert (element_for (p_dom p) b = element_for d b) as <-.
      { unfold element_for, painted, markup. rewrite Hnodes.
        destruct (mget (nodes d) (key b)) as [x|] eqn:E; [|done]. cbn.
        apply mget_In in E; [|apply Hd]. by rewrite (Hleft (key b)). }
      apply S5. destruct Hcase as [[E Hr] | [E _]]; [right | by left].
      apply mget_In in E; [|apply Hd]. destruct (do_elements d Hd _ _ E) as (e & He & Hk).
      exists e. split; [|done]. by rewrite (Hleft (key b)).
  - intros k x Hk Hkb. rewrite map_app, not_elem_of_app in Hkb. destruct Hkb as [Hkb Hkb'].
    rewrite S4; [by apply (Hleft k) |]. intros ->. destruct Hcase as [[E _] | (_ & _ & _ & Hni)].
    + apply mget_In in E; [|apply Hd]. apply Hkb', list_elem_of_singleton. eapply ids_apart; [apply Hd | done..].
    + apply Hni, list_elem_of_fmap. by exists (k, node).
  - intros x. rewrite S2, S3, fmap_app, elem_of_app. intros Hx.
    assert (x <> node -> x < fresh (p_dom p)) as Hold.
    { intros Hne. apply Hfresh. destruct Hx as [[? | Hx%list_elem_of_singleton] | ?]; auto. done. }
    destruct (decide (x = node)) as [-> | Hne].
    + destruct Hcase as [[E _] | (E & -> & _)]; rewrite E; [|lia].
      apply mget_In in E; [|apply Hd]. apply Hfresh. right. apply list_elem_of_fmap. by exists (key b, node).
    + specialize (Hold Hne). destruct (mget (nodes d) (key b)); lia.
Qed.

Lemma passed_fold d bs rest p :
  dom_ok d -> passed d bs p -> NoDup (map key (bs ++ rest)) ->
  passed d (bs ++ rest) (fold_left (patch_block sanitize true) rest p).
Proof.
  intros Hd. revert bs p. induction rest as [|b rest IH]; intros bs p Hp Hnd; cbn [fold_left].
  - by rewrite app_nil_r.
  - rewrite cons_middle, app_assoc in *. apply IH; [|done]. apply passed_step; [done..|].
    rewrite !map_app in Hnd. apply NoDup_app in Hnd as [Hnd _]. apply NoDup_app in Hnd as (_ & Hdis & _).
    intros Hin. apply (Hdis (key b) Hin). by apply elem_of_cons; left.
Qed.

Lemma retire_stale_ok keys d :
  dom_ok d -> dom_ok (retire_stale keys d).1 /\
  (forall k, k ∈ (nodes (retire_stale keys d).1).*1 -> k ∈ keys) /\
  (forall k, k ∈ keys -> markup (retire_stale keys d).1 k = markup d k).
Proof.
  intros [Hk Hi Hc Hch He Hf].
  set (kept := filter (fun kn : jstring * Z => kn.1 ∈ keys) (nodes d)).
  set (stale := filter (fun kn : jstring * Z => kn.1 ∉ keys) (nodes d)).
  assert (forall k x, (k, x) ∈ kept <-> (k, x) ∈ nodes d /\ k ∈ keys) as Hkept
    by (intros k x; unfold kept; rewrite list_elem_of_filter; cbn; tauto).
  assert (forall k x, (k, x) ∈ stale <-> (k, x) ∈ nodes d /\ k ∉ keys) as Hstale
    by (intros k x; unfold stale; rewrite list_elem_of_filter; cbn; tauto).
  assert (kept.*1 `sublist_of` (nodes d).*1) as Hs1 by (apply fmap_sublist, sublist_filter).
  assert (kept.*2 `sublist_of` (nodes d).*2) as Hs2 by (apply fmap_sublist, sublist_filter).
  set (d1 := (retire_stale keys d).1).
  assert (nodes d1 = kept) as E1 by done. assert (elements d1 = elements d) as E2 by done.
  assert (container d1 = filter (fun x => x ∉ stale.*2) (container d)) as E3 by done.
  assert (fresh d1 = fresh d) as E4 by done. clearbody d1.
  split_and!.
  - split; rewrite ?E1, ?E2, ?E3, ?E4.
    + exact (sublist_NoDup _ _ Hk Hs1).
    + exact (sublist_NoDup _ _ Hi Hs2).
    + by apply NoDup_filter.
    + intros x. rewrite list_elem_of_filter, Hch, !list_elem_of_fmap. split.
      * intros [Hns ([k y] & -> & Hin)]. cbn in *. exists (k, y). split; [done |]. apply Hkept.
        split; [done |]. destruct (decide (k ∈ keys)) as [|Hnk]; [done |].
        destruct Hns. exists (k, y). split; [done |]. by apply Hstale.
      * intros ([k y] & -> & [Hin Hkk]%Hkept). cbn. split; [|by exists (k, y)].
        intros ([k' y'] & E & [Hin' Hk']%Hstale). cbn in E. subst y'.
        destruct Hk'. by rewrite <- (ids_apart (nodes d) k k' y).
    + intros k x [Hin _]%Hkept. by apply He.
    + intros k x [Hin _]%Hkept. by eapply Hf.
  - rewrite E1. intros k ([k' x] & -> & [_ Hin]%Hkept)%list_elem_of_fmap. done.
  - intros k Hin. unfold markup. rewrite E1, E2. f_equal.
    destruct (mget (nodes d) k) as [x|] eqn:E.
    + apply mget_In in E; [|done]. apply mget_In; [exact (sublist_NoDup _ _ Hk Hs1) |]. by apply Hkept.
    + apply mget_None_keys. apply mget_None_keys in E. intros ([k' x] & -> & [Hin' _]%Hkept)%list_elem_of_fmap.
      apply E, list_elem_of_fmap. by exists (k', x).
Qed.

Lemma elements_in_order (m : gmap Z Element) (f : BlockPatch -> Element) bs ids :
  Forall2 (fun b x => m !! x = Some (f b)) bs ids ->
  map (fun x => m !! x) ids = map (fun b => Some (f b)) bs.
Proof. induction 1 as [|b x bs ids Hx _ IH]; [done |]. cbn [map]. by rewrite Hx, IH. Qed.

(** A full repaint shows exactly the blocks it was given, in their order:
    every block has one element with its markup - the one sent, the one the
    preview already had under this key, or nothing - and its line and source
    offsets; elements of other blocks are gone. *)
Lemma repaint_exact blocks d :
  dom_ok d -> NoDup (map key blocks) ->
  let d' := (patchRange sanitize blocks 0 (len blocks) true d).1 in
  dom_ok d' /\ (nodes d').*1 = map key blocks /\ container d' = (nodes d').*2 /\
  map (fun x => elements d' !! x) (container d') = map (fun b => Some (element_for d b)) blocks.
Proof.
  intros Hd Hnd. unfold patchRange. rewrite slice_full.
  destruct (retire_stale_ok (map key blocks) d Hd) as (Hd1 & Hkeys & Hmark).
  destruct (retire_stale (map key blocks) d) as [d1 n]. cbn [fst] in *.
  assert (forall b, b ∈ blocks -> element_for d1 b = element_for d b) as Helem.
  { intros b Hb. unfold element_for, painted. rewrite Hmark; [done |]. apply list_elem_of_fmap. by exists b. }
  set (p0 := {| p_dom := d1; p_cursor := _; p_next := _; p_touched := n |}).
  assert (passed d1 [] p0) as H0.
  { split; cbn; try done; [|by apply Hd1 |].
    - exists (container d1). split_and!; [done | unfold first_cursor, firstElementChild; cbn; by destruct (container d1) |].
      intros x. rewrite (do_children d1 Hd1), list_elem_of_fmap. split.
      + intros ([k y] & -> & Hin). exists k. split; [done | apply not_elem_of_nil].
      + intros (k & Hin & _). by exists (k, x).
    - intros x [Hx | Hx]; [by apply not_elem_of_nil in Hx |].
      apply list_elem_of_fmap in Hx as ([k y] & -> & Hin). by eapply (do_fresh d1). }
  pose proof (passed_fold d1 [] blocks p0 Hd1 H0 Hnd) as [Hn Hnodes (rest & Hc & _ & Hrest) Hndc Hdone _ Hfr].
  cbn [app] in *. change (0 =? 0) with true. set (p := fold_left _ blocks p0) in *.
  assert (rest = []) as ->.
  { destruct rest as [|x rest]; [done |]. exfalso.
    assert (x ∈ x :: rest) as (k & Hin & Hk)%Hrest by (by apply elem_of_cons; left).
    apply Hk, Hkeys, list_elem_of_fmap. by exists (k, x). }
  rewrite app_nil_r in Hc. rewrite Hc in Hndc. cbn [fst].
  split_and!; [| exact Hn | exact Hc |].
  - split; cbn; [by rewrite Hn | done | by rewrite Hc | by rewrite Hc | |].
    + intros k x Hin. apply list_elem_of_lookup_1 in Hin as [i Hi].
      assert ((p_next p).*1 !! i = Some k) as Hk by (by rewrite list_lookup_fmap, Hi).
      assert ((p_next p).*2 !! i = Some x) as Hx by (by rewrite list_lookup_fmap, Hi).
      rewrite Hn, list_lookup_fmap in Hk. destruct (blocks !! i) as [b|] eqn:Eb; [|done].
      injection Hk as <-. exists (element_for d1 b). split; [|done]. by eapply (Forall2_lookup_lr _ _ _ _ _ _ Hdone).
    + intros k x Hin. apply Hfr. left. apply list_elem_of_fmap. by exists (k, x).
  - cbn. rewrite Hc, (elements_in_order _ _ _ _ Hdone). apply map_ext_in. intros b Hb.
    f_equal. by apply Helem, list_elem_of_In.
Qed.
(** Walking over blocks that are all there, in order and unchanged. *)
Lemma walk_unchanged bs ids a p :
  NoDup (a ++ ids) -> container (p_dom p) = a ++ ids -> p_cursor p = head ids ->
  Forall (fun b => html b = None) bs ->
  Forall2 (fun b x => mget (nodes (p_dom p)) (key b) = Some x) bs ids ->
  let p' := fold_left (patch_block sanitize true) bs p in
  p_touched p' = p_touched p /\ container (p_dom p') = container (p_dom p).
Proof.
  intros Hnd Hc Hcur Hh Hm. revert ids a p Hnd Hc Hcur Hm Hh.
  induction bs as [|b bs IH]; intros ids a p Hnd Hc Hcur Hm Hh; [done |].
  inversion Hm as [|? x ? ids' Hx Hm']; subst. apply Forall_cons in Hh as [Hb Hh].
  cbn [fold_left]. set (p1 := patch_block sanitize true p b).
  assert (p1 = {| p_dom := (p_dom p) <| elements := alter (with_data b) x (elements (p_dom p)) |>;
                  p_cursor := head ids'; p_next := mset (p_next p) (key b) x; p_touched := p_touched p |}) as E1.
  { unfold p1, patch_block, lookup_node. rewrite Hx, Hb, Hcur, bool_decide_true by done. cbn.
    rewrite Hc, nextElementSibling_app; [done |]. apply NoDup_app in Hnd as (_ & Hdis & _).
    intros Hin. apply (Hdis x Hin). by apply elem_of_cons; left. }
  destruct (IH ids' (a ++ [x]) p1) as [E2 E3]; [by rewrite ?E1, <- ?app_assoc..|done|].
  rewrite E2, E3. by rewrite E1.
Qed.

Lemma in_order_keys (m m' : list (jstring * Z)) :
  NoDup m.*1 -> (forall kn, kn ∈ m' -> kn ∈ m) -> forall bs, m'.*1 = map key bs ->
  Forall2 (fun b x => mget m (key b) = Some x) bs m'.*2.
Proof.
  intros Hnd. induction m' as [|[k x] m' IH]; intros Hin [|b bs] E; try done.
  csimpl in *. injection E as -> E. constructor.
  - apply mget_In; [done |]. apply Hin. by apply elem_of_cons; left.
  - apply IH; [|done]. intros kn Hkn. apply Hin. by apply elem_of_cons; right.
Qed.

(** Unchanged blocks cost nothing: repainting the blocks that are already
    there, in the same order and without new markup, moves, inserts and removes
    no element. *)
Theorem unchanged_blocks_cost_nothing blocks d :
  dom_ok d -> container d = (nodes d).*2 -> (nodes d).*1 = map key blocks ->
  Forall (fun b => html b = None) blocks ->
  let '(d', touched) := patchRange sanitize blocks 0 (len blocks) true d in
  touched = 0 /\ container d' = container d.
Proof.
  intros Hd Hc Hk Hh. unfold patchRange. rewrite slice_full.
  assert (retire_stale (map key blocks) d = (d, 0)) as ->.
  { unfold retire_stale. rewrite <- Hk.
    assert (forall l, (forall kn, kn ∈ l -> kn ∈ nodes d) ->
      filter (fun kn : jstring * Z => kn.1 ∈ (nodes d).*1) l = l /\
      filter (fun kn : jstring * Z => kn.1 ∉ (nodes d).*1) l = []) as Hf.
    { induction l as [|[k x] l IH]; intros Hl; [done |]. rewrite !filter_cons. cbn.
      assert (k ∈ (nodes d).*1) by (apply list_elem_of_fmap; exists (k, x); split; [done |]; apply Hl, elem_of_cons; by left).
      rewrite decide_True, decide_False by (done || tauto).
      destruct IH as [-> ->]; [|done]. intros kn Hkn. apply Hl. by apply elem_of_cons; right. }
    destruct (Hf (nodes d)) as [-> ->]; [done |]. cbn.
    assert (filter (fun x : Z => x ∉ []) (container d) = container d) as ->; [|by destruct d].
    generalize (container d). induction l as [|x l IH]; [done |].
    rewrite filter_cons, decide_True by apply not_elem_of_nil. by rewrite IH. }
  change (0 =? 0) with true. set (p0 := {| p_dom := d; p_cursor := _; p_next := _; p_touched := 0 |}).
  destruct (walk_unchanged blocks (nodes d).*2 [] p0) as [Et Ec]; try done.
  - apply Hd.
  - cbn. unfold first_cursor, firstElementChild. cbn. rewrite Hc. by destruct ((nodes d).*2).
  - apply in_order_keys; [apply Hd | done | done].
Qed.
End Exact.

(** ** Runs *)

Definition empty_dom : Dom := mkDom ∅ [] [] 1.

Lemma empty_dom_ok : dom_ok empty_dom.
Proof.
  split; cbn; try constructor; try done; intros; exfalso; by eapply not_elem_of_nil.
Qed.

(** A block named by one unit. *)
Definition demo_block (i : Z) (h : option jstring) : BlockPatch :=
  {| key := [i]; line := i; sourceStart := i; sourceEnd := i + 1; exactTextStart := None; html := h |}.

Definition demo_first : list BlockPatch := [demo_block 1 (Some [65]); demo_block 2 (Some [66])].
Definition demo_second : list BlockPatch :=
  [demo_block 3 (Some [67]); demo_block 2 None; demo_block 1 (Some [68])].

Definition demo_dom : Dom :=
  mkDom {[ 1 := {| e_key := [1]; e_html := [65]; e_line := 1; e_start := 1; e_end := 2; e_exact := None |};
           2 := {| e_key := [2]; e_html := [66]; e_line := 2; e_start := 2; e_end := 3; e_exact := None |} ]}
    [1; 2] [([1], 1); ([2], 2)] 3.

Lemma demo_dom_ok : dom_ok demo_dom.
Proof.
  split; cbn.
  - apply (bool_decide_eq_true _). vm_compute. reflexivity.
  - apply (bool_decide_eq_true _). vm_compute. reflexivity.
  - apply (bool_decide_eq_true _). vm_compute. reflexivity.
  - done.
  - intros k x [[-> ->]%pair_equal_spec | [[-> ->]%pair_equal_spec | []%not_elem_of_nil]%elem_of_cons]%elem_of_cons;
      eexists; split; reflexivity.
  - intros k x [[-> ->]%pair_equal_spec | [[-> ->]%pair_equal_spec | []%not_elem_of_nil]%elem_of_cons]%elem_of_cons; lia.
Qed.

Lemma repaint_exact_witness :
  let d' := (patchRange id demo_second 0 (len demo_second) true demo_dom).1 in
  map (fun x => e_html <$> elements d' !! x) (container d') = [Some [67]; Some [66]; Some [68]].
Proof.
  cbv zeta. destruct (repaint_exact id demo_second demo_dom demo_dom_ok) as (_ & _ & _ & H).
  { apply (bool_decide_eq_true _). vm_compute. reflexivity. }
  apply (f_equal (map (fmap e_html))) in H. rewrite !map_map in H. rewrite H. vm_compute. reflexivity.
Defined.

Lemma unchanged_blocks_cost_nothing_witness :
  (patchRange id [demo_block 1 None; demo_block 2 None] 0 2 true demo_dom).2 = 0.
Proof.
  pose proof (unchanged_blocks_cost_nothing id [demo_block 1 None; demo_block 2 None] demo_dom demo_dom_ok
    eq_refl eq_refl ltac:(repeat constructor)) as T.
  change (len [demo_block 1 None; demo_block 2 None]) with 2 in T.
  destruct (patchRange id [demo_block 1 None; demo_block 2 None] 0 2 true demo_dom) as [d' t]. by destruct T.
Defined.

(** ** Two defects of the first paint *)

Definition fifty (h : Z -> option jstring) : list BlockPatch := map (fun i => demo_block i (h i)) (seqZ 0 50).
Definition first_paint : Dom := (patch id (fifty (fun i => Some [i])) empty_dom).1.1.

(** The remainder of a long document is inserted in front of what the first
    paint inserted: the last node of the container has no next sibling, and the
    cursor falls back to the first child. *)
Example long_document_misordered :
  map fst (shown (remainder_step id (fifty (fun i => Some [i])) FIRST_PAINT_BLOCKS first_paint).1)
  = [[48]; [49]] ++ map (fun i => [i]) (seqZ 0 48).
Proof. vm_compute. reflexivity. Qed.

(** A render that arrives before the remainder is painted cancels it; the
    worker takes the unpainted blocks for present and sends no markup, so they
    come out empty. *)
Example interrupted_first_paint_blank :
  List.filter (fun kh => bool_decide (kh.2 = [])) (shown (patch id (fifty (fun _ => None)) first_paint).1.1)
  = [([48], []); ([49], [])].
Proof. vm_compute. reflexivity. Qed.
