(* ===== verification/Hoare.v ===== *)
(** Hoare triples for methods that mutate their object and can throw ([SE] of
    the prelude), with a postcondition for each way out. *)

From S2P Require Import Prelude.

Section Triples.
Context {S : Type}.
Implicit Types (P : S -> Prop) (s : S).

(** From a state of [P], [m] returns with [Q] or throws in a state of [E]. *)
Definition triple {A} P (m : SE S A) (Q : A -> S -> Prop) (E : S -> Prop) : Prop :=
  forall s, P s -> match m s with (s', Ok a) => Q a s' | (s', Throw _) => E s' end.

Lemma triple_ret {A} P (a : A) Q E : (forall s, P s -> Q a s) -> triple P (mret a) Q E.
Proof. intros H s Hs. by apply H. Qed.

Lemma triple_bind {A B} P (m : SE S A) (f : A -> SE S B) R Q E :
  triple P m R E -> (forall a, triple (R a) (f a) Q E) -> triple P (m ≫= f) Q E.
Proof.
  intros Hm Hf s Hs. specialize (Hm s Hs). unfold mbind, SE_bind.
  destruct (m s) as [s' [a | e]]; [by apply Hf | done].
Qed.

Lemma triple_catch {A} P (m : SE S A) h R Q E :
  triple P m Q R -> (forall e, triple R (h e) Q E) -> triple P (se_catch m h) Q E.
Proof.
  intros Hm Hh s Hs. specialize (Hm s Hs). unfold se_catch. destruct (m s) as [s' [a | e]]; [done | by apply Hh].
Qed.

Lemma triple_get P (Q : S -> S -> Prop) E : (forall s, P s -> Q s s) -> triple P se_get Q E.
Proof. intros H s Hs. by apply H. Qed.

Lemma triple_modify P (f : S -> S) (Q : unit -> S -> Prop) E :
  (forall s, P s -> Q tt (f s)) -> triple P (se_modify f) Q E.
Proof. intros H s Hs. by apply H. Qed.

Lemma triple_lift {A} P (r : res A) (Q : A -> S -> Prop) (E : S -> Prop) :
  (forall s a, P s -> r = Ok a -> Q a s) -> (forall s, P s -> E s) -> triple P (se_lift r) Q E.
Proof. intros HQ HE s Hs. unfold se_lift. destruct r as [a | e]; [by apply HQ | by apply HE]. Qed.

Lemma triple_weaken {A} P P' (m : SE S A) Q Q' E E' :
  triple P' m Q' E' -> (forall s, P s -> P' s) -> (forall a s, Q' a s -> Q a s) ->
  (forall s, E' s -> E s) -> triple P m Q E.
Proof.
  intros Hm HP HQ HE s Hs. specialize (Hm s (HP s Hs)). destruct (m s) as [s' [a | e]]; auto.
Qed.

Lemma triple_if {A} P (b : bool) (m n : SE S A) Q E :
  (b = true -> triple P m Q E) -> (b = false -> triple P n Q E) -> triple P (if b then m else n) Q E.
Proof. destruct b; auto. Qed.

(** Reading the state: what follows may depend on any state of [P]. *)
Lemma triple_get_bind {A} P (f : S -> SE S A) Q E :
  (forall s, P s -> triple P (f s) Q E) -> triple P (se_get ≫= f) Q E.
Proof. intros H s Hs. exact (H s Hs s Hs). Qed.

Lemma triple_get_exact {A} P (f : S -> SE S A) Q E :
  (forall s, P s -> triple (fun x => x = s) (f s) Q E) -> triple P (se_get ≫= f) Q E.
Proof. intros H s Hs. exact (H s Hs s eq_refl). Qed.

Lemma triple_modify_bind {A} P P' (f : S -> S) (k : unit -> SE S A) Q E :
  (forall s, P s -> P' (f s)) -> triple P' (k tt) Q E -> triple P (se_modify f ≫= k) Q E.
Proof. intros Hf Hk s Hs. exact (Hk (f s) (Hf s Hs)). Qed.

Lemma triple_lift_bind {A B} P (r : res A) (k : A -> SE S B) Q (E : S -> Prop) :
  (forall s, P s -> E s) -> (forall a, r = Ok a -> triple P (k a) Q E) ->
  triple P (se_lift r ≫= k) Q E.
Proof.
  intros HE Hk s Hs. unfold mbind, SE_bind, se_lift. destruct r as [a | e]; [by apply Hk | by apply HE].
Qed.
End Triples.
