(* ===== verification/MarkdownWorker.v ===== *)
(** The Markdown worker ([client/src/workers/markdown.worker.ts]): one message
    at a time against the text, the block cache and the set of keys it believes
    the page holds. The parser and the renderer are arguments. *)

From Stdlib Require Import QArith.
From S2P Require Import Prelude.
From S2P Require Import Bytes.
From S2P Require Import Regex.
From S2P Require Import TextChange.
From S2P Require Import SourceBlocks.
From S2P Require Import PreviewDom.
From S2P Require Import Hoare.

#[local] Open Scope Z_scope.

(** ** Messages ([client/src/markdown/types.ts]) *)

Inductive RenderRequest :=
| RenderText (seq : Z) (text : jstring)
| RenderPatch (request : PatchRequest)
| RenderReset.

Inductive parse_mode := Full | Incremental | Failed.

Inductive RenderResponse :=
| Rendered (seq : Z) (generation : jstring) (blocks : list BlockPatch) (headings : list Heading)
    (mode : parse_mode) (dirty bytes chars : Z)
| RenderResync (seq : Z) (generation : jstring) (actualChars : Z) (reason : resync_reason).

Definition response_seq (r : RenderResponse) : Z :=
  match r with Rendered s _ _ _ _ _ _ _ => s | RenderResync s _ _ _ => s end.
Definition response_generation (r : RenderResponse) : jstring :=
  match r with Rendered _ g _ _ _ _ _ _ => g | RenderResync _ g _ _ => g end.

(** ** What a text asks for *)

(** [/(^|[^\\])\$/m] *)
Definition MATH_HINT : regex :=
  seq [Group 1 (Alt (At_start true) (Any_of (fun u => negb (u =? 92)))); unit_ 36].

(** A fence at the start of a line, then a word. *)
Definition FENCE_LANGUAGE_HINT : regex :=
  seq [At_start true; between 0 3 SPACE; Alt (at_least 3 (unit_ 96)) (at_least 3 (unit_ 126));
       star (Any_of white);
       Group 1 (seq [Any_of letter; star (Any_of (fun u => word_unit u || one_of (lit "+-") u))])].

Definition HIGHLIGHT_LANGUAGES : list jstring := map lit
  [ "bash"; "sh"; "zsh"; "shell"; "console"; "c"; "cpp"; "csharp"; "css"; "diff";
    "dockerfile"; "go"; "graphql"; "ini"; "toml"; "java"; "javascript"; "js"; "mjs";
    "cjs"; "node"; "json"; "kotlin"; "lua"; "markdown"; "php"; "python"; "py"; "ruby";
    "rust"; "rs"; "scss"; "sql"; "swift"; "typescript"; "ts"; "tsx"; "jsx"; "xml";
    "html"; "svg"; "vue"; "yaml"; "yml" ]%string.

(** [toLowerCase()] on the ASCII words the expression captures. *)
Definition ascii_lower (s : jstring) : jstring :=
  map (fun u => if (65 <=? u) && (u <=? 90) then u + 32 else u) s.

(** [text.matchAll(r)] for an expression that never matches the empty string. *)
Fixpoint match_all (fuel : nat) (s : jstring) (p : nat) (r : regex) : list (nat * nat * captures) :=
  match fuel with
  | O => []
  | S fuel =>
      match exec_from s (length s - p) p r with
      | Some (a, b, c) => (a, b, c) :: match_all fuel s b r
      | None => []
      end
  end.

Definition requestsSyntaxHighlight (text : jstring) : bool :=
  existsb (fun m =>
      match capture m.2 1 with
      | Some (a, b) => bool_decide (ascii_lower (slice text (Z.of_nat a) (Z.of_nat b)) ∈ HIGHLIGHT_LANGUAGES)
      | None => false
      end)
    (match_all (S (length text)) text 0 FENCE_LANGUAGE_HINT).

(** ** Exact text positions *)

Definition HEADING_PREFIX : regex :=
  seq [At_start false; between 0 3 SPACE; between 1 6 (unit_ 35); plus (Any_of (one_of [32; 9]))].
(** Units that make text coordinates ambiguous, and list marks. *)
Definition AMBIGUOUS : regex := Any_of (one_of (lit "\`*_~[]<>|!$&")).
Definition LIST_MARK : regex :=
  seq [At_start false; star (Any_of white);
       Alt (Any_of (one_of (lit "-+"))) (seq [plus (Any_of digit); Any_of (one_of (lit ".)"))]);
       Any_of white].

Definition exactMappingStart (source : option jstring) (start : Z) : option Z :=
  match source with
  | None => None
  | Some source =>
      if bool_decide (NEWLINE ∈ source) then None
      else
        let heading := match exec source HEADING_PREFIX with Some (_, q, _) => Z.of_nat q | None => 0 end in
        let body := slice_from source heading in
        if str_eqb body [] || test body AMBIGUOUS || test body LIST_MARK then None
        else Some (start + heading)
  end.

(** [/^#{1,6}\s+\S/m] *)
Definition HEADING_BLOCK : regex :=
  seq [At_start true; between 1 6 (unit_ 35); plus (Any_of white); Any_of (fun u => negb (white u))].

Fixpoint remap (lines : list Z) (headings : list Heading) : list Heading :=
  match headings with
  | [] => []
  | h :: rest =>
      {| h_level := h_level h; h_text := h_text h; h_slug := h_slug h;
         h_line := match lines with l :: _ => l | [] => h_line h end |} :: remap (tail lines) rest
  end.

Definition remapHeadingLines (text : jstring) (headings : list Heading) : list Heading :=
  remap (map SourceBlocks.start
    (List.filter (fun b => test (SourceBlocks.source b) HEADING_BLOCK) (splitSourceBlocks text))) headings.

(** ** The worker's module state *)

Record features := { katex : bool; highlightCode : bool }.

Record Worker (Env : Type) := mkWorker {
  md : features;
  katexPlugin : bool;
  highlighter : bool;
  cache : list (jstring * jstring);
  present : list jstring;
  lastEnvSignature : jstring;
  lastText : jstring;
  lastEnv : Env;
  lastHeadings : list Heading;
  WORKER_GENERATION : jstring }.
Arguments mkWorker {Env}.
Arguments md {Env}.
Arguments katexPlugin {Env}.
Arguments highlighter {Env}.
Arguments cache {Env}.
Arguments present {Env}.
Arguments lastEnvSignature {Env}.
Arguments lastText {Env}.
Arguments lastEnv {Env}.
Arguments lastHeadings {Env}.
Arguments WORKER_GENERATION {Env}.

#[export] Instance eta_worker {Env} : Eta (Worker Env) := fun s =>
  mkWorker (md s) (katexPlugin s) (highlighter s) (cache s) (present s) (lastEnvSignature s) (lastText s) (lastEnv s) (lastHeadings s) (WORKER_GENERATION s).
#[export] Instance set_worker_md {Env} : SetField (@md Env). Proof. solve_update. Defined.
#[export] Instance set_worker_katexPlugin {Env} : SetField (@katexPlugin Env). Proof. solve_update. Defined.
#[export] Instance set_worker_highlighter {Env} : SetField (@highlighter Env). Proof. solve_update. Defined.
#[export] Instance set_worker_cache {Env} : SetField (@cache Env). Proof. solve_update. Defined.
#[export] Instance set_worker_present {Env} : SetField (@present Env). Proof. solve_update. Defined.
#[export] Instance set_worker_lastEnvSignature {Env} : SetField (@lastEnvSignature Env). Proof. solve_update. Defined.
#[export] Instance set_worker_lastText {Env} : SetField (@lastText Env). Proof. solve_update. Defined.
#[export] Instance set_worker_lastEnv {Env} : SetField (@lastEnv Env). Proof. solve_update. Defined.
#[export] Instance set_worker_lastHeadings {Env} : SetField (@lastHeadings Env). Proof. solve_update. Defined.
#[export] Instance set_worker_WORKER_GENERATION {Env} : SetField (@WORKER_GENERATION Env). Proof. solve_update. Defined.

(** What the dynamic imports of one pass give. *)
Record imports := { import_highlight : res unit; import_katex : res unit }.

Section Worker.
Context {Env : Type} (empty_env : Env) (definitions : Env -> env_json).
(** [md.parse(text, env)], which extends the environment, and
    [md.renderer.render(tokens, options, env)]. *)
Context (parse : features -> jstring -> Env -> res (list Token * Env)).
Context (render_tokens : features -> list Token -> Env -> res jstring).
Implicit Types (w : Worker Env).

Definition clearRenderCache w : Worker Env :=
  w <| cache := [] |> <| present := [] |> <| lastEnvSignature := [] |> <| lastText := [] |>
    <| lastEnv := empty_env |> <| lastHeadings := [] |>.

Definition loadRequestedFeatures (im : imports) (text : jstring) : SE (Worker Env) unit :=
  w ← se_get;
  changed1 ← (if negb (highlighter w) && requestsSyntaxHighlight text
              then se_lift (import_highlight im);; se_modify (fun w => w <| highlighter := true |>);; mret true
              else mret false);
  changed2 ← (if negb (katexPlugin w) && test text MATH_HINT
              then se_lift (import_katex im);; se_modify (fun w => w <| katexPlugin := true |>);; mret true
              else mret false);
  if negb (changed1 || changed2) then mret tt
  else se_modify (fun w =>
    clearRenderCache (w <| md := {| katex := katexPlugin w; highlightCode := highlighter w |} |>)).

(** ** A full pass *)

Record pass_state := {
  nextCache : list (jstring * jstring); out_blocks : list BlockPatch; seen_bases : list (jstring * Z);
  dirty_count : Z; byte_count : Z }.

Definition no_pass : pass_state :=
  {| nextCache := []; out_blocks := []; seen_bases := []; dirty_count := 0; byte_count := 0 |}.

Definition group_identity (g : TokenGroup) : jstring :=
  match g_source g with
  | Some source => source
  | None => lit "@" ++ join (lit ",") (map t_type (g_tokens g))
  end.

Definition group_patch (w : Worker Env) (env : Env) (offsets : list Z) (st : pass_state) (g : TokenGroup)
    : res pass_state :=
  if len (g_tokens g) =? 0 then Ok st
  else
    let base := hashString (group_identity g) in
    let occurrence := default 0 (mget (seen_bases st) base) + 1 in
    let key := occurrence_key base occurrence in
    let generated := bool_decide (g_source g = None) in
    '(html, dirty) ←
      match mget (cache w) key with
      | Some h => if generated then h' ← render_tokens (md w) (g_tokens g) env; Ok (h', 1) else Ok (h, 0)
      | None => h' ← render_tokens (md w) (g_tokens g) env; Ok (h', 1)
      end;
    let line := Z.max (g_line g) 0 in
    let sourceStart := default 0 (at_index offsets line) in
    let sourceEnd := match g_source g with None => sourceStart | Some s => sourceStart + len s end in
    let send := negb (bool_decide (key ∈ present w)) || generated in
    Ok {| nextCache := mset (nextCache st) key html;
          out_blocks := out_blocks st ++
            [{| PreviewDom.key := key; line := line; PreviewDom.sourceStart := sourceStart;
                PreviewDom.sourceEnd := sourceEnd; exactTextStart := exactMappingStart (g_source g) sourceStart;
                html := if send then Some html else None |}];
          seen_bases := mset (seen_bases st) base occurrence;
          dirty_count := dirty_count st + dirty;
          byte_count := byte_count st + (if send then len html else 0) |}.

Fixpoint group_patches w (env : Env) (offsets : list Z) (st : pass_state) (gs : list TokenGroup) : res pass_state :=
  match gs with
  | [] => Ok st
  | g :: rest => st ← group_patch w env offsets st g; group_patches w env offsets st rest
  end.

Definition render_full (seq : Z) (text : jstring) : SE (Worker Env) RenderResponse :=
  w ← se_get;
  '(tokens, env) ← se_lift (parse (md w) text empty_env);
  let signature := envSignature (definitions env) tokens in
  (if str_eqb signature (lastEnvSignature w) then mret tt
   else se_modify (fun w => w <| cache := [] |> <| present := [] |> <| lastEnvSignature := signature |>));;
  se_modify (fun w => w <| lastText := text |> <| lastEnv := env |> <| lastHeadings := collectHeadings tokens |>);;
  w ← se_get;
  let lines := lines_of text in
  st ← se_lift (group_patches w env (line_offsets 0 lines) no_pass (groupTokens tokens lines));
  se_modify (fun w => w <| cache := nextCache st |> <| present := map PreviewDom.key (out_blocks st) |>);;
  mret (Rendered seq (WORKER_GENERATION w) (out_blocks st) (lastHeadings w) Full
          (dirty_count st) (byte_count st) (len text)).

(** ** An incremental pass *)

Fixpoint parse_dirty (dirtyKeys : list jstring) (parsed : list (jstring * list Token)) (bs : list SourceBlock)
    : SE (Worker Env) (list (jstring * list Token)) :=
  match bs with
  | [] => mret parsed
  | b :: rest =>
      w ← se_get;
      if negb (bool_decide (SourceBlocks.key b ∈ dirtyKeys)) && mhas (cache w) (SourceBlocks.key b)
      then parse_dirty dirtyKeys parsed rest
      else
        '(tokens, env) ← se_lift (parse (md w) (SourceBlocks.source b) (lastEnv w));
        se_modify (fun w => w <| lastEnv := env |>);;
        parse_dirty dirtyKeys (mset parsed (SourceBlocks.key b) tokens) rest
  end.

(** The markup of a block: the cached one of a clean block, else a new one. *)
Definition block_html (dirtyKeys : list jstring) (parsed : list (jstring * list Token)) (b : SourceBlock)
    : SE (Worker Env) (jstring * Z) :=
  w ← se_get;
  match (if bool_decide (SourceBlocks.key b ∈ dirtyKeys) then None
         else mget (cache w) (SourceBlocks.key b)) with
  | Some h => mret (h, 0)
  | None =>
      tokens ←
        match mget parsed (SourceBlocks.key b) with
        | Some tokens => mret tokens
        | None =>
            '(tokens, env) ← se_lift (parse (md w) (SourceBlocks.source b) (lastEnv w));
            se_modify (fun w => w <| lastEnv := env |>);;
            mret tokens
        end;
      w ← se_get;
      h ← se_lift (render_tokens (md w) tokens (lastEnv w));
      mret (h, 1)
  end.

Definition block_patch (dirtyKeys : list jstring) (parsed : list (jstring * list Token)) (st : pass_state)
    (b : SourceBlock) : SE (Worker Env) pass_state :=
  w ← se_get;
  let key := SourceBlocks.key b in
  '(html, dirty) ← block_html dirtyKeys parsed b;
  let send := negb (bool_decide (key ∈ present w)) || bool_decide (key ∈ dirtyKeys) in
  mret {| nextCache := mset (nextCache st) key html;
          out_blocks := out_blocks st ++
            [{| PreviewDom.key := key; line := SourceBlocks.start b; PreviewDom.sourceStart := SourceBlocks.sourceStart b;
                PreviewDom.sourceEnd := SourceBlocks.sourceEnd b;
                exactTextStart := exactMappingStart (Some (SourceBlocks.source b)) (SourceBlocks.sourceStart b);
                html := if send then Some html else None |}];
          seen_bases := seen_bases st;
          dirty_count := dirty_count st + dirty;
          byte_count := byte_count st + (if send then len html else 0) |}.

Fixpoint block_patches (dirtyKeys : list jstring) (parsed : list (jstring * list Token)) (st : pass_state)
    (bs : list SourceBlock) : SE (Worker Env) pass_state :=
  match bs with
  | [] => mret st
  | b :: rest => st ← block_patch dirtyKeys parsed st b; block_patches dirtyKeys parsed st rest
  end.

Definition renderIncremental (seq : Z) (text : jstring) (dirtyKeys : list jstring)
    : SE (Worker Env) RenderResponse :=
  let sourceBlocks := splitSourceBlocks text in
  parsed ← parse_dirty dirtyKeys [] sourceBlocks;
  st ← block_patches dirtyKeys parsed no_pass sourceBlocks;
  se_modify (fun w => w <| cache := nextCache st |> <| present := map PreviewDom.key (out_blocks st) |>
    <| lastText := text |> <| lastHeadings := remapHeadingLines text (lastHeadings w) |>);;
  w ← se_get;
  mret (Rendered seq (WORKER_GENERATION w) (out_blocks st) (lastHeadings w) Incremental
          (dirty_count st) (byte_count st) (len text)).

Definition render (im : imports) (seq : Z) (text : jstring) : SE (Worker Env) RenderResponse :=
  loadRequestedFeatures im text;;
  w ← se_get;
  if negb (0 <? len (lastText w)) then render_full seq text
  else
    let incremental := incrementalParseSafe (lastText w) text DIRTY_RATIO_LIMIT in
    if safe incremental then renderIncremental seq text (map SourceBlocks.key (dirty incremental))
    else render_full seq text.

(** ** Messages *)

Definition FAILURE_HTML : jstring :=
  lit "<div class=" ++ [34] ++ lit "marks-callout marks-callout-danger" ++ [34] ++
  lit "><p>Preview failed to render.</p></div>".

Definition failure_response w (seq : Z) (text : jstring) : RenderResponse :=
  Rendered seq (WORKER_GENERATION w)
    [{| PreviewDom.key := lit "error-" ++ decimal seq; line := 0; PreviewDom.sourceStart := 0;
        PreviewDom.sourceEnd := len text; exactTextStart := None; html := Some FAILURE_HTML |}]
    [] Failed 1 0 (len text).

Definition render_accepted (im : imports) (seq : Z) (text : jstring) w : Worker Env * list RenderResponse :=
  match render im seq text w with
  | (w', Ok response) => (w', [response])
  | (w', Throw _) => (w' <| lastText := text |>, [failure_response w' seq text])
  end.

Definition processMessage (im : imports) (message : RenderRequest) w : Worker Env * list RenderResponse :=
  match message with
  | RenderReset => (clearRenderCache w, [])
  | RenderText seq text => render_accepted im seq text w
  | RenderPatch request =>
      match transitionPatch (lastText w) (WORKER_GENERATION w) request with
      | Resync seq generation actualChars reason => (w, [RenderResync seq generation actualChars reason])
      | Applied text => render_accepted im (p_seq request) text w
      end
  end.
End Worker.

(** ** What a pass keeps and sends *)

Section Passes.
Context {Env : Type} (empty_env : Env) (definitions : Env -> env_json).
Context (parse : features -> jstring -> Env -> res (list Token * Env)).
Context (render_tokens : features -> list Token -> Env -> res jstring).
Implicit Types (w : Worker Env).

(** *** What a preview of a text is *)

(** The keys of a sequence of pieces: each its hash, numbered from the second
    piece with this hash on. *)
Definition piece_keys (pieces : list jstring) : list jstring :=
  imap (fun n piece => occurrence_key (hashString piece)
    (len (List.filter (fun p => str_eqb (hashString p) (hashString piece)) (take n pieces)) + 1)) pieces.

(** The groups the parser makes of a text, all of its tokens. *)
Definition text_groups (tokens : list Token) (text : jstring) : list TokenGroup :=
  List.filter (fun g => negb (len (g_tokens g) =? 0)) (groupTokens tokens (lines_of text)).

(** [h] is what the renderer makes of a piece whose key is [k]: a group of a
    parsed text, or what the parser makes of a source block. Pieces with the same
    key share their markup; in which text the piece stood and what that text
    defined otherwise is left open. *)
Inductive made (f : features) (k h : jstring) : Prop :=
| made_group text tokens env g n :
    parse f text empty_env = Ok (tokens, env) -> g ∈ groupTokens tokens (lines_of text) ->
    k = occurrence_key (hashString (group_identity g)) n ->
    render_tokens f (g_tokens g) env = Ok h -> made f k h
| made_block source tokens env env1 env2 n :
    parse f source env = Ok (tokens, env1) -> k = occurrence_key (hashString source) n ->
    render_tokens f tokens env2 = Ok h -> made f k h.

(** Keys and markup of a rendering of [text]: in order and one for one, under
    the pieces' keys, either the groups the parser makes of the whole text - those
    without a source of their own rendered from this very parse - or its source
    blocks. *)
Inductive rendering (f : features) (text : jstring) (l : list (jstring * jstring)) : Prop :=
| rendering_parsed tokens env :
    parse f text empty_env = Ok (tokens, env) ->
    l.*1 = piece_keys (map group_identity (text_groups tokens text)) ->
    Forall2 (fun g kh => g_source g = None -> render_tokens f (g_tokens g) env = Ok kh.2) (text_groups tokens text) l ->
    Forall (fun kh => made f kh.1 kh.2) l -> rendering f text l
| rendering_split :
    l.*1 = map SourceBlocks.key (splitSourceBlocks text) ->
    Forall (fun kh => made f kh.1 kh.2) l -> rendering f text l.

(** Every key the page is believed to hold is in the cache, and every cached
    markup is a rendering of its piece with the features the worker has. *)
Record worker_ok w : Prop := {
  wo_present : forall k, k ∈ present w -> mhas (cache w) k = true;
  wo_made : Forall (fun kh => made (md w) kh.1 kh.2) (cache w) }.

(** A block of a response: its markup is the cached one, sent or already there. *)
Definition block_sent w (new_cache : list (jstring * jstring)) (b : BlockPatch) : Prop :=
  exists h, mget new_cache (PreviewDom.key b) = Some h /\
    (html b = Some h \/
     html b = None /\ PreviewDom.key b ∈ present w /\ mget (cache w) (PreviewDom.key b) = Some h).

(** The accumulators after some blocks, against the worker they started from. *)
Definition pass_ok w (st : pass_state) : Prop :=
  (nextCache st).*1 = map PreviewDom.key (out_blocks st) /\
  NoDup (map PreviewDom.key (out_blocks st)) /\
  Forall (block_sent w (nextCache st)) (out_blocks st) /\
  Forall (fun kh => made (md w) kh.1 kh.2) (nextCache st).

Lemma pass_ok_nil w : pass_ok w no_pass.
Proof. split_and!; [done | constructor | constructor | constructor]. Qed.

Lemma mhas_Some {V} (m : list (jstring * V)) k : mhas m k = true -> exists v, mget m k = Some v.
Proof. unfold mhas. destruct (mget m k) as [v|]; [by exists v | done]. Qed.

(** One more block: rendered and sent, or left out because the page has it. *)
Lemma pass_ok_next w st b h s d n :
  pass_ok w st -> PreviewDom.key b ∉ map PreviewDom.key (out_blocks st) ->
  (html b = Some h \/ html b = None /\ PreviewDom.key b ∈ present w /\ mget (cache w) (PreviewDom.key b) = Some h) ->
  made (md w) (PreviewDom.key b) h ->
  pass_ok w {| nextCache := mset (nextCache st) (PreviewDom.key b) h; out_blocks := out_blocks st ++ [b];
               seen_bases := s; dirty_count := d; byte_count := n |}.
Proof.
  intros (Hk & Hnd & Hall & Hmade) Hb Hh Hm. rewrite <- Hk in Hb. apply mget_None_keys in Hb as Hnew.
  split_and!; cbn.
  - rewrite mset_new by done. by rewrite fmap_app, Hk, map_app.
  - rewrite map_app. apply NoDup_app. split_and!; [done | | apply NoDup_singleton].
    intros x Hx ->%list_elem_of_singleton. rewrite Hk in Hb. done.
  - apply Forall_app. split; [|constructor; [|constructor]].
    + eapply Forall_impl; [exact Hall |]. intros b' (h' & Hg & Hor). exists h'. split; [|done].
      rewrite mget_mset_ne; [done |]. intros E. rewrite <- E, Hnew in Hg. done.
    + exists h. split; [apply mget_mset_eq | done].
  - rewrite mset_new by done. apply Forall_app. split; [done |]. by constructor.
Qed.

Lemma worker_made w k h : worker_ok w -> mget (cache w) k = Some h -> made (md w) k h.
Proof.
  intros [_ Hm] Hg. revert Hg. induction Hm as [|[k' h'] m Hkh _ IH]; [done |]. cbn.
  destruct (decide (k' = k)) as [-> |]; [by intros [= <-] | done].
Qed.

(** *** Groups *)

(** The keys and the markup given to the groups [gs] so far. *)
Definition groups_ok w (env : Env) (st : pass_state) (gs : list TokenGroup) : Prop :=
  pass_ok w st /\ numbered (seen_bases st) (zip (map group_identity gs) (map PreviewDom.key (out_blocks st))) /\
  map PreviewDom.key (out_blocks st) = piece_keys (map group_identity gs) /\
  (forall base, default 0 (mget (seen_bases st) base) =
    len (List.filter (fun p => str_eqb (hashString p) base) (map group_identity gs))) /\
  Forall2 (fun g kh => g_source g = None -> render_tokens (md w) (g_tokens g) env = Ok kh.2) gs (nextCache st).

Lemma groups_ok_nil w env : groups_ok w env no_pass [].
Proof. split_and!; [apply pass_ok_nil | apply numbered_nil | done | done | constructor]. Qed.

Lemma piece_keys_snoc ids i :
  piece_keys (ids ++ [i]) = piece_keys ids ++
    [occurrence_key (hashString i) (len (List.filter (fun p => str_eqb (hashString p) (hashString i)) ids) + 1)].
Proof.
  unfold piece_keys. rewrite imap_app. f_equal.
  - apply imap_ext. intros n x Hx. rewrite take_app_le; [done |]. apply lookup_lt_Some in Hx. lia.
  - cbn. by rewrite Nat.add_0_r, take_app_length.
Qed.

Lemma piece_keys_length ids : length (piece_keys ids) = length ids.
Proof. apply length_imap. Qed.

(** The markup of a group: the cached one, or a new one. *)
Lemma group_html w env key g h dirty :
  match mget (cache w) key with
  | Some v => if bool_decide (g_source g = None) then h' ← render_tokens (md w) (g_tokens g) env; Ok (h', 1) else Ok (v, 0)
  | None => h' ← render_tokens (md w) (g_tokens g) env; Ok (h', 1)
  end = Ok (h, dirty) ->
  render_tokens (md w) (g_tokens g) env = Ok h /\ (g_source g = None \/ mget (cache w) key = None) \/
  g_source g <> None /\ mget (cache w) key = Some h.
Proof.
  destruct (mget (cache w) key) as [v|]; [destruct (bool_decide (g_source g = None)) eqn:Eg|].
  1, 3: intros (h' & Eh & [= -> _])%res_bind_Ok; reflect_bools; auto.
  apply bool_decide_eq_false in Eg. intros [= -> _]. by right.
Qed.

Lemma group_patch_ok w text tokens env offsets st gs g st' :
  worker_ok w -> parse (md w) text empty_env = Ok (tokens, env) -> g ∈ groupTokens tokens (lines_of text) ->
  groups_ok w env st gs -> group_patch render_tokens w env offsets st g = Ok st' ->
  groups_ok w env st' (gs ++ (if len (g_tokens g) =? 0 then [] else [g])).
Proof.
  intros Hw Hparse Hg (Hp & Hn & Hl & Hc & Hr) E. unfold group_patch in E.
  destruct (len (g_tokens g) =? 0); [injection E as <-; by rewrite app_nil_r |].
  apply res_bind_Ok in E as ([h dirty] & Eh & E). injection E as <-.
  set (base := hashString (group_identity g)) in *.
  set (occ := default 0 (mget (seen_bases st) base) + 1) in *.
  set (key := occurrence_key base occ) in *. apply group_html in Eh.
  assert (map PreviewDom.key (out_blocks st) ++ [key] = piece_keys (map group_identity (gs ++ [g]))) as Hkeys
    by (rewrite map_app; cbn [map]; rewrite piece_keys_snoc, Hl; unfold key, occ; by rewrite Hc).
  assert (length (map group_identity gs) = length (map PreviewDom.key (out_blocks st))) as Hlen by (by rewrite Hl, piece_keys_length).
  pose proof (numbered_next _ _ (group_identity g) Hn) as Hn'. cbv zeta in Hn'. fold base occ key in Hn'.
  assert (key ∉ map PreviewDom.key (out_blocks st)) as Hkey.
  { destruct Hn' as [Hnd _]. rewrite fmap_app, snd_zip in Hnd by lia.
    apply NoDup_app in Hnd as (_ & Hdis & _). intros Hin. by apply (Hdis key Hin), list_elem_of_singleton. }
  split_and!.
  - apply (pass_ok_next w st {| PreviewDom.key := key |}); [done | done | |]; cbn.
    + destruct (decide (key ∈ present w)) as [Hpr | Hpr]; [|left; by rewrite bool_decide_false].
      rewrite bool_decide_true by done. cbn [negb orb].
      destruct (bool_decide (g_source g = None)) eqn:Eg; [by left | right]. split_and!; [done | done |].
      destruct Eh as [[_ [? | Ev]] | [_ ?]]; [by reflect_bools | | done].
      apply Hw, mhas_Some in Hpr as [v Hv]. congruence.
    + destruct Eh as [[Eh _] | [_ Ev]]; [by eapply made_group | by apply worker_made].
  - cbn [seen_bases out_blocks]. rewrite !map_app. cbn [map PreviewDom.key]. by rewrite zip_with_app by done.
  - cbn [out_blocks]. rewrite map_app. exact Hkeys.
  - intros b. cbn [seen_bases]. rewrite map_app, List.filter_app, len_app. cbn [map List.filter]. fold base.
    destruct (decide (b = base)) as [-> | Hne].
    + rewrite mget_mset_eq, (proj2 (str_eqb_eq base base) eq_refl). unfold occ. rewrite Hc. done.
    + rewrite mget_mset_ne by done. assert (str_eqb base b = false) as -> by (apply not_true_iff_false; rewrite str_eqb_eq; congruence).
      rewrite Hc. unfold len. cbn [length]. lia.
  - destruct Hp as (Hk & _). cbn [nextCache]. rewrite mset_new by (apply mget_None_keys; by rewrite Hk).
    apply Forall2_app; [done | constructor; [|done]]. cbn. intros Hnone. by destruct Eh as [[? _] | [? _]].
Qed.

Lemma group_patches_ok w text tokens env offsets gs st done_ st' :
  worker_ok w -> parse (md w) text empty_env = Ok (tokens, env) ->
  Forall (fun g => g ∈ groupTokens tokens (lines_of text)) gs ->
  groups_ok w env st done_ -> group_patches render_tokens w env offsets st gs = Ok st' ->
  groups_ok w env st' (done_ ++ List.filter (fun g => negb (len (g_tokens g) =? 0)) gs).
Proof.
  intros Hw Hparse. revert st done_. induction gs as [|g gs IH]; intros st done_ Hgs Hs E; cbn [group_patches] in E.
  - injection E as <-. by rewrite app_nil_r.
  - apply Forall_cons in Hgs as [Hg Hgs]. apply res_bind_Ok in E as (st1 & E1 & E).
    eapply group_patch_ok in E1; [|done..]. eapply IH in E; [|done | exact E1]. rewrite <- app_assoc in E.
    cbn [List.filter]. by destruct (len (g_tokens g) =? 0).
Qed.

(** *** Incremental passes *)

(** A pass so far has only extended the environment. *)
Definition only_env w0 w : Prop := exists e, w = w0 <| lastEnv := e |>.

Lemma only_env_refl w : only_env w w.
Proof. exists (lastEnv w). by destruct w. Qed.

Lemma only_env_set w0 w e : only_env w0 w -> only_env w0 (w <| lastEnv := e |>).
Proof. intros [e' ->]. by exists e. Qed.

(** Keys that name the source of their block. *)
Definition names_source (b : SourceBlock) : Prop :=
  exists n, SourceBlocks.key b = occurrence_key (hashString (SourceBlocks.source b)) n.

Lemma source_blocks_named text : Forall names_source (splitSourceBlocks text).
Proof.
  destruct (splitSourceBlocks_inv text) as (st & -> & _ & _ & _ & _ & _ & Hall).
  rewrite List.Forall_map in Hall. eapply Forall_impl; [exact Hall |]. cbn. intros b (n & E & _). by exists n.
Qed.

(** What the parser has made of blocks so far. *)
Definition parsed_ok w0 (parsed : list (jstring * list Token)) : Prop :=
  forall k tokens, mget parsed k = Some tokens -> exists source n env env',
    k = occurrence_key (hashString source) n /\ parse (md w0) source env = Ok (tokens, env').

Lemma parse_dirty_ok w0 dirtyKeys parsed bs :
  Forall names_source bs -> parsed_ok w0 parsed ->
  triple (only_env w0) (parse_dirty parse dirtyKeys parsed bs)
    (fun parsed w => only_env w0 w /\ parsed_ok w0 parsed) (only_env w0).
Proof.
  revert parsed. induction bs as [|b bs IH]; intros parsed Hbs Hp; cbn [parse_dirty]; [by apply triple_ret |].
  apply Forall_cons in Hbs as [[n Hb] Hbs].
  apply triple_get_bind. intros w [e ->]. apply triple_if; intros _; [by apply IH |].
  apply triple_lift_bind; [done |]. intros [tokens env] Epa.
  apply (triple_modify_bind _ (only_env w0)); [intros; by apply only_env_set | apply IH; [done |]].
  intros k ts. destruct (decide (SourceBlocks.key b = k)) as [<- | Hne].
  - rewrite mget_mset_eq. intros [= <-]. eauto 6.
  - rewrite mget_mset_ne by congruence. apply Hp.
Qed.

Lemma block_html_ok w0 dirtyKeys parsed b :
  worker_ok w0 -> names_source b -> parsed_ok w0 parsed ->
  triple (only_env w0) (block_html parse render_tokens dirtyKeys parsed b)
    (fun hd w => only_env w0 w /\ made (md w0) (SourceBlocks.key b) hd.1 /\
       (SourceBlocks.key b ∉ dirtyKeys -> forall h, mget (cache w0) (SourceBlocks.key b) = Some h -> hd.1 = h))
    (only_env w0).
Proof.
  intros Hw [n Hb] Hp. unfold block_html. apply triple_get_bind. intros w [e ->].
  change (cache (w0 <| lastEnv := e |>)) with (cache w0).
  change (md (w0 <| lastEnv := e |>)) with (md w0).
  destruct (bool_decide (SourceBlocks.key b ∈ dirtyKeys)) eqn:Ed;
    [apply bool_decide_eq_true in Ed | destruct (mget (cache w0) (SourceBlocks.key b)) as [h|] eqn:Eh].
  2: { apply triple_ret. intros w Hw'. split_and!; [done | by apply (worker_made w0) | by intros _ h' [= <-]]. }
  all: eapply (triple_bind _ _ _ (fun tokens w => only_env w0 w /\ exists source n env env',
    SourceBlocks.key b = occurrence_key (hashString source) n /\ parse (md w0) source env = Ok (tokens, env'))).
  1, 3: destruct (mget parsed _) as [tokens|] eqn:Et; [apply triple_ret; intros w Hw'; split; [done | by apply Hp] |];
    apply triple_lift_bind; [done |]; intros [tokens env] Epa;
    apply (triple_modify_bind _ (only_env w0)); [intros; by apply only_env_set | apply triple_ret; eauto 8].
  all: intros tokens; apply triple_get_bind; intros w [[e' ->] (source & n' & env & env' & Ek & Epa)];
    apply triple_lift_bind; [by intros ? [? _] |]; intros h Er;
    apply triple_ret; intros w' [Hw' _]; split_and!; [done | by eapply made_block | done].
Qed.

Lemma block_patch_ok w0 dirtyKeys parsed st b :
  worker_ok w0 -> names_source b -> parsed_ok w0 parsed ->
  pass_ok w0 st -> SourceBlocks.key b ∉ map PreviewDom.key (out_blocks st) ->
  triple (only_env w0) (block_patch parse render_tokens dirtyKeys parsed st b)
    (fun st' w => only_env w0 w /\ pass_ok w0 st' /\
       map PreviewDom.key (out_blocks st') = map PreviewDom.key (out_blocks st) ++ [SourceBlocks.key b])
    (only_env w0).
Proof.
  intros Hw Hn Hpa Hp Hb. unfold block_patch. apply triple_get_bind. intros w [e ->].
  change (present (w0 <| lastEnv := e |>)) with (present w0). cbv zeta.
  eapply triple_bind; [by apply block_html_ok |]. intros [h d]. apply triple_ret. intros w (Hw' & Hm & Hh).
  split_and!; [done | | by cbn; rewrite map_app].
  apply (pass_ok_next w0 st {| PreviewDom.key := SourceBlocks.key b |}); [done | done | | done]. cbn.
  destruct (decide (SourceBlocks.key b ∈ present w0)) as [Hpr | Hpr]; [|left; by rewrite bool_decide_false].
  rewrite bool_decide_true by done. cbn [negb orb].
  destruct (bool_decide (SourceBlocks.key b ∈ dirtyKeys)) eqn:Ed; [by left | right].
  apply bool_decide_eq_false in Ed. split_and!; [done | done |].
  apply Hw, mhas_Some in Hpr as [v Hv]. rewrite Hv. f_equal. symmetry. by apply Hh.
Qed.

Lemma block_patches_ok w0 dirtyKeys parsed bs st :
  worker_ok w0 -> Forall names_source bs -> parsed_ok w0 parsed ->
  pass_ok w0 st -> NoDup (map PreviewDom.key (out_blocks st) ++ map SourceBlocks.key bs) ->
  triple (only_env w0) (block_patches parse render_tokens dirtyKeys parsed st bs)
    (fun st' w => only_env w0 w /\ pass_ok w0 st' /\
       map PreviewDom.key (out_blocks st') = map PreviewDom.key (out_blocks st) ++ map SourceBlocks.key bs)
    (only_env w0).
Proof.
  intros Hw Hbs Hpa. revert st. induction Hbs as [|b bs Hn Hbs IH]; intros st Hp Hnd; cbn [block_patches map].
  { apply triple_ret. intros w Hw'. by rewrite app_nil_r. }
  intros w Hw'. assert (SourceBlocks.key b ∉ map PreviewDom.key (out_blocks st)) as Hb.
  { apply NoDup_app in Hnd as (_ & Hdis & _). intros Hin. apply (Hdis _ Hin). by apply elem_of_cons; left. }
  pose proof (block_patch_ok w0 dirtyKeys parsed st b Hw Hn Hpa Hp Hb w Hw') as H1.
  unfold mbind, SE_bind. destruct (block_patch _ _ _ _ _ _ w) as [w1 [st1 | e]]; [|done].
  destruct H1 as (Hw1 & Hp1 & E1). cbn [map] in Hnd. rewrite cons_middle, app_assoc, <- E1 in Hnd.
  pose proof (IH st1 Hp1 Hnd w1 Hw1) as H2.
  destruct (block_patches _ _ _ _ _ _ w1) as [w2 [st2 | e]]; [|done].
  destruct H2 as (? & ? & E2). split_and!; [done | done |]. by rewrite E2, E1, <- app_assoc.
Qed.

(** *** Whole passes *)

(** What a rendered response promises, from the worker [w] it starts from. *)
Definition rendered_from w (seq : Z) (text : jstring) (response : RenderResponse) w' : Prop :=
  exists blocks hs mode d n,
    response = Rendered seq (WORKER_GENERATION w) blocks hs mode d n (len text) /\ mode <> Failed /\
    lastText w' = text /\ WORKER_GENERATION w' = WORKER_GENERATION w /\
    present w' = map PreviewDom.key blocks /\ NoDup (map PreviewDom.key blocks) /\
    (cache w').*1 = map PreviewDom.key blocks /\ Forall (block_sent w (cache w')) blocks /\
    rendering (md w') text (cache w') /\ worker_ok w'.

(** A pass that throws has kept the caches or emptied them. *)
Definition abandoned w w' : Prop :=
  WORKER_GENERATION w' = WORKER_GENERATION w /\
  (md w' = md w /\ present w' = present w /\ cache w' = cache w \/ present w' = [] /\ cache w' = []).

Lemma block_sent_weaken w w1 c b :
  (md w1 = md w /\ present w1 = present w /\ cache w1 = cache w \/ present w1 = [] /\ cache w1 = []) ->
  block_sent w1 c b -> block_sent w c b.
Proof.
  intros [(_ & E1 & E2) | [E1 E2]] (h & Hh & Hor); exists h; (split; [done |]); rewrite E1, E2 in Hor; [done |].
  destruct Hor as [? | (_ & Hin & _)]; [by left | by apply not_elem_of_nil in Hin].
Qed.

Lemma worker_ok_abandoned w w' : worker_ok w -> abandoned w w' -> worker_ok w'.
Proof.
  intros [Hp Hm] [_ [(E0 & E1 & E2) | [E1 E2]]]; split; rewrite ?E0, ?E1, ?E2; try done. intros k []%not_elem_of_nil.
Qed.
Lemma abandoned_refl w : abandoned w w.
Proof. split; [done | by left]. Qed.

Lemma abandoned_trans w w1 w2 : abandoned w w1 -> abandoned w1 w2 -> abandoned w w2.
Proof.
  intros [G1 C1] [G2 C2]. split; [congruence |].
  destruct C2 as [(E0 & E1 & E2) | C2]; [|by right].
  destruct C1 as [(F0 & F1 & F2) | [F1 F2]]; [left | right]; split_and!; congruence.
Qed.

Lemma loadRequestedFeatures_ok im text w0 :
  triple (abandoned w0) (loadRequestedFeatures empty_env im text) (fun _ => abandoned w0) (abandoned w0).
Proof.
  unfold loadRequestedFeatures. apply triple_get_bind. intros w _.
  assert (forall b r (f : Worker Env -> Worker Env) (k : bool -> SE (Worker Env) unit),
    (forall s, abandoned w0 s -> abandoned w0 (f s)) ->
    (forall c, triple (abandoned w0) (k c) (fun _ => abandoned w0) (abandoned w0)) ->
    triple (abandoned w0) ((if b : bool then se_lift (A := unit) r;; se_modify f;; mret true else mret false) ≫= k)
      (fun _ => abandoned w0) (abandoned w0)) as Hstep.
  { intros b r f k Hf Hk. eapply (triple_bind _ _ _ (fun _ => abandoned w0)); [|exact Hk].
    destruct b; [|by apply triple_ret]. apply triple_lift_bind; [done |]. intros _ _.
    apply (triple_modify_bind _ (abandoned w0)); [done | by apply triple_ret]. }
  apply Hstep; [done |]. intros c1. apply Hstep; [done |]. intros c2.
  apply triple_if; intros _; [by apply triple_ret |]. apply triple_modify.
  intros s [G C]. split; [done | by right].
Qed.

(** The caches a pass works with are those of the start, or none. *)
Lemma rendered_abandoned w w1 seq text r w' :
  abandoned w w1 -> rendered_from w1 seq text r w' -> rendered_from w seq text r w'.
Proof.
  intros [G C] (bs & hs & mode & d & n & -> & Hm & Ht & Hg & Hp & Hnd & Hc & Hs & Hk & Hw).
  exists bs, hs, mode, d, n. rewrite <- G. split_and!; try done.
  eapply Forall_impl; [exact Hs |]. intros b. by apply block_sent_weaken.
Qed.

(** A finished pass makes a good worker. *)
Lemma pass_ok_worker w w' st :
  pass_ok w st -> md w' = md w -> cache w' = nextCache st -> present w' = map PreviewDom.key (out_blocks st) ->
  worker_ok w'.
Proof.
  intros (Hk & _ & _ & Hm) E0 E1 E2. split; rewrite ?E0, ?E1, ?E2; [|done]. intros k. rewrite <- Hk. unfold mhas.
  destruct (mget (nextCache st) k) eqn:E; [done |]. by apply mget_None_keys in E.
Qed.

Lemma render_full_ok seq text w0 :
  worker_ok w0 ->
  triple (fun w => w = w0) (render_full empty_env definitions parse render_tokens seq text)
    (rendered_from w0 seq text) (abandoned w0).
Proof.
  intros Hw. unfold render_full. apply triple_get_exact. intros w ->.
  apply triple_lift_bind; [intros w ->; apply abandoned_refl |]. intros [tokens env] Eparse.
  eapply (triple_bind _ _ _ (fun _ w => abandoned w0 w /\ md w = md w0)).
  { apply triple_if; intros _.
    - apply triple_ret. intros w ->. split; [apply abandoned_refl | done].
    - apply triple_modify. intros w ->. split; [split; [done | by right] | done]. }
  intros _. apply (triple_modify_bind _ (fun w => (abandoned w0 w /\ md w = md w0) /\ lastText w = text)); [done |].
  apply triple_get_exact. intros w [[Ha Hmd] Ht]. cbv zeta. apply triple_lift_bind; [by intros ? -> |].
  intros st Eg. assert (worker_ok w) as Hw' by (by eapply worker_ok_abandoned).
  rewrite <- Hmd in Eparse.
  eapply (group_patches_ok w) in Eg as (Hpass & _ & Hkeys & _ & Hgen);
    [|done | exact Eparse | by apply Forall_forall | apply groups_ok_nil].
  pose proof Hpass as (Hk & Hnd & Hs & Hm).
  intros w' ->. unfold se_modify, mbind, SE_bind, mret, SE_ret. cbn.
  eapply rendered_abandoned; [exact Ha |]. eexists _, _, _, _, _. split_and!; try done.
  - eapply rendering_parsed; [exact Eparse | cbn; by rewrite Hk | exact Hgen | exact Hm].
  - by eapply pass_ok_worker.
Qed.

Lemma renderIncremental_ok seq text dirtyKeys w0 :
  worker_ok w0 ->
  triple (fun w => w = w0) (renderIncremental parse render_tokens seq text dirtyKeys)
    (rendered_from w0 seq text) (abandoned w0).
Proof.
  intros Hw. assert (forall w, only_env w0 w -> abandoned w0 w) as Hab
    by (intros w [e ->]; split; [done | by left]).
  unfold renderIncremental. eapply (triple_weaken _ (only_env w0)); [|intros w ->; apply only_env_refl | done | exact Hab].
  pose proof (source_blocks_named text) as Hn.
  eapply triple_bind; [by apply parse_dirty_ok |]. intros parsed.
  intros w1 [Hw1 Hpa]. revert w1 Hw1. eapply triple_bind.
  { apply block_patches_ok; [done | exact Hn | exact Hpa | apply pass_ok_nil | apply splitSourceBlocks_keys]. }
  intros st w (Hw' & Hpass & Hkeys). pose proof Hpass as (Hk & Hnd & Hs & Hm). destruct Hw' as [e ->]. cbn.
  eexists _, _, _, _, _. split_and!; try done; [apply rendering_split; [cbn; by rewrite Hk | exact Hm] | by eapply pass_ok_worker].
Qed.

Lemma render_ok im seq text w0 :
  worker_ok w0 ->
  triple (fun w => w = w0) (render empty_env definitions parse render_tokens im seq text)
    (rendered_from w0 seq text) (abandoned w0).
Proof.
  intros Hw. unfold render. eapply (triple_bind _ _ _ (fun _ => abandoned w0)).
  { eapply triple_weaken; [apply (loadRequestedFeatures_ok im text w0) | | done | done].
    intros w ->. apply abandoned_refl. }
  intros _. apply triple_get_exact. intros w Ha.
  pose proof (worker_ok_abandoned w0 w Hw Ha) as Hw1.
  assert (forall m, triple (fun s => s = w) m (rendered_from w seq text) (abandoned w) ->
    triple (fun s => s = w) m (rendered_from w0 seq text) (abandoned w0)) as Hm.
  { intros m Hm. eapply triple_weaken; [exact Hm | done | |].
    - intros r w'. by apply rendered_abandoned.
    - intros w'. by apply abandoned_trans. }
  apply triple_if; intros _; [by apply Hm, render_full_ok |]. cbv zeta.
  apply triple_if; intros _; [by apply Hm, renderIncremental_ok | by apply Hm, render_full_ok].
Qed.

(** ** Messages *)

(** What the worker holds after a message, and what it answers. *)
Definition answered w (seq : Z) (text : jstring) w' (r : RenderResponse) : Prop :=
  lastText w' = text /\ WORKER_GENERATION w' = WORKER_GENERATION w /\
  (rendered_from w seq text r w' \/
   exists w1, abandoned w w1 /\ w' = w1 <| lastText := text |> /\ r = failure_response w1 seq text).

Lemma render_accepted_ok im seq text w :
  worker_ok w ->
  exists w' r, render_accepted empty_env definitions parse render_tokens im seq text w = (w', [r]) /\
    worker_ok w' /\ answered w seq text w' r.
Proof.
  intros Hw. unfold render_accepted. pose proof (render_ok im seq text w Hw w eq_refl) as H.
  destruct (render _ _ _ _ im seq text w) as [w' [r | e]].
  - exists w', r. split; [done |]. pose proof H as (bs & hs & mode & d & n & _ & _ & Ht & Hg & _ & _ & _ & _ & _ & Hw').
    split; [done |]. split_and!; [done | done | by left].
  - eexists _, _. split; [reflexivity |]. split.
    + destruct (worker_ok_abandoned w w' Hw H) as [? ?]. by split.
    + split_and!; [done | apply H |]. right. by exists w'.
Qed.
End Passes.
