(* ===== verification/Preview.v ===== *)
(** The preview renderer ([client/src/markdown/preview.ts], [PreviewRenderer])
    over the supervised worker: queueing, pumping, recovery and painting. *)

From S2P Require Import Prelude.
From S2P Require Import Bytes.
From S2P Require Import Timers.
From S2P Require Import TextChange.
From S2P Require Import SourceBlocks.
From S2P Require Import PreviewDom.
From S2P Require Import MarkdownWorker.
From S2P Require Import WorkerSupervisor.

Record QueuedEdits := { q_edits : list TextEdit; q_baseChars : Z; q_chars : Z }.

(** [worker] is the supervisor; [outbox] the messages the page has posted, each
    with the worker it went to; [posts] counts the calls of [postMessage];
    [recoveries] the queued recovery microtasks; [idle] the scheduled idle
    callback. Submission times, which only the statistics use, are left out. *)
Record Renderer := mkRenderer {
  worker : Supervisor;
  dom : Dom;
  seq_ : Z;
  inFlight : option Z;
  queuedFull : option jstring;
  queuedEdits : option QueuedEdits;
  sourceText : jstring;
  workerGeneration : jstring;
  workerTerminal : bool;
  destroyed : bool;
  idle : remainder;
  headings : list Heading;
  posts : Z;
  outbox : list (Z * RenderRequest);
  recoveries : Z }.

#[export] Instance eta_renderer : Eta (Renderer) := fun s =>
  mkRenderer (worker s) (dom s) (seq_ s) (inFlight s) (queuedFull s) (queuedEdits s) (sourceText s) (workerGeneration s) (workerTerminal s) (destroyed s) (idle s) (headings s) (posts s) (outbox s) (recoveries s).
#[export] Instance set_renderer_worker : SetField worker. Proof. solve_update. Defined.
#[export] Instance set_renderer_dom : SetField dom. Proof. solve_update. Defined.
#[export] Instance set_renderer_seq_ : SetField seq_. Proof. solve_update. Defined.
#[export] Instance set_renderer_inFlight : SetField inFlight. Proof. solve_update. Defined.
#[export] Instance set_renderer_queuedFull : SetField queuedFull. Proof. solve_update. Defined.
#[export] Instance set_renderer_queuedEdits : SetField queuedEdits. Proof. solve_update. Defined.
#[export] Instance set_renderer_sourceText : SetField sourceText. Proof. solve_update. Defined.
#[export] Instance set_renderer_workerGeneration : SetField workerGeneration. Proof. solve_update. Defined.
#[export] Instance set_renderer_workerTerminal : SetField workerTerminal. Proof. solve_update. Defined.
#[export] Instance set_renderer_destroyed : SetField destroyed. Proof. solve_update. Defined.
#[export] Instance set_renderer_idle : SetField idle. Proof. solve_update. Defined.
#[export] Instance set_renderer_headings : SetField headings. Proof. solve_update. Defined.
#[export] Instance set_renderer_posts : SetField posts. Proof. solve_update. Defined.
#[export] Instance set_renderer_outbox : SetField outbox. Proof. solve_update. Defined.
#[export] Instance set_renderer_recoveries : SetField recoveries. Proof. solve_update. Defined.

Definition RENDER_DEADLINE_MS : Z := 20000.

Section Preview.
(** The owner's worker factory, what the n-th [postMessage] throws, DOMPurify. *)
Context (createWorker : Z -> option thrown) (rejects : Z -> option thrown).
Context (sanitize : jstring -> jstring).
Implicit Types (s : Renderer).

Definition start_renderer : Renderer :=
  mkRenderer (construct createWorker RENDER_DEADLINE_MS None) empty_dom 0 None None None [] [] false false
    None [] 0 [] 0.

(** [cancelIdle] *)
Definition cancelIdle s : Renderer := s <| idle := None |>.

Definition onWorkerRecovery s : Renderer :=
  if destroyed s || workerTerminal s then s
  else
    s <| inFlight := None |> <| workerGeneration := [] |> <| queuedEdits := None |>
      <| queuedFull := Some (sourceText s) |> <| recoveries := recoveries s + 1 |>.

Definition TERMINAL_HTML : jstring :=
  lit "<div class=" ++ [34] ++ lit "marks-callout marks-callout-danger" ++ [34] ++
  lit "><p>Preview stopped responding. Reload this page to try again.</p></div>".

(** The one block left when the worker has been given up. *)
Definition terminal_dom (text : jstring) (d : Dom) : Dom :=
  let x := fresh d in
  mkDom (<[x := {| e_key := lit "worker-terminal-error"; e_html := sanitize TERMINAL_HTML; e_line := 0;
                   e_start := 0; e_end := len text; e_exact := None |}]> (elements d))
    [x] [(lit "worker-terminal-error", x)] (x + 1).

Definition onWorkerTerminal s : Renderer :=
  if destroyed s || workerTerminal s then s
  else
    let s := s <| workerTerminal := true |> <| inFlight := None |> <| queuedEdits := None |>
               <| queuedFull := None |> in
    let s := cancelIdle s in
    s <| dom := terminal_dom (sourceText s) (dom s) |> <| headings := [] |>.

(** The supervisor's failure callbacks. *)
Definition on_failure (n : SupervisorNotice RenderResponse) s : Renderer :=
  match n with
  | OnRecover _ => onWorkerRecovery s
  | OnTerminal _ => onWorkerTerminal s
  | OnMessage _ => s
  end.

Definition post_ (message : RenderRequest) (expectResponse : bool) s : Renderer * bool :=
  let w := WorkerSupervisor.worker (worker s) in
  let '(sup, notices, sent) :=
    WorkerSupervisor.post (Response := RenderResponse) createWorker expectResponse (rejects (posts s)) (worker s) in
  let s := s <| worker := sup |> <| posts := posts s + 1 |> in
  let s := if sent then s <| outbox := outbox s ++ match w with Some w => [(w, message)] | None => [] end |> else s in
  (fold_left (fun s n => on_failure n s) notices s, sent).

Definition pump s : Renderer :=
  if bool_decide (is_Some (inFlight s)) || destroyed s || workerTerminal s then s
  else
    let s :=
      if bool_decide (is_Some (queuedEdits s)) && str_eqb (workerGeneration s) []
      then s <| queuedEdits := None |> <| queuedFull := Some (sourceText s) |> else s in
    match queuedFull s, queuedEdits s with
    | None, None => s
    | full, edits =>
        let seq := seq_ s + 1 in
        let s := s <| seq_ := seq |> <| inFlight := Some seq |> in
        let '(s, sent) :=
          match full, edits with
          | Some text, _ => post_ (RenderText seq text) true (s <| queuedFull := None |>)
          | None, Some q =>
              post_ (RenderPatch {| p_seq := seq; p_edits := q_edits q; p_generation := workerGeneration s;
                                    p_baseChars := q_baseChars q; p_chars := q_chars q |})
                true (s <| queuedEdits := None |>)
          | None, None => (s, false)
          end in
        if negb sent && bool_decide (inFlight s = Some seq) then s <| inFlight := None |> else s
    end.

(** [applyTextEdits] can throw; then only the exception leaves the method. *)
Definition update (edits : list TextEdit) s : Renderer * res unit :=
  if destroyed s || workerTerminal s || bool_decide (edits = []) then (s, Ok tt)
  else
    let baseChars := len (sourceText s) in
    match applyTextEdits (sourceText s) edits with
    | Throw e => (s, Throw e)
    | Ok text =>
        let s := s <| sourceText := text |> in
        let q := match queuedEdits s with
                 | Some q => q
                 | None => {| q_edits := []; q_baseChars := baseChars; q_chars := len text |}
                 end in
        let s := s <| queuedEdits := Some {| q_edits := q_edits q ++ edits; q_baseChars := q_baseChars q;
                                             q_chars := len text |} |> in
        (pump s, Ok tt)
    end.

Definition invalidate (text : jstring) s : Renderer :=
  if destroyed s || workerTerminal s then s
  else
    let s := cancelIdle s in
    let s := s <| sourceText := text |> <| workerGeneration := [] |> in
    let s := (post_ RenderReset false s).1 in
    let d := dom s in
    let s := s <| dom := d <| nodes := [] |> <| container := [] |> |> in
    let s := s <| queuedEdits := None |> <| queuedFull := Some text |> in
    pump s.

Definition onRendered (response : RenderResponse) s : Renderer :=
  if destroyed s || workerTerminal s then s
  else
    let request := inFlight s in
    let s := s <| inFlight := None |> in
    if negb (bool_decide (request = Some (response_seq response))) then pump s
    else
      match response with
      | RenderResync _ generation _ _ =>
          let s := s <| workerGeneration := generation |> <| queuedEdits := None |>
                     <| queuedFull := Some (sourceText s) |> in
          let s := (post_ RenderReset false s).1 in
          pump s
      | Rendered _ generation blocks hs _ _ _ _ =>
          let s := s <| workerGeneration := generation |> in
          let '(d, _, rest) := patch sanitize blocks (dom s) in
          let s := (cancelIdle s) <| dom := d |> <| idle := rest |> in
          let s := s <| headings := hs |> in
          pump s
      end.

Definition destroy_ s : Renderer :=
  let s := s <| destroyed := true |> in
  let s := cancelIdle s in
  let s := s <| worker := WorkerSupervisor.destroy (worker s) |> in
  let d := dom s in
  s <| dom := d <| nodes := [] |> |>.

Definition recovery_microtask s : Renderer :=
  if destroyed s || workerTerminal s then s
  else pump (post_ RenderReset false s).1.

Definition idle_callback s : Renderer :=
  match idle s with
  | None => s
  | Some (blocks, offset) =>
      if destroyed s then s
      else
        let '(d, rest) := remainder_step sanitize blocks offset (dom s) in
        s <| dom := d |> <| idle := rest |>
  end.

(** ** Events *)

Definition on_notice (n : SupervisorNotice RenderResponse) s : Renderer :=
  match n with
  | OnMessage response => onRendered response s
  | _ => on_failure n s
  end.

Definition supervised (r : Supervisor * list (SupervisorNotice RenderResponse)) s : Renderer :=
  fold_left (fun s n => on_notice n s) r.2 (s <| worker := r.1 |>).

Inductive PreviewEvent :=
| PUpdate (edits : list TextEdit)
| PInvalidate (text : jstring)
| PDestroy
| PMessage (w : Z) (response : RenderResponse)
| PError (w : Z) (message : jstring)
| PMessageError (w : Z)
| PTimer (h : Z)
| PStartFailure
| PRecovery
| PIdle.

Definition preview_step s (e : PreviewEvent) : Renderer :=
  match e with
  | PUpdate edits => (update edits s).1
  | PInvalidate text => invalidate text s
  | PDestroy => destroy_ s
  | PMessage w r => supervised (step createWorker (worker s) (EMessage w r)) s
  | PError w m => supervised (step createWorker (worker s) (EError w m)) s
  | PMessageError w => supervised (step createWorker (worker s) (EMessageError w)) s
  | PTimer h => supervised (step createWorker (worker s) (ETimer h)) s
  | PStartFailure => supervised (step createWorker (worker s) EMicrotask) s
  | PRecovery =>
      if recoveries s <=? 0 then s else recovery_microtask (s <| recoveries := recoveries s - 1 |>)
  | PIdle => idle_callback s
  end.

Definition preview_run s (es : list PreviewEvent) : Renderer := fold_left preview_step es s.
End Preview.

(** ** The renderer's invariant *)

Section Invariant.
Context (createWorker : Z -> option thrown) (rejects : Z -> option thrown).
Context (sanitize : jstring -> jstring).
Implicit Types (s : Renderer).

Definition live s : Prop := destroyed s = false /\ workerTerminal s = false.

(** Nothing is being rendered and nothing waits. *)
Definition at_rest s : Prop := inFlight s = None /\ queuedFull s = None /\ queuedEdits s = None.

(** What every method keeps, whatever is in flight. *)
Record attached s : Prop := {
  at_ok : supervisor_ok (worker s);
  at_known : known (worker s);
  at_deadline : deadlineMs (worker s) = RENDER_DEADLINE_MS;
  at_running : live s -> stopped (worker s) = true -> is_Some (starting (worker s)) }.

(** A render in flight is awaited by the supervisor; a queued one is behind it
    or behind a recovery. *)
Record renderer_ok s : Prop := {
  ro_attached : attached s;
  ro_awaited : live s -> is_Some (inFlight s) -> awaitingResponse (worker s) = true;
  ro_queued : live s -> inFlight s = None -> is_Some (queuedFull s) \/ is_Some (queuedEdits s) ->
    0 < recoveries s \/ is_Some (starting (worker s));
  ro_recoveries : 0 <= recoveries s }.

(** *** Posting *)

(** What [post_] can come to: sent, refused before the first worker runs, or a
    failure of the worker. *)
Inductive posted (message : RenderRequest) (expect : bool) s : Renderer -> bool -> Prop :=
| po_sent w sup : WorkerSupervisor.worker (worker s) = Some w -> WorkerSupervisor.worker sup = Some w ->
    supervisor_ok sup -> stopped sup = false -> deadlineMs sup = deadlineMs (worker s) ->
    created sup = created (worker s) -> awaitingResponse sup = expect || awaitingResponse (worker s) ->
    posted message expect s
      (s <| worker := sup |> <| posts := posts s + 1 |> <| outbox := outbox s ++ [(w, message)] |>) true
| po_unstarted : is_Some (starting (worker s)) ->
    posted message expect s (s <| posts := posts s + 1 |>) false
| po_recover sup : supervisor_ok sup -> stopped sup = false -> deadlineMs sup = deadlineMs (worker s) ->
    WorkerSupervisor.worker sup = Some (created (worker s)) -> created sup = created (worker s) + 1 ->
    posted message expect s (onWorkerRecovery (s <| worker := sup |> <| posts := posts s + 1 |>)) false
| po_terminal sup : supervisor_ok sup -> stopped sup = true -> deadlineMs sup = deadlineMs (worker s) ->
    created (worker s) <= created sup ->
    posted message expect s (onWorkerTerminal sanitize (s <| worker := sup |> <| posts := posts s + 1 |>)) false.

Lemma set_worker_same s : s <| worker := worker s |> = s.
Proof. by destruct s. Qed.

Lemma post_posted message expect s :
  attached s -> live s ->
  let r := post_ createWorker rejects sanitize message expect s in posted message expect s r.1 r.2.
Proof.
  intros [Hok Hk Hd Hr] Hl. specialize (Hr Hl). cbv zeta. unfold post_, WorkerSupervisor.post.
  destruct (stopped (worker s)) eqn:Es.
  { specialize (Hr eq_refl). pose proof (so_worker _ Hok) as Hw. rewrite Es in Hw.
    symmetry in Hw. apply bool_decide_eq_true in Hw. rewrite Hw. cbn [fst snd fold_left].
    rewrite set_worker_same. by apply po_unstarted. }
  destruct (ok_not_stopped _ Hok Es) as (w & Hw & _). rewrite Hw.
  destruct (rejects (posts s)) as [e|].
  - set (f := {| kind := PostMessage; error := _ |}).
    assert (listening (worker s) w = true) as Hlis
      by (unfold listening, is_worker; by rewrite Es, Hw, bool_decide_true).
    pose proof (fail_reacted createWorker (EError (Response := RenderResponse) w []) w f _ Hok Hlis) as Hf.
    destruct (fail_listening createWorker (Response := RenderResponse) w f (worker s) Hok Es Hw) as (sup & x & E & _).
    cbv zeta in Hf. rewrite E in *. cbn [fst snd fold_left] in *. inversion Hf; subst; cbn [on_failure].
    + done.
    + by apply po_recover.
    + by apply po_terminal.
  - cbn [fst snd fold_left]. destruct expect.
    + destruct (armDeadline_eq w (worker s) Hok) as (h & t & E). pose proof (armDeadline_ok w (worker s) Hok Hw) as Hok'.
      rewrite E in *. by apply (po_sent message true s w ((worker s) <| awaitingResponse := true |>
        <| deadlineHandle := Some h |> <| clock := t |>)).
    + by apply (po_sent message false s w (worker s)).
Qed.

Lemma onWorkerRecovery_live s :
  live s -> onWorkerRecovery s =
    s <| inFlight := None |> <| workerGeneration := [] |> <| queuedEdits := None |>
      <| queuedFull := Some (sourceText s) |> <| recoveries := recoveries s + 1 |>.
Proof. intros [E1 E2]. unfold onWorkerRecovery. by rewrite E1, E2. Qed.

Lemma onWorkerTerminal_live s :
  live s -> onWorkerTerminal sanitize s =
    s <| workerTerminal := true |> <| inFlight := None |> <| queuedEdits := None |> <| queuedFull := None |>
      <| idle := None |> <| dom := terminal_dom sanitize (sourceText s) (dom s) |> <| headings := [] |>.
Proof. intros [E1 E2]. unfold onWorkerTerminal. by rewrite E1, E2. Qed.

Lemma posted_attached message expect s s' b :
  attached s -> live s -> posted message expect s s' b -> attached s'.
Proof.
  intros [Hok Hk Hd Hr] Hl Hp. destruct Hp as [w sup Hw Hw' | Hs | sup | sup].
  - split; cbn; try done; [|congruence | congruence].
    intros w' E. rewrite Hw' in E. injection E as <-. specialize (Hk w Hw). lia.
  - by split.
  - rewrite onWorkerRecovery_live by done. split; cbn; try done; [| congruence | congruence].
    intros w' E. assert (w' = created (worker s)) as -> by congruence. lia.
  - rewrite onWorkerTerminal_live by done. split; cbn; try done; [| congruence | by intros [_ ?]].
    intros w' E. pose proof (so_worker _ H) as Hw. rewrite E, H0 in Hw. done.
Qed.

Lemma cancel_attached s : attached s -> attached (cancelIdle s).
Proof. by intros []; split. Qed.

Lemma pump_ok s :
  attached s -> (live s -> is_Some (inFlight s) -> awaitingResponse (worker s) = true) -> 0 <= recoveries s ->
  renderer_ok (pump createWorker rejects sanitize s).
Proof.
  intros Ha Hw Hr. unfold pump. destruct (bool_decide (is_Some (inFlight s)) || _ || _) eqn:Eg.
  { split; try done. intros [E1 E2] E3. rewrite E1, E2, E3 in Eg. done. }
  rewrite !orb_false_iff in Eg. destruct Eg as [[Ei Ed] Et]. assert (live s) as Hl by done.
  set (s0 := if _ && _ then _ else s).
  assert (attached s0 /\ live s0 /\ inFlight s0 = None /\ recoveries s0 = recoveries s) as (Ha0 & Hl0 & Hi0 & Hr0).
  { assert (inFlight s = None) by (apply bool_decide_eq_false in Ei; destruct (inFlight s); [destruct Ei; eauto | done]).
    unfold s0. destruct (_ && _); split_and!; try done. by destruct Ha; split. }
  clearbody s0. clear Hw. rewrite <- Hr0 in Hr. clear s Ha Ei Ed Et Hl Hr0.
  assert (forall message s1, attached s1 -> live s1 -> 0 <= recoveries s1 -> inFlight s1 = Some (seq_ s0 + 1) ->
    let '(s2, sent) := post_ createWorker rejects sanitize message true s1 in
    renderer_ok (if negb sent && bool_decide (inFlight s2 = Some (seq_ s0 + 1)) then s2 <| inFlight := None |> else s2)) as Hpost.
  { clear. intros message s Ha Hl Hr Hi. pose proof (post_posted message true s Ha Hl) as Hp. cbv zeta in Hp.
    destruct (post_ _ _ _ _ _ s) as [s2 sent]. cbn [fst snd] in Hp. pose proof (posted_attached _ _ _ _ _ Ha Hl Hp) as Ha2.
    destruct Hp as [w sup Hw Hw' Hok Hst Hd Hc Haw | Hs | sup Hok Hst Hd Hw Hc | sup Hok Hst Hd Hc]; cbn [negb andb].
    - split; try done. cbn. rewrite Hi. done.
    - cbn. rewrite Hi, bool_decide_true by done. split; [by destruct Ha2; split | by intros ? [] | by right | done].
    - rewrite onWorkerRecovery_live in * by done. cbn. rewrite bool_decide_false by done.
      split; try done; cbn; [by intros ? [] | left; lia | lia].
    - rewrite onWorkerTerminal_live in * by done. cbn. rewrite bool_decide_false by done.
      split; try done; by intros [_ ?]. }
  cbv zeta. destruct (queuedFull s0) as [t|] eqn:Ef; [|destruct (queuedEdits s0) as [q|] eqn:Ee].
  - pose proof (Hpost (RenderText (seq_ s0 + 1) t)
      (s0 <| seq_ := seq_ s0 + 1 |> <| inFlight := Some (seq_ s0 + 1) |> <| queuedFull := None |>)) as H.
    destruct (post_ _ _ _ _ _ _). apply H; try done. by destruct Ha0; split.
  - match goal with |- context [post_ _ _ _ ?m _ ?x] => pose proof (Hpost m x) as H end.
    destruct (post_ _ _ _ _ _ _). apply H; try done. by destruct Ha0; split.
  - split; try done; [by rewrite Hi0; intros ? [] |]. rewrite Ef, Ee. by intros _ _ [[] | []].
Qed.

(** What any post that expects no answer, and any step before a [pump], keeps. *)
Record calm s : Prop := {
  ca_attached : attached s;
  ca_awaited : live s -> is_Some (inFlight s) -> awaitingResponse (worker s) = true;
  ca_recoveries : 0 <= recoveries s }.

Lemma renderer_calm s : renderer_ok s -> calm s.
Proof. by intros []; split. Qed.

(** States that differ in none of the fields [calm] reads. *)
Definition same_core s s' : Prop :=
  worker s' = worker s /\ inFlight s' = inFlight s /\ destroyed s' = destroyed s /\
  workerTerminal s' = workerTerminal s /\ recoveries s' = recoveries s.

Lemma calm_same s s' : same_core s s' -> calm s -> calm s'.
Proof.
  intros (E1 & E2 & E3 & E4 & E5) [[] H1 H2].
  split; [split; unfold live in *; rewrite ?E1, ?E3, ?E4; done | unfold live in *; by rewrite E1, E2, E3, E4 | by rewrite E5].
Qed.

Lemma calm_pump s : calm s -> renderer_ok (pump createWorker rejects sanitize s).
Proof. intros []. by apply pump_ok. Qed.

Lemma dead_ok s : attached s -> ~ live s -> 0 <= recoveries s -> renderer_ok s.
Proof. intros Ha Hl Hr. by split. Qed.

Lemma post_calm message s :
  calm s -> live s -> calm (post_ createWorker rejects sanitize message false s).1.
Proof.
  intros [Ha Hw Hr] Hl. pose proof (post_posted message false s Ha Hl) as Hp. cbv zeta in Hp.
  pose proof (posted_attached _ _ _ _ _ Ha Hl Hp) as Ha2. destruct (post_ _ _ _ _ _ s) as [s2 sent]. cbn [fst snd] in *.
  destruct Hp as [w sup Hsw Hw' Hok Hst Hd Hc Haw | Hs | sup Hok Hst Hd Hsw Hc | sup Hok Hst Hd Hc].
  - split; try done. cbn. rewrite Haw. done.
  - by split.
  - rewrite onWorkerRecovery_live in * by done. split; try done; cbn; [by intros ? [] | lia].
  - rewrite onWorkerTerminal_live in * by done. split; try done. by intros [_ ?].
Qed.

Lemma live_dec s : live s \/ ~ live s.
Proof. unfold live. destruct (destroyed s), (workerTerminal s); [right..|]; intuition done. Qed.

Lemma not_live_guard s : ~ live s -> destroyed s || workerTerminal s = true.
Proof. unfold live. intros Hl. destruct (destroyed s), (workerTerminal s); try done. by destruct Hl. Qed.

Lemma live_guard s : live s -> destroyed s || workerTerminal s = false.
Proof. by intros [-> ->]. Qed.

Lemma update_ok edits s :
  renderer_ok s -> renderer_ok (update createWorker rejects sanitize edits s).1.
Proof.
  intros Hs. unfold update. destruct (_ || _); [done |]. cbv zeta.
  destruct (applyTextEdits _ _) as [t | e]; [|done]. apply calm_pump.
  by apply (calm_same s), renderer_calm.
Qed.

Lemma invalidate_ok text s :
  renderer_ok s -> renderer_ok (invalidate createWorker rejects sanitize text s).
Proof.
  intros Hs. unfold invalidate. destruct (_ || _) eqn:El; [done |]. apply orb_false_iff in El as Hl.
  cbv zeta. apply calm_pump.
  eapply calm_same; [|apply (post_calm RenderReset); [eapply calm_same; [|by apply renderer_calm]|]]; done.
Qed.

(** The in-flight render is over whatever the response says. *)
Lemma onRendered_ok response s :
  attached s -> 0 <= recoveries s ->
  renderer_ok (onRendered createWorker rejects sanitize response s).
Proof.
  intros Ha Hr. unfold onRendered. destruct (live_dec s) as [Hl | Hl].
  2: { rewrite not_live_guard by done. by apply dead_ok. }
  rewrite live_guard by done. cbv zeta.
  assert (calm (s <| inFlight := None |>)) as Hc by (split; [by destruct Ha; split | by intros ? [] | done]).
  destruct (negb _); [by apply calm_pump |].
  destruct response as [seq g blocks hs mode d n c | seq g n reason].
  - destruct (patch sanitize blocks _) as [[d' ?] rest]. apply calm_pump. by apply (calm_same (s <| inFlight := None |>)).
  - apply calm_pump, post_calm; [by apply (calm_same (s <| inFlight := None |>)) | done].
Qed.

Lemma supervised_ok s e :
  renderer_ok s -> match e with EPost _ _ | EDestroy => False | _ => True end ->
  renderer_ok (supervised createWorker rejects sanitize (step createWorker (worker s) e) s).
Proof.
  intros [Ha Hw Hq Hr] He. pose proof (step_reacted createWorker (worker s) e (at_ok s Ha) He) as Hre.
  destruct (step createWorker (worker s) e) as [sup ns]. unfold supervised. cbn [fst snd] in *.
  pose proof Ha as [Hok Hk Hd Hrun].
  destruct Hre as [| w r -> Hsw Hst | f sup Hst Hok' Hd' Hsw Hc Hst' | f sup Hok' Hd' Hst' Hstart Hc]; cbn [fold_left on_notice on_failure].
  - rewrite set_worker_same. by split.
  - apply onRendered_ok; [|done]. destruct (clearDeadline_eq (worker s) Hok) as [t E].
    pose proof (ok_clearDeadline (worker s) Hok) as Hok'. rewrite E in *.
    split; cbn; try done. destruct Hok' as [? ? ? [Hf0 Hf1] ?]. split; cbn in *; try done.
    split; [done |]. intros Hx. specialize (Hf1 Hx). lia.
  - assert (attached (s <| worker := sup |>)) as Ha'.
    { split; cbn; try done; [|congruence | congruence]. intros w'. rewrite Hsw, Hc. intros [= <-]. lia. }
    destruct (live_dec s) as [Hl | Hl].
    + rewrite onWorkerRecovery_live by done. split; cbn; [by destruct Ha'; split | by intros ? [] | left; lia | lia].
    + unfold onWorkerRecovery. rewrite (not_live_guard (s <| worker := sup |>)) by done. by apply dead_ok.
  - assert (known sup) as Hk' by (intros w' E; pose proof (so_worker _ Hok') as Hx; rewrite E, Hst' in Hx; done).
    destruct (live_dec s) as [Hl | Hl].
    + rewrite onWorkerTerminal_live by done. apply dead_ok; cbn; [|by intros [_ ?] | done].
      split; cbn; try done; [congruence | by intros [_ ?]].
    + unfold onWorkerTerminal. rewrite (not_live_guard (s <| worker := sup |>)) by done.
      apply dead_ok; [|done..]. split; cbn; try done. congruence.
Qed.

Lemma destroy_renderer_ok s : renderer_ok s -> renderer_ok (destroy_ s).
Proof.
  intros [[Hok Hk Hd _] _ _ Hr]. destruct (destroy_ok (worker s) Hok) as (Hok' & _ & Hd' & Hc & _ & _ & Hst).
  apply dead_ok; cbn; [|by intros [? _] | done]. split; cbn; try done; [|congruence | by intros [? _]].
  intros w E. pose proof (so_worker _ Hok') as Hx. by rewrite E, Hst in Hx.
Qed.

Lemma preview_step_ok s e :
  renderer_ok s -> renderer_ok (preview_step createWorker rejects sanitize s e).
Proof.
  intros Hs. destruct e as [edits|text| |w r|w m|w|h| | |]; cbn [preview_step].
  1: by apply update_ok. 1: by apply invalidate_ok. 1: by apply destroy_renderer_ok.
  1-5: by apply supervised_ok.
  - destruct (Z.leb_spec (recoveries s) 0); [done |].
    assert (calm (s <| recoveries := recoveries s - 1 |>)) as Hc
      by (destruct Hs; split; cbn; [by destruct ro_attached0; split | done | lia]).
    unfold recovery_microtask. destruct (live_dec s) as [Hl | Hl].
    + rewrite live_guard by done. apply calm_pump. by apply post_calm.
    + rewrite not_live_guard by done. apply dead_ok; [apply Hc | done | apply Hc].
  - unfold idle_callback. destruct (idle s) as [[blocks offset]|]; [|done]. destruct (destroyed s) eqn:Ed; [done |].
    destruct (remainder_step _ _ _ _) as [d rest]. destruct Hs as [[] ? ? ?]. split; cbn; try done.
Qed.

Lemma start_renderer_ok : renderer_ok (start_renderer createWorker).
Proof.
  pose proof (construct_tracked (Response := RenderResponse) createWorker None RENDER_DEADLINE_MS ltac:(done)) as [Hok [_ Hd] _ _ _ _ _].
  unfold start_renderer. split; cbn; [split; cbn; try done | by intros ? [] | by intros _ _ [[] | []] | done].
  - unfold known, construct, spawn. cbn. destruct (createWorker 0); cbn; [done | intros w [= <-]; lia].
  - unfold construct, spawn. cbn. destruct (createWorker 0); cbn; [by intros | done].
Qed.

Lemma preview_run_ok s es :
  renderer_ok s -> renderer_ok (preview_run createWorker rejects sanitize s es).
Proof.
  revert s. induction es as [|e es IH]; intros s Hs; [done |]. cbn. apply IH. by apply preview_step_ok.
Qed.
End Invariant.

(** C18. The preview cannot get stuck. Whatever the user, the workers, their
    factory and [postMessage] do: as long as the renderer is neither destroyed
    nor given up, either it is at rest - nothing is in flight and nothing is
    queued - or the first worker's failure to start is about to be reported, or
    a recovery is queued, or exactly the deadline of the running worker is armed
    and will end the render in flight if the worker does not. *)
Theorem preview_never_stuck createWorker rejects sanitize es :
  let s := preview_run createWorker rejects sanitize (start_renderer createWorker) es in
  live s ->
  at_rest s \/ is_Some (starting (worker s)) \/ 0 < recoveries s \/
  exists w h, WorkerSupervisor.worker (worker s) = Some w /\ alive (worker s) = [w] /\
    t_armed (clock (worker s)) = {[ h := (w, inject_Z RENDER_DEADLINE_MS) ]} /\ is_Some (inFlight s).
Proof.
  cbv zeta. pose proof (preview_run_ok createWorker rejects sanitize _ es (start_renderer_ok createWorker)) as Hok.
  set (s := preview_run _ _ _ _ es) in *. clearbody s. intros Hl. destruct Hok as [[Hsup _ Hd _] Hw Hq _].
  unfold at_rest. destruct (inFlight s) as [n|] eqn:Ei.
  - specialize (Hw Hl ltac:(eauto)). pose proof (so_deadline _ Hsup) as [_ Hdl]. rewrite Hw in Hdl.
    destruct (WorkerSupervisor.worker (worker s)) as [w|] eqn:Esw; [|done]. destruct Hdl as (h & _ & He).
    do 3 right. exists w, h. rewrite He, Hd, (so_alive _ Hsup), Esw. split_and!; try done.
  - specialize (Hq Hl eq_refl). destruct (queuedFull s); [destruct Hq as [? | ?]; eauto |].
    destruct (queuedEdits s); [destruct Hq as [? | ?]; eauto | by left].
Qed.

(** Two edits, a render that times out, the restarted worker's render. *)
Definition demo_insert (at_ : Z) (text : jstring) : TextEdit := {| from := at_; to := at_; insert := text |}.
Definition demo_run : list PreviewEvent :=
  [PUpdate [demo_insert 0 [65]]; PUpdate [demo_insert 1 [66]]; PTimer 1; PRecovery].

Lemma preview_never_stuck_witness :
  let s := preview_run (fun _ => None) (fun _ => None) id (start_renderer (fun _ => None)) demo_run in
  outbox s = [(0, RenderText 1 [65]); (1, RenderReset); (1, RenderText 2 [65; 66])] /\
  exists w h, WorkerSupervisor.worker (worker s) = Some w /\ alive (worker s) = [w] /\
    t_armed (clock (worker s)) = {[ h := (w, inject_Z RENDER_DEADLINE_MS) ]} /\ is_Some (inFlight s).
Proof.
  cbv zeta. split; [vm_compute; reflexivity |].
  destruct (preview_never_stuck (fun _ => None) (fun _ => None) id demo_run) as [H | [H | [H | H]]].
  - split; vm_compute; reflexivity.
  - exfalso. revert H. unfold at_rest. vm_compute. by intros [].
  - exfalso. revert H. vm_compute. by intros [].
  - exfalso. revert H. vm_compute. done.
  - exact H.
Defined.
