(* ===== verification/PreviewChannel.v ===== *)
(** The preview as a whole: the page's renderer and its workers over their two
    message channels, the agreement between the page's queue and the text a
    worker holds, and the way to rest. *)

From S2P Require Import Prelude.
From S2P Require Import Bytes.
From S2P Require Import Timers.
From S2P Require Import TextChange.
From S2P Require Import SourceBlocks.
From S2P Require Import PreviewDom.
From S2P Require Import Hoare.
From S2P Require Import MarkdownWorker.
From S2P Require Import WorkerSupervisor.
From S2P Require Import Preview.

(** ** The system *)

(** A worker's module state, how many of the messages posted to it have been
    handled, and its answers on the way to the page. *)
Record Proc (Env : Type) := {
  state : Worker Env; processed : nat; answers : list RenderResponse }.
Arguments state {Env}.
Arguments processed {Env}.
Arguments answers {Env}.

Record System (Env : Type) := { page : Renderer; procs : gmap Z (Proc Env) }.
Arguments page {Env}.
Arguments procs {Env}.

(** What has been posted to worker [w], in order. *)
Definition mail (w : Z) (outbox : list (Z * RenderRequest)) : list RenderRequest :=
  omap (fun m => if m.1 =? w then Some m.2 else None) outbox.
#[global] Arguments mail : simpl never.

Section System.
Context {Env : Type} (empty_env : Env) (definitions : Env -> env_json).
Context (parse : features -> jstring -> Env -> res (list Token * Env)).
Context (render_tokens : features -> list Token -> Env -> res jstring).
Context (createWorker rejects : Z -> option thrown) (sanitize : jstring -> jstring).
(** [crypto.randomUUID()] as evaluated by the n-th worker. *)
Context (generation : Z -> jstring).
Implicit Types (y : System Env) (p : Proc Env) (s : Renderer).

(** The module as first evaluated. *)
Definition fresh_worker (w : Z) : Worker Env :=
  mkWorker {| katex := false; highlightCode := false |} false false [] [] [] [] empty_env [] (generation w).

Definition proc_of (ps : gmap Z (Proc Env)) (w : Z) : Proc Env :=
  default {| state := fresh_worker w; processed := 0; answers := [] |} (ps !! w).

Definition start_system : System Env :=
  {| page := start_renderer createWorker; procs := ∅ |}.

Definition inbox p (w : Z) s : list RenderRequest := drop (processed p) (mail w (outbox s)).

(** Handling the next message. Messages are handled one at a time
    ([handlers_run_in_turn]), so a message is one step. *)
Definition work (im : imports) p (w : Z) s : Proc Env :=
  match inbox p w s with
  | [] => p
  | m :: _ =>
      let '(st, rs) := processMessage empty_env definitions parse render_tokens im m (state p) in
      {| state := st; processed := S (processed p);
         answers := answers p ++ rs |}
  end.

(** A page event, a worker's turn, the delivery of a worker's answer. *)
Inductive system_event :=
| YPage (e : PreviewEvent)
| YWork (w : Z) (im : imports)
| YDeliver (w : Z).

Definition system_step y (e : system_event) : System Env :=
  match e with
  | YPage (PMessage _ _) => y
  | YPage e =>
      {| page := preview_step createWorker rejects sanitize (page y) e; procs := procs y |}
  | YWork w im =>
      if bool_decide (w ∈ alive (worker (page y))) then
        {| page := page y; procs := <[w := work im (proc_of (procs y) w) w (page y)]> (procs y) |}
      else y
  | YDeliver w =>
      let p := proc_of (procs y) w in
      match answers p with
      | [] => y
      | r :: rest =>
          {| page := preview_step createWorker rejects sanitize (page y) (PMessage w r);
             procs := <[w := {| state := state p; processed := processed p; answers := rest |}]> (procs y) |}
      end
  end.

Definition system_run y (es : list system_event) : System Env := fold_left system_step es y.
End System.

Lemma system_run_app {Env} (empty_env : Env) definitions parse render_tokens createWorker rejects sanitize generation y es es' :
  system_run empty_env definitions parse render_tokens createWorker rejects sanitize generation y (es ++ es') =
  system_run empty_env definitions parse render_tokens createWorker rejects sanitize generation
    (system_run empty_env definitions parse render_tokens createWorker rejects sanitize generation y es) es'.
Proof. apply fold_left_app. Qed.

(** ** Channels *)

Lemma mail_snoc_eq w out m : mail w (out ++ [(w, m)]) = mail w out ++ [m].
Proof. unfold mail. rewrite omap_app. cbn. by rewrite Z.eqb_refl. Qed.

Lemma mail_snoc_ne w v out m : v <> w -> mail w (out ++ [(v, m)]) = mail w out.
Proof. intros Hne. unfold mail. rewrite omap_app. cbn. apply Z.eqb_neq in Hne. by rewrite Hne, app_nil_r. Qed.

Definition resets (l : list RenderRequest) : Prop := Forall (fun m => m = RenderReset) l.

Lemma resets_snoc l : resets l -> resets (l ++ [RenderReset]).
Proof. intros H. apply Forall_app. split; [done | by constructor]. Qed.

(** ** The page and its worker in step *)

Section InStep.
Context {Env : Type} (empty_env : Env) (definitions : Env -> env_json).
Context (parse : features -> jstring -> Env -> res (list Token * Env)).
Context (render_tokens : features -> list Token -> Env -> res jstring).
Context (createWorker rejects : Z -> option thrown) (sanitize : jstring -> jstring).
Context (generation : Z -> jstring).
Implicit Types (y : System Env) (p : Proc Env) (s : Renderer).

Abbreviation good_worker := (worker_ok empty_env parse render_tokens).

(** The text [T] the worker is on its way to, or nothing after a reset. *)
Definition holds p (T : jstring) : Prop := lastText (state p) = T \/ lastText (state p) = [].

(** A render of [T] under sequence number [seq]. *)
Definition renders (g : jstring) p (T : jstring) (seq : Z) (m : RenderRequest) : Prop :=
  m = RenderText seq T \/
  exists q T0, m = RenderPatch q /\ p_seq q = seq /\ applyTextEdits T0 (p_edits q) = Ok T /\
    p_baseChars q = len T0 /\ p_chars q = len T /\ holds p T0.

(** An answer to it: the rendering, or a request for the whole text. *)
Definition answers_render (g : jstring) p (T : jstring) (seq : Z) (a : RenderResponse) : Prop :=
  response_seq a = seq /\ response_generation a = g /\
  match a with Rendered _ _ _ _ _ _ _ _ => holds p T | RenderResync _ _ _ _ => True end.

(** Where the render in flight is: nowhere, before the worker, behind it. *)
Definition on_the_way (g : jstring) p (inb : list RenderRequest) (T : jstring) s : Prop :=
  match inFlight s with
  | None => resets inb /\ answers p = [] /\ (workerGeneration s <> [] -> holds p T)
  | Some seq =>
      (exists before m after, inb = before ++ m :: after /\ resets before /\ resets after /\
         answers p = [] /\ renders g p T seq m) \/
      (resets inb /\ exists a, answers p = [a] /\ answers_render g p T seq a)
  end.

(** The channel between the page and its current worker [w]. *)
Record wired (ps : gmap Z (Proc Env)) s (w : Z) (T : jstring) : Prop := {
  wi_generation : WORKER_GENERATION (state (proc_of empty_env generation ps w)) = generation w;
  wi_worker : good_worker (state (proc_of empty_env generation ps w));
  wi_processed : (processed (proc_of empty_env generation ps w) <= length (mail w (outbox s)))%nat;
  wi_known : workerGeneration s = [] \/ workerGeneration s = generation w;
  wi_way : on_the_way (generation w) (proc_of empty_env generation ps w)
             (inbox (proc_of empty_env generation ps w) w s) T s }.

(** The page's source is [T] with the queued text and the queued edits on it. *)
Definition queued (T : jstring) s : Prop :=
  let base := default T (queuedFull s) in
  match queuedEdits s with
  | None => sourceText s = base
  | Some q => applyTextEdits base (q_edits q) = Ok (sourceText s) /\ q_baseChars q = len base /\
              q_chars q = len (sourceText s)
  end.

(** Workers not created yet have no mail and no state. *)
Definition unborn (ps : gmap Z (Proc Env)) s : Prop :=
  forall w, created (worker s) <= w -> mail w (outbox s) = [] /\ ps !! w = None.

Definition running s (w : Z) : Prop := live s /\ WorkerSupervisor.worker (worker s) = Some w.

Record in_step (ps : gmap Z (Proc Env)) s : Prop := {
  is_ok : attached s;
  is_unborn : unborn ps s;
  is_wired : forall w, running s w -> exists T, wired ps s w T /\ queued T s }.

(** *** The channel under page steps *)

(** States that differ in nothing the channel reads. *)
Definition same_wire s s' : Prop :=
  outbox s' = outbox s /\ inFlight s' = inFlight s /\ workerGeneration s' = workerGeneration s.

Lemma wired_same ps s s' w T : same_wire s s' -> wired ps s w T -> wired ps s' w T.
Proof.
  intros (E1 & E2 & E3) []. unfold on_the_way, inbox in *.
  split; unfold on_the_way, inbox; rewrite ?E1, ?E2, ?E3; done.
Qed.

(** A worker that has just been created. *)
Lemma wired_new ps s w T :
  mail w (outbox s) = [] -> ps !! w = None -> inFlight s = None -> workerGeneration s = [] ->
  wired ps s w T.
Proof.
  intros Hm Hp Hi Hg. assert (proc_of empty_env generation ps w = {| state := fresh_worker empty_env generation w; processed := 0; answers := [] |}) as E
    by (unfold proc_of; by rewrite Hp).
  split; rewrite ?E; cbn; try done; [|lia | by left |].
  - split; [intros k Hk; by apply not_elem_of_nil in Hk | constructor].
  - unfold on_the_way, inbox. rewrite Hi, Hm. cbn. split_and!; [constructor | done | done].
Qed.

(** A reset behind everything else on the way. *)
Lemma way_reset g p inb T s s' :
  inFlight s' = inFlight s -> workerGeneration s' = workerGeneration s ->
  on_the_way g p inb T s -> on_the_way g p (inb ++ [RenderReset]) T s'.
Proof.
  intros E1 E2. unfold on_the_way. rewrite E1, E2. destruct (inFlight s) as [seq|].
  - intros [(b & m & a & -> & Hb & Ha & H1 & H2) | [Hr H]]; [left | right].
    + exists b, m, (a ++ [RenderReset]). rewrite <- app_assoc. split_and!; try done. by apply resets_snoc.
    + split; [by apply resets_snoc | done].
  - intros (Hr & H1 & H2). split_and!; [by apply resets_snoc | done..].
Qed.

Lemma inbox_snoc p w m s s' :
  (processed p <= length (mail w (outbox s)))%nat -> outbox s' = outbox s ++ [(w, m)] ->
  inbox p w s' = inbox p w s ++ [m].
Proof. intros H E. unfold inbox. rewrite E, mail_snoc_eq. by apply drop_app_le. Qed.

(** Posting puts the message at the end of the channel, or the worker is lost. *)
Definition delivered_to ps s (message : RenderRequest) (b : bool) s' : Prop :=
  forall w, running s' w ->
    if b then running s w /\ same_wire (s <| outbox := outbox s ++ [(w, message)] |>) s' /\
      queuedFull s' = queuedFull s /\ queuedEdits s' = queuedEdits s /\ sourceText s' = sourceText s
    else (forall T, wired ps s' w T) /\ queuedFull s' = Some (sourceText s) /\ queuedEdits s' = None /\
      sourceText s' = sourceText s /\ inFlight s' = None.

Lemma posted_wired ps s message expect s' b :
  attached s -> unborn ps s -> live s -> posted sanitize message expect s s' b ->
  unborn ps s' /\ delivered_to ps s message b s'.
Proof.
  intros Ha Hu Hl Hp. destruct Hp as [v sup Hv Hv' Hok Hst Hd Hc Haw | Hs | sup Hok Hst Hd Hsw Hc | sup Hok Hst Hd Hc].
  - split.
    + intros w Hge. assert (created (worker s) <= w) as Hge' by (by rewrite <- Hc).
      destruct (Hu w Hge') as [Hm Hp]. split; [|done].
      change (mail w (outbox s ++ [(v, message)]) = []). rewrite mail_snoc_ne; [done |].
      pose proof (at_known s Ha v Hv). lia.
    + intros w [_ Hw]. assert (w = v) as -> by (cbn in Hw; congruence). by split_and!.
  - split; [done |]. intros w [_ Hw]. cbn in Hw. exfalso.
    pose proof (so_starting _ (at_ok s Ha) Hs) as Hx. pose proof (so_worker _ (at_ok s Ha)) as Hy.
    by rewrite Hw, Hx in Hy.
  - rewrite onWorkerRecovery_live by done. split.
    + intros v Hge. cbn in *. apply Hu. lia.
    + intros w [_ Hw]. cbn in Hw. assert (w = created (worker s)) as -> by congruence.
      destruct (Hu (created (worker s)) ltac:(lia)) as [Hm Hp]. split_and!; try done. intros T. by apply wired_new.
  - rewrite onWorkerTerminal_live by done. split.
    + intros v Hge. cbn in *. apply Hu. lia.
    + by intros w [[_ ?] _].
Qed.

(** *** Pumping *)

(** The state in which the next render is posted. *)
Definition starting_render (edits : option QueuedEdits) s : Renderer :=
  s <| seq_ := seq_ s + 1 |> <| inFlight := Some (seq_ s + 1) |> <| queuedFull := None |> <| queuedEdits := edits |>.

Definition after_post (seq : Z) (r : Renderer * bool) : Renderer :=
  if negb r.2 && bool_decide (inFlight r.1 = Some seq) then r.1 <| inFlight := None |> else r.1.

(** What the render posted next is a render of. *)
Definition next_render (T T' : jstring) (m : RenderRequest) s : Prop :=
  m = RenderText (seq_ s + 1) T' \/
  exists q, m = RenderPatch q /\ p_seq q = seq_ s + 1 /\ applyTextEdits T (p_edits q) = Ok T' /\
    p_baseChars q = len T /\ p_chars q = len T' /\ workerGeneration s <> [].

(** How many more answers a message and a queue can take: a patch may be
    answered by a request for the whole text. *)
Definition message_rank (m : RenderRequest) : nat := match m with RenderText _ _ => 1 | _ => 2 end.
Definition queue_rank s : nat :=
  (match queuedFull s with Some _ => 1 | None => 0 end) + (match queuedEdits s with Some _ => 2 | None => 0 end).

Lemma pump_starts s :
  live s -> inFlight s = None ->
  let pumped := pump createWorker rejects sanitize s in
  pumped = s /\ queuedFull s = None /\ queuedEdits s = None \/
  exists m T' edits,
    pumped = after_post (seq_ s + 1) (post_ createWorker rejects sanitize m true (starting_render edits s)) /\
    m <> RenderReset /\
    (message_rank m + queue_rank (starting_render edits s) <= queue_rank s)%nat /\
    forall T, queued T s -> queued T' (starting_render edits s) /\ next_render T T' m s.
Proof.
  intros [Hd Ht] Hi. cbv zeta. unfold pump. rewrite Hi, Hd, Ht. cbn [orb].
  rewrite bool_decide_false by (by intros []). cbn [orb].
  destruct (queuedEdits s) as [q|] eqn:Ee.
  - rewrite bool_decide_true by done. cbn [andb]. destruct (str_eqb (workerGeneration s) []) eqn:Eg.
    + cbn. right. exists (RenderText (seq_ s + 1) (sourceText s)), (sourceText s), None.
      split_and!; [|done | unfold queue_rank; cbn; rewrite Ee; destruct (queuedFull s); cbn; lia | intros T Hq; split; [done | by left]]. unfold after_post, starting_render.
      match goal with |- context [post_ ?a ?b ?c ?m ?e ?x] => destruct (post_ a b c m e x) end. done.
    + assert (workerGeneration s <> []) as Hg by (intros E; by rewrite E in Eg).
      destruct (queuedFull s) as [t|] eqn:Ef.
      * right. exists (RenderText (seq_ s + 1) t), t, (queuedEdits s).
        split_and!; [|done | unfold queue_rank; cbn; rewrite Ef; cbn; lia | intros T Hq; split; [|by left]].
        -- unfold after_post, starting_render.
           assert (s <| seq_ := seq_ s + 1 |> <| inFlight := Some (seq_ s + 1) |> <| queuedFull := None |> <| queuedEdits := queuedEdits s |>
             = s <| seq_ := seq_ s + 1 |> <| inFlight := Some (seq_ s + 1) |> <| queuedFull := None |>) as -> by (by destruct s).
           destruct (post_ _ _ _ _ _ _). done.
        -- unfold queued, starting_render in *. cbn. rewrite Ee, Ef in *. done.
      * right. exists (RenderPatch {| p_seq := seq_ s + 1; p_edits := q_edits q; p_generation := workerGeneration s;
          p_baseChars := q_baseChars q; p_chars := q_chars q |}), (sourceText s), None.
        split_and!; [|done | unfold queue_rank; cbn; rewrite Ee, Ef; cbn; lia | intros T Hq; split; [done |]].
        -- rewrite Ee. unfold after_post, starting_render.
           assert (s <| seq_ := seq_ s + 1 |> <| inFlight := Some (seq_ s + 1) |> <| queuedFull := None |> <| queuedEdits := None |>
             = s <| seq_ := seq_ s + 1 |> <| inFlight := Some (seq_ s + 1) |> <| queuedEdits := None |>) as ->
             by (rewrite <- Ef; by destruct s).
           change (workerGeneration (s <| seq_ := seq_ s + 1 |> <| inFlight := Some (seq_ s + 1) |>)) with (workerGeneration s).
           match goal with |- context [post_ ?a ?b ?c ?m ?e ?x] => destruct (post_ a b c m e x) end. done.
        -- unfold queued in Hq. rewrite Ee, Ef in Hq. cbn in Hq. right. eexists. split; [reflexivity |]. cbn. destruct Hq as (? & ? & ?). by split_and!.
  - rewrite bool_decide_false by (by intros []). cbn [andb]. rewrite Ee.
    destruct (queuedFull s) as [t|] eqn:Ef; [right | by left].
    exists (RenderText (seq_ s + 1) t), t, None.
    split_and!; [|done | unfold queue_rank; cbn; rewrite ?Ef; cbn; lia | intros T Hq; split; [|by left]].
    2: { unfold queued, starting_render in *. cbn. rewrite Ee, Ef in *. done. }
    unfold after_post, starting_render.
    assert (s <| seq_ := seq_ s + 1 |> <| inFlight := Some (seq_ s + 1) |> <| queuedFull := None |> <| queuedEdits := None |>
      = s <| seq_ := seq_ s + 1 |> <| inFlight := Some (seq_ s + 1) |> <| queuedFull := None |>) as -> by (rewrite <- Ee; by destruct s).
    destruct (post_ _ _ _ _ _ _). done.
Qed.

Lemma after_post_id seq r : inFlight r.1 = None \/ r.2 = true -> after_post seq r = r.1.
Proof. unfold after_post. intros [-> | ->]; [|done]. by rewrite bool_decide_false, andb_false_r. Qed.

Lemma pump_in_step ps s :
  in_step ps s -> in_step ps (pump createWorker rejects sanitize s).
Proof.
  intros [Ha Hu Hw]. destruct (live_dec s) as [Hl | Hl].
  2: { unfold pump. rewrite <- orb_assoc, not_live_guard, orb_true_r by done. by split. }
  destruct (inFlight s) as [n|] eqn:Ei; [unfold pump; rewrite Ei, bool_decide_true by eauto; by split |].
  destruct (pump_starts s Hl Ei) as [(-> & _ & _) | (m & T' & edits & -> & _ & _ & Hq)]; [by split |].
  assert (attached (starting_render edits s)) as Ha1 by (destruct Ha; by split).
  pose proof (post_posted createWorker rejects sanitize m true (starting_render edits s) Ha1 Hl) as Hp. cbv zeta in Hp.
  destruct (post_ _ _ _ _ _ _) as [s2 b]. cbn [fst snd] in Hp.
  pose proof (posted_attached _ _ _ _ _ _ Ha1 Hl Hp) as Ha2.
  destruct (posted_wired ps _ _ _ _ _ Ha1 Hu Hl Hp) as [Hu2 Hd]. clear Hp.
  assert (forall w, running s2 w -> exists T, wired ps (after_post (seq_ s + 1) (s2, b)) w T /\
    queued T (after_post (seq_ s + 1) (s2, b))) as Hgoal.
  { intros w Hr. specialize (Hd w Hr). destruct b.
    - destruct Hd as (Hr1 & Hsame & E1 & E2 & E3). rewrite after_post_id by auto. cbn [fst].
      destruct (Hw w Hr1) as (T & [] & HqT). destruct (Hq T HqT) as [Hq' Hn].
      exists T'. split.
      + eapply wired_same; [exact Hsame |]. unfold on_the_way in wi_way0. rewrite Ei in wi_way0. destruct wi_way0 as (Hres & Hans & Hh).
        split; cbn [outbox workerGeneration]; try done.
        * cbn. rewrite mail_snoc_eq, length_app. lia.
        * erewrite inbox_snoc; [|exact wi_processed0 | reflexivity]. unfold on_the_way. cbn. left.
          eexists _, m, []. split_and!; [reflexivity | done | constructor | done |].
          destruct Hn as [-> | (q & -> & ? & ? & ? & ? & ?)]; [by left | right]. exists q, T. split_and!; auto.
      + unfold queued in *. rewrite E1, E2, E3. done.
    - destruct Hd as (Hwi & E1 & E2 & E3 & E4). rewrite after_post_id by auto. cbn [fst].
      exists (sourceText s). split; [done | unfold queued; by rewrite E1, E2, E3]. }
  split.
  - unfold after_post. cbn [fst snd]. destruct (_ && _); [destruct Ha2; by split | done].
  - unfold after_post. cbn [fst snd]. by destruct (_ && _).
  - intros w Hr. assert (running s2 w) as Hr2 by (revert Hr; unfold after_post; cbn [fst snd]; by destruct (_ && _)).
    by apply Hgoal.
Qed.

(** *** Resets, answers, failures *)

Lemma reset_in_step ps s :
  attached s -> unborn ps s -> live s ->
  let s' := (post_ createWorker rejects sanitize RenderReset false s).1 in
  attached s' /\ unborn ps s' /\
  forall w, running s' w ->
    running s w /\ (forall T, wired ps s w T -> wired ps s' w T) /\ inFlight s' = inFlight s /\
      queuedFull s' = queuedFull s /\ queuedEdits s' = queuedEdits s /\ sourceText s' = sourceText s \/
    (forall T, wired ps s' w T) /\ inFlight s' = None /\
      queuedFull s' = Some (sourceText s) /\ queuedEdits s' = None /\ sourceText s' = sourceText s.
Proof.
  intros Ha Hu Hl. pose proof (post_posted createWorker rejects sanitize RenderReset false s Ha Hl) as Hp. cbv zeta in *.
  pose proof (posted_attached _ _ _ _ _ _ Ha Hl Hp) as Ha2.
  destruct (posted_wired ps _ _ _ _ _ Ha Hu Hl Hp) as [Hu2 Hd]. clear Hp.
  destruct (post_ _ _ _ _ _ _) as [s2 b]. cbn [fst snd] in *. split_and!; [done..|].
  intros w Hr. specialize (Hd w Hr). destruct b; [left | right].
  - destruct Hd as (Hr1 & Hsame & E1 & E2 & E3). split_and!; try done; [|by destruct Hsame as (_ & ? & _)].
    intros T []. eapply wired_same; [exact Hsame |]. split; cbn [outbox workerGeneration]; try done.
    + cbn. rewrite mail_snoc_eq, length_app. lia.
    + erewrite inbox_snoc; [|done | reflexivity]. by eapply way_reset.
  - destruct Hd as (? & ? & ? & ? & ?). by split_and!.
Qed.

(** Forgetting the worker's generation loses nothing. *)
Lemma wired_forget ps s w T : wired ps s w T -> wired ps (s <| workerGeneration := [] |>) w T.
Proof.
  intros [Hg Hk Hp _ Hway]. split; try done; [by left |]. unfold on_the_way in *. cbn.
  destruct (inFlight s); [done |]. by destruct Hway as (? & ? & _).
Qed.

Lemma invalidate_in_step ps text s :
  in_step ps s -> in_step ps (invalidate createWorker rejects sanitize text s).
Proof.
  intros [Ha Hu Hw]. unfold invalidate. destruct (_ || _) eqn:El; [by split |]. apply orb_false_iff in El as Hl.
  cbv zeta. apply pump_in_step.
  set (s1 := (cancelIdle s) <| sourceText := text |> <| workerGeneration := [] |>).
  destruct (reset_in_step ps s1) as (Ha2 & Hu2 & Hd); [by destruct Ha; split | done | done |].
  set (s2 := (post_ _ _ _ _ _ s1).1) in *. split; [by destruct Ha2; split | done |].
  intros w Hr. assert (exists T, wired ps s2 w T /\ sourceText s2 = text) as (T & HT & Ht).
  { destruct (Hd w Hr) as [(Hr1 & Hwi & _ & _ & _ & E) | (Hwi & _ & _ & _ & E)]; [|by exists []].
    destruct (Hw w Hr1) as (T & HT & _). exists T. split; [|done]. apply Hwi. apply (wired_same ps (s <| workerGeneration := [] |>)); [done |].
    by apply wired_forget. }
  exists T. split; [by apply (wired_same ps s2) | done].
Qed.

Lemma wired_answer ps s w T r rest :
  wired ps s w T -> answers (proc_of empty_env generation ps w) = r :: rest ->
  rest = [] /\ inFlight s = Some (response_seq r) /\ response_generation r = generation w /\
  resets (inbox (proc_of empty_env generation ps w) w s) /\
  match r with
  | Rendered _ _ _ _ _ _ _ _ => holds (proc_of empty_env generation ps w) T
  | RenderResync _ _ _ _ => True
  end.
Proof.
  intros [_ _ _ _ Hway] Ea. unfold on_the_way in Hway. rewrite Ea in Hway.
  destruct (inFlight s) as [seq|]; [|by destruct Hway as (_ & ? & _)].
  destruct Hway as [(? & ? & ? & _ & _ & _ & ? & _) | (Hr & a & [= <- ->] & Hs & Hg & Hb)]; [done |].
  cbn in *. by subst seq.
Qed.

(** The answer has left the channel. *)
Definition popped ps (w : Z) : gmap Z (Proc Env) :=
  let p := proc_of empty_env generation ps w in
  <[w := {| state := state p; processed := processed p; answers := tl (answers p) |}]> ps.

Lemma proc_of_insert ps w p : proc_of empty_env generation (<[w := p]> ps) w = p.
Proof. unfold proc_of. by rewrite lookup_insert_eq. Qed.

Lemma unborn_insert ps s w p : w < created (worker s) -> unborn ps s -> unborn (<[w := p]> ps) s.
Proof.
  intros Hlt Hu v Hv. destruct (Hu v Hv) as [? ?]. split; [done |]. by rewrite lookup_insert_ne by lia.
Qed.

Lemma onRendered_in_step ps s w r rest :
  attached s -> unborn ps s -> running s w -> (exists T, wired ps s w T /\ queued T s) ->
  answers (proc_of empty_env generation ps w) = r :: rest ->
  in_step (popped ps w) (onRendered createWorker rejects sanitize r s).
Proof.
  intros Ha Hu [Hl Hw] (T & Hwi & Hq) Ea. unfold onRendered. rewrite live_guard by done. cbv zeta.
  destruct (wired_answer ps s w T r rest Hwi Ea) as (-> & Hi & Hg & Hres & Hr).
  rewrite Hi, bool_decide_true by done. cbn [negb].
  assert (unborn (popped ps w) s) as Hu' by (apply unborn_insert; [by apply (at_known s Ha) | done]).
  assert (forall s1 T1, outbox s1 = outbox s -> inFlight s1 = None -> workerGeneration s1 = generation w ->
    holds (proc_of empty_env generation ps w) T1 -> wired (popped ps w) s1 w T1) as Hpop.
  { destruct Hwi as [Hwg Hwo Hpr _ _]. intros s1 T1 E1 E2 E3 Hh.
    split; unfold inbox, popped; rewrite ?proc_of_insert; cbn [processed state answers]; rewrite ?E1; try done; [by right |].
    unfold on_the_way, inbox in *. cbn [processed state answers]. rewrite E2, Ea. done. }
  assert (forall s1 v, worker s1 = worker s -> running s1 v -> v = w) as Hsame
    by (intros s1 v E [_ Hv]; rewrite E in Hv; congruence).
  destruct r as [seq g blocks hs mode d n c | seq g n reason]; cbn [response_seq response_generation] in *; subst g.
  - destruct (patch sanitize blocks _) as [[d' ?] more]. apply pump_in_step.
    split; [by destruct Ha; split | done |]. intros v Hv. apply Hsame in Hv as ->; [|done].
    exists T. split; [by apply Hpop | done].
  - match goal with |- context [post_ _ _ _ _ _ ?x] => set (s1 := x) end.
    destruct (reset_in_step (popped ps w) s1) as (Ha2 & Hu2 & Hd); [by destruct Ha; split | done | done |].
    apply pump_in_step. split; [done | done |]. intros v Hv.
    destruct (Hd v Hv) as [(Hr1 & Hk & Hi2 & E1 & E2 & E3) | (Hk & Hi2 & E1 & E2 & E3)].
    + apply Hsame in Hr1 as ->; [|done]. exists (lastText (state (proc_of empty_env generation ps w))).
      split; [apply Hk, Hpop; by try left |].
      unfold queued. by rewrite E1, E2, E3.
    + exists []. split; [by apply Hk |]. unfold queued. by rewrite E1, E2, E3.
Qed.

(** *** A worker's turn *)

Abbreviation handle im m p := (processMessage empty_env definitions parse render_tokens im m (state p)).

Definition answer_rank (r : RenderResponse) : nat :=
  match r with Rendered _ _ _ _ _ _ _ _ => 1 | RenderResync _ _ _ _ => 2 end.

Lemma handle_reset im p :
  exists st, handle im RenderReset p = (st, []) /\ lastText st = [] /\ good_worker st /\
    WORKER_GENERATION st = WORKER_GENERATION (state p).
Proof. eexists. split_and!; try reflexivity.
  split; [intros k Hk; by apply not_elem_of_nil in Hk | constructor].
Qed.

Lemma answered_answers g p seq T st r :
  WORKER_GENERATION (state p) = g -> answered empty_env parse render_tokens (state p) seq T st r ->
  forall p', state p' = st -> answers_render g p' T seq r.
Proof.
  intros Hg (Ht & _ & Hor) p' Ep. unfold answers_render, holds. cbn. rewrite Ep.
  destruct Hor as [(bs & hs & mode & d & n & -> & _) | (w1 & [Hg1 _] & _ & ->)]; cbn; split_and!; auto; congruence.
Qed.

Lemma handle_render g im p T seq m :
  good_worker (state p) -> WORKER_GENERATION (state p) = g -> renders g p T seq m ->
  exists st r, handle im m p = (st, [r]) /\ good_worker st /\ WORKER_GENERATION st = g /\
    (answer_rank r <= message_rank m)%nat /\
    (forall p', state p' = st -> answers_render g p' T seq r) /\
    match r with Rendered _ _ _ _ _ _ _ _ => answered empty_env parse render_tokens (state p) seq T st r | _ => True end.
Proof.
  intros Hok Hg Hm.
  assert (forall text, text = T -> exists st r,
    render_accepted empty_env definitions parse render_tokens im seq text (state p) = (st, [r]) /\ good_worker st /\
    WORKER_GENERATION st = g /\ answer_rank r = 1%nat /\
    (forall p', state p' = st -> answers_render g p' T seq r) /\
    match r with Rendered _ _ _ _ _ _ _ _ => answered empty_env parse render_tokens (state p) seq T st r | _ => True end) as Hacc.
  { intros text ->.
    destruct (render_accepted_ok empty_env definitions parse render_tokens im seq T (state p) Hok) as (st & r & E & Hok' & Hans).
    exists st, r. split_and!; [done | done | by destruct Hans as (_ & -> & _) | | by eapply answered_answers | by destruct r].
    destruct Hans as (_ & _ & [(bs & hs & mode & d & n & -> & _) | (w1 & _ & _ & ->)]); done. }
  destruct Hm as [-> | (q & T0 & -> & <- & He & Hb & Hc & Hh)]; cbn [processMessage].
  { destruct (Hacc T eq_refl) as (st & r & ? & ? & ? & E & ? & ?). exists st, r. rewrite E. by split_and!. }
  assert (transitionPatch (lastText (state p)) (WORKER_GENERATION (state p)) q = Applied T \/
    exists n reason, transitionPatch (lastText (state p)) (WORKER_GENERATION (state p)) q = Resync (p_seq q) g n reason) as Htr.
  { unfold transitionPatch. rewrite Hg. destruct (negb (str_eqb _ _)); [by right; eexists _, _ |].
    destruct (Z.eqb_spec (p_baseChars q) (len (lastText (state p)))) as [El |]; cbn [negb]; [|by right; eexists _, _].
    assert (lastText (state p) = T0) as Et.
    { destruct Hh as [? | Hh]; [done |]. rewrite Hh in El |- *. rewrite Hb in El. symmetry.
      unfold len in El. destruct T0; [done | cbn in El; lia]. }
    rewrite Et, He, Hc, Z.eqb_refl. by left. }
  destruct Htr as [-> | (n & reason & ->)].
  { destruct (Hacc T eq_refl) as (st & r & ? & ? & ? & E & ? & ?). exists st, r. rewrite E. split_and!; try done. cbn. lia. }
  exists (state p), (RenderResync (p_seq q) g n reason). split_and!; try done.
Qed.

Lemma inbox_next p p' w s m rest :
  inbox p w s = m :: rest -> processed p' = S (processed p) ->
  inbox p' w s = rest /\ (processed p' <= length (mail w (outbox s)))%nat.
Proof.
  unfold inbox. intros E ->. split.
  - rewrite <- (drop_drop (mail w (outbox s)) (processed p) 1) || rewrite <- Nat.add_1_r, <- drop_drop. by rewrite E.
  - assert (length (drop (processed p) (mail w (outbox s))) = S (length rest)) as Hl by (by rewrite E).
    rewrite length_drop in Hl. lia.
Qed.

Lemma work_wired im ps s w T :
  wired ps s w T ->
  wired (<[w := work empty_env definitions parse render_tokens im (proc_of empty_env generation ps w) w s]> ps) s w T.
Proof.
  set (p := proc_of empty_env generation ps w). intros [Hg Hok Hp Hk Hway]. unfold work. fold p in Hg, Hok, Hp, Hway |- *.
  destruct (inbox p w s) as [|m rest] eqn:Ei.
  { split; rewrite ?proc_of_insert; rewrite ?Ei; done. }
  destruct (handle im m p) as [st rs] eqn:Eh.
  set (p' := {| state := st; processed := S (processed p); answers := _ |}).
  destruct (inbox_next p p' w s m rest Ei eq_refl) as [Ei' Hp'].
  assert (WORKER_GENERATION st = generation w -> good_worker st -> on_the_way (generation w) p' rest T s ->
    wired (<[w := p']> ps) s w T) as Hgoal by (intros; split; rewrite ?proc_of_insert, ?Ei'; done).
  assert (m = RenderReset -> answers p' = answers p /\ lastText st = [] /\ good_worker st /\ WORKER_GENERATION st = generation w) as Hreset.
  { intros ->. destruct (handle_reset im p) as (st' & E & Ht & Ho & Hgen). rewrite Eh in E. apply pair_equal_spec in E as [-> ->].
    unfold p'. cbn. rewrite app_nil_r. split_and!; try done. congruence. }
  assert (lastText st = [] -> forall T', holds p' T') as Hempty by (intros E T'; by right).
  unfold on_the_way in Hway, Hgoal. destruct (inFlight s) as [seq|].
  - destruct Hway as [(before & m0 & after & E & Hb & Ha & Hans & Hm) | (Hr & a & Hans & Har)].
    + destruct before as [|b0 before]; injection E as <- ->.
      * destruct (handle_render (generation w) im p T seq m Hok Hg Hm) as (st' & r & E & Ho & Hgen & _ & Hans' & _).
        rewrite Eh in E. apply pair_equal_spec in E as [-> ->]. apply Hgoal; [done..|]. right. split; [done |].
        eexists. split; [unfold p'; cbn; by rewrite Hans | by apply Hans'].
      * apply Forall_cons in Hb as [-> Hb]. destruct (Hreset eq_refl) as (E1 & E2 & ? & ?).
        apply Hgoal; [done..|]. left. exists before, m0, after. split_and!; try done; [congruence |].
        destruct Hm as [-> | (q & T0 & ? & ? & ? & ? & ? & _)]; [by left | right]. exists q, T0. split_and!; auto.
    + apply Forall_cons in Hr as [-> Hr]. destruct (Hreset eq_refl) as (E1 & E2 & ? & ?).
      apply Hgoal; [done..|]. right. split; [done |]. exists a. split; [congruence |].
      destruct Har as (? & ? & Hbody). split_and!; try done. destruct a; [auto | done].
  - destruct Hway as (Hr & Hans & _). apply Forall_cons in Hr as [-> Hr]. destruct (Hreset eq_refl) as (E1 & E2 & ? & ?).
    apply Hgoal; [done..|]. split_and!; [done | congruence | auto].
Qed.

(** *** Page events *)

Lemma update_in_step ps edits s :
  in_step ps s -> in_step ps (update createWorker rejects sanitize edits s).1.
Proof.
  intros [Ha Hu Hw]. unfold update. destruct (_ || _) eqn:El; [by split |]. cbv zeta.
  destruct (applyTextEdits (sourceText s) edits) as [t | e] eqn:Et; [|by split].
  change (queuedEdits (s <| sourceText := t |>)) with (queuedEdits s). apply pump_in_step.
  split; [by destruct Ha; split | done |]. intros w Hr. destruct (Hw w Hr) as (T & Hwi & Hq).
  exists T. split; [by apply (wired_same ps s) |].
  unfold queued in *. cbn [queuedEdits queuedFull sourceText]. destruct (queuedEdits s) as [q|]; cbn [q_edits q_baseChars q_chars app].
  - destruct Hq as (He & Hb & Hc). split_and!; [| exact Hb | reflexivity].
    cbn in He |- *. by rewrite applyTextEdits_app, He.
  - cbn in Hq |- *. by rewrite <- Hq.
Qed.

(** The worker is replaced or given up. *)
Lemma failed_in_step ps s sup n :
  attached s -> unborn ps s -> attached (on_failure sanitize n (s <| worker := sup |>)) ->
  created (worker s) <= created sup ->
  match n with
  | OnRecover _ => WorkerSupervisor.worker sup = Some (created (worker s)) /\ created (worker s) < created sup
  | OnTerminal _ => True
  | OnMessage _ => False
  end ->
  in_step ps (on_failure sanitize n (s <| worker := sup |>)).
Proof.
  intros Ha Hu Ha' Hc Hn. destruct (live_dec s) as [Hl | Hl].
  - destruct n as [r | f | f]; [done | |]; cbn [on_failure] in *.
    + destruct Hn as [Hw Hlt]. rewrite onWorkerRecovery_live in * by done. split; [done | |].
      * intros v Hv. apply Hu. cbn in Hv. lia.
      * intros w [_ Hw']. cbn in Hw'. assert (w = created (worker s)) as -> by congruence.
        destruct (Hu (created (worker s)) ltac:(lia)) as [? ?]. exists []. split; [by apply wired_new | done].
    + rewrite onWorkerTerminal_live in * by done. split; [done | |].
      * intros v Hv. apply Hu. cbn in Hv. lia.
      * by intros w [[_ ?] _].
  - assert (on_failure sanitize n (s <| worker := sup |>) = s <| worker := sup |>) as E.
    { destruct n; [done | |]; cbn [on_failure]; [unfold onWorkerRecovery | unfold onWorkerTerminal];
        by rewrite (not_live_guard (s <| worker := sup |>)) by done. }
    rewrite E in *. split; [done | | by intros w [? _]]. intros v Hv. apply Hu. cbn in Hv. lia.
Qed.

Lemma supervised_in_step ps s e :
  in_step ps s -> renderer_ok s ->
  match e with EPost _ _ | EDestroy | EMessage _ _ => False | _ => True end ->
  in_step ps (supervised createWorker rejects sanitize (step createWorker (worker s) e) s).
Proof.
  intros [Ha Hu Hw] Hok He. assert (match e with EPost _ _ | EDestroy => False | _ => True end) as He' by (by destruct e).
  pose proof (supervised_ok createWorker rejects sanitize s e Hok He') as [Ha' _ _ _].
  pose proof (step_reacted createWorker (worker s) e (at_ok s Ha) He') as Hre.
  unfold supervised in *. destruct (step createWorker (worker s) e) as [sup ns]. cbn [fst snd] in *.
  destruct Hre as [| w r -> | f sup Hst Hok' Hd' Hsw Hc Hst' | f sup Hok' Hd' Hst' Hstart Hc]; cbn [fold_left on_notice] in *.
  - rewrite set_worker_same. by split.
  - done.
  - apply failed_in_step; try done; [lia | split; [done | lia]].
  - by apply failed_in_step.
Qed.

Lemma page_in_step ps s e :
  in_step ps s -> renderer_ok s -> match e with PMessage _ _ => False | _ => True end ->
  in_step ps (preview_step createWorker rejects sanitize s e).
Proof.
  intros Hs Hok He. destruct e as [edits|text| |w r|w m|w|h| | |]; cbn [preview_step]; try done.
  - by apply update_in_step.
  - by apply invalidate_in_step.
  - destruct Hs as [Ha Hu Hw]. pose proof (destroy_renderer_ok s Hok) as [Ha' _ _ _].
    split; [done | | by intros w [[? _] _]]. intros v Hv. cbn in Hv.
    destruct (destroy_ok (worker s) (at_ok s Ha)) as (_ & _ & _ & Hc & _). rewrite Hc in Hv. by apply Hu.
  - by apply supervised_in_step.
  - by apply supervised_in_step.
  - by apply supervised_in_step.
  - by apply supervised_in_step.
  - destruct (recoveries s <=? 0); [done |]. set (s1 := s <| recoveries := recoveries s - 1 |>).
    destruct Hs as [Ha Hu Hw]. assert (in_step ps s1) as [Ha1 Hu1 Hw1].
    { split; [by destruct Ha; split | done |]. intros w Hr. destruct (Hw w Hr) as (T & ? & ?).
      exists T. split; [by apply (wired_same ps s) | done]. }
    unfold recovery_microtask. destruct (live_dec s1) as [Hl | Hl]; [|rewrite not_live_guard by done; by split].
    rewrite live_guard by done. apply pump_in_step. destruct (reset_in_step ps s1 Ha1 Hu1 Hl) as (Ha2 & Hu2 & Hd).
    split; [done | done |]. intros w Hr. destruct (Hd w Hr) as [(Hr1 & Hk & Hi & E1 & E2 & E3) | (Hk & Hi & E1 & E2 & E3)].
    + destruct (Hw1 w Hr1) as (T & HT & Hq). exists T. split; [by apply Hk |].
      unfold queued in *. by rewrite E1, E2, E3.
    + exists []. split; [by apply Hk |]. unfold queued. by rewrite E1, E2, E3.
  - unfold idle_callback. destruct (idle s) as [[blocks offset]|]; [|done]. destruct (destroyed s); [done |].
    destruct (remainder_step _ _ _ _) as [d rest]. destruct Hs as [Ha Hu Hw]. split; [by destruct Ha; split | done |].
    intros w Hr. destruct (Hw w Hr) as (T & ? & ?). exists T. split; [by apply (wired_same ps s) | done].
Qed.

(** *** The whole system *)

Abbreviation sys_step := (system_step empty_env definitions parse render_tokens createWorker rejects sanitize generation).

Record system_ok y : Prop := {
  sy_page : renderer_ok (page y);
  sy_step : in_step (procs y) (page y) }.

Lemma alive_running s w : attached s -> w ∈ alive (worker s) -> WorkerSupervisor.worker (worker s) = Some w /\ stopped (worker s) = false.
Proof.
  intros Ha Hin. pose proof (at_ok s Ha) as [_ Hal Hst _ _]. rewrite Hal in Hin.
  destruct (WorkerSupervisor.worker (worker s)) as [v|]; cbn in Hin; [|by apply not_elem_of_nil in Hin].
  apply list_elem_of_singleton in Hin as ->. split; [done |]. rewrite Hst. by apply bool_decide_eq_false.
Qed.

Lemma wired_other ps s v w T p : v <> w -> wired ps s v T -> wired (<[w := p]> ps) s v T.
Proof.
  intros Hne. assert (proc_of empty_env generation (<[w := p]> ps) v = proc_of empty_env generation ps v) as E
    by (unfold proc_of; by rewrite lookup_insert_ne by done).
  intros []. split; by rewrite ?E.
Qed.

Lemma start_system_ok : system_ok (start_system createWorker).
Proof.
  pose proof (start_renderer_ok createWorker) as Hok. split; [done |]. destruct Hok as [Ha _ _ _].
  split; [done | done |]. intros w _. exists []. split; [by apply wired_new | done].
Qed.

(** What the supervisor does with a message of its worker. *)
Definition heard (sup : Supervisor) : Supervisor := (clearDeadline sup) <| failuresWithoutResponse := 0 |>.

Lemma heard_attached s :
  attached s -> attached (s <| worker := heard (worker s) |>) /\
  WorkerSupervisor.worker (heard (worker s)) = WorkerSupervisor.worker (worker s) /\
  created (heard (worker s)) = created (worker s).
Proof.
  intros [Hok Hk Hd Hr]. unfold heard. destruct (clearDeadline_eq (worker s) Hok) as [t E].
  pose proof (ok_clearDeadline (worker s) Hok) as Hok'. rewrite E in *. split_and!; [|done | done].
  split; cbn; try done. destruct Hok' as [? ? ? [Hf0 Hf1] ?]. split; cbn in *; try done.
  split; [done |]. intros Hx. specialize (Hf1 Hx). lia.
Qed.

Lemma message_step s w r :
  attached s ->
  preview_step createWorker rejects sanitize s (PMessage w r) =
    if bool_decide (w ∈ alive (worker s))
    then onRendered createWorker rejects sanitize r (s <| worker := heard (worker s) |>) else s.
Proof.
  intros Ha. unfold preview_step, step. destruct (bool_decide (w ∈ alive (worker s))) eqn:E.
  - apply bool_decide_eq_true in E. apply alive_running in E as [Hw Hs]; [|done].
    unfold onmessage, listening, is_worker. rewrite Hs, Hw, bool_decide_true by done. done.
  - unfold supervised. cbn [fst snd fold_left]. by rewrite set_worker_same.
Qed.

Lemma has_answers_known ps s w :
  unborn ps s -> answers (proc_of empty_env generation ps w) <> [] -> w < created (worker s).
Proof.
  intros Hu Ha. destruct (Z.lt_ge_cases w (created (worker s))) as [|Hge]; [done |].
  destruct (Hu w Hge) as [_ Hp]. destruct Ha. unfold proc_of. by rewrite Hp.
Qed.

Lemma deliver_in_step ps s w r rest :
  in_step ps s -> answers (proc_of empty_env generation ps w) = r :: rest ->
  in_step (popped ps w) (preview_step createWorker rejects sanitize s (PMessage w r)).
Proof.
  intros [Ha Hu Hw] Ea. rewrite message_step by done.
  assert (unborn (popped ps w) s) as Hup by (apply unborn_insert; [apply (has_answers_known ps); [done | by rewrite Ea] | done]).
  destruct (bool_decide (w ∈ alive (worker s))) eqn:El.
  2: { apply bool_decide_eq_false in El.
    split; [done | done |]. intros v Hv. destruct (Hw v Hv) as (T & Hwi & Hq). exists T. split; [|done].
    apply wired_other; [|done]. intros ->. apply El. destruct Hv as [_ Hv].
    rewrite (so_alive _ (at_ok s Ha)), Hv. by apply list_elem_of_singleton. }
  apply bool_decide_eq_true in El. destruct (alive_running s w Ha El) as [Hsw Hst].
  destruct (heard_attached s Ha) as (Ha' & Ew & Ec). set (s' := s <| worker := heard (worker s) |>) in *.
  destruct (live_dec s) as [Hl | Hl].
  - destruct (Hw w (conj Hl Hsw)) as (T & Hwi & Hq).
    assert (unborn ps s') as Hu' by (intros v Hv; apply Hu; by rewrite <- Ec).
    apply (onRendered_in_step ps s' w r rest Ha' Hu'); [split; [done | by rewrite <- Ew in Hsw] | | done].
    exists T. split; [by apply (wired_same ps s) | done].
  - unfold onRendered. rewrite (not_live_guard s') by done.
    split; [done | intros v Hv; apply Hup; by rewrite <- Ec | by intros v [? _]].
Qed.

Lemma system_step_ok y e : system_ok y -> system_ok (sys_step y e).
Proof.
  intros [Hp Hs]. destruct e as [e | w im | w]; cbn [system_step].
  - destruct e; try (by split);
      (split; cbn [page procs]; [by apply preview_step_ok | by apply page_in_step]).
  - destruct (bool_decide (w ∈ alive (worker (page y)))) eqn:El; [|by split].
    apply bool_decide_eq_true in El. destruct Hs as [Ha Hu Hw]. destruct (alive_running _ w Ha El) as [Hsw Hst].
    split; [done |]. split; cbn [page procs]; [done | |].
    + apply unborn_insert; [by apply (at_known _ Ha) | done].
    + intros v Hv. assert (v = w) as -> by (destruct Hv as [_ Hv]; congruence).
      destruct (Hw w Hv) as (T & Hwi & Hq). exists T. split; [by apply work_wired | done].
  - destruct (answers (proc_of empty_env generation (procs y) w)) as [|r rest] eqn:Ea; [by split |].
    split; cbn [page procs]; [by apply preview_step_ok |].
    pose proof (deliver_in_step (procs y) (page y) w r rest Hs Ea) as H.
    unfold popped in H. by rewrite Ea in H.
Qed.

Lemma system_run_ok y es :
  system_ok y -> system_ok (system_run empty_env definitions parse render_tokens createWorker rejects sanitize generation y es).
Proof.
  revert y. induction es as [|e es IH]; intros y Hy; [done |]. cbn. apply IH. by apply system_step_ok.
Qed.

(** *** Coming to rest *)

(** What an undisturbed continuation consists of. *)
Definition undisturbed (w : Z) (e : system_event) : Prop :=
  match e with YWork v _ | YDeliver v => v = w | YPage PRecovery => True | YPage _ => False end.

(** The render in flight: [k] bounds the answers it can take. *)
Definition flight_rank p (w : Z) s (k : nat) : Prop :=
  (exists before m after, inbox p w s = before ++ m :: after /\ resets before /\ resets after /\ answers p = [] /\
     m <> RenderReset /\ (message_rank m <= k)%nat) \/
  (resets (inbox p w s) /\ exists a, answers p = [a] /\ (answer_rank a <= k)%nat).

Lemma post_sends message expect s w :
  (forall n, rejects n = None) -> attached s -> running s w ->
  (post_ createWorker rejects sanitize message expect s).2 = true.
Proof.
  intros Hrej Ha [_ Hw]. unfold post_, WorkerSupervisor.post. rewrite Hw, Hrej.
  pose proof (so_worker _ (at_ok s Ha)) as Hs. rewrite Hw in Hs. by rewrite Hs.
Qed.

(** Nothing but resets on the channel. *)
Definition quiet p (w : Z) s : Prop :=
  resets (inbox p w s) /\ answers p = [] /\ (processed p <= length (mail w (outbox s)))%nat.

(** A render can be taken up by [k + ] the queue's answers, or there is none. *)
Definition bounded p (w : Z) (n : nat) s : Prop :=
  at_rest s \/ (is_Some (inFlight s) /\ exists k, flight_rank p w s k /\ (k + queue_rank s <= n)%nat).

Section Accepting.
(** [postMessage] does not throw. *)
Hypothesis accepting : forall n, rejects n = None.

Lemma posted_sent message expect s w :
  attached s -> running s w -> exists sup,
    post_ createWorker rejects sanitize message expect s =
      (s <| worker := sup |> <| posts := posts s + 1 |> <| outbox := outbox s ++ [(w, message)] |>, true) /\
    WorkerSupervisor.worker sup = Some w /\
    attached (s <| worker := sup |> <| posts := posts s + 1 |> <| outbox := outbox s ++ [(w, message)] |>).
Proof.
  intros Ha Hr. pose proof (post_sends message expect s w accepting Ha Hr) as Hb. destruct Hr as [Hl Hw].
  pose proof (post_posted createWorker rejects sanitize message expect s Ha Hl) as Hp. cbv zeta in Hp.
  pose proof (posted_attached _ _ _ _ _ _ Ha Hl Hp) as Ha'.
  destruct (post_ _ _ _ _ _ _) as [s' b]. cbn [fst snd] in *. subst b.
  inversion Hp as [v sup Hv Hv'| | |]; subst. assert (v = w) as -> by congruence. by exists sup.
Qed.

Lemma pump_settles p s w :
  attached s -> running s w -> inFlight s = None -> quiet p w s ->
  let s' := pump createWorker rejects sanitize s in
  running s' w /\ sourceText s' = sourceText s /\ bounded p w (queue_rank s) s'.
Proof.
  intros Ha Hr Hi (Hres & Hans & Hp). cbv zeta. pose proof Hr as [Hl Hw].
  destruct (pump_starts s Hl Hi) as [(-> & ? & ?) | (m & T' & edits & -> & Hm & Hrank & _)]; [split_and!; try done; by left |].
  assert (attached (starting_render edits s)) as Ha1 by (destruct Ha; by split).
  destruct (posted_sent m true (starting_render edits s) w Ha1 Hr) as (sup & -> & Hsup & _).
  rewrite after_post_id by auto. cbn [fst]. split_and!; [by split | done |].
  right. split; [by eexists |]. exists (message_rank m). split; [|done]. left.
  eexists _, m, []. split_and!; [| exact Hres | constructor | done | done | done].
  by apply (inbox_snoc p w m s).
Qed.

Lemma onRendered_settles p s w r :
  attached s -> running s w -> inFlight s = Some (response_seq r) -> answers p = [r] ->
  resets (inbox p w s) -> (processed p <= length (mail w (outbox s)))%nat ->
  let s' := onRendered createWorker rejects sanitize r s in
  let p' := {| state := state p; processed := processed p; answers := [] |} in
  running s' w /\ sourceText s' = sourceText s /\
  bounded p' w (pred (answer_rank r) + match r with Rendered _ _ _ _ _ _ _ _ => queue_rank s | _ => 0 end) s'.
Proof.
  intros Ha Hr Hi Hans Hres Hp. cbv zeta. pose proof Hr as [Hl Hw]. unfold onRendered.
  rewrite live_guard, Hi, bool_decide_true by done. cbn [negb].
  destruct r as [seq g blocks hs mode d n c | seq g n reason]; cbn [answer_rank pred Nat.add].
  - destruct (patch sanitize blocks _) as [[d' ?] more].
    match goal with |- context [pump _ _ _ ?x] => set (s1 := x) end.
    apply (pump_settles _ s1); [by destruct Ha; split | done | done | done].
  - match goal with |- context [post_ _ _ _ _ _ ?x] => set (s1 := x) end.
    assert (attached s1) as Ha1 by (destruct Ha; by split).
    destruct (posted_sent RenderReset false s1 w Ha1 Hr) as (sup & -> & Hsup & Ha2). cbn [fst].
    match goal with |- context [pump _ _ _ ?x] => set (s2 := x) in * end.
    apply (pump_settles _ s2); [done | by split | done |]. split_and!; [| done |].
    + rewrite (inbox_snoc _ w RenderReset s s2) by done. by apply resets_snoc.
    + change (outbox s2) with (outbox s ++ [(w, RenderReset)]). rewrite mail_snoc_eq, length_app. cbn. lia.
Qed.

Abbreviation sys_run := (system_run empty_env definitions parse render_tokens createWorker rejects sanitize generation).
Abbreviation proc y w := (proc_of empty_env generation (procs y) w).

(** The worker works off its messages up to the answer. *)
Lemma serve (im : imports) y w k :
  system_ok y -> running (page y) w -> is_Some (inFlight (page y)) -> flight_rank (proc y w) w (page y) k ->
  exists es r, Forall (undisturbed w) es /\ page (sys_run y es) = page y /\
    answers (proc (sys_run y es) w) = [r] /\ (answer_rank r <= k)%nat.
Proof.
  intros Hy Hr [seq Hi] [(before & m & after & E & Hb & Ha & Hans & Hm & Hk) | (Hres & r & Hans & Hk)].
  2: { exists [], r. split_and!; [constructor | done | done | done]. }
  revert y Hy Hr Hi E Hans. induction Hb as [|b before -> Hb IH]; intros y Hy Hr Hi E Hans;
    pose proof Hy as [Hok [Hat Hu Hw]];
    (assert (w ∈ alive (worker (page y))) as Hal
       by (destruct Hr as [_ Hsw]; rewrite (so_alive _ (at_ok _ Hat)), Hsw; by apply list_elem_of_singleton));
    pose proof (system_step_ok y (YWork w im) Hy) as Hy1;
    set (y1 := system_step empty_env definitions parse render_tokens createWorker rejects sanitize generation y (YWork w im)) in *;
    assert (page y1 = page y /\ proc y1 w = work empty_env definitions parse render_tokens im (proc y w) w (page y)) as [Ep E1]
      by (unfold y1, system_step; rewrite bool_decide_true by done; cbn [page procs]; by rewrite proc_of_insert).
  - destruct (Hw w Hr) as (T & [Hg Hwo Hp _ Hway] & _). unfold on_the_way in Hway. rewrite Hi, E in Hway.
    destruct Hway as [(before' & m' & after' & E' & Hb' & _ & _ & Hren) | (Hres & _)]; [|by apply Forall_cons in Hres as [? _]].
    destruct before' as [|b before']; injection E' as <- ->; [|by apply Forall_cons in Hb' as [? _]].
    destruct (handle_render (generation w) im (proc y w) T seq m Hwo Hg Hren) as (st & r & Eh & _ & _ & Hrk & _).
    exists [YWork w im], r. split_and!; [by repeat constructor | exact Ep | | lia].
    change (sys_run y [YWork w im]) with y1. rewrite E1. unfold work. rewrite E. cbn [app]. rewrite Eh. cbn [answers]. by rewrite Hans.
  - destruct (handle_reset im (proc y w)) as (st & Eh & _).
    destruct (inbox_next (proc y w) (proc y1 w) w (page y) RenderReset (before ++ m :: after) E) as [Ei _].
    { rewrite E1. unfold work. rewrite E. cbn [app]. by rewrite Eh. }
    destruct (IH y1 Hy1) as (es & r & Hes & Hpg & Hrest); [by rewrite Ep | by rewrite Ep | by rewrite Ep | |].
    { rewrite E1. unfold work. rewrite E. cbn [app]. rewrite Eh. cbn [answers map]. by rewrite app_nil_r. }
    exists (YWork w im :: es), r. split_and!; [by constructor | | apply Hrest..].
    change (sys_run y (YWork w im :: es)) with (sys_run y1 es). by rewrite Hpg.
Qed.

(** One answer brings the page nearer to its rest. *)
Lemma deliver_settles y w r :
  system_ok y -> running (page y) w -> answers (proc y w) = [r] ->
  let y' := system_step empty_env definitions parse render_tokens createWorker rejects sanitize generation y (YDeliver w) in
  running (page y') w /\ sourceText (page y') = sourceText (page y) /\
  bounded (proc y' w) w (pred (answer_rank r) + queue_rank (page y)) (page y').
Proof.
  intros Hy Hr Hans. cbv zeta. pose proof Hy as [_ [Hat Hu Hw]]. destruct (Hw w Hr) as (T & Hwi & _).
  destruct (wired_answer _ _ _ _ _ _ Hwi Hans) as (_ & Hi & _ & Hres & _).
  cbn [system_step]. rewrite Hans. cbn [page procs]. rewrite proc_of_insert, message_step by done.
  rewrite bool_decide_true.
  2: { destruct Hr as [_ Hsw]. rewrite (so_alive _ (at_ok _ Hat)), Hsw. by apply list_elem_of_singleton. }
  destruct (heard_attached _ Hat) as (Ha' & Ew & _). set (s' := (page y) <| worker := _ |>) in *.
  destruct (onRendered_settles (proc y w) s' w r Ha') as (H1 & H2 & H3); try done.
  - destruct Hr as [Hl Hsw]. split; [done |]. by rewrite <- Ew in Hsw.
  - by destruct Hwi.
  - split_and!; [done | done |]. destruct H3 as [H3 | (H3 & k & H4 & H5)]; [by left | right].
    split; [done |]. exists k. split; [done |]. revert H5. change (queue_rank s') with (queue_rank (page y)).
    destruct r; cbn [answer_rank pred]; lia.
Qed.

Lemma bounded_mono p w n n' s : (n <= n')%nat -> bounded p w n s -> bounded p w n' s.
Proof. intros Hn [? | (? & k & ? & ?)]; [by left | right]. split; [done |]. exists k. split; [done | lia]. Qed.

Lemma settles (im : imports) n y w :
  system_ok y -> running (page y) w -> bounded (proc y w) w n (page y) ->
  exists es, Forall (undisturbed w) es /\ running (page (sys_run y es)) w /\ at_rest (page (sys_run y es)) /\
    sourceText (page (sys_run y es)) = sourceText (page y).
Proof.
  revert y. induction n as [n IH] using lt_wf_ind. intros y Hy Hr [Hrest | (Hi & k & Hf & Hk)].
  { exists []. split_and!; [constructor | done..]. }
  destruct (serve im y w k Hy Hr Hi Hf) as (es & r & Hes & Ep & Hans & Hrk).
  pose proof (system_run_ok y es Hy) as Hy1. set (y1 := sys_run y es) in *.
  assert (running (page y1) w) as Hr1 by (by rewrite Ep).
  destruct (deliver_settles y1 w r Hy1 Hr1 Hans) as (Hr2 & Et & Hb).
  pose proof (system_step_ok y1 (YDeliver w) Hy1) as Hy2.
  set (y2 := system_step empty_env definitions parse render_tokens createWorker rejects sanitize generation y1 (YDeliver w)) in *.
  rewrite Ep in Hb, Et.
  assert (pred (answer_rank r) + queue_rank (page y) < n)%nat as Hlt by (destruct r; cbn in *; lia).
  destruct (IH _ Hlt y2 Hy2 Hr2 Hb) as (es2 & Hes2 & H1 & H2 & H3).
  exists (es ++ YDeliver w :: es2). rewrite system_run_app.
  change (sys_run (sys_run y es) (YDeliver w :: es2)) with (sys_run y2 es2).
  split_and!; [|done | done | congruence]. apply Forall_app. split; [done | by constructor].
Qed.

(** A first move: the queued recovery, if nothing is in flight. *)
Lemma system_bounded y w :
  system_ok y -> running (page y) w ->
  exists es n, Forall (undisturbed w) es /\ running (page (sys_run y es)) w /\
    sourceText (page (sys_run y es)) = sourceText (page y) /\
    bounded (proc (sys_run y es) w) w n (page (sys_run y es)).
Proof.
  intros [Hok [Ha Hu Hw]] Hr. pose proof Hr as [Hl Hsw]. destruct (Hw w Hr) as (T & [_ _ Hp _ Hway] & _).
  unfold on_the_way in Hway. destruct (inFlight (page y)) as [seq|] eqn:Ei.
  - exists [], 5%nat. split_and!; [constructor | done | done |]. change (sys_run y []) with y. right. rewrite Ei. split; [done |].
    exists 2%nat. split; [|unfold queue_rank; destruct (queuedFull _), (queuedEdits _); lia].
    destruct Hway as [(b & m & a & E & Hb & Hal & Hans & Hren) | (Hres & a & Hans & _)]; [left | right].
    + exists b, m, a. split_and!; try done; [|destruct m; cbn; lia].
      by destruct Hren as [-> | (q & T0 & -> & _)].
    + split; [done |]. exists a. split; [done |]. destruct a; cbn; lia.
  - destruct (decide (at_rest (page y))) as [Hrest | Hrest].
    { exists [], 0%nat. split_and!; [constructor | done | done | by left]. }
    assert (0 < recoveries (page y)) as Hrec.
    { destruct (ro_queued _ Hok Hl Ei) as [? | Hs]; [| done |].
      - unfold at_rest in Hrest. destruct (queuedFull _); [by left; eexists |]. destruct (queuedEdits _); [by right; eexists | by destruct Hrest].
      - pose proof (so_starting _ (at_ok _ Ha) Hs) as Hx. pose proof (so_worker _ (at_ok _ Ha)) as Hy. by rewrite Hsw, Hx in Hy. }
    set (s1 := (page y) <| recoveries := recoveries (page y) - 1 |>).
    assert (attached s1) as Ha1 by (destruct Ha; by split).
    destruct (posted_sent RenderReset false s1 w Ha1 Hr) as (sup & E & Hsup & Ha2).
    set (s2 := s1 <| worker := sup |> <| posts := posts s1 + 1 |> <| outbox := outbox s1 ++ [(w, RenderReset)] |>) in *.
    destruct Hway as (Hres & Hans & _).
    destruct (pump_settles (proc y w) s2 w Ha2) as (H1 & H2 & H3); [by split | done | |].
    { split_and!; [| done |].
      - rewrite (inbox_snoc _ w RenderReset (page y) s2) by done. by apply resets_snoc.
      - change (outbox s2) with (outbox (page y) ++ [(w, RenderReset)]). rewrite mail_snoc_eq, length_app. lia. }
    assert (page (sys_run y [YPage PRecovery]) = pump createWorker rejects sanitize s2) as Ep.
    { change (page (sys_run y [YPage PRecovery])) with (preview_step createWorker rejects sanitize (page y) PRecovery).
      unfold preview_step. destruct (Z.leb_spec (recoveries (page y)) 0); [lia |]. fold s1. unfold recovery_microtask.
      rewrite (live_guard s1) by done. by rewrite E. }
    exists [YPage PRecovery], (queue_rank s2). rewrite Ep. split_and!; [by repeat constructor | done..].
Qed.
End Accepting.
End InStep.

