(* ===== verification/PreviewPipeline.v ===== *)
(** What the preview shows: the keys and the markup a text asks for, the page's
    elements against the worker's cache, and the screen of the whole system. *)

From S2P Require Import Prelude.
From S2P Require Import Bytes.
From S2P Require Import Timers.
From S2P Require Import TextChange.
From S2P Require Import SourceBlocks.
From S2P Require Import PreviewDom.
From S2P Require Import Hoare.
From S2P Require Import MarkdownWorker.
From S2P Require Import WorkerSupervisor.
From S2P Require Import Preview.
From S2P Require Import PreviewChannel.

(** ** The worker's cache and the page's elements *)

(** A map without repeated keys, read back key by key. *)
Lemma mget_self (m : list (jstring * jstring)) :
  NoDup m.*1 -> m = map (fun k => (k, default [] (mget m k))) m.*1.
Proof.
  intros Hnd. assert (forall l, (forall kv, kv ∈ l -> kv ∈ m) -> l = map (fun k => (k, default [] (mget m k))) l.*1) as H.
  { induction l as [|[k v] l IH]; intros Hl; [done |]. csimpl. rewrite <- IH by (intros kv Hkv; by apply Hl, elem_of_cons; right).
    assert (mget m k = Some v) as -> by (apply mget_In; [done |]; by apply Hl, elem_of_cons; left). done. }
  by apply H.
Qed.

Lemma omap_known {A B C D} (f : A -> option B) (g : D -> B) (h : B -> C) (l : list A) (bs : list D) :
  map f l = map (fun b => Some (g b)) bs -> omap (fun x => h <$> f x) l = map (fun b => h (g b)) bs.
Proof.
  revert bs. induction l as [|x l IH]; intros [|b bs] E; try done. cbn [map] in E. injection E as Ex E.
  csimpl. rewrite Ex. cbn. by rewrite (IH bs E).
Qed.

(** What a repaint put in the container, by key. *)
Lemma markup_painted sanitize bs d d' b :
  NoDup (map key bs) -> (nodes d').*1 = map key bs -> container d' = (nodes d').*2 ->
  map (fun x => elements d' !! x) (container d') = map (fun b => Some (element_for sanitize d b)) bs ->
  b ∈ bs -> markup d' (key b) = Some (painted sanitize d b).
Proof.
  intros Hnd Hk Hc Hel [i Hi]%list_elem_of_lookup_1. unfold markup.
  assert (exists x, nodes d' !! i = Some (key b, x)) as [x Hx].
  { assert ((nodes d').*1 !! i = Some (key b)) as E by (rewrite Hk, list_lookup_fmap; by rewrite Hi).
    rewrite list_lookup_fmap in E. destruct (nodes d' !! i) as [[k x]|]; [|done]. injection E as ->. by exists x. }
  assert (mget (nodes d') (key b) = Some x) as ->
    by (apply mget_In; [by rewrite Hk | by eapply list_elem_of_lookup_2]).
  assert (map (fun x => elements d' !! x) (container d') !! i = Some (elements d' !! x)) as E
    by (rewrite list_lookup_fmap, Hc, list_lookup_fmap, Hx; done).
  rewrite Hel, list_lookup_fmap, Hi in E. cbn in E |- *. injection E as <-. done.
Qed.

(** A full repaint. *)
Definition repainted (sanitize : jstring -> jstring) (bs : list BlockPatch) (d : Dom) : Dom :=
  (patchRange sanitize bs 0 (len bs) true d).1.

Section Screen.
Context {Env : Type} (empty_env : Env) (definitions : Env -> env_json).
Context (parse : features -> jstring -> Env -> res (list Token * Env)).
Context (render_tokens : features -> list Token -> Env -> res jstring).
Context (sanitize : jstring -> jstring).
Implicit Types (d : Dom) (w : Worker Env).

(** The preview shows a rendering of [text]: its elements are, in order and one
    for one, the pieces of the text under their keys, and each holds the cleaned
    markup the renderer makes of a piece with this key. *)
Definition displays (text : jstring) d : Prop :=
  exists f l, rendering empty_env parse render_tokens f text l /\
    shown d = map (fun kh => (kh.1, sanitize kh.2)) l.

(** The page shows, for every block the worker counts as present, the markup the
    worker has cached for it. *)
Definition in_sync d w : Prop :=
  dom_ok d /\ forall k, k ∈ present w -> exists h, mget (cache w) k = Some h /\ markup d k = Some (sanitize h).

Lemma in_sync_none d w : dom_ok d -> present w = [] -> in_sync d w.
Proof. intros Hd E. split; [done |]. rewrite E. intros k []%not_elem_of_nil. Qed.

(** A full repaint with the blocks of a finished pass. *)
Lemma rendered_shown seq text r d w w' :
  in_sync d w -> rendered_from empty_env parse render_tokens w seq text r w' ->
  exists g blocks hs mode dirty bytes chars, r = Rendered seq g blocks hs mode dirty bytes chars /\
    let d' := repainted sanitize blocks d in
    in_sync d' w' /\ shown d' = map (fun kh => (kh.1, sanitize kh.2)) (cache w') /\ displays text d'.
Proof.
  intros [Hd Hsync] (bs & hs & mode & dirty & n & -> & _ & _ & _ & Hp & Hnd & Hc & Hs & Hk & _).
  eexists _, bs, hs, mode, dirty, n, _. split; [reflexivity |]. cbv zeta.
  destruct (repaint_exact sanitize bs d Hd Hnd) as (Hd' & Hkeys & Hcont & Hel).
  unfold repainted. set (d' := (patchRange sanitize bs 0 (len bs) true d).1) in *.
  assert (Forall (fun b => mget (cache w') (key b) = Some (default [] (mget (cache w') (key b))) /\
    painted sanitize d b = sanitize (default [] (mget (cache w') (key b)))) bs) as Hb.
  { eapply Forall_impl; [exact Hs |]. intros b (h & Hg & Hor). rewrite Hg. split; [done |]. cbn. unfold painted.
    destruct Hor as [-> | (-> & Hin & Hh)]; [done |]. destruct (Hsync _ Hin) as (h' & Hh' & ->). cbn. congruence. }
  rewrite Forall_forall in Hb.
  assert (shown d' = map (fun kh => (kh.1, sanitize kh.2)) (cache w')) as Hshown.
  { unfold shown. rewrite (omap_known _ _ (fun e => (e_key e, e_html e)) _ _ Hel).
    rewrite (mget_self (cache w')) by (by rewrite Hc). rewrite Hc, !map_map. apply map_ext_in. intros b Hin. cbn.
    destruct (Hb b ltac:(by apply list_elem_of_In)) as [_ ->]. done. }
  split_and!; [split; [done |] | done |].
  - rewrite Hp. intros k (b & -> & Hin)%list_elem_of_fmap. destruct (Hb b Hin) as [Hg Hpt].
    eexists. split; [exact Hg |]. rewrite <- Hpt. by eapply markup_painted.
  - by exists (md w'), (cache w').
Qed.

(** C19. When the page is in step with its worker, then after an accepted render of
    [text] - a full parse that sends every new or changed block, or an incremental
    one - the worker's cache is a rendering of the whole text with the features it
    has: one entry for each piece of [text], in order, no piece left out or added,
    under the pieces' keys, each what the renderer made of a piece with this key
    (and of this very piece, when it has no source of its own). A full repaint
    with the blocks sent shows exactly the cleaned markup of that cache, and page
    and worker are in step again. *)
Theorem rendering_shown im seq text w d w' r :
  worker_ok empty_env parse render_tokens w -> in_sync d w ->
  render empty_env definitions parse render_tokens im seq text w = (w', Ok r) ->
  exists generation blocks hs mode dirty bytes chars,
    r = Rendered seq generation blocks hs mode dirty bytes chars /\
    let d' := (patchRange sanitize blocks 0 (len blocks) true d).1 in
    rendering empty_env parse render_tokens (md w') text (cache w') /\
    PreviewDom.shown d' = map (fun kh => (kh.1, sanitize kh.2)) (cache w') /\
    worker_ok empty_env parse render_tokens w' /\ in_sync d' w'.
Proof.
  intros Hw Hd Er. pose proof (render_ok empty_env definitions parse render_tokens im seq text w Hw w eq_refl) as H.
  rewrite Er in H. destruct (rendered_shown _ _ _ d _ _ Hd H) as (g & bs & hs & mode & dirty & n & c & -> & H1 & H2 & H3).
  exists g, bs, hs, mode, dirty, n, c. cbv zeta.
  destruct H as (? & ? & ? & ? & ? & _ & _ & _ & _ & _ & _ & _ & _ & Hk & Hw'). by split_and!.
Qed.
End Screen.

(** ** The screen of the whole system *)

Definition failed (r : RenderResponse) : bool :=
  match r with Rendered _ _ _ _ Failed _ _ _ => true | _ => false end.

(** No answer on its way reports a failed pass, and no painting is put off. *)
Definition untroubled_now {Env} (y : System Env) : Prop :=
  idle (page y) = None /\ map_Forall (fun _ p => Forall (fun r => failed r = false) (answers p)) (procs y).
#[export] Instance untroubled_now_dec {Env} (y : System Env) : Decision (untroubled_now y).
Proof. unfold untroubled_now. apply _. Defined.

Section Invariant.
Context {Env : Type} (empty_env : Env) (definitions : Env -> env_json).
Context (parse : features -> jstring -> Env -> res (list Token * Env)).
Context (render_tokens : features -> list Token -> Env -> res jstring).
Context (createWorker rejects : Z -> option thrown) (sanitize : jstring -> jstring).
Context (generation : Z -> jstring).
Implicit Types (y : System Env) (p : Proc Env) (s : Renderer).

Abbreviation sys_step := (system_step empty_env definitions parse render_tokens createWorker rejects sanitize generation).
Abbreviation sys_run := (system_run empty_env definitions parse render_tokens createWorker rejects sanitize generation).
Abbreviation sys_ok := (system_ok empty_env parse render_tokens generation).
Abbreviation stepping := (in_step empty_env parse render_tokens generation).
Abbreviation proc_at := (proc_of empty_env generation).
Abbreviation synced := (in_sync sanitize).
Abbreviation previews := (displays empty_env parse render_tokens sanitize).

(** Along the whole run, no pass fails and no painting is put off. *)
Fixpoint untroubled y (es : list system_event) : Prop :=
  untroubled_now y /\ match es with [] => True | e :: es => untroubled (sys_step y e) es end.

Lemma untroubled_app y es es' :
  untroubled y (es ++ es') -> untroubled y es /\ untroubled (sys_run y es) es'.
Proof.
  revert y. induction es as [|e es IH]; intros y.
  - cbn [app]. intros H. split; [|done]. cbn. by destruct es', H.
  - cbn [app untroubled]. intros [Hy H]. apply IH in H as [H1 H2]. done.
Qed.

#[export] Instance untroubled_dec y es : Decision (untroubled y es).
Proof. revert y. induction es as [|e es IH]; intros y; cbn [untroubled]; [apply _ |]. apply and_dec; apply _. Defined.

Definition queue_empty s : Prop := queuedFull s = None /\ queuedEdits s = None.

(** The page against its worker [w], by where the render in flight is. A reset on
    its way to the worker makes up for a page that is not in step with it. *)
Definition on_screen p (w : Z) s : Prop :=
  match inFlight s with
  | None =>
      quiet p w s /\ (inbox p w s <> [] \/ synced (dom s) (state p)) /\
      (queue_empty s -> previews (sourceText s) (dom s))
  | Some _ =>
      match answers p with
      | [] =>
          exists before m after, inbox p w s = before ++ m :: after /\ m <> RenderReset /\
            (before <> [] \/ synced (dom s) (state p) \/ is_Some (queuedFull s) /\ after <> [])
      | Rendered _ _ bs _ _ _ _ _ :: _ =>
          NoDup (map key bs) /\
          (inbox p w s <> [] \/ synced (repainted sanitize bs (dom s)) (state p)) /\
          (queue_empty s -> previews (sourceText s) (repainted sanitize bs (dom s)))
      | RenderResync _ _ _ _ :: _ => True
      end
  end.

Record screened (ps : gmap Z (Proc Env)) s : Prop := {
  sc_dom : live s -> dom_ok (dom s);
  sc_way : forall w, running s w -> on_screen (proc_at ps w) w s }.

Lemma screened_dead ps s : ~ live s -> screened ps s.
Proof. intros Hl. split; [done |]. by intros w [? _]. Qed.

Definition newborn (ps : gmap Z (Proc Env)) s (w : Z) : Prop :=
  mail w (outbox s) = [] /\ ps !! w = None /\ inFlight s = None.

Lemma newborn_on_screen ps s w :
  newborn ps s w -> dom_ok (dom s) -> is_Some (queuedFull s) -> on_screen (proc_at ps w) w s.
Proof.
  intros (Hm & Hp & Hi) Hd [t Ht].
  assert (proc_at ps w = {| state := fresh_worker empty_env generation w; processed := 0; answers := [] |}) as ->
    by (unfold proc_of; by rewrite Hp).
  unfold on_screen, quiet, inbox. rewrite Hi, Hm. cbn. split_and!; [constructor | done | lia | |].
  - right. by apply in_sync_none.
  - intros [E _]. congruence.
Qed.

(** *** Posting *)

Lemma posted_dom message expect s s' b :
  posted sanitize message expect s s' b -> live s -> live s' -> dom s' = dom s /\ idle s' = idle s.
Proof.
  intros Hp Hl Hl'. destruct Hp; [done | done | by rewrite onWorkerRecovery_live |].
  rewrite onWorkerTerminal_live in Hl' by done. by destruct Hl' as [_ ?].
Qed.

(** What a refused message leaves is a new worker, if any. *)
Lemma posted_newborn ps message expect s s' w :
  attached s -> unborn ps s -> live s -> posted sanitize message expect s s' false -> running s' w ->
  newborn ps s' w /\ is_Some (queuedFull s').
Proof.
  intros Ha Hu Hl Hp [Hl' Hw]. inversion Hp as [|Hs E1 E2|sup Hok Hst Hd Hsw Hc E1 E2|sup Hok Hst Hd Hc E1 E2]; subst.
  - cbn in Hw. pose proof (so_starting _ (at_ok s Ha) Hs) as Hx. pose proof (so_worker _ (at_ok s Ha)) as Hy.
    by rewrite Hw, Hx in Hy.
  - rewrite onWorkerRecovery_live in * by done. cbn in Hw |- *. assert (w = created (worker s)) as -> by congruence.
    destruct (Hu (created (worker s)) ltac:(lia)) as [? ?]. split; [done | by eexists].
  - rewrite onWorkerTerminal_live in Hl' by done. by destruct Hl' as [_ ?].
Qed.

Lemma pump_idle s :
  attached s -> live (pump createWorker rejects sanitize s) ->
  idle (pump createWorker rejects sanitize s) = idle s /\ dom (pump createWorker rejects sanitize s) = dom s.
Proof.
  intros Ha Hl'. destruct (live_dec s) as [Hl | Hl].
  2: { unfold pump. rewrite <- orb_assoc, not_live_guard, orb_true_r by done. done. }
  destruct (inFlight s) as [n|] eqn:Ei; [unfold pump; by rewrite Ei, bool_decide_true by eauto |].
  destruct (pump_starts createWorker rejects sanitize s Hl Ei) as [(E & _ & _) | (m & T' & edits & E & _ & _ & _)].
  { by rewrite E. }
  rewrite E in *. assert (attached (starting_render edits s)) as Ha1 by (destruct Ha; by split).
  pose proof (post_posted createWorker rejects sanitize m true (starting_render edits s) Ha1 Hl) as Hp. cbv zeta in Hp.
  destruct (post_ _ _ _ _ _ _) as [s2 b]. cbn [fst snd] in Hp.
  assert (live s2) as Hl2 by (revert Hl'; unfold after_post; cbn [fst snd]; by destruct (_ && _)).
  destruct (posted_dom _ _ _ _ _ Hp Hl Hl2) as [E1 E2].
  unfold after_post. cbn [fst snd]. by destruct (_ && _).
Qed.

Lemma pump_screened ps s :
  attached s -> unborn ps s -> screened ps s -> screened ps (pump createWorker rejects sanitize s).
Proof.
  intros Ha Hu Hs. pose proof (pump_idle s Ha) as Hkeep. pose proof Hs as [Hdom Hw]. destruct (live_dec s) as [Hl | Hl].
  2: { unfold pump. by rewrite <- orb_assoc, not_live_guard, orb_true_r by done. }
  destruct (inFlight s) as [n|] eqn:Ei; [unfold pump; by rewrite Ei, bool_decide_true by eauto |].
  split. { intros Hl'. destruct (Hkeep Hl') as [_ ->]. by apply Hdom. }
  destruct (pump_starts createWorker rejects sanitize s Hl Ei) as [(E & _ & _) | (m & T' & edits & E & Hm & _ & _)].
  { by rewrite E. }
  intros w Hr. specialize (Hkeep (proj1 Hr)). rewrite E in *.
  assert (attached (starting_render edits s)) as Ha1 by (destruct Ha; by split).
  pose proof (post_posted createWorker rejects sanitize m true (starting_render edits s) Ha1 Hl) as Hp. cbv zeta in Hp.
  destruct (post_ _ _ _ _ _ _) as [s2 b]. cbn [fst snd] in Hp.
  assert (running s2 w) as Hr2 by (revert Hr; unfold after_post; cbn [fst snd]; by destruct (_ && _)).
  destruct b.
  - destruct (posted_wired empty_env parse render_tokens sanitize generation ps _ _ _ _ _ Ha1 Hu Hl Hp) as [_ Hd].
    destruct (Hd w Hr2) as (Hr1 & (E1 & E2 & E3) & E4 & E5 & E6). rewrite after_post_id in * by auto. cbn [fst] in *.
    assert (running s w) as Hrs by done. specialize (Hw w Hrs). unfold on_screen in Hw. rewrite Ei in Hw.
    destruct Hw as ((Hres & Hans & Hproc) & Hsync & _). unfold on_screen. rewrite E2, Hans. cbn.
    exists (inbox (proc_at ps w) w s), m, []. split_and!; [by apply (inbox_snoc (proc_at ps w) w m s) | done |].
    destruct Hkeep as [_ ->]. destruct Hsync; auto.
  - destruct (posted_newborn ps _ _ _ _ w Ha1 Hu Hl Hp Hr2) as [Hn Hq].
    rewrite after_post_id in * by (left; apply Hn). cbn [fst] in *.
    apply newborn_on_screen; [done | | done]. destruct Hkeep as [_ ->]. by apply Hdom.
Qed.

(** A reset posted behind everything else, or a new worker. *)
Lemma reset_posted ps s :
  attached s -> unborn ps s -> live s ->
  let s' := (post_ createWorker rejects sanitize RenderReset false s).1 in
  attached s' /\ unborn ps s' /\ (live s' -> dom s' = dom s) /\
  forall w, running s' w ->
    running s w /\ outbox s' = outbox s ++ [(w, RenderReset)] /\ inFlight s' = inFlight s /\
      queuedFull s' = queuedFull s /\ queuedEdits s' = queuedEdits s /\ sourceText s' = sourceText s \/
    newborn ps s' w /\ is_Some (queuedFull s').
Proof.
  intros Ha Hu Hl. pose proof (post_posted createWorker rejects sanitize RenderReset false s Ha Hl) as Hp. cbv zeta in *.
  pose proof (posted_attached sanitize _ _ _ _ _ Ha Hl Hp) as Ha2.
  destruct (posted_wired empty_env parse render_tokens sanitize generation ps _ _ _ _ _ Ha Hu Hl Hp) as [Hu2 Hd].
  destruct (post_ _ _ _ _ _ _) as [s2 b]. cbn [fst snd] in *. split_and!; [done | done | |].
  - intros Hl'. by apply (posted_dom _ _ _ _ _ Hp).
  - intros w Hr. destruct b; [left | right; by apply (posted_newborn ps _ _ _ _ w Ha Hu Hl Hp)].
    destruct (Hd w Hr) as (Hr1 & (E1 & E2 & E3) & E4 & E5 & E6). by split_and!.
Qed.

Lemma quiet_reset p w s s' :
  quiet p w s -> outbox s' = outbox s ++ [(w, RenderReset)] -> quiet p w s' /\ inbox p w s' <> [].
Proof.
  intros (Hr & Ha & Hp) E. unfold quiet. rewrite (inbox_snoc p w RenderReset s s') by done.
  split; [split_and!; [by apply resets_snoc | done |] | by destruct (inbox p w s)].
  rewrite E, mail_snoc_eq, length_app. lia.
Qed.

(** A reset changes nothing on the page and brings the worker in step. *)
Lemma on_screen_reset p w s s' :
  (processed p <= length (mail w (outbox s)))%nat ->
  on_screen p w s -> outbox s' = outbox s ++ [(w, RenderReset)] -> inFlight s' = inFlight s ->
  dom s' = dom s -> (queue_empty s' -> queue_empty s /\ sourceText s' = sourceText s) ->
  (is_Some (queuedFull s) -> is_Some (queuedFull s')) -> on_screen p w s'.
Proof.
  intros Hp Hs Eo Ei Ed Hq Hf. unfold on_screen in *. rewrite Ei, Ed. destruct (inFlight s).
  - rewrite (inbox_snoc p w RenderReset s s') by done. destruct (answers p) as [|[|] ?].
    + destruct Hs as (before & m & after & E & Hm & Hor). exists before, m, (after ++ [RenderReset]).
      rewrite E, <- app_assoc. split_and!; [done | done |]. destruct Hor as [? | [? | [? ?]]]; auto.
      right. right. split; [auto | by destruct after].
    + destruct Hs as (Hnd & _ & Hpv). split_and!; [done | left; by destruct (inbox p w s) |].
      intros [Hqe ->]%Hq. auto.
    + done.
  - destruct Hs as (Hquiet & _ & Hpv). destruct (quiet_reset p w s s' Hquiet Eo) as [? ?].
    split_and!; [done | by left |]. intros [Hqe ->]%Hq. auto.
Qed.

Lemma wired_processed ps s w :
  stepping ps s -> running s w -> (processed (proc_at ps w) <= length (mail w (outbox s)))%nat.
Proof. intros [_ _ Hw] Hr. destruct (Hw w Hr) as (T & [] & _). done. Qed.

(** *** Page events *)

(** Something new is queued. *)
Lemma on_screen_queued p w s s' :
  outbox s' = outbox s -> inFlight s' = inFlight s -> dom s' = dom s -> queuedFull s' = queuedFull s ->
  ~ queue_empty s' -> on_screen p w s -> on_screen p w s'.
Proof.
  intros E1 E2 E3 E4 Hq. unfold on_screen, quiet, inbox. rewrite E1, E2, E3, E4. destruct (inFlight s).
  - destruct (answers p) as [|[|] ?]; [done | | done]. intros (H1 & H2 & _).
    split; [exact H1 | split; [exact H2 | by intros ?%Hq]].
  - intros (H1 & H2 & _). split; [exact H1 | split; [exact H2 | by intros ?%Hq]].
Qed.

Lemma update_screened ps edits s :
  stepping ps s -> screened ps s -> screened ps (update createWorker rejects sanitize edits s).1.
Proof.
  intros [Ha Hu _] Hs. unfold update. destruct (_ || _); [done |]. cbv zeta.
  destruct (applyTextEdits (sourceText s) edits) as [t | e]; [|done].
  apply pump_screened; [destruct Ha; by split | done |]. destruct Hs as [Hd Hw]. split; [done |].
  intros w Hr. apply (on_screen_queued _ w s); try done; [by intros [_ ?] | by apply Hw].
Qed.

Lemma cleared_ok d : dom_ok (d <| nodes := [] |> <| container := [] |>).
Proof. split; cbn; try constructor; try done; intros; exfalso; by eapply not_elem_of_nil. Qed.

Lemma invalidate_screened ps text s :
  stepping ps s -> screened ps s -> screened ps (invalidate createWorker rejects sanitize text s).
Proof.
  intros Hst Hs. pose proof Hst as [Ha Hu _]. unfold invalidate.
  destruct (_ || _) eqn:El; [done |]. apply orb_false_iff in El as Hl. cbv zeta.
  set (s1 := (cancelIdle s) <| sourceText := text |> <| workerGeneration := [] |>).
  destruct (reset_posted ps s1) as (Ha2 & Hu2 & _ & Hd); [by destruct Ha; split | done | done |].
  set (s2 := (post_ _ _ _ _ _ s1).1) in *. apply pump_screened; [by destruct Ha2; split | done |].
  split; [intros _; apply cleared_ok |]. intros w Hr.
  destruct (Hd w Hr) as [(Hr1 & Eo & Ei & _) | [(Hm & Hp & Hi) _]].
  2: { apply newborn_on_screen; [done | apply cleared_ok | by eexists]. }
  assert (processed (proc_at ps w) <= length (mail w (outbox s)))%nat as Hp by (by apply wired_processed).
  destruct Hs as [_ Hw]. specialize (Hw w Hr1).
  match goal with |- on_screen _ _ ?x => set (s3 := x) end.
  assert (outbox s3 = outbox s ++ [(w, RenderReset)]) as Eo3 by exact Eo.
  assert (inFlight s3 = inFlight s) as Ei3 by exact Ei.
  assert (queuedFull s3 = Some text) as Ef3 by done. clearbody s3.
  unfold on_screen, queue_empty in *. rewrite Ei3, Ef3.
  destruct (inFlight s).
  - rewrite (inbox_snoc (proc_at ps w) w RenderReset s s3) by done. destruct (answers _) as [|[|] ?].
    + destruct Hw as (before & m & after & E & Hm & _). exists before, m, (after ++ [RenderReset]).
      rewrite E, <- app_assoc. split_and!; [done | done |]. right. right. split; [by eexists | by destruct after].
    + destruct Hw as (Hnd & _). split_and!; [done | left; by destruct (inbox (proc_at ps w) w s) | by intros [? _]].
    + done.
  - destruct Hw as (Hquiet & _). destruct (quiet_reset _ w s s3 Hquiet Eo3) as [? ?].
    split_and!; [done | by left | by intros [? _]].
Qed.

Lemma recovery_screened ps s :
  stepping ps s -> screened ps s -> screened ps (recovery_microtask createWorker rejects sanitize s).
Proof.
  intros Hst Hs. pose proof Hst as [Ha Hu _]. unfold recovery_microtask. destruct (_ || _) eqn:El; [done |].
  apply orb_false_iff in El as Hl. destruct (reset_posted ps s Ha Hu Hl) as (Ha2 & Hu2 & Ed & Hd).
  set (s2 := (post_ _ _ _ _ _ s).1) in *. apply pump_screened; [done | done |].
  pose proof Hs as [Hdom Hw]. split; [intros Hl2; rewrite Ed by done; by apply Hdom |].
  intros w Hr. specialize (Ed (proj1 Hr)).
  destruct (Hd w Hr) as [(Hr1 & Eo & Ei & Ef & Ee & Et) | [Hn Hq]].
  - apply (on_screen_reset _ w s); try done; [by apply wired_processed | by apply Hw | | by rewrite Ef].
    unfold queue_empty. by rewrite Ef, Ee.
  - apply newborn_on_screen; [done | | done]. rewrite Ed. by apply Hdom.
Qed.

Lemma on_screen_same p w s s' :
  outbox s' = outbox s -> inFlight s' = inFlight s -> queuedFull s' = queuedFull s -> queuedEdits s' = queuedEdits s ->
  sourceText s' = sourceText s -> dom s' = dom s -> on_screen p w s -> on_screen p w s'.
Proof. intros E1 E2 E3 E4 E5 E6. unfold on_screen, queue_empty, quiet, inbox. by rewrite E1, E2, E3, E4, E5, E6. Qed.

(** The worker is replaced or given up. *)
Lemma failed_screened ps s sup n :
  unborn ps s -> screened ps s -> created (worker s) <= created sup ->
  match n with
  | OnRecover _ => WorkerSupervisor.worker sup = Some (created (worker s)) /\ created (worker s) < created sup
  | OnTerminal _ => True
  | OnMessage _ => False
  end ->
  screened ps (on_failure sanitize n (s <| worker := sup |>)).
Proof.
  intros Hu [Hd _] Hc Hn. destruct (live_dec s) as [Hl | Hl].
  - destruct n as [r | f | f]; [done | |]; cbn [on_failure].
    + destruct Hn as [Hw Hlt]. rewrite onWorkerRecovery_live by done. split; [done |].
      intros w [_ Hw']. cbn in Hw'. assert (w = created (worker s)) as -> by congruence.
      destruct (Hu (created (worker s)) ltac:(lia)) as [? ?].
      apply newborn_on_screen; [done | by apply Hd | by eexists].
    + rewrite onWorkerTerminal_live by done. apply screened_dead. by intros [_ ?].
  - apply screened_dead. intros Hl'. apply Hl. revert Hl'. destruct n as [r | f | f]; [done | |]; cbn [on_failure];
      [unfold onWorkerRecovery | unfold onWorkerTerminal]; by rewrite (not_live_guard (s <| worker := sup |>)).
Qed.

Lemma supervised_screened ps s e :
  stepping ps s -> screened ps s ->
  match e with EPost _ _ | EDestroy | EMessage _ _ => False | _ => True end ->
  screened ps (supervised createWorker rejects sanitize (step createWorker (worker s) e) s).
Proof.
  intros [Ha Hu _] Hs He. assert (match e with EPost _ _ | EDestroy => False | _ => True end) as He' by (by destruct e).
  pose proof (step_reacted createWorker (worker s) e (at_ok s Ha) He') as Hre.
  unfold supervised. destruct (step createWorker (worker s) e) as [sup ns]. cbn [fst snd] in *.
  destruct Hre as [| w r -> | f sup Hst Hok' Hd' Hsw Hc Hst' | f sup Hok' Hd' Hst' Hstart Hc]; cbn [fold_left on_notice] in *.
  - by rewrite set_worker_same.
  - done.
  - apply failed_screened; [done | done | lia | split; [done | lia]].
  - by apply failed_screened.
Qed.

Lemma page_screened ps s e :
  stepping ps s -> screened ps s -> idle s = None -> match e with PMessage _ _ => False | _ => True end ->
  screened ps (preview_step createWorker rejects sanitize s e).
Proof.
  intros Hst Hs Hidle He. destruct e as [edits|text| |w r|w m|w|h| | |]; cbn [preview_step]; try done.
  - by apply update_screened.
  - by apply invalidate_screened.
  - apply screened_dead. by intros [? _].
  - by apply supervised_screened.
  - by apply supervised_screened.
  - by apply supervised_screened.
  - by apply supervised_screened.
  - destruct (recoveries s <=? 0); [done |]. set (s1 := s <| recoveries := recoveries s - 1 |>).
    destruct Hst as [Ha Hu Hw], Hs as [Hd Hv]. apply recovery_screened.
    + split; [by destruct Ha; split | done |]. intros w Hr. destruct (Hw w Hr) as (T & ? & ?).
      exists T. split; [by apply (wired_same _ _ _ _ ps s) | done].
    + split; [done |]. intros w Hr. apply (on_screen_same _ w s); try done. by apply Hv.
  - unfold idle_callback. by rewrite Hidle.
Qed.

(** *** Answers *)

Lemma patch_undeferred bs d d' n :
  patch sanitize bs d = (d', n, None) -> d' = repainted sanitize bs d.
Proof.
  unfold patch, repainted. destruct (_ && _).
  - destruct (patchRange _ _ _ _ _ _). by intros [= _ _ ?].
  - destruct (patchRange _ _ _ _ _ _). by intros [= -> _].
Qed.

Lemma deliver_screened ps s w r rest :
  stepping ps s -> screened ps s -> answers (proc_at ps w) = r :: rest ->
  idle (preview_step createWorker rejects sanitize s (PMessage w r)) = None ->
  screened (popped empty_env generation ps w) (preview_step createWorker rejects sanitize s (PMessage w r)).
Proof.
  intros Hst Hs Ea. pose proof Hst as [Ha Hu Hw]. pose proof Hs as [Hd Hv]. rewrite message_step by done.
  assert (unborn (popped empty_env generation ps w) s) as Hup
    by (apply unborn_insert; [apply (has_answers_known empty_env generation ps); [done | by rewrite Ea] | done]).
  destruct (bool_decide (w ∈ alive (worker s))) eqn:El; intros Hidle.
  2: { apply bool_decide_eq_false in El. split; [done |]. intros v Hr.
    assert (proc_at (popped empty_env generation ps w) v = proc_at ps v) as ->; [|by apply Hv].
    unfold proc_of, popped. rewrite lookup_insert_ne; [done |]. intros ->. apply El. destruct Hr as [_ Hr].
    rewrite (so_alive _ (at_ok s Ha)), Hr. by apply list_elem_of_singleton. }
  apply bool_decide_eq_true in El. destruct (alive_running s w Ha El) as [Hsw _].
  destruct (heard_attached s Ha) as (Ha' & Ew & Ec). set (s' := s <| worker := heard (worker s) |>) in *.
  destruct (live_dec s) as [Hl | Hl].
  2: { apply screened_dead. unfold onRendered. by rewrite (not_live_guard s'). }
  assert (running s w) as Hr by done. destruct (Hw w Hr) as (T & Hwi & Hq). specialize (Hv w Hr).
  destruct (wired_answer _ _ _ _ ps s w T r rest Hwi Ea) as (-> & Hi & _ & Hres & _).
  pose proof (wired_processed ps s w Hst Hr) as Hproc.
  assert (unborn (popped empty_env generation ps w) s') as Hu' by (intros v Hx; apply Hup; by rewrite <- Ec).
  assert (forall s1 v, worker s1 = heard (worker s) -> running s1 v -> v = w) as Hsame
    by (intros s1 v E [_ Hx]; rewrite E, Ew in Hx; congruence).
  unfold on_screen in Hv. rewrite Hi, Ea in Hv. revert Hidle. unfold onRendered.
  rewrite live_guard by done. cbv zeta. change (inFlight s') with (inFlight s). rewrite Hi, bool_decide_true by done. cbn [negb].
  destruct r as [seq g bs hs mode dirty n c | seq g n reason].
  - destruct Hv as (Hnd & Hsync & Hpv). destruct (patch sanitize bs (dom _)) as [[d' n'] rest] eqn:Ep.
    match goal with |- context [pump _ _ _ ?x] => set (s1 := x) end. intros Hidle.
    assert (attached s1) as Ha1 by (destruct Ha'; by split).
    destruct (live_dec (pump createWorker rejects sanitize s1)) as [Hl1 | Hl1]; [|by apply screened_dead].
    destruct (pump_idle s1 Ha1 Hl1) as [Hi1 _]. rewrite Hidle in Hi1. cbn in Hi1. subst rest.
    apply patch_undeferred in Ep as ->. apply pump_screened; [done | done |]. change (dom s') with (dom s) in *.
    split. { intros _. cbn. by destruct (repaint_exact sanitize bs (dom s) (Hd Hl) Hnd) as [? _]. }
    intros v Hrv. apply Hsame in Hrv as ->; [|done]. unfold on_screen, quiet, inbox, popped.
    rewrite proc_of_insert. cbn. rewrite Ea. split_and!; done.
  - match goal with |- context [post_ _ _ _ _ _ ?x] => set (s1 := x) end. intros Hidle.
    destruct (reset_posted (popped empty_env generation ps w) s1) as (Ha2 & Hu2 & Ed & Hd2); [by destruct Ha'; split | done | done |].
    set (s2 := (post_ _ _ _ _ _ s1).1) in *. apply pump_screened; [done | done |].
    split; [intros Hl2; rewrite Ed by done; by apply Hd |]. intros v Hrv. specialize (Ed (proj1 Hrv)).
    destruct (Hd2 v Hrv) as [(Hr1 & Eo & Ei & Ef & Ee & Et) | [Hn Hqf]].
    + apply Hsame in Hr1 as ->; [|done]. unfold on_screen. rewrite Ei. cbn.
      assert (quiet (proc_at (popped empty_env generation ps w) w) w s1) as Hquiet.
      { unfold quiet, inbox, popped. rewrite proc_of_insert. cbn. by rewrite Ea. }
      destruct (quiet_reset _ w s1 s2 Hquiet Eo) as [? ?]. split_and!; [done | by left |].
      intros [Hqe _]. rewrite Ef in Hqe. done.
    + apply newborn_on_screen; [done | rewrite Ed; by apply Hd | done].
Qed.

(** *** A worker's turn *)

Lemma reset_synced im p st rs d :
  processMessage empty_env definitions parse render_tokens im RenderReset (state p) = (st, rs) -> dom_ok d ->
  rs = [] /\ synced d st.
Proof. cbn. intros [= <- <-] Hd. split; [done |]. by apply in_sync_none. Qed.

(** The render in flight is taken up. *)
Lemma render_on_screen im ps s w m rest before after m' seq st r :
  stepping ps s -> running s w -> inFlight s = Some seq ->
  inbox (proc_at ps w) w s = m :: rest -> m <> RenderReset -> answers (proc_at ps w) = [] ->
  inbox (proc_at ps w) w s = before ++ m' :: after -> m' <> RenderReset ->
  (before <> [] \/ synced (dom s) (state (proc_at ps w)) \/ is_Some (queuedFull s) /\ after <> []) ->
  processMessage empty_env definitions parse render_tokens im m (state (proc_at ps w)) = (st, [r]) ->
  failed r = false ->
  match r with
  | Rendered _ _ bs _ _ _ _ _ =>
      NoDup (map key bs) /\ (rest <> [] \/ synced (repainted sanitize bs (dom s)) st) /\
      (queue_empty s -> previews (sourceText s) (repainted sanitize bs (dom s)))
  | RenderResync _ _ _ _ => True
  end.
Proof.
  intros [_ _ Hw] Hr Hi Einb Hm Hans Einb' Hm' Hor Eh Hf.
  destruct (Hw w Hr) as (T & [Hg Hok _ _ Hway] & Hq). unfold on_the_way in Hway. rewrite Hi, Einb in Hway.
  destruct Hway as [(b0 & m0 & a0 & E0 & Hb0 & Ha0 & _ & Hren) | (Hres & _)]; [|by apply Forall_cons in Hres as [? _]].
  destruct b0 as [|? b0]; [|injection E0 as <- _; by apply Forall_cons in Hb0 as [? _]]. injection E0 as <- <-.
  assert (before = [] /\ after = rest) as [-> ->].
  { rewrite Einb in Einb'. destruct before as [|? before]; injection Einb'; [done |]. intros -> _. exfalso. apply Hm'.
    unfold resets in Ha0. rewrite Forall_forall in Ha0. apply Ha0, elem_of_app. right. by apply elem_of_cons; left. }
  destruct (handle_render empty_env definitions parse render_tokens (generation w) im (proc_at ps w) T seq m Hok Hg Hren)
    as (st' & r' & E & _ & _ & _ & _ & Hansd). rewrite Eh in E. injection E as <- <-.
  destruct r as [sq g bs hs mode dirty n c | sq g n reason]; [|done].
  destruct Hansd as (_ & _ & [Hfrom | (w1 & _ & _ & E)]); [|by injection E as _ _ _ _ -> _ _ _].
  pose proof Hfrom as (bs' & ? & ? & ? & ? & E & _ & _ & _ & _ & Hnd & _). injection E as _ _ <- _ _ _ _ _.
  split; [done |]. destruct Hor as [? | [Hsync | [Hqf Hne]]]; [done | |].
  - destruct (rendered_shown empty_env parse render_tokens sanitize _ _ _ _ _ _ Hsync Hfrom)
      as (? & bs2 & ? & ? & ? & ? & ? & E & H1 & _ & H3). injection E as _ _ <- _ _ _ _ _.
    split; [by right |]. intros [E1 E2]. unfold queued in Hq. rewrite E1, E2 in Hq. cbn in Hq. by rewrite Hq.
  - split; [by left |]. intros [E _]. rewrite E in Hqf. by destruct Hqf.
Qed.

Lemma work_screened im ps s w :
  stepping ps s -> screened ps s -> running s w ->
  let p' := work empty_env definitions parse render_tokens im (proc_at ps w) w s in
  Forall (fun r => failed r = false) (answers p') -> screened (<[w := p']> ps) s.
Proof.
  intros Hst [Hd Hv] Hr. cbv zeta. intros Hf. split; [done |]. intros v Hrv.
  assert (v = w) as -> by (destruct Hrv as [_ ?], Hr as [_ ?]; congruence).
  rewrite proc_of_insert. specialize (Hv w Hr). pose proof (Hd (proj1 Hr)) as Hdom. revert Hf. unfold work.
  destruct (inbox (proc_at ps w) w s) as [|m rest] eqn:Einb; [done |].
  destruct (processMessage _ _ _ _ im m _) as [st rs] eqn:Eh. cbn [answers]. intros Hf.
  match goal with |- on_screen ?x _ _ => set (p' := x) end.
  destruct (inbox_next (proc_at ps w) p' w s m rest Einb eq_refl) as [Einb' Hp'].
  pose proof (Hst.(is_wired _ _ _ _ _ _) w Hr) as (T & [Hg Hok _ _ Hway] & _). unfold on_the_way in Hway. rewrite Einb in Hway.
  unfold on_screen in *. destruct (inFlight s) as [seq|] eqn:Ei.
  - assert (m = RenderReset \/ m <> RenderReset) as [-> | Hm] by (destruct m; [by right | by right | by left]).
    + destruct (reset_synced im _ _ _ (dom s) Eh Hdom) as [-> Hsync].
      assert (answers p' = answers (proc_at ps w)) as Eans by (unfold p'; cbn; by rewrite app_nil_r).
      rewrite Eans, Einb'. destruct (answers (proc_at ps w)) as [|[sq g bs hs mode dirty n c|] ans]; [| |done].
      * destruct Hv as (before & m & after & E & Hm & _). rewrite Einb in E.
        destruct before as [|? before]; injection E as; [done |]. exists before, m, after. split_and!; [done | done |]. right. by left.
      * destruct Hv as (Hnd & _ & Hpv). split_and!; [done | right | done].
        destruct (reset_synced im _ _ _ (repainted sanitize bs (dom s)) Eh) as [_ ?]; [|done].
        by destruct (repaint_exact sanitize bs (dom s) Hdom Hnd) as [? _].
    + destruct Hway as [(b0 & m0 & a0 & E0 & Hb0 & Ha0 & Hans & Hren) | (Hres & _)]; [|by apply Forall_cons in Hres as [? _]].
      destruct b0 as [|? b0]; [|injection E0 as <- _; by apply Forall_cons in Hb0 as [? _]]. injection E0 as <- <-.
      rewrite Hans in Hv. destruct Hv as (before & m' & after & E & Hm' & Hor).
      destruct (handle_render empty_env definitions parse render_tokens (generation w) im (proc_at ps w) T seq m Hok Hg Hren)
        as (st' & r & E' & _). rewrite Eh in E'. injection E' as <- ->.
      assert (answers p' = [r]) as -> by (unfold p'; cbn; by rewrite Hans).
      rewrite Hans in Hf. cbn [app] in Hf. apply Forall_cons in Hf as [Hf _]. rewrite Einb'.
      exact (render_on_screen im ps s w m rest before after m' seq st r Hst Hr Ei Einb Hm Hans E Hm' Hor Eh Hf).
  - destruct Hv as (Hquiet & Hsync & Hpv). destruct Hway as (Hres & Hans & _). apply Forall_cons in Hres as [-> Hres].
    destruct (reset_synced im _ _ _ (dom s) Eh Hdom) as [-> Hsync'].
    split_and!; [unfold quiet; rewrite Einb'; split_and!; [done | unfold p'; cbn; by rewrite app_nil_r | done] | by right | done].
Qed.

(** *** Runs *)

Lemma system_screened y e :
  sys_ok y -> screened (procs y) (page y) -> untroubled_now y -> untroubled_now (sys_step y e) ->
  screened (procs (sys_step y e)) (page (sys_step y e)).
Proof.
  intros [Hp Hst] Hs [Hidle _] [Hidle' Hf']. destruct e as [e | w im | w]; cbn [system_step] in *.
  - destruct e; try done; cbn [page procs]; by apply page_screened.
  - destruct (bool_decide (w ∈ alive (worker (page y)))) eqn:El; [|done]. cbn [page procs] in *.
    apply bool_decide_eq_true in El. pose proof Hst as [Ha _ _].
    destruct (alive_running _ w Ha El) as [Hsw _]. destruct (live_dec (page y)) as [Hl | Hl]; [|by apply screened_dead].
    apply work_screened; [done | done | done |]. apply (Hf' w). by rewrite lookup_insert_eq.
  - destruct (answers (proc_at (procs y) w)) as [|r rest] eqn:Ea; [done |]. cbn [page procs] in *.
    pose proof (deliver_screened (procs y) (page y) w r rest Hst Hs Ea Hidle') as H.
    unfold popped in H. by rewrite Ea in H.
Qed.

Lemma start_screened : screened ∅ (start_renderer createWorker).
Proof.
  split; [intros _; apply empty_dom_ok |]. intros w _.
  assert (proc_at ∅ w = {| state := fresh_worker empty_env generation w; processed := 0; answers := [] |}) as ->
    by (unfold proc_of; by rewrite lookup_empty).
  unfold on_screen, quiet, inbox.
  change (outbox (start_renderer createWorker)) with ([] : list (Z * RenderRequest)).
  change (inFlight (start_renderer createWorker)) with (None : option Z). cbn.
  split_and!; [constructor | done | lia | right; by apply in_sync_none; [apply empty_dom_ok |] |].
  intros _. exists {| katex := false; highlightCode := false |}, []. split; [|done].
  apply rendering_split; [vm_compute; reflexivity | constructor].
Qed.

Lemma run_screened y es :
  sys_ok y -> screened (procs y) (page y) -> untroubled y es -> screened (procs (sys_run y es)) (page (sys_run y es)).
Proof.
  revert y. induction es as [|e es IH]; intros y Hy Hs Hun; [done |]. cbn [untroubled] in Hun. destruct Hun as [Hn Hun].
  change (sys_run y (e :: es)) with (sys_run (sys_step y e) es). apply IH; [by apply system_step_ok | | done].
  apply system_screened; [done | done | done |]. by destruct es, Hun.
Qed.

(** At rest, the screen shows the source. *)
Lemma rest_displays y :
  screened (procs y) (page y) -> live (page y) -> is_Some (WorkerSupervisor.worker (worker (page y))) -> at_rest (page y) ->
  previews (sourceText (page y)) (dom (page y)).
Proof.
  intros [_ Hw] Hl [w Hsw] (Hi & Hq). specialize (Hw w (conj Hl Hsw)). unfold on_screen in Hw. rewrite Hi in Hw.
  by apply Hw.
Qed.
End Invariant.

(** C6. What is on screen when the preview is quiet is the document. Over every
    interleaving of edits, document switches, worker turns, deliveries, worker
    failures, deadlines and recoveries - with any parser, renderer and worker
    factory, and whatever [postMessage] throws - along which no pass of the worker
    fails and no painting is put off to idle time: when the page is live, its
    worker runs and nothing is in flight or queued, the elements of the preview
    are, in order and one for one, the pieces of exactly the page's source text,
    each with the cleaned markup the renderer makes of a piece with its key. So
    no edit is lost, applied twice or applied to another text on its way through
    patches, full renders, resyncs and resets, and no block is dropped, left over
    or left blank. (A failed pass and a first painting of more than 48 blocks are
    left out because the claim is false of them: [render_failure_blanks_preview],
    [PreviewDom.long_document_misordered], [PreviewDom.interrupted_first_paint_blank].) *)
Theorem preview_shows_source_at_rest {Env} (empty_env : Env) definitions parse render_tokens createWorker rejects
    sanitize generation es :
  let y := system_run empty_env definitions parse render_tokens createWorker rejects sanitize generation
             (start_system createWorker) es in
  untroubled empty_env definitions parse render_tokens createWorker rejects sanitize generation
    (start_system createWorker) es ->
  live (page y) -> is_Some (WorkerSupervisor.worker (worker (page y))) -> at_rest (page y) ->
  displays empty_env parse render_tokens sanitize (sourceText (page y)) (dom (page y)).
Proof.
  cbv zeta. intros Hun. eapply rest_displays, run_screened; [by apply start_system_ok | apply start_screened | exact Hun].
Qed.

(** C17. The preview comes to rest. From every state reachable from the start in
    which the page is live and its worker runs, and if [postMessage] accepts
    messages, finitely many turns of that worker, deliveries of its answers and
    the recovery already queued lead to a state in which the page is live, has
    the source text it had, and has nothing in flight or queued. If no pass failed
    and no painting was put off until then, the preview shows that text, in the
    sense of C6. (A destroyed page, one whose worker has been given up and one
    whose first worker could not be created have nothing to come to.) *)
Theorem preview_settles {Env} (empty_env : Env) definitions parse render_tokens createWorker rejects
    sanitize generation (im : imports) es w :
  (forall n, rejects n = None) ->
  let run := system_run empty_env definitions parse render_tokens createWorker rejects sanitize generation in
  let y := run (start_system createWorker) es in
  live (page y) -> WorkerSupervisor.worker (worker (page y)) = Some w ->
  exists more, Forall (undisturbed w) more /\ live (page (run y more)) /\ at_rest (page (run y more)) /\
    sourceText (page (run y more)) = sourceText (page y) /\
    (untroubled empty_env definitions parse render_tokens createWorker rejects sanitize generation
       (start_system createWorker) (es ++ more) ->
     displays empty_env parse render_tokens sanitize (sourceText (page y)) (dom (page (run y more)))).
Proof.
  intros Hacc. cbv zeta. intros Hl Hsw.
  pose proof (system_run_ok empty_env definitions parse render_tokens createWorker rejects sanitize generation _ es
    (start_system_ok empty_env parse render_tokens createWorker generation)) as Hy.
  destruct (system_bounded empty_env definitions parse render_tokens createWorker rejects sanitize generation Hacc _ w Hy (conj Hl Hsw))
    as (es1 & n & He1 & Hr1 & Et1 & Hb).
  pose proof (system_run_ok empty_env definitions parse render_tokens createWorker rejects sanitize generation _ es1 Hy) as Hy1.
  destruct (settles empty_env definitions parse render_tokens createWorker rejects sanitize generation Hacc im n _ w Hy1 Hr1 Hb)
    as (es2 & He2 & Hr2 & Hrest & Et2).
  exists (es1 ++ es2). rewrite system_run_app. split_and!; [by apply Forall_app | apply Hr2 | done | congruence |].
  intros Hun. rewrite <- Et1, <- Et2. rewrite <- !system_run_app in *.
  eapply rest_displays; [| apply Hr2 | by eexists; apply Hr2 | done].
  eapply run_screened; [by apply start_system_ok | apply start_screened | exact Hun].
Qed.

(** ** Runs *)

(** A parser that takes each line that is not empty for a paragraph. *)
Definition demo_token (lines : Z * Z) (text : jstring) : Token :=
  {| nesting := 0; t_map := Some lines; t_type := lit "paragraph"; t_tag := []; t_id := None;
     content := Some text; children := None |}.
Fixpoint demo_tokens (n : Z) (lines : list jstring) : list Token :=
  match lines with
  | [] => []
  | l :: rest => (if str_eqb l [] then [] else [demo_token (n, n + 1) l]) ++ demo_tokens (n + 1) rest
  end.
Definition demo_parse (_ : features) (text : jstring) (env : unit) : res (list Token * unit) :=
  Ok (demo_tokens 0 (lines_of text), env).
Definition demo_render (_ : features) (ts : list Token) (_ : unit) : res jstring :=
  Ok (concat (map (fun t => default [] (content t)) ts)).
Definition no_definitions (_ : unit) : env_json :=
  {| j_references := None; j_footnotes := None; j_abbreviations := None |}.
Definition demo_generation (w : Z) : jstring := lit "worker-" ++ decimal w.
Definition online : imports := {| import_highlight := Ok tt; import_katex := Ok tt |}.
Definition offline : imports := {| import_highlight := Ok tt; import_katex := range_error "offline" |}.

Abbreviation demo_sys := (system_run tt no_definitions demo_parse demo_render (fun _ => None) (fun _ => None) id demo_generation).
Definition demo_start : System unit := start_system (fun _ => None).

Definition six_paragraphs : jstring := concat (map (fun c => [c; 10; 10]) (lit "abcdef")).
Definition type_in (at_ : Z) (text : jstring) : system_event := YPage (PUpdate [demo_insert at_ text]).

(** An edit during the first render, a patch, and a worker that dies over the
    next one. *)
Definition demo_trouble : list system_event :=
  [type_in 0 six_paragraphs; type_in 18 (lit "g"); YWork 0 online; YDeliver 0; YWork 0 online; YDeliver 0;
   type_in 19 (lit "h"); YWork 0 online; YDeliver 0;
   type_in 20 (lit "i"); YPage (PError 0 []); YPage PRecovery; YWork 1 online; YWork 1 online; YDeliver 1].

Abbreviation demo_displays := (displays tt demo_parse demo_render id).
Abbreviation demo_untroubled := (untroubled tt no_definitions demo_parse demo_render (fun _ => None) (fun _ => None) id demo_generation).

Lemma preview_shows_source_at_rest_witness :
  let y := demo_sys demo_start demo_trouble in
  demo_displays (six_paragraphs ++ lit "ghi") (dom (page y)) /\
  map snd (PreviewDom.shown (dom (page y))) = [lit "a"; lit "b"; lit "c"; lit "d"; lit "e"; lit "f"; lit "ghi"].
Proof.
  cbv zeta. split; [|vm_compute; reflexivity].
  assert (sourceText (page (demo_sys demo_start demo_trouble)) = six_paragraphs ++ lit "ghi") as <- by (vm_compute; reflexivity).
  apply (preview_shows_source_at_rest tt no_definitions demo_parse demo_render (fun _ => None) (fun _ => None) id
    demo_generation demo_trouble).
  - apply (bool_decide_unpack _). vm_compute. exact I.
  - split; vm_compute; reflexivity.
  - vm_compute. by eexists.
  - split_and!; vm_compute; reflexivity.
Defined.

(** After one more edit: a patch, the answer, and the new paragraph. *)
Definition one_more : list system_event := demo_trouble ++ [type_in 0 (lit "x")].

Lemma preview_settles_witness :
  exists more, at_rest (page (demo_sys demo_start (one_more ++ more))) /\
    (demo_untroubled demo_start (one_more ++ more) ->
     demo_displays (lit "x" ++ six_paragraphs ++ lit "ghi") (dom (page (demo_sys demo_start (one_more ++ more))))) /\
    demo_untroubled demo_start (one_more ++ [YWork 1 online; YDeliver 1]) /\
    at_rest (page (demo_sys demo_start (one_more ++ [YWork 1 online; YDeliver 1]))).
Proof.
  destruct (preview_settles tt no_definitions demo_parse demo_render (fun _ => None) (fun _ => None) id
    demo_generation online one_more 1) as (more & _ & _ & Hr & _ & Hs).
  - done.
  - split; vm_compute; reflexivity.
  - vm_compute. reflexivity.
  - exists more. rewrite system_run_app. split; [exact Hr | split; [| split; [apply (bool_decide_unpack _); vm_compute; exact I | split_and!; vm_compute; reflexivity]]].
    intros Hun. assert (sourceText (page (demo_sys demo_start one_more)) = lit "x" ++ six_paragraphs ++ lit "ghi") as <- by (vm_compute; reflexivity).
    by apply Hs.
Defined.

(** The second pass sends one block of seven. *)
Abbreviation demo_pass := (render tt no_definitions demo_parse demo_render online).
Definition sent (r : res RenderResponse) : list (option jstring) :=
  match r with Ok (Rendered _ _ bs _ _ _ _ _) => map html bs | _ => [] end.

Lemma rendering_shown_witness :
  let w1 := (demo_pass 1 six_paragraphs (fresh_worker tt demo_generation 0)).1 in
  let p := demo_pass 2 (six_paragraphs ++ lit "g") w1 in
  sent p.2 = [None; None; None; None; None; None; Some (lit "g")] /\
  exists d, map snd (PreviewDom.shown d) = [lit "a"; lit "b"; lit "c"; lit "d"; lit "e"; lit "f"; lit "g"] /\
    demo_displays (six_paragraphs ++ lit "g") d.
Proof.
  cbv zeta. split; [vm_compute; reflexivity |].
  set (w0 := fresh_worker tt demo_generation 0). destruct (demo_pass 1 six_paragraphs w0) as [w1 r1] eqn:E1.
  destruct (demo_pass 2 (six_paragraphs ++ lit "g") w1) as [w2 r2] eqn:E2.
  assert (exists r, r1 = Ok r) as [r1' ->].
  { replace r1 with (demo_pass 1 six_paragraphs w0).2 by (by rewrite E1). vm_compute. by eexists. }
  assert (w1 = (demo_pass 1 six_paragraphs w0).1) as Ew1 by (by rewrite E1).
  assert (w2 = (demo_pass 2 (six_paragraphs ++ lit "g") (demo_pass 1 six_paragraphs w0).1).1) as Ew2 by (by rewrite <- Ew1, E2).
  assert (exists r, r2 = Ok r) as [r2' ->].
  { replace r2 with (demo_pass 2 (six_paragraphs ++ lit "g") (demo_pass 1 six_paragraphs w0).1).2 by (by rewrite <- Ew1, E2).
    vm_compute. by eexists. }
  destruct (rendering_shown tt no_definitions demo_parse demo_render id online 1 six_paragraphs w0 empty_dom w1 r1')
    as (g1 & bs1 & ? & ? & ? & ? & ? & _ & _ & _ & Hw1 & Hs1).
  - split; [intros k []%not_elem_of_nil | constructor].
  - split; [apply empty_dom_ok | intros k []%not_elem_of_nil].
  - exact E1.
  - set (d1 := (patchRange id bs1 0 (len bs1) true empty_dom).1) in *.
    destruct (rendering_shown tt no_definitions demo_parse demo_render id online 2 (six_paragraphs ++ lit "g") w1 d1 w2 r2' Hw1 Hs1 E2)
      as (g2 & bs2 & ? & ? & ? & ? & ? & _ & Hrendering & Hshown & _).
    eexists. split; [|exists (md w2), (cache w2); split; [exact Hrendering | exact Hshown]].
    rewrite Hshown, map_map, Ew2. vm_compute. reflexivity.
Defined.

(** ** Two defects *)

(** A pass that throws after its caches were kept answers with one failure block,
    and the page takes the document's blocks down; the worker still counts them
    as present, so the next pass sends no markup for those that did not change
    and they come back empty: only the edited paragraph [g] is shown. *)
Example render_failure_blanks_preview :
  let y := demo_sys demo_start
    [type_in 0 six_paragraphs; YWork 0 online; YDeliver 0;
     type_in 18 (lit "$"); YWork 0 offline; YDeliver 0;
     YPage (PUpdate [{| from := 18; to := 19; insert := lit "g" |}]); YWork 0 online; YDeliver 0] in
  map snd (PreviewDom.shown (dom (page y))) = [[]; []; []; []; []; []; lit "g"].
Proof. vm_compute. reflexivity. Qed.

(** The highlighter was loaded by a pass whose second import failed: no later
    pass builds the renderer with it, as long as KaTeX is not needed. *)
Definition code_block : jstring := lit "```js" ++ [10] ++ lit "x" ++ [10] ++ lit "```" ++ [10].
Example highlighter_left_out :
  let y := demo_sys demo_start
    [type_in 0 (code_block ++ lit "$"); YWork 0 offline; YDeliver 0;
     YPage (PInvalidate code_block); YWork 0 online; YWork 0 online; YDeliver 0] in
  let st := state (proc_of tt demo_generation (procs y) 0) in
  highlighter st = true /\ highlightCode (md st) = false.
Proof. vm_compute. done. Qed.
