(* ===== verification/Commands.v ===== *)
(** The command runtime ([client/src/commands/runtime.ts]) with the admission
    rules of [client/src/commands/projection.ts]: who may start a command, what
    waits for a human's approval, what runs and what is reported. *)

From S2P Require Import Prelude.
From S2P Require Import JsValue.

(** ** Commands and environments ([client/src/commands/types.ts]) *)

Inductive CommandSource := Human | Keyboard | Palette | Agent | Bridge.
Inductive CommandModality := EditMode | SplitMode | PreviewMode.
Inductive RibbonTask := Compose | InspectTask.
Inductive CommandSurface := RibbonSurface | PhoneSurface | FoldableSurface | MiniSurface | PaletteSurface | QuickAccess | AgentSurface.
Inductive CommandRisk := ReadRisk | WriteRisk | ExternalRisk | DestructiveRisk.
Inductive CommandCapability := CanEdit | CanComment | CanSaveVersion | CanManageShares.
Inductive Shell := PhoneShell | StudioShell | DesktopShell | FoldBook | FoldLaptop.
Inductive EditorContextKind := TextContext | HeadingContext | ImageContext | TableContext | ShapeContext | CodeContext.
Inductive Role := Owner | Editor | Commenter | Viewer | Scratch | Local.
Inductive WorkspaceKind := LocalKind | ScratchKind | SessionKind.

#[export] Instance CommandSource_dec : EqDecision CommandSource. Proof. solve_decision. Defined.
#[export] Instance CommandModality_dec : EqDecision CommandModality. Proof. solve_decision. Defined.
#[export] Instance RibbonTask_dec : EqDecision RibbonTask. Proof. solve_decision. Defined.
#[export] Instance CommandSurface_dec : EqDecision CommandSurface. Proof. solve_decision. Defined.
#[export] Instance CommandRisk_dec : EqDecision CommandRisk. Proof. solve_decision. Defined.
#[export] Instance Shell_dec : EqDecision Shell. Proof. solve_decision. Defined.
#[export] Instance EditorContextKind_dec : EqDecision EditorContextKind. Proof. solve_decision. Defined.
#[export] Instance Role_dec : EqDecision Role. Proof. solve_decision. Defined.
#[export] Instance WorkspaceKind_dec : EqDecision WorkspaceKind. Proof. solve_decision. Defined.

Record DocumentCapabilities := {
  role : option Role; edit : bool; comment : bool; saveVersion : bool; manageShares : bool }.

Inductive parameter_type := TString | TNumber | TBoolean.
Record parameter := { p_type : parameter_type; p_enum : option (list jsval) }.
Record CommandParameterSchema := {
  properties : option (list (jstring * parameter)); required : option (list jstring) }.

(** The fields of a definition that admission, execution and reports read. *)
Record CommandDefinition := {
  id : jstring;
  label : jstring;
  surfaces : list CommandSurface;
  invocationSources : list CommandSource;
  modes : option (list CommandModality);
  contexts : option (list EditorContextKind);
  roles : option (list Role);
  workspaceKinds : option (list WorkspaceKind);
  capability : option CommandCapability;
  requiresDocument : bool;
  requiresSelection : bool;
  hiddenWhenUnavailable : bool;
  risk : CommandRisk;
  parameters : option CommandParameterSchema }.

Record CommandEnvironment := {
  hasDocument : bool;
  hydrated : bool;
  capabilities : option DocumentCapabilities;
  workspaceKind : WorkspaceKind;
  mode : CommandModality;
  activePane_preview : bool;
  shell : Shell;
  context : EditorContextKind;
  selectionLength : Z;
  voiceSupported : bool }.

(** ** Admission ([client/src/commands/projection.ts]) *)

Record CommandAvailability := { visible : bool; enabled : bool; reason : option jstring }.

Record EvaluatedCommandAvailability := {
  e_reason : option jstring; contextualMismatch : bool; modalityMismatch : bool; identityMismatch : bool }.

Definition ribbonTask (environment : CommandEnvironment) : RibbonTask :=
  if bool_decide (mode environment = PreviewMode) then InspectTask
  else if bool_decide (mode environment = EditMode) then Compose
  else if bool_decide (shell environment = FoldBook) || bool_decide (shell environment = FoldLaptop) then Compose
  else if activePane_preview environment then InspectTask else Compose.

Definition isRibbonPresentationSurface (surface : CommandSurface) : bool :=
  match surface with RibbonSurface | PhoneSurface | FoldableSurface => true | _ => false end.

Definition presentationCommandMode (environment : CommandEnvironment) (surface : CommandSurface) : CommandModality :=
  if isRibbonPresentationSurface surface && bool_decide (ribbonTask environment = InspectTask) then PreviewMode
  else mode environment.

Definition presentationContext (environment : CommandEnvironment) (surface : CommandSurface) : EditorContextKind :=
  if isRibbonPresentationSurface surface && bool_decide (ribbonTask environment = InspectTask) then TextContext
  else context environment.

Definition invocationCommandMode (environment : CommandEnvironment) (source : CommandSource) : CommandModality :=
  if bool_decide (source = Human) && bool_decide (ribbonTask environment = InspectTask) then PreviewMode
  else mode environment.

Definition invocationContext (environment : CommandEnvironment) (source : CommandSource) : EditorContextKind :=
  if bool_decide (source = Human) && bool_decide (ribbonTask environment = InspectTask) then TextContext
  else context environment.

Definition mode_name (m : CommandModality) : jstring :=
  match m with EditMode => lit "edit" | SplitMode => lit "split" | PreviewMode => lit "preview" end.
Definition context_name (c : EditorContextKind) : jstring :=
  match c with
  | TextContext => lit "text" | HeadingContext => lit "heading" | ImageContext => lit "image"
  | TableContext => lit "table" | ShapeContext => lit "shape" | CodeContext => lit "code"
  end.

Definition joined (separator : jstring) (parts : list jstring) : jstring :=
  match parts with
  | [] => []
  | x :: rest => x ++ concat (map (fun y => separator ++ y) rest)
  end.

Definition has_capability (c : CommandCapability) (caps : DocumentCapabilities) : bool :=
  match c with
  | CanEdit => edit caps | CanComment => comment caps
  | CanSaveVersion => saveVersion caps | CanManageShares => manageShares caps
  end.

Definition capabilityReason (c : CommandCapability) : jstring :=
  match c with
  | CanEdit => lit "Your current role can read but cannot edit this document."
  | CanComment => lit "Your current role cannot add review comments."
  | CanSaveVersion => lit "Your current role cannot save or restore versions."
  | CanManageShares => lit "Only the document owner can manage access."
  end.

Definition workspaceReason (command : CommandDefinition) (environment : CommandEnvironment) : jstring :=
  match workspaceKind environment with
  | ScratchKind => lit "Log in before managing named access or account-only history."
  | LocalKind => lit "This control requires the Marks identity service."
  | SessionKind =>
      if bool_decide (ScratchKind ∈ default [] (workspaceKinds command))
      then lit "This command only applies before you log in."
      else lit "This command is not available in the current workspace."
  end.

(** [allowed && !allowed.includes(x)] *)
Definition excludes {A} `{EqDecision A} (allowed : option (list A)) (x : A) : bool :=
  match allowed with Some l => negb (bool_decide (x ∈ l)) | None => false end.
Definition excludes_role (allowed : option (list Role)) (x : option Role) : bool :=
  match allowed with
  | Some l => match x with Some r => negb (bool_decide (r ∈ l)) | None => true end
  | None => false
  end.

Definition current_role (environment : CommandEnvironment) : option Role :=
  capabilities environment ≫= role.

(** [command.capability && !environment.capabilities?.[command.capability]] *)
Definition missing_capability (command : CommandDefinition) (environment : CommandEnvironment) : option jstring :=
  match capability command with
  | Some c =>
      if match capabilities environment with Some caps => has_capability c caps | None => false end
      then None else Some (capabilityReason c)
  | None => None
  end.

Definition evaluateAvailability (command : CommandDefinition) (environment : CommandEnvironment)
    (commandMode : CommandModality) (visibleContext : EditorContextKind) : EvaluatedCommandAvailability :=
  let reason :=
    if requiresDocument command && negb (hasDocument environment) then Some (lit "Open a document first.")
    else if requiresDocument command && negb (hydrated environment) then Some (lit "The document is still opening.")
    else if excludes (modes command) commandMode then
      Some (if bool_decide (commandMode = PreviewMode) then lit "Switch to Editor or Split to change Markdown."
            else lit "This command is unavailable in " ++ mode_name commandMode ++ lit " mode.")
    else if excludes (contexts command) (context environment) then
      Some (lit "Select a " ++ joined (lit " or ") (map context_name (default [] (contexts command)))
            ++ lit " to use this command.")
    else if excludes (workspaceKinds command) (workspaceKind environment) then
      Some (workspaceReason command environment)
    else if bool_decide (is_Some (roles command)) && bool_decide (current_role environment = None) then
      Some (lit "Document authority has not resolved yet.")
    else if excludes_role (roles command) (current_role environment) then
      Some (lit "Your document role does not allow this command.")
    else
      match missing_capability command environment with
      | Some r => Some r
      | None =>
          if requiresSelection command && (selectionLength environment =? 0) then Some (lit "Select text first.")
          else if str_eqb (id command) (lit "input.dictate") && negb (voiceSupported environment) then
            Some (lit "Voice input is not supported by this browser.")
          else if str_eqb (id command) (lit "view.split") && bool_decide (shell environment = PhoneShell) then
            Some (lit "Split view is not available in the phone shell.")
          else None
      end in
  {| e_reason := reason;
     contextualMismatch := excludes (contexts command) visibleContext;
     modalityMismatch := excludes (modes command) commandMode;
     identityMismatch := excludes (workspaceKinds command) (workspaceKind environment)
                         || excludes_role (roles command) (current_role environment) |}.

Definition commandAvailability (command : CommandDefinition) (environment : CommandEnvironment)
    (surface : CommandSurface) : CommandAvailability :=
  if negb (bool_decide (surface ∈ surfaces command)) then {| visible := false; enabled := false; reason := None |}
  else
    let evaluated := evaluateAvailability command environment
                       (presentationCommandMode environment surface) (presentationContext environment surface) in
    let available := bool_decide (e_reason evaluated = None) in
    {| visible :=
         if negb (hiddenWhenUnavailable command) || available
         then match surface with
              | RibbonSurface | PhoneSurface | FoldableSurface | MiniSurface =>
                  negb (contextualMismatch evaluated)
                  && (bool_decide (surface = PhoneSurface) || negb (modalityMismatch evaluated))
              | _ => true
              end
         else negb (identityMismatch evaluated) && negb (contextualMismatch evaluated)
              && negb (modalityMismatch evaluated);
       enabled := available; reason := e_reason evaluated |}.

Definition commandInvocationAvailability (command : CommandDefinition) (environment : CommandEnvironment)
    (source : CommandSource) : CommandAvailability :=
  if negb (bool_decide (source ∈ invocationSources command)) then {| visible := false; enabled := false; reason := None |}
  else
    let evaluated := evaluateAvailability command environment
                       (invocationCommandMode environment source) (invocationContext environment source) in
    {| visible := true; enabled := bool_decide (e_reason evaluated = None); reason := e_reason evaluated |}.

(** ** Arguments ([validateInput]) *)

(** The names every object inherits: [key in object] finds them. *)
Definition OBJECT_PROTOTYPE : list jstring := map lit
  [ "constructor"; "__defineGetter__"; "__defineSetter__"; "hasOwnProperty"; "__lookupGetter__";
    "__lookupSetter__"; "isPrototypeOf"; "propertyIsEnumerable"; "toString"; "valueOf"; "__proto__";
    "toLocaleString" ]%string.

Abbreviation arguments := (list (jstring * jsval)).

Definition in_object {V} (object : list (jstring * V)) (key : jstring) : bool :=
  mhas object key || bool_decide (key ∈ OBJECT_PROTOTYPE).

Definition type_name (t : parameter_type) : jstring :=
  match t with TString => lit "string" | TNumber => lit "number" | TBoolean => lit "boolean" end.
Definition has_type (t : parameter_type) (v : jsval) : bool :=
  match t, v with TString, VStr _ | TNumber, VNum _ | TBoolean, VBool _ => true | _, _ => false end.

(** [includes] on strings, numbers and booleans. *)
Definition same_primitive (v w : jsval) : bool :=
  match v, w with
  | VStr a, VStr b => str_eqb a b
  | VNum (NInt a), VNum (NInt b) => a =? b
  | VNum (NOther a), VNum (NOther b) => a =? b
  | VBool a, VBool b => Bool.eqb a b
  | _, _ => false
  end.

(** One turn of the last loop: what it reports about an argument. An inherited
    name is found as a function, which has no [type]. *)
Definition argument_error (properties : list (jstring * parameter)) (key : jstring) (value : jsval)
    : option jstring :=
  match mget properties key with
  | None =>
      if bool_decide (key ∈ OBJECT_PROTOTYPE)
      then Some (lit "Command argument " ++ key ++ lit " must be undefined.") else None
  | Some property =>
      if negb (has_type (p_type property) value) then
        Some (lit "Command argument " ++ key ++ lit " must be " ++ type_name (p_type property) ++ lit ".")
      else
        match p_enum property with
        | Some values =>
            if existsb (same_primitive value) values then None
            else Some (lit "Command argument " ++ key ++ lit " is outside the allowed values.")
        | None => None
        end
  end.

Fixpoint argument_errors (properties : list (jstring * parameter)) (input : arguments) : option jstring :=
  match input with
  | [] => None
  | (key, value) :: rest =>
      match argument_error properties key value with
      | Some e => Some e
      | None => argument_errors properties rest
      end
  end.

(** [additionalProperties] is [false] in every schema. *)
Definition validateInput (command : CommandDefinition) (input : arguments) : option jstring :=
  match parameters command with
  | None => if len input =? 0 then None else Some (lit "This command does not accept arguments.")
  | Some schema =>
      let properties := default [] (properties schema) in
      let unknown := List.find (fun kv => negb (in_object properties kv.1)) input in
      if negb (str_eqb (default [] (fst <$> unknown)) []) then
        Some (lit "Unknown command argument: " ++ default [] (fst <$> unknown))
      else
        match List.find (fun name => negb (in_object input name)) (default [] (required schema)) with
        | Some name => Some (lit "Missing required command argument: " ++ name)
        | None => argument_errors properties input
        end
  end.

(** ** Runs *)

Inductive CommandRunStatus := Proposed | AwaitingApproval | Running | Succeeded | Failed | Cancelled.
#[export] Instance CommandRunStatus_dec : EqDecision CommandRunStatus. Proof. solve_decision. Defined.

Record CommandRun := mkRun {
  run_id : jstring; commandId : jstring; source : CommandSource; status : CommandRunStatus;
  input : arguments; proposedAt : Z; startedAt : option Z; finishedAt : option Z;
  message : option jstring; error : option jstring }.

#[export] Instance eta_run : Eta CommandRun := fun s =>
  mkRun (run_id s) (commandId s) (source s) (status s) (input s) (proposedAt s) (startedAt s) (finishedAt s) (message s) (error s).
#[export] Instance set_run_status : SetField status. Proof. solve_update. Defined.
#[export] Instance set_run_startedAt : SetField startedAt. Proof. solve_update. Defined.
#[export] Instance set_run_finishedAt : SetField finishedAt. Proof. solve_update. Defined.
#[export] Instance set_run_message : SetField message. Proof. solve_update. Defined.
#[export] Instance set_run_error : SetField error. Proof. solve_update. Defined.

Definition isTerminal (st : CommandRunStatus) : bool :=
  match st with Succeeded | Failed | Cancelled => true | _ => false end.

Record PendingRun := { run : CommandRun; aborted : bool }.

Record RuntimeInvocation := { i_source : CommandSource; i_input : option arguments; bypassApproval : bool }.

(** [queue] holds the microtasks that call [execute]; [calls] the executor's
    calls that have not settled; [executed] every call made, with the run it was
    given; [resolved] the promises resolved, in order; [drawn] counts the ids. *)
Record Runtime := mkRuntime {
  environment : CommandEnvironment;
  pending : list (jstring * PendingRun);
  runs : list CommandRun;
  receipts : list CommandRun;
  queue : list jstring;
  calls : list jstring;
  executed : list CommandRun;
  resolved : list (jstring * CommandRun);
  drawn : Z;
  now : Z }.

#[export] Instance eta_runtime : Eta Runtime := fun s =>
  mkRuntime (environment s) (pending s) (runs s) (receipts s) (queue s) (calls s) (executed s) (resolved s) (drawn s) (now s).
#[export] Instance set_rt_environment : SetField environment. Proof. solve_update. Defined.
#[export] Instance set_rt_pending : SetField pending. Proof. solve_update. Defined.
#[export] Instance set_rt_runs : SetField runs. Proof. solve_update. Defined.
#[export] Instance set_rt_receipts : SetField receipts. Proof. solve_update. Defined.
#[export] Instance set_rt_queue : SetField queue. Proof. solve_update. Defined.
#[export] Instance set_rt_calls : SetField calls. Proof. solve_update. Defined.
#[export] Instance set_rt_executed : SetField executed. Proof. solve_update. Defined.
#[export] Instance set_rt_resolved : SetField resolved. Proof. solve_update. Defined.
#[export] Instance set_rt_drawn : SetField drawn. Proof. solve_update. Defined.
#[export] Instance set_rt_now : SetField now. Proof. solve_update. Defined.

(** ** The runtime ([CommandRuntime]) *)

Inductive execution := Settled (ok : bool) (message : option jstring) | Rejected (message : option jstring).

Section Runtime.
(** The registry's table, the id source and the receipt limit. *)
Context (COMMANDS : list CommandDefinition) (uuid : Z -> jstring) (maxReceipts : Z).
Implicit Types (s : Runtime) (command : CommandDefinition) (x : jstring).

Definition getCommand (x : jstring) : option CommandDefinition :=
  List.find (fun c => str_eqb (id c) x) COMMANDS.

Definition start_runtime (environment : CommandEnvironment) (now : Z) : Runtime :=
  mkRuntime environment [] [] [] [] [] [] [] 0 now.

Definition sensitive_source (source : CommandSource) : bool :=
  match source with Agent | Bridge => true | _ => false end.
Definition high_risk command : bool :=
  match risk command with ExternalRisk | DestructiveRisk => true | _ => false end.

Definition approvalMessage command : jstring :=
  match risk command with
  | DestructiveRisk => label command ++ lit " can remove or revoke data. Approve before it runs."
  | _ => label command ++ lit " crosses the browser or service boundary. Approve before it runs."
  end.

Definition set_run (runs : list CommandRun) (r : CommandRun) : list CommandRun :=
  map (fun r' => if str_eqb (run_id r') (run_id r) then r else r') runs.

Definition update x (patch : CommandRun -> CommandRun) s : Runtime :=
  match mget (pending s) x with
  | None => s
  | Some p =>
      let r := patch (run p) in
      s <| pending := mset (pending s) x {| run := r; aborted := aborted p |} |> <| runs := set_run (runs s) r |>
  end.

(** [slice(-n)] *)
Definition last_n {A} (n : Z) (l : list A) : list A := slice_from l (- n).

(** The receipt of a run that ends. *)
Definition receipt_of (st : CommandRunStatus) (text : option jstring) (t : Z) (r : CommandRun) : CommandRun :=
  let failed := bool_decide (st = Failed) in
  r <| status := st |> <| finishedAt := Some t |> <| message := if failed then message r else text |>
    <| error := if failed then match text with Some e => Some e | None => error r end else None |>.

Definition finish x (st : CommandRunStatus) (text : option jstring) s : Runtime :=
  match mget (pending s) x with
  | None => s
  | Some p =>
      let receipt := receipt_of st text (now s) (run p) in
      s <| pending := mdel (pending s) x |> <| runs := set_run (runs s) receipt |>
        <| receipts := last_n maxReceipts (receipts s ++ [receipt]) |>
        <| resolved := resolved s ++ [(x, receipt)] |>
  end.

Definition new_run command (invocation : RuntimeInvocation) s : CommandRun :=
  let source := i_source invocation in
  let availability := commandInvocationAvailability command (environment s) source in
  let input := default [] (i_input invocation) in
  let inputError := if sensitive_source source then validateInput command input else None in
  let needsApproval := sensitive_source source && high_risk command && negb (bypassApproval invocation) in
  {| run_id := uuid (drawn s); commandId := id command; source := source;
     status := if enabled availability && bool_decide (inputError = None)
               then if needsApproval then AwaitingApproval else Proposed else Failed;
     input := input; proposedAt := now s; startedAt := None; finishedAt := None;
     message := if needsApproval then Some (approvalMessage command) else None;
     error := match inputError with
              | Some e => Some e
              | None => if enabled availability then None
                        else Some (default (lit "Command is unavailable.") (reason availability))
              end |}.

Definition create command (invocation : RuntimeInvocation) s : Runtime * CommandRun :=
  let r := new_run command invocation s in
  let s := s <| drawn := drawn s + 1 |> <| pending := mset (pending s) (run_id r) {| run := r; aborted := false |} |>
             <| runs := last_n 12 (runs s ++ [r]) |> in
  (if bool_decide (status r = Failed) then finish (run_id r) Failed (error r) s else s, r).

(** [requireCommand] throws for an unknown command. *)
Definition start (commandId : jstring) (invocation : RuntimeInvocation) s : Runtime * res CommandRun :=
  match getCommand commandId with
  | None => (s, Throw (Exn PlainError "Unknown command"))
  | Some command =>
      let '(s, r) := create command invocation s in
      (if bool_decide (status r = Proposed) then s <| queue := queue s ++ [run_id r] |> else s, Ok r)
  end.

(** [execute] up to the call of the executor. *)
Definition execute x s : Runtime :=
  match mget (pending s) x with
  | None => s
  | Some p =>
      if negb (bool_decide (status (run p) = Proposed)) then s
      else
        match getCommand (commandId (run p)) with
        | None => s
        | Some command =>
            let availability := commandInvocationAvailability command (environment s) (source (run p)) in
            if negb (enabled availability) then
              finish x Failed (Some (default (lit "Command became unavailable.") (reason availability))) s
            else
              let s := update x (fun r => r <| status := Running |> <| startedAt := Some (now s) |>
                                   <| message := Some (lit "Running " ++ label command) |>) s in
              match mget (pending s) x with
              | Some p => s <| executed := executed s ++ [run p] |> <| calls := calls s ++ [x] |>
              | None => s
              end
        end
  end.

(** What follows the executor's call when it settles. *)
Definition settle x (result : execution) s : Runtime :=
  if negb (bool_decide (x ∈ calls s)) then s
  else
    let s := s <| calls := filter (fun y => y <> x) (calls s) |> in
    match mget (pending s) x with
    | None => s
    | Some p =>
        let name := default [] (label <$> getCommand (commandId (run p))) in
        if aborted p then finish x Cancelled (Some (lit "Cancelled before completion.")) s
        else
          match result with
          | Settled true m => finish x Succeeded (Some (default (name ++ lit " completed.") m)) s
          | Settled false m => finish x Failed (Some (default (name ++ lit " could not be applied.") m)) s
          | Rejected m => finish x Failed (Some (default (lit "Command failed.") m)) s
          end
    end.

Definition approve x s : Runtime :=
  match mget (pending s) x with
  | None => s
  | Some p =>
      if negb (bool_decide (status (run p) = AwaitingApproval)) then s
      else execute x (update x (fun r => r <| status := Proposed |> <| message := Some (lit "Approved") |>) s)
  end.

Definition abort x s : Runtime :=
  match mget (pending s) x with
  | None => s
  | Some p => s <| pending := mset (pending s) x {| run := run p; aborted := true |} |>
  end.

Definition cancel x s : Runtime :=
  match mget (pending s) x with
  | None => s
  | Some p =>
      if isTerminal (status (run p)) then s
      else finish x Cancelled (Some (lit "Cancelled before completion.")) (abort x s)
  end.

Definition destroy s : Runtime :=
  let ids := (pending s).*1 in
  let s := fold_left (fun s x => abort x s) ids s in
  fold_left (fun s x => finish x Cancelled (Some (lit "Command surface closed.")) s) ids s.

(** ** Runs of the runtime *)

(** [REnvironment] and [RTime] are changes of what the options return. *)
Inductive runtime_event :=
| RStart (commandId : jstring) (invocation : RuntimeInvocation)
| RMicrotask
| RApprove (x : jstring)
| RCancel (x : jstring)
| RSettle (x : jstring) (result : execution)
| RDestroy
| REnvironment (environment : CommandEnvironment)
| RTime (now : Z).

Definition runtime_step s (e : runtime_event) : Runtime :=
  match e with
  | RStart c invocation => (start c invocation s).1
  | RMicrotask => match queue s with [] => s | x :: rest => execute x (s <| queue := rest |>) end
  | RApprove x => approve x s
  | RCancel x => cancel x s
  | RSettle x result => settle x result s
  | RDestroy => destroy s
  | REnvironment env => s <| environment := env |>
  | RTime t => s <| now := t |>
  end.

Definition runtime_run s (es : list runtime_event) : Runtime := fold_left runtime_step es s.
End Runtime.

(** ** The runtime's invariant *)

Section Invariant.
Context (COMMANDS : list CommandDefinition) (uuid : Z -> jstring) (maxReceipts : Z).
(** [crypto.randomUUID()] never returns the same id twice. *)
Hypothesis uuid_fresh : forall a b, uuid a = uuid b -> a = b.
Implicit Types (s : Runtime) (command : CommandDefinition) (x : jstring) (p : PendingRun) (r : CommandRun).
(** The runs a human has approved. *)
Implicit Types (A : jstring -> Prop).

(** What starting a run checks once and for all: a known command, arguments its
    schema allows and, before anything else happens, an approval. *)
Definition admitted A (free : bool) r : Prop :=
  exists command, getCommand COMMANDS (commandId r) = Some command /\
    (sensitive_source (source r) = true ->
     validateInput command (input r) = None /\ (free = true -> high_risk command = true -> A (run_id r))).

(** A pending run waits for its approval, its microtask or its executor. *)
Definition pending_ok A (Q : list jstring) s x p : Prop :=
  run_id (run p) = x /\ admitted A (negb (bool_decide (status (run p) = AwaitingApproval))) (run p) /\
  match status (run p) with
  | AwaitingApproval => x ∉ map run_id (executed s)
  | Proposed => x ∈ Q /\ (x ∉ map run_id (executed s))
  | Running => x ∈ calls s /\ x ∈ map run_id (executed s)
  | _ => False
  end.

Definition ids s : list jstring := (pending s).*1 ++ (resolved s).*1.

Record runtime_ok A (Q : list jstring) s : Prop := {
  rt_ids : ids s ≡ₚ map uuid (seqZ 0 (drawn s));
  rt_drawn : 0 <= drawn s;
  rt_pending : forall x p, mget (pending s) x = Some p -> pending_ok A Q s x p;
  rt_resolved : Forall (fun xr => run_id xr.2 = xr.1 /\ isTerminal (status xr.2) = true) (resolved s);
  rt_executed : Forall (fun r => run_id r ∈ ids s /\ admitted A true r) (executed s);
  rt_once : NoDup (map run_id (executed s));
  rt_calls : forall x, x ∈ calls s -> x ∈ map run_id (executed s) }.

Lemma admitted_mono A A' free r : (forall x, A x -> A' x) -> admitted A free r -> admitted A' free r.
Proof.
  intros HA (c & Hc & H). exists c. split; [done |]. intros Hs. destruct (H Hs) as [? Hf]. split; [done |]. auto.
Qed.

Lemma runtime_ok_mono A A' Q s : (forall x, A x -> A' x) -> runtime_ok A Q s -> runtime_ok A' Q s.
Proof.
  intros HA []. split; try done.
  - intros x p Hx. destruct (rt_pending0 x p Hx) as (? & ? & ?). split_and!; try done. by eapply admitted_mono.
  - eapply Forall_impl; [exact rt_executed0 |]. intros r [? ?]. split; [done |]. by eapply admitted_mono.
Qed.

Lemma ids_NoDup A Q s : runtime_ok A Q s -> NoDup (ids s).
Proof.
  intros []. rewrite rt_ids0. apply NoDup_fmap_2_strong; [|apply NoDup_seqZ]. intros a b _ _. apply uuid_fresh.
Qed.

Lemma fresh_id A Q s : runtime_ok A Q s -> uuid (drawn s) ∉ ids s.
Proof.
  intros []. rewrite rt_ids0. intros (n & E & Hn)%list_elem_of_fmap. apply uuid_fresh in E as <-.
  apply elem_of_seqZ in Hn. lia.
Qed.

Lemma mdel_perm {V} (m : list (jstring * V)) x v :
  NoDup m.*1 -> mget m x = Some v -> m.*1 ≡ₚ x :: (mdel m x).*1.
Proof.
  intros Hnd Hx. rewrite mdel_keys. apply NoDup_Permutation.
  - done.
  - apply NoDup_cons. split; [|by apply NoDup_filter]. by intros [? _]%list_elem_of_filter.
  - intros y. rewrite elem_of_cons, list_elem_of_filter. split.
    + intros Hy. destruct (decide (y = x)); [by left | by right].
    + intros [-> | [_ ?]]; [|done]. destruct (decide (x ∈ m.*1)); [done |].
      apply mget_None_keys in n. congruence.
Qed.

Lemma pending_NoDup A Q s : runtime_ok A Q s -> NoDup (pending s).*1.
Proof. intros H%ids_NoDup. by apply NoDup_app in H as [? _]. Qed.

(** Finishing a run moves it from the pending ones to the resolved ones. *)
Lemma finish_ok A Q x st text s :
  isTerminal st = true -> runtime_ok A Q s -> runtime_ok A Q (finish maxReceipts x st text s).
Proof.
  intros Hst Hs. unfold finish. destruct (mget (pending s) x) as [p|] eqn:Ex; [|done]. cbv zeta.
  pose proof (pending_NoDup A Q s Hs) as Hnd. destruct Hs as [Hids Hd Hp Hr He Ho Hc].
  set (receipt := receipt_of st text (now s) (run p)).
  assert (run_id receipt = run_id (run p) /\ status receipt = st) as [E1 E2] by done. clearbody receipt.
  assert (forall s', ids s' = (mdel (pending s) x).*1 ++ (resolved s).*1 ++ [x] -> ids s' ≡ₚ ids s) as Hperm.
  { intros s' ->. unfold ids. rewrite (mdel_perm (pending s) x p) by done.
    rewrite app_assoc, (Permutation_app_comm _ [x]). done. }
  match goal with |- runtime_ok _ _ ?s' => assert (ids s' ≡ₚ ids s) as Hids' by (apply Hperm; unfold ids; cbn; by rewrite fmap_app) end.
  split; cbn [drawn pending resolved executed calls queue]; try done.
  - by rewrite Hids'.
  - intros y q Hy. change (mget (mdel (pending s) x) y = Some q) in Hy.
    assert (y <> x) as Hne by (intros ->; by rewrite mget_mdel_eq in Hy).
    rewrite mget_mdel_ne in Hy by done. exact (Hp y q Hy).
  - apply Forall_app. split; [done |]. constructor; [|constructor]. cbn. rewrite E1, E2.
    destruct (Hp x p Ex) as (-> & _). done.
  - eapply Forall_impl; [exact He |]. intros r [Hin ?]. split; [|done]. by rewrite Hids'.
Qed.

Lemma mset_pending_ids x p q s :
  mget (pending s) x = Some q -> ids (s <| pending := mset (pending s) x p |>) = ids s.
Proof. intros Hx. unfold ids. cbn. by rewrite mset_keys_old by (rewrite Hx; by eexists). Qed.

(** Replacing a pending run by another one of the same id. *)
Lemma replace_ok A Q x p q s s' :
  runtime_ok A Q s -> mget (pending s) x = Some q -> pending s' = mset (pending s) x p ->
  resolved s' = resolved s -> drawn s' = drawn s ->
  (executed s' = executed s /\ calls s' = calls s \/
   (x ∉ map run_id (executed s)) /\ admitted A true (run p) /\
     executed s' = executed s ++ [run p] /\ calls s' = calls s ++ [x]) ->
  pending_ok A Q s' x p -> runtime_ok A Q s'.
Proof.
  intros Hs Hx Ep Er Ed Hcase Hp. pose proof Hs as [Hids Hd Hpend Hr He Ho Hc].
  assert (ids s' = ids s) as Ei by (unfold ids; rewrite Ep, Er; by rewrite mset_keys_old by (rewrite Hx; by eexists)).
  pose proof Hp as (Hid & _ & _).
  assert (forall y, y ∈ map run_id (executed s) -> y ∈ map run_id (executed s')) as Hmono.
  { intros y Hy. destruct Hcase as [[-> _] | (_ & _ & -> & _)]; [done |]. rewrite map_app. apply elem_of_app. by left. }
  split; rewrite ?Ei, ?Ed, ?Er; try done.
  - intros y p' Hy. rewrite Ep in Hy. destruct (decide (y = x)) as [-> | Hne].
    { rewrite mget_mset_eq in Hy. by injection Hy as <-. }
    rewrite mget_mset_ne in Hy by done. destruct (Hpend y p' Hy) as (H1 & H2 & H3). split_and!; [done | done |].
    assert (y ∉ map run_id (executed s) -> y ∉ map run_id (executed s')) as Hnot.
    { intros Hn. destruct Hcase as [[-> _] | (_ & _ & -> & _)]; [done |]. rewrite map_app. intros [? | Hin]%elem_of_app; [done |].
      cbn in Hin. rewrite Hid in Hin. by apply list_elem_of_singleton in Hin. }
    destruct (status (run p')); try done; [destruct H3; by split; [|apply Hnot] | by apply Hnot |].
    destruct H3 as [H3 H4]. split; [|by apply Hmono]. destruct Hcase as [[_ ->] | (_ & _ & _ & ->)]; [done |].
    apply elem_of_app. by left.
  - destruct Hcase as [[-> _] | (_ & Hadm & -> & _)]; [done |]. apply Forall_app. split; [done |]. constructor; [|constructor].
    split; [|done]. rewrite Hid. unfold ids. apply elem_of_app. left. destruct (decide (x ∈ (pending s).*1)) as [|Hn]; [done |].
    apply mget_None_keys in Hn. congruence.
  - destruct Hcase as [[-> _] | (Hn & _ & -> & _)]; [done |]. rewrite map_app. apply NoDup_app. split_and!; [done | | apply NoDup_singleton].
    cbn. rewrite Hid. by intros y Hy ->%list_elem_of_singleton.
  - intros y Hy. destruct Hcase as [[-> E] | (_ & _ & -> & E)]; rewrite E in Hy; [by apply Hc |].
    rewrite map_app. apply elem_of_app. apply elem_of_app in Hy as [Hy | Hy]; [left; by apply Hc | right].
    apply list_elem_of_singleton in Hy as ->. cbn. rewrite Hid. by apply list_elem_of_singleton.
Qed.

(** *** Running *)

Lemma getCommand_id x command : getCommand COMMANDS x = Some command -> id command = x.
Proof. intros [_ H]%List.find_some. by apply str_eqb_eq in H. Qed.

Lemma drop_queued A Q x s :
  runtime_ok A (x :: Q) s -> (forall p, mget (pending s) x = Some p -> status (run p) <> Proposed) -> runtime_ok A Q s.
Proof.
  intros [] Hx. split; try done. intros y p Hy. destruct (rt_pending0 y p Hy) as (H1 & H2 & H3). split_and!; [done | done |].
  destruct (status (run p)) eqn:Es; try done. destruct H3 as [Hin ?]. split; [|done].
  apply elem_of_cons in Hin as [-> | ?]; [|done]. by destruct (Hx p Hy).
Qed.

Lemma finish_gone x st text s : NoDup (pending s).*1 -> mget (pending (finish maxReceipts x st text s)) x = None.
Proof.
  intros Hnd. unfold finish. destruct (mget (pending s) x) eqn:E; [|done]. cbn. apply mget_mdel_eq.
Qed.

Lemma update_spec x f s p :
  mget (pending s) x = Some p ->
  let s' := update x f s in let p' := {| run := f (run p); aborted := aborted p |} in
  mget (pending s') x = Some p' /\ pending s' = mset (pending s) x p' /\ resolved s' = resolved s /\
  drawn s' = drawn s /\ executed s' = executed s /\ calls s' = calls s /\ environment s' = environment s.
Proof. intros Hx. cbv zeta. unfold update. rewrite Hx. split_and!; try done. apply mget_mset_eq. Qed.

Lemma execute_ok A Q x s :
  runtime_ok A (x :: Q) s -> runtime_ok A Q (execute COMMANDS maxReceipts x s).
Proof.
  intros Hs. unfold execute. destruct (mget (pending s) x) as [p|] eqn:Ex.
  2: { apply (drop_queued _ _ x); [done |]. by intros p [=]%(eq_trans (eq_sym Ex)). }
  destruct (bool_decide (status (run p) = Proposed)) eqn:Est; cbn [negb].
  2: { apply (drop_queued _ _ x); [done |]. apply bool_decide_eq_false in Est. intros q Hq. congruence. }
  apply bool_decide_eq_true in Est. destruct (rt_pending _ _ _ Hs x p Ex) as (Hid & Hadm & Hst).
  rewrite Est in Hadm, Hst. rewrite bool_decide_false in Hadm by done. destruct Hst as [_ Hnot].
  pose proof Hadm as (command & Hc & _). rewrite Hc. cbv zeta.
  destruct (enabled _); cbn [negb].
  - set (f := fun r => _). destruct (update_spec x f s p Ex) as (E1 & E2 & E3 & E4 & E5 & E6 & _). rewrite E1.
    set (s1 := update x f s) in *. set (p' := {| run := f (run p); aborted := aborted p |}) in *.
    change (run_id (run p') = x) in Hid.
    apply (drop_queued _ _ x); [|intros q Hq; change (mget (pending s1) x = Some q) in Hq; rewrite E1 in Hq; by injection Hq as <-].
    apply (replace_ok A (x :: Q) x p' p s); try done.
    + right. split_and!; [done | done | by cbn; rewrite E5 | by cbn; rewrite E6].
    + split_and!; [done | done |]. cbn. split; [apply elem_of_app; right; by apply list_elem_of_singleton |].
      rewrite map_app. apply elem_of_app. right. change (x ∈ [run_id (run p')]). rewrite Hid. by apply list_elem_of_singleton.
  - apply (drop_queued _ _ x); [by apply finish_ok |]. intros q Hq.
    rewrite finish_gone in Hq by (by eapply pending_NoDup). done.
Qed.

Lemma abort_ok A Q x s : runtime_ok A Q s -> runtime_ok A Q (abort x s).
Proof.
  intros Hs. unfold abort. destruct (mget (pending s) x) as [p|] eqn:Ex; [|done].
  eapply replace_ok; [exact Hs | exact Ex | reflexivity | done | done | by left |]. exact (rt_pending _ _ _ Hs x p Ex).
Qed.

Lemma cancel_ok A Q x s : runtime_ok A Q s -> runtime_ok A Q (cancel maxReceipts x s).
Proof.
  intros Hs. unfold cancel. destruct (mget (pending s) x) as [p|]; [|done]. destruct (isTerminal _); [done |].
  by apply finish_ok, abort_ok.
Qed.

Lemma destroyed_ok A Q s : runtime_ok A Q s -> runtime_ok A Q (destroy maxReceipts s).
Proof.
  intros Hs. unfold destroy. generalize ((pending s).*1). intros l.
  assert (runtime_ok A Q (fold_left (fun s x => abort x s) l s)) as H.
  { revert s Hs. induction l as [|x l IH]; intros s Hs; [done |]. cbn. by apply IH, abort_ok. }
  revert H. generalize (fold_left (fun s x => abort x s) l s). clear s Hs.
  induction l as [|x l IH]; intros s Hs; [done |]. cbn. by apply IH, finish_ok.
Qed.

(** *** Starting, settling, approving *)

Lemma create_status command invocation s :
  status (create uuid maxReceipts command invocation s).2 = Proposed \/
  status (create uuid maxReceipts command invocation s).2 = AwaitingApproval \/
  status (create uuid maxReceipts command invocation s).2 = Failed.
Proof. unfold create. cbn. destruct (_ && _); [destruct (_ && _)|]; auto. Qed.

Lemma seqZ_snoc n : 0 <= n -> seqZ 0 (n + 1) = seqZ 0 n ++ [n].
Proof. intros Hn. rewrite seqZ_app by lia. f_equal. Qed.

(** A new run: everything [start] needs about it before it may have failed. *)
Lemma insert_ok A Q s p :
  runtime_ok A Q s ->
  pending_ok A (Q ++ if bool_decide (status (run p) = Proposed) then [uuid (drawn s)] else []) s (uuid (drawn s)) p ->
  forall s', pending s' = mset (pending s) (uuid (drawn s)) p -> resolved s' = resolved s -> drawn s' = drawn s + 1 ->
  executed s' = executed s -> calls s' = calls s ->
  runtime_ok A (Q ++ if bool_decide (status (run p) = Proposed) then [uuid (drawn s)] else []) s'.
Proof.
  intros Hs Hp s' Ep Er Ed Ee Ec. pose proof (fresh_id A Q s Hs) as Hfresh.
  pose proof Hs as [Hids Hd Hpend Hr He Ho Hc]. set (x := uuid (drawn s)) in *.
  assert (mget (pending s) x = None) as Hnew by (apply mget_None_keys; intros H; apply Hfresh, elem_of_app; by left).
  assert (ids s' ≡ₚ x :: ids s) as Hids'.
  { unfold ids. rewrite Ep, Er, mset_new, fmap_app, <- app_assoc by done. cbn. by rewrite <- Permutation_middle. }
  split; rewrite ?Ed, ?Er, ?Ee; try done; [| lia | | |].
  - rewrite Hids', Hids, seqZ_snoc, map_app by done. cbn. fold x. by rewrite (Permutation_app_comm _ [x]).
  - intros y q Hy. rewrite Ep in Hy. destruct (decide (y = x)) as [-> | Hne].
    { rewrite mget_mset_eq in Hy. injection Hy as <-. destruct Hp as (? & ? & H). split_and!; [done | done |].
      rewrite Ee, Ec. done. }
    rewrite mget_mset_ne in Hy by done. destruct (Hpend y q Hy) as (? & ? & H). split_and!; [done | done |].
    rewrite Ee, Ec. destruct (status (run q)); try done. destruct H. split; [|done]. apply elem_of_app. by left.
  - eapply Forall_impl; [exact He |]. intros r [? ?]. split; [|done]. rewrite Hids'. by apply elem_of_cons; right.
  - by rewrite Ec.
Qed.

Lemma executed_known A Q s x : runtime_ok A Q s -> x ∈ map run_id (executed s) -> x ∈ ids s.
Proof.
  intros [] (r & -> & Hr)%list_elem_of_fmap. rewrite Forall_forall in rt_executed0. by apply rt_executed0.
Qed.

(** A run rejected at once is pending and resolved within [create]. *)
Lemma reject_ok A Q s r s' :
  runtime_ok A Q s -> run_id r = uuid (drawn s) -> isTerminal (status r) = true ->
  pending s' = pending s -> resolved s' = resolved s ++ [(uuid (drawn s), r)] -> drawn s' = drawn s + 1 ->
  executed s' = executed s -> calls s' = calls s -> runtime_ok A Q s'.
Proof.
  intros Hs Hid Hst Ep Er Ed Ee Ec. pose proof Hs as [Hids Hd Hpend Hr He Ho Hc]. set (x := uuid (drawn s)) in *.
  assert (ids s' ≡ₚ x :: ids s) as Hids'.
  { unfold ids. rewrite Ep, Er, fmap_app, app_assoc. cbn. by rewrite (Permutation_app_comm _ [x]). }
  split; rewrite ?Ed, ?Er, ?Ee; try done; [| lia | | | |].
  - rewrite Hids', Hids, seqZ_snoc, map_app by done. cbn. fold x. by rewrite (Permutation_app_comm _ [x]).
  - intros y q Hy. rewrite Ep in Hy. destruct (Hpend y q Hy) as (? & ? & H). split_and!; [done | done |].
    rewrite Ee, Ec. done.
  - apply Forall_app. split; [done |]. by repeat constructor.
  - eapply Forall_impl; [exact He |]. intros q [? ?]. split; [|done]. rewrite Hids'. by apply elem_of_cons; right.
  - by rewrite Ec.
Qed.

Lemma mset_mdel_new {V} (m : list (jstring * V)) x v : mget m x = None -> mdel (mset m x v) x = m.
Proof.
  intros H. rewrite mset_new by done. induction m as [|[k w] m IH]; cbn in *; [by rewrite decide_True |].
  destruct (decide (k = x)); [done |]. by rewrite IH.
Qed.

Lemma started_ok A c invocation s :
  bypassApproval invocation = false -> runtime_ok A (queue s) s ->
  let s' := (start COMMANDS uuid maxReceipts c invocation s).1 in runtime_ok A (queue s') s'.
Proof.
  intros Hby Hs. cbv zeta. unfold start. destruct (getCommand COMMANDS c) as [command|] eqn:Hc; [|done].
  pose proof (getCommand_id _ _ Hc) as Hcid.
  pose proof (fresh_id A _ s Hs) as Hfresh.
  assert (mget (pending s) (uuid (drawn s)) = None) as Hnew by (apply mget_None_keys; intros H; apply Hfresh, elem_of_app; by left).
  unfold create. cbv zeta. set (r := new_run _ _ _ _).
  assert (run_id r = uuid (drawn s)) as Eid by done.
  assert ((status r = Proposed \/ status r = AwaitingApproval) /\
    admitted A (negb (bool_decide (status r = AwaitingApproval))) r \/ status r = Failed) as [[Hst Hadm] | Hst].
  { unfold r, new_run. rewrite Hby. cbn [negb status]. rewrite andb_true_r.
    destruct (enabled _ && bool_decide _) eqn:E; [left | by right]. apply andb_true_iff in E as [_ Hin]. apply bool_decide_eq_true in Hin.
    split; [destruct (_ && _); auto |]. exists command. cbn [commandId source input run_id]. rewrite Hcid. split; [done |].
    intros Hsrc. rewrite Hsrc in *. split; [done |]. cbn [andb]. intros Hfree Hrisk. by rewrite Hrisk in Hfree. }
  - set (p := {| run := r; aborted := false |}).
    pose proof (insert_ok A (queue s) s p Hs) as Hins. change (run p) with r in Hins.
    assert (uuid (drawn s) ∉ map run_id (executed s)) as Hnot by (intros H; by apply Hfresh, (executed_known A (queue s))).
    rewrite (bool_decide_false (status r = Failed)) by (intros E; rewrite E in Hst; by destruct Hst). rewrite Eid.
    clearbody r. destruct Hst as [Hst | Hst]; rewrite Hst in *.
    + rewrite bool_decide_true in Hins |- * by done. apply Hins; try done.
      split_and!; [done | change (run p) with r; by rewrite Hst | change (run p) with r; rewrite Hst]. split; [|done]. apply elem_of_app. right. by apply list_elem_of_singleton.
    + rewrite bool_decide_false in Hins |- * by done. rewrite app_nil_r in Hins. apply Hins; try done.
      split_and!; [done | change (run p) with r; by rewrite Hst | change (run p) with r; by rewrite Hst].
  - rewrite Hst. rewrite (bool_decide_true (Failed = Failed)), (bool_decide_false (Failed = Proposed)) by done. cbn [fst].
    rewrite Eid. match goal with |- context [finish _ _ _ _ ?y] => set (s1 := y) end.
    assert (mget (pending s1) (uuid (drawn s)) = Some {| run := r; aborted := false |}) as E by (apply mget_mset_eq).
    unfold finish. rewrite E.
    eapply (reject_ok A (queue s) s (receipt_of Failed (error r) (now s) r)); try done. by apply mset_mdel_new.
Qed.

Lemma settle_ok A Q x result s :
  runtime_ok A Q s -> runtime_ok A Q (settle COMMANDS maxReceipts x result s) /\
  (x ∈ calls s -> x ∈ (resolved (settle COMMANDS maxReceipts x result s)).*1).
Proof.
  intros Hs. unfold settle. destruct (bool_decide (x ∈ calls s)) eqn:Ex; cbn [negb].
  2: { split; [done |]. by apply bool_decide_eq_false in Ex. }
  apply bool_decide_eq_true in Ex. cbv zeta. set (s1 := s <| calls := _ |>).
  assert (x ∈ ids s1) as Hx by (eapply (executed_known A Q s); [done |]; by apply (rt_calls _ _ _ Hs)).
  destruct (mget (pending s1) x) as [p|] eqn:Ep.
  2: { apply mget_None_keys in Ep. apply elem_of_app in Hx as [? | Hx]; [done |]. split; [|done].
    destruct Hs as [Hids Hd Hp Hr He Ho Hc]. split; try done.
    - intros y q Hy. destruct (Hp y q Hy) as (? & ? & Hst). split_and!; [done | done |].
      destruct (status (run q)); try done. destruct Hst as [Hin ?]. split; [|done]. apply list_elem_of_filter. split; [|done].
      intros ->. apply Ep. apply list_elem_of_fmap. exists (x, q). split; [done |]. apply mget_In; [|done].
      assert (NoDup (ids s)) as Hnd by (rewrite Hids; apply NoDup_fmap_2_strong; [|apply NoDup_seqZ]; intros a b _ _; apply uuid_fresh).
      by apply NoDup_app in Hnd as [? _].
    - intros y Hy. apply Hc. by apply list_elem_of_filter in Hy as [_ ?]. }
  assert (forall st text, isTerminal st = true -> runtime_ok A Q (finish maxReceipts x st text s1) /\
    (x ∈ calls s -> x ∈ (resolved (finish maxReceipts x st text s1)).*1)) as Hfin.
  2: { destruct (aborted p); [by apply Hfin |]. destruct result as [[|] m | m]; by apply Hfin. }
  intros st text Hst. pose proof (finish_ok A Q x st text s Hst Hs) as Hf.
  assert (finish maxReceipts x st text s1 = (finish maxReceipts x st text s) <| calls := filter (fun y => y <> x) (calls s) |>) as E.
  { unfold finish. change (pending s1) with (pending s) in *. rewrite Ep. done. }
  split.
  - rewrite E. pose proof (finish_gone x st text s (pending_NoDup A Q s Hs)) as Hgone.
    assert (calls (finish maxReceipts x st text s) = calls s) as Ec by (unfold finish; by destruct (mget (pending s) x)).
    destruct Hf as [Hids Hd Hp Hr He Ho Hc]. rewrite Ec in Hc. split; try done.
    + intros y q Hy. change (mget (pending (finish maxReceipts x st text s)) y = Some q) in Hy.
      destruct (Hp y q Hy) as (? & ? & Hq). split_and!; [done | done |].
      destruct (status (run q)); try done. destruct Hq as [Hin ?]. split; [|done]. apply list_elem_of_filter. split; [congruence |]. by rewrite Ec in Hin.
    + intros y Hy. apply Hc. by apply list_elem_of_filter in Hy as [_ ?].
  - intros _. unfold finish. rewrite Ep. cbn. rewrite fmap_app. apply elem_of_app. right. by apply list_elem_of_singleton.
Qed.

Lemma execute_queue x s : queue (execute COMMANDS maxReceipts x s) = queue s.
Proof. unfold execute, finish, update. repeat case_match; done. Qed.

Lemma approve_ok A x s :
  runtime_ok A (queue s) s ->
  runtime_ok (fun y => A y \/ y = x /\ exists p, mget (pending s) x = Some p /\ status (run p) = AwaitingApproval)
    (queue (approve COMMANDS maxReceipts x s)) (approve COMMANDS maxReceipts x s).
Proof.
  intros Hs. unfold approve. destruct (mget (pending s) x) as [p|] eqn:Ep.
  2: { eapply runtime_ok_mono; [|exact Hs]. by left. }
  destruct (bool_decide (status (run p) = AwaitingApproval)) eqn:Est; cbn [negb].
  2: { eapply runtime_ok_mono; [|exact Hs]. by left. }
  apply bool_decide_eq_true in Est. set (A' := fun y => _). set (f := fun r => _).
  destruct (update_spec x f s p Ep) as (E1 & E2 & E3 & E4 & E5 & E6 & _). set (s1 := update x f s) in *.
  destruct (rt_pending _ _ _ Hs x p Ep) as (Hid & (command & Hc & Hadm) & Hst). rewrite Est in Hst.
  assert (queue (execute COMMANDS maxReceipts x s1) = queue s) as ->.
  { rewrite execute_queue. unfold s1, update. by rewrite Ep. }
  apply execute_ok. eapply (replace_ok A' (x :: queue s) x _ p s).
  - apply (runtime_ok_mono A); [by left |]. destruct Hs. split; try done.
    intros y q Hy. destruct (rt_pending0 y q Hy) as (? & ? & H). split_and!; [done | done |].
    destruct (status (run q)); try done. destruct H. split; [|done]. by apply elem_of_cons; right.
  - exact Ep.
  - exact E2.
  - exact E3.
  - exact E4.
  - by left.
  - split_and!; [done | |].
    + exists command. split; [done |]. intros Hsrc. destruct (Hadm Hsrc) as [? _]. split; [done |]. intros _ _.
      right. split; [exact Hid |]. by exists p.
    + cbn. rewrite E5. split; [by apply elem_of_cons; left | done].
Qed.

(** *** Traces *)

Definition approves s (e : runtime_event) x : Prop :=
  e = RApprove x /\ exists p, mget (pending s) x = Some p /\ status (run p) = AwaitingApproval.

Definition no_bypass (e : runtime_event) : Prop :=
  match e with RStart _ invocation => bypassApproval invocation = false | _ => True end.

Abbreviation rt_step := (runtime_step COMMANDS uuid maxReceipts).
Abbreviation rt_run := (runtime_run COMMANDS uuid maxReceipts).

Lemma finish_queue x st text s : queue (finish maxReceipts x st text s) = queue s.
Proof. unfold finish. by case_match. Qed.
Lemma abort_queue x s : queue (abort x s) = queue s.
Proof. unfold abort. by case_match. Qed.

Lemma settle_queue x result s : queue (settle COMMANDS maxReceipts x result s) = queue s.
Proof.
  unfold settle. destruct (negb _); [done |]. cbv zeta. destruct (mget _ _); [|done].
  destruct (aborted _); [by rewrite finish_queue |]. destruct result as [[|]|]; by rewrite finish_queue.
Qed.

Lemma destroy_queue s : queue (destroy maxReceipts s) = queue s.
Proof.
  unfold destroy. generalize ((pending s).*1). intros l.
  assert (queue (fold_left (fun s x => abort x s) l s) = queue s) as <-.
  { revert s. induction l as [|x l IH]; intros s; [done |]. cbn. by rewrite IH, abort_queue. }
  generalize (fold_left (fun s x => abort x s) l s). clear s. induction l as [|x l IH]; intros s; [done |].
  cbn. by rewrite IH, finish_queue.
Qed.

Lemma stepped_ok A s e :
  no_bypass e -> runtime_ok A (queue s) s ->
  runtime_ok (fun x => A x \/ approves s e x) (queue (rt_step s e)) (rt_step s e).
Proof.
  intros Hb Hs. assert (forall s', runtime_ok A (queue s') s' -> runtime_ok (fun x => A x \/ approves s e x) (queue s') s') as Hmono
    by (intros s' Hs'; eapply runtime_ok_mono; [|exact Hs']; by left).
  destruct e as [c inv | | x | x | x result | | env | t]; cbn [runtime_step].
  - apply Hmono. by apply started_ok.
  - apply Hmono. destruct (queue s) as [|x rest] eqn:Eq; [by rewrite Eq |]. rewrite execute_queue. apply execute_ok.
    destruct Hs. by split.
  - eapply runtime_ok_mono; [|apply approve_ok, Hs]. intros y [? | [-> Hy]]; [by left | right; by split].
  - apply Hmono. assert (queue (cancel maxReceipts x s) = queue s) as ->.
    { unfold cancel. case_match; [|done]. case_match; [done |]. by rewrite finish_queue, abort_queue. }
    by apply cancel_ok.
  - apply Hmono. rewrite settle_queue. by apply settle_ok.
  - apply Hmono. rewrite destroy_queue. by apply destroyed_ok.
  - apply Hmono. destruct Hs. by split.
  - apply Hmono. destruct Hs. by split.
Qed.

(** [x] has been approved in the run [es]: while it was waiting for it. *)
Definition approved s (es : list runtime_event) x : Prop :=
  exists es1 es2, es = es1 ++ RApprove x :: es2 /\ approves (rt_run s es1) (RApprove x) x.

Lemma run_snoc s es e : rt_run s (es ++ [e]) = rt_step (rt_run s es) e.
Proof. unfold runtime_run. by rewrite fold_left_app. Qed.

Lemma start_runtime_ok environment now : runtime_ok (fun _ => False) [] (start_runtime environment now).
Proof.
  split; try done; try constructor; intros ? H; by apply not_elem_of_nil in H.
Qed.

Lemma run_ok environment now es :
  Forall no_bypass es -> let s0 := start_runtime environment now in
  runtime_ok (approved s0 es) (queue (rt_run s0 es)) (rt_run s0 es).
Proof.
  cbv zeta. set (s0 := start_runtime environment now). induction es as [|e es IH] using rev_ind; intros Hb.
  - apply (runtime_ok_mono (fun _ => False)); [done | apply start_runtime_ok].
  - apply Forall_app in Hb as [Hb [He _]%Forall_cons]. specialize (IH Hb). rewrite run_snoc.
    eapply runtime_ok_mono; [|by apply stepped_ok]. intros x [(es1 & es2 & -> & H) | [-> H]].
    + exists es1, (es2 ++ [e]). by rewrite <- app_assoc.
    + exists es, []. by split.
Qed.

(** What a step makes the executor do. *)
Definition executes s (e : runtime_event) r : Prop :=
  executed (rt_step s e) = executed s ++ [r] /\
  exists command, getCommand COMMANDS (commandId r) = Some command /\
    enabled (commandInvocationAvailability command (environment s) (source r)) = true.

Lemma finish_executed x st text s : executed (finish maxReceipts x st text s) = executed s.
Proof. unfold finish. by case_match. Qed.
Lemma abort_executed x s : executed (abort x s) = executed s.
Proof. unfold abort. by case_match. Qed.

Lemma execute_executed x s :
  let s' := execute COMMANDS maxReceipts x s in
  executed s' = executed s \/ exists r command, executed s' = executed s ++ [r] /\
    getCommand COMMANDS (commandId r) = Some command /\
    enabled (commandInvocationAvailability command (environment s) (source r)) = true.
Proof.
  cbv zeta. unfold execute. destruct (mget (pending s) x) as [p|] eqn:Ep; [|by left].
  destruct (negb (bool_decide _)); [by left |]. destruct (getCommand COMMANDS (commandId (run p))) as [command|] eqn:Hc; [|by left].
  cbv zeta. destruct (enabled _) eqn:Een; cbn [negb]; [|left; apply finish_executed].
  set (f := fun r => _). destruct (update_spec x f s p Ep) as (-> & _ & _ & _ & E5 & _). right.
  exists (f (run p)), command. split; [|done]. cbn. by rewrite E5.
Qed.

Lemma step_executed s e :
  executed (rt_step s e) = executed s \/ exists r, executes s e r.
Proof.
  destruct e as [c inv | | x | x | x result | | env | t]; unfold executes; cbn [runtime_step].
  - left. unfold start. destruct (getCommand _ _); [|done]. unfold create. cbv zeta.
    set (r := new_run _ _ _ _). destruct (bool_decide (status r = Failed)); destruct (bool_decide (status r = Proposed));
      cbn [fst executed]; rewrite ?finish_executed; try done; cbn; by rewrite ?finish_executed.
  - destruct (queue s) as [|x rest]; [by left |].
    destruct (execute_executed x (s <| queue := rest |>)) as [H | (r & command & H1 & H2 & H3)]; [by left | right].
    exists r. split; [done |]. by exists command.
  - unfold approve. destruct (mget (pending s) x) as [p|] eqn:Ep; [|by left]. destruct (negb _); [by left |].
    set (f := fun r => _). destruct (update_spec x f s p Ep) as (_ & _ & _ & _ & E5 & _ & E7).
    destruct (execute_executed x (update x f s)) as [H | (r & command & H1 & H2 & H3)]; rewrite E5, ?E7 in *; [by left | right].
    exists r. split; [done |]. by exists command.
  - left. unfold cancel. case_match; [|done]. case_match; [done |]. by rewrite finish_executed, abort_executed.
  - left. unfold settle. destruct (negb _); [done |]. cbv zeta. destruct (mget _ _); [|done].
    destruct (aborted _); [by rewrite finish_executed |]. destruct result as [[|]|]; by rewrite finish_executed.
  - left. unfold destroy. generalize ((pending s).*1). intros l.
    assert (executed (fold_left (fun s x => abort x s) l s) = executed s) as <-.
    { revert s. induction l as [|x l IH]; intros s; [done |]. cbn. by rewrite IH, abort_executed. }
    generalize (fold_left (fun s x => abort x s) l s). clear s. induction l as [|x l IH]; intros s; [done |].
    cbn. by rewrite IH, finish_executed.
  - by left.
  - by left.
Qed.

Lemma executed_when s es r :
  executed s = [] -> r ∈ executed (rt_run s es) ->
  exists es1 e es2, es = es1 ++ e :: es2 /\ executes (rt_run s es1) e r.
Proof.
  intros H0. induction es as [|e es IH] using rev_ind; intros Hin; [cbn in Hin; rewrite H0 in Hin; by apply not_elem_of_nil in Hin |].
  rewrite run_snoc in Hin. destruct (step_executed (rt_run s es) e) as [E | (r' & He)].
  - rewrite E in Hin. destruct (IH Hin) as (es1 & e' & es2 & -> & H). exists es1, e', (es2 ++ [e]). by rewrite <- app_assoc.
  - pose proof He as [E _]. rewrite E in Hin. apply elem_of_app in Hin as [Hin | ->%list_elem_of_singleton].
    + destruct (IH Hin) as (es1 & e' & es2 & -> & H). exists es1, e', (es2 ++ [e]). by rewrite <- app_assoc.
    + exists es, e, []. by split.
Qed.
End Invariant.

(** *** What a schema allows *)

Inductive of_type : parameter_type -> jsval -> Prop :=
| of_string text : of_type TString (VStr text)
| of_number n : of_type TNumber (VNum n)
| of_boolean b : of_type TBoolean (VBool b).

(** The arguments fit a schema, which is closed: a declared argument has its type
    and, where there is an enumeration, one of its values; a required one is
    there (or a name every object inherits); and every argument is declared,
    unless one has the empty name (Example [empty_name_hides_unknown_arguments]). *)
Record schema_allows (schema : CommandParameterSchema) (input : arguments) : Prop := {
  allows_types key value property :
    (key, value) ∈ input -> mget (default [] (properties schema)) key = Some property ->
    of_type (p_type property) value /\ forall values, p_enum property = Some values -> value ∈ values;
  allows_required name :
    name ∈ default [] (required schema) -> name ∈ input.*1 \/ name ∈ OBJECT_PROTOTYPE;
  allows_closed key :
    [] ∉ input.*1 -> key ∈ input.*1 -> key ∈ (default [] (properties schema)).*1 }.

Definition arguments_fit (command : CommandDefinition) (input : arguments) : Prop :=
  match parameters command with None => input = [] | Some schema => schema_allows schema input end.

Lemma has_type_of t v : has_type t v = true -> of_type t v.
Proof. by destruct t, v; intros; try done; constructor. Qed.

Lemma same_primitive_eq v w : same_primitive v w = true -> v = w.
Proof.
  destruct v as [| | b | [a|a] | a | | |], w as [| | b' | [a'|a'] | a' | | |]; cbn; try done; intros H.
  - by apply eqb_prop in H as ->.
  - by apply Z.eqb_eq in H as ->.
  - by apply Z.eqb_eq in H as ->.
  - by apply str_eqb_eq in H as ->.
Qed.

Lemma argument_errors_none props input key value :
  argument_errors props input = None -> (key, value) ∈ input -> argument_error props key value = None.
Proof.
  induction input as [|[k v] rest IH]; cbn [argument_errors]; [by intros _ ?%elem_of_nil |].
  destruct (argument_error props k v) eqn:E; [done |]. intros H Hin.
  apply elem_of_cons in Hin as [[= -> ->] | Hin]; auto.
Qed.

Lemma find_none_all {A} (f : A -> bool) l x : List.find f l = None -> x ∈ l -> f x = false.
Proof. intros H Hin. apply list_elem_of_In in Hin. by apply (List.find_none _ _ H). Qed.

Lemma mhas_keys {V} (m : list (jstring * V)) k : mhas m k = true -> k ∈ m.*1.
Proof.
  unfold mhas. destruct (mget m k) eqn:E; [intros _ | done].
  destruct (decide (k ∈ m.*1)) as [|Hn]; [done |]. apply mget_None_keys in Hn. congruence.
Qed.

Lemma validateInput_fits command input : validateInput command input = None -> arguments_fit command input.
Proof.
  unfold validateInput, arguments_fit. destruct (parameters command) as [schema|].
  2:{ destruct (Z.eqb_spec (len input) 0) as [E | _]; [intros _; by apply len_zero_nil | done]. }
  cbv zeta. set (props := default [] (properties schema)).
  destruct (negb (str_eqb _ [])) eqn:Eu; [done |]. apply negb_false_iff, str_eqb_eq in Eu.
  destruct (List.find (fun name => negb (in_object input name)) _) as [|] eqn:Er; [done |]. intros Ha. split.
  - intros key value property Hin Hp. pose proof (argument_errors_none props input key value Ha Hin) as He.
    unfold argument_error in He. fold props in Hp. rewrite Hp in He.
    destruct (has_type (p_type property) value) eqn:Et; [|done]. split; [by apply has_type_of |].
    intros values Ev. cbn [negb] in He. rewrite Ev in He.
    destruct (existsb (same_primitive value) values) eqn:Ex; [|done].
    apply existsb_exists in Ex as (w & Hw & Hs). apply same_primitive_eq in Hs as ->. by apply list_elem_of_In.
  - intros name Hin. pose proof (find_none_all _ _ name Er Hin) as H. cbn beta in H.
    apply negb_false_iff, orb_true_iff in H as [H | H]; [left; by apply mhas_keys | right; by apply bool_decide_eq_true in H].
  - intros key Hempty Hin. fold props.
    apply list_elem_of_fmap in Hin as ([k value] & -> & Hin). cbn [fst].
    destruct (List.find (fun kv => negb (in_object props kv.1)) input) as [[k0 v0]|] eqn:Ef.
    + cbn in Eu. subst k0. destruct Hempty. apply List.find_some in Ef as [Hf _].
      apply list_elem_of_fmap. exists ([], v0). split; [done | by apply list_elem_of_In].
    + pose proof (find_none_all _ _ (k, value) Ef Hin) as H. cbn [fst] in H.
      apply negb_false_iff, orb_true_iff in H as [H | H]; [by apply mhas_keys |].
      pose proof (argument_errors_none props input k value Ha Hin) as He. unfold argument_error in He.
      destruct (mget props k) as [property|] eqn:Ep; [| by rewrite H in He].
      apply mhas_keys. unfold mhas. by rewrite Ep.
Qed.

(** C7. An agent cannot act on its own authority. Whatever is started, approved,
    cancelled or settled in whatever order and environment: every call of the
    executor was made by a step in whose environment the command admitted the
    run's source, and for a run that an agent or the bridge started its arguments
    fit the command's schema ([arguments_fit]: types, enumerations, required
    names and, unless an argument has the empty name, no undeclared one) and - if
    the command reaches outside the browser or destroys data - a human had
    approved that very run while it was waiting. *)
Theorem agent_commands_are_approved COMMANDS uuid maxReceipts environment0 now es r :
  (forall a b, uuid a = uuid b -> a = b) -> Forall no_bypass es ->
  let rt := runtime_run COMMANDS uuid maxReceipts (start_runtime environment0 now) in
  r ∈ executed (rt es) ->
  exists command es1 e es2, getCommand COMMANDS (commandId r) = Some command /\ es = es1 ++ e :: es2 /\
    executed (rt (es1 ++ [e])) = executed (rt es1) ++ [r] /\
    enabled (commandInvocationAvailability command (environment (rt es1)) (source r)) = true /\
    (sensitive_source (source r) = true ->
     arguments_fit command (input r) /\
     (high_risk command = true ->
      approved COMMANDS uuid maxReceipts (start_runtime environment0 now) (es1 ++ [e]) (run_id r))).
Proof.
  intros Hu Hb. cbv zeta. intros Hin. set (s0 := start_runtime environment0 now) in *.
  destruct (executed_when COMMANDS uuid maxReceipts s0 es r eq_refl Hin) as (es1 & e & es2 & -> & [E (command & Hc & Hen)]).
  assert (Forall no_bypass (es1 ++ [e])) as Hb1 by (rewrite cons_middle, app_assoc in Hb; by apply Forall_app in Hb as [? _]).
  pose proof (rt_executed _ _ _ _ _ (run_ok COMMANDS uuid maxReceipts Hu environment0 now (es1 ++ [e]) Hb1)) as Hex.
  fold s0 in Hex. rewrite run_snoc, E in Hex. apply Forall_app in Hex as [_ [[_ (command' & Hc' & Hadm)] _]%Forall_cons].
  rewrite Hc in Hc'. injection Hc' as <-.
  exists command, es1, e, es2. rewrite run_snoc. split_and!; try done.
  intros Hs. destruct (Hadm Hs) as [Hv Ha]. split; [by apply validateInput_fits |]. intros Hr. by apply Ha.
Qed.

(** C26. Every command run is executed at most once and reported exactly once.
    In every reachable state the ids drawn are those of the pending and of the
    resolved runs, each once; a resolved run has a terminal status; a pending one
    waits for its approval, its microtask or a call of the executor that has not
    settled; and when a call settles its run is resolved. *)
Theorem every_run_is_reported COMMANDS uuid maxReceipts environment0 now es :
  (forall a b, uuid a = uuid b -> a = b) -> Forall no_bypass es ->
  let s := runtime_run COMMANDS uuid maxReceipts (start_runtime environment0 now) es in
  (pending s).*1 ++ (resolved s).*1 ≡ₚ map uuid (seqZ 0 (drawn s)) /\
  NoDup (ids s) /\ NoDup (map run_id (executed s)) /\
  Forall (fun xr => run_id xr.2 = xr.1 /\ isTerminal (status xr.2) = true) (resolved s) /\
  (forall x p, mget (pending s) x = Some p ->
     status (run p) = AwaitingApproval \/ status (run p) = Proposed /\ x ∈ queue s \/
     status (run p) = Running /\ x ∈ calls s) /\
  (forall x result, x ∈ calls s -> x ∈ (resolved (settle COMMANDS maxReceipts x result s)).*1).
Proof.
  intros Hu Hb. cbv zeta. pose proof (run_ok COMMANDS uuid maxReceipts Hu environment0 now es Hb) as Hs. cbv zeta in Hs.
  set (s := runtime_run COMMANDS uuid maxReceipts (start_runtime environment0 now) es) in *.
  pose proof (ids_NoDup COMMANDS uuid Hu _ _ _ Hs) as Hnd.
  pose proof (fun x result => proj2 (settle_ok COMMANDS uuid maxReceipts Hu _ _ x result s Hs)) as Hsettle.
  destruct Hs as [Hids _ Hp Hr _ Ho _]. split_and!; try done.
  intros x p Hx. destruct (Hp x p Hx) as (_ & _ & Hst). destruct (status (run p)); try done; [right; left | left | right; right]; tauto.
Qed.

(** ** A run *)

Definition demo_command : CommandDefinition := {|
  id := lit "document.delete"; label := lit "Delete document"; surfaces := [RibbonSurface; AgentSurface];
  invocationSources := [Human; Agent; Bridge]; modes := None; contexts := None; roles := Some [Owner];
  workspaceKinds := None; capability := None; requiresDocument := true; requiresSelection := false;
  hiddenWhenUnavailable := false; risk := DestructiveRisk;
  parameters := Some {| properties := Some [(lit "name", {| p_type := TString; p_enum := None |})];
                        required := Some [lit "name"] |} |}.
Definition demo_environment : CommandEnvironment := {|
  hasDocument := true; hydrated := true;
  capabilities := Some {| role := Some Owner; edit := true; comment := true; saveVersion := true; manageShares := true |};
  workspaceKind := SessionKind; mode := SplitMode; activePane_preview := false; shell := DesktopShell;
  context := TextContext; selectionLength := 0; voiceSupported := false |}.
Definition by_agent (input : arguments) : RuntimeInvocation :=
  {| i_source := Agent; i_input := Some input; bypassApproval := false |}.
Definition demo_uuid (n : Z) : jstring := [n].

(** An agent's deletion is approved and succeeds; another is cancelled while it
    waits; a third has no argument. *)
Definition demo_runs : list runtime_event :=
  [RStart (lit "document.delete") (by_agent [(lit "name", VStr (lit "draft"))]); RMicrotask;
   RStart (lit "document.delete") (by_agent [(lit "name", VStr (lit "notes"))]);
   RStart (lit "document.delete") (by_agent []);
   RApprove [0]; RCancel [1]; RSettle [0] (Settled true None)].

Lemma demo_uuid_fresh a b : demo_uuid a = demo_uuid b -> a = b.
Proof. by intros [= ->]. Qed.

Lemma agent_commands_are_approved_witness :
  exists r, executed (runtime_run [demo_command] demo_uuid 40 (start_runtime demo_environment 0) demo_runs) = [r] /\
    exists es1 e es2, demo_runs = es1 ++ e :: es2 /\
      approved [demo_command] demo_uuid 40 (start_runtime demo_environment 0) (es1 ++ [e]) (run_id r).
Proof.
  eexists. split; [vm_compute; reflexivity |].
  match goal with |- context [run_id ?r] => pose proof (agent_commands_are_approved [demo_command] demo_uuid 40 demo_environment 0 demo_runs r demo_uuid_fresh) as T end.
  cbv zeta in T. destruct T as (command & es1 & e & es2 & Hc & E & _ & _ & Hs).
  - repeat constructor.
  - vm_compute. by apply list_elem_of_singleton.
  - exists es1, e, es2. split; [exact E |]. apply Hs; [reflexivity |]. vm_compute in Hc. injection Hc as <-. reflexivity.
Defined.

Lemma every_run_is_reported_witness :
  let s := runtime_run [demo_command] demo_uuid 40 (start_runtime demo_environment 0) demo_runs in
  pending s = [] /\ map (fun xr => (xr.1, status xr.2)) (resolved s) = [([2], Failed); ([1], Cancelled); ([0], Succeeded)] /\
  NoDup (ids s).
Proof.
  cbv zeta. split_and!; [vm_compute; reflexivity | vm_compute; reflexivity |].
  destruct (every_run_is_reported [demo_command] demo_uuid 40 demo_environment 0 demo_runs demo_uuid_fresh) as (_ & H & _);
    [repeat constructor | exact H].
Defined.

(** An argument with the empty name hides the unknown ones after it: [find]
    returns the empty string, which is falsy. *)
Example empty_name_hides_unknown_arguments :
  validateInput demo_command [(lit "name", VStr []); ([], VNull); (lit "force", VBool true)] = None /\
  validateInput demo_command [(lit "name", VStr []); (lit "force", VBool true)] = Some (lit "Unknown command argument: force").
Proof. by vm_compute. Qed.

(** ** Presentation and admission *)

(** Which invocations the buttons of a surface make. *)
Definition same_gate (surface : CommandSurface) (source : CommandSource) : bool :=
  match surface, source with
  | (RibbonSurface | PhoneSurface | FoldableSurface), Human | PaletteSurface, (Palette | Keyboard)
  | AgentSurface, (Agent | Bridge) => true
  | _, _ => false
  end.

(** On these surfaces a command is shown enabled exactly when it is admitted. *)
Lemma shown_enabled_admitted command environment surface source :
  same_gate surface source = true -> surface ∈ surfaces command -> source ∈ invocationSources command ->
  let shown := commandAvailability command environment surface in
  let admitted := commandInvocationAvailability command environment source in
  enabled shown = enabled admitted /\ reason shown = reason admitted.
Proof.
  intros Hg Hs Hi. unfold commandAvailability, commandInvocationAvailability.
  rewrite (bool_decide_true _ Hs), (bool_decide_true _ Hi). cbn [negb].
  assert (presentationCommandMode environment surface = invocationCommandMode environment source) as ->
    by (destruct surface, source; done).
  assert (presentationContext environment surface = invocationContext environment source) as ->
    by (destruct surface, source; done).
  by split.
Qed.

(** Not so for the quick-access bar, whose buttons are invoked as [human] too:
    in split view with the preview active an editing command is shown enabled
    there and refused when pressed. *)
Definition quick_command : CommandDefinition := {|
  id := lit "format.bold"; label := lit "Bold"; surfaces := [RibbonSurface; QuickAccess];
  invocationSources := [Human]; modes := Some [EditMode; SplitMode]; contexts := None; roles := None;
  workspaceKinds := None; capability := Some CanEdit; requiresDocument := true; requiresSelection := false;
  hiddenWhenUnavailable := false; risk := WriteRisk; parameters := None |}.
Definition preview_active : CommandEnvironment := {|
  hasDocument := true; hydrated := true; capabilities := capabilities demo_environment;
  workspaceKind := SessionKind; mode := SplitMode; activePane_preview := true; shell := DesktopShell;
  context := TextContext; selectionLength := 0; voiceSupported := false |}.

Example quick_access_shows_refused_command :
  commandAvailability quick_command preview_active QuickAccess = {| visible := true; enabled := true; reason := None |} /\
  commandInvocationAvailability quick_command preview_active Human =
    {| visible := true; enabled := false; reason := Some (lit "Switch to Editor or Split to change Markdown.") |}.
Proof. by vm_compute. Qed.
