(* ===== verification/JsonText.v ===== *)
(** [JSON.parse] of the language: the grammar of JSON over UTF-16 code units, to
    the dynamic values of [JsValue]. A number is read exactly where the sources
    look at it, as a safe integer; any other double is an opaque token. *)

From S2P Require Import Prelude TextChange.
From S2P Require Import JsValue.

(** ** Numbers *)

(** The value of a run of decimal digits. *)
Definition decimal (ds : list Z) : Z := fold_left (fun n d => n * 10 + (d - 48)) ds 0.

Definition is_digit (u : Z) : bool := (48 <=? u) && (u <=? 57).

Fixpoint digits (s : jstring) : list Z * jstring :=
  match s with
  | u :: r => if is_digit u then let '(ds, t) := digits r in (u :: ds, t) else ([], s)
  | [] => ([], [])
  end.

(** [floor (log2 (m / d))] of a positive rational. *)
Definition floor_log2 (m d : Z) : Z :=
  let l := Z.log2 m - Z.log2 d in
  if (if l <? 0 then d <=? m * 2 ^ (- l) else d * 2 ^ l <=? m) then l else l - 1.

(** The nearest multiple of [1 / 2 ^ k] to [m / d], ties to even, as its
    numerator. *)
Definition round_half_even (m d k : Z) : Z :=
  let n := m * 2 ^ k in
  let q := n / d in
  let r := 2 * (n mod d) in
  if r <? d then q else if d <? r then q + 1 else if Z.even q then q else q + 1.

(** The double of [m * 10 ^ e], [0 <= m]. *)
Definition double_of (negative : bool) (m e : Z) : jsnum :=
  let sign := if negative then -1 else 1 in
  if m =? 0 then NInt 0
  else if 0 <=? e then
    let z := m * 10 ^ e in
    if z <? 9007199254740992 then NInt (sign * z) else NOther (sign * 2048 * z)
  else
    let d := 10 ^ (- e) in
    if 9007199254740992 * d <=? m then NOther (sign * 2048 * m)
    else
      let k := Z.min 1074 (52 - floor_log2 m d) in
      let q := round_half_even m d k in
      if (q mod 2 ^ k =? 0) && (q / 2 ^ k <? 9007199254740992)
      then NInt (sign * (q / 2 ^ k)) else NOther (sign * (2048 * q + k)).

(** The input after one given unit. *)
Definition eat (c : Z) (s : jstring) : option jstring :=
  match s with u :: r => if u =? c then Some r else None | [] => None end.

(** [. digits], if there. *)
Definition fraction (s : jstring) : option (list Z * jstring) :=
  match eat 46 s with
  | Some r => match digits r with ([], _) => None | (ds, t) => Some (ds, t) end
  | None => Some ([], s)
  end.

(** [e +- digits], if there. *)
Definition exponent (s : jstring) : option (Z * jstring) :=
  match (match eat 101 s with Some r => Some r | None => eat 69 s end) with
  | Some r =>
      let '(sign, r') := match eat 45 r with
        | Some r' => (-1, r')
        | None => (1, default r (eat 43 r)) end in
      match digits r' with
      | ([], _) => None
      | (ds, t) => Some (sign * decimal ds, t)
      end
  | None => Some (0, s)
  end.

Definition parse_number (s : jstring) : option (jsval * jstring) :=
  let '(negative, r) := match eat 45 s with Some r => (true, r) | None => (false, s) end in
  let '(int, t) := match eat 48 r with Some t => ([48], t) | None => digits r end in
  match int with
  | [] => None
  | _ =>
      '(frac, u) ← fraction t;
      '(e, w) ← exponent u;
      Some (VNum (double_of negative (decimal (int ++ frac)) (e - len frac)), w)
  end.

(** ** Strings *)

Definition hex (u : Z) : option Z :=
  if (48 <=? u) && (u <=? 57) then Some (u - 48)
  else if (97 <=? u) && (u <=? 102) then Some (u - 87)
  else if (65 <=? u) && (u <=? 70) then Some (u - 55) else None.

Definition escaped (u : Z) : option Z :=
  if (u =? 34) || (u =? 92) || (u =? 47) then Some u
  else if u =? 98 then Some 8 else if u =? 102 then Some 12
  else if u =? 110 then Some 10 else if u =? 114 then Some 13
  else if u =? 116 then Some 9 else None.

(** The rest of a string after its opening quote. *)
Fixpoint parse_string (s : jstring) : option (jstring * jstring) :=
  match s with
  | [] => None
  | u :: r =>
      if u =? 34 then Some ([], r)
      else if u <? 32 then None
      else if u =? 92 then
        match r with
        | v :: r' =>
            if v =? 117 then
              match r' with
              | a :: b :: c :: d :: r'' =>
                  a ← hex a; b ← hex b; c ← hex c; d ← hex d;
                  '(t, w) ← parse_string r'';
                  Some (a * 4096 + b * 256 + c * 16 + d :: t, w)
              | _ => None
              end
            else x ← escaped v; '(t, w) ← parse_string r'; Some (x :: t, w)
        | [] => None
        end
      else '(t, w) ← parse_string r; Some (u :: t, w)
  end.

(** ** Values *)

Fixpoint skip_ws (s : jstring) : jstring :=
  match s with
  | u :: r => if (u =? 32) || (u =? 9) || (u =? 10) || (u =? 13) then skip_ws r else s
  | [] => []
  end.

(** The input after a literal it starts with. *)
Fixpoint after_literal (k s : jstring) : option jstring :=
  match k, s with
  | [], _ => Some s
  | a :: k, u :: r => if a =? u then after_literal k r else None
  | _, [] => None
  end.

(** A value, the elements of an array after the first comma or bracket, and the
    members of an object. Every call consumes a unit first. *)
Fixpoint parse_value (fuel : nat) (s : jstring) : option (jsval * jstring) :=
  match fuel with
  | O => None
  | S fuel =>
      match skip_ws s with
      | [] => None
      | u :: r =>
          if u =? 91 then
            match eat 93 (skip_ws r) with
            | Some t => Some (VArr [], t)
            | None => '(l, t) ← parse_elements fuel r; Some (VArr l, t)
            end
          else if u =? 123 then
            match eat 125 (skip_ws r) with
            | Some t => Some (VObj [], t)
            | None => '(l, t) ← parse_members fuel [] r; Some (VObj l, t)
            end
          else if u =? 34 then '(x, t) ← parse_string r; Some (VStr x, t)
          else
            match after_literal (lit "true") (u :: r), after_literal (lit "false") (u :: r),
                  after_literal (lit "null") (u :: r) with
            | Some t, _, _ => Some (VBool true, t)
            | _, Some t, _ => Some (VBool false, t)
            | _, _, Some t => Some (VNull, t)
            | _, _, _ => parse_number (u :: r)
            end
      end
  end
with parse_elements (fuel : nat) (s : jstring) : option (list jsval * jstring) :=
  match fuel with
  | O => None
  | S fuel =>
      '(v, t) ← parse_value fuel s;
      match eat 44 (skip_ws t) with
      | Some r => '(l, w) ← parse_elements fuel r; Some (v :: l, w)
      | None => r ← eat 93 (skip_ws t); Some ([v], r)
      end
  end
with parse_members (fuel : nat) (acc : list (jstring * jsval)) (s : jstring) :
    option (list (jstring * jsval) * jstring) :=
  match fuel with
  | O => None
  | S fuel =>
      r ← eat 34 (skip_ws s);
      '(k, t) ← parse_string r;
      t ← eat 58 (skip_ws t);
      '(v, t) ← parse_value fuel t;
      (* a repeated member overwrites the earlier one in place *)
      let acc := mset acc k v in
      match eat 44 (skip_ws t) with
      | Some r => parse_members fuel acc r
      | None => r ← eat 125 (skip_ws t); Some (acc, r)
      end
  end.

(** [JSON.parse(text)]; [None] is the [SyntaxError]. Two calls at most are made
    for each unit of the text. *)
Definition JSON_parse (text : jstring) : option jsval :=
  match parse_value (2 * length text + 2) text with
  | Some (v, rest) => match skip_ws rest with [] => Some v | _ => None end
  | None => None
  end.

(** ** The bound on calls is never reached *)

Lemma digits_length s : (length (digits s).1 + length (digits s).2 = length s)%nat.
Proof.
  induction s as [|u r IH]; [done |]. cbn [digits]. destruct (is_digit u); [|done].
  destruct (digits r). cbn in *. lia.
Qed.

Lemma skip_ws_length s : (length (skip_ws s) <= length s)%nat.
Proof. induction s as [|u r IH]; cbn [skip_ws length]; [done |]. destruct (_ || _); cbn [length]; lia. Qed.

Lemma after_literal_length k s t : after_literal k s = Some t -> (length s = length k + length t)%nat.
Proof.
  revert s. induction k as [|a k IH]; intros s; cbn; [by intros [= ->] |].
  destruct s as [|u r]; [done |]. destruct (a =? u); [|done]. intros H%IH. cbn. lia.
Qed.

Lemma eat_length c s t : eat c s = Some t -> (length s = S (length t))%nat.
Proof. destruct s as [|u r]; cbn; [done |]. destruct (u =? c); [|done]. by intros [= ->]. Qed.

Lemma some_digits {A} (f : list Z -> A) s x t :
  match digits s with ([], _) => None | (ds, t) => Some (f ds, t) end = Some (x, t) ->
  (length t <= length s)%nat.
Proof.
  pose proof (digits_length s) as D. destruct (digits s) as [[|d ds] u]; [done |].
  cbn in *. intros [= _ <-]. lia.
Qed.

Lemma fraction_length s f t : fraction s = Some (f, t) -> (length t <= length s)%nat.
Proof.
  unfold fraction. destruct (eat 46 s) as [r|] eqn:E; [|by intros [= _ <-]].
  apply eat_length in E. intros H%(some_digits (fun x => x)). lia.
Qed.

Lemma exponent_length s e t : exponent s = Some (e, t) -> (length t <= length s)%nat.
Proof.
  unfold exponent.
  assert (forall c r, eat c s = Some r ->
    (let '(sign, r') := match eat 45 r with Some r' => (-1, r') | None => (1, default r (eat 43 r)) end in
     match digits r' with ([], _) => None | (ds, t) => Some (sign * decimal ds, t) end) = Some (e, t) ->
    (length t <= length s)%nat) as H.
  { intros c r E%eat_length. destruct (eat 45 r) as [r'|] eqn:E'.
    - apply eat_length in E'. intros H%(some_digits (Z.mul (-1) ∘ decimal)). lia.
    - destruct (eat 43 r) as [r'|] eqn:E2; cbn [default].
      + apply eat_length in E2. intros H%(some_digits (Z.mul 1 ∘ decimal)). cbn in H. lia.
      + intros H%(some_digits (Z.mul 1 ∘ decimal)). cbn in H. lia. }
  destruct (eat 101 s) as [r|] eqn:E1; [by apply (H 101) |].
  destruct (eat 69 s) as [r|] eqn:E2; [by apply (H 69) |]. by intros [= _ <-].
Qed.

Lemma parse_number_length s v t : parse_number s = Some (v, t) -> (length t < length s)%nat.
Proof.
  unfold parse_number.
  assert (exists neg r, match eat 45 s with Some r => (true, r) | None => (false, s) end = (neg, r) /\
    (length r <= length s)%nat) as (neg & r & -> & Hr).
  { destruct (eat 45 s) eqn:E; [apply eat_length in E |]; eexists _, _; (split; [reflexivity |]); lia. }
  assert (exists int w, match eat 48 r with Some t => ([48], t) | None => digits r end = (int, w) /\
    (length int + length w = length r)%nat) as (int & w & -> & Hw).
  { destruct (eat 48 r) eqn:E.
    - apply eat_length in E. eexists _, _. split; [reflexivity |]. cbn. lia.
    - pose proof (digits_length r). destruct (digits r) as [ds w]. by exists ds, w. }
  destruct int as [|i int]; [done |]. destruct (fraction w) as [[f u]|] eqn:Ef; [cbn [mbind option_bind] | done].
  destruct (exponent u) as [[e x]|] eqn:Ee; [cbn [mbind option_bind] | done]. intros [= _ <-].
  apply fraction_length in Ef. apply exponent_length in Ee. cbn [length] in Hw. lia.
Qed.

Lemma parse_string_length s x t : parse_string s = Some (x, t) -> (length t < length s)%nat.
Proof.
  revert s x t. fix IH 1. intros s x t. destruct s as [|u r]; [done |]. cbn [parse_string].
  destruct (u =? 34); [intros [= _ <-]; cbn; lia |]. destruct (u <? 32); [done |].
  destruct (u =? 92).
  - destruct r as [|v r']; [done |]. destruct (v =? 117).
    + destruct r' as [|a [|b [|c [|d r'']]]]; try done.
      destruct (hex a), (hex b), (hex c), (hex d); cbn [mbind option_bind]; try done.
      destruct (parse_string r'') as [[y w]|] eqn:E; [cbn [mbind option_bind] | done].
      intros [= _ <-]. apply IH in E. cbn. lia.
    + destruct (escaped v); [cbn [mbind option_bind] | done].
      destruct (parse_string r') as [[y w]|] eqn:E; [cbn [mbind option_bind] | done].
      intros [= _ <-]. apply IH in E. cbn. lia.
  - destruct (parse_string r) as [[y w]|] eqn:E; [cbn [mbind option_bind] | done].
    intros [= _ <-]. apply IH in E. cbn. lia.
Qed.

(** What is left after a value, the rest of an array and the rest of an object. *)
Lemma parse_shorter n :
  (forall s v t, parse_value n s = Some (v, t) -> (length t < length s)%nat) /\
  (forall s l t, parse_elements n s = Some (l, t) -> (length t < length s)%nat) /\
  (forall acc s l t, parse_members n acc s = Some (l, t) -> (length t < length s)%nat).
Proof.
  induction n as [|n (IHv & IHe & IHm)]; [done |]. split_and!.
  - intros s v t. cbn [parse_value]. pose proof (skip_ws_length s) as Hs.
    destruct (skip_ws s) as [|u r]; [done |]. cbn [length] in Hs. pose proof (skip_ws_length r) as Hr.
    destruct (u =? 91); [|destruct (u =? 123); [|destruct (u =? 34)]].
    + destruct (eat 93 (skip_ws r)) as [w|] eqn:E; [intros [= _ <-]; apply eat_length in E; lia |].
      destruct (parse_elements n r) as [[l w]|] eqn:E'; [cbn [mbind option_bind] | done].
      intros [= _ <-]. apply IHe in E'. lia.
    + destruct (eat 125 (skip_ws r)) as [w|] eqn:E; [intros [= _ <-]; apply eat_length in E; lia |].
      destruct (parse_members n [] r) as [[l w]|] eqn:E'; [cbn [mbind option_bind] | done].
      intros [= _ <-]. apply IHm in E'. lia.
    + destruct (parse_string r) as [[x w]|] eqn:E; [cbn [mbind option_bind] | done].
      intros [= _ <-]. apply parse_string_length in E. lia.
    + destruct (after_literal (lit "true") (u :: r)) eqn:E1;
        [intros [= _ <-]; apply after_literal_length in E1; cbn in E1; lia |].
      destruct (after_literal (lit "false") (u :: r)) eqn:E2;
        [intros [= _ <-]; apply after_literal_length in E2; cbn in E2; lia |].
      destruct (after_literal (lit "null") (u :: r)) eqn:E3;
        [intros [= _ <-]; apply after_literal_length in E3; cbn in E3; lia |].
      intros E%parse_number_length. cbn [length] in E. lia.
  - intros s l t. cbn [parse_elements].
    destruct (parse_value n s) as [[v w]|] eqn:E; [cbn [mbind option_bind] | done]. apply IHv in E.
    pose proof (skip_ws_length w). destruct (eat 44 (skip_ws w)) as [r|] eqn:E1.
    all: try apply eat_length in E1.
    + destruct (parse_elements n r) as [[l' x]|] eqn:E2; [cbn [mbind option_bind] | done].
      intros [= _ <-]. apply IHe in E2. lia.
    + destruct (eat 93 (skip_ws w)) as [r|] eqn:E2; [cbn [mbind option_bind] | done].
      apply eat_length in E2. intros [= _ <-]. lia.
  - intros acc s l t. cbn [parse_members]. pose proof (skip_ws_length s).
    destruct (eat 34 (skip_ws s)) as [r|] eqn:E; [cbn [mbind option_bind] | done]. apply eat_length in E.
    destruct (parse_string r) as [[k w]|] eqn:E1; [cbn [mbind option_bind] | done]. apply parse_string_length in E1.
    pose proof (skip_ws_length w). destruct (eat 58 (skip_ws w)) as [x|] eqn:E2; [cbn [mbind option_bind] | done].
    apply eat_length in E2. destruct (parse_value n x) as [[v y]|] eqn:E3; [cbn [mbind option_bind] | done].
    apply IHv in E3. pose proof (skip_ws_length y).
    destruct (eat 44 (skip_ws y)) as [z|] eqn:E4.
    + apply eat_length in E4. intros E5%IHm. lia.
    + destruct (eat 125 (skip_ws y)) as [z|] eqn:E5; [cbn [mbind option_bind] | done].
      apply eat_length in E5. intros [= _ <-]. lia.
Qed.

(** Past the bound, a larger number of calls gives the same answer. *)
Lemma parse_fuel n :
  (forall m s, (2 * length s < n)%nat -> (2 * length s < m)%nat -> parse_value n s = parse_value m s) /\
  (forall m s, (2 * length s + 1 < n)%nat -> (2 * length s + 1 < m)%nat -> parse_elements n s = parse_elements m s) /\
  (forall m acc s, (2 * length s < n)%nat -> (2 * length s < m)%nat -> parse_members n acc s = parse_members m acc s).
Proof.
  induction n as [|n (IHv & IHe & IHm)]; [split_and!; intros; lia |].
  pose proof (parse_shorter n) as (Lv & Le & Lm). split_and!.
  - intros [|m] s Hn Hm; [lia |]. cbn [parse_value]. pose proof (skip_ws_length s) as Hs.
    destruct (skip_ws s) as [|u r]; [done |]. cbn [length] in Hs.
    rewrite (IHe m r), (IHm m [] r) by lia. done.
  - intros [|m] s Hn Hm; [lia |]. cbn [parse_elements]. rewrite <- (IHv m s) by lia.
    destruct (parse_value n s) as [[v w]|] eqn:E; [cbn [mbind option_bind] | done]. apply Lv in E.
    pose proof (skip_ws_length w). destruct (eat 44 (skip_ws w)) as [r|] eqn:E1; [|done].
    apply eat_length in E1. by rewrite (IHe m r) by lia.
  - intros [|m] acc s Hn Hm; [lia |]. cbn [parse_members]. pose proof (skip_ws_length s).
    destruct (eat 34 (skip_ws s)) as [r|] eqn:E; [cbn [mbind option_bind] | done]. apply eat_length in E.
    destruct (parse_string r) as [[k w]|] eqn:E1; [cbn [mbind option_bind] | done]. apply parse_string_length in E1.
    pose proof (skip_ws_length w). destruct (eat 58 (skip_ws w)) as [x|] eqn:E2; [cbn [mbind option_bind] | done].
    apply eat_length in E2. rewrite <- (IHv m x) by lia.
    destruct (parse_value n x) as [[v y]|] eqn:E3; [cbn [mbind option_bind] | done].
    apply Lv in E3. pose proof (skip_ws_length y). destruct (eat 44 (skip_ws y)) as [z|] eqn:E4; [|done].
    apply eat_length in E4. apply IHm; lia.
Qed.

Definition q (s : string) : jstring := map (fun u => if u =? 39 then 34 else u) (lit s).

Example json_object :
  JSON_parse (q "{'a':[1,-2.50e1,1.5],'b':'x\u0041\n','a ':{'c':null,'c':true}} ") =
    Some (VObj [(lit "a", VArr [VNum (NInt 1); VNum (NInt (-25)); VNum (NOther (2048 * (3 * 2 ^ 51) + 52))]);
                (lit "b", VStr [120; 65; 10]);
                (lit "a ", VObj [(lit "c", VBool true)])]).
Proof. vm_compute. reflexivity. Qed.

Example json_refuses :
  map JSON_parse [q "{'a':1,}"; q "[1 2]"; q "01"; q "'a"; q ""; q "1."; q "{} {}"; q "-"] = replicate 8 None.
Proof. vm_compute. reflexivity. Qed.

Example json_integers :
  map JSON_parse [q "9007199254740991"; q "9007199254740992"; q "1.0"; q "1e3"; q "0.99999999999999999999"; q "-0"; q "1e-400"] =
    [Some (VNum (NInt 9007199254740991)); Some (VNum (NOther (2048 * 9007199254740992)));
     Some (VNum (NInt 1)); Some (VNum (NInt 1000)); Some (VNum (NInt 1)); Some (VNum (NInt 0)); Some (VNum (NInt 0))].
Proof. vm_compute. reflexivity. Qed.
