(* ===== verification/JsonPrint.v ===== *)
(** [JSON.stringify] of the language on the dynamic values of [JsValue], and that
    [JSON.parse] of [JsonText] reads its text back. *)

From S2P Require Import Prelude TextChange.
From S2P Require Import Bytes.
From S2P Require Import JsValue.
From S2P Require Import JsonText.

(** ** Printing *)

Definition high_surrogate (u : Z) : bool := (55296 <=? u) && (u <=? 56319).
Definition low_surrogate (u : Z) : bool := (56320 <=? u) && (u <=? 57343).

Definition unicode_escape (u : Z) : jstring :=
  [92; 117; hex_digit (u / 4096); hex_digit (u / 256 mod 16); hex_digit (u / 16 mod 16); hex_digit (u mod 16)].

(** One unit that is not half of a pair. *)
Definition quote_unit (u : Z) : jstring :=
  if (u =? 34) || (u =? 92) then [92; u]
  else if u =? 8 then lit "\b" else if u =? 12 then lit "\f" else if u =? 10 then lit "\n"
  else if u =? 13 then lit "\r" else if u =? 9 then lit "\t"
  else if (u <? 32) || high_surrogate u || low_surrogate u then unicode_escape u
  else [u].

Fixpoint quote_units (s : jstring) : jstring :=
  match s with
  | [] => []
  | u :: r =>
      match r with
      | v :: r' => if high_surrogate u && low_surrogate v then u :: v :: quote_units r'
                   else quote_unit u ++ quote_units r
      | [] => quote_unit u
      end
  end.
Definition quote (s : jstring) : jstring := 34 :: quote_units s ++ [34].

Definition integer_text (z : Z) : jstring :=
  if z <? 0 then 45 :: Bytes.decimal (- z) else Bytes.decimal z.

Section Print.
(** The text of a number that is no safe integer. *)
Context (double_text : Z -> jstring).

(** [None]: [undefined]. *)
Fixpoint JSON_stringify (v : jsval) : option jstring :=
  match v with
  | VUndef => None
  | VNull => Some (lit "null")
  | VBool b => Some (if b then lit "true" else lit "false")
  | VNum (NInt z) => Some (integer_text z)
  | VNum (NOther k) => Some (double_text k)
  | VStr s => Some (quote s)
  | VBytes b => Some ([123] ++ join [44] (imap (fun i x => quote (Bytes.decimal (Z.of_nat i)) ++ 58 :: integer_text x) b) ++ [125])
  | VArr l => Some ([91] ++ join [44] (map (fun x => default (lit "null") (JSON_stringify x)) l) ++ [93])
  | VObj fs =>
      Some ([123] ++ join [44] (omap (fun f => (fun t => quote f.1 ++ 58 :: t) <$> JSON_stringify f.2) fs) ++ [125])
  end.
End Print.

(** What a text keeps of a value: members without a value are left out, and an
    element without one is [null]. *)
Definition undefined (v : jsval) : bool := match v with VUndef => true | _ => false end.
Fixpoint settled (v : jsval) : jsval :=
  match v with
  | VArr l => VArr (map (fun x => if undefined x then VNull else settled x) l)
  | VObj fs => VObj (omap (fun f => if undefined f.2 then None else Some (f.1, settled f.2)) fs)
  | v => v
  end.

(** Values the text of which is exact. *)
Fixpoint plain (v : jsval) : Prop :=
  match v with
  | VUndef | VNull | VBool _ => True
  | VNum (NInt z) => isSafeInteger z = true
  | VNum (NOther _) | VBytes _ => False
  | VStr s => Forall is_unit s
  | VArr l => (fix all l := match l with [] => True | x :: l => plain x /\ all l end) l
  | VObj fs => NoDup (map fst fs) /\
      (fix all fs := match fs with [] => True | f :: fs => Forall is_unit f.1 /\ plain f.2 /\ all fs end) fs
  end.

(** ** Strings *)

Lemma hex_hex_digit d : 0 <= d < 16 -> hex (hex_digit d) = Some d.
Proof. intros. unfold hex, hex_digit. zcases; try lia; f_equal; lia. Qed.

Lemma parse_quote_unit u s t w :
  is_unit u -> parse_string s = Some (t, w) -> parse_string (quote_unit u ++ s) = Some (u :: t, w).
Proof.
  intros Hu Hs. unfold is_unit in Hu. unfold quote_unit.
  destruct ((u =? 34) || (u =? 92)) eqn:E1.
  { apply orb_true_iff in E1 as [->%Z.eqb_eq | ->%Z.eqb_eq]; cbn; by rewrite Hs. }
  apply orb_false_iff in E1 as [H34%Z.eqb_neq H92%Z.eqb_neq].
  destruct (Z.eqb_spec u 8) as [->|]; [cbn; by rewrite Hs |].
  destruct (Z.eqb_spec u 12) as [->|]; [cbn; by rewrite Hs |].
  destruct (Z.eqb_spec u 10) as [->|]; [cbn; by rewrite Hs |].
  destruct (Z.eqb_spec u 13) as [->|]; [cbn; by rewrite Hs |].
  destruct (Z.eqb_spec u 9) as [->|]; [cbn; by rewrite Hs |].
  destruct ((u <? 32) || high_surrogate u || low_surrogate u) eqn:E2.
  - unfold unicode_escape. cbn [app parse_string Z.eqb Z.ltb Pos.eqb Z.compare Pos.compare Pos.compare_cont].
    rewrite !hex_hex_digit by (try apply Z.mod_pos_bound; lia || (split; [apply Z.div_pos; lia | apply Z.div_lt_upper_bound; lia])).
    cbn [mbind option_bind]. rewrite Hs. cbn [mbind option_bind]. repeat f_equal.
    pose proof (Z.div_mod u 16 ltac:(lia)). pose proof (Z.div_mod (u / 16) 16 ltac:(lia)).
    pose proof (Z.div_mod (u / 256) 16 ltac:(lia)).
    rewrite (Z.div_div u 16 16) in * by lia. rewrite (Z.div_div u 256 16) in * by lia. change (16 * 16) with 256 in *. change (256 * 16) with 4096 in *. lia.
  - apply orb_false_iff in E2 as [E2 _]. apply orb_false_iff in E2 as [E2%Z.ltb_ge _].
    cbn [app parse_string]. rewrite (proj2 (Z.eqb_neq u 34)), (proj2 (Z.ltb_ge u 32)), (proj2 (Z.eqb_neq u 92)) by lia.
    by rewrite Hs.
Qed.

Lemma parse_quote s rest : Forall is_unit s -> parse_string (quote_units s ++ 34 :: rest) = Some (s, rest).
Proof.
  remember (length s) as n eqn:Hn. revert s Hn. induction n as [n IH] using lt_wf_ind. intros s -> Hu.
  destruct s as [|u [|v r]]; [done | |].
  - apply Forall_cons in Hu as [Hu _]. cbn [quote_units]. by apply parse_quote_unit.
  - apply Forall_cons in Hu as [Hu Hr]. cbn [quote_units].
    destruct (high_surrogate u && low_surrogate v) eqn:E.
    + apply andb_true_iff in E as [Eu Ev]. unfold high_surrogate, low_surrogate in *.
      apply andb_true_iff in Eu as [?%Z.leb_le ?%Z.leb_le]. apply andb_true_iff in Ev as [?%Z.leb_le ?%Z.leb_le].
      apply Forall_cons in Hr as [_ Hr]. cbn [app parse_string].
      rewrite !(proj2 (Z.eqb_neq _ 34)), !(proj2 (Z.eqb_neq _ 92)), !(proj2 (Z.ltb_ge _ 32)) by lia.
      rewrite (IH (length r)) by (done || cbn; lia). done.
    + rewrite <- app_assoc. apply parse_quote_unit; [done |].
      exact (IH (length (v :: r)) ltac:(cbn; lia) (v :: r) eq_refl Hr).
Qed.

(** ** Numbers *)

(** What can follow a value inside a text. *)
Definition follows (rest : jstring) : Prop :=
  match rest with [] => True | u :: _ => u = 44 \/ u = 93 \/ u = 125 end.

Lemma digits_run ds rest : forallb is_digit ds = true -> follows rest -> digits (ds ++ rest) = (ds, rest).
Proof.
  intros Hd Hf. induction ds as [|u ds IH].
  - destruct rest as [|u r]; [done |]. cbn. by destruct Hf as [-> | [-> | ->]].
  - cbn in Hd. apply andb_true_iff in Hd as [Hu Hd]. cbn [app digits].
    rewrite Hu, IH by done. done.
Qed.

Lemma decimal_value ds : JsonText.decimal ds = dec_number ds.
Proof.
  unfold JsonText.decimal, dec_number. generalize 0. induction ds as [|u ds IH]; intros acc; [done | apply IH].
Qed.

Lemma parse_after_digits neg m rest int :
  follows rest -> int <> [] -> JsonText.decimal int = m -> 0 <= m < 9007199254740992 ->
  ('(frac, u) ← fraction rest; '(e, w) ← exponent u;
   Some (VNum (double_of neg (JsonText.decimal (int ++ frac)) (e - len frac)), w))
  = Some (VNum (NInt ((if neg then -1 else 1) * m)), rest).
Proof.
  intros Hf Hi Hm Hr. assert (fraction rest = Some ([], rest) /\ exponent rest = Some (0, rest)) as [-> E].
  { destruct rest as [|u r]; [done |]. by destruct Hf as [-> | [-> | ->]]. }
  cbn [mbind option_bind]. rewrite E. cbn [mbind option_bind]. rewrite app_nil_r, Hm. change (len (@nil Z)) with 0.
  unfold double_of. destruct (Z.eqb_spec m 0) as [->|]; [by destruct neg |]. cbn [Z.sub Z.add Z.opp Z.leb Z.compare].
  rewrite Z.pow_0_r, Z.mul_1_r, (proj2 (Z.ltb_lt _ _)) by lia. done.
Qed.

Lemma parse_natural neg m rest :
  0 <= m < 9007199254740992 -> follows rest ->
  (let '(int, t) := match eat 48 (Bytes.decimal m ++ rest) with Some t => ([48], t) | None => digits (Bytes.decimal m ++ rest) end in
   match int with
   | [] => None
   | _ => '(frac, u) ← fraction t; '(e, w) ← exponent u;
          Some (VNum (double_of neg (JsonText.decimal (int ++ frac)) (e - len frac)), w)
   end) = Some (VNum (NInt ((if neg then -1 else 1) * m)), rest).
Proof.
  intros Hm Hf. destruct (decide (m = 0)) as [->|].
  - cbn [eat]. change (Bytes.decimal 0) with [48]. cbn [app eat Z.eqb Pos.eqb]. by apply (parse_after_digits neg 0 rest [48]).
  - pose proof (decimal_is_decimal m ltac:(lia)) as Hd.
    assert (eat 48 (Bytes.decimal m ++ rest) = None) as ->.
    { destruct (Bytes.decimal m) as [|u r]; [done |]. cbn in Hd |- *. apply andb_true_iff in Hd as [Hu _].
      apply andb_true_iff in Hu as [?%Z.leb_le _]. by rewrite (proj2 (Z.eqb_neq _ _)) by lia. }
    destruct (decimal_all_digits m) as [Hne Hall]; [lia |]. rewrite digits_run by done.
    pose proof (parse_after_digits neg m rest (Bytes.decimal m) Hf Hne) as Hp.
    rewrite decimal_value, dec_number_decimal in Hp by lia. specialize (Hp eq_refl Hm).
    destruct (Bytes.decimal m); [done | exact Hp].
Qed.

(** ** Values *)

Section Induction.
Context (P : jsval -> Prop)
  (Hundef : P VUndef) (Hnull : P VNull) (Hbool : forall b, P (VBool b)) (Hnum : forall n, P (VNum n))
  (Hstr : forall s, P (VStr s)) (Hbytes : forall b, P (VBytes b)) (Harr : forall l, Forall P l -> P (VArr l))
  (Hobj : forall fs, Forall (fun f => P f.2) fs -> P (VObj fs)).

Fixpoint jsval_nested_ind (v : jsval) : P v :=
  match v with
  | VUndef => Hundef
  | VNull => Hnull
  | VBool b => Hbool b
  | VNum n => Hnum n
  | VStr s => Hstr s
  | VBytes b => Hbytes b
  | VArr l => Harr l ((fix all l : Forall P l :=
      match l with [] => Forall_nil_2 _ | x :: l => Forall_cons_2 _ _ _ (jsval_nested_ind x) (all l) end) l)
  | VObj fs => Hobj fs ((fix all fs : Forall (fun f => P f.2) fs :=
      match fs with [] => Forall_nil_2 _ | f :: fs => Forall_cons_2 _ _ _ (jsval_nested_ind f.2) (all fs) end) fs)
  end.
End Induction.

Lemma plain_array l : plain (VArr l) <-> Forall plain l.
Proof.
  cbn. induction l as [|x l IH]; [by split |]. split; [intros [? ?] | intros [? ?]%Forall_cons]; [constructor |]; tauto.
Qed.
Lemma plain_object fs :
  plain (VObj fs) <-> NoDup (map fst fs) /\ Forall (fun f => Forall is_unit f.1 /\ plain f.2) fs.
Proof.
  assert ((fix all fs := match fs with [] => True | f :: fs => Forall is_unit f.1 /\ plain f.2 /\ all fs end) fs
    <-> Forall (fun f : jstring * jsval => Forall is_unit f.1 /\ plain f.2) fs) as E; [|cbn; by rewrite E].
  induction fs as [|f fs IH]; [by split |].
  split; [intros (? & ? & ?) | intros [[? ?] ?]%Forall_cons]; [constructor |]; tauto.
Qed.

Section RoundTrip.
Context (double_text : Z -> jstring).
Abbreviation text_of := (JSON_stringify double_text).

(** A text starts with neither white space nor a closing bracket. *)
Definition starts_value (t : jstring) : Prop :=
  match t with [] => False | u :: _ => negb (existsb (Z.eqb u) [32; 9; 10; 13; 93; 125]) = true end.

Lemma integer_starts z : isSafeInteger z = true -> exists u r, integer_text z = u :: r /\ (u = 45 \/ 48 <= u <= 57).
Proof.
  intros Hz. unfold integer_text.
  assert (forall m, 0 <= m -> exists u r, Bytes.decimal m = u :: r /\ 48 <= u <= 57) as Hd.
  { intros m Hm. destruct (decide (m = 0)) as [->|]; [by exists 48, [] |].
    destruct (decimal_all_digits m) as [Hne Hall]; [lia |]. destruct (Bytes.decimal m) as [|u r]; [done |].
    exists u, r. split; [done |]. cbn in Hall. apply andb_true_iff in Hall as [Hu%is_digit_spec _]. done. }
  destruct (Z.ltb_spec z 0); [exists 45; eexists; split; [done | by left] |].
  destruct (Hd z) as (u & r & E & Hu); [lia |]. exists u, r. split; [done | by right].
Qed.

Lemma text_starts v t : plain v -> text_of v = Some t -> starts_value t.
Proof.
  destruct v as [| |b|[z|k]|s|b|l|fs]; cbn [JSON_stringify]; intros Hp; try done; try (intros [= <-]; done).
  - intros [= <-]. by destruct b.
  - intros [= <-]. destruct (integer_starts z Hp) as (u & r & -> & Hu). cbn.
    destruct Hu as [-> | Hu]; [done |]. repeat rewrite (proj2 (Z.eqb_neq u _)) by lia. done.
Qed.

Lemma skip_ws_value t rest : starts_value t -> skip_ws (t ++ rest) = t ++ rest.
Proof.
  destruct t as [|u r]; [done |]. cbn. intros Hs. apply negb_true_iff in Hs.
  repeat (apply orb_false_iff in Hs as [? Hs]). by repeat match goal with H : (u =? _) = false |- _ => rewrite H; clear H end.
Qed.

Lemma eat_value c t rest : c = 93 \/ c = 125 -> starts_value t -> eat c (t ++ rest) = None.
Proof.
  destruct t as [|u r]; [done |]. cbn. intros Hc Hs. apply negb_true_iff in Hs.
  repeat (apply orb_false_iff in Hs as [? Hs]).
  destruct Hc as [-> | ->]; match goal with H : (u =? _) = false |- _ => by rewrite H end.
Qed.

Lemma follows_skip rest : follows rest -> skip_ws rest = rest.
Proof. destruct rest as [|u r]; [done |]. by intros [-> | [-> | ->]]. Qed.

(** What a value's text is read back to, at any large enough bound. *)
Definition reads (v : jsval) : Prop :=
  plain v -> forall t, text_of v = Some t -> forall rest n, follows rest -> (2 * length (t ++ rest) < n)%nat ->
  parse_value n (t ++ rest) = Some (settled v, rest).

Lemma reads_elements l : Forall reads l -> Forall plain l -> l <> [] -> forall rest n,
  let ts := map (fun x => default (lit "null") (text_of x)) l in
  (2 * length (join [44] ts ++ 93 :: rest)%Z + 1 < n)%nat ->
  parse_elements n (join [44] ts ++ 93 :: rest) = Some (map (fun x => if undefined x then VNull else settled x) l, rest).
Proof.
  induction l as [|x l IH]; intros Hr Hp Hne rest n; [done |]. cbv zeta. cbn [map].
  apply Forall_cons in Hr as [Hx Hr]. apply Forall_cons in Hp as [Hpx Hp].
  destruct n as [|n]; [lia |]. cbn [parse_elements].
  assert (forall r m, follows r -> (2 * length (default (lit "null") (text_of x) ++ r) < m)%nat ->
    parse_value m (default (lit "null") (text_of x) ++ r) = Some (if undefined x then VNull else settled x, r)) as Hone.
  { intros r m Hf Hm. destruct x as [| |b|[z|k]|s|b|l'|fs]; cbn [undefined];
      try done; try (by apply (Hx Hpx _ eq_refl)). destruct m as [|m]; [lia |]. reflexivity. }
  destruct l as [|y l].
  - cbn [map join]. intros Hn. rewrite Hone; [reflexivity | by right; left | lia].
  - intros Hn. rewrite join_cons in * by done. rewrite <- !app_assoc in *.
    rewrite Hone; [|by left|lia]. cbn [mbind option_bind app skip_ws Z.eqb Pos.eqb orb eat].
    rewrite IH; [done | done | done | done |]. rewrite !length_app in *. cbn in *. lia.
Qed.

Lemma no_text v : undefined v = true <-> text_of v = None.
Proof. destruct v as [| | |[|]| | | |]; by split. Qed.

Abbreviation member := (fun f : jstring * jsval => (fun t => quote f.1 ++ 58 :: t) <$> text_of f.2).
Abbreviation kept := (fun f : jstring * jsval => if undefined f.2 then None else Some (f.1, settled f.2)).

Lemma members_texts fs : omap member fs = [] <-> omap kept fs = [].
Proof.
  induction fs as [|[k v] fs IH]; [done |]. cbn [omap list_omap fst snd].
  destruct (undefined v) eqn:E; [by rewrite (proj1 (no_text v) E) |].
  destruct (text_of v) eqn:Et; [by split |]. apply no_text in Et. congruence.
Qed.

Lemma kept_keys fs k : k ∈ map fst (omap kept fs) -> k ∈ map fst fs.
Proof.
  induction fs as [|[k' v] fs IH]; [done |]. cbn [omap list_omap map fst snd].
  destruct (undefined v); cbn [map fst]; rewrite ?elem_of_cons; tauto.
Qed.

Lemma reads_members fs : Forall (fun f => reads f.2) fs -> Forall (fun f => Forall is_unit f.1 /\ plain f.2) fs ->
  NoDup (map fst fs) -> forall acc, (forall k, k ∈ map fst fs -> mget acc k = None) -> omap member fs <> [] ->
  forall rest n, (2 * length (join [44%Z] (omap member fs) ++ 125%Z :: rest) < n)%nat ->
  parse_members n acc (join [44] (omap member fs) ++ 125 :: rest) = Some (acc ++ omap kept fs, rest).
Proof.
  induction fs as [|[k v] fs IH]; intros Hr Hp Hd acc Hacc Hne rest n; [done |].
  apply Forall_cons in Hr as [Hv Hr]. apply Forall_cons in Hp as [[Hk Hpv] Hp]. cbn [fst snd map] in *.
  apply NoDup_cons in Hd as [Hfresh Hd]. cbn [omap list_omap fst snd] in Hne |- *.
  destruct (undefined v) eqn:Eu.
  { rewrite (proj1 (no_text v) Eu) in Hne |- *. apply IH; try done. intros k' Hk'. apply Hacc. by right. }
  destruct (text_of v) as [t|] eqn:Et; [|apply no_text in Et; congruence]. cbn [fmap option_fmap option_map].
  assert (mget acc k = None) as Ek by (apply Hacc; by left).
  assert (forall r m, follows r -> (2 * length (quote k ++ 58%Z :: t ++ r) < S m)%nat ->
    parse_members (S m) acc (quote k ++ 58 :: t ++ r) =
    match eat 44 r with
    | Some r => parse_members m (acc ++ [(k, settled v)]) r
    | None => r ← eat 125 r; Some (acc ++ [(k, settled v)], r)
    end) as Hone.
  { intros r m Hf Hm. unfold quote in Hm |- *. cbn [parse_members app skip_ws Z.eqb Pos.eqb orb eat mbind option_bind].
    rewrite <- app_assoc. cbn [app].
    rewrite parse_quote by done. cbn [mbind option_bind skip_ws Z.eqb Pos.eqb orb eat].
    rewrite (Hv Hpv t Et); [|done |]. 2: { rewrite !length_app in *. cbn in Hm |- *. rewrite ?length_app in *. cbn in Hm. lia. }
    cbn [mbind option_bind]. rewrite follows_skip by done. by rewrite mset_new. }
  pose proof (members_texts fs) as Hnil. destruct (omap member fs) as [|m ms] eqn:Em.
  - rewrite (proj1 Hnil eq_refl). cbn [join]. rewrite <- app_assoc. cbn [app]. intros Hn.
    destruct n as [|n]; [lia |]. rewrite Hone; [reflexivity | by right; right | done].
  - rewrite join_cons by done. rewrite <- !app_assoc. cbn [app]. intros Hn.
    destruct n as [|n]; [lia |].
    rewrite Hone; [|by left | done]. cbn [eat Z.eqb Pos.eqb].
    rewrite IH; [by rewrite <- app_assoc | done | done | done | | done |].
    + intros k' Hk'. apply mget_None_keys. rewrite fmap_app. cbn. rewrite elem_of_app, list_elem_of_singleton.
      intros [Hin | ->]; [|done]. revert Hin. apply mget_None_keys, Hacc. by right.
    + rewrite length_app in Hn. cbn [length] in Hn. rewrite length_app in Hn. cbn [length] in Hn. lia.
Qed.

Lemma parse_value_number n s u r :
  s = u :: r -> u = 45 \/ 48 <= u <= 57 -> parse_value (S n) s = parse_number s.
Proof.
  intros -> Hu. assert (forall c, u <> c -> (u =? c) = false) as E by (intros; by apply Z.eqb_neq).
  cbn [parse_value skip_ws]. rewrite !E by lia. cbn [orb]. rewrite !E by lia.
  assert (forall c k, u <> c -> after_literal (c :: k) (u :: r) = None) as El.
  { intros c k Hc. cbn. by rewrite (proj2 (Z.eqb_neq c u)). }
  change (lit "true") with (116 :: lit "rue"). change (lit "false") with (102 :: lit "alse").
  change (lit "null") with (110 :: lit "ull").
   rewrite (El 116), (El 102), (El 110) by lia. done.
Qed.

Lemma reads_integer z : reads (VNum (NInt z)).
Proof.
  intros Hp t [= <-] rest n Hf Hn. destruct n as [|n]; [lia |].
  destruct (integer_starts z Hp) as (u & r & E & Hu).
  rewrite (parse_value_number n _ u (r ++ rest)); [| by rewrite E | done].
  apply andb_true_iff in Hp as [?%Z.leb_le ?%Z.leb_le]. unfold MAX_SAFE_INTEGER in *. unfold integer_text in *.
  destruct (Z.ltb_spec z 0); unfold parse_number.
  - cbn [app eat Z.eqb Pos.eqb]. rewrite parse_natural; [|lia|done]. cbn [settled]. do 4 f_equal. lia.
  - assert (u <> 45).
    { destruct (decide (z = 0)) as [->|]; [by injection E as <- |]. destruct (decimal_all_digits z) as [_ Hall]; [lia |].
      rewrite E in Hall. cbn in Hall. apply andb_true_iff in Hall as [Hu'%is_digit_spec _]. lia. }
    assert (eat 45 (Bytes.decimal z ++ rest) = None) as ->; [rewrite E; cbn; by rewrite (proj2 (Z.eqb_neq u 45)) |].
    rewrite parse_natural by (done || lia). cbn [settled]. do 4 f_equal. lia.
Qed.

Lemma starts_join x l rest : starts_value x -> exists t w, starts_value t /\ join [44] (x :: l) ++ rest = t ++ w.
Proof.
  intros Hx. destruct l as [|y l]; [by exists x, rest |]. exists x, (44 :: join [44] (y :: l) ++ rest).
  split; [done |]. rewrite join_cons by done. by rewrite <- !app_assoc.
Qed.

Lemma element_starts x : plain x -> starts_value (default (lit "null") (text_of x)).
Proof. intros Hp. destruct (text_of x) eqn:E; [by apply (text_starts x) | done]. Qed.

Lemma reads_array l : Forall reads l -> reads (VArr l).
Proof.
  intros IH Hp t [= <-] rest n Hf Hn. apply plain_array in Hp. destruct n as [|n]; [lia |].
  cbn [app parse_value skip_ws Z.eqb Pos.eqb orb]. rewrite <- app_assoc. cbn [app].
  destruct l as [|x l]; [reflexivity |]. pose proof (reads_elements (x :: l) IH Hp ltac:(done) rest n) as Hl.
  cbv zeta in Hl. apply Forall_cons in Hp as [Hx _]. apply element_starts in Hx. cbn [map] in *.
  destruct (starts_join _ (map (fun x => default (lit "null") (text_of x)) l) (93 :: rest) Hx) as (t & w & Ht & E).
  rewrite E in Hl |- *. rewrite skip_ws_value, eat_value by (done || by left). rewrite Hl; [done |].
  cbn [app length] in Hn. rewrite <- app_assoc in Hn. cbn [app] in Hn. rewrite E in Hn. lia.
Qed.

Lemma members_start fs : omap member fs <> [] -> exists t r, omap member fs = t :: r /\ starts_value t.
Proof.
  induction fs as [|[k v] fs IH]; [done |]. cbn [omap list_omap fst snd].
  destruct (text_of v) as [t|]; cbn [fmap option_fmap option_map]; [|exact IH]. intros _. by eexists _, _.
Qed.

Lemma reads_object fs : Forall (fun f => reads f.2) fs -> reads (VObj fs).
Proof.
  intros IH Hp t Ht rest n Hf Hn. apply plain_object in Hp as [Hd Hp]. destruct n as [|n]; [lia |].
  change (Some ([123] ++ join [44] (omap member fs) ++ [125]) = Some t) in Ht.
  pose proof (reads_members fs IH Hp Hd [] ltac:(done)) as Hl.
  pose proof (members_texts fs) as Hnil. pose proof (members_start fs) as Hst.
  change (settled (VObj fs)) with (VObj (omap kept fs)).
  revert Ht Hl Hnil Hst. generalize (omap member fs) as ts. intros ts [= <-] Hl Hnil Hst.
  cbn [app parse_value skip_ws Z.eqb Pos.eqb orb]. rewrite <- app_assoc. cbn [app].
  destruct (decide (ts = [])) as [->|Hne]; [by rewrite (proj1 Hnil eq_refl) |].
  specialize (Hl Hne rest n). destruct (Hst Hne) as (m & ms & -> & Hm).
  destruct (starts_join m ms (125 :: rest) Hm) as (t & w & Ht & E).
  rewrite E in Hl |- *. rewrite skip_ws_value, eat_value by (done || by right). rewrite Hl; [done |].
  cbn [app length] in Hn. rewrite <- app_assoc in Hn. cbn [app] in Hn. rewrite E in Hn. lia.
Qed.

Lemma reads_all v : reads v.
Proof.
  induction v as [| |b|[z|k]|s|b|l IH|fs IH] using jsval_nested_ind; try done; try (by intros []; done).
  - intros _ t [= <-] rest [|n] Hf Hn; [lia | done].
  - intros _ t [= <-] rest [|n] Hf Hn; [lia | by destruct b].
  - apply reads_integer.
  - intros Hp t [= <-] rest [|n] Hf Hn; [lia |].
    unfold quote. cbn [app parse_value skip_ws Z.eqb Pos.eqb orb]. rewrite <- app_assoc. cbn [app].
    by rewrite parse_quote.
  - by apply reads_array.
  - by apply reads_object.
Qed.

(** [JSON.parse] reads back what [JSON.stringify] writes: the text of a
    value made of safe integers, strings of any units, booleans, [null], arrays
    and objects of distinct member names is read to that value, without the
    members that are [undefined] and with [null] for such elements. *)
Theorem parse_stringify v t : plain v -> text_of v = Some t -> JSON_parse t = Some (settled v).
Proof.
  intros Hp Ht. unfold JSON_parse.
  pose proof (reads_all v Hp t Ht [] (2 * length t + 2)%nat I) as Hr. rewrite app_nil_r in Hr.
  by rewrite Hr by lia.
Qed.
End RoundTrip.
