(* ===== verification/WebStorage.v ===== *)
(** [localStorage] and [sessionStorage]: what the code calls of them as a class,
    since any of its methods may throw (storage denied, quota exceeded), the law
    of a storage that works, and two implementations. *)

From S2P Require Import Prelude.

Class Storage (S : Type) := {
  getItem : jstring -> SE S (option jstring);
  setItem : jstring -> jstring -> SE S unit;
  removeItem : jstring -> SE S unit
}.

(** A storage that works: a map of texts none of whose calls throws. *)
Class WorkingStorage (S : Type) `{Storage S} := {
  contents : S -> gmap jstring jstring;
  getItem_works k s : getItem k s = (s, Ok (contents s !! k));
  setItem_works k v s : exists s', setItem k v s = (s', Ok tt) /\ contents s' = <[k := v]> (contents s);
  removeItem_works k s : exists s', removeItem k s = (s', Ok tt) /\ contents s' = delete k (contents s)
}.

(** ** A map with a quota *)

Record limited := Limited { items : gmap jstring jstring; room : gmap jstring jstring -> bool }.

(** What is refused leaves the map as it was. *)
#[export] Instance limited_storage : Storage limited := {
  getItem k := fun s => (s, Ok (items s !! k));
  setItem k v := fun s =>
    let m := <[k := v]> (items s) in
    if room s m then (Limited m (room s), Ok tt) else (s, plain_error "QuotaExceededError");
  removeItem k := fun s => (Limited (delete k (items s)) (room s), Ok tt)
}.

(** ** A map *)

#[export] Instance map_storage : Storage (gmap jstring jstring) := {
  getItem k := fun s => (s, Ok (s !! k));
  setItem k v := fun s => (<[k := v]> s, Ok tt);
  removeItem k := fun s => (delete k s, Ok tt)
}.

#[export] Instance map_storage_works : WorkingStorage (gmap jstring jstring).
Proof. by refine {| contents s := s |}; eauto. Defined.

(** ** Calls inside a larger state *)

Section Lift.
Context {S R : Type} (get : R -> S) (set : S -> R -> R).

(** [m] run on a part of the state. *)
Definition zoom {A} (m : SE S A) : SE R A := fun r =>
  match m (get r) with (s, a) => (set s r, a) end.
End Lift.

(** ** Storages that may fail *)

(** What is held changes at most by the call made, whether or not it throws. *)
Class HonestStorage (S : Type) `{Storage S} := {
  held : S -> gmap jstring jstring;
  getItem_honest k s : held (getItem k s).1 = held s /\ (forall v, (getItem k s).2 = Ok v -> v = held s !! k);
  setItem_honest k v s : held (setItem k v s).1 = <[k := v]> (held s) \/ held (setItem k v s).1 = held s;
  removeItem_honest k s : held (removeItem k s).1 = delete k (held s) \/ held (removeItem k s).1 = held s
}.

#[export] Instance limited_storage_honest : HonestStorage limited.
Proof.
  refine {| held := items |}.
  - intros k s. split; [done |]. cbn. by intros v [= <-].
  - intros k v s. cbn. destruct (room s _); auto.
  - intros k s. by left.
Defined.

(** A storage every call of which is refused. *)
Inductive denied := Denied.
#[export] Instance denied_storage : Storage denied := {
  getItem k := se_throw (Exn PlainError "SecurityError");
  setItem k v := se_throw (Exn PlainError "SecurityError");
  removeItem k := se_throw (Exn PlainError "SecurityError")
}.
