(* ===== verification/LocalWorkspace.v ===== *)
(** The documents of the local mode ([client/src/demo/workspace.ts]): a catalogue,
    a trash and the texts, kept as JSON in [localStorage]. *)

From S2P Require Import Prelude TextChange.
From S2P Require Import Bytes.
From S2P Require Import JsValue.
From S2P Require Import Regex.
From S2P Require Import JsonText.
From S2P Require Import JsonPrint.
From S2P Require Import WebStorage.

(** ** Drafts and titles *)

Record DocumentTemplate := { tpl_id : jstring; tpl_name : jstring; tpl_content : jstring }.

Record LocalDocumentDraft := {
  title : option jstring;
  content : option jstring;
  templateId : option jstring;
  requestScope : option jstring
}.
Definition no_draft : LocalDocumentDraft :=
  {| title := None; content := None; templateId := None; requestScope := None |}.

Record MaterializedDocumentDraft := { md_title : option jstring; md_content : jstring }.

(** Indent, one to six number signs, space, the title, closing signs. *)
Definition TITLE_LINE : regex :=
  seq [At_start false; between 0 3 (Any_of white); between 1 6 (unit_ 35); plus (Any_of white);
       Group 1 (lazy_plus (Any_of dot)); star (Any_of white); star (unit_ 35); star (Any_of white); At_end false].

Definition heading_of (line : jstring) : option jstring :=
  '(_, _, c) ← exec line TITLE_LINE;
  '(a, b) ← capture c 1;
  Some (trim (units line a b)).

Definition truthy_text (s : option jstring) : bool :=
  match s with Some (_ :: _) => true | _ => false end.

Definition deriveTitle (markdown fallback : jstring) : jstring :=
  match List.find truthy_text (map heading_of (split_on 10 markdown)) with
  | Some (Some heading) => match slice heading 0 90 with [] => fallback | t => t end
  | _ => fallback
  end.

Definition materializeDocumentDraft (templates : list DocumentTemplate) (draft : LocalDocumentDraft) :
    MaterializedDocumentDraft :=
  let template := match templateId draft with
    | Some t => List.find (fun item => str_eqb (tpl_id item) t) templates | None => None end in
  let content := match content draft with
    | Some c => c | None => match template with Some t => tpl_content t | None => [] end end in
  {| md_title := match trim <$> title draft with
       | Some (u :: r) => Some (u :: r)
       | _ => match template with Some t => Some (deriveTitle content (tpl_name t)) | None => None end
       end;
     md_content := content |}.

(** ** Dynamic values *)

(** [value.key]: reading a property of [null] or [undefined] throws. *)
Definition property (v : jsval) (k : string) : res jsval :=
  match v with VNull | VUndef => type_error "Cannot read properties of null" | _ => Ok (field v k) end.

(** [{ ...value, k: x, ... }] of a parsed object. *)
Definition spread_with (v : jsval) (fs : list (string * jsval)) : jsval :=
  match v with
  | VObj own => VObj (fold_left (fun own f => mset own (lit f.1) f.2) fs own)
  | _ => VObj (fold_left (fun own f => mset own (lit f.1) f.2) fs [])
  end.

(** [list.find(item => item.id === id)] as an index, and [list.filter] by it. *)
Fixpoint find_id (id : jstring) (l : list jsval) : res (option nat) :=
  match l with
  | [] => Ok None
  | v :: r =>
      x ← property v "id";
      match x with
      | VStr s => if str_eqb s id then Ok (Some O) else i ← find_id id r; Ok (option_map Datatypes.S i)
      | _ => i ← find_id id r; Ok (option_map Datatypes.S i)
      end
  end.
Definition has_id (id : jstring) (v : jsval) : bool :=
  match field v "id" with VStr s => str_eqb s id | _ => false end.
Fixpoint without_id (id : jstring) (l : list jsval) : res (list jsval) :=
  match l with
  | [] => Ok []
  | v :: r => x ← property v "id"; r ← without_id id r; Ok (if has_id id v then r else v :: r)
  end.

(** The stable sort of the language for a comparison by one key. *)
Fixpoint insert_stable {A} (cmp : A -> A -> Z) (x : A) (l : list A) : list A :=
  match l with
  | [] => [x]
  | y :: r => if cmp x y <=? 0 then x :: y :: r else y :: insert_stable cmp x r
  end.
Definition sort_stable {A} (cmp : A -> A -> Z) (l : list A) : list A := foldr (insert_stable cmp) [] l.

Definition is_nullish (v : jsval) : bool := match v with VNull | VUndef => true | _ => false end.

(** [list.sort(...)] with a comparison that reads properties: with two elements
    or more every one of them is read. *)
Definition sort_values (cmp : jsval -> jsval -> Z) (l : list jsval) : res (list jsval) :=
  if (2 <=? len l) && existsb is_nullish l then type_error "Cannot read properties of null"
  else Ok (sort_stable cmp l).

(** ** The page *)

Definition WORKSPACE_KEY : jstring := lit "marks:ui-workspace:v1".
Definition TRASH_KEY : jstring := lit "marks:ui-trash:v1".
Definition WORKSPACE_READY_KEY : jstring := lit "marks:ui-workspace-ready:v1".
Definition TEXT_PREFIX : jstring := lit "marks:ui-document:v1:".
Definition LOCAL_TRASH_RETENTION_MS : Z := 30 * 24 * 60 * 60 * 1000.
Definition ABOUT_DOCUMENT_ID : jstring := lit "about-marks".
Definition ABOUT_DOCUMENT_TITLE : jstring := lit "Google Docs for Markdown".

Definition textKey (id : jstring) : jstring := TEXT_PREFIX ++ id.

(** [store] is [localStorage]; [times] and [ids] count the readings of the clock
    and the identities drawn, [changes] the events dispatched. *)
Record page (S : Type) := Page { store : S; times : Z; ids : Z; changes : Z }.
Arguments Page {S} _ _ _ _.
Arguments store {S} _.
Arguments times {S} _.
Arguments ids {S} _.
Arguments changes {S} _.

Section Workspace.
Context {S : Type} {HS : Storage S}.
(** The clock, [crypto.randomUUID], the sign of the difference of two values
    that are not both integers, the text of a fraction, and the built-in
    texts. *)
Context (clock : Z -> Z) (uuid : Z -> jstring) (difference : jsval -> jsval -> Z) (double_text : Z -> jstring).
Context (templates : list DocumentTemplate) (ABOUT_DOCUMENT LAUNCH_DOCUMENT FIELD_GUIDE_DOCUMENT : jstring).

Abbreviation M := (SE (page S)).
Definition stored {A} (m : SE S A) : M A := zoom store (fun s p => Page s (times p) (ids p) (changes p)) m.
Definition Date_now : M Z := fun p => (Page (store p) (times p + 1) (ids p) (changes p), Ok (clock (times p))).
Definition randomUUID : M jstring := fun p => (Page (store p) (times p) (ids p + 1) (changes p), Ok (uuid (ids p))).
Definition emitWorkspaceChange : M unit := se_modify (fun p => Page (store p) (times p) (ids p) (changes p + 1)).

Definition stringify_list (l : list jsval) : jstring := default [] (JSON_stringify double_text (VArr l)).

Definition saveDocuments (documents : list jsval) : M unit :=
  _ ← stored (setItem WORKSPACE_KEY (stringify_list documents));
  _ ← stored (setItem WORKSPACE_READY_KEY (lit "1"));
  emitWorkspaceChange.
Definition saveTrash (documents : list jsval) : M unit :=
  _ ← stored (setItem TRASH_KEY (stringify_list documents));
  emitWorkspaceChange.

(** A fresh entry of the catalogue. *)
Definition meta_value (id title : jstring) (chars created updated : Z) : jsval :=
  VObj [(lit "id", VStr id); (lit "title", VStr title); (lit "engine", VStr (lit "esbt"));
        (lit "chars", VNum (NInt chars)); (lit "created_at", VNum (NInt created)); (lit "updated_at", VNum (NInt updated))].

Definition seeds : list (jstring * jstring * jstring * Z) :=
  [(ABOUT_DOCUMENT_ID, ABOUT_DOCUMENT_TITLE, ABOUT_DOCUMENT, 2);
   (lit "surface-launch", lit "August surface launch", LAUNCH_DOCUMENT, 42);
   (lit "interaction-field-guide", lit "Field guide: interaction quality", FIELD_GUIDE_DOCUMENT, 180)].

Fixpoint seed_each (now index : Z) (l : list (jstring * jstring * jstring * Z)) : M (list jsval) :=
  match l with
  | [] => mret []
  | (id, title, content, minutesAgo) :: r =>
      _ ← stored (setItem (textKey id) content);
      let updated := now - minutesAgo * 60000 in
      rest ← seed_each now (index + 1) r;
      mret (meta_value id title (len content) (updated - (index + 1) * 86400000) updated :: rest)
  end.

Definition seedWorkspace : M (list jsval) :=
  now ← Date_now;
  documents ← seed_each now 0 seeds;
  _ ← saveDocuments documents;
  mret documents.

Definition seedAboutDocumentText : M unit := stored (setItem (textKey ABOUT_DOCUMENT_ID) ABOUT_DOCUMENT).

Definition about_current (v : jsval) : bool :=
  match field v "title", field v "chars" with
  | VStr t, VNum (NInt n) => str_eqb t ABOUT_DOCUMENT_TITLE && (n =? len ABOUT_DOCUMENT)
  | _, _ => false
  end.

(** [documents.map] over the property read of every element. *)
Fixpoint update_about (l : list jsval) : res (list jsval) :=
  match l with
  | [] => Ok []
  | v :: r =>
      _ ← property v "id"; r ← update_about r;
      Ok ((if has_id ABOUT_DOCUMENT_ID v
           then spread_with v [("title"%string, VStr ABOUT_DOCUMENT_TITLE); ("chars"%string, VNum (NInt (len ABOUT_DOCUMENT)))] else v) :: r)
  end.

Definition ensureAboutDocument (documents : list jsval) : M (list jsval) :=
  _ ← seedAboutDocumentText;
  existing ← se_lift (find_id ABOUT_DOCUMENT_ID documents);
  match existing with
  | Some i =>
      if about_current (default VUndef (documents !! i)) then mret documents
      else
        next ← se_lift (update_about documents);
        _ ← saveDocuments next;
        mret next
  | None =>
      now ← Date_now;
      let next := meta_value ABOUT_DOCUMENT_ID ABOUT_DOCUMENT_TITLE (len ABOUT_DOCUMENT) now now :: documents in
      _ ← saveDocuments next;
      mret next
  end.

(** The sign of [a - b]. *)
Definition minus (a b : jsval) : Z :=
  match a, b with VNum (NInt x), VNum (NInt y) => x - y | _, _ => difference a b end.
Definition newest_first (a b : jsval) : Z := minus (field b "updated_at") (field a "updated_at").
Definition or_zero (v : jsval) : jsval := if is_nullish v then VNum (NInt 0) else v.
Definition deleted_last (a b : jsval) : Z := minus (or_zero (field b "deleted_at")) (or_zero (field a "deleted_at")).

Definition loadLocalDocuments : M (list jsval) :=
  raw ← stored (getItem WORKSPACE_KEY);
  let otherwise :=
    ready ← stored (getItem WORKSPACE_READY_KEY);
    if truthy_text ready then ensureAboutDocument [] else seedWorkspace in
  if truthy_text raw then
    documents ← se_catch
      (match JSON_parse (default [] raw) with
       | Some (VArr l) =>
           documents ← ensureAboutDocument l;
           sorted ← se_lift (sort_values newest_first documents);
           mret (Some sorted)
       | Some _ => _ ← seedAboutDocumentText; se_throw (Exn TypeError "documents.find is not a function")
       | None => se_throw (Exn SyntaxError "JSON.parse")
       end)
      (fun _ => _ ← stored (removeItem WORKSPACE_KEY); mret None);
    match documents with Some l => mret l | None => otherwise end
  else otherwise.

Definition loadLocalTrash : M (list jsval) :=
  se_catch
    (raw ← stored (getItem TRASH_KEY);
     match JSON_parse (default (lit "[]") raw) with
     | Some (VArr l) => se_lift (sort_values deleted_last l)
     | Some _ => mret []
     | None => se_throw (Exn SyntaxError "JSON.parse")
     end)
    (fun _ => _ ← stored (removeItem TRASH_KEY); mret []).

Definition getLocalDocument (id : jstring) : M (option jsval) :=
  documents ← loadLocalDocuments;
  i ← se_lift (find_id id documents);
  mret (i ≫= (documents !!.)).

Definition readLocalDocumentText (id : jstring) : M jstring :=
  raw ← stored (getItem (textKey id)); mret (default [] raw).

Definition writeLocalDocumentText (id markdown : jstring) : M unit :=
  _ ← stored (setItem (textKey id) markdown);
  documents ← loadLocalDocuments;
  index ← se_lift (find_id id documents);
  match index with
  | None => mret tt
  | Some i =>
      now ← Date_now;
      saveDocuments (alter (fun current => spread_with current
        [("chars"%string, VNum (NInt (len markdown))); ("updated_at"%string, VNum (NInt now))]) i documents)
  end.

Definition createLocalDocument (draft : LocalDocumentDraft) : M jsval :=
  let materialized := materializeDocumentDraft templates draft in
  now ← Date_now;
  drawn ← randomUUID;
  let id := lit "local-" ++ drawn in
  let document := meta_value id
    (default (deriveTitle (md_content materialized) (lit "Untitled")) (md_title materialized))
    (len (md_content materialized)) now now in
  _ ← stored (setItem (textKey id) (md_content materialized));
  documents ← loadLocalDocuments;
  _ ← saveDocuments (document :: documents);
  mret document.

Definition renameLocalDocument (id title : jstring) : M (option jsval) :=
  let nextTitle := trim title in
  match nextTitle with
  | [] => mret None
  | _ =>
      documents ← loadLocalDocuments;
      index ← se_lift (find_id id documents);
      match index with
      | None => mret None
      | Some i =>
          now ← Date_now;
          let documents := alter (fun d => spread_with d
            [("title"%string, VStr nextTitle); ("updated_at"%string, VNum (NInt now))]) i documents in
          _ ← saveDocuments documents;
          mret (documents !! i)
      end
  end.

(** [${source.title} copy], the title a string as the code writes it. *)
Definition duplicateLocalDocument (id : jstring) (markdown : option jstring) : M (option jsval) :=
  source ← getLocalDocument id;
  match source with
  | None => mret None
  | Some source =>
      text ← match markdown with Some t => mret t | None => readLocalDocumentText id end;
      created ← createLocalDocument {| title := Some (default [] (as_str (field source "title")) ++ lit " copy");
        content := Some text; templateId := None; requestScope := None |};
      mret (Some created)
  end.

Definition deleteLocalDocument (id : jstring) : M unit :=
  documents ← loadLocalDocuments;
  index ← se_lift (find_id id documents);
  match index ≫= (documents !!.) with
  | None => mret tt
  | Some document =>
      deletedAt ← Date_now;
      kept ← se_lift (without_id id documents);
      _ ← saveDocuments kept;
      trash ← loadLocalTrash;
      others ← se_lift (without_id id trash);
      saveTrash (spread_with document [("deleted_at"%string, VNum (NInt deletedAt));
        ("purge_at"%string, VNum (NInt (deletedAt + LOCAL_TRASH_RETENTION_MS)))] :: others)
  end.

Definition restoreLocalDocument (id : jstring) : M (option jsval) :=
  trash ← loadLocalTrash;
  index ← se_lift (find_id id trash);
  match index ≫= (trash !!.) with
  | None => mret None
  | Some document =>
      now ← Date_now;
      let restored := spread_with document
        [("updated_at"%string, VNum (NInt now)); ("deleted_at"%string, VNull); ("purge_at"%string, VNull)] in
      others ← se_lift (without_id id trash);
      _ ← saveTrash others;
      documents ← loadLocalDocuments;
      kept ← se_lift (without_id id documents);
      _ ← saveDocuments (restored :: kept);
      mret (Some restored)
  end.

Definition purgeLocalDocument (id : jstring) : M unit :=
  trash ← loadLocalTrash;
  index ← se_lift (find_id id trash);
  match index ≫= (trash !!.) with
  | None => mret tt
  | Some document =>
      now ← Date_now;
      let purge_at := field document "purge_at" in
      if is_nullish purge_at || (0 <? minus purge_at (VNum (NInt now)))
      then se_throw (Exn PlainError "local trash retention has not elapsed")
      else
        others ← se_lift (without_id id trash);
        _ ← saveTrash others;
        stored (removeItem (textKey id))
  end.

Definition id_text (v : jsval) : jstring := default (lit "undefined") (as_str (field v "id")).
Fixpoint remove_texts (l : list jsval) : M unit :=
  match l with
  | [] => mret tt
  | v :: r => _ ← se_lift (property v "id"); _ ← stored (removeItem (textKey (id_text v))); remove_texts r
  end.

Definition resetLocalWorkspace : M (list jsval) :=
  documents ← loadLocalDocuments;
  _ ← remove_texts documents;
  trash ← loadLocalTrash;
  _ ← remove_texts trash;
  _ ← stored (removeItem WORKSPACE_KEY);
  _ ← stored (removeItem TRASH_KEY);
  _ ← stored (removeItem WORKSPACE_READY_KEY);
  seedWorkspace.
End Workspace.

(** ** The catalogue without its encoding

    What the operations do to lists of typed entries. The clock is read in the
    same places as in the code. *)

Inductive bin := Fresh | Trashed (deleted_at purge_at : Z) | Recovered.

Record DocumentMeta := Meta {
  m_id : jstring;
  m_title : jstring;
  m_chars : Z;
  m_created : Z;
  m_updated : Z;
  m_bin : bin
}.

Definition encode (m : DocumentMeta) : jsval :=
  VObj ([(lit "id", VStr (m_id m)); (lit "title", VStr (m_title m)); (lit "engine", VStr (lit "esbt"));
         (lit "chars", VNum (NInt (m_chars m))); (lit "created_at", VNum (NInt (m_created m)));
         (lit "updated_at", VNum (NInt (m_updated m)))] ++
        match m_bin m with
        | Fresh => []
        | Trashed d p => [(lit "deleted_at", VNum (NInt d)); (lit "purge_at", VNum (NInt p))]
        | Recovered => [(lit "deleted_at", VNull); (lit "purge_at", VNull)]
        end).

Record workspace := Workspace {
  docs : list DocumentMeta;
  trash : list DocumentMeta;
  texts : gmap jstring jstring;
  ticks : Z;
  draws : Z
}.

Definition same_id (id : jstring) (m : DocumentMeta) : bool := str_eqb (m_id m) id.
Definition lookup_id (id : jstring) : list DocumentMeta -> option DocumentMeta := List.find (same_id id).
Definition drop_id (id : jstring) : list DocumentMeta -> list DocumentMeta := List.filter (fun m => negb (same_id id m)).
(** The first entry of an identity replaced. *)
Fixpoint update_id (id : jstring) (f : DocumentMeta -> DocumentMeta) (l : list DocumentMeta) : list DocumentMeta :=
  match l with [] => [] | m :: r => if same_id id m then f m :: r else m :: update_id id f r end.

Definition by_updated (a b : DocumentMeta) : Z := m_updated b - m_updated a.
Definition deletion (m : DocumentMeta) : Z := match m_bin m with Trashed d _ => d | _ => 0 end.
Definition by_deletion (a b : DocumentMeta) : Z := deletion b - deletion a.

Section Spec.
Context (clock : Z -> Z) (uuid : Z -> jstring) (templates : list DocumentTemplate) (ABOUT_DOCUMENT : jstring).

Definition refresh (m : DocumentMeta) : DocumentMeta :=
  if same_id ABOUT_DOCUMENT_ID m
  then Meta (m_id m) ABOUT_DOCUMENT_TITLE (len ABOUT_DOCUMENT) (m_created m) (m_updated m) (m_bin m) else m.

Definition spec_ensure (l : list DocumentMeta) (t : Z) : list DocumentMeta * Z :=
  match lookup_id ABOUT_DOCUMENT_ID l with
  | Some m => (if str_eqb (m_title m) ABOUT_DOCUMENT_TITLE && (m_chars m =? len ABOUT_DOCUMENT) then l else map refresh l, t)
  | None => (Meta ABOUT_DOCUMENT_ID ABOUT_DOCUMENT_TITLE (len ABOUT_DOCUMENT) (clock t) (clock t) Fresh :: l, t + 1)
  end.

(** The listing, and the workspace after it. *)
Definition spec_load (w : workspace) : workspace * list DocumentMeta :=
  let '(l, t) := spec_ensure (docs w) (ticks w) in
  (Workspace l (trash w) (<[ABOUT_DOCUMENT_ID := ABOUT_DOCUMENT]> (texts w)) t (draws w), sort_stable by_updated l).

Definition spec_trash (w : workspace) : list DocumentMeta := sort_stable by_deletion (trash w).

Definition set_docs (l : list DocumentMeta) (w : workspace) : workspace := Workspace l (trash w) (texts w) (ticks w) (draws w).
Definition set_trash (l : list DocumentMeta) (w : workspace) : workspace := Workspace (docs w) l (texts w) (ticks w) (draws w).
Definition set_text (id t : jstring) (w : workspace) : workspace :=
  Workspace (docs w) (trash w) (<[id := t]> (texts w)) (ticks w) (draws w).
Definition tick (w : workspace) : workspace := Workspace (docs w) (trash w) (texts w) (ticks w + 1) (draws w).

Definition spec_write (id markdown : jstring) (w : workspace) : workspace :=
  let '(w, l) := spec_load (set_text id markdown w) in
  match lookup_id id l with
  | None => w
  | Some _ => tick (set_docs (update_id id (fun m =>
      Meta (m_id m) (m_title m) (len markdown) (m_created m) (clock (ticks w)) (m_bin m)) l) w)
  end.

Definition spec_create (draft : LocalDocumentDraft) (w : workspace) : workspace * DocumentMeta :=
  let materialized := materializeDocumentDraft templates draft in
  let now := clock (ticks w) in
  let m := Meta (lit "local-" ++ uuid (draws w))
    (default (deriveTitle (md_content materialized) (lit "Untitled")) (md_title materialized))
    (len (md_content materialized)) now now Fresh in
  let w := Workspace (docs w) (trash w) (<[m_id m := md_content materialized]> (texts w)) (ticks w + 1) (draws w + 1) in
  let '(w, l) := spec_load w in
  (set_docs (m :: l) w, m).

Definition spec_rename (id title : jstring) (w : workspace) : workspace * option DocumentMeta :=
  match trim title with
  | [] => (w, None)
  | t =>
      let '(w, l) := spec_load w in
      let f m := Meta (m_id m) t (m_chars m) (m_created m) (clock (ticks w)) (m_bin m) in
      match lookup_id id l with
      | None => (w, None)
      | Some m => (tick (set_docs (update_id id f l) w), Some (f m))
      end
  end.

Definition spec_duplicate (id : jstring) (markdown : option jstring) (w : workspace) : workspace * option DocumentMeta :=
  let '(w, l) := spec_load w in
  match lookup_id id l with
  | None => (w, None)
  | Some source =>
      let text := default (default [] (texts w !! id)) markdown in
      let '(w, m) := spec_create {| title := Some (m_title source ++ lit " copy"); content := Some text;
        templateId := None; requestScope := None |} w in
      (w, Some m)
  end.

Definition bin_it (m : DocumentMeta) (b : bin) : DocumentMeta :=
  Meta (m_id m) (m_title m) (m_chars m) (m_created m) (m_updated m) b.

Definition spec_delete (id : jstring) (w : workspace) : workspace :=
  let '(w, l) := spec_load w in
  match lookup_id id l with
  | None => w
  | Some m =>
      let now := clock (ticks w) in
      tick (set_trash (bin_it m (Trashed now (now + LOCAL_TRASH_RETENTION_MS)) :: drop_id id (spec_trash w)) (set_docs (drop_id id l) w))
  end.

Definition spec_restore (id : jstring) (w : workspace) : workspace * option DocumentMeta :=
  match lookup_id id (spec_trash w) with
  | None => (w, None)
  | Some m =>
      let m := Meta (m_id m) (m_title m) (m_chars m) (m_created m) (clock (ticks w)) Recovered in
      let '(w, l) := spec_load (tick (set_trash (drop_id id (spec_trash w)) w)) in
      (set_docs (m :: drop_id id l) w, Some m)
  end.

(** [inr tt]: refused, the retention has not elapsed. *)
Definition spec_purge (id : jstring) (w : workspace) : workspace * (unit + unit) :=
  match lookup_id id (spec_trash w) with
  | None => (w, inl tt)
  | Some m =>
      match m_bin m with
      | Trashed _ p =>
          if clock (ticks w) <? p then (tick w, inr tt)
          else
            let w := tick (set_trash (drop_id id (spec_trash w)) w) in
            (Workspace (docs w) (trash w) (delete id (texts w)) (ticks w) (draws w), inl tt)
      | _ => (tick w, inr tt)
      end
  end.
End Spec.

(** ** Encoded lists *)

Definition safe (z : Z) : Prop := isSafeInteger z = true.
Definition valid (m : DocumentMeta) : Prop :=
  Forall is_unit (m_id m) /\ Forall is_unit (m_title m) /\ safe (m_chars m) /\ safe (m_created m) /\ safe (m_updated m) /\
  match m_bin m with Trashed d p => safe d /\ safe p | _ => True end.

Lemma plain_encode m : valid m -> plain (encode m).
Proof.
  intros (Hi & Ht & Hc & Hcr & Hu & Hb). apply plain_object. split.
  - destruct m as [? ? ? ? ? []]; (apply (bool_decide_eq_true_1 (NoDup _)); vm_compute; reflexivity).
  - assert (forall s : string, Forall is_unit (lit s)) as L by apply lit_units.
    destruct m as [? ? ? ? ? []]; cbn in Hi, Ht, Hc, Hcr, Hu, Hb;
      repeat (apply Forall_cons; split; [split; [apply L | first [done | apply L | apply Hb]] |]); apply Forall_nil; done.
Qed.

Lemma settled_encode m : settled (encode m) = encode m.
Proof. by destruct m as [? ? ? ? ? []]. Qed.

Lemma read_list double_text l : Forall valid l ->
  JSON_parse (stringify_list double_text (map encode l)) = Some (VArr (map encode l)).
Proof.
  intros Hl. unfold stringify_list.
  rewrite (parse_stringify double_text (VArr (map encode l))).
  - cbn [settled]. do 2 f_equal. rewrite map_map. apply map_ext. intros m. cbn [undefined encode]. apply settled_encode.
  - apply plain_array, Forall_map, (Forall_impl _ _ _ Hl). intros m. apply plain_encode.
  - reflexivity.
Qed.

Fixpoint find_index (id : jstring) (l : list DocumentMeta) : option nat :=
  match l with [] => None | m :: r => if same_id id m then Some O else option_map Datatypes.S (find_index id r) end.

Lemma field_id m : field (encode m) "id" = VStr (m_id m).
Proof. reflexivity. Qed.
Lemma property_encode m k : property (encode m) k = Ok (field (encode m) k).
Proof. reflexivity. Qed.

Lemma find_id_encode id l : find_id id (map encode l) = Ok (find_index id l).
Proof.
  induction l as [|m l IH]; [done |]. cbn [map find_id find_index]. rewrite property_encode, field_id. cbn [mbind res_bind].
  unfold same_id. destruct (str_eqb (m_id m) id); [done |]. by rewrite IH.
Qed.

Lemma has_id_encode id m : has_id id (encode m) = same_id id m.
Proof. unfold has_id. by rewrite field_id. Qed.

Lemma without_id_encode id l : without_id id (map encode l) = Ok (map encode (drop_id id l)).
Proof.
  induction l as [|m l IH]; [done |]. cbn [map without_id]. rewrite property_encode, IH. cbn [mbind res_bind].
  unfold drop_id. cbn [List.filter]. rewrite has_id_encode. by destruct (same_id id m).
Qed.

Lemma find_index_lookup id l : find_index id l ≫= (l !!.) = lookup_id id l.
Proof.
  induction l as [|m l IH]; [done |]. unfold lookup_id in *. cbn [find_index List.find]. destruct (same_id id m); [done |].
  rewrite <- IH. by destruct (find_index id l).
Qed.

Lemma find_index_encode id l : find_index id l ≫= (map encode l !!.) = encode <$> lookup_id id l.
Proof.
  rewrite <- find_index_lookup. destruct (find_index id l) as [i|]; [|done]. cbn. apply list_lookup_fmap.
Qed.

Lemma update_index id f g l i : (forall m, g (encode m) = encode (f m)) -> find_index id l = Some i ->
  alter g i (map encode l) = map encode (update_id id f l) /\
  map encode (update_id id f l) !! i = (fun m => encode (f m)) <$> lookup_id id l.
Proof.
  intros Hg. revert i. induction l as [|m l IH]; [done |]. unfold lookup_id in *. cbn [find_index update_id List.find].
  intros i. destruct (same_id id m).
  - intros [= <-]. cbn. by rewrite Hg.
  - destruct (find_index id l) as [j|] eqn:E; [|done]. cbn [option_map]. intros [= <-].
    destruct (IH j eq_refl) as [E1 E2]. split; [cbn; by rewrite <- E1 | exact E2].
Qed.

Lemma lookup_id_index id l : match find_index id l with Some _ => exists m, lookup_id id l = Some m | None => lookup_id id l = None end.
Proof.
  induction l as [|m l IH]; [done |]. unfold lookup_id in *. cbn. destruct (same_id id m); [by eexists |].
  by destruct (find_index id l).
Qed.

(** Sorting encoded entries is sorting them. *)
Lemma sort_encode (cmp : jsval -> jsval -> Z) (c : DocumentMeta -> DocumentMeta -> Z) l :
  (forall a b, cmp (encode a) (encode b) = c a b) ->
  sort_values cmp (map encode l) = Ok (map encode (sort_stable c l)).
Proof.
  intros H. unfold sort_values.
  assert (existsb is_nullish (map encode l) = false) as ->.
  { clear. induction l as [|m l IH]; [done | exact IH]. }
  rewrite andb_false_r. f_equal. unfold sort_stable. induction l as [|m l IH]; [done |]. cbn [map foldr]. rewrite IH.
  generalize (foldr (insert_stable c) [] l). clear - H. intros k. induction k as [|x k IH]; [done |]. cbn [map insert_stable].
  rewrite H. destruct (c m x <=? 0); [done |]. cbn [map]. by f_equal.
Qed.

Lemma insert_stable_perm {A} (c : A -> A -> Z) x l : insert_stable c x l ≡ₚ x :: l.
Proof.
  induction l as [|y l IH]; [done |]. cbn. destruct (c x y <=? 0); [done |]. rewrite IH. by rewrite Permutation_swap.
Qed.
Lemma sort_stable_perm {A} (c : A -> A -> Z) l : sort_stable c l ≡ₚ l.
Proof. induction l as [|x l IH]; [done |]. cbn. by rewrite insert_stable_perm, IH. Qed.

Lemma Forall_sorted {A} (P : A -> Prop) c l : Forall P l -> Forall P (sort_stable c l).
Proof. by rewrite sort_stable_perm. Qed.
Lemma Forall_drop_id P id l : Forall P l -> Forall P (drop_id id l).
Proof. intros H. apply Forall_forall. intros m Hm%list_elem_of_In%filter_In. rewrite Forall_forall in H. apply H, list_elem_of_In. tauto. Qed.
Lemma lookup_id_Some id l m : lookup_id id l = Some m -> m ∈ l /\ m_id m = id.
Proof. intros [Hin Hid]%find_some. split; [by apply list_elem_of_In | by apply str_eqb_eq]. Qed.
Lemma Forall_update_id (P : DocumentMeta -> Prop) id f l : Forall P l -> (forall m, P m -> P (f m)) -> Forall P (update_id id f l).
Proof.
  intros H Hf. induction H as [|m l Hm H IH]; [constructor |]. cbn. destruct (same_id id m); constructor; auto.
Qed.

(** ** The operations against the catalogue *)

(** A string of the platform. *)
Definition is_text (t : jstring) : Prop := Forall is_unit t /\ len t < 2 ^ 52.

Section Refinement.
Context {S : Type} {HS : Storage S} {HW : WorkingStorage S}.
Context (clock : Z -> Z) (uuid : Z -> jstring) (difference : jsval -> jsval -> Z) (double_text : Z -> jstring).
Context (templates : list DocumentTemplate) (ABOUT_DOCUMENT LAUNCH_DOCUMENT FIELD_GUIDE_DOCUMENT : jstring).
(** Times are safe integers with room for the retention, identities and the
    built-in texts are strings, lengths are those of the platform. *)
Context (Hclock : forall t, 0 <= clock t < 2 ^ 52) (Huuid : forall n, Forall is_unit (uuid n))
  (Habout : is_text ABOUT_DOCUMENT)
  (Htemplates : Forall (fun t => Forall is_unit (tpl_name t) /\ is_text (tpl_content t)) templates).

Implicit Types (p : page S) (w : workspace).

Definition holds p w : Prop :=
  times p = ticks w /\ ids p = draws w /\
  contents (store p) !! WORKSPACE_KEY = Some (stringify_list double_text (map encode (docs w))) /\
  default (lit "[]") (contents (store p) !! TRASH_KEY) = stringify_list double_text (map encode (trash w)) /\
  (forall id, contents (store p) !! textKey id = texts w !! id) /\
  Forall valid (docs w) /\ Forall valid (trash w) /\ (forall id t, texts w !! id = Some t -> is_text t).

Lemma se_bind_ok {A B} (m : SE (page S) A) (f : A -> SE (page S) B) p p' a :
  m p = (p', Ok a) -> (m ≫= f) p = f a p'.
Proof. intros E. unfold mbind, SE_bind. by rewrite E. Qed.

Lemma se_lift_ok {A B} (a : A) (f : A -> SE (page S) B) p : (se_lift (Ok a) ≫= f) p = f a p.
Proof. reflexivity. Qed.

Lemma stored_get k p : stored (getItem k) p = (p, Ok (contents (store p) !! k)).
Proof. unfold stored, zoom. rewrite getItem_works. by destruct p. Qed.

Lemma stored_set k v p : exists p', stored (setItem k v) p = (p', Ok tt) /\
  contents (store p') = <[k := v]> (contents (store p)) /\ times p' = times p /\ ids p' = ids p.
Proof.
  unfold stored, zoom. destruct (setItem_works k v (store p)) as (s' & E & Ec). rewrite E. by eexists.
Qed.

Lemma stored_remove k p : exists p', stored (removeItem k) p = (p', Ok tt) /\
  contents (store p') = delete k (contents (store p)) /\ times p' = times p /\ ids p' = ids p.
Proof.
  unfold stored, zoom. destruct (removeItem_works k (store p)) as (s' & E & Ec). rewrite E. by eexists.
Qed.

(** The keys of the texts are none of the others. *)
Lemma text_key_other id k : k = WORKSPACE_KEY \/ k = TRASH_KEY \/ k = WORKSPACE_READY_KEY -> textKey id <> k.
Proof. unfold textKey, TEXT_PREFIX. by intros [-> | [-> | ->]]. Qed.

Lemma text_key_inj a b : textKey a = textKey b -> a = b.
Proof. apply app_inv_head. Qed.

Lemma save_documents p w l : holds p w -> Forall valid l ->
  exists p', saveDocuments double_text (map encode l) p = (p', Ok tt) /\ holds p' (set_docs l w).
Proof.
  intros (Ht & Hi & Hd & Hb & Hx & Vd & Vt & Hlen) Hl. unfold saveDocuments.
  destruct (stored_set WORKSPACE_KEY (stringify_list double_text (map encode l)) p) as (p1 & E1 & C1 & T1 & I1).
  rewrite (se_bind_ok _ _ _ _ _ E1).
  destruct (stored_set WORKSPACE_READY_KEY (lit "1") p1) as (p2 & E2 & C2 & T2 & I2).
  rewrite (se_bind_ok _ _ _ _ _ E2). eexists. split; [reflexivity |]. unfold holds. cbn [times ids store ticks draws docs trash texts set_docs].
  rewrite C2, C1. split_and!; try congruence; try done.
  - rewrite lookup_insert_ne by done. by rewrite lookup_insert_eq.
  - by rewrite !lookup_insert_ne by done.
  - intros id. rewrite !lookup_insert_ne by (symmetry; apply text_key_other; tauto). apply Hx.
Qed.

Lemma save_trash p w l : holds p w -> Forall valid l ->
  exists p', saveTrash double_text (map encode l) p = (p', Ok tt) /\ holds p' (set_trash l w).
Proof.
  intros (Ht & Hi & Hd & Hb & Hx & Vd & Vt & Hlen) Hl. unfold saveTrash.
  destruct (stored_set TRASH_KEY (stringify_list double_text (map encode l)) p) as (p1 & E1 & C1 & T1 & I1).
  rewrite (se_bind_ok _ _ _ _ _ E1). eexists. split; [reflexivity |]. unfold holds. cbn [times ids store ticks draws docs trash texts set_trash].
  rewrite C1. split_and!; try congruence; try done.
  - by rewrite lookup_insert_ne by done.
  - by rewrite lookup_insert_eq.
  - intros id. rewrite !lookup_insert_ne by (symmetry; apply text_key_other; tauto). apply Hx.
Qed.

Lemma save_text p w id t : holds p w -> is_text t ->
  exists p', stored (setItem (textKey id) t) p = (p', Ok tt) /\ holds p' (set_text id t w).
Proof.
  intros (Ht & Hi & Hd & Hb & Hx & Vd & Vt & Hlen) Hlt. destruct (stored_set (textKey id) t p) as (p1 & E1 & C1 & T1 & I1).
  exists p1. split; [done |]. unfold holds. cbn [ticks draws docs trash texts set_text]. rewrite C1.
  split_and!; try congruence; try done.
  - rewrite lookup_insert_ne by (apply text_key_other; tauto). done.
  - rewrite lookup_insert_ne by (apply text_key_other; tauto). done.
  - intros id'. destruct (decide (id = id')) as [->|Hne]; [by rewrite !lookup_insert_eq |].
    rewrite !lookup_insert_ne by (done || (intros E%text_key_inj; done)). apply Hx.
  - intros id' t' [[_ <-] | [_ H]]%lookup_insert_Some; [done | by eapply Hlen].
Qed.

Lemma remove_text p w id : holds p w ->
  exists p', stored (removeItem (textKey id)) p = (p', Ok tt) /\
    holds p' (Workspace (docs w) (trash w) (delete id (texts w)) (ticks w) (draws w)).
Proof.
  intros (Ht & Hi & Hd & Hb & Hx & Vd & Vt & Hlen). destruct (stored_remove (textKey id) p) as (p1 & E1 & C1 & T1 & I1).
  exists p1. split; [done |]. unfold holds. cbn [ticks draws docs trash texts]. rewrite C1.
  split_and!; try congruence; try done.
  - rewrite lookup_delete_ne by (apply text_key_other; tauto). done.
  - rewrite lookup_delete_ne by (apply text_key_other; tauto). done.
  - intros id'. destruct (decide (id = id')) as [->|Hne]; [by rewrite !lookup_delete_eq |].
    rewrite !lookup_delete_ne by (done || (intros E%text_key_inj; done)). apply Hx.
  - intros id' t' [_ H]%lookup_delete_Some. by eapply Hlen.
Qed.

Lemma read_clock p w : holds p w -> exists p', Date_now clock p = (p', Ok (clock (ticks w))) /\ holds p' (tick w).
Proof.
  intros (Ht & Hi & H). exists (Page (store p) (times p + 1) (ids p) (changes p)).
  split; [unfold Date_now; by rewrite Ht |]. split; [cbn; by rewrite Ht | done].
Qed.

Lemma clock_safe t k : 0 <= k < 2 ^ 52 -> safe (clock t + k).
Proof.
  intros Hk. unfold safe. apply isSafeInteger_spec. pose proof (Hclock t). unfold MAX_SAFE_INTEGER. cbn in *. lia.
Qed.
Lemma now_safe t : safe (clock t).
Proof. rewrite <- (Z.add_0_r (clock t)). by apply clock_safe. Qed.
Lemma length_safe (l : jstring) : is_text l -> safe (len l).
Proof. intros [_ H]. pose proof (len_nonneg l). apply isSafeInteger_spec. unfold MAX_SAFE_INTEGER. cbn in *. lia. Qed.

Lemma valid_about c u : safe c -> safe u -> valid (Meta ABOUT_DOCUMENT_ID ABOUT_DOCUMENT_TITLE (len ABOUT_DOCUMENT) c u Fresh).
Proof. intros. split_and!; try done; [apply lit_units | apply lit_units | by apply length_safe]. Qed.

Lemma valid_refresh m : valid m -> valid (refresh ABOUT_DOCUMENT m).
Proof.
  intros H. unfold refresh. destruct (same_id ABOUT_DOCUMENT_ID m); [|done]. destruct H as (? & ? & ? & ? & ? & ?).
  split_and!; try done; [apply lit_units | by apply length_safe].
Qed.

Lemma about_current_encode m :
  about_current ABOUT_DOCUMENT (encode m) = str_eqb (m_title m) ABOUT_DOCUMENT_TITLE && (m_chars m =? len ABOUT_DOCUMENT).
Proof. reflexivity. Qed.

Lemma update_about_encode l :
  update_about ABOUT_DOCUMENT (map encode l) = Ok (map encode (map (refresh ABOUT_DOCUMENT) l)).
Proof.
  induction l as [|m l IH]; [done |]. cbn [map update_about]. rewrite property_encode, IH. cbn [mbind res_bind].
  rewrite has_id_encode. unfold refresh. do 2 f_equal. destruct (same_id ABOUT_DOCUMENT_ID m); [|done]. by destruct m as [? ? ? ? ? []].
Qed.

Lemma ensure_about p w : holds p w ->
  let '(l, t) := spec_ensure clock ABOUT_DOCUMENT (docs w) (ticks w) in
  exists p', ensureAboutDocument clock double_text ABOUT_DOCUMENT (map encode (docs w)) p = (p', Ok (map encode l)) /\
    holds p' (Workspace l (trash w) (<[ABOUT_DOCUMENT_ID := ABOUT_DOCUMENT]> (texts w)) t (draws w)) /\ Forall valid l.
Proof.
  intros Hp. unfold spec_ensure, ensureAboutDocument, seedAboutDocumentText.
  assert (Forall valid (docs w)) as Hv by apply Hp.
  destruct (save_text p w ABOUT_DOCUMENT_ID ABOUT_DOCUMENT Hp Habout) as (p1 & E1 & H1). rewrite (se_bind_ok _ _ _ _ _ E1).
  rewrite find_id_encode, se_lift_ok.
  pose proof (lookup_id_index ABOUT_DOCUMENT_ID (docs w)) as Hix. pose proof (find_index_encode ABOUT_DOCUMENT_ID (docs w)) as Hfe.
  destruct (find_index ABOUT_DOCUMENT_ID (docs w)) as [i|].
  - destruct Hix as [m Em]. rewrite Em in Hfe |- *. cbn [mbind option_bind fmap option_fmap option_map] in Hfe. rewrite Hfe.
    change (default VUndef _) with (encode m). rewrite about_current_encode. destruct (_ && _); [by eexists |].
    rewrite update_about_encode, se_lift_ok.
    destruct (save_documents p1 _ (map (refresh ABOUT_DOCUMENT) (docs w)) H1) as (p2 & E2 & H2).
    { apply Forall_map, (Forall_impl _ _ _ Hv), valid_refresh. }
    rewrite (se_bind_ok _ _ _ _ _ E2). eexists. split; [reflexivity |]. split; [exact H2 |].
    apply Forall_map, (Forall_impl _ _ _ Hv), valid_refresh.
  - rewrite Hix. destruct (read_clock p1 _ H1) as (p2 & E2 & H2). rewrite (se_bind_ok _ _ _ _ _ E2). cbn [ticks set_text].
    set (m := Meta _ _ _ _ _ _).
    assert (Forall valid (m :: docs w)) as Hvm by (apply Forall_cons; split; [apply valid_about; apply now_safe | done]).
    change (meta_value _ _ _ _ _ :: map encode (docs w)) with (map encode (m :: docs w)).
    destruct (save_documents p2 _ (m :: docs w) H2 Hvm) as (p3 & E3 & H3). rewrite (se_bind_ok _ _ _ _ _ E3).
    eexists. split; [reflexivity |]. by split.
Qed.

Lemma load_documents p w : holds p w ->
  let '(w', l) := spec_load clock ABOUT_DOCUMENT w in
  exists p', loadLocalDocuments clock difference double_text ABOUT_DOCUMENT LAUNCH_DOCUMENT FIELD_GUIDE_DOCUMENT p = (p', Ok (map encode l)) /\
    holds p' w' /\ Forall valid l.
Proof.
  intros Hp. pose proof Hp as (_ & _ & Hd & _ & _ & Vd & _ & _). unfold spec_load, loadLocalDocuments.
  rewrite (se_bind_ok _ _ _ _ _ (stored_get _ _)), Hd.
  assert (exists u r, stringify_list double_text (map encode (docs w)) = u :: r) as (u & r & Es) by by eexists _, _.
  rewrite Es. change (truthy_text (Some (u :: r))) with true. cbv iota zeta. change (default [] (Some (u :: r))) with (u :: r).
  rewrite <- Es, read_list by done.
  pose proof (ensure_about p w Hp) as He. destruct (spec_ensure clock ABOUT_DOCUMENT (docs w) (ticks w)) as [l t].
  destruct He as (p1 & E1 & H1 & Vl). exists p1.
  assert (sort_values (newest_first difference) (map encode l) = Ok (map encode (sort_stable by_updated l))) as Hsort
    by (apply sort_encode; reflexivity).
  split; [|split; [done | by apply Forall_sorted]]. unfold se_catch, mbind, SE_bind. rewrite E1. unfold se_lift. by rewrite Hsort.
Qed.

Lemma load_trash p w : holds p w -> exists p', loadLocalTrash difference p = (p', Ok (map encode (spec_trash w))) /\ holds p' w.
Proof.
  intros Hp. pose proof Hp as (_ & _ & _ & Hb & _ & _ & Vt & _). exists p. split; [|done]. unfold loadLocalTrash, se_catch.
  rewrite (se_bind_ok _ _ _ _ _ (stored_get _ _)), Hb, read_list by done. unfold se_lift, spec_trash.
  rewrite (sort_encode _ by_deletion); [done |]. intros a b. by destruct a as [? ? ? ? ? []], b as [? ? ? ? ? []].
Qed.

(** *** Titles are made of the units they come from *)

Lemma slice_Forall (P : Z -> Prop) (s : jstring) a b : Forall P s -> Forall P (slice s a b).
Proof. intros H. unfold slice. by apply Forall_take, Forall_drop. Qed.
Lemma Forall_trimStart (P : Z -> Prop) s : Forall P s -> Forall P (trimStart s).
Proof. induction 1 as [|u s Hu Hs IH]; [constructor |]. cbn. destruct (white u); [done | by constructor]. Qed.
Lemma Forall_trim (P : Z -> Prop) s : Forall P s -> Forall P (trim s).
Proof. intros H. unfold trim, trimEnd. by apply Forall_rev, Forall_trimStart, Forall_rev, Forall_trimStart. Qed.

Lemma deriveTitle_units markdown fallback :
  Forall is_unit markdown -> Forall is_unit fallback -> Forall is_unit (deriveTitle markdown fallback).
Proof.
  intros Hm Hf. unfold deriveTitle. destruct (List.find _ _) as [[h|]|] eqn:E; [|done..].
  assert (Forall is_unit h) as Hh.
  { apply find_some in E as [Hin _]. apply in_map_iff in Hin as (line & Eh & Hline%list_elem_of_In).
    assert (Forall is_unit line) as Hl.
    { apply Forall_forall. intros u Hu. rewrite Forall_forall in Hm. apply Hm. rewrite <- (join_split_on 10 markdown).
      revert Hline. generalize (split_on 10 markdown). clear - Hu. induction l as [|x l IH]; intros Hline; [by apply not_elem_of_nil in Hline |].
      destruct l as [|y l]; [by apply list_elem_of_singleton in Hline as <- |].
      rewrite join_cons by done. rewrite !elem_of_app. apply elem_of_cons in Hline as [<- | Hl]; [by left |]. right. right. by apply IH. }
    unfold heading_of in Eh. destruct (exec line TITLE_LINE) as [[[? ?] c]|]; [|done]. cbn [mbind option_bind] in Eh.
    destruct (capture c 1) as [[a b]|]; [|done]. cbn in Eh. injection Eh as <-. unfold units. by apply Forall_trim, Forall_take, Forall_drop. }
  destruct (slice h 0 90) eqn:Es; [done |]. rewrite <- Es. by apply slice_Forall.
Qed.

Definition draft_ok (d : LocalDocumentDraft) : Prop :=
  (forall t, title d = Some t -> Forall is_unit t) /\ (forall c, content d = Some c -> is_text c).

Lemma materialize_ok d : draft_ok d ->
  let m := materializeDocumentDraft templates d in
  (forall t, md_title m = Some t -> Forall is_unit t) /\ is_text (md_content m).
Proof.
  intros [Ht Hc]. cbv zeta. unfold materializeDocumentDraft.
  set (template := match templateId d with Some t => List.find _ templates | None => None end).
  assert (forall t, template = Some t -> Forall is_unit (tpl_name t) /\ is_text (tpl_content t)) as Htpl.
  { intros t E. unfold template in E. destruct (templateId d); [|done]. apply find_some in E as [Hin _].
    rewrite Forall_forall in Htemplates. apply Htemplates. by apply list_elem_of_In. }
  clearbody template. cbn [md_title md_content].
  set (c := match content d with Some c => c | None => _ end).
  assert (is_text c) as Hcu.
  { unfold c. destruct (content d) as [x|]; [by apply Hc |]. destruct template as [t|]; [by apply Htpl |]. by split. }
  split; [|done]. intros t. destruct (title d) as [x|]; cbn [fmap option_fmap option_map].
  - pose proof (Forall_trim is_unit x (Ht x eq_refl)) as Hx. destruct (trim x) as [|u r]; [|by intros [= <-]].
    destruct template as [tp|]; [|done]. intros [= <-]. apply deriveTitle_units; [apply Hcu | by apply Htpl].
  - destruct template as [tp|]; [|done]. intros [= <-]. apply deriveTitle_units; [apply Hcu | by apply Htpl].
Qed.

(** *** Each operation *)

Ltac next H p E K := destruct H as (p & E & K); rewrite (se_bind_ok _ _ _ _ _ E).

Lemma write_refines p w id markdown : holds p w -> is_text markdown ->
  exists p', writeLocalDocumentText clock difference double_text ABOUT_DOCUMENT LAUNCH_DOCUMENT FIELD_GUIDE_DOCUMENT id markdown p = (p', Ok tt) /\
    holds p' (spec_write clock ABOUT_DOCUMENT id markdown w).
Proof.
  intros Hp Hl. unfold writeLocalDocumentText, spec_write. next (save_text p w id markdown Hp Hl) p1 E1 H1.
  pose proof (load_documents p1 _ H1) as Hload. destruct (spec_load _ _ _) as [w2 l].
  destruct Hload as (p2 & E2 & H2 & Vl). rewrite (se_bind_ok _ _ _ _ _ E2), find_id_encode, se_lift_ok.
  pose proof (lookup_id_index id l) as Hix. destruct (find_index id l) as [k|] eqn:Ek; [|rewrite Hix; by eexists].
  destruct Hix as [m Em]. rewrite Em. next (read_clock p2 _ H2) p3 E3 H3.
  destruct (update_index id (fun m => Meta (m_id m) (m_title m) (len markdown) (m_created m) (clock (ticks w2)) (m_bin m))
    (fun current => spread_with current [("chars"%string, VNum (NInt (len markdown))); ("updated_at"%string, VNum (NInt (clock (ticks w2))))]) l k) as [-> _];
    [by intros [? ? ? ? ? []] | done |].
  apply (save_documents p3 (tick w2)); [done |]. apply Forall_update_id; [done |].
  intros m' (? & ? & ? & ? & ? & ?). split_and!; try done; [by apply length_safe | apply now_safe].
Qed.

Lemma create_refines p w d : holds p w -> draft_ok d ->
  let '(w', m) := spec_create clock uuid templates ABOUT_DOCUMENT d w in
  exists p', createLocalDocument clock uuid difference double_text templates ABOUT_DOCUMENT LAUNCH_DOCUMENT FIELD_GUIDE_DOCUMENT d p = (p', Ok (encode m)) /\
    holds p' w'.
Proof.
  intros Hp Hd. unfold createLocalDocument, spec_create. destruct (materialize_ok d Hd) as (Mt & Ml).
  set (md := materializeDocumentDraft templates d) in *. next (read_clock p w Hp) p1 E1 H1.
  set (id := lit "local-" ++ uuid (draws w)). set (m := Meta id _ _ _ _ _).
  assert (exists p2, randomUUID uuid p1 = (p2, Ok (uuid (draws w))) /\
    holds p2 (Workspace (docs w) (trash w) (texts w) (ticks w + 1) (draws w + 1))) as H2'.
  { pose proof H1 as (Ht & Hi & H). exists (Page (store p1) (times p1) (ids p1 + 1) (changes p1)).
    split; [unfold randomUUID; by rewrite Hi |]. split; [exact Ht |]. split; [cbn; by rewrite Hi | exact H]. }
  next H2' p2 E2 H2. fold id. next (save_text p2 _ id (md_content md) H2 Ml) p3 E3 H3.
  pose proof (load_documents p3 _ H3) as Hload. unfold set_text in Hload at 1. cbn [docs trash texts ticks draws] in Hload. cbn [m_id m].
  destruct (spec_load _ _ _) as [w4 l]. destruct Hload as (p4 & E4 & H4 & Vl). rewrite (se_bind_ok _ _ _ _ _ E4).
  assert (valid m) as Vm.
  { split_and!; cbn [m_id m_title m_chars m_created m_updated m_bin m]; try apply now_safe; try done.
    - apply Forall_app. split; [apply lit_units | apply Huuid].
    - destruct (md_title md) as [t|]; [by apply Mt |]. apply deriveTitle_units; [apply Ml | apply lit_units].
    - by apply length_safe. }
  change (meta_value _ _ _ _ _ :: map encode l) with (map encode (m :: l)).
  next (save_documents p4 w4 (m :: l) H4 ltac:(by apply Forall_cons)) p5 E5 H5. by eexists.
Qed.

Lemma rename_refines p w id title : holds p w -> Forall is_unit title ->
  let '(w', r) := spec_rename clock ABOUT_DOCUMENT id title w in
  exists p', renameLocalDocument clock difference double_text ABOUT_DOCUMENT LAUNCH_DOCUMENT FIELD_GUIDE_DOCUMENT id title p = (p', Ok (encode <$> r)) /\ holds p' w'.
Proof.
  intros Hp Ht. unfold renameLocalDocument, spec_rename. pose proof (Forall_trim is_unit title Ht) as Hu.
  destruct (trim title) as [|u r]; [by eexists |].
  pose proof (load_documents p w Hp) as Hload. destruct (spec_load _ _ _) as [w1 l].
  destruct Hload as (p1 & E1 & H1 & Vl). rewrite (se_bind_ok _ _ _ _ _ E1), find_id_encode, se_lift_ok.
  pose proof (lookup_id_index id l) as Hix. destruct (find_index id l) as [k|] eqn:Ek; [|rewrite Hix; by eexists].
  destruct Hix as [m Em]. rewrite Em. next (read_clock p1 _ H1) p2 E2 H2.
  set (f := fun m => Meta (m_id m) (u :: r) (m_chars m) (m_created m) (clock (ticks w1)) (m_bin m)).
  destruct (update_index id f (fun d => spread_with d [("title"%string, VStr (u :: r)); ("updated_at"%string, VNum (NInt (clock (ticks w1))))]) l k) as [-> Eat];
    [by intros [? ? ? ? ? []] | done |]. rewrite Em in Eat.
  assert (Forall valid (update_id id f l)) as Vu.
  { apply Forall_update_id; [done |]. intros m' (? & ? & ? & ? & ? & ?). split_and!; try done. apply now_safe. }
  next (save_documents p2 (tick w1) _ H2 Vu) p3 E3 H3. eexists. split; [|exact H3]. by rewrite Eat.
Qed.

Lemma valid_binned m b : valid m -> match b with Trashed d p => safe d /\ safe p | _ => True end -> valid (bin_it m b).
Proof. intros (? & ? & ? & ? & ? & ?) Hb. by split_and!. Qed.

Lemma delete_refines p w id : holds p w ->
  exists p', deleteLocalDocument clock difference double_text ABOUT_DOCUMENT LAUNCH_DOCUMENT FIELD_GUIDE_DOCUMENT id p = (p', Ok tt) /\
    holds p' (spec_delete clock ABOUT_DOCUMENT id w).
Proof.
  intros Hp. unfold deleteLocalDocument, spec_delete. pose proof (load_documents p w Hp) as Hload. destruct (spec_load _ _ _) as [w1 l].
  destruct Hload as (p1 & E1 & H1 & Vl). rewrite (se_bind_ok _ _ _ _ _ E1), find_id_encode, se_lift_ok, find_index_encode.
  destruct (lookup_id id l) as [m|] eqn:Em; cbn [fmap option_fmap option_map]; [|by eexists].
  next (read_clock p1 _ H1) p2 E2 H2. rewrite without_id_encode, se_lift_ok. set (now := clock (ticks w1)).
  next (save_documents p2 (tick w1) _ H2 (Forall_drop_id _ id l Vl)) p3 E3 H3.
  next (load_trash p3 _ H3) p4 E4 H4. rewrite without_id_encode, se_lift_ok.
  set (b := Trashed now (now + LOCAL_TRASH_RETENTION_MS)).
  change (spec_trash (set_docs (drop_id id l) (tick w1))) with (spec_trash w1).
  replace (spread_with (encode m) _) with (encode (bin_it m b)) by by destruct m as [? ? ? ? ? []].
  change (encode (bin_it m b) :: map encode (drop_id id (spec_trash w1))) with (map encode (bin_it m b :: drop_id id (spec_trash w1))).
  apply (save_trash p4 (set_docs (drop_id id l) (tick w1))); [done |]. apply Forall_cons. split.
  - apply valid_binned; [|split; [apply now_safe | by apply clock_safe]].
    apply lookup_id_Some in Em as [Hin _]. rewrite Forall_forall in Vl. by apply Vl.
  - apply Forall_drop_id, Forall_sorted. apply H1.
Qed.

Lemma restore_refines p w id : holds p w ->
  let '(w', r) := spec_restore clock ABOUT_DOCUMENT id w in
  exists p', restoreLocalDocument clock difference double_text ABOUT_DOCUMENT LAUNCH_DOCUMENT FIELD_GUIDE_DOCUMENT id p = (p', Ok (encode <$> r)) /\ holds p' w'.
Proof.
  intros Hp. unfold restoreLocalDocument, spec_restore. next (load_trash p w Hp) p1 E1 H1.
  rewrite find_id_encode, se_lift_ok, find_index_encode.
  destruct (lookup_id id (spec_trash w)) as [m|] eqn:Em; cbn [fmap option_fmap option_map]; [|by eexists].
  assert (Forall valid (spec_trash w)) as Vt by (apply Forall_sorted; apply H1).
  next (read_clock p1 _ H1) p2 E2 H2. rewrite without_id_encode, se_lift_ok.
  next (save_trash p2 (tick w) _ H2 (Forall_drop_id _ id _ Vt)) p3 E3 H3.
  change (set_trash (drop_id id (spec_trash w)) (tick w)) with (tick (set_trash (drop_id id (spec_trash w)) w)) in H3.
  pose proof (load_documents p3 _ H3) as Hload. destruct (spec_load _ _ _) as [w4 l].
  destruct Hload as (p4 & E4 & H4 & Vl). rewrite (se_bind_ok _ _ _ _ _ E4), without_id_encode, se_lift_ok.
  set (m' := Meta (m_id m) (m_title m) (m_chars m) (m_created m) (clock (ticks w)) Recovered).
  replace (spread_with (encode m) _) with (encode m') by by destruct m as [? ? ? ? ? []].
  change (encode m' :: map encode (drop_id id l)) with (map encode (m' :: drop_id id l)).
  assert (valid m') as Vm.
  { apply lookup_id_Some in Em as [Hin _]. rewrite Forall_forall in Vt. destruct (Vt m Hin) as (? & ? & ? & ? & ? & ?).
    split_and!; try done. apply now_safe. }
  next (save_documents p4 w4 (m' :: drop_id id l) H4 ltac:(apply Forall_cons; split; [done | by apply Forall_drop_id])) p5 E5 H5. by eexists.
Qed.

Lemma purge_refines p w id : holds p w ->
  let '(w', r) := spec_purge clock id w in
  exists p', purgeLocalDocument clock difference double_text id p =
    (p', match r with inl _ => Ok tt | inr _ => plain_error "local trash retention has not elapsed" end) /\ holds p' w'.
Proof.
  intros Hp. unfold purgeLocalDocument, spec_purge. next (load_trash p w Hp) p1 E1 H1.
  rewrite find_id_encode, se_lift_ok, find_index_encode.
  destruct (lookup_id id (spec_trash w)) as [m|] eqn:Em; cbn [fmap option_fmap option_map]; [|by eexists].
  next (read_clock p1 _ H1) p2 E2 H2. destruct (m_bin m) as [|d due|] eqn:Eb.
  - replace (field (encode m) "purge_at") with VUndef by (destruct m as [? ? ? ? ? []]; done). by eexists.
  - replace (field (encode m) "purge_at") with (VNum (NInt due)) by (destruct m as [? ? ? ? ? []]; cbn in Eb; try done; by injection Eb as -> ->).
    cbn [is_nullish minus orb]. replace (0 <? due - clock (ticks w)) with (clock (ticks w) <? due)
      by (destruct (Z.ltb_spec (clock (ticks w)) due), (Z.ltb_spec 0 (due - clock (ticks w))); lia || done).
    destruct (_ <? _); [by eexists |]. rewrite without_id_encode, se_lift_ok.
    assert (Forall valid (spec_trash w)) as Vt by (apply Forall_sorted; apply H1).
    next (save_trash p2 (tick w) _ H2 (Forall_drop_id _ id _ Vt)) p3 E3 H3.
    apply (remove_text p3 _ id H3).
  - replace (field (encode m) "purge_at") with VNull by (destruct m as [? ? ? ? ? []]; done). by eexists.
Qed.

Lemma duplicate_refines p w id markdown : holds p w -> (forall t, markdown = Some t -> is_text t) ->
  let '(w', r) := spec_duplicate clock uuid templates ABOUT_DOCUMENT id markdown w in
  exists p', duplicateLocalDocument clock uuid difference double_text templates ABOUT_DOCUMENT LAUNCH_DOCUMENT FIELD_GUIDE_DOCUMENT id markdown p = (p', Ok (encode <$> r)) /\ holds p' w'.
Proof.
  intros Hp Hm. unfold duplicateLocalDocument, getLocalDocument, spec_duplicate.
  pose proof (load_documents p w Hp) as Hload. destruct (spec_load _ _ _) as [w1 l]. destruct Hload as (p1 & E1 & H1 & Vl).
  match goal with |- context [(?m ≫= ?f) p] => assert (m p = (p1, Ok (encode <$> lookup_id id l))) as E end.
  { by rewrite (se_bind_ok _ _ _ _ _ E1), find_id_encode, se_lift_ok, find_index_encode. }
  rewrite (se_bind_ok _ _ _ _ _ E). destruct (lookup_id id l) as [m|] eqn:Em; cbn [fmap option_fmap option_map]; [|by eexists].
  assert (valid m) as Vm by (apply lookup_id_Some in Em as [Hin _]; rewrite Forall_forall in Vl; by apply Vl).
  set (text := default (default [] (texts w1 !! id)) markdown).
  match goal with |- context [(?t ≫= _) p1] => assert (t p1 = (p1, Ok text)) as Et end.
  { destruct markdown as [t|]; [done |]. unfold readLocalDocumentText. rewrite (se_bind_ok _ _ _ _ _ (stored_get _ _)).
    unfold text. destruct H1 as (_ & _ & _ & _ & Hx & _). by rewrite Hx. }
  rewrite (se_bind_ok _ _ _ _ _ Et). change (default [] (as_str (field (encode m) "title"))) with (m_title m).
  set (d := {| title := Some (m_title m ++ lit " copy"); content := Some text; templateId := None; requestScope := None |}).
  assert (draft_ok d) as Hd.
  { split; cbn; [intros t [= <-]; apply Forall_app; split; [by destruct Vm as (_ & ? & _) | exact (lit_units " copy")] |]. intros c [= <-]. unfold text.
    destruct markdown as [t|]; [by apply Hm |]. cbn. destruct (texts w1 !! id) as [t|] eqn:Ex; [|by split].
    cbn. destruct H1 as (_ & _ & _ & _ & _ & _ & _ & Hlen). by eapply Hlen. }
  pose proof (create_refines p1 w1 d H1 Hd) as Hc. destruct (spec_create _ _ _ _ d w1) as [w2 m2].
  destruct Hc as (p2 & E2 & H2). rewrite (se_bind_ok _ _ _ _ _ E2). by eexists.
Qed.

(** *** Sequences of operations *)

Inductive call :=
| List_ | Trash_
| Write (id markdown : jstring)
| Create (d : LocalDocumentDraft)
| Rename (id title : jstring)
| Duplicate (id : jstring) (markdown : option jstring)
| Delete (id : jstring)
| Restore_ (id : jstring)
| Purge (id : jstring).

Definition call_ok (c : call) : Prop :=
  match c with
  | Write _ markdown => is_text markdown
  | Create d => draft_ok d
  | Rename _ title => Forall is_unit title
  | Duplicate _ markdown => forall t, markdown = Some t -> is_text t
  | _ => True
  end.

(** What a call of the module answers, and what the catalogue does. *)
Definition perform (c : call) (p : page S) : page S * res (list jsval) :=
  let one r := match r with Some v => [v] | None => [] end in
  let load := loadLocalDocuments clock difference double_text ABOUT_DOCUMENT LAUNCH_DOCUMENT FIELD_GUIDE_DOCUMENT in
  match c with
  | List_ => load p
  | Trash_ => loadLocalTrash difference p
  | Write id markdown => (_ ← writeLocalDocumentText clock difference double_text ABOUT_DOCUMENT LAUNCH_DOCUMENT FIELD_GUIDE_DOCUMENT id markdown; mret []) p
  | Create d => (v ← createLocalDocument clock uuid difference double_text templates ABOUT_DOCUMENT LAUNCH_DOCUMENT FIELD_GUIDE_DOCUMENT d; mret [v]) p
  | Rename id title => (v ← renameLocalDocument clock difference double_text ABOUT_DOCUMENT LAUNCH_DOCUMENT FIELD_GUIDE_DOCUMENT id title; mret (one v)) p
  | Duplicate id markdown => (v ← duplicateLocalDocument clock uuid difference double_text templates ABOUT_DOCUMENT LAUNCH_DOCUMENT FIELD_GUIDE_DOCUMENT id markdown; mret (one v)) p
  | Delete id => (_ ← deleteLocalDocument clock difference double_text ABOUT_DOCUMENT LAUNCH_DOCUMENT FIELD_GUIDE_DOCUMENT id; mret []) p
  | Restore_ id => (v ← restoreLocalDocument clock difference double_text ABOUT_DOCUMENT LAUNCH_DOCUMENT FIELD_GUIDE_DOCUMENT id; mret (one v)) p
  | Purge id => (_ ← purgeLocalDocument clock difference double_text id; mret []) p
  end.

Definition spec_perform (c : call) (w : workspace) : workspace * res (list DocumentMeta) :=
  let one r := match r with Some v => [v] | None => [] end in
  match c with
  | List_ => let '(w, l) := spec_load clock ABOUT_DOCUMENT w in (w, Ok l)
  | Trash_ => (w, Ok (spec_trash w))
  | Write id markdown => (spec_write clock ABOUT_DOCUMENT id markdown w, Ok [])
  | Create d => let '(w, m) := spec_create clock uuid templates ABOUT_DOCUMENT d w in (w, Ok [m])
  | Rename id title => let '(w, m) := spec_rename clock ABOUT_DOCUMENT id title w in (w, Ok (one m))
  | Duplicate id markdown => let '(w, m) := spec_duplicate clock uuid templates ABOUT_DOCUMENT id markdown w in (w, Ok (one m))
  | Delete id => (spec_delete clock ABOUT_DOCUMENT id w, Ok [])
  | Restore_ id => let '(w, m) := spec_restore clock ABOUT_DOCUMENT id w in (w, Ok (one m))
  | Purge id => let '(w, r) := spec_purge clock id w in
      (w, match r with inl _ => Ok [] | inr _ => plain_error "local trash retention has not elapsed" end)
  end.

Definition encoded (r : res (list DocumentMeta)) : res (list jsval) :=
  match r with Ok l => Ok (map encode l) | Throw e => Throw e end.

Lemma perform_refines c p w : holds p w -> call_ok c ->
  let '(w', r) := spec_perform c w in exists p', perform c p = (p', encoded r) /\ holds p' w'.
Proof.
  intros Hp Hc. destruct c as [| |id t|d|id t|id t|id|id|id]; cbn [perform spec_perform].
  - pose proof (load_documents p w Hp) as H. destruct (spec_load _ _ _). destruct H as (p' & E & H & _). by exists p'.
  - destruct (load_trash p w Hp) as (p' & E & H). by exists p'.
  - destruct (write_refines p w id t Hp Hc) as (p' & E & H). exists p'. by rewrite (se_bind_ok _ _ _ _ _ E).
  - pose proof (create_refines p w d Hp Hc) as H. destruct (spec_create _ _ _ _ _ _). destruct H as (p' & E & H).
    exists p'. by rewrite (se_bind_ok _ _ _ _ _ E).
  - pose proof (rename_refines p w id t Hp Hc) as H. destruct (spec_rename _ _ _ _ _) as [w' [m|]]; destruct H as (p' & E & H);
      exists p'; by rewrite (se_bind_ok _ _ _ _ _ E).
  - pose proof (duplicate_refines p w id t Hp Hc) as H. destruct (spec_duplicate _ _ _ _ _ _ _) as [w' [m|]]; destruct H as (p' & E & H);
      exists p'; by rewrite (se_bind_ok _ _ _ _ _ E).
  - destruct (delete_refines p w id Hp) as (p' & E & H). exists p'. by rewrite (se_bind_ok _ _ _ _ _ E).
  - pose proof (restore_refines p w id Hp) as H. destruct (spec_restore _ _ _ _) as [w' [m|]]; destruct H as (p' & E & H);
      exists p'; by rewrite (se_bind_ok _ _ _ _ _ E).
  - pose proof (purge_refines p w id Hp) as H. destruct (spec_purge _ _ _) as [w' [[]|[]]]; destruct H as (p' & E & H); exists p'.
    + by rewrite (se_bind_ok _ _ _ _ _ E).
    + split; [|done]. unfold mbind, SE_bind. by rewrite E.
Qed.
End Refinement.

(** ** What a sequence of operations keeps *)

Section Keeping.
Context (clock : Z -> Z) (uuid : Z -> jstring) (templates : list DocumentTemplate) (ABOUT_DOCUMENT : jstring).

Definition ids_of (l : list DocumentMeta) : list jstring := map m_id l.
Definition local_id (n : Z) : jstring := lit "local-" ++ uuid n.

(** The trash holds deleted entries due after the retention, of documents that
    are not listed (the built-in one apart, which is listed again); identities
    still to be drawn are new. *)
Definition well_kept (w : workspace) : Prop :=
  (forall m, m ∈ trash w -> exists d, m_bin m = Trashed d (d + LOCAL_TRASH_RETENTION_MS)) /\
  (forall id, id ∈ ids_of (docs w) -> id ∈ ids_of (trash w) -> id = ABOUT_DOCUMENT_ID) /\
  (forall n, draws w <= n -> (local_id n ∉ ids_of (docs w)) /\ (local_id n ∉ ids_of (trash w))).

(** Listed or in the trash. *)
Definition known (id : jstring) (w : workspace) : Prop := id ∈ ids_of (docs w) \/ id ∈ ids_of (trash w).

Lemma elem_ids id l : id ∈ ids_of l <-> exists m, m ∈ l /\ m_id m = id.
Proof.
  unfold ids_of. rewrite list_elem_of_In, in_map_iff. split; intros (m & H1 & H2); exists m; [by rewrite list_elem_of_In |].
  split; [done | by apply list_elem_of_In].
Qed.

Lemma ids_sorted c l id : id ∈ ids_of (sort_stable c l) <-> id ∈ ids_of l.
Proof. rewrite !elem_ids. by setoid_rewrite sort_stable_perm. Qed.

Lemma ids_drop id l x : x ∈ ids_of (drop_id id l) <-> x ∈ ids_of l /\ x <> id.
Proof.
  rewrite !elem_ids. unfold drop_id. setoid_rewrite list_elem_of_In. setoid_rewrite filter_In. split.
  - intros (m & [Hin Hne%negb_true_iff] & <-). split; [by exists m |]. intros E. unfold same_id in Hne.
    rewrite E, str_eqb_refl in Hne. done.
  - intros [(m & Hin & <-) Hne]. exists m. split_and!; try done. apply negb_true_iff. by apply str_eqb_neq.
Qed.

Lemma ids_update id f l : (forall m, m_id (f m) = m_id m) -> ids_of (update_id id f l) = ids_of l.
Proof.
  intros Hf. unfold ids_of. induction l as [|m l IH]; [done |]. cbn. destruct (same_id id m); cbn; [by rewrite Hf | by rewrite IH].
Qed.

Lemma lookup_id_elem id l : (exists m, lookup_id id l = Some m) <-> id ∈ ids_of l.
Proof.
  rewrite elem_ids. split.
  - intros (m & H%lookup_id_Some). by exists m.
  - intros (m & Hin & <-). unfold lookup_id. destruct (List.find _ l) as [x|] eqn:E; [by exists x |].
    pose proof (find_none _ _ E m ltac:(by apply list_elem_of_In)) as H. unfold same_id in H. by rewrite str_eqb_refl in H.
Qed.

Lemma load_keeps w : let '(w', l) := spec_load clock ABOUT_DOCUMENT w in
  trash w' = trash w /\ draws w' = draws w /\ texts w' = <[ABOUT_DOCUMENT_ID := ABOUT_DOCUMENT]> (texts w) /\
  (forall x, x ∈ ids_of l <-> x ∈ ids_of (docs w) \/ x = ABOUT_DOCUMENT_ID) /\ (forall x, x ∈ ids_of (docs w') <-> x ∈ ids_of l).
Proof.
  unfold spec_load. destruct (spec_ensure clock ABOUT_DOCUMENT (docs w) (ticks w)) as [l t] eqn:E. cbn [trash draws texts docs].
  assert (forall x, x ∈ ids_of l <-> x ∈ ids_of (docs w) \/ x = ABOUT_DOCUMENT_ID) as Hl.
  { unfold spec_ensure in E. destruct (lookup_id ABOUT_DOCUMENT_ID (docs w)) as [m|] eqn:Em.
    - assert (ABOUT_DOCUMENT_ID ∈ ids_of (docs w)) as Ha by (apply lookup_id_elem; by exists m).
      assert (ids_of l = ids_of (docs w)) as ->; [|intros x; split; [tauto | intros [? | ->]; done]].
      destruct (_ && _); injection E as <- _; [done |]. unfold ids_of. rewrite map_map. apply map_ext. intros a.
      unfold refresh. by destruct (same_id ABOUT_DOCUMENT_ID a).
    - injection E as <- _. intros x. unfold ids_of. cbn [map m_id]. rewrite elem_of_cons. tauto. }
  split_and!; try done; intros x; rewrite ids_sorted; [apply Hl | done].
Qed.

Lemma list_keeps w : well_kept w -> well_kept (spec_load clock ABOUT_DOCUMENT w).1.
Proof.
  intros (Hr & Hd & Hf). pose proof (load_keeps w) as Hl. destruct (spec_load _ _ w) as [w' l]. cbn [fst].
  destruct Hl as (Et & En & _ & Hids & Hdocs). unfold well_kept. rewrite Et, En. split_and!; [done | |].
  - intros id Hin. apply Hdocs, Hids in Hin as [Hin | ->]; [by apply Hd | done].
  - intros n Hn. destruct (Hf n Hn) as [H1 H2]. split; [|done]. rewrite Hdocs, Hids. intros [? | E]; [done |].
    (* an identity drawn starts with local *)
    unfold local_id, ABOUT_DOCUMENT_ID in E. done.
Qed.

Context (Huniq : forall n m, uuid n = uuid m -> n = m).

Lemma local_id_inj n m : local_id n = local_id m -> n = m.
Proof. intros E. by apply Huniq, (app_inv_head (lit "local-")). Qed.

(** [w'] after a change of the lists only, known by the identities in them. *)
Lemma well_kept_lists w w' : well_kept w -> draws w <= draws w' ->
  (forall m, m ∈ trash w' -> exists d, m_bin m = Trashed d (d + LOCAL_TRASH_RETENTION_MS)) ->
  (forall x, x ∈ ids_of (docs w') -> x ∈ ids_of (trash w') -> x = ABOUT_DOCUMENT_ID) ->
  (forall x, x ∈ ids_of (docs w') \/ x ∈ ids_of (trash w') ->
     known x w \/ x = ABOUT_DOCUMENT_ID \/ exists n, x = local_id n /\ draws w <= n < draws w') -> well_kept w'.
Proof.
  intros (_ & _ & Hf) Hn Hr Hd Hall. split_and!; [done | done |]. intros n Hle.
  assert (forall x, x = local_id n -> x ∈ ids_of (docs w') \/ x ∈ ids_of (trash w') -> False) as H.
  { intros x -> Hx. destruct (Hf n ltac:(lia)) as [H1 H2]. apply Hall in Hx as [[? | ?] | [E | (k & E%local_id_inj & Hk)]]; try done. lia. }
  split; intros Hin; (eapply H; [reflexivity |]); [by left | by right].
Qed.

Lemma write_keeps id markdown w : well_kept w -> let w' := spec_write clock ABOUT_DOCUMENT id markdown w in
  well_kept w' /\ (forall x, known x w -> known x w') /\
  texts w' = <[ABOUT_DOCUMENT_ID := ABOUT_DOCUMENT]> (<[id := markdown]> (texts w)).
Proof.
  intros Hw. cbv zeta. unfold spec_write. pose proof (load_keeps (set_text id markdown w)) as Hl.
  pose proof (list_keeps (set_text id markdown w) Hw) as Hk.
  destruct (spec_load _ _ _) as [w1 l]. destruct Hl as (Et & En & Ex & Hids & Hdocs). cbn [fst] in Hk. cbn [trash draws texts docs set_text] in *.
  assert (forall x, known x w -> known x w1) as Hknown.
  { intros x [H | H]; [left; by apply Hdocs, Hids; left | right; by rewrite Et]. }
  destruct (lookup_id id l); [|done]. split_and!; [| | done].
  - destruct Hk as (H1 & H2 & H3). split_and!; [done | |]; cbn [docs trash draws tick set_docs].
    + intros x. rewrite ids_update by done. rewrite <- Hdocs. apply H2.
    + intros n Hn. rewrite ids_update by done. rewrite <- Hdocs. by apply H3.
  - intros x Hx%Hknown. unfold known in *. cbn [docs trash tick set_docs]. rewrite ids_update by done. by rewrite <- Hdocs.
Qed.

Lemma rename_keeps id title w : well_kept w -> let w' := (spec_rename clock ABOUT_DOCUMENT id title w).1 in
  well_kept w' /\ (forall x, known x w -> known x w') /\
  (texts w' = texts w \/ texts w' = <[ABOUT_DOCUMENT_ID := ABOUT_DOCUMENT]> (texts w)).
Proof.
  intros Hw. cbv zeta. unfold spec_rename. destruct (trim title) as [|u r]; [by auto |].
  pose proof (load_keeps w) as Hl. pose proof (list_keeps w Hw) as Hk.
  destruct (spec_load _ _ _) as [w1 l]. destruct Hl as (Et & En & Ex & Hids & Hdocs). cbn [fst] in Hk.
  assert (forall x, known x w -> known x w1) as Hknown.
  { intros x [H | H]; [left; by apply Hdocs, Hids; left | right; by rewrite Et]. }
  destruct (lookup_id id l); cbn [fst]; [|by auto]. split_and!; [| | by right].
  - destruct Hk as (H1 & H2 & H3). split_and!; [done | |]; cbn [docs trash draws tick set_docs].
    + intros x. rewrite ids_update by done. rewrite <- Hdocs. apply H2.
    + intros n Hn. rewrite ids_update by done. rewrite <- Hdocs. by apply H3.
  - intros x Hx%Hknown. unfold known in *. cbn [docs trash tick set_docs]. rewrite ids_update by done. by rewrite <- Hdocs.
Qed.

Lemma create_keeps d w : well_kept w -> let w' := (spec_create clock uuid templates ABOUT_DOCUMENT d w).1 in
  well_kept w' /\ (forall x, known x w -> known x w') /\
  exists c, texts w' = <[ABOUT_DOCUMENT_ID := ABOUT_DOCUMENT]> (<[local_id (draws w) := c]> (texts w)).
Proof.
  intros Hw. cbv zeta. unfold spec_create. cbn [m_id]. fold (local_id (draws w)).
  set (w0 := Workspace _ _ _ _ _). pose proof (load_keeps w0) as Hl. destruct (spec_load _ _ _) as [w1 l].
  destruct Hl as (Et & En & Ex & Hids & Hdocs). unfold w0 in Et, En, Ex, Hids. cbn [trash draws texts docs] in *. cbn [fst].
  assert (forall x, known x w -> x ∈ ids_of l \/ x ∈ ids_of (trash w)) as Hkn by (intros x [H | H]; [left; apply Hids; by left | by right]).
  set (m := Meta _ _ _ _ _ _). assert (forall x, x ∈ ids_of (m :: l) <-> x = local_id (draws w) \/ x ∈ ids_of l) as Hm.
  { intros x. unfold ids_of at 1. cbn [map]. rewrite elem_of_cons. done. }
  pose proof Hw as (Hr & Hd & Hf). destruct (Hf (draws w) ltac:(lia)) as [Hf1 Hf2]. split_and!.
  - apply (well_kept_lists w); cbn [docs trash draws set_docs]; rewrite ?En, ?Et; try done; [lia | |].
    + intros x [-> | [Hx | ->]%Hids]%Hm; [done | by apply Hd | done].
    + intros x [[-> | [Hx | ->]%Hids]%Hm | Hx]; [right; right; exists (draws w); split; [done | lia] | left; by left | by right; left | left; by right].
  - intros x Hx%Hkn. unfold known. cbn [docs trash set_docs]. rewrite Hm, Et. tauto.
  - eexists. exact Ex.
Qed.

Lemma duplicate_keeps id markdown w : well_kept w -> let w' := (spec_duplicate clock uuid templates ABOUT_DOCUMENT id markdown w).1 in
  well_kept w' /\ (forall x, known x w -> known x w') /\
  (texts w' = <[ABOUT_DOCUMENT_ID := ABOUT_DOCUMENT]> (texts w) \/
   exists c, texts w' = <[ABOUT_DOCUMENT_ID := ABOUT_DOCUMENT]> (<[local_id (draws w) := c]> (<[ABOUT_DOCUMENT_ID := ABOUT_DOCUMENT]> (texts w)))).
Proof.
  intros Hw. cbv zeta. unfold spec_duplicate. pose proof (load_keeps w) as Hl. pose proof (list_keeps w Hw) as Hk.
  destruct (spec_load _ _ _) as [w1 l]. destruct Hl as (Et & En & Ex & Hids & Hdocs). cbn [fst] in Hk.
  assert (forall x, known x w -> known x w1) as Hknown.
  { intros x [H | H]; [left; by apply Hdocs, Hids; left | right; by rewrite Et]. }
  destruct (lookup_id id l); cbn [fst]; [|by auto].
  match goal with |- context [spec_create _ _ _ _ ?d w1] => destruct (create_keeps d w1 Hk) as (K1 & K2 & c & K3);
    destruct (spec_create clock uuid templates ABOUT_DOCUMENT d w1) as [w2 m2] end.
  cbn [fst] in *. split_and!; [done | by auto |]. right. exists c. by rewrite K3, Ex, En.
Qed.

Lemma delete_keeps id w : well_kept w -> let w' := spec_delete clock ABOUT_DOCUMENT id w in
  well_kept w' /\ (forall x, known x w -> known x w') /\ texts w' = <[ABOUT_DOCUMENT_ID := ABOUT_DOCUMENT]> (texts w).
Proof.
  intros Hw. cbv zeta. unfold spec_delete. pose proof (load_keeps w) as Hl. pose proof (list_keeps w Hw) as Hk.
  destruct (spec_load _ _ _) as [w1 l]. destruct Hl as (Et & En & Ex & Hids & Hdocs). cbn [fst] in Hk.
  assert (forall x, known x w -> known x w1) as Hknown.
  { intros x [H | H]; [left; by apply Hdocs, Hids; left | right; by rewrite Et]. }
  destruct (lookup_id id l) as [m|] eqn:Em; [|done]. apply lookup_id_Some in Em as [Hm Eid].
  assert (id ∈ ids_of l) as Hin by (apply elem_ids; by exists m).
  set (now := clock (ticks w1)). set (m' := bin_it m _).
  assert (forall x, x ∈ ids_of (m' :: drop_id id (spec_trash w1)) <-> x = id \/ x ∈ ids_of (trash w)) as Htr.
  { intros x. unfold ids_of at 1. cbn [map]. rewrite elem_of_cons. change (m_id m') with (m_id m). rewrite Eid.
    change (map m_id ?l) with (ids_of l). rewrite ids_drop. unfold spec_trash. rewrite ids_sorted, Et.
    destruct (decide (x = id)); tauto. }
  pose proof Hw as (Hr & Hd & Hf). split_and!; [| | exact Ex].
  - apply (well_kept_lists w); cbn [docs trash draws tick set_trash set_docs]; rewrite ?En; try done.
    + intros x [-> | Hx]%elem_of_cons; [by exists now |]. apply Hr. rewrite <- Et.
      apply list_elem_of_In, filter_In in Hx as [Hx%list_elem_of_In _]. unfold spec_trash in Hx. by rewrite sort_stable_perm in Hx.
    + intros x [Hx Hne]%ids_drop [-> | Ht]%Htr; [done |]. apply Hids in Hx as [Hx | ->]; [by apply Hd | done].
    + intros x [[Hx _]%ids_drop | [-> | Hx]%Htr].
      * apply Hids in Hx as [Hx | ->]; [left; by left | by right; left].
      * apply Hids in Hin as [Hx | ->]; [left; by left | by right; left].
      * left. by right.
  - intros x Hx%Hknown. unfold known in *. cbn [docs trash tick set_trash set_docs]. rewrite ids_drop, Htr.
    rewrite Hdocs, Et in Hx. destruct (decide (x = id)); tauto.
Qed.

Lemma restore_keeps id w : well_kept w -> let w' := (spec_restore clock ABOUT_DOCUMENT id w).1 in
  well_kept w' /\ (forall x, known x w -> known x w') /\
  (texts w' = texts w \/ texts w' = <[ABOUT_DOCUMENT_ID := ABOUT_DOCUMENT]> (texts w)).
Proof.
  intros Hw. cbv zeta. unfold spec_restore. destruct (lookup_id id (spec_trash w)) as [m|] eqn:Em; [|by auto].
  apply lookup_id_Some in Em as [Hm Eid]. unfold spec_trash in Hm at 1. rewrite sort_stable_perm in Hm.
  assert (id ∈ ids_of (trash w)) as Hin by (apply elem_ids; by exists m).
  set (w0 := tick _). pose proof (load_keeps w0) as Hl. destruct (spec_load _ _ _) as [w1 l].
  destruct Hl as (Et & En & Ex & Hids & Hdocs). unfold w0 in Et, En, Ex, Hids. cbn [trash draws texts docs tick set_trash] in *. cbn [fst].
  set (m' := Meta _ _ _ _ _ _).
  assert (forall x, x ∈ ids_of (m' :: drop_id id l) <-> x = id \/ x ∈ ids_of l) as Hdo.
  { intros x. unfold ids_of at 1. cbn [map]. rewrite elem_of_cons. change (m_id m') with (m_id m). rewrite Eid.
    change (map m_id ?l) with (ids_of l). rewrite ids_drop. destruct (decide (x = id)); tauto. }
  assert (forall x, x ∈ ids_of (drop_id id (spec_trash w)) <-> x ∈ ids_of (trash w) /\ x <> id) as Htr.
  { intros x. rewrite ids_drop. unfold spec_trash. by rewrite ids_sorted. }
  pose proof Hw as (Hr & Hd & Hf). split_and!; [| | by right].
  - apply (well_kept_lists w); cbn [docs trash draws set_docs]; rewrite ?En, ?Et; try done.
    + intros x Hx. apply Hr. apply list_elem_of_In, filter_In in Hx as [Hx%list_elem_of_In _].
      unfold spec_trash in Hx. by rewrite sort_stable_perm in Hx.
    + intros x Hx [Ht Hne]%Htr. apply Hdo in Hx as [-> | [Hx | ->]%Hids]; [done | by apply Hd | done].
    + intros x [[-> | [Hx | ->]%Hids]%Hdo | [Hx _]%Htr]; [left; by right | left; by left | by right; left | left; by right].
  - intros x Hx. unfold known in *. cbn [docs trash set_docs]. rewrite Hdo, Et, Htr, Hids. destruct (decide (x = id)); tauto.
Qed.

(** A purge that was due. *)
Definition due_purge (c : call) (id : jstring) (w : workspace) : Prop :=
  c = Purge id /\ exists m d, m ∈ trash w /\ m_id m = id /\ m_bin m = Trashed d (d + LOCAL_TRASH_RETENTION_MS) /\
    d + LOCAL_TRASH_RETENTION_MS <= clock (ticks w).

Lemma purge_keeps id w : well_kept w -> let w' := (spec_purge clock id w).1 in
  well_kept w' /\ ((docs w' = docs w /\ trash w' = trash w /\ texts w' = texts w) \/
    due_purge (Purge id) id w /\ (forall x, known x w -> x <> id -> known x w') /\ texts w' = delete id (texts w)).
Proof.
  intros Hw. cbv zeta. unfold spec_purge. destruct (lookup_id id (spec_trash w)) as [m|] eqn:Em; [|by auto].
  apply lookup_id_Some in Em as [Hm Eid]. unfold spec_trash in Hm at 1. rewrite sort_stable_perm in Hm.
  pose proof Hw as (Hr & Hd & Hf). destruct (Hr m Hm) as [d Eb]. rewrite Eb.
  destruct (Z.ltb_spec (clock (ticks w)) (d + LOCAL_TRASH_RETENTION_MS)); cbn [fst]; [split; [exact Hw | by left] |].
  assert (forall x, x ∈ ids_of (drop_id id (spec_trash w)) <-> x ∈ ids_of (trash w) /\ x <> id) as Htr.
  { intros x. rewrite ids_drop. unfold spec_trash. by rewrite ids_sorted. }
  split.
  - apply (well_kept_lists w); cbn [docs trash draws tick set_trash]; try done.
    + intros x Hx. apply Hr. apply list_elem_of_In, filter_In in Hx as [Hx%list_elem_of_In _].
      unfold spec_trash in Hx. by rewrite sort_stable_perm in Hx.
    + intros x Hx [Ht _]%Htr. by apply Hd.
    + intros x [Hx | [Hx _]%Htr]; left; [by left | by right].
  - right. split; [|split; [|done]].
    + split; [done |]. by exists m, d.
    + intros x [Hx | Hx] Hne; [by left | right]. apply Htr. by split.
Qed.

(** The text under an identity after the calls that write it. *)
Definition written (id : jstring) (t : option jstring) (c : call) : option jstring :=
  match c with Write id' markdown => if decide (id' = id) then Some markdown else t | _ => t end.

(** One call. *)
Lemma call_keeps c w id : well_kept w -> known id w -> id <> ABOUT_DOCUMENT_ID ->
  let w' := (spec_perform clock uuid templates ABOUT_DOCUMENT c w).1 in
  well_kept w' /\ (known id w' /\ texts w' !! id = written id (texts w !! id) c \/ due_purge c id w).
Proof.
  intros Hw Hid Ha. cbv zeta. assert (id <> local_id (draws w)) as Hne.
  { intros ->. destruct Hw as (_ & _ & Hf). destruct (Hf (draws w) ltac:(lia)). by destruct Hid. }
  assert (forall m : gmap jstring jstring, (<[ABOUT_DOCUMENT_ID := ABOUT_DOCUMENT]> m) !! id = m !! id) as Habt by (intros; by rewrite lookup_insert_ne).
  destruct c as [| |i t|d|i t|i t|i|i|i]; cbn [spec_perform written].
  - pose proof (list_keeps w Hw) as Hk. pose proof (load_keeps w) as Hl. destruct (spec_load _ _ w) as [w' l]. cbn [fst] in *.
    destruct Hl as (Et & _ & Ex & Hids & Hdocs). split; [done |]. left. rewrite Ex, Habt. split; [|done].
    destruct Hid as [H | H]; [left; by apply Hdocs, Hids; left | right; by rewrite Et].
  - split; [done | by left].
  - cbn [fst]. destruct (write_keeps i t w Hw) as (H1 & H2 & H3). split; [done |]. left. split; [by apply H2 |].
    rewrite H3, Habt. case_decide; [subst; by rewrite lookup_insert_eq | by rewrite lookup_insert_ne].
  - destruct (create_keeps d w Hw) as (H1 & H2 & c & H3). destruct (spec_create _ _ _ _ d w) as [w' m]. cbn [fst] in *.
    split; [done |]. left. split; [by apply H2 |]. by rewrite H3, Habt, lookup_insert_ne by done.
  - destruct (rename_keeps i t w Hw) as (H1 & H2 & H3). destruct (spec_rename _ _ i t w) as [w' m]. cbn [fst] in *.
    split; [done |]. left. split; [by apply H2 |]. by destruct H3 as [-> | ->]; rewrite ?Habt.
  - destruct (duplicate_keeps i t w Hw) as (H1 & H2 & H3). destruct (spec_duplicate _ _ _ _ i t w) as [w' m]. cbn [fst] in *.
    split; [done |]. left. split; [by apply H2 |]. destruct H3 as [-> | [c ->]]; rewrite ?Habt; [done |].
    by rewrite lookup_insert_ne, Habt by done.
  - cbn [fst]. destruct (delete_keeps i w Hw) as (H1 & H2 & H3). split; [done |]. left. split; [by apply H2 |]. by rewrite H3, Habt.
  - destruct (restore_keeps i w Hw) as (H1 & H2 & H3). destruct (spec_restore _ _ i w) as [w' m]. cbn [fst] in *.
    split; [done |]. left. split; [by apply H2 |]. by destruct H3 as [-> | ->]; rewrite ?Habt.
  - destruct (purge_keeps i w Hw) as (H1 & H2). destruct (spec_purge _ i w) as [w' r]. cbn [fst] in *.
    split; [done |]. destruct H2 as [(E1 & E2 & E3) | (Hdue & Hk & E)].
    + left. unfold known. by rewrite E1, E2, E3.
    + destruct (decide (i = id)) as [->|Hi]; [by right | left]. split; [by apply Hk |]. by rewrite E, lookup_delete_ne.
Qed.
End Keeping.

(** Sequences of calls, in the code and in the catalogue. *)
Section Sequences.
Context {S : Type} {HS : Storage S} {HW : WorkingStorage S}.
Context (clock : Z -> Z) (uuid : Z -> jstring) (difference : jsval -> jsval -> Z) (double_text : Z -> jstring).
Context (templates : list DocumentTemplate) (ABOUT_DOCUMENT LAUNCH_DOCUMENT FIELD_GUIDE_DOCUMENT : jstring).

Fixpoint performs (cs : list call) (p : page S) : page S * list (res (list jsval)) :=
  match cs with
  | [] => (p, [])
  | c :: cs =>
      let '(p, r) := perform clock uuid difference double_text templates ABOUT_DOCUMENT LAUNCH_DOCUMENT FIELD_GUIDE_DOCUMENT c p in
      let '(p, rs) := performs cs p in (p, r :: rs)
  end.
Fixpoint spec_performs (cs : list call) (w : workspace) : workspace * list (res (list DocumentMeta)) :=
  match cs with
  | [] => (w, [])
  | c :: cs =>
      let '(w, r) := spec_perform clock uuid templates ABOUT_DOCUMENT c w in
      let '(w, rs) := spec_performs cs w in (w, r :: rs)
  end.

Context (Hclock : forall t, 0 <= clock t < 2 ^ 52) (Huuid : forall n, Forall is_unit (uuid n))
  (Habout : is_text ABOUT_DOCUMENT)
  (Htemplates : Forall (fun t => Forall is_unit (tpl_name t) /\ is_text (tpl_content t)) templates).

Lemma performs_refine cs p w : holds double_text p w -> Forall call_ok cs ->
  let '(w', rs) := spec_performs cs w in exists p', performs cs p = (p', map encoded rs) /\ holds double_text p' w'.
Proof.
  intros Hp Hc. revert p w Hp. induction Hc as [|c cs Hc _ IH]; intros p w Hp; [by exists p |]. cbn [performs spec_performs].
  pose proof (perform_refines clock uuid difference double_text templates ABOUT_DOCUMENT LAUNCH_DOCUMENT FIELD_GUIDE_DOCUMENT
    Hclock Huuid Habout Htemplates c p w Hp Hc) as H1.
  destruct (spec_perform _ _ _ _ c w) as [w1 r]. destruct H1 as (p1 & -> & H1). specialize (IH p1 w1 H1).
  destruct (spec_performs cs w1) as [w2 rs]. destruct IH as (p2 & -> & H2). by exists p2.
Qed.

Lemma text_insert (m m' : gmap jstring jstring) k v :
  (forall id, m !! textKey id = m' !! id) -> forall id, <[textKey k := v]> m !! textKey id = <[k := v]> m' !! id.
Proof.
  intros H id. destruct (decide (k = id)) as [->|Hne]; [by rewrite !lookup_insert_eq |].
  rewrite !lookup_insert_ne by (done || (intros E%text_key_inj; done)). apply H.
Qed.

(** The workspace of a browser that has nothing stored. *)
Definition seed_meta (now index : Z) (seed : jstring * jstring * jstring * Z) : DocumentMeta :=
  let '(id, title, content, minutesAgo) := seed in
  let updated := now - minutesAgo * 60000 in
  Meta id title (len content) (updated - (index + 1) * 86400000) updated Fresh.
Definition seeded (p : page S) : workspace :=
  let l := seeds ABOUT_DOCUMENT LAUNCH_DOCUMENT FIELD_GUIDE_DOCUMENT in
  Workspace (imap (fun i s => seed_meta (clock (times p)) (Z.of_nat i) s) l) []
    (foldl (fun m s => <[s.1.1.1 := s.1.2]> m) ∅ l) (times p + 1) (ids p).

Lemma seed_holds p : contents (store p) = ∅ -> is_text LAUNCH_DOCUMENT -> is_text FIELD_GUIDE_DOCUMENT ->
  exists p', loadLocalDocuments clock difference double_text ABOUT_DOCUMENT LAUNCH_DOCUMENT FIELD_GUIDE_DOCUMENT p
    = (p', Ok (map encode (docs (seeded p)))) /\ holds double_text p' (seeded p).
Proof.
  intros Hc Hlaunch Hguide. unfold loadLocalDocuments. rewrite (se_bind_ok _ _ _ _ _ (stored_get _ _)), Hc, lookup_empty. cbn [truthy_text].
  rewrite (se_bind_ok _ _ _ _ _ (stored_get _ _)), Hc, lookup_empty. cbn [truthy_text].
  unfold seedWorkspace. set (p0 := Page (store p) (times p + 1) (ids p) (changes p)).
  assert (Date_now clock p = (p0, Ok (clock (times p)))) as E0 by done. rewrite (se_bind_ok _ _ _ _ _ E0).
  set (now := clock (times p)). unfold seeds. cbn [seed_each].
  destruct (stored_set (textKey ABOUT_DOCUMENT_ID) ABOUT_DOCUMENT p0) as (p1 & E1 & C1 & T1 & I1).
  destruct (stored_set (textKey (lit "surface-launch")) LAUNCH_DOCUMENT p1) as (p2 & E2 & C2 & T2 & I2).
  destruct (stored_set (textKey (lit "interaction-field-guide")) FIELD_GUIDE_DOCUMENT p2) as (p3 & E3 & C3 & T3 & I3).
  match goal with |- context [(?m ≫= ?f) p0] => assert (m p0 = (p3, Ok (map encode (docs (seeded p))))) as E end.
  { rewrite (se_bind_ok _ _ _ _ _ E1). unfold mbind at 1, SE_bind at 1. rewrite (se_bind_ok _ _ _ _ _ E2).
    unfold mbind at 1, SE_bind at 1. by rewrite (se_bind_ok _ _ _ _ _ E3). }
  rewrite (se_bind_ok _ _ _ _ _ E). set (l := docs (seeded p)). unfold saveDocuments.
  destruct (stored_set WORKSPACE_KEY (stringify_list double_text (map encode l)) p3) as (p4 & E4 & C4 & T4 & I4).
  destruct (stored_set WORKSPACE_READY_KEY (lit "1") p4) as (p5 & E5 & C5 & T5 & I5).
  match goal with |- context [(?m ≫= ?f) p3] => assert (exists p6, m p3 = (p6, Ok tt) /\ store p6 = store p5 /\ times p6 = times p5 /\ ids p6 = ids p5) as (p6 & E6 & S6 & T6 & I6) end.
  { rewrite (se_bind_ok _ _ _ _ _ E4), (se_bind_ok _ _ _ _ _ E5). by eexists. }
  rewrite (se_bind_ok _ _ _ _ _ E6). exists p6. split; [done |].
  assert (contents (store p3) = <[textKey (lit "interaction-field-guide") := FIELD_GUIDE_DOCUMENT]>
    (<[textKey (lit "surface-launch") := LAUNCH_DOCUMENT]> (<[textKey ABOUT_DOCUMENT_ID := ABOUT_DOCUMENT]> ∅))) as C3'.
  { rewrite C3, C2, C1. change (store p0) with (store p). by rewrite Hc. }
  assert (forall k, k = WORKSPACE_KEY \/ k = TRASH_KEY \/ k = WORKSPACE_READY_KEY -> contents (store p3) !! k = None) as Hother.
  { intros k Hk. rewrite C3'. rewrite !lookup_insert_ne by (by apply text_key_other). apply lookup_empty. }
  unfold holds. rewrite S6, C5, C4, T6, I6. split_and!.
  - by rewrite T5, T4, T3, T2, T1.
  - by rewrite I5, I4, I3, I2, I1.
  - rewrite lookup_insert_ne by done. apply lookup_insert_eq.
  - rewrite !lookup_insert_ne by done. by rewrite Hother by tauto.
  - intros id. rewrite !lookup_insert_ne by (symmetry; apply text_key_other; tauto). rewrite C3'. revert id.
    unfold seeded, seeds. cbn [foldl fst snd texts]. do 3 apply text_insert. intros id. by rewrite !lookup_empty.
  - assert (forall z, now - 2 ^ 51 < z <= now -> safe z) as Hsafe.
    { intros z Ha. pose proof (Hclock (times p)) as Hn. fold now in Hn. apply isSafeInteger_spec. unfold MAX_SAFE_INTEGER.
      change (2 ^ 51) with 2251799813685248 in Ha. change (2 ^ 52) with 4503599627370496 in Hn. lia. }
    assert (forall t, is_text t -> safe (len t)) as Hlen by (intros; by apply length_safe).
    unfold l, seeded, seeds. cbn [docs imap]. unfold compose. cbn [seed_meta]. repeat (apply Forall_cons; split); [..| apply Forall_nil; done];
      (split_and!; cbn [m_id m_title m_chars m_created m_updated m_bin];
       [apply lit_units | apply lit_units | by apply Hlen | | | done]);
      apply Hsafe; change (2 ^ 51) with 2251799813685248; fold now; lia.
  - by apply Forall_nil.
  - unfold seeded, seeds. cbn [texts foldl fst snd]. intros id t.
    by intros [[_ <-] | [_ [[_ <-] | [_ [[_ <-] | [_ E']]%lookup_insert_Some]]%lookup_insert_Some]]%lookup_insert_Some.
Qed.

Lemma seeded_well_kept p : well_kept uuid (seeded p).
Proof.
  split_and!.
  - intros m Hm. by apply not_elem_of_nil in Hm.
  - intros id _ Hin. by apply not_elem_of_nil in Hin.
  - intros n _. split; [|apply not_elem_of_nil]. unfold seeded, seeds, ids_of. cbn [docs imap map seed_meta compose m_id].
    intros Hin. repeat (apply elem_of_cons in Hin as [E | Hin]; [unfold local_id in E; done |]). by apply not_elem_of_nil in Hin.
Qed.

(** C33. Whatever JSON does in between, the calls of the module answer as the
    lists of typed entries do: in a browser with nothing stored, the first
    listing is the three built-in documents, and every sequence of listings,
    writes, creations, renames, copies, deletions, restorations and purges
    after it gives the answers of the catalogue, in a storage that works. *)
Theorem workspace_refines p cs :
  contents (store p) = ∅ -> is_text LAUNCH_DOCUMENT -> is_text FIELD_GUIDE_DOCUMENT -> Forall call_ok cs ->
  let '(w, rs) := spec_performs cs (seeded p) in
  exists p', performs (List_ :: cs) p = (p', Ok (map encode (docs (seeded p))) :: map encoded rs) /\ holds double_text p' w.
Proof.
  intros Hc Hl Hg Hcs. destruct (seed_holds p Hc Hl Hg) as (p1 & E1 & H1).
  pose proof (performs_refine cs p1 (seeded p) H1 Hcs) as H2. destruct (spec_performs cs (seeded p)) as [w rs].
  destruct H2 as (p2 & E2 & H2). exists p2. split; [|done]. cbn [performs perform]. by rewrite E1, E2.
Qed.

Context (Huniq : forall n m, uuid n = uuid m -> n = m).

Lemma sequence_keeps cs w id : well_kept uuid w -> known id w -> id <> ABOUT_DOCUMENT_ID ->
  let w' := (spec_performs cs w).1 in
  (known id w' /\ texts w' !! id = foldl (written id) (texts w !! id) cs) \/
  exists before after, cs = before ++ Purge id :: after /\ due_purge clock (Purge id) id (spec_performs before w).1.
Proof.
  cbv zeta. intros Hw Hid Ha. revert w Hw Hid. induction cs as [|c cs IH]; intros w Hw Hid; [by left |].
  cbn [spec_performs foldl]. pose proof (call_keeps clock uuid templates ABOUT_DOCUMENT Huniq c w id Hw Hid Ha) as Hc.
  destruct (spec_perform clock uuid templates ABOUT_DOCUMENT c w) as [w1 r] eqn:E1. cbn [fst] in Hc.
  destruct Hc as [Hw1 [[Hk Et] | Hdue]].
  - destruct (IH w1 Hw1 Hk) as [[Hk2 Et2] | (b & a & -> & Hd)].
    + left. rewrite <- Et. destruct (spec_performs cs w1). by split.
    + right. exists (c :: b), a. split; [done |]. cbn [spec_performs]. rewrite E1. by destruct (spec_performs b w1).
  - right. exists [], cs. destruct Hdue as [-> Hm]. split; [done |]. by split.
Qed.

Lemma sequence_well_kept cs w : well_kept uuid w -> well_kept uuid (spec_performs cs w).1.
Proof.
  revert w. induction cs as [|c cs IH]; intros w Hw; [done |]. cbn [spec_performs].
  assert (well_kept uuid (spec_perform clock uuid templates ABOUT_DOCUMENT c w).1) as H1.
  { destruct c as [| |id t|d|id t|id t|id|id|id]; cbn [spec_perform].
    - pose proof (list_keeps clock uuid ABOUT_DOCUMENT w Hw). by destruct (spec_load _ _ w).
    - done.
    - by apply write_keeps.
    - pose proof (create_keeps clock uuid templates ABOUT_DOCUMENT Huniq d w Hw) as [H _]. by destruct (spec_create _ _ _ _ d w).
    - pose proof (rename_keeps clock uuid ABOUT_DOCUMENT id t w Hw) as [H _]. by destruct (spec_rename _ _ _ _ w).
    - pose proof (duplicate_keeps clock uuid templates ABOUT_DOCUMENT Huniq id t w Hw) as [H _]. by destruct (spec_duplicate _ _ _ _ _ _ w).
    - by apply delete_keeps.
    - pose proof (restore_keeps clock uuid ABOUT_DOCUMENT Huniq id w Hw) as [H _]. by destruct (spec_restore _ _ _ w).
    - pose proof (purge_keeps clock uuid Huniq id w Hw) as [H _]. by destruct (spec_purge _ _ w). }
  destruct (spec_perform clock uuid templates ABOUT_DOCUMENT c w) as [w1 r]. specialize (IH w1 H1). by destruct (spec_performs cs w1).
Qed.

(** C32. Over a storage that works and a workspace that began with nothing stored
    and is not reset, no document is lost: once listed or in the trash it stays
    listed or in the trash through every sequence of these calls, under the text
    last written to it, until a purge of it at least thirty days after it was
    deleted (the built-in introduction, which every listing rewrites, apart).
    A storage that refuses a write, or a stored value of another shape, is
    outside the promise: Examples [deletion_loses] and [listing_forgets]. *)
Theorem documents_are_kept p earlier cs id :
  contents (store p) = ∅ -> is_text LAUNCH_DOCUMENT -> is_text FIELD_GUIDE_DOCUMENT ->
  Forall call_ok earlier -> Forall call_ok cs -> id <> ABOUT_DOCUMENT_ID ->
  let p1 := (performs (List_ :: earlier) p).1 in
  exists w1 w2, holds double_text p1 w1 /\ holds double_text (performs cs p1).1 w2 /\
    (known id w1 ->
     (known id w2 /\ texts w2 !! id = foldl (written id) (texts w1 !! id) cs) \/
     exists before after w, cs = before ++ Purge id :: after /\ holds double_text (performs before p1).1 w /\ due_purge clock (Purge id) id w).
Proof.
  intros Hc Hl Hg He Hcs Ha. destruct (seed_holds p Hc Hl Hg) as (p0 & E0 & H0). cbn [performs perform]. rewrite E0.
  pose proof (performs_refine earlier p0 (seeded p) H0 He) as H1.
  pose proof (sequence_well_kept earlier (seeded p) (seeded_well_kept p)) as K1.
  destruct (spec_performs earlier (seeded p)) as [w1 rs1]. destruct H1 as (p1 & -> & H1). cbn [fst] in K1 |- *.
  pose proof (performs_refine cs p1 w1 H1 Hcs) as H2. pose proof (sequence_keeps cs w1 id K1) as Hk.
  destruct (spec_performs cs w1) as [w2 rs2]. destruct H2 as (p2 & E2 & H2). rewrite E2. exists w1, w2. split_and!; [done | done |].
  intros Hid. destruct (Hk Hid Ha) as [Hleft | (b & a & -> & Hd)]; [by left | right].
  apply Forall_app in Hcs as [Hb _]. pose proof (performs_refine b p1 w1 H1 Hb) as H3.
  destruct (spec_performs b w1) as [w3 rs3]. destruct H3 as (p3 & E3 & H3). exists b, a, w3. by rewrite E3.
Qed.
End Sequences.

(** ** Concrete runs *)

Module Demo.
Definition clock (t : Z) : Z := (1000000 * t) mod 2 ^ 52.
Definition uuid (n : Z) : jstring := if n <? 0 then 45 :: replicate (Z.to_nat (- n)) 48 else replicate (Z.to_nat n) 48.
Definition about : jstring := lit "# About".
Definition start {S} (s : S) : page S := Page s 0 0 0.
Definition performs {S} `{Storage S} :=
  performs clock uuid (fun _ _ => 0) (fun _ => []) [] about (lit "# Launch") (lit "# Guide").

Definition a_draft : LocalDocumentDraft :=
  {| title := None; content := Some (lit "## My page ##"); templateId := None; requestScope := None |}.
Definition created : jstring := lit "local-".

Definition answers {S} (r : page S * list (res (list jsval))) : list (res (list jstring)) :=
  map (fun r => match r with Ok l => Ok (map id_text l) | Throw e => Throw e end) r.2.

(** Written, deleted and restored; a purge before its time is refused. *)
Example a_life :
  answers (performs [List_; Create a_draft; Write created (lit "text"); Delete created; Trash_; Purge created; Restore_ created; List_]
    (start (∅ : gmap jstring jstring))) =
  [Ok [lit "about-marks"; lit "surface-launch"; lit "interaction-field-guide"]; Ok [created]; Ok []; Ok []; Ok [created];
   plain_error "local trash retention has not elapsed"; Ok [created];
   Ok [created; lit "about-marks"; lit "surface-launch"; lit "interaction-field-guide"]].
Proof. vm_compute. reflexivity. Qed.

(** With a month between two readings of the clock the purge is due. *)
Example purged_in_time :
  answers (LocalWorkspace.performs (fun t => 2592000000 * t) uuid (fun _ _ => 0) (fun _ => []) [] about (lit "# Launch") (lit "# Guide")
    [List_; Create a_draft; Delete created; Purge created; Trash_] (start (∅ : gmap jstring jstring))) =
  [Ok [lit "about-marks"; lit "surface-launch"; lit "interaction-field-guide"]; Ok [created]; Ok []; Ok []; Ok []].
Proof. vm_compute. reflexivity. Qed.

(** A storage that is full once the document is out of the catalogue: the
    deletion throws and the document is in neither list. *)
Definition full_for_trash : limited :=
  Limited ∅ (fun m => match m !! TRASH_KEY with Some _ => false | None => true end).
Example deletion_loses :
  answers (performs [List_; Create a_draft; Delete created; List_; Trash_] (start full_for_trash)) =
  [Ok [lit "about-marks"; lit "surface-launch"; lit "interaction-field-guide"]; Ok [created];
   plain_error "QuotaExceededError";
   Ok [lit "about-marks"; lit "surface-launch"; lit "interaction-field-guide"]; Ok []].
Proof. vm_compute. reflexivity. Qed.

(** A storage with no room for the text of the introduction: listing removes the
    catalogue, and so every document from it. *)
Definition catalogue_only : gmap jstring jstring :=
  {[ WORKSPACE_KEY := stringify_list (fun _ => []) [encode (Meta (lit "mine") (lit "Mine") 4 1 1 Fresh)];
     WORKSPACE_READY_KEY := lit "1" ]}.
Definition full_for_about : limited :=
  Limited catalogue_only (fun m => match m !! textKey ABOUT_DOCUMENT_ID with Some t => len t <? 5 | None => true end).
Example listing_forgets :
  let '(p, rs) := performs [List_; List_] (start full_for_about) in
  rs = [plain_error "QuotaExceededError"; plain_error "QuotaExceededError"] /\ items (store p) !! WORKSPACE_KEY = None.
Proof. vm_compute. done. Qed.

Lemma clock_bounds t : 0 <= clock t < 2 ^ 52.
Proof. apply Z.mod_pos_bound. done. Qed.
Lemma uuid_units n : Forall is_unit (uuid n).
Proof.
  assert (forall u k, is_unit u -> Forall is_unit (replicate k u)) as H by (intros; by apply Forall_replicate).
  unfold uuid. destruct (n <? 0); [apply Forall_cons; split |]; try apply H; unfold is_unit; lia.
Qed.
Lemma uuid_unique n m : uuid n = uuid m -> n = m.
Proof.
  unfold uuid. destruct (Z.ltb_spec n 0), (Z.ltb_spec m 0); intros E.
  - injection E as E. apply (f_equal length) in E. rewrite !length_replicate in E. lia.
  - destruct (Z.to_nat m); done.
  - destruct (Z.to_nat n); done.
  - apply (f_equal length) in E. rewrite !length_replicate in E. lia.
Qed.
Lemma text_of_lit s : len (lit s) < 2 ^ 52 -> is_text (lit s).
Proof. split; [apply lit_units | done]. Qed.
Lemma draft_is_ok : call_ok (Create a_draft).
Proof. split; [done |]. intros c [= <-]. by apply text_of_lit. Qed.
End Demo.

Definition demo_calls : list call := [Create Demo.a_draft; Delete Demo.created; Trash_; Restore_ Demo.created].
Lemma demo_calls_ok : Forall call_ok demo_calls.
Proof. repeat (apply Forall_cons; split; [first [apply Demo.draft_is_ok | exact I] |]). by apply Forall_nil. Qed.

(** The catalogue's answers to a concrete sequence are the page's. *)
Lemma workspace_refines_witness :
  let '(w, rs) := spec_performs Demo.clock Demo.uuid [] Demo.about demo_calls
    (seeded Demo.clock Demo.about (lit "# Launch") (lit "# Guide") (Demo.start (∅ : gmap jstring jstring))) in
  exists p', Demo.performs (List_ :: demo_calls) (Demo.start (∅ : gmap jstring jstring)) =
    (p', Ok (map encode (docs (seeded Demo.clock Demo.about (lit "# Launch") (lit "# Guide") (Demo.start (∅ : gmap jstring jstring))))) :: map encoded rs) /\
    holds (fun _ => []) p' w.
Proof.
  apply (workspace_refines Demo.clock Demo.uuid (fun _ _ => 0) (fun _ => []) [] Demo.about (lit "# Launch") (lit "# Guide")
    Demo.clock_bounds Demo.uuid_units ltac:(by apply Demo.text_of_lit) ltac:(by apply Forall_nil)); try (by apply Demo.text_of_lit);
    [reflexivity | apply demo_calls_ok].
Defined.

(** A document created, deleted and restored is still there. *)
Lemma documents_are_kept_witness :
  let p1 := (Demo.performs (List_ :: [Create Demo.a_draft]) (Demo.start (∅ : gmap jstring jstring))).1 in
  exists w1 w2, holds (fun _ => []) p1 w1 /\ holds (fun _ => []) (Demo.performs [Delete Demo.created] p1).1 w2 /\
    (known Demo.created w1 ->
     (known Demo.created w2 /\ texts w2 !! Demo.created = foldl (written Demo.created) (texts w1 !! Demo.created) [Delete Demo.created]) \/
     exists before after w, [Delete Demo.created] = before ++ Purge Demo.created :: after /\
       holds (fun _ => []) (Demo.performs before p1).1 w /\ due_purge Demo.clock (Purge Demo.created) Demo.created w).
Proof.
  apply (documents_are_kept Demo.clock Demo.uuid (fun _ _ => 0) (fun _ => []) [] Demo.about (lit "# Launch") (lit "# Guide")
    Demo.clock_bounds Demo.uuid_units ltac:(by apply Demo.text_of_lit) ltac:(by apply Forall_nil) Demo.uuid_unique); try (by apply Demo.text_of_lit);
    [reflexivity | | | done].
  - apply Forall_cons. split; [apply Demo.draft_is_ok | by apply Forall_nil].
  - apply Forall_cons. split; [exact I | by apply Forall_nil].
Defined.
