(* ===== verification/CreateRequest.v ===== *)
(** The identity of a create action until the server confirms it
    ([client/src/browser/create-request.ts]): a map of the page and a record in
    [sessionStorage], whose calls may throw. *)

From S2P Require Import Prelude TextChange.
From S2P Require Import Bytes.
From S2P Require Import JsValue.
From S2P Require Import Int32.
From S2P Require Import Regex.
From S2P Require Import JsonText.
From S2P Require Import JsonPrint.
From S2P Require Import WebStorage.
From S2P Require Import LocalWorkspace.

(** ** Actions and their scopes *)

Definition DOCUMENT_CREATE_REQUEST_PREFIX : jstring := lit "marks:document-create-request:v1:".
Definition MARKS_MAX_DOCUMENT_UNITS : Z := 1000000.
Definition MAX_REQUEST_SCOPE_UNITS : Z := MARKS_MAX_DOCUMENT_UNITS + 8192.

(** [[0-9a-f]{n}] under the [i] flag. *)
Definition hexes (n : nat) : regex := between n n (Any_of (fun u => is_hex (lower u))).
Definition UUID : regex :=
  seq [At_start false; hexes 8; unit_ 45; hexes 4; unit_ 45; unit_ 52; hexes 3; unit_ 45;
       Any_of (fun u => one_of (lit "89ab") (lower u)); hexes 3; unit_ 45; hexes 12; At_end false].

(** A template literal with a NUL after its first word. *)
Definition tagged (tag : string) (rest : jstring) : jstring := lit tag ++ 0 :: rest.

Definition title_identity (title : option jstring) : jstring :=
  match title with None => lit "none" | Some title => lit "some:" ++ Bytes.decimal (len title) ++ 58 :: title end.
Definition content_scope (materialized : MaterializedDocumentDraft) : jstring :=
  tagged "content" (title_identity (md_title materialized) ++ 0 :: Bytes.decimal (len (md_content materialized)) ++ 58 :: md_content materialized).

Definition documentCreateRequestScope (templates : list DocumentTemplate) (draft : LocalDocumentDraft) : jstring :=
  if truthy_text (requestScope draft) then tagged "named" (default [] (requestScope draft))
  else if truthy_text (templateId draft) then tagged "template" (default [] (templateId draft))
  else
    let materialized := materializeDocumentDraft templates draft in
    if negb (truthy_text (md_title materialized)) && negb (truthy_text (Some (md_content materialized))) then lit "blank"
    else content_scope materialized.

Definition documentDuplicateRequestScope (documentId : jstring) : jstring := tagged "duplicate" documentId.

(** [scope.startsWith('content\0')] *)
Definition starts_with (s m : jstring) : bool := str_eqb (take (length m) s) m.
Definition is_content (scope : jstring) : bool := starts_with scope (tagged "content" []).

(** ** The record *)

Record StoredDocumentCreateRequest := StoredRequest {
  stored_scope : jstring;
  requestId : jstring;
  request_draft : MaterializedDocumentDraft
}.

Definition storedScope (scope : jstring) : jstring := if is_content scope then lit "content" else scope.

Definition sameDraft (left right : MaterializedDocumentDraft) : bool :=
  match md_title left, md_title right with
  | Some a, Some b => str_eqb a b
  | None, None => true
  | _, _ => false
  end && str_eqb (md_content left) (md_content right).

Definition validateScopeAndDraft (scope : jstring) (draft : MaterializedDocumentDraft) : res unit :=
  if negb (truthy_text (Some scope)) || (MAX_REQUEST_SCOPE_UNITS <? len scope)
  then type_error "document create request scope is invalid"
  else if (MARKS_MAX_DOCUMENT_UNITS <? len (md_content draft))
    || match md_title draft with Some title => 512 <? len (utf8_encode title) | None => false end
  then type_error "document create request draft is invalid"
  else Ok tt.

Fixpoint digest_from (scope : jstring) (index first second : Z) : Z * Z :=
  match scope with
  | [] => (first, second)
  | unit :: r =>
      digest_from r (index + 1) (imul (js_xor first unit) 0x01000193) (imul (js_xor second (unit + index)) 0x85ebca6b)
  end.
Definition requestStorageKey (scope : jstring) : jstring :=
  let '(first, second) := digest_from scope 0 0x811c9dc5 0x9e3779b9 in
  DOCUMENT_CREATE_REQUEST_PREFIX ++ Bytes.decimal (len scope) ++ 58 :: hex_padded 8 (u32 first) ++ hex_padded 8 (u32 second).

Definition request_value (r : StoredDocumentCreateRequest) : jsval :=
  VObj [(lit "scope", VStr (stored_scope r)); (lit "requestId", VStr (requestId r));
        (lit "draft", VObj [(lit "title", match md_title (request_draft r) with Some t => VStr t | None => VUndef end);
                            (lit "content", VStr (md_content (request_draft r)))])].
(** [JSON.stringify(created)]: there is no number in it. *)
Definition request_text (r : StoredDocumentCreateRequest) : jstring :=
  default [] (JSON_stringify (fun _ => []) (request_value r)).

(** [!value] of a parsed value. *)
Definition falsy (v : jsval) : bool :=
  match v with
  | VUndef | VNull | VBool false | VStr [] | VNum (NInt 0) => true
  | _ => false
  end.

(** Every exception of the body gives [null], as a failed test does. *)
Definition parseStoredRequest (raw : option jstring) (scope : jstring) : option StoredDocumentCreateRequest :=
  if negb (truthy_text raw) then None else
  value ← JSON_parse (default [] raw);
  draft ← (if falsy (field value "draft") then None else Some (field value "draft"));
  request_id ← as_str (field value "requestId");
  found ← as_str (field value "scope");
  content ← as_str (field draft "content");
  title ← match field draft "title" with VUndef => Some None | VStr t => Some (Some t) | _ => None end;
  if negb (str_eqb found (storedScope scope)) || negb (test request_id UUID) then None else
  let draft := {| md_title := title; md_content := content |} in
  match validateScopeAndDraft scope draft with
  | Ok _ => Some (StoredRequest (storedScope scope) request_id draft)
  | Throw _ => None
  end.

(** ** The page *)

(** [session] is [sessionStorage], [volatile] the map of the module, [drawn]
    counts the identities made. *)
Record tab (S : Type) := Tab { session : S; volatile : gmap jstring StoredDocumentCreateRequest; drawn : Z }.
Arguments Tab {S} _ _ _.
Arguments session {S} _.
Arguments volatile {S} _.
Arguments drawn {S} _.

Section Requests.
Context {S : Type} {HS : Storage S}.
(** [crypto.randomUUID] *)
Context (makeId : Z -> jstring).

Abbreviation M := (SE (tab S)).
Definition in_session {A} (m : SE S A) : M A := zoom session (fun s p => Tab s (volatile p) (drawn p)) m.
Definition make_id : M jstring := fun p => (Tab (session p) (volatile p) (drawn p + 1), Ok (makeId (drawn p))).
Definition set_volatile (f : gmap jstring StoredDocumentCreateRequest -> gmap jstring StoredDocumentCreateRequest) : M unit :=
  se_modify (fun p => Tab (session p) (f (volatile p)) (drawn p)).

Definition answer : Type := jstring * MaterializedDocumentDraft.
Definition answer_of (r : StoredDocumentCreateRequest) : answer := (requestId r, request_draft r).

Definition pendingDocumentCreateRequest (scope : jstring) (draft : MaterializedDocumentDraft) : M answer :=
  _ ← se_lift (validateScopeAndDraft scope draft);
  let key := requestStorageKey scope in
  persisted ← se_catch (raw ← in_session (getItem key); mret (parseStoredRequest raw scope)) (fun _ => mret None);
  let fresh :=
    page ← se_get;
    match volatile page !! scope with
    | Some request => mret (answer_of request)
    | None =>
        request_id ← make_id;
        if negb (test request_id UUID) then se_throw (Exn TypeError "document create request id must be a UUID")
        else
          let created := StoredRequest (storedScope scope) request_id draft in
          _ ← set_volatile <[scope := created]>;
          _ ← se_catch (in_session (setItem key (request_text created))) (fun _ => mret tt);
          mret (answer_of created)
    end in
  match persisted with
  | Some request =>
      if negb (is_content scope) || sameDraft (request_draft request) draft then mret (answer_of request) else fresh
  | None => fresh
  end.

Definition pendingDocumentCreateRequestId (scope : jstring) : M jstring :=
  request ← pendingDocumentCreateRequest scope {| md_title := None; md_content := [] |};
  mret request.1.

Definition is_request (request_id : jstring) (r : option StoredDocumentCreateRequest) : bool :=
  match r with Some r => str_eqb (requestId r) request_id | None => false end.

Definition confirmDocumentCreateRequest (scope request_id : jstring) : M unit :=
  let key := requestStorageKey scope in
  _ ← set_volatile (fun m => if is_request request_id (m !! scope) then delete scope m else m);
  se_catch
    (raw ← in_session (getItem key);
     if is_request request_id (parseStoredRequest raw scope) then in_session (removeItem key) else mret tt)
    (fun _ => mret tt).

(** A reload keeps [sessionStorage] and nothing else. *)
Definition reload : M unit := set_volatile (fun _ => ∅).

(** ** Actions of a page *)

(** An identity, and the draft to send with it where the page asks for one. *)
Definition reply : Type := jstring * option MaterializedDocumentDraft.

(** What the page calls: a create action under the templates of the running
    client, a duplication, a confirmation, a reload. *)
Inductive action :=
| Create (templates : list DocumentTemplate) (draft : LocalDocumentDraft)
| Duplicate (documentId : jstring)
| Confirm (scope request_id : jstring)
| Reload.

Definition perform_request (a : action) : M (option reply) :=
  match a with
  | Create templates draft =>
      r ← pendingDocumentCreateRequest (documentCreateRequestScope templates draft) (materializeDocumentDraft templates draft);
      mret (Some (r.1, Some r.2))
  | Duplicate documentId =>
      let scope := documentDuplicateRequestScope documentId in
      request_id ← pendingDocumentCreateRequestId scope; mret (Some (request_id, None))
  | Confirm scope request_id => _ ← confirmDocumentCreateRequest scope request_id; mret None
  | Reload => _ ← reload; mret None
  end.

Fixpoint perform_requests (l : list action) : tab S -> tab S * list (res (option reply)) := fun p =>
  match l with
  | [] => (p, [])
  | a :: r => let '(p, x) := perform_request a p in let '(p, xs) := perform_requests r p in (p, x :: xs)
  end.
End Requests.

(** ** Scopes *)

Lemma starts_with_spec s m : starts_with s m = true <-> exists r, s = m ++ r.
Proof.
  unfold starts_with. rewrite str_eqb_eq. split.
  - intros E. exists (drop (length m) s). rewrite <- E at 1. symmetry. apply take_drop.
  - intros [r ->]. apply take_app_length.
Qed.

Lemma is_content_spec s : is_content s = true <-> exists r, s = tagged "content" r.
Proof. apply starts_with_spec. Qed.

(** A run of digits ends where the next unit is no digit. *)
Lemma digits_end ds : forall ds' u v r r', forallb is_digit ds = true -> forallb is_digit ds' = true ->
  is_digit u = false -> is_digit v = false -> ds ++ u :: r = ds' ++ v :: r' -> ds = ds' /\ u :: r = v :: r'.
Proof.
  induction ds as [|d ds IH]; intros [|d' ds'] u v r r' Hd Hd' Hu Hv E; cbn in *; [done | | |].
  - injection E as -> _. rewrite Hu in Hd'. done.
  - injection E as -> _. rewrite Hv in Hd. done.
  - apply andb_true_iff in Hd as [_ Hd], Hd' as [_ Hd']. injection E as -> E.
    destruct (IH _ _ _ _ _ Hd Hd' Hu Hv E) as [-> ?]. done.
Qed.

Lemma decimal_digits n : 0 <= n -> forallb is_digit (Bytes.decimal n) = true.
Proof.
  intros H. destruct (decide (n = 0)) as [->|]; [done |]. apply decimal_all_digits. lia.
Qed.

(** A length, a colon and what has that length. *)
Lemma counted_inj a b r r' :
  Bytes.decimal (len a) ++ 58 :: a ++ r = Bytes.decimal (len b) ++ 58 :: b ++ r' -> a = b /\ r = r'.
Proof.
  intros E. apply digits_end in E as [E1 E2]; [| apply decimal_digits, len_nonneg.. | done | done].
  injection E2 as E2. apply (f_equal dec_number) in E1. rewrite !dec_number_decimal in E1 by apply len_nonneg.
  apply app_inj_1; [unfold len in E1; lia | done].
Qed.

Lemma tagged_inj tag r r' : tagged tag r = tagged tag r' -> r = r'.
Proof. unfold tagged. intros E%app_inv_head. by injection E. Qed.

Lemma title_identity_inj t t' r r' : title_identity t ++ 0 :: r = title_identity t' ++ 0 :: r' -> t = t' /\ r = r'.
Proof.
  destruct t as [t|], t' as [t'|]; unfold title_identity; [| discriminate.. |].
  - rewrite <- !app_assoc. intros E%app_inv_head. cbn [app] in E.
    apply counted_inj in E as [-> E]. by injection E.
  - intros E%app_inv_head. by injection E.
Qed.

Lemma content_scope_inj d e : content_scope d = content_scope e -> d = e.
Proof.
  destruct d as [t c], e as [t' c']. unfold content_scope. cbn [md_title md_content].
  intros [-> E]%tagged_inj%title_identity_inj. f_equal. apply (counted_inj c c' [] []). by rewrite !app_nil_r.
Qed.

Lemma sameDraft_eq d e : sameDraft d e = true <-> d = e.
Proof.
  destruct d as [t c], e as [t' c']. unfold sameDraft. cbn. rewrite andb_true_iff, str_eqb_eq.
  destruct t as [t|], t' as [t'|]; rewrite ?str_eqb_eq;
    (split; [intros [? ?]; congruence | intros [=]; by subst]).
Qed.

(** A scope a page asks with: content scopes name their draft, and no other is
    the word that stands for them in a record. *)
Definition names (scope : jstring) (draft : MaterializedDocumentDraft) : Prop :=
  scope <> lit "content" /\ (is_content scope = true -> scope = content_scope draft).

Lemma other_scope s draft : take 8 s <> tagged "content" [] -> take 7 s <> lit "content" -> names s draft.
Proof.
  intros H8 H7. split; [by intros -> |]. intros [r ->]%is_content_spec. by destruct H8.
Qed.

Lemma create_scope_names templates draft :
  names (documentCreateRequestScope templates draft) (materializeDocumentDraft templates draft).
Proof.
  unfold documentCreateRequestScope. destruct (truthy_text (requestScope draft)); [by apply other_scope |].
  destruct (truthy_text (templateId draft)); [by apply other_scope |].
  destruct (_ && _); [by apply other_scope |]. split; [discriminate | done].
Qed.

Lemma duplicate_scope_names id draft : names (documentDuplicateRequestScope id) draft.
Proof. by apply other_scope. Qed.

Lemma storedScope_names s d s' d' : names s d -> names s' d' -> storedScope s = storedScope s' ->
  is_content s = is_content s' /\ (is_content s = false -> s = s').
Proof.
  intros [Hs _] [Hs' _]. unfold storedScope. destruct (is_content s) eqn:E, (is_content s') eqn:E'; intros H; try done.
Qed.

(** ** Reading a record back *)

Definition draft_units (d : MaterializedDocumentDraft) : Prop :=
  Forall is_unit (default [] (md_title d)) /\ Forall is_unit (md_content d).
Definition request_units (r : StoredDocumentCreateRequest) : Prop :=
  Forall is_unit (stored_scope r) /\ Forall is_unit (requestId r) /\ draft_units (request_draft r).

Lemma request_text_parses r : request_units r -> JSON_parse (request_text r) = Some (settled (request_value r)).
Proof.
  intros (Hs & Hi & Ht & Hc). unfold request_text.
  destruct (JSON_stringify (fun _ => []) (request_value r)) as [t|] eqn:E; [| done].
  change (JSON_parse t = Some (settled (request_value r))). apply (parse_stringify (fun _ => [])); [| exact E].
  assert (forall s : string, Forall is_unit (lit s)) as L by apply lit_units.
  assert (NoDup (map fst [(lit "title", VUndef); (lit "content", VUndef)])) as N2.
  { apply (bool_decide_eq_true_1 (NoDup _)). vm_compute. reflexivity. }
  assert (NoDup (map fst [(lit "scope", VUndef); (lit "requestId", VUndef); (lit "draft", VUndef)])) as N3.
  { apply (bool_decide_eq_true_1 (NoDup _)). vm_compute. reflexivity. }
  apply plain_object. split; [exact N3 |]. repeat (apply Forall_cons; split; [split; [apply L |] |]); [exact Hs | exact Hi | | apply Forall_nil; done].
  apply plain_object. split; [exact N2 |]. repeat (apply Forall_cons; split; [split; [apply L |] |]); [| exact Hc | apply Forall_nil; done].
  cbn. destruct (md_title (request_draft r)); [exact Ht | done].
Qed.

Lemma read_request r scope : request_units r -> test (requestId r) UUID = true ->
  parseStoredRequest (Some (request_text r)) scope =
  if str_eqb (stored_scope r) (storedScope scope) then
    match validateScopeAndDraft scope (request_draft r) with
    | Ok _ => Some (StoredRequest (storedScope scope) (requestId r) (request_draft r))
    | Throw _ => None
    end
  else None.
Proof.
  intros Hu Hid. unfold parseStoredRequest.
  assert (truthy_text (Some (request_text r)) = true) as -> by reflexivity.
  change (default [] (Some (request_text r))) with (request_text r). rewrite (request_text_parses r Hu). cbn [negb mbind option_bind].
  destruct r as [s id [t c]]. cbn [stored_scope requestId request_draft] in *.
  assert (field (settled (request_value (StoredRequest s id {| md_title := t; md_content := c |}))) "draft"
    = settled (VObj [(lit "title", match t with Some t => VStr t | None => VUndef end); (lit "content", VStr c)])) as -> by reflexivity.
  assert (field (settled (request_value (StoredRequest s id {| md_title := t; md_content := c |}))) "requestId" = VStr id) as -> by reflexivity.
  assert (field (settled (request_value (StoredRequest s id {| md_title := t; md_content := c |}))) "scope" = VStr s) as -> by reflexivity.
  destruct t as [t|]; cbn [as_str falsy settled undefined mbind option_bind]; cbn -[validateScopeAndDraft test UUID str_eqb storedScope]; rewrite Hid, orb_false_r; by destruct (str_eqb _ _).
Qed.

(** ** One identity, one request *)

Definition blank_draft : MaterializedDocumentDraft := {| md_title := None; md_content := [] |}.
(** What an action asks an identity for. *)
Definition asked (a : action) : option (jstring * MaterializedDocumentDraft) :=
  match a with
  | Create templates draft => Some (documentCreateRequestScope templates draft, materializeDocumentDraft templates draft)
  | Duplicate documentId => Some (documentDuplicateRequestScope documentId, blank_draft)
  | _ => None
  end.
Definition action_units (a : action) : Prop :=
  match asked a with Some (s, d) => Forall is_unit s /\ draft_units d | None => True end.

Lemma asked_names a s d : asked a = Some (s, d) -> names s d.
Proof.
  destruct a; cbn; intros [= <- <-]; [apply create_scope_names | apply duplicate_scope_names].
Qed.

Lemma create_no_duplicate templates draft id : documentCreateRequestScope templates draft <> documentDuplicateRequestScope id.
Proof.
  unfold documentCreateRequestScope. intros E. apply (f_equal (take 1)) in E. revert E.
  destruct (truthy_text (requestScope draft)); [done |]. destruct (truthy_text (templateId draft)); [done |].
  by destruct (_ && _).
Qed.

Section Identity.
Context {S : Type} {HS : Storage S} {HH : HonestStorage S} (makeId : Z -> jstring).
Context (Hunits : forall n, Forall is_unit (makeId n)).
Implicit Types (p : tab S) (g : gmap Z (jstring * MaterializedDocumentDraft)).

(** A page that has asked for nothing yet. *)
Definition blank_page p : Prop := volatile p = ∅ /\ forall s, held (session p) !! requestStorageKey s = None.

(** [g] tells what the identities drawn so far were drawn for. *)
Definition drawn_for p g : Prop :=
  (forall n s d, g !! n = Some (s, d) -> n < drawn p /\ names s d /\ Forall is_unit s /\ draft_units d /\ test (makeId n) UUID = true) /\
  (forall s r, volatile p !! s = Some r -> exists n, requestId r = makeId n /\ g !! n = Some (s, request_draft r)) /\
  (forall s v, held (session p) !! requestStorageKey s = Some v -> exists n s' d,
    v = request_text (StoredRequest (storedScope s') (makeId n) d) /\ g !! n = Some (s', d)).

Lemma blank_drawn_for p : blank_page p -> drawn_for p ∅.
Proof.
  intros [Hv Hh]. split_and!.
  - by intros n s d.
  - intros s r. by rewrite Hv.
  - intros s v. by rewrite Hh.
Qed.

Lemma storedScope_units s : Forall is_unit s -> Forall is_unit (storedScope s).
Proof. intros. unfold storedScope. destruct (is_content s); [apply lit_units | done]. Qed.

(** A record taken from the storage was made for the scope that asks. *)
Lemma persisted_drawn_for p g s d r :
  drawn_for p g -> names s d -> parseStoredRequest (held (session p) !! requestStorageKey s) s = Some r ->
  is_content s = false \/ request_draft r = d ->
  exists n, requestId r = makeId n /\ g !! n = Some (s, request_draft r).
Proof.
  intros (Hg & _ & Hh) Hs E Hd. destruct (held (session p) !! requestStorageKey s) as [v|] eqn:Ev; [|done].
  destruct (Hh s v Ev) as (n & s' & d' & -> & En). destruct (Hg n s' d' En) as (_ & Hs' & Us & Ud & Hid).
  rewrite read_request in E by (try split_and!; cbn; auto using storedScope_units; apply Ud).
  cbn [stored_scope request_draft requestId] in E. destruct (str_eqb _ _) eqn:Eq; [|done]. apply str_eqb_eq in Eq.
  destruct (validateScopeAndDraft _ _); [|done]. injection E as <-. cbn [requestId request_draft] in *.
  exists n. split; [done |]. rewrite En. f_equal. f_equal.
  destruct (storedScope_names _ _ _ _ Hs' Hs Eq) as [Ec Es]. destruct Hd as [Hc | ->].
  - apply Es. congruence.
  - destruct (is_content s) eqn:E1; [|by apply Es]. rewrite (proj2 Hs' Ec), (proj2 Hs E1). done.
Qed.

Lemma read_persisted s p : exists st o,
  se_catch (raw ← in_session (getItem (requestStorageKey s)); mret (parseStoredRequest raw s)) (fun _ => mret None) p
    = (Tab st (volatile p) (drawn p), Ok o) /\ held st = held (session p) /\
  (forall r, o = Some r -> parseStoredRequest (held (session p) !! requestStorageKey s) s = Some r).
Proof.
  unfold se_catch, in_session, zoom, mbind, SE_bind.
  destruct (getItem_honest (requestStorageKey s) (session p)) as [H1 H2].
  destruct (getItem (requestStorageKey s) (session p)) as [st [v | e]]; cbn in H1, H2 |- *; eexists st, _; split_and!; try done.
  intros r. by rewrite (H2 v eq_refl).
Qed.

Lemma drawn_for_held p g st :
  drawn_for p g -> held st = held (session p) -> drawn_for (Tab st (volatile p) (drawn p)) g.
Proof. intros (H1 & H2 & H3) E. split_and!; cbn; try done. by rewrite E. Qed.

Lemma drawn_for_new p g s d st :
  drawn_for p g -> names s d -> Forall is_unit s -> draft_units d -> test (makeId (drawn p)) UUID = true ->
  held st = held (session p) \/
  held st = <[requestStorageKey s := request_text (StoredRequest (storedScope s) (makeId (drawn p)) d)]> (held (session p)) ->
  drawn_for (Tab st (<[s := StoredRequest (storedScope s) (makeId (drawn p)) d]> (volatile p)) (drawn p + 1)) (<[drawn p := (s, d)]> g).
Proof.
  intros (H1 & H2 & H3) Hs Us Ud Hid Hst.
  assert (forall n x, g !! n = Some x -> <[drawn p := (s, d)]> g !! n = Some x) as Hmono.
  { intros n [s' d'] E. rewrite lookup_insert_ne; [done |]. apply H1 in E as [? _]. lia. }
  split_and!; cbn [drawn volatile session].
  - intros n s' d' [[<- [= <- <-]] | [Hne E]]%lookup_insert_Some; [split_and!; try done; try apply Hs; try apply Ud; lia |].
    apply H1 in E as (? & ?). split; [lia | done].
  - intros s' r [[<- <-] | [Hne E]]%lookup_insert_Some; [exists (drawn p); by rewrite lookup_insert_eq |].
    destruct (H2 s' r E) as (n & Er & En). eauto.
  - assert (forall s' v, held (session p) !! requestStorageKey s' = Some v -> exists n t d',
      v = request_text (StoredRequest (storedScope t) (makeId n) d') /\ <[drawn p := (s, d)]> g !! n = Some (t, d')) as Hold.
    { intros s' v E. destruct (H3 s' v E) as (n & t & d' & -> & En). eauto 6. }
    destruct Hst as [-> | ->]; [exact Hold |].
    intros s' v [[_ <-] | [_ E]]%lookup_insert_Some; [|by apply (Hold s')].
    exists (drawn p), s, d. by rewrite lookup_insert_eq.
Qed.

(** What a request answers was drawn for its scope. *)
Definition accounted p g s (r : res answer) : Prop := exists g', g ⊆ g' /\ drawn_for p g' /\
  forall x, r = Ok x -> exists n, x.1 = makeId n /\ g' !! n = Some (s, x.2).

Lemma accounted_throw p g s e : drawn_for p g -> accounted p g s (Throw e).
Proof. by exists g. Qed.
Lemma accounted_found p g s r : drawn_for p g ->
  (exists n, requestId r = makeId n /\ g !! n = Some (s, request_draft r)) -> accounted p g s (Ok (answer_of r)).
Proof. intros H (n & E1 & E2). exists g. split_and!; [done.. |]. intros x [= <-]. by exists n. Qed.

Lemma set_held k v (p : tab S) : exists st,
  se_catch (in_session (setItem k v)) (fun _ => mret tt) p = (Tab st (volatile p) (drawn p), Ok tt) /\
  (held st = held (session p) \/ held st = <[k := v]> (held (session p))).
Proof.
  unfold se_catch, in_session, zoom. pose proof (setItem_honest k v (session p)) as H.
  destruct (setItem k v (session p)) as [st [[] | e]]; cbn in *; eexists; split; [done | tauto | done | tauto].
Qed.

Lemma make_fresh p g s d :
  drawn_for p g -> names s d -> Forall is_unit s -> draft_units d ->
  let '(p', r) := (page ← se_get;
    match volatile page !! s with
    | Some request => mret (answer_of request)
    | None =>
        request_id ← make_id makeId;
        if negb (test request_id UUID) then se_throw (Exn TypeError "document create request id must be a UUID")
        else
          let created := StoredRequest (storedScope s) request_id d in
          _ ← set_volatile <[s := created]>;
          _ ← se_catch (in_session (setItem (requestStorageKey s) (request_text created))) (fun _ => mret tt);
          mret (answer_of created)
    end) p in accounted p' g s r.
Proof.
  intros Hg Hs Us Ud. unfold se_get. unfold mbind at 1, SE_bind at 1.
  destruct (volatile p !! s) as [request|] eqn:Ev.
  { cbn. apply accounted_found; [done |]. by apply (proj1 (proj2 Hg)). }
  unfold mbind at 1, SE_bind at 1. cbn [make_id]. unfold make_id.
  destruct (test (makeId (drawn p)) UUID) eqn:Hid; cbn [negb].
  2:{ cbn. apply accounted_throw. destruct Hg as (H1 & H2 & H3). split_and!; cbn; try done.
      intros n s' d' E. destruct (H1 n s' d' E) as (? & ?). split; [lia | done]. }
  unfold mbind at 1, SE_bind at 1. unfold set_volatile, se_modify. cbn [session volatile drawn].
  unfold mbind at 1, SE_bind at 1.
  set (created := StoredRequest (storedScope s) (makeId (drawn p)) d).
  destruct (set_held (requestStorageKey s) (request_text created) (Tab (session p) (<[s := created]> (volatile p)) (drawn p + 1))) as (st & E & Hst).
  rewrite E. cbn. exists (<[drawn p := (s, d)]> g). split_and!.
  - apply insert_subseteq. destruct (g !! drawn p) as [[s' d']|] eqn:En; [|done]. destruct (proj1 Hg _ _ _ En) as [? _]. lia.
  - by apply drawn_for_new.
  - intros x [= <-]. exists (drawn p). by rewrite lookup_insert_eq.
Qed.

Lemma pending_accounted p g s d :
  drawn_for p g -> names s d -> Forall is_unit s -> draft_units d ->
  let '(p', r) := pendingDocumentCreateRequest makeId s d p in accounted p' g s r.
Proof.
  intros Hg Hs Us Ud. unfold pendingDocumentCreateRequest. unfold mbind at 1, SE_bind at 1, se_lift.
  destruct (validateScopeAndDraft s d); [| by apply accounted_throw].
  destruct (read_persisted s p) as (st & o & E & Hst & Ho).
  unfold mbind at 1, SE_bind at 1. rewrite E. set (q := Tab st (volatile p) (drawn p)).
  assert (drawn_for q g) as Hq by by apply drawn_for_held.
  destruct o as [request|]; [| by apply make_fresh].
  destruct (negb (is_content s) || sameDraft (request_draft request) d) eqn:Eq; [| by apply make_fresh].
  cbn. apply accounted_found; [done |]. apply (persisted_drawn_for p g s d request); auto.
  apply orb_true_iff in Eq as [Eq | Eq]; [left; by apply negb_true_iff | right; by apply sameDraft_eq].
Qed.

Lemma confirm_keeps p g s id : drawn_for p g ->
  drawn_for (confirmDocumentCreateRequest s id p).1 g /\ exists r, (confirmDocumentCreateRequest s id p).2 = Ok r.
Proof.
  intros (H1 & H2 & H3). unfold confirmDocumentCreateRequest, set_volatile, se_modify. unfold mbind at 1 2, SE_bind at 1 2.
  set (m := if is_request id (volatile p !! s) then delete s (volatile p) else volatile p).
  assert (forall s' r, m !! s' = Some r -> exists n, requestId r = makeId n /\ g !! n = Some (s', request_draft r)) as H2'.
  { intros s' r. unfold m. destruct (is_request _ _); [|apply H2]. intros [_ E]%lookup_delete_Some. by apply H2. }
  assert (forall st, held st = held (session p) \/ held st = delete (requestStorageKey s) (held (session p)) -> drawn_for (Tab st m (drawn p)) g) as Hst.
  { intros st Hst. split_and!; cbn; try done. intros s' v E. apply (H3 s'). destruct Hst as [<- | Hst]; [done |].
    rewrite Hst in E. by apply lookup_delete_Some in E as [_ E]. }
  unfold se_catch, mbind, SE_bind, in_session, zoom. cbn [session volatile drawn].
  destruct (getItem_honest (requestStorageKey s) (session p)) as [G1 _].
  destruct (getItem (requestStorageKey s) (session p)) as [st [v | e]]; cbn in G1; [| cbn; split; [apply Hst; by left | by eexists]].
  destruct (is_request id (parseStoredRequest v s)); [| cbn; split; [apply Hst; by left | by eexists]].
  pose proof (removeItem_honest (requestStorageKey s) st) as R. cbn [session volatile drawn].
  destruct (removeItem (requestStorageKey s) st) as [st' [[] | e]]; cbn in R |- *;
    (split; [apply Hst; destruct R as [-> | ->]; rewrite G1; tauto | by eexists]).
Qed.

(** An answer to an action is an identity drawn for it and the draft given then,
    which for an action named by its content is the one it has. *)
Definition answers g (a : action) (r : res (option reply)) : Prop :=
  forall id x, r = Ok (Some (id, x)) -> exists n s d e, asked a = Some (s, e) /\ id = makeId n /\
    g !! n = Some (s, d) /\ (is_content s = true -> d = e) /\ x = match a with Create _ _ => Some d | _ => None end.

Lemma answers_mono g g' a r : g ⊆ g' -> answers g a r -> answers g' a r.
Proof.
  intros Hg H id x E. destruct (H id x E) as (n & s & d & e & ? & ? & ? & ? & ?).
  exists n, s, d, e. split_and!; try done. by eapply lookup_weaken.
Qed.

Lemma drawn_same_content p g n s d e :
  drawn_for p g -> g !! n = Some (s, d) -> names s e -> is_content s = true -> d = e.
Proof.
  intros (H & _) E Hs Hc. destruct (H n s d E) as (_ & Hd & _). apply content_scope_inj.
  by rewrite <- (proj2 Hd Hc), <- (proj2 Hs Hc).
Qed.

Lemma perform_accounted p g a : drawn_for p g -> action_units a ->
  let '(p', r) := perform_request makeId a p in exists g', g ⊆ g' /\ drawn_for p' g' /\ answers g' a r.
Proof.
  intros Hg Ha. destruct a as [ts draft | docid | s id |].
  - destruct Ha as [Us Ud]. pose proof (pending_accounted p g _ _ Hg (create_scope_names ts draft) Us Ud) as H.
    cbn [perform_request]. unfold mbind, SE_bind.
    destruct (pendingDocumentCreateRequest _ _ _ p) as [q [x | e]]; destruct H as (g' & H1 & H2 & H3); exists g'; split_and!; try done.
    cbn. intros id y [= <- <-]. destruct (H3 x eq_refl) as (n & E1 & E2).
    exists n; eexists _, _, _; split_and!; try done. intros Hc. by apply (drawn_same_content q g' n _ _ _ H2 E2 (create_scope_names ts draft)).
  - destruct Ha as [Us Ud]. pose proof (pending_accounted p g _ _ Hg (duplicate_scope_names docid blank_draft) Us Ud) as H.
    cbn [perform_request]. unfold pendingDocumentCreateRequestId, mbind, SE_bind.
    change {| md_title := None; md_content := [] |} with blank_draft.
    destruct (pendingDocumentCreateRequest _ _ _ p) as [q [x | e]]; destruct H as (g' & H1 & H2 & H3); exists g'; split_and!; try done.
    cbn. intros id y [= <- <-]. destruct (H3 x eq_refl) as (n & E1 & E2).
    exists n; eexists _, _, _; split_and!; try done.
  - cbn [perform_request]. unfold mbind, SE_bind. destruct (confirm_keeps p g s id Hg) as [H [r E]].
    destruct (confirmDocumentCreateRequest s id p) as [q r']. cbn in H, E. rewrite E. by exists g.
  - exists g. split_and!; [done | | done]. destruct Hg as (H1 & H2 & H3). by split_and!.
Qed.

Lemma perform_all_accounted l : forall p g, drawn_for p g -> Forall action_units l -> exists g', g ⊆ g' /\
  forall i a r, l !! i = Some a -> (perform_requests makeId l p).2 !! i = Some r -> answers g' a r.
Proof.
  induction l as [|a l IH]; intros p g Hg Hl; [by exists g |]. apply Forall_cons in Hl as [Ha Hl].
  pose proof (perform_accounted p g a Hg Ha) as H. cbn [perform_requests].
  destruct (perform_request makeId a p) as [q r]. destruct H as (g1 & L1 & Hq & Hr).
  destruct (IH q g1 Hq Hl) as (g2 & L2 & Hrest). destruct (perform_requests makeId l q) as [q' rs]. cbn [snd] in *.
  exists g2. split; [by etrans |]. intros [|i] a' r'; cbn; [intros [= <-] [= <-]; by apply (answers_mono g1) | apply Hrest].
Qed.

(** C34. An identity names one request: over every sequence of creations,
    duplications, confirmations and reloads, whatever calls of the storage fail
    and whatever digests collide, two answers with the same identity were given
    to the same action, with the same draft, and to an action named by its
    content that draft is its own. *)
Theorem identity_names_one_request p l i j a b id x y :
  (forall m n, makeId m = makeId n -> m = n) -> blank_page p -> Forall action_units l ->
  l !! i = Some a -> l !! j = Some b ->
  (perform_requests makeId l p).2 !! i = Some (Ok (Some (id, x))) ->
  (perform_requests makeId l p).2 !! j = Some (Ok (Some (id, y))) ->
  fst <$> asked a = fst <$> asked b /\ x = y /\
  (forall s d, asked a = Some (s, d) -> is_content s = true -> x = Some d).
Proof.
  intros Hinj Hp Hl Ha Hb Hx Hy. destruct (perform_all_accounted l p ∅ (blank_drawn_for p Hp) Hl) as (g & _ & H).
  destruct (H i a _ Ha Hx id x eq_refl) as (n & s & d & e & A1 & A2 & A3 & Ac & ->).
  destruct (H j b _ Hb Hy id y eq_refl) as (m & s' & d' & e' & B1 & B2 & B3 & Bc & ->).
  assert (m = n) as -> by (apply Hinj; congruence). rewrite A3 in B3. injection B3 as <- <-. split; [by rewrite A1, B1 |]. split.
  - destruct a as [ts draft | docid | |], b as [ts' draft' | docid' | |]; try done;
      exfalso; cbn [asked] in A1, B1; [apply (create_no_duplicate ts draft docid') | apply (create_no_duplicate ts' draft' docid)]; congruence.
  - intros t k Ea Hc. rewrite A1 in Ea. injection Ea as <- <-. destruct a as [ts draft | docid | |]; [by rewrite (Ac Hc) | | done..].
    cbn [asked] in A1. injection A1 as <- _. done.
Qed.
End Identity.

(** ** The requests against a map of scopes *)

(** The open requests, and the number of identities made. *)
Record ledger := Ledger { open : gmap jstring answer; made : Z }.

Section Ledger.
Context (makeId : Z -> jstring).

Definition spec_pending (scope : jstring) (draft : MaterializedDocumentDraft) (w : ledger) : ledger * res answer :=
  match validateScopeAndDraft scope draft with
  | Throw e => (w, Throw e)
  | Ok _ =>
      match open w !! scope with
      | Some x => (w, Ok x)
      | None =>
          let id := makeId (made w) in
          if test id UUID then (Ledger (<[scope := (id, draft)]> (open w)) (made w + 1), Ok (id, draft))
          else (Ledger (open w) (made w + 1), type_error "document create request id must be a UUID")
      end
  end.

Definition spec_confirm (scope request_id : jstring) (w : ledger) : ledger :=
  match open w !! scope with
  | Some (id, _) => if str_eqb id request_id then Ledger (delete scope (open w)) (made w) else w
  | None => w
  end.

(** A reload changes nothing. *)
Definition spec_request (a : action) (w : ledger) : ledger * res (option reply) :=
  match a with
  | Create templates draft =>
      let '(w, r) := spec_pending (documentCreateRequestScope templates draft) (materializeDocumentDraft templates draft) w in
      (w, x ← r; Ok (Some (x.1, Some x.2)))
  | Duplicate documentId =>
      let '(w, r) := spec_pending (documentDuplicateRequestScope documentId) blank_draft w in (w, x ← r; Ok (Some (x.1, None)))
  | Confirm scope request_id => (spec_confirm scope request_id w, Ok None)
  | Reload => (w, Ok None)
  end.

Fixpoint spec_requests (l : list action) (w : ledger) : ledger * list (res (option reply)) :=
  match l with
  | [] => (w, [])
  | a :: r => let '(w, x) := spec_request a w in let '(w, xs) := spec_requests r w in (w, x :: xs)
  end.
End Ledger.

Definition scope_of (a : action) : option jstring :=
  match a with Confirm scope _ => Some scope | _ => fst <$> asked a end.
(** No two scopes of the actions share a key of the storage. The key is a 64-bit
    digest, so this is a condition and not a law; what a shared key does to a
    stored request is the subject of [identity_names_one_request]. *)
Definition distinct_keys (l : list action) : Prop :=
  forall s t, s ∈ omap scope_of l -> t ∈ omap scope_of l -> requestStorageKey s = requestStorageKey t -> s = t.

Section Refinement.
Context {S : Type} {HS : Storage S} {HW : WorkingStorage S} (makeId : Z -> jstring).
Context (Hunits : forall n, Forall is_unit (makeId n)).
(** The scopes the page uses. *)
Context (used : jstring -> Prop) (Hkeys : forall s t, used s -> used t -> requestStorageKey s = requestStorageKey t -> s = t).
Implicit Types (p : tab S) (w : ledger).

Definition record_of (s : jstring) (x : answer) : StoredDocumentCreateRequest := StoredRequest (storedScope s) x.1 x.2.

Definition keeps p w : Prop :=
  drawn p = made w /\
  (forall s r, volatile p !! s = Some r -> open w !! s = Some (answer_of r)) /\
  (forall s, used s -> contents (session p) !! requestStorageKey s = (fun x => request_text (record_of s x)) <$> (open w !! s)) /\
  (forall s id d, open w !! s = Some (id, d) -> used s /\ validateScopeAndDraft s d = Ok tt /\ names s d /\
     Forall is_unit s /\ Forall is_unit id /\ draft_units d /\ test id UUID = true).

(** What the storage says is what is open. *)
Lemma keeps_read p w s : keeps p w -> used s ->
  (raw ← in_session (getItem (requestStorageKey s)); mret (parseStoredRequest raw s)) p = (p, Ok (record_of s <$> (open w !! s))).
Proof.
  intros (_ & _ & Hc & Ho) Hs. unfold in_session, zoom, mbind, SE_bind. rewrite getItem_works, Hc by done. destruct p as [st v n].
  cbv beta iota. destruct (open w !! s) as [[id d]|] eqn:E; [|done].
  destruct (Ho s id d E) as (_ & Hv & Hn & Us & Ui & Ud & Ht).
  change ((fun x => request_text (record_of s x)) <$> Some (id, d)) with (Some (request_text (record_of s (id, d)))).
  change (record_of s <$> Some (id, d)) with (Some (record_of s (id, d))).
  rewrite read_request; [| split_and!; cbn; auto using storedScope_units; apply Ud | done].
  unfold record_of. cbn [stored_scope request_draft requestId fst snd]. by rewrite str_eqb_refl, Hv.
Qed.

Lemma pending_refines p w s d : keeps p w -> used s -> names s d -> Forall is_unit s -> draft_units d ->
  let '(p', r) := pendingDocumentCreateRequest makeId s d p in
  let '(w', r') := spec_pending makeId s d w in r = r' /\ keeps p' w'.
Proof.
  intros Hk Hs Hn Us Ud. unfold pendingDocumentCreateRequest, spec_pending. unfold mbind at 1, SE_bind at 1, se_lift.
  destruct (validateScopeAndDraft s d) as [[]|] eqn:Hv; [|done].
  unfold mbind at 1, SE_bind at 1. unfold se_catch at 1. rewrite (keeps_read p w s Hk Hs).
  pose proof Hk as (Hd & Hvol & Hc & Ho). destruct (open w !! s) as [[id d']|] eqn:E; cbn [fmap option_fmap option_map].
  - change (fmap (record_of s) (Some (id, d'))) with (Some (record_of s (id, d'))).
    assert (negb (is_content s) || sameDraft (request_draft (record_of s (id, d'))) d = true) as ->.
    { destruct (is_content s) eqn:Ec; [|done]. apply sameDraft_eq. destruct (Ho s id d' E) as (_ & _ & Hn' & _).
      apply content_scope_inj. change (content_scope d' = content_scope d). by rewrite <- (proj2 Hn' Ec), (proj2 Hn Ec). }
    done.
  - change (fmap (record_of s) None) with (@None StoredDocumentCreateRequest).
    unfold se_get, mbind at 1, SE_bind at 1. destruct (volatile p !! s) as [r|] eqn:Ev; [by rewrite (Hvol s r Ev) in E |].
    unfold make_id, mbind at 1, SE_bind at 1. rewrite Hd. destruct (test (makeId (made w)) UUID) eqn:Hid; cbn [negb]; [|by split_and!; cbn].
    unfold set_volatile, se_modify, mbind, SE_bind. cbn [session volatile drawn]. unfold se_catch, in_session, zoom. cbn [session volatile drawn].
    set (v := request_text _). destruct (setItem_works (requestStorageKey s) v (session p)) as (st & Es & Ec). rewrite Es. cbn.
    split; [done |]. split_and!; cbn [drawn volatile session open made]; [done | | |].
    + intros t r [[<- <-] | [Hne Et]]%lookup_insert_Some; [by rewrite lookup_insert_eq | rewrite lookup_insert_ne by done; by apply Hvol].
    + intros t Ht. rewrite Ec. destruct (decide (t = s)) as [->|Hne]; [by rewrite !lookup_insert_eq |].
      rewrite !lookup_insert_ne; [by apply Hc | done | intros E1; apply Hne, Hkeys; auto].
    + intros t id d'' [[<- [= <- <-]] | [_ Et]]%lookup_insert_Some; [by split_and! | by apply Ho].
Qed.

Lemma is_request_open w s id : is_request id (record_of s <$> (open w !! s)) = true -> exists d, open w !! s = Some (id, d).
Proof. destruct (open w !! s) as [[id' d]|]; [|done]. cbn. intros ->%str_eqb_eq. by exists d. Qed.

Lemma spec_confirm_other s id w :
  is_request id (record_of s <$> (open w !! s)) = false -> spec_confirm s id w = w.
Proof. unfold spec_confirm. destruct (open w !! s) as [[id' d]|]; [|done]. cbn. by intros ->. Qed.

Lemma spec_confirm_same s id w d : open w !! s = Some (id, d) -> spec_confirm s id w = Ledger (delete s (open w)) (made w).
Proof. intros E. unfold spec_confirm. by rewrite E, str_eqb_refl. Qed.

(** Forgetting a scope, in the map of the page and in the storage. *)
Lemma keeps_delete p w s st m : keeps p w -> used s -> contents st = delete (requestStorageKey s) (contents (session p)) ->
  (forall t r, m !! t = Some r -> volatile p !! t = Some r /\ t <> s) ->
  keeps (Tab st m (drawn p)) (Ledger (delete s (open w)) (made w)).
Proof.
  intros (Hd & Hvol & Hc & Ho) Hs Est Hm. split_and!; cbn [drawn volatile session open made]; [done | | |].
  - intros t r Et. destruct (Hm t r Et) as [Ev Hne]. rewrite lookup_delete_ne by done. by apply Hvol.
  - intros t Ht. rewrite Est. destruct (decide (t = s)) as [->|Hne]; [by rewrite !lookup_delete_eq |].
    rewrite !lookup_delete_ne; [by apply Hc | done | intros E1; apply Hne, Hkeys; auto].
  - intros t id d [_ Et]%lookup_delete_Some. by apply Ho.
Qed.

Lemma confirm_refines p w s id : keeps p w -> used s ->
  let '(p', r) := confirmDocumentCreateRequest s id p in r = Ok tt /\ keeps p' (spec_confirm s id w).
Proof.
  intros Hk Hs. unfold confirmDocumentCreateRequest, set_volatile, se_modify. unfold mbind at 1, SE_bind at 1.
  set (m := if is_request id (volatile p !! s) then delete s (volatile p) else volatile p).
  assert (keeps (Tab (session p) m (drawn p)) w) as Hm.
  { destruct Hk as (Hd & Hvol & Hc & Ho). split_and!; cbn [drawn volatile session]; try done.
    intros t r. unfold m. destruct (is_request _ _); [intros [_ E]%lookup_delete_Some; by apply Hvol | apply Hvol]. }
  assert (forall r', m !! s = Some r' -> is_request id (record_of s <$> (open w !! s)) = true -> False) as Hgone.
  { intros r' Er [d Eo]%is_request_open. unfold m in Er. destruct (volatile p !! s) as [r''|] eqn:Ev.
    - destruct Hk as (_ & Hvol & _). pose proof (eq_trans (eq_sym Eo) (Hvol s r'' Ev)) as E. injection E as E1 _.
      unfold is_request in Er. rewrite <- E1, str_eqb_refl in Er. by rewrite lookup_delete_eq in Er.
    - cbn in Er. by rewrite Ev in Er. }
  unfold se_catch, mbind at 1, SE_bind at 1, in_session, zoom. cbn [session volatile drawn]. rewrite getItem_works.
  pose proof (keeps_read _ w s Hm Hs) as Hread. unfold in_session, zoom, mbind, SE_bind in Hread. cbn [session volatile drawn] in Hread.
  rewrite getItem_works in Hread. injection Hread as ->.
  destruct (is_request id (record_of s <$> (open w !! s))) eqn:Ei; [| rewrite spec_confirm_other by done; by split].
  destruct (is_request_open w s id Ei) as [d Eo]. rewrite (spec_confirm_same s id w d Eo). cbn [session volatile drawn].
  destruct (removeItem_works (requestStorageKey s) (session p)) as (st & Es & Ec). rewrite Es. split; [done |].
  apply (keeps_delete (Tab (session p) m (drawn p))); [done.. |].
  intros t r Et. split; [done |]. intros ->. by eapply Hgone.
Qed.

Lemma reload_keeps p w : keeps p w -> keeps (Tab (session p) ∅ (drawn p)) w.
Proof. intros (H1 & _ & H3 & H4). split_and!; cbn [drawn volatile session]; done. Qed.

Lemma request_refines p w a : keeps p w -> action_units a -> (forall s, scope_of a = Some s -> used s) ->
  let '(p', r) := perform_request makeId a p in let '(w', r') := spec_request makeId a w in r = r' /\ keeps p' w'.
Proof.
  intros Hk Ha Hs. destruct a as [ts draft | docid | s id |]; cbn [perform_request spec_request].
  - pose proof (pending_refines p w _ _ Hk (Hs _ eq_refl) (create_scope_names ts draft) (proj1 Ha) (proj2 Ha)) as H.
    unfold mbind, SE_bind, res_bind. destruct (pendingDocumentCreateRequest _ _ _ p) as [q r], (spec_pending _ _ _ w) as [w' r'].
    destruct H as [<- H]. by destruct r.
  - pose proof (pending_refines p w _ _ Hk (Hs _ eq_refl) (duplicate_scope_names docid blank_draft) (proj1 Ha) (proj2 Ha)) as H.
    unfold pendingDocumentCreateRequestId. change {| md_title := None; md_content := [] |} with blank_draft.
    unfold mbind, SE_bind, res_bind. destruct (pendingDocumentCreateRequest _ _ _ p) as [q r], (spec_pending _ _ _ w) as [w' r'].
    destruct H as [<- H]. by destruct r.
  - pose proof (confirm_refines p w s id Hk (Hs _ eq_refl)) as H. unfold mbind, SE_bind.
    destruct (confirmDocumentCreateRequest s id p) as [q r]. destruct H as [-> H]. done.
  - unfold mbind, SE_bind, reload, set_volatile, se_modify. split; [done |]. by apply reload_keeps.
Qed.

Lemma requests_follow l : forall p w, keeps p w -> Forall action_units l ->
  (forall s, s ∈ omap scope_of l -> used s) ->
  (perform_requests makeId l p).2 = (spec_requests makeId l w).2.
Proof.
  induction l as [|a l IH]; intros p w Hk Hl Hs; [done |]. apply Forall_cons in Hl as [Ha Hl].
  assert (forall s, scope_of a = Some s -> used s) as H1. { intros s E. apply Hs. cbn. rewrite E. apply list_elem_of_here. }
  assert (forall s, s ∈ omap scope_of l -> used s) as H2.
  { intros s Es. apply Hs. cbn. destruct (scope_of a); [by apply list_elem_of_further | done]. }
  pose proof (request_refines p w a Hk Ha H1) as H. cbn [perform_requests spec_requests].
  destruct (perform_request makeId a p) as [q r], (spec_request makeId a w) as [w' r']. destruct H as [-> H].
  pose proof (IH q w' H Hl H2) as IH'. destruct (perform_requests makeId l q), (spec_requests makeId l w'). cbn in *. by subst.
Qed.
End Refinement.

(** C35. Over a storage that works, while no two scopes in use share a key of it
    (their 64-bit digests differ: [distinct_keys]), the page answers every
    sequence of creations, duplications, confirmations and reloads as a map from
    scopes to open requests does: an action keeps its identity and its first draft until that identity is confirmed, across
    reloads and whatever the templates became, and a confirmation of another
    identity changes nothing. *)
Theorem requests_refine {S} `{WorkingStorage S} makeId (p : tab S) l :
  (forall n, Forall is_unit (makeId n)) ->
  volatile p = ∅ -> (forall s, contents (session p) !! requestStorageKey s = None) ->
  Forall action_units l -> distinct_keys l ->
  (perform_requests makeId l p).2 = (spec_requests makeId l (Ledger ∅ (drawn p))).2.
Proof.
  intros Hu Hv Hc Hl Hk. apply (requests_follow makeId Hu (fun s => s ∈ omap scope_of l) Hk); [| done | done].
  split_and!; [done | | |]; cbn [open made].
  - intros s r. by rewrite Hv.
  - intros s _. by rewrite Hc, lookup_empty.
  - by intros s id d.
Qed.

(** ** A storage that is refused *)

Section Denied.
Context (makeId : Z -> jstring).
Implicit Types (p : tab denied) (w : ledger).

Definition on_page p w : Prop := drawn p = made w /\ forall s, open w !! s = answer_of <$> (volatile p !! s).

Lemma pending_on_page p w s d : on_page p w ->
  let '(p', r) := pendingDocumentCreateRequest makeId s d p in
  let '(w', r') := spec_pending makeId s d w in r = r' /\ on_page p' w'.
Proof.
  intros [Hd Hv]. unfold pendingDocumentCreateRequest, spec_pending. unfold mbind at 1, SE_bind at 1, se_lift.
  destruct (validateScopeAndDraft s d); [|done]. rewrite Hv.
  unfold mbind, SE_bind, se_catch, in_session, zoom, se_get. cbn [getItem denied_storage se_throw session volatile drawn].
  unfold mret, SE_ret. cbn [session volatile drawn].
  destruct (volatile p !! s) as [r|] eqn:Ev; [change (answer_of <$> Some r) with (Some (answer_of r)); by split |].
  unfold make_id. cbn [session volatile drawn]. rewrite Hd.
  cbn [fmap option_fmap option_map]. destruct (test (makeId (made w)) UUID) eqn:Hid; cbn [negb]; [|by split].
  unfold set_volatile, se_modify. cbn -[UUID test request_text storedScope requestStorageKey]. split; [done |]. split; [done |].
  cbn [volatile open]. intros t. destruct (decide (t = s)) as [->|Hne]; [by rewrite !lookup_insert_eq |].
  by rewrite !lookup_insert_ne by done.
Qed.

Lemma confirm_on_page p w s id : on_page p w ->
  let '(p', r) := confirmDocumentCreateRequest s id p in r = Ok tt /\ on_page p' (spec_confirm s id w).
Proof.
  intros [Hd Hv]. unfold confirmDocumentCreateRequest, set_volatile, se_modify, spec_confirm. rewrite Hv.
  unfold mbind, SE_bind, se_catch, in_session, zoom. cbn [getItem denied_storage se_throw session volatile drawn].
  destruct (volatile p !! s) as [[c id' d]|] eqn:E; cbn [is_request requestId fmap option_fmap option_map answer_of request_draft];
    [destruct (str_eqb id' id) |]; (split; [done |]; split; [done |]); cbn [volatile open]; try done.
  intros t. destruct (decide (t = s)) as [->|Hne]; [by rewrite !lookup_delete_eq | by rewrite !lookup_delete_ne by done].
Qed.

(** Within one page a storage all of whose calls are refused makes no
    difference. *)
Theorem denied_storage_keeps l : forall p w, on_page p w -> Reload ∉ l ->
  (perform_requests makeId l p).2 = (spec_requests makeId l w).2.
Proof.
  induction l as [|a l IH]; intros p w Hw Hr; [done |]. apply not_elem_of_cons in Hr as [Hne Hr].
  assert (let '(p', r) := perform_request makeId a p in let '(w', r') := spec_request makeId a w in r = r' /\ on_page p' w') as H.
  { destruct a as [ts draft | docid | s id |]; cbn [perform_request spec_request]; [| | | done];
      unfold pendingDocumentCreateRequestId, mbind, SE_bind, res_bind; change {| md_title := None; md_content := [] |} with blank_draft.
    - pose proof (pending_on_page p w (documentCreateRequestScope ts draft) (materializeDocumentDraft ts draft) Hw) as H.
      destruct (pendingDocumentCreateRequest _ _ _ p) as [q r], (spec_pending _ _ _ w) as [w' r']. destruct H as [<- H]. by destruct r.
    - pose proof (pending_on_page p w (documentDuplicateRequestScope docid) blank_draft Hw) as H.
      destruct (pendingDocumentCreateRequest _ _ _ p) as [q r], (spec_pending _ _ _ w) as [w' r']. destruct H as [<- H]. by destruct r.
    - pose proof (confirm_on_page p w s id Hw) as H. destruct (confirmDocumentCreateRequest s id p) as [q r]. by destruct H as [-> H]. }
  cbn [perform_requests spec_requests]. destruct (perform_request makeId a p) as [q r], (spec_request makeId a w) as [w' r'].
  destruct H as [-> H]. pose proof (IH q w' H Hr) as IH'.
  destruct (perform_requests makeId l q), (spec_requests makeId l w'). cbn in *. by subst.
Qed.
End Denied.

(** ** Examples *)

Module Demo.
Definition makeId (n : Z) : jstring :=
  if (0 <=? n) && (n <? 16 ^ 8) then hex_padded 8 n ++ lit "-0000-4000-8000-000000000000" else 120 :: LocalWorkspace.Demo.uuid n.
Definition start {S} (s : S) : tab S := Tab s ∅ 0.
Definition notes : LocalDocumentDraft :=
  {| LocalWorkspace.title := None; LocalWorkspace.content := None; templateId := Some (lit "notes"); requestScope := None |}.
Definition page_of (title content : jstring) : LocalDocumentDraft :=
  {| LocalWorkspace.title := Some title; LocalWorkspace.content := Some content; templateId := None; requestScope := None |}.
Definition before : list DocumentTemplate := [{| tpl_id := lit "notes"; tpl_name := lit "Notes"; tpl_content := lit "old" |}].
Definition after : list DocumentTemplate := [{| tpl_id := lit "notes"; tpl_name := lit "Notes"; tpl_content := lit "new" |}].
Definition drafted (n : Z) (title content : string) : res (option reply) :=
  Ok (Some (makeId n, Some {| md_title := Some (lit title); md_content := lit content |})).

(** A template that changes between a request and its retry after a reload, two
    pages whose fields differ only in where a NUL stands, a late confirmation. *)
Definition a_session : list action :=
  [Create before notes; Reload; Create after notes;
   Create [] (page_of [97; 0; 98] [99]); Create [] (page_of [97] [98; 0; 99]);
   Confirm (documentCreateRequestScope before notes) (makeId 0); Create after notes;
   Confirm (documentCreateRequestScope before notes) (makeId 0); Create before notes; Duplicate (lit "doc")].
Example a_session_runs :
  (perform_requests makeId a_session (start (∅ : gmap jstring jstring))).2 =
  [drafted 0 "Notes" "old"; Ok None; drafted 0 "Notes" "old";
   Ok (Some (makeId 1, Some {| md_title := Some [97; 0; 98]; md_content := [99] |}));
   Ok (Some (makeId 2, Some {| md_title := Some [97]; md_content := [98; 0; 99] |}));
   Ok None; drafted 3 "Notes" "new"; Ok None; drafted 3 "Notes" "new"; Ok (Some (makeId 4, None))].
Proof. vm_compute. reflexivity. Qed.

(** A storage that can be read and not changed any more: a confirmation forgets
    the request of the page, and the record left behind gives the confirmed
    identity out again. *)
Inductive frozen := Frozen (m : gmap jstring jstring).
#[local] Instance frozen_storage : Storage frozen := {
  getItem k := fun s => match s with Frozen m => (s, Ok (m !! k)) end;
  setItem k v := se_throw (Exn PlainError "QuotaExceededError");
  removeItem k := se_throw (Exn PlainError "SecurityError")
}.
Definition left_behind : frozen :=
  let scope := documentCreateRequestScope before notes in
  Frozen {[ requestStorageKey scope :=
    request_text (StoredRequest scope (makeId 7) {| md_title := Some (lit "Notes"); md_content := lit "old" |}) ]}.
Example confirmed_and_given_again :
  (perform_requests makeId [Create before notes; Confirm (documentCreateRequestScope before notes) (makeId 7); Create before notes]
    (start left_behind)).2 = [drafted 7 "Notes" "old"; Ok None; drafted 7 "Notes" "old"].
Proof. vm_compute. reflexivity. Qed.

Lemma makeId_inj m n : makeId m = makeId n -> m = n.
Proof.
  assert (forall a b c, 0 <= a -> hex_padded 8 a ++ b <> 120 :: c) as Hx.
  { intros a b c Ha E. destruct (hex_padded_ok 8 a Ha) as [H1 H2]. destruct (hex_padded 8 a) as [|u r]; [done |].
    cbn in E. injection E as -> _. done. }
  unfold makeId. destruct (_ && _) eqn:Em, ((0 <=? n) && _) eqn:En; intros E.
  - apply andb_true_iff in Em as [?%Z.leb_le ?%Z.ltb_lt], En as [?%Z.leb_le ?%Z.ltb_lt].
    apply app_inv_tail in E. apply (f_equal hex_number) in E. by rewrite !hex_number_padded in E by done.
  - apply andb_true_iff in Em as [?%Z.leb_le _]. by apply Hx in E.
  - apply andb_true_iff in En as [?%Z.leb_le _]. symmetry in E. by apply Hx in E.
  - injection E. apply LocalWorkspace.Demo.uuid_unique.
Qed.

Lemma makeId_units n : Forall is_unit (makeId n).
Proof.
  unfold makeId. destruct (_ && _) eqn:E.
  - apply andb_true_iff in E as [?%Z.leb_le _]. apply Forall_app. split; [|apply lit_units].
    apply Forall_forall. intros u Hu. destruct (hex_padded_ok 8 n) as [H1 _]; [done |]. rewrite forallb_forall in H1.
    apply list_elem_of_In, H1 in Hu. unfold is_hex in Hu. reflect_bools; unfold is_unit; lia.
  - apply Forall_cons. split; [unfold is_unit; lia | apply LocalWorkspace.Demo.uuid_units].
Qed.

Lemma units_check s : forallb (fun u => (0 <=? u) && (u <? 65536)) s = true -> Forall is_unit s.
Proof.
  intros H. apply Forall_forall. intros u Hu%list_elem_of_In. rewrite forallb_forall in H. apply H in Hu.
  unfold is_unit. apply andb_true_iff in Hu as [?%Z.leb_le ?%Z.ltb_lt]. lia.
Qed.
Definition keys_checked (l : list action) : bool :=
  let scopes := omap scope_of l in
  forallb (fun s => forallb (fun t => negb (str_eqb (requestStorageKey s) (requestStorageKey t)) || str_eqb s t) scopes) scopes.
Lemma keys_check l : keys_checked l = true -> distinct_keys l.
Proof.
  intros H s t Hs%list_elem_of_In Ht%list_elem_of_In E. unfold keys_checked in H. rewrite forallb_forall in H.
  specialize (H s Hs). rewrite forallb_forall in H. specialize (H t Ht). rewrite E, str_eqb_refl in H. by apply str_eqb_eq.
Qed.

Ltac check_units :=
  repeat (apply Forall_cons; split); [.. | by apply Forall_nil];
  first [exact I | split; [| split]; apply units_check; vm_compute; reflexivity].
Lemma a_session_units : Forall action_units a_session.
Proof. unfold a_session. check_units. Qed.

(** A storage without room, two requests, a confirmation, and a third one. *)
Definition full : limited := Limited ∅ (fun _ => false).
Definition two_requests : list action := [Create before notes; Create after notes; Create [] (page_of [97] [98])].
Lemma identity_names_one_request_witness :
  fst <$> asked (Create before notes) = fst <$> asked (Create after notes) /\
  Some {| md_title := Some (lit "Notes"); md_content := lit "old" |} = Some {| md_title := Some (lit "Notes"); md_content := lit "old" |} /\
  (forall s d, asked (Create before notes) = Some (s, d) -> is_content s = true ->
     Some {| md_title := Some (lit "Notes"); md_content := lit "old" |} = Some d).
Proof.
  apply (identity_names_one_request makeId makeId_units (start full) two_requests 0 1
    (Create before notes) (Create after notes) (makeId 0)).
  - exact makeId_inj.
  - split; [reflexivity | intros s; apply lookup_empty].
  - unfold two_requests. check_units.
  - reflexivity.
  - reflexivity.
  - vm_compute. reflexivity.
  - vm_compute. reflexivity.
Defined.

Lemma requests_refine_witness :
  (perform_requests makeId a_session (start (∅ : gmap jstring jstring))).2 = (spec_requests makeId a_session (Ledger ∅ 0)).2.
Proof.
  apply (requests_refine makeId (start (∅ : gmap jstring jstring)) a_session).
  - exact makeId_units.
  - reflexivity.
  - intros s. change ((∅ : gmap jstring jstring) !! requestStorageKey s = None). apply lookup_empty.
  - exact a_session_units.
  - apply keys_check. vm_compute. reflexivity.
Defined.
End Demo.
