(* ===== verification/AuthProtocol.v ===== *)
(** The statements a device signs and the pairing link
    ([client/src/auth/protocol.ts]): the canonical writer, the four encoders,
    base64url and the fragment of the link. *)

From S2P Require Import Prelude TextChange.
From S2P Require Import Bytes.
From S2P Require Import Int32.
From S2P Require Import Regex.
From S2P Require Import JsValue.
From S2P Require Import Protocol.

(** ** Constants *)

(** [/^[A-Za-z0-9_-]{8,128}$/] *)
Definition opaque_id : regex := between 8 128 (Any_of is_b64url).
Definition OPAQUE_ID_PATTERN : regex := seq [At_start false; opaque_id; At_end false].

Definition domain (name : string) : bytes := lit name ++ [0].
Definition DEVICE_GRANT_DOMAIN : bytes := domain "marks-device-grant-v1".
Definition CONTROLLER_BOOTSTRAP_DOMAIN : bytes := domain "marks-controller-bootstrap-v1".
Definition SELF_BOOTSTRAP_DOMAIN : bytes := domain "marks-self-bootstrap-v1".
Definition DEVICE_SESSION_DOMAIN : bytes := domain "marks-device-session-v1".

Definition DEVICE_CAPABILITY_DOCUMENTS : Z := js_shl 1 0.
Definition DEVICE_CAPABILITY_AUTHORIZE_DEVICES : Z := js_shl 1 1.
Definition DEVICE_CAPABILITY_REVOKE_DEVICES : Z := js_shl 1 2.
Definition DEVICE_CAPABILITIES_MEMBER : Z := DEVICE_CAPABILITY_DOCUMENTS.
Definition DEVICE_CAPABILITIES_CONTROLLER : Z :=
  js_or (js_or DEVICE_CAPABILITY_DOCUMENTS DEVICE_CAPABILITY_AUTHORIZE_DEVICES) DEVICE_CAPABILITY_REVOKE_DEVICES.

(** ** Statements *)

Record DeviceGrant := {
  dg_version : Z; dg_principalId : jstring; dg_controllerId : jstring; dg_controllerEpoch : Z;
  dg_pairingId : jstring; dg_scratchId : jstring; dg_pendingDeviceId : jstring;
  dg_pendingDevicePublicKeyHash : bytes; dg_capabilities : Z; dg_issuedAtMs : Z; dg_expiresAtMs : Z
}.
Record ControllerBootstrap := {
  cb_version : Z; cb_controllerId : jstring; cb_controllerDeviceId : jstring; cb_controllerPublicKeyHash : bytes;
  cb_pairingId : jstring; cb_scratchId : jstring; cb_pendingDeviceId : jstring;
  cb_pendingDevicePublicKeyHash : bytes; cb_issuedAtMs : Z; cb_expiresAtMs : Z
}.
Record SelfBootstrap := {
  sb_version : Z; sb_controllerId : jstring; sb_scratchId : jstring; sb_deviceId : jstring;
  sb_devicePublicKeyHash : bytes; sb_issuedAtMs : Z; sb_expiresAtMs : Z
}.
Record DeviceSessionProof := {
  sp_version : Z; sp_challengeId : jstring; sp_deviceId : jstring; sp_deviceKeyEpoch : Z;
  sp_audience : jstring; sp_challenge : bytes; sp_issuedAtMs : Z; sp_expiresAtMs : Z
}.

(** ** The canonical writer *)

(** The parts written so far. *)
Definition CanonicalWriter : Type := list bytes.
Abbreviation W := (SE CanonicalWriter).

(** [setUint32] and [setBigUint64], most significant byte first. *)
Definition be_bytes (n : nat) (z : Z) : bytes := rev (le_bytes n z).

Definition push_part (part : bytes) : W unit := se_modify (fun parts => parts ++ [part]).
Definition bytesWithoutLength (value : bytes) : W unit := push_part value.
Definition u8 (value : Z) : W unit :=
  if (value <? 0) || (0xff <? value) then se_throw (Exn RangeError "value is not an unsigned byte") else push_part [value].
Definition u32_ (value : Z) : W unit :=
  if (value <? 0) || (0xffffffff <? value) then se_throw (Exn RangeError "value is not an unsigned 32-bit integer")
  else push_part (be_bytes 4 value).
Definition u64 (value : Z) : W unit :=
  if (value <? 0) || (0xffffffffffffffff <? value) then se_throw (Exn RangeError "value is not an unsigned 64-bit integer")
  else push_part (be_bytes 8 value).
Definition bytes_ (value : bytes) : W unit := _ ← u32_ (len value); push_part value.
Definition text_ (value : jstring) : W unit := bytes_ (utf8_encode value).
(** The loop copies the parts one after the other. *)
Definition finish : W bytes := parts ← se_get; mret (concat parts).

(** What a fresh writer gives. *)
Definition written (m : W bytes) : res bytes := (m []).2.

(** ** Encoders *)

Definition assertId (value : jstring) : res unit :=
  if test value OPAQUE_ID_PATTERN then Ok tt else type_error "not a bounded base64url identifier".
Definition assertBytes (value : bytes) (length : Z) : res unit :=
  if len value =? length then Ok tt else type_error "wrong number of bytes".
Definition assertCapabilities (value : Z) : res unit :=
  if (value <? 0) || negb (js_and value (Z.lnot DEVICE_CAPABILITIES_CONTROLLER) =? 0)
  then type_error "device capabilities contain unknown bits" else Ok tt.

Definition encodeDeviceGrant (grant : DeviceGrant) : res bytes :=
  _ ← assertId (dg_principalId grant);
  _ ← assertId (dg_controllerId grant);
  _ ← assertId (dg_pairingId grant);
  _ ← assertId (dg_scratchId grant);
  _ ← assertId (dg_pendingDeviceId grant);
  _ ← assertBytes (dg_pendingDevicePublicKeyHash grant) 32;
  _ ← assertCapabilities (dg_capabilities grant);
  written (
    _ ← bytesWithoutLength DEVICE_GRANT_DOMAIN;
    _ ← u8 (dg_version grant);
    _ ← text_ (dg_principalId grant);
    _ ← text_ (dg_controllerId grant);
    _ ← u64 (dg_controllerEpoch grant);
    _ ← text_ (dg_pairingId grant);
    _ ← text_ (dg_scratchId grant);
    _ ← text_ (dg_pendingDeviceId grant);
    _ ← bytes_ (dg_pendingDevicePublicKeyHash grant);
    _ ← u32_ (dg_capabilities grant);
    _ ← u64 (dg_issuedAtMs grant);
    _ ← u64 (dg_expiresAtMs grant);
    finish).

Definition encodeControllerBootstrap (bootstrap : ControllerBootstrap) : res bytes :=
  _ ← assertId (cb_controllerId bootstrap);
  _ ← assertId (cb_controllerDeviceId bootstrap);
  _ ← assertId (cb_pairingId bootstrap);
  _ ← assertId (cb_scratchId bootstrap);
  _ ← assertId (cb_pendingDeviceId bootstrap);
  _ ← assertBytes (cb_controllerPublicKeyHash bootstrap) 32;
  _ ← assertBytes (cb_pendingDevicePublicKeyHash bootstrap) 32;
  written (
    _ ← bytesWithoutLength CONTROLLER_BOOTSTRAP_DOMAIN;
    _ ← u8 (cb_version bootstrap);
    _ ← text_ (cb_controllerId bootstrap);
    _ ← text_ (cb_controllerDeviceId bootstrap);
    _ ← bytes_ (cb_controllerPublicKeyHash bootstrap);
    _ ← text_ (cb_pairingId bootstrap);
    _ ← text_ (cb_scratchId bootstrap);
    _ ← text_ (cb_pendingDeviceId bootstrap);
    _ ← bytes_ (cb_pendingDevicePublicKeyHash bootstrap);
    _ ← u64 (cb_issuedAtMs bootstrap);
    _ ← u64 (cb_expiresAtMs bootstrap);
    finish).

Definition encodeSelfBootstrap (bootstrap : SelfBootstrap) : res bytes :=
  _ ← assertId (sb_controllerId bootstrap);
  _ ← assertId (sb_scratchId bootstrap);
  _ ← assertId (sb_deviceId bootstrap);
  _ ← assertBytes (sb_devicePublicKeyHash bootstrap) 32;
  written (
    _ ← bytesWithoutLength SELF_BOOTSTRAP_DOMAIN;
    _ ← u8 (sb_version bootstrap);
    _ ← text_ (sb_controllerId bootstrap);
    _ ← text_ (sb_scratchId bootstrap);
    _ ← text_ (sb_deviceId bootstrap);
    _ ← bytes_ (sb_devicePublicKeyHash bootstrap);
    _ ← u64 (sb_issuedAtMs bootstrap);
    _ ← u64 (sb_expiresAtMs bootstrap);
    finish).

(** [/^https?:\/\//u] *)
Definition HTTP_ORIGIN : regex := seq [At_start false; text (lit "http"); opt (unit_ 115); text (lit "://")].

Definition encodeDeviceSessionProof (proof : DeviceSessionProof) : res bytes :=
  _ ← assertId (sp_challengeId proof);
  _ ← assertId (sp_deviceId proof);
  _ ← assertBytes (sp_challenge proof) 32;
  _ ← (if test (sp_audience proof) HTTP_ORIGIN then Ok tt else type_error "audience must be an HTTP or HTTPS origin");
  written (
    _ ← bytesWithoutLength DEVICE_SESSION_DOMAIN;
    _ ← u8 (sp_version proof);
    _ ← text_ (sp_challengeId proof);
    _ ← text_ (sp_deviceId proof);
    _ ← u64 (sp_deviceKeyEpoch proof);
    _ ← text_ (sp_audience proof);
    _ ← bytes_ (sp_challenge proof);
    _ ← u64 (sp_issuedAtMs proof);
    _ ← u64 (sp_expiresAtMs proof);
    finish).

(** ** Base64url and the pairing link *)

Definition encodeBase64Url (value : bytes) : jstring :=
  strip_trailing 61 (map (fun c => if c =? 43 then 45 else if c =? 47 then 95 else c) (btoa value)).

Definition decodeBase64Url (value : jstring) : res bytes :=
  if negb (forallb is_b64url value) then type_error "invalid base64url text"
  else
    let padding := replicate (Z.to_nat ((4 - len value mod 4) mod 4)) 61 in
    match atob (map (fun c => if c =? 45 then 43 else if c =? 95 then 47 else c) value ++ padding) with
    | Some binary => Ok binary
    | None => plain_error "InvalidCharacterError"
    end.

Record PairingLink := { pl_pairingId : jstring; pl_secret : bytes }.

Definition pairingFragment (pairingId : jstring) (secret : bytes) : res jstring :=
  _ ← assertId pairingId;
  _ ← assertBytes secret 32;
  Ok (lit "#v1." ++ pairingId ++ 46 :: encodeBase64Url secret).

Definition PAIRING_FRAGMENT : regex :=
  seq [At_start false; text (lit "#v1."); Group 1 opaque_id; unit_ 46; Group 2 (plus (Any_of is_b64url)); At_end false].

Definition parsePairingFragment (fragment : jstring) : res PairingLink :=
  match exec fragment PAIRING_FRAGMENT with
  | None => type_error "invalid Marks pairing fragment"
  | Some (_, _, c) =>
      let group n := match capture c n with Some (a, b) => units fragment a b | None => [] end in
      secret ← decodeBase64Url (group 2%nat);
      _ ← assertBytes secret 32;
      Ok {| pl_pairingId := group 1%nat; pl_secret := secret |}
  end.

(** ** Parts *)

Lemma be_bytes_inj n x y r r' : 0 <= x < 256 ^ Z.of_nat n -> 0 <= y < 256 ^ Z.of_nat n ->
  be_bytes n x ++ r = be_bytes n y ++ r' -> x = y /\ r = r'.
Proof.
  intros Hx Hy E. unfold be_bytes in E. apply app_inj_1 in E as [E ->].
  - split; [|done]. rewrite <- (le_value_le_bytes n x), <- (le_value_le_bytes n y) by done.
    by rewrite <- (rev_involutive (le_bytes n x)), E, rev_involutive.
  - by rewrite !length_rev, !length_le_bytes.
Qed.

(** One written value, its bytes and the values that are refused. *)
Inductive part := PU8 (z : Z) | PU32 (z : Z) | PU64 (z : Z) | PBytes (b : bytes).
Definition part_bytes (f : part) : bytes :=
  match f with
  | PU8 z => [z]
  | PU32 z => be_bytes 4 z
  | PU64 z => be_bytes 8 z
  | PBytes b => be_bytes 4 (len b) ++ b
  end.
Definition part_ok (f : part) : Prop :=
  match f with
  | PU8 z => 0 <= z <= 0xff
  | PU32 z => 0 <= z <= 0xffffffff
  | PU64 z => 0 <= z <= 0xffffffffffffffff
  | PBytes b => len b <= 0xffffffff
  end.
Definition part_kind (f : part) : nat :=
  match f with PU8 _ => 0 | PU32 _ => 1 | PU64 _ => 2 | PBytes _ => 3 end.
Definition write_part (f : part) : W unit :=
  match f with PU8 z => u8 z | PU32 z => u32_ z | PU64 z => u64 z | PBytes b => bytes_ b end.

Lemma guarded_write (b : bool) e p q parts parts' :
  (if b then se_throw e else push_part p) parts = (parts', Ok q) -> b = false /\ parts' = parts ++ [p].
Proof. destruct b; [done |]. cbn. by intros [= <- _]. Qed.

Lemma write_part_ok f parts parts' q :
  write_part f parts = (parts', Ok q) -> part_ok f /\ concat parts' = concat parts ++ part_bytes f.
Proof.
  destruct f as [z | z | z | b]; cbn [write_part part_ok part_bytes].
  1-3: intros [H ->]%guarded_write; rewrite concat_app; cbn [concat]; rewrite app_nil_r; split; [|done];
    apply orb_false_iff in H as [?%Z.ltb_ge ?%Z.ltb_ge]; lia.
  unfold bytes_, mbind, SE_bind. destruct (u32_ (len b) parts) as [parts1 [[] | e]] eqn:E; [|done].
  apply guarded_write in E as [H ->]. unfold push_part, se_modify. intros [= <- _]. rewrite !concat_app. cbn [concat]. rewrite !app_nil_r, app_assoc.
  split; [|done]. apply orb_false_iff in H as [?%Z.ltb_ge ?%Z.ltb_ge]. lia.
Qed.

(** A sequence of writes. *)
Fixpoint write_parts (fs : list part) : W bytes :=
  match fs with [] => finish | f :: r => _ ← write_part f; write_parts r end.

Lemma write_parts_ok fs : forall parts b, (write_parts fs parts).2 = Ok b ->
  Forall part_ok fs /\ b = concat parts ++ concat (map part_bytes fs).
Proof.
  induction fs as [|f fs IH]; intros parts b; cbn [write_parts].
  - unfold finish, mbind, SE_bind, se_get. cbn. intros [= <-]. by rewrite app_nil_r.
  - unfold mbind, SE_bind. destruct (write_part f parts) as [parts1 [q | e]] eqn:E; [|done].
    apply write_part_ok in E as [Hf Hc]. intros [Hfs ->]%IH. split; [by constructor |]. cbn [map concat]. by rewrite Hc, app_assoc.
Qed.

Lemma part_inj f g r r' : part_kind f = part_kind g -> part_ok f -> part_ok g ->
  part_bytes f ++ r = part_bytes g ++ r' -> f = g /\ r = r'.
Proof.
  assert (256 ^ Z.of_nat 4 = 4294967296 /\ 256 ^ Z.of_nat 8 = 18446744073709551616) as [E4 E8] by done.
  destruct f as [x | x | x | x], g as [y | y | y | y]; try done; cbn [part_ok part_bytes]; intros _ Hx Hy E.
  - by injection E as -> ->.
  - apply be_bytes_inj in E as [-> ->]; [done | rewrite E4; lia..].
  - apply be_bytes_inj in E as [-> ->]; [done | rewrite E8; lia..].
  - rewrite <- !app_assoc in E. apply be_bytes_inj in E as [El E]; [| rewrite E4; pose proof (len_nonneg x); pose proof (len_nonneg y); lia..].
    apply app_inj_1 in E as [-> ->]; [done | unfold len in El; lia].
Qed.

(** Values written in the same order of kinds can be told apart. *)
Lemma parts_inj fs : forall gs, map part_kind fs = map part_kind gs -> Forall part_ok fs -> Forall part_ok gs ->
  concat (map part_bytes fs) = concat (map part_bytes gs) -> fs = gs.
Proof.
  induction fs as [|f fs IH]; intros [|g gs]; try done. cbn [map concat]. intros [= Hk Hks] [Hf Hfs]%Forall_cons [Hg Hgs]%Forall_cons E.
  apply part_inj in E as [-> E]; [|done..]. f_equal. by apply IH.
Qed.

(** ** Text *)

Lemma utf8_encode_inj s t : well_formed16 s -> well_formed16 t -> utf8_encode s = utf8_encode t -> s = t.
Proof.
  intros Hs Ht E. destruct (scalars_well_formed s Hs) as [Us <-], (scalars_well_formed t Ht) as [Ut <-].
  f_equal. apply (f_equal utf8_scalars) in E. unfold utf8_encode in E. rewrite !utf8_scalars_concat in E by done.
  injection E as E. by rewrite E.
Qed.

Lemma is_b64url_range c : is_b64url c = true -> 0 <= c < 128.
Proof. unfold is_b64url. rewrite !orb_true_iff, !andb_true_iff, !Z.leb_le, !Z.eqb_eq. lia. Qed.

Lemma b64url_well_formed s : forallb is_b64url s = true -> well_formed16 s.
Proof.
  induction s as [|u s IH]; [done |]. cbn [forallb]. intros [Hu%is_b64url_range H]%andb_true_iff.
  specialize (IH H). cbn [well_formed16].
  replace ((55296 <=? u) && (u <? 56320)) with false by (symmetry; apply andb_false_iff; rewrite Z.leb_gt; lia).
  split_and!; [lia | unfold is_unit; lia | done].
Qed.

(** An identifier: 8 to 128 units of the alphabet. *)
Definition is_id (s : jstring) : Prop := forallb is_b64url s = true /\ (8 <= length s <= 128)%nat.

Lemma opaque_id_sound s : test s OPAQUE_ID_PATTERN = true -> is_id s.
Proof.
  unfold test. destruct (exec s OPAQUE_ID_PATTERN) as [[[p q] c]|] eqn:E; [|done]. intros _.
  apply exec_sound in E as [Hd Hr]; [|cbn; split_and!; lia || done].
  apply derives_seq in Hd as (x & [Hs ->]%derives_start & Hd). cbn [fst] in Hs.
  apply derives_seq in Hd as (y & Hrun & Hend). apply derives_end in Hend as [Hend E]; subst y.
  destruct p as [|p]; [|done]. pose proof (derives_run_upto _ _ _ _ _ _ _ Hrun) as Hmax.
  apply derives_run in Hrun as (_ & _ & Hmin & Hin). cbn [fst snd] in *.
  unfold ends_line in Hend. destruct (s !! q) eqn:Eq; [done |]. apply lookup_ge_None in Eq.
  assert (q = length s) as -> by lia. split; [|lia].
  apply forallb_forall. intros u (i & Hi)%list_elem_of_In%list_elem_of_lookup_1.
  destruct (Hin i) as (v & Hv & Hc); [apply lookup_lt_Some in Hi; lia |]. congruence.
Qed.

Lemma assertId_ok v x : assertId v = Ok x -> is_id v /\ well_formed16 v.
Proof.
  unfold assertId. destruct (test v OPAQUE_ID_PATTERN) eqn:E; [|done]. intros _.
  pose proof (opaque_id_sound v E) as H. split; [done | by apply b64url_well_formed, H].
Qed.

(** ** Statements as parts *)

(** What an encoder promises: the domain of its kind, then parts in a fixed
    order of kinds that determine the statement. *)
Class Signed (A : Type) := {
  encode_signed : A -> res bytes;
  signed_domain : bytes;
  parts_of : A -> list part;
  readable : A -> Prop;
  encoded_parts a b : encode_signed a = Ok b ->
    Forall part_ok (parts_of a) /\ b = signed_domain ++ concat (map part_bytes (parts_of a));
  same_kinds a a' : map part_kind (parts_of a) = map part_kind (parts_of a');
  parts_determine a a' : is_Ok (encode_signed a) = true -> is_Ok (encode_signed a') = true -> readable a -> readable a' ->
    parts_of a = parts_of a' -> a = a'
}.

Lemma encoded_injective {A} `{Signed A} (a a' : A) b :
  encode_signed a = Ok b -> encode_signed a' = Ok b -> readable a -> readable a' -> a = a'.
Proof.
  intros E E' R R'. destruct (encoded_parts a b E) as [Ha Hb], (encoded_parts a' b E') as [Ha' Hb'].
  apply parts_determine; [by rewrite E | by rewrite E' | done | done |].
  rewrite Hb in Hb'. apply app_inv_head in Hb'. apply parts_inj; auto using same_kinds.
Qed.

Lemma written_parts D fs b : written (_ ← bytesWithoutLength D; write_parts fs) = Ok b ->
  Forall part_ok fs /\ b = D ++ concat (map part_bytes fs).
Proof.
  unfold written, mbind, SE_bind, bytesWithoutLength, push_part, se_modify. cbn [app].
  intros [Hf ->]%write_parts_ok. cbn [concat]. by rewrite app_nil_r.
Qed.

Lemma res_then {A B} (r : res A) (k : res B) b : (_ ← r; k) = Ok b -> (exists a, r = Ok a) /\ k = Ok b.
Proof. destruct r as [a|]; [|done]. intros E. split; [by exists a | exact E]. Qed.

Lemma Ok_of_is {A} (r : res A) : is_Ok r = true -> exists a, r = Ok a.
Proof. apply is_Ok_alt. Qed.

(** Takes the checks of an encoder apart. *)
Ltac checks H :=
  repeat (let C := fresh "C" in apply res_then in H as [[? C] H];
          match type of C with assertId _ = _ => apply assertId_ok in C as [_ C] | _ => idtac end).

Ltac by_parts D := match goal with |- Forall part_ok ?fs /\ _ => apply (written_parts D fs) end; assumption.

(** Only an audience can have units that are no text. *)
#[export] Program Instance DeviceGrant_signed : Signed DeviceGrant := {
  encode_signed := encodeDeviceGrant;
  signed_domain := DEVICE_GRANT_DOMAIN;
  parts_of g := [PU8 (dg_version g); PBytes (utf8_encode (dg_principalId g)); PBytes (utf8_encode (dg_controllerId g));
    PU64 (dg_controllerEpoch g); PBytes (utf8_encode (dg_pairingId g)); PBytes (utf8_encode (dg_scratchId g));
    PBytes (utf8_encode (dg_pendingDeviceId g)); PBytes (dg_pendingDevicePublicKeyHash g); PU32 (dg_capabilities g);
    PU64 (dg_issuedAtMs g); PU64 (dg_expiresAtMs g)];
  readable g := True
}.
Next Obligation. intros g b H. unfold encodeDeviceGrant in H. checks H. by_parts DEVICE_GRANT_DOMAIN. Qed.
Next Obligation. done. Qed.
Next Obligation.
  intros [] [] [b H]%Ok_of_is [b' H']%Ok_of_is _ _ E. unfold encodeDeviceGrant in H, H'. checks H. checks H'. cbn in *.
  injection E as -> E1 E2 -> E3 E4 E5 -> -> -> ->. f_equal; by apply utf8_encode_inj.
Qed.

#[export] Program Instance ControllerBootstrap_signed : Signed ControllerBootstrap := {
  encode_signed := encodeControllerBootstrap;
  signed_domain := CONTROLLER_BOOTSTRAP_DOMAIN;
  parts_of c := [PU8 (cb_version c); PBytes (utf8_encode (cb_controllerId c)); PBytes (utf8_encode (cb_controllerDeviceId c));
    PBytes (cb_controllerPublicKeyHash c); PBytes (utf8_encode (cb_pairingId c)); PBytes (utf8_encode (cb_scratchId c));
    PBytes (utf8_encode (cb_pendingDeviceId c)); PBytes (cb_pendingDevicePublicKeyHash c);
    PU64 (cb_issuedAtMs c); PU64 (cb_expiresAtMs c)];
  readable c := True
}.
Next Obligation. intros g b H. unfold encodeControllerBootstrap in H. checks H. by_parts CONTROLLER_BOOTSTRAP_DOMAIN. Qed.
Next Obligation. done. Qed.
Next Obligation.
  intros [] [] [b H]%Ok_of_is [b' H']%Ok_of_is _ _ E. unfold encodeControllerBootstrap in H, H'. checks H. checks H'. cbn in *.
  injection E as -> E1 E2 -> E3 E4 E5 -> -> ->. f_equal; by apply utf8_encode_inj.
Qed.

#[export] Program Instance SelfBootstrap_signed : Signed SelfBootstrap := {
  encode_signed := encodeSelfBootstrap;
  signed_domain := SELF_BOOTSTRAP_DOMAIN;
  parts_of c := [PU8 (sb_version c); PBytes (utf8_encode (sb_controllerId c)); PBytes (utf8_encode (sb_scratchId c));
    PBytes (utf8_encode (sb_deviceId c)); PBytes (sb_devicePublicKeyHash c); PU64 (sb_issuedAtMs c); PU64 (sb_expiresAtMs c)];
  readable c := True
}.
Next Obligation. intros g b H. unfold encodeSelfBootstrap in H. checks H. by_parts SELF_BOOTSTRAP_DOMAIN. Qed.
Next Obligation. done. Qed.
Next Obligation.
  intros [] [] [b H]%Ok_of_is [b' H']%Ok_of_is _ _ E. unfold encodeSelfBootstrap in H, H'. checks H. checks H'. cbn in *.
  injection E as -> E1 E2 E3 -> -> ->. f_equal; by apply utf8_encode_inj.
Qed.

#[export] Program Instance DeviceSessionProof_signed : Signed DeviceSessionProof := {
  encode_signed := encodeDeviceSessionProof;
  signed_domain := DEVICE_SESSION_DOMAIN;
  parts_of c := [PU8 (sp_version c); PBytes (utf8_encode (sp_challengeId c)); PBytes (utf8_encode (sp_deviceId c));
    PU64 (sp_deviceKeyEpoch c); PBytes (utf8_encode (sp_audience c)); PBytes (sp_challenge c); PU64 (sp_issuedAtMs c); PU64 (sp_expiresAtMs c)];
  readable c := well_formed16 (sp_audience c)
}.
Next Obligation. intros g b H. unfold encodeDeviceSessionProof in H. checks H. by_parts DEVICE_SESSION_DOMAIN. Qed.
Next Obligation. done. Qed.
Next Obligation.
  intros [] [] [b H]%Ok_of_is [b' H']%Ok_of_is R R' E. unfold encodeDeviceSessionProof in H, H'. checks H. checks H'. cbn in *.
  injection E as -> E1 E2 -> E3 -> -> ->. f_equal; by apply utf8_encode_inj.
Qed.

(** ** The four kinds *)

Inductive statement :=
| Grant (g : DeviceGrant) | Bootstrap (c : ControllerBootstrap) | Self (c : SelfBootstrap) | Session (p : DeviceSessionProof).

Definition encode_statement (s : statement) : res bytes :=
  match s with
  | Grant g => encodeDeviceGrant g
  | Bootstrap c => encodeControllerBootstrap c
  | Self c => encodeSelfBootstrap c
  | Session p => encodeDeviceSessionProof p
  end.
(** The texts a statement does not check for lone surrogates. *)
Definition readable_statement (s : statement) : Prop :=
  match s with Session p => well_formed16 (sp_audience p) | _ => True end.

Definition kind_domain (s : statement) : bytes :=
  match s with
  | Grant _ => DEVICE_GRANT_DOMAIN | Bootstrap _ => CONTROLLER_BOOTSTRAP_DOMAIN
  | Self _ => SELF_BOOTSTRAP_DOMAIN | Session _ => DEVICE_SESSION_DOMAIN
  end.

Lemma statement_domain s b : encode_statement s = Ok b -> exists r, b = kind_domain s ++ r.
Proof. destruct s as [x | x | x | x]; intros E;
  (destruct (encoded_parts x b) as [_ ->]; [exact E | by eexists]). Qed.

(** The domains differ before the shortest of them ends. *)
Lemma same_domain s t r r' : kind_domain s ++ r = kind_domain t ++ r' -> kind_domain s = kind_domain t.
Proof. intros E. apply (f_equal (take 14)) in E. by destruct s, t. Qed.

(** C36. A signature stands for one statement: when two statements of any of the
    four kinds, with audiences that have no lone surrogate, are encoded to the
    same bytes they are of one kind and equal in every field. *)
Theorem signed_bytes_name_statement s t b :
  encode_statement s = Ok b -> encode_statement t = Ok b -> readable_statement s -> readable_statement t -> s = t.
Proof.
  intros Es Et Rs Rt. destruct (statement_domain s b Es) as [r ->], (statement_domain t _ Et) as [r' E].
  apply same_domain in E. destruct s as [x | x | x | x], t as [y | y | y | y]; try discriminate E;
    (f_equal; eapply (encoded_injective x y); [exact Es | exact Et | exact Rs | exact Rt]).
Qed.

(** A grant that is encoded carries no capability but the three, and its
    identifiers are bounded. *)
Theorem grant_is_bounded g b : encodeDeviceGrant g = Ok b ->
  0 <= dg_capabilities g < 8 /\ len (dg_pendingDevicePublicKeyHash g) = 32 /\
  Forall is_id [dg_principalId g; dg_controllerId g; dg_pairingId g; dg_scratchId g; dg_pendingDeviceId g].
Proof.
  intros E. destruct (encoded_parts g b) as [Hp _]; [exact E |].
  assert (0 <= dg_capabilities g <= 0xffffffff) as Hr.
  { rewrite Forall_forall in Hp. apply (Hp (PU32 (dg_capabilities g))). cbn. do 8 apply list_elem_of_further. apply list_elem_of_here. }
  unfold encodeDeviceGrant in E. do 7 (apply res_then in E as [[? ?C] E]). split; [|split].
  - unfold assertCapabilities in C5. destruct (_ || _) eqn:Eb; [done |]. apply orb_false_iff in Eb as [_ Eb%negb_false_iff%Z.eqb_eq].
    change (Z.lnot DEVICE_CAPABILITIES_CONTROLLER) with (-8) in Eb.
    assert (u32 (js_and (dg_capabilities g) (-8)) = 0) as Ez by by rewrite Eb.
    rewrite u32_js_and, u32_small in Ez by lia. change (u32 (-8)) with 4294967288 in Ez.
    assert (Z.land (dg_capabilities g) 4294967295 = dg_capabilities g) as El.
    { change 4294967295 with (Z.ones 32). rewrite Z.land_ones by done. apply Z.mod_small. lia. }
    assert (dg_capabilities g = Z.land (dg_capabilities g) 7) as E7.
    { rewrite <- El at 1. change 4294967295 with (Z.lor 4294967288 7). by rewrite Z.land_lor_distr_r, Ez. }
    change 7 with (Z.ones 3) in E7. rewrite Z.land_ones in E7 by done. pose proof (Z.mod_pos_bound (dg_capabilities g) (2 ^ 3)). lia.
  - unfold assertBytes in C4. destruct (Z.eqb_spec (len (dg_pendingDevicePublicKeyHash g)) 32); done.
  - repeat (apply Forall_cons; split; [by eapply proj1, assertId_ok |]). by apply Forall_nil.
Qed.

(** ** The pairing link *)

Lemma base64url_roundtrip bs : Forall is_byte bs -> decodeBase64Url (encodeBase64Url bs) = Ok bs.
Proof.
  intros H. change (encodeBase64Url bs) with (toBase64Url bs). unfold decodeBase64Url.
  pose proof (toBase64Url_eq bs H) as Eu. pose proof (sextets_range bs H) as Hs.
  assert (forallb is_b64url (toBase64Url bs) = true) as ->.
  { rewrite Eu. apply forallb_forall. intros x (i & <- & Hi)%in_map_iff. rewrite Forall_forall in Hs.
    apply b64url_char_ok, Hs, list_elem_of_In, Hi. }
  cbn [negb]. rewrite toBase64Url_standard by done. rewrite Eu, len_map.
  change ((4 - len (sextets bs) mod 4) mod 4) with (pad_count (len (sextets bs))).
  rewrite atob_padded; [by rewrite unsextets_sextets | done | done |].
  destruct (pad_count_sextets bs) as [-> | [-> | ->]]; lia.
Qed.

Lemma encodeBase64Url_alphabet bs : Forall is_byte bs -> bs <> [] ->
  forallb is_b64url (encodeBase64Url bs) = true /\ encodeBase64Url bs <> [].
Proof.
  intros H Hne. change (encodeBase64Url bs) with (toBase64Url bs). rewrite toBase64Url_eq by done. split.
  - apply forallb_forall. intros x (i & <- & Hi)%in_map_iff. pose proof (sextets_range bs H) as Hs. rewrite Forall_forall in Hs.
    apply b64url_char_ok, Hs, list_elem_of_In, Hi.
  - by destruct bs as [|a [|b [|c r]]].
Qed.

(** What the expression of an identifier takes of a string. *)
Lemma opaque_id_run s pre id post c k x : is_id id -> s = pre ++ id ++ post ->
  match head post with Some u => is_b64url u = false | None => True end ->
  k (length pre + length id)%nat c = Some x -> mtch s opaque_id (length pre) c k = Some x.
Proof.
  intros [Hid Hl] -> Hend Hk. unfold opaque_id, between. cbn [mtch].
  apply (greedy_run_upto (pre ++ id ++ post) is_b64url k x (length id)); [by apply stretch | lia | lia | | | done].
  - rewrite !length_app. lia.
  - by rewrite after_stretch.
Qed.

Lemma opaque_id_complete s : is_id s -> test s OPAQUE_ID_PATTERN = true.
Proof.
  intros H. unfold test. rewrite (exec_at_start s OPAQUE_ID_PATTERN (length s) []); [done |].
  unfold match_at, OPAQUE_ID_PATTERN. cbn [seq mtch starts_line].
  apply (opaque_id_run s [] s [] []); [done | by rewrite app_nil_r | done |].
  cbn [length Nat.add]. unfold ends_line. by rewrite (proj2 (lookup_ge_None s (length s))) by lia.
Qed.

Lemma fragment_matches f id e : is_id id -> forallb is_b64url e = true -> e <> [] -> f = lit "#v1." ++ id ++ 46 :: e ->
  exec f PAIRING_FRAGMENT = Some (0%nat, length f, [(2%nat, (S (4 + length id), length f)); (1%nat, (4, 4 + length id))])%nat.
Proof.
  intros Hid He Hne Ef. apply exec_at_start.
  assert (length f = S (4 + length id + length e))%nat as Hl.
  { rewrite Ef, !length_app. change (length (lit "#v1.")) with 4%nat. cbn [length]. lia. }
  assert (f !! 0%nat = Some 35 /\ f !! 1%nat = Some 118 /\ f !! 2%nat = Some 49 /\ f !! 3%nat = Some 46) as (E0 & E1 & E2 & E3).
  { by rewrite Ef. }
  assert (f !! (4 + length id)%nat = Some 46) as E4.
  { rewrite Ef. exact (after_stretch (lit "#v1.") id (46 :: e)). }
  assert (f = (lit "#v1." ++ id ++ [46]) ++ e ++ []) as Ef2 by by rewrite Ef, app_nil_r, <- !app_assoc.
  assert (length (lit "#v1." ++ id ++ [46]) = S (4 + length id)) as Hpre.
  { rewrite !length_app. change (length (lit "#v1.")) with 4%nat. cbn [length]. lia. }
  unfold match_at, PAIRING_FRAGMENT. change (lit "#v1.") with [35; 118; 49; 46] at 1. cbn [seq mtch text starts_line].
  unfold unit_. cbn [mtch]. rewrite E0. cbn [Z.eqb Pos.eqb]. rewrite E1. cbn [Z.eqb Pos.eqb]. rewrite E2. cbn [Z.eqb Pos.eqb]. rewrite E3. cbn [Z.eqb Pos.eqb].
  apply (opaque_id_run f (lit "#v1.") id (46 :: e)); [exact Hid | exact Ef | done |]. cbn beta. change (length (lit "#v1.")) with 4%nat.
  rewrite E4. cbn [Z.eqb Pos.eqb]. unfold plus. cbn [mtch].
  apply (greedy_run f is_b64url _ _ (length e)); [| by destruct e; cbn; [|lia] | lia | |].
  - rewrite Ef2, <- Hpre. by apply stretch.
  - by rewrite (proj2 (lookup_ge_None f _)) by lia.
  - cbn beta. unfold ends_line. replace (S (4 + length id) + length e)%nat with (length f) by lia.
    by rewrite (proj2 (lookup_ge_None f _)) by lia.
Qed.

(** C37. The link of a pairing is read back: for every identifier of the alphabet
    and every secret of 32 bytes the fragment is made, and parsing it gives the
    identifier and the secret. *)
Theorem pairing_link_roundtrip id secret : is_id id -> Forall is_byte secret -> len secret = 32 ->
  exists f, pairingFragment id secret = Ok f /\ parsePairingFragment f = Ok {| pl_pairingId := id; pl_secret := secret |}.
Proof.
  intros Hid Hb Hl. exists (lit "#v1." ++ id ++ 46 :: encodeBase64Url secret).
  assert (secret <> []) as Hne by by intros ->.
  destruct (encodeBase64Url_alphabet secret Hb Hne) as [Ha He]. unfold pairingFragment, parsePairingFragment.
  unfold assertId, assertBytes. rewrite (opaque_id_complete id Hid), Hl. split; [done |].
  rewrite (fragment_matches _ id _ Hid Ha He eq_refl). set (f := lit "#v1." ++ id ++ 46 :: encodeBase64Url secret).
  change (capture _ 2%nat) with (Some (S (4 + length id), length f))%nat. change (capture _ 1%nat) with (Some (4, 4 + length id))%nat. cbv iota.
  rewrite (units_end f (lit "#v1." ++ id ++ [46]) (encodeBase64Url secret)).
  - rewrite base64url_roundtrip by done. cbn [mbind res_bind]. rewrite Hl, Z.eqb_refl. cbn [mbind res_bind].
    by rewrite (units_mid (lit "#v1.") id (46 :: encodeBase64Url secret)).
  - unfold f. by rewrite <- !app_assoc.
  - rewrite !length_app. change (length (lit "#v1.")) with 4%nat. cbn. lia.
Qed.

Lemma units_run (s : jstring) class a b : (a <= b <= length s)%nat ->
  (forall i, (a <= i < b)%nat -> exists u, s !! i = Some u /\ class u = true) ->
  forallb class (units s a b) = true /\ length (units s a b) = (b - a)%nat.
Proof.
  intros Hab H. unfold units. split.
  - apply forallb_forall. intros u (i & Hi)%list_elem_of_In%list_elem_of_lookup_1.
    apply lookup_take_Some in Hi as [Hi Hlt]. rewrite lookup_drop in Hi. destruct (H (a + i)%nat) as (v & Hv & Hc); [lia | congruence].
  - rewrite length_take, length_drop. lia.
Qed.

(** A fragment that is read has an identifier of the alphabet and 32 bytes. *)
Theorem parsed_link_is_bounded f l : parsePairingFragment f = Ok l -> is_id (pl_pairingId l) /\ len (pl_secret l) = 32.
Proof.
  unfold parsePairingFragment. destruct (exec f PAIRING_FRAGMENT) as [[[p q] c]|] eqn:E; [|done].
  apply exec_sound in E as [Hd Hr]; [|cbn; split_and!; lia || done].
  apply derives_seq in Hd as (x & [_ ->]%derives_start & Hd). apply derives_seq in Hd as (y & [-> _]%derives_text & Hd).
  apply derives_seq in Hd as (z & Hid & Hd).
  destruct (derives_group _ _ _ _ _ Hid eq_refl) as [Hid' Ez]. cbn [fst snd] in *.
  apply derives_seq in Hd as (w & Hdot & Hd). apply derives_class in Hdot as (u & Hu & _ & ->).
  apply derives_seq in Hd as (v & Hs & Hd).
  destruct (derives_group _ _ _ _ _ Hs eq_refl) as [_ Ev]. apply derives_end in Hd as [_ E]. subst v.
  pose proof (derives_run_upto _ _ _ _ _ _ _ Hid') as Hmax. apply derives_run in Hid' as (_ & Hle & Hmin & Hin). cbn [fst snd] in *.
  rewrite Ez in Ev. cbn [fst snd] in Ev. injection Ev as Ec.
  intros H. cbv zeta in H. destruct (decodeBase64Url _) as [secret|] eqn:Es in H; [|done]. cbn [mbind res_bind] in H.
  apply res_then in H as [[? Hb] H]. injection H as <-. cbn [pl_pairingId pl_secret].
  split; [|unfold assertBytes in Hb; destruct (Z.eqb_spec (len secret) 32); done].
  rewrite Ec. change (capture _ 1%nat) with (Some ((p + 4)%nat, z.1)). cbv iota. change (length (lit "#v1.")) with 4%nat in *.
  apply lookup_lt_Some in Hu. destruct (units_run f is_b64url (p + 4)%nat z.1) as [Ha Hl]; [lia | exact Hin |].
  split; [exact Ha | lia].
Qed.

(** ** Examples *)

Module Demo.
Definition counting : bytes := map Z.of_nat (List.seq 0 32).
Definition grant : DeviceGrant := {|
  dg_version := 1; dg_principalId := lit "principal_1234"; dg_controllerId := lit "controller_123"; dg_controllerEpoch := 8;
  dg_pairingId := lit "pairing_123456"; dg_scratchId := lit "scratch_123456"; dg_pendingDeviceId := lit "device_1234567";
  dg_pendingDevicePublicKeyHash := counting; dg_capabilities := DEVICE_CAPABILITIES_MEMBER;
  dg_issuedAtMs := 10000; dg_expiresAtMs := 19000 |}.
Definition self_bootstrap : SelfBootstrap := {|
  sb_version := 1; sb_controllerId := lit "controller_123"; sb_scratchId := lit "scratch_123456"; sb_deviceId := lit "device_1234567";
  sb_devicePublicKeyHash := counting; sb_issuedAtMs := 10000; sb_expiresAtMs := 19000 |}.
Definition hex_of (r : res bytes) : res jstring := b ← r; Ok (bytesToHex b).

(** The fixtures the server is tested with. *)
Example grant_fixture : hex_of (encodeDeviceGrant grant) = Ok (lit
  "6d61726b732d6465766963652d6772616e742d763100010000000e7072696e636970616c5f313233340000000e636f6e74726f6c6c65725f31323300000000000000080000000e70616972696e675f3132333435360000000e736372617463685f3132333435360000000e6465766963655f3132333435363700000020000102030405060708090a0b0c0d0e0f101112131415161718191a1b1c1d1e1f0000000100000000000027100000000000004a38").
Proof. vm_compute. reflexivity. Qed.
Example self_fixture : hex_of (encodeSelfBootstrap self_bootstrap) = Ok (lit
  "6d61726b732d73656c662d626f6f7473747261702d763100010000000e636f6e74726f6c6c65725f3132330000000e736372617463685f3132333435360000000e6465766963655f3132333435363700000020000102030405060708090a0b0c0d0e0f101112131415161718191a1b1c1d1e1f00000000000027100000000000004a38").
Proof. vm_compute. reflexivity. Qed.

(** Unknown capability bits are refused, the one no 32-bit operator sees by the
    writer. *)
Definition with_capabilities (c : Z) : DeviceGrant := {|
  dg_version := 1; dg_principalId := lit "principal_1234"; dg_controllerId := lit "controller_123"; dg_controllerEpoch := 8;
  dg_pairingId := lit "pairing_123456"; dg_scratchId := lit "scratch_123456"; dg_pendingDeviceId := lit "device_1234567";
  dg_pendingDevicePublicKeyHash := counting; dg_capabilities := c; dg_issuedAtMs := 10000; dg_expiresAtMs := 19000 |}.
Example unknown_capabilities :
  map (fun c => is_Ok (encodeDeviceGrant (with_capabilities c))) [0; 7; 8; 4294967297; -1] = [true; true; false; false; false].
Proof. vm_compute. reflexivity. Qed.

(** The last symbol of a secret has two bits to spare, so a link has other
    spellings. *)
Example other_spelling :
  decodeBase64Url (encodeBase64Url counting) = Ok counting /\
  decodeBase64Url (take 42 (encodeBase64Url counting) ++ lit "9") = Ok counting.
Proof. vm_compute. split; reflexivity. Qed.

Lemma signed_bytes_name_statement_witness : Grant grant = Grant grant.
Proof.
  apply (signed_bytes_name_statement (Grant grant) (Grant grant) (match encodeDeviceGrant grant with Ok b => b | Throw _ => [] end)).
  - vm_compute. reflexivity.
  - vm_compute. reflexivity.
  - exact I.
  - exact I.
Defined.

Lemma pairing_link_roundtrip_witness : exists f, pairingFragment (lit "pairing_123456") counting = Ok f /\
  parsePairingFragment f = Ok {| pl_pairingId := lit "pairing_123456"; pl_secret := counting |}.
Proof.
  apply (pairing_link_roundtrip (lit "pairing_123456") counting).
  - split; [reflexivity | cbn; lia].
  - unfold counting. apply Forall_map, Forall_forall. intros i Hi%list_elem_of_In%List.in_seq. unfold is_byte. lia.
  - reflexivity.
Defined.
End Demo.
