(* ===== verification/ReviewStore.v ===== *)
(** Comments and saved versions of the local mode ([client/src/data/review.ts]):
    the three stores of an IndexedDB database, the operations on them, their
    limits, and the comments page by page. *)

From S2P Require Import Prelude TextChange.
From S2P Require Import Bytes.
From S2P Require Import Regex.
From S2P Require Import JsValue.
From S2P Require Import Protocol.
From S2P Require Import AuthProtocol.
From Stdlib Require Import Sorting.Sorted.

(** ** Records *)

Record ReviewReply := Reply {
  rr_id : jstring; rr_author : jstring; rr_own : bool; rr_body : jstring;
  rr_createdAt : Z; rr_editedAt : option Z; rr_deleted : bool
}.
Record ReviewComment := Comment {
  rc_id : jstring; rc_documentId : jstring; rc_author : jstring; rc_own : bool; rc_body : jstring;
  rc_createdAt : Z; rc_editedAt : option Z; rc_deleted : bool; rc_resolved : bool;
  rc_startAnchor : option jstring; rc_endAnchor : option jstring; rc_quote : jstring;
  rc_startOffset : Z; rc_endOffset : Z; rc_replies : list ReviewReply
}.
#[export] Instance eta_comment : Eta ReviewComment := fun c =>
  Comment (rc_id c) (rc_documentId c) (rc_author c) (rc_own c) (rc_body c) (rc_createdAt c) (rc_editedAt c) (rc_deleted c)
    (rc_resolved c) (rc_startAnchor c) (rc_endAnchor c) (rc_quote c) (rc_startOffset c) (rc_endOffset c) (rc_replies c).
#[export] Instance set_editedAt : SetField rc_editedAt. Proof. solve_update. Defined.
#[export] Instance set_deleted : SetField rc_deleted. Proof. solve_update. Defined.
#[export] Instance set_resolved : SetField rc_resolved. Proof. solve_update. Defined.
#[export] Instance set_body : SetField rc_body. Proof. solve_update. Defined.
#[export] Instance set_replies : SetField rc_replies. Proof. solve_update. Defined.

Record DocumentVersion := Version {
  dv_id : jstring; dv_documentId : jstring; dv_label : jstring; dv_author : jstring;
  dv_createdAt : Z; dv_chars : Z; dv_markdown : option jstring; dv_current : bool
}.
(** [DocumentVersion & { storedBytes }] *)
Record LocalVersionRecord := VersionRecord { lv_version : DocumentVersion; lv_storedBytes : Z }.
Record LocalReviewMeta := Meta { lm_documentId : jstring; lm_versionCount : Z; lm_versionBytes : Z }.
Record AnchorRange_ := AnchorRange {
  ra_start : bytes; ra_end : bytes; ra_quote : jstring; ra_startOffset : Z; ra_endOffset : Z
}.
Record ReviewCommentPage := CommentPage { cp_comments : list ReviewComment; cp_nextCursor : option jstring }.

Definition LOCAL_COMMENT_PAGE_SIZE : nat := 25.
Definition MAX_LOCAL_COMMENTS : Z := 10000.
Definition MAX_LOCAL_REPLIES : Z := 200.
Definition MAX_LOCAL_VERSIONS : Z := 100.
Definition MAX_LOCAL_VERSION_BYTES : Z := 64 * 1024 * 1024.

(** What older clients left in [localStorage]: the fields they did not have are
    absent. *)
Record LegacyReply := OldReply {
  or_id : jstring; or_author : jstring; or_own : option bool; or_body : jstring;
  or_createdAt : Z; or_editedAt : option Z; or_deleted : option bool
}.
Record LegacyComment := OldComment {
  oc_id : jstring; oc_documentId : jstring; oc_author : jstring; oc_own : option bool; oc_body : jstring;
  oc_createdAt : Z; oc_editedAt : option Z; oc_deleted : option bool; oc_resolved : option bool;
  oc_startAnchor : option jstring; oc_endAnchor : option jstring; oc_quote : option jstring;
  oc_startOffset : option Z; oc_endOffset : option Z; oc_replies : option (list LegacyReply)
}.

Definition normalizeComment (item : LegacyComment) : ReviewComment := {|
  rc_id := oc_id item; rc_documentId := oc_documentId item; rc_author := oc_author item; rc_own := default true (oc_own item);
  rc_body := oc_body item; rc_createdAt := oc_createdAt item; rc_editedAt := oc_editedAt item;
  rc_deleted := default false (oc_deleted item); rc_resolved := default false (oc_resolved item);
  rc_startAnchor := oc_startAnchor item; rc_endAnchor := oc_endAnchor item; rc_quote := default [] (oc_quote item);
  rc_startOffset := default 0 (oc_startOffset item); rc_endOffset := default 0 (oc_endOffset item);
  rc_replies := map (fun reply => Reply (or_id reply) (or_author reply) (default true (or_own reply)) (or_body reply)
    (or_createdAt reply) (or_editedAt reply) (default false (or_deleted reply))) (default [] (oc_replies item))
|}.

(** A full comment as a partial one. *)
Definition as_partial (c : ReviewComment) : LegacyComment := {|
  oc_id := rc_id c; oc_documentId := rc_documentId c; oc_author := rc_author c; oc_own := Some (rc_own c);
  oc_body := rc_body c; oc_createdAt := rc_createdAt c; oc_editedAt := rc_editedAt c; oc_deleted := Some (rc_deleted c);
  oc_resolved := Some (rc_resolved c); oc_startAnchor := rc_startAnchor c; oc_endAnchor := rc_endAnchor c;
  oc_quote := Some (rc_quote c); oc_startOffset := Some (rc_startOffset c); oc_endOffset := Some (rc_endOffset c);
  oc_replies := Some (map (fun r => OldReply (rr_id r) (rr_author r) (Some (rr_own r)) (rr_body r) (rr_createdAt r)
    (rr_editedAt r) (Some (rr_deleted r))) (rc_replies c))
|}.

(** ** The database and the page *)

Record local_database := Database {
  comments : gmap jstring ReviewComment;
  versions : gmap jstring LocalVersionRecord;
  metas : gmap jstring LocalReviewMeta
}.
#[export] Instance eta_database : Eta local_database := fun d => Database (comments d) (versions d) (metas d).
#[export] Instance set_comments : SetField comments. Proof. solve_update. Defined.
#[export] Instance set_versions : SetField versions. Proof. solve_update. Defined.
#[export] Instance set_metas : SetField metas. Proof. solve_update. Defined.

(** The synchronous keys as their JSON reads, when they hold lists of records of
    the types the application wrote: the code checks no more than that a version's
    text is a string, so identities, times and counts are taken as they stand, and
    the theorems that need them in bounds say so ([legacy_fits]). [removable]
    tells whether the browser lets the keys be removed. *)
Record legacy_keys := LegacyKeys {
  lk_current : list LegacyComment; lk_legacy : list LegacyComment; lk_versions : list DocumentVersion; removable : bool
}.

(** [migrated]: the promise of this page's migration is there. *)
Record review_page := ReviewPage {
  db : local_database; legacy : legacy_keys; migrated : bool; now : Z; drawn_ids : Z; announced : Z
}.
#[export] Instance eta_review_page : Eta review_page := fun p =>
  ReviewPage (db p) (legacy p) (migrated p) (now p) (drawn_ids p) (announced p).
#[export] Instance set_db : SetField db. Proof. solve_update. Defined.
#[export] Instance set_legacy : SetField legacy. Proof. solve_update. Defined.
#[export] Instance set_migrated : SetField migrated. Proof. solve_update. Defined.
#[export] Instance set_now : SetField now. Proof. solve_update. Defined.
#[export] Instance set_drawn_ids : SetField drawn_ids. Proof. solve_update. Defined.
#[export] Instance set_announced : SetField announced. Proof. solve_update. Defined.

(** ** Keys of the index [documentCreated] *)

(** Strings are compared by their units, arrays element by element. *)
Fixpoint str_compare (a b : jstring) : comparison :=
  match a, b with
  | [], [] => Eq
  | [], _ => Lt
  | _, [] => Gt
  | u :: a, v :: b => match u ?= v with Eq => str_compare a b | c => c end
  end.
Definition index_key : Type := jstring * Z * jstring.
Definition key_compare (a b : index_key) : comparison :=
  match str_compare a.1.1 b.1.1 with
  | Eq => match a.1.2 ?= b.1.2 with Eq => str_compare a.2 b.2 | c => c end
  | c => c
  end.
Definition key_of (c : ReviewComment) : index_key := (rc_documentId c, rc_createdAt c, rc_id c).

(** [IDBKeyRange.bound(lower, upper, false, open)] *)
Definition in_range (lower upper : index_key) (open : bool) (k : index_key) : bool :=
  match key_compare lower k with Gt => false | _ => true end &&
  match key_compare k upper with Lt => true | Eq => negb open | Gt => false end.

(** The index from its last key to its first. *)
Fixpoint insert_desc (c : ReviewComment) (l : list ReviewComment) : list ReviewComment :=
  match l with
  | [] => [c]
  | d :: r => match key_compare (key_of c) (key_of d) with Lt => d :: insert_desc c r | _ => c :: l end
  end.
Definition index_prev (m : gmap jstring ReviewComment) : list ReviewComment :=
  foldr insert_desc [] (map snd (map_to_list m)).

(** ** Cursors *)

Definition CURSOR : regex :=
  seq [At_start false; text (lit "local:"); Group 1 (plus (Any_of digit)); unit_ 58; Group 2 opaque_id; At_end false].

(** [Number] of digits: beyond the safe integers it is no safe integer. *)
Definition parseLocalCommentCursor (cursor : option jstring) : res (option (Z * jstring)) :=
  match cursor with
  | None | Some [] => Ok None
  | Some s =>
      match exec s CURSOR with
      | None => plain_error "Invalid local comment cursor."
      | Some (_, _, c) =>
          let group n := match capture c n with Some (a, b) => units s a b | None => [] end in
          let createdAt := dec_number (group 1%nat) in
          if isSafeInteger createdAt then Ok (Some (createdAt, group 2%nat)) else plain_error "Invalid local comment cursor."
      end
  end.
Definition cursor_text (c : ReviewComment) : jstring := lit "local:" ++ Bytes.decimal (rc_createdAt c) ++ 58 :: rc_id c.

(** ** Operations *)

Section Operations.
(** [Date.now], [crypto.randomUUID], and the comparison of [localeCompare]. *)
Context (clock : Z -> Z) (uuid : Z -> jstring) (localeCompare : jstring -> jstring -> Z).

Abbreviation M := (SE review_page).
Definition Date_now : M Z := fun p => (p <| now := now p + 1 |>, Ok (clock (now p))).
Definition randomUUID : M jstring := fun p => (p <| drawn_ids := drawn_ids p + 1 |>, Ok (uuid (drawn_ids p))).
Definition emitReviewChange : M unit := se_modify (fun p => p <| announced := announced p + 1 |>).
Definition stores : M local_database := p ← se_get; mret (db p).
(** The writes of a transaction that commits. *)
Definition commit (f : local_database -> local_database) : M unit := se_modify (fun p => p <| db := f (db p) |>).
Definition refuse {A} (m : string) : M A := se_throw (Exn PlainError m).

(** The versions of a migration, with the counts of their documents. *)
Fixpoint migrate_versions (l : list DocumentVersion) (vs : gmap jstring LocalVersionRecord) (metadata : gmap jstring LocalReviewMeta) :
    gmap jstring LocalVersionRecord * gmap jstring LocalReviewMeta :=
  match l with
  | [] => (vs, metadata)
  | version :: r =>
      match dv_markdown version with
      | None => migrate_versions r vs metadata
      | Some markdown =>
          let bytes := len (utf8_encode markdown) in
          let meta := default (Meta (dv_documentId version) 0 0) (metadata !! dv_documentId version) in
          migrate_versions r (<[dv_id version := VersionRecord version bytes]> vs)
            (<[dv_documentId version := Meta (lm_documentId meta) (lm_versionCount meta + 1) (lm_versionBytes meta + bytes)]> metadata)
      end
  end.

Definition migrated_comments (l : list ReviewComment) (m : gmap jstring ReviewComment) : gmap jstring ReviewComment :=
  fold_left (fun m c => <[rc_id c := c]> m) l m.

Definition legacy_comments (keys : legacy_keys) : list ReviewComment :=
  map normalizeComment (match lk_current keys with [] => lk_legacy keys | l => l end).
(** The transaction of the migration. *)
Definition migrated_database (keys : legacy_keys) (d : local_database) : local_database :=
  let '(vs, metadata) := migrate_versions (lk_versions keys) (versions d) ∅ in
  Database (migrated_comments (legacy_comments keys) (comments d)) vs (metadata ∪ metas d).

Definition migrateLegacyReview : M unit :=
  page ← se_get;
  match legacy_comments (legacy page), lk_versions (legacy page) with
  | [], [] => mret tt
  | _, _ =>
      _ ← commit (migrated_database (legacy page));
      se_modify (fun p => if removable (legacy page) then p <| legacy := LegacyKeys [] [] [] true |> else p)
  end.

Definition preparedDatabase : M local_database :=
  page ← se_get;
  _ ← (if migrated page then mret tt else
       _ ← migrateLegacyReview; se_modify (fun p => p <| migrated := true |>));
  stores.

Definition checkedMessage (value : jstring) : res jstring :=
  let text := trim value in
  if (len text =? 0) || (16 * 1024 <? len (utf8_encode text))
  then plain_error "Review messages must be between 1 byte and 16 KiB." else Ok text.

Definition reviewRange (comment : ReviewComment) : option AnchorRange_ :=
  match rc_startAnchor comment, rc_endAnchor comment with
  | Some (a :: s), Some (b :: e) =>
      match decodeBase64Url (a :: s), decodeBase64Url (b :: e) with
      | Ok start, Ok end_ => Some (AnchorRange start end_ (rc_quote comment) (rc_startOffset comment) (rc_endOffset comment))
      | _, _ => None
      end
  | _, _ => None
  end.

Definition of_document (documentId : jstring) (c : ReviewComment) : bool := str_eqb (rc_documentId c) documentId.
Definition version_of_document (documentId : jstring) (r : LocalVersionRecord) : bool := str_eqb (dv_documentId (lv_version r)) documentId.
(** The index [documentId] of either store. *)
Definition document_comments (d : local_database) (documentId : jstring) : list ReviewComment :=
  List.filter (of_document documentId) (map snd (map_to_list (comments d))).
Definition document_versions (d : local_database) (documentId : jstring) : list LocalVersionRecord :=
  List.filter (version_of_document documentId) (map snd (map_to_list (versions d))).

Definition purgeLocalReviewMetadata (documentId : jstring) : M unit :=
  _ ← preparedDatabase;
  _ ← commit (fun d => Database
    (filter (fun kc => of_document documentId kc.2 = false) (comments d))
    (filter (fun kr => version_of_document documentId kr.2 = false) (versions d))
    (delete documentId (metas d)));
  emitReviewChange.

Definition MAX_SAFE : Z := MAX_SAFE_INTEGER.

Definition listLocalComments (documentId : jstring) (cursor : option jstring) : M ReviewCommentPage :=
  parsed ← se_lift (parseLocalCommentCursor cursor);
  d ← preparedDatabase;
  let lower := (documentId, 0, []) in
  let upper := match parsed with Some (t, id) => (documentId, t, id) | None => (documentId, MAX_SAFE, [65535]) end in
  let open := match parsed with Some _ => true | None => false end in
  let all := List.filter (fun c => in_range lower upper open (key_of c)) (index_prev (comments d)) in
  let collected := map (fun c => normalizeComment (as_partial c)) (take (S LOCAL_COMMENT_PAGE_SIZE) all) in
  let hasMore := (LOCAL_COMMENT_PAGE_SIZE <? length collected)%nat in
  let page := if hasMore then take LOCAL_COMMENT_PAGE_SIZE collected else collected in
  mret (CommentPage page (if hasMore then cursor_text <$> last page else None)).

Definition mutateLocalComment (documentId id : jstring) (mutate : ReviewComment -> M ReviewComment) : M unit :=
  d ← preparedDatabase;
  match comments d !! id with
  | Some comment =>
      if of_document documentId comment then
        updated ← mutate (normalizeComment (as_partial comment));
        _ ← commit (fun d => d <| comments := <[rc_id updated := updated]> (comments d) |>);
        emitReviewChange
      else refuse "Review thread not found."
  | None => refuse "Review thread not found."
  end.

Definition addComment (documentId author body : jstring) (range : AnchorRange_) : M ReviewComment :=
  text ← se_lift (checkedMessage body);
  drawn ← randomUUID;
  createdAt ← Date_now;
  let item := {|
    rc_id := lit "comment-" ++ drawn; rc_documentId := documentId; rc_author := author; rc_own := true; rc_body := text;
    rc_createdAt := createdAt; rc_editedAt := None; rc_deleted := false; rc_resolved := false;
    rc_startAnchor := Some (encodeBase64Url (ra_start range)); rc_endAnchor := Some (encodeBase64Url (ra_end range));
    rc_quote := ra_quote range; rc_startOffset := ra_startOffset range; rc_endOffset := ra_endOffset range; rc_replies := [] |} in
  d ← preparedDatabase;
  if MAX_LOCAL_COMMENTS <=? len (document_comments d documentId) then refuse "Local comment limit reached."
  else match comments d !! rc_id item with
  | Some _ => refuse "ConstraintError"
  | None =>
      _ ← commit (fun d => d <| comments := <[rc_id item := item]> (comments d) |>);
      _ ← emitReviewChange;
      mret item
  end.

Definition updateComment (documentId id : jstring) (resolved : option bool) (body : option jstring) : M unit :=
  match body, resolved with
  | None, None => refuse "No review thread change was requested."
  | _, _ =>
      text ← match body with None => mret None | Some b => t ← se_lift (checkedMessage b); mret (Some t) end;
      mutateLocalComment documentId id (fun item =>
        let item := match resolved with None => item | Some b => item <| rc_resolved := b |> end in
        match text with
        | None => mret item
        | Some t => at_ ← Date_now; mret (item <| rc_body := t |> <| rc_deleted := false |> <| rc_editedAt := Some at_ |>)
        end)
  end.

Definition deleteComment (documentId id : jstring) : M unit :=
  mutateLocalComment documentId id (fun item => mret (item <| rc_body := [] |> <| rc_deleted := true |>)).

Definition addReply (documentId commentId author body : jstring) : M unit :=
  text ← se_lift (checkedMessage body);
  drawn ← randomUUID;
  createdAt ← Date_now;
  let reply := Reply (lit "reply-" ++ drawn) author true text createdAt None false in
  mutateLocalComment documentId commentId (fun item =>
    if MAX_LOCAL_REPLIES <=? len (rc_replies item) then refuse "Local reply limit reached."
    else mret (item <| rc_replies := rc_replies item ++ [reply] |>)).

(** [item.replies.map(...)] over the replies with an identity. *)
Fixpoint map_reply (replyId : jstring) (f : ReviewReply -> M ReviewReply) (l : list ReviewReply) : M (list ReviewReply) :=
  match l with
  | [] => mret []
  | r :: rest =>
      r' ← (if str_eqb (rr_id r) replyId then f r else mret r);
      rest ← map_reply replyId f rest;
      mret (r' :: rest)
  end.
Definition with_reply (documentId commentId replyId : jstring) (f : ReviewReply -> M ReviewReply) : M unit :=
  mutateLocalComment documentId commentId (fun item =>
    replies ← map_reply replyId f (rc_replies item);
    if existsb (fun r => str_eqb (rr_id r) replyId) (rc_replies item) then mret (item <| rc_replies := replies |>)
    else refuse "Review reply not found.").

Definition updateReply (documentId commentId replyId body : jstring) : M unit :=
  text ← se_lift (checkedMessage body);
  with_reply documentId commentId replyId (fun r =>
    at_ ← Date_now; mret (Reply (rr_id r) (rr_author r) (rr_own r) text (rr_createdAt r) (Some at_) false)).
Definition deleteReply (documentId commentId replyId : jstring) : M unit :=
  with_reply documentId commentId replyId (fun r =>
    mret (Reply (rr_id r) (rr_author r) (rr_own r) [] (rr_createdAt r) (rr_editedAt r) true)).

(** [records.sort(...)] *)
Definition newer (a b : LocalVersionRecord) : Z :=
  let d := dv_createdAt (lv_version b) - dv_createdAt (lv_version a) in
  if d =? 0 then localeCompare (dv_id (lv_version b)) (dv_id (lv_version a)) else d.
Fixpoint insert_version (x : LocalVersionRecord) (l : list LocalVersionRecord) : list LocalVersionRecord :=
  match l with [] => [x] | y :: r => if newer x y <=? 0 then x :: l else y :: insert_version x r end.

Definition listVersions (documentId currentText : jstring) : M (list DocumentVersion) :=
  at_ ← Date_now;
  let current := {| dv_id := lit "current-" ++ documentId; dv_documentId := documentId; dv_label := lit "Current document";
    dv_author := lit "This browser"; dv_createdAt := at_; dv_chars := len currentText; dv_markdown := Some currentText; dv_current := true |} in
  d ← preparedDatabase;
  mret (current :: map lv_version (foldr insert_version [] (document_versions d documentId))).

Definition createVersion (documentId author label markdown : jstring) : M DocumentVersion :=
  let versionLabel := trim label in
  if (len versionLabel =? 0) || (160 <? len (utf8_encode versionLabel)) then refuse "Invalid local version label."
  else
    let storedBytes := len (utf8_encode markdown) in
    drawn ← randomUUID;
    createdAt ← Date_now;
    let version := {| dv_id := lit "version-" ++ drawn; dv_documentId := documentId; dv_label := versionLabel; dv_author := author;
      dv_createdAt := createdAt; dv_chars := len markdown; dv_markdown := Some markdown; dv_current := false |} in
    d ← preparedDatabase;
    let meta := default (Meta documentId 0 0) (metas d !! documentId) in
    if (MAX_LOCAL_VERSIONS <=? lm_versionCount meta) || (MAX_LOCAL_VERSION_BYTES <? lm_versionBytes meta + storedBytes)
    then refuse "Local version storage limit reached."
    else match versions d !! dv_id version with
    | Some _ => refuse "ConstraintError"
    | None =>
        _ ← commit (fun d => d
          <| versions := <[dv_id version := VersionRecord version storedBytes]> (versions d) |>
          <| metas := <[documentId := Meta documentId (lm_versionCount meta + 1) (lm_versionBytes meta + storedBytes)]> (metas d) |>);
        _ ← emitReviewChange;
        mret version
    end.

Definition getVersion (documentId id : jstring) : M (option DocumentVersion) :=
  d ← preparedDatabase;
  mret (match versions d !! id with
        | Some record => if version_of_document documentId record then Some (lv_version record) else None
        | None => None
        end).

Definition deleteVersion (documentId id : jstring) : M unit :=
  d ← preparedDatabase;
  match versions d !! id with
  | None => mret tt
  | Some record =>
      if version_of_document documentId record then
        let meta := metas d !! documentId in
        _ ← commit (fun d => d
          <| versions := delete id (versions d) |>
          <| metas := <[documentId := Meta documentId
               (Z.max 0 (default 1 (lm_versionCount <$> meta) - 1))
               (Z.max 0 (default (lv_storedBytes record) (lm_versionBytes <$> meta) - lv_storedBytes record))]> (metas d) |>);
        emitReviewChange
      else mret tt
  end.

(** ** Calls of a page *)

Inductive review_call :=
| ListComments (documentId : jstring) (cursor : option jstring)
| AddComment (documentId author body : jstring) (range : AnchorRange_)
| UpdateComment (documentId id : jstring) (resolved : option bool) (body : option jstring)
| DeleteComment (documentId id : jstring)
| AddReply (documentId commentId author body : jstring)
| UpdateReply (documentId commentId replyId body : jstring)
| DeleteReply (documentId commentId replyId : jstring)
| ListVersions (documentId currentText : jstring)
| CreateVersion (documentId author label markdown : jstring)
| GetVersion (documentId id : jstring)
| DeleteVersion (documentId id : jstring)
| PurgeMetadata (documentId : jstring)
| ReloadPage.

Definition void {A} (m : M A) : M unit := _ ← m; mret tt.
Definition perform_review (c : review_call) : M unit :=
  match c with
  | ListComments d cursor => void (listLocalComments d cursor)
  | AddComment d a b r => void (addComment d a b r)
  | UpdateComment d i r b => updateComment d i r b
  | DeleteComment d i => deleteComment d i
  | AddReply d c a b => addReply d c a b
  | UpdateReply d c r b => updateReply d c r b
  | DeleteReply d c r => deleteReply d c r
  | ListVersions d t => void (listVersions d t)
  | CreateVersion d a l m => void (createVersion d a l m)
  | GetVersion d i => void (getVersion d i)
  | DeleteVersion d i => deleteVersion d i
  | PurgeMetadata d => purgeLocalReviewMetadata d
  | ReloadPage => se_modify (fun p => p <| migrated := false |>)
  end.
(** A call that throws leaves the page to the next one. *)
Fixpoint reviews (l : list review_call) (p : review_page) : review_page :=
  match l with [] => p | c :: r => reviews r (perform_review c p).1 end.
End Operations.

(** ** Order of keys *)

Lemma str_compare_eq a : forall b, str_compare a b = Eq <-> a = b.
Proof.
  induction a as [|u a IH]; intros [|v b]; cbn; [done.. |].
  destruct (Z.compare_spec u v) as [-> | H | H]; [rewrite IH | |]; split; intros E; try congruence; injection E; lia.
Qed.

Lemma str_compare_anti a : forall b, str_compare b a = CompOpp (str_compare a b).
Proof.
  induction a as [|u a IH]; intros [|v b]; cbn; [done.. |]. rewrite Z.compare_antisym. destruct (u ?= v); [apply IH | done..].
Qed.

Lemma str_compare_trans a : forall b c, str_compare a b = Gt -> str_compare b c = Gt -> str_compare a c = Gt.
Proof.
  induction a as [|u a IH]; intros [|v b] [|w c]; cbn; try done.
  destruct (Z.compare_spec u v) as [-> | H | H]; try done.
  - destruct (Z.compare_spec v w); try done. intros. by eapply IH.
  - intros _. destruct (Z.compare_spec v w) as [-> | |]; try done; intros _; by rewrite (proj2 (Z.compare_gt_iff _ _)) by lia.
Qed.

Lemma key_compare_eq a b : key_compare a b = Eq <-> a = b.
Proof.
  destruct a as [[d t] i], b as [[d' t'] i']. unfold key_compare. cbn.
  destruct (str_compare d d') eqn:Ed.
  - apply str_compare_eq in Ed as ->. destruct (Z.compare_spec t t') as [-> | |]; [rewrite str_compare_eq | |]; split; intros E; try congruence; injection E; lia.
  - split; [done |]. intros [= -> -> ->]. by rewrite (proj2 (str_compare_eq d' d') eq_refl) in Ed.
  - split; [done |]. intros [= -> -> ->]. by rewrite (proj2 (str_compare_eq d' d') eq_refl) in Ed.
Qed.

Lemma key_compare_anti a b : key_compare b a = CompOpp (key_compare a b).
Proof.
  unfold key_compare. rewrite (str_compare_anti a.1.1), (Z.compare_antisym a.1.2).
  destruct (str_compare a.1.1 b.1.1); [|done..]. destruct (a.1.2 ?= b.1.2); [apply str_compare_anti | done..].
Qed.

Lemma key_compare_trans a b c : key_compare a b = Gt -> key_compare b c = Gt -> key_compare a c = Gt.
Proof.
  destruct a as [[d t] i], b as [[d' t'] i'], c as [[d2 t2] i2]. unfold key_compare. cbn.
  destruct (str_compare d d') eqn:E1; [| done |].
  - apply str_compare_eq in E1 as ->. destruct (str_compare d' d2); [| done | done].
    destruct (Z.compare_spec t t') as [-> | | H1]; [| done |].
    + destruct (t' ?= t2); [apply str_compare_trans | done..].
    + intros _. destruct (Z.compare_spec t' t2) as [-> | |]; [| done |]; intros _; by rewrite (proj2 (Z.compare_gt_iff _ _)) by lia.
  - intros _. destruct (str_compare d' d2) eqn:E2; [| done |].
    + apply str_compare_eq in E2 as ->. by rewrite E1.
    + intros _. by rewrite (str_compare_trans _ _ _ E1 E2).
Qed.

(** [c] comes before [d] when the index is walked backwards. *)
Definition before (c d : ReviewComment) : Prop := key_compare (key_of c) (key_of d) = Gt.

Lemma insert_desc_perm c l : insert_desc c l ≡ₚ c :: l.
Proof.
  induction l as [|d l IH]; [done |]. cbn. destruct (key_compare _ _); [done | | done]. rewrite IH. by rewrite Permutation_swap.
Qed.

Lemma insert_desc_sorted c l : StronglySorted before l -> (forall d, d ∈ l -> key_of d <> key_of c) -> StronglySorted before (insert_desc c l).
Proof.
  induction 1 as [|d l Hl IH Hd]; intros Hne; cbn; [repeat constructor |].
  destruct (key_compare (key_of c) (key_of d)) eqn:E.
  - apply key_compare_eq in E. destruct (Hne d); [apply list_elem_of_here | done].
  - constructor; [apply IH; intros x Hx; apply Hne; by apply list_elem_of_further |].
    rewrite insert_desc_perm. constructor; [|done]. unfold before. by rewrite key_compare_anti, E.
  - constructor; [by constructor |]. constructor; [done |]. eapply Forall_impl; [exact Hd |]. intros x Hx. by eapply key_compare_trans.
Qed.

Definition keyed (m : gmap jstring ReviewComment) : Prop := forall id c, m !! id = Some c -> rc_id c = id.

Lemma index_prev_perm m : index_prev m ≡ₚ map snd (map_to_list m).
Proof.
  unfold index_prev. induction (map snd (map_to_list m)) as [|c l IH]; [done |]. cbn. by rewrite insert_desc_perm, IH.
Qed.

Lemma index_prev_sorted m : keyed m -> StronglySorted before (index_prev m).
Proof.
  intros Hk. unfold index_prev.
  assert (forall l, NoDup (map fst l) -> (forall id c, (id, c) ∈ l -> rc_id c = id) ->
    StronglySorted before (foldr insert_desc [] (map snd l)) /\ foldr insert_desc [] (map snd l) ≡ₚ map snd l) as H.
  { induction l as [|[id c] l IH]; cbn [map foldr fst snd]; [by split; [constructor |] |].
    intros [Hn Hd]%NoDup_cons Hl. destruct IH as [Hs Hp]; [done | intros; apply Hl; by apply list_elem_of_further |]. split.
    - apply insert_desc_sorted; [done |]. intros d. rewrite Hp. intros ([id' d'] & -> & Hin)%list_elem_of_fmap E. cbn in E.
      apply Hn, list_elem_of_fmap. exists (id', d'). split; [|done]. cbn.
      rewrite <- (Hl id' d') by by apply list_elem_of_further. rewrite <- (Hl id c) by apply list_elem_of_here. by injection E.
    - by rewrite insert_desc_perm, Hp. }
  apply H; [apply NoDup_fst_map_to_list |]. intros id c Hin%elem_of_map_to_list. by apply Hk.
Qed.

(** ** Cursors are read back *)

Lemma decimal_run n : 0 <= n -> forallb digit (Bytes.decimal n) = true /\ Bytes.decimal n <> [].
Proof.
  intros H. assert (forall s, forallb is_digit s = true -> forallb digit s = true) as Hd.
  { intros s. rewrite !forallb_forall. intros Hs u Hu. exact (Hs u Hu). }
  destruct (decide (n = 0)) as [->|]; [done |]. destruct (decimal_all_digits n) as [H1 H2]; [lia |]. auto.
Qed.

Lemma cursor_matches s ds id : forallb digit ds = true -> ds <> [] -> is_id id -> s = lit "local:" ++ ds ++ 58 :: id ->
  exec s CURSOR = Some (0%nat, length s, [(2%nat, (S (6 + length ds), length s)); (1%nat, (6, 6 + length ds))])%nat.
Proof.
  intros Hds Hne Hid Es. apply exec_at_start.
  assert (length s = S (6 + length ds + length id))%nat as Hl.
  { rewrite Es, !length_app. change (length (lit "local:")) with 6%nat. cbn [length]. lia. }
  assert (s !! 0%nat = Some 108 /\ s !! 1%nat = Some 111 /\ s !! 2%nat = Some 99 /\ s !! 3%nat = Some 97 /\ s !! 4%nat = Some 108 /\ s !! 5%nat = Some 58)
    as (E0 & E1 & E2 & E3 & E4 & E5) by by rewrite Es.
  assert (s !! (6 + length ds)%nat = Some 58) as E6 by (rewrite Es; exact (after_stretch (lit "local:") ds (58 :: id))).
  assert (s = (lit "local:" ++ ds ++ [58]) ++ id ++ []) as Es2 by by rewrite Es, app_nil_r, <- !app_assoc.
  assert (length (lit "local:" ++ ds ++ [58]) = S (6 + length ds)) as Hpre.
  { rewrite !length_app. change (length (lit "local:")) with 6%nat. cbn [length]. lia. }
  unfold match_at, CURSOR. change (lit "local:") with [108; 111; 99; 97; 108; 58] at 1. cbn [seq mtch text starts_line].
  unfold unit_. cbn [mtch]. rewrite E0. cbn [Z.eqb Pos.eqb]. rewrite E1. cbn [Z.eqb Pos.eqb]. rewrite E2. cbn [Z.eqb Pos.eqb].
  rewrite E3. cbn [Z.eqb Pos.eqb]. rewrite E4. cbn [Z.eqb Pos.eqb]. rewrite E5. cbn [Z.eqb Pos.eqb]. unfold plus. cbn [mtch].
  apply (greedy_run s digit _ _ (length ds)); [| by destruct ds; cbn; [|lia] | lia | |].
  - rewrite Es. exact (stretch (lit "local:") ds (58 :: id) digit Hds).
  - change (6 + length ds)%nat with (6 + length ds)%nat in E6. by rewrite E6.
  - cbn beta. rewrite E6. cbn [Z.eqb Pos.eqb]. rewrite <- Hpre. rewrite Hpre at 2.
    apply (opaque_id_run s (lit "local:" ++ ds ++ [58]) id []); [exact Hid | exact Es2 | done |].
    cbn beta. unfold ends_line. rewrite Hpre. replace (S (6 + length ds) + length id)%nat with (length s) by lia.
    by rewrite (proj2 (lookup_ge_None s _)) by lia.
Qed.

Definition key_ok (c : ReviewComment) : Prop := is_id (rc_id c) /\ 0 <= rc_createdAt c <= MAX_SAFE_INTEGER.

Lemma cursor_roundtrip c : key_ok c -> parseLocalCommentCursor (Some (cursor_text c)) = Ok (Some (rc_createdAt c, rc_id c)).
Proof.
  intros [Hid Ht]. destruct (decimal_run (rc_createdAt c)) as [Hd Hne]; [lia |]. unfold parseLocalCommentCursor.
  assert (exists u r, cursor_text c = u :: r) as (u & r & E) by by eexists _, _. rewrite E, <- E.
  rewrite (cursor_matches (cursor_text c) _ _ Hd Hne Hid eq_refl). set (s := cursor_text c).
  change (capture _ 1%nat) with (Some (6, 6 + length (Bytes.decimal (rc_createdAt c))))%nat.
  change (capture _ 2%nat) with (Some (S (6 + length (Bytes.decimal (rc_createdAt c))), length s)). cbv iota zeta.
  rewrite (units_mid (lit "local:") (Bytes.decimal (rc_createdAt c)) (58 :: rc_id c)) by done.
  rewrite (units_end s (lit "local:" ++ Bytes.decimal (rc_createdAt c) ++ [58]) (rc_id c)).
  - rewrite dec_number_decimal by lia. rewrite (proj2 (isSafeInteger_spec _)); [done |]. unfold MAX_SAFE_INTEGER in *. lia.
  - unfold s, cursor_text. by rewrite <- !app_assoc.
  - rewrite !length_app. change (length (lit "local:")) with 6%nat. cbn. lia.
Qed.

(** ** Pages *)

Lemma normalize_partial c : normalizeComment (as_partial c) = c.
Proof.
  destruct c as [id doc author own body created edited del res sa ea quote so eo replies]. unfold normalizeComment, as_partial. cbn. f_equal.
  rewrite map_map. cbn. induction replies as [|[] r IH]; [done |]. cbn. by f_equal.
Qed.

(** The comments of a document in the order of the list. *)
Definition listed (documentId : jstring) (m : gmap jstring ReviewComment) : list ReviewComment :=
  List.filter (of_document documentId) (index_prev m).

Lemma str_compare_refl a : str_compare a a = Eq.
Proof. by apply str_compare_eq. Qed.

Lemma id_below a : is_id a -> str_compare a [65535] = Lt.
Proof.
  intros [Ha Hl]. destruct a as [|u a]; [cbn in Hl; lia |]. cbn in Ha |- *. apply andb_true_iff in Ha as [Hu _].
  apply is_b64url_range in Hu. by rewrite (proj2 (Z.compare_lt_iff _ _)) by lia.
Qed.

(** Being in a range that starts at the first key of a document. *)
Lemma in_document_range doc t i open c : 0 <= rc_createdAt c ->
  in_range (doc, 0, []) (doc, t, i) open (key_of c) =
  of_document doc c && match key_compare (key_of c) (doc, t, i) with Lt => true | Eq => negb open | Gt => false end.
Proof.
  intros Ht. unfold in_range, of_document, key_of, key_compare. cbn [fst snd].
  rewrite (str_compare_anti (rc_documentId c) doc). destruct (str_compare (rc_documentId c) doc) eqn:E; cbn [CompOpp].
  - apply str_compare_eq in E as ->. rewrite str_eqb_refl. destruct (Z.compare_spec 0 (rc_createdAt c)); [by destruct (rc_id c) | done | lia].
  - rewrite str_eqb_neq; [done |]. intros E'. by rewrite E', str_compare_refl in E.
  - rewrite str_eqb_neq; [done |]. intros E'. by rewrite E', str_compare_refl in E.
Qed.

Lemma first_range doc c : key_ok c -> in_range (doc, 0, []) (doc, MAX_SAFE, [65535]) false (key_of c) = of_document doc c.
Proof.
  intros [Hid Ht]. rewrite in_document_range by lia. destruct (of_document doc c) eqn:E; [|done].
  unfold of_document in E. apply str_eqb_eq in E. unfold key_compare, key_of. cbn [fst snd andb]. rewrite E, str_compare_refl.
  unfold MAX_SAFE. destruct (Z.compare_spec (rc_createdAt c) MAX_SAFE_INTEGER); [by rewrite id_below | done | lia].
Qed.

Lemma filter_ext_in {A} (f g : A -> bool) l : (forall x, x ∈ l -> f x = g x) -> List.filter f l = List.filter g l.
Proof.
  induction l as [|x l IH]; intros H; [done |]. cbn. rewrite (H x), IH; [done | | apply list_elem_of_here].
  intros y Hy. apply H. by apply list_elem_of_further.
Qed.
Lemma filter_none {A} (f : A -> bool) l : (forall x, x ∈ l -> f x = false) -> List.filter f l = [].
Proof.
  induction l as [|x l IH]; intros H; [done |]. cbn. rewrite (H x) by apply list_elem_of_here. apply IH. intros y Hy.
  apply H. by apply list_elem_of_further.
Qed.
Lemma filter_perm {A} (f : A -> bool) l k : l ≡ₚ k -> List.filter f l ≡ₚ List.filter f k.
Proof.
  induction 1 as [|x l k _ IH | x y l | l k j _ IH1 _ IH2]; cbn; [done | | | by etrans].
  - destruct (f x); [by rewrite IH | done].
  - destruct (f x), (f y); try done. apply Permutation_swap.
Qed.
Lemma filter_both {A} (f g : A -> bool) l : List.filter (fun x => f x && g x) l = List.filter g (List.filter f l).
Proof. induction l as [|x l IH]; [done |]. cbn. destruct (f x); cbn; [by rewrite IH | done]. Qed.

Lemma listed_sorted doc m : keyed m -> StronglySorted before (listed doc m).
Proof.
  intros Hk. unfold listed. pose proof (index_prev_sorted m Hk) as H. induction H as [|c l Hl IH Hc]; cbn; [constructor |].
  destruct (of_document doc c); [|done]. constructor; [done |]. apply Forall_forall. intros d Hd.
  rewrite Forall_forall in Hc. apply Hc. apply list_elem_of_In. apply list_elem_of_In, filter_In in Hd. tauto.
Qed.

(** What comes after a comment in the index is what comes after it in the list. *)
Lemma sorted_after l1 c l2 : StronglySorted before (l1 ++ c :: l2) ->
  List.filter (fun d => match key_compare (key_of d) (key_of c) with Lt => true | Eq => negb true | Gt => false end) (l1 ++ c :: l2) = l2.
Proof.
  intros H. rewrite List.filter_app. cbn [List.filter]. rewrite (proj2 (key_compare_eq _ _)) by done. cbn [negb].
  rewrite filter_none; [cbn [app] |].
  - induction l1 as [|x l1 IH]; cbn [app] in H; [|inversion H; auto].
    inversion H as [|? ? _ Hc]; subst. apply filter_all. eapply Forall_impl; [exact Hc |]. intros d Hd. cbn beta.
    unfold before in Hd. by rewrite key_compare_anti, Hd.
  - intros x Hx. induction l1 as [|y l1 IH]; [by apply not_elem_of_nil in Hx |]. cbn [app] in H. inversion H as [|? ? Hs Hy]; subst.
    apply elem_of_cons in Hx as [-> | Hx]; [|by apply IH]. rewrite Forall_forall in Hy.
    assert (before y c) as Hb by (apply Hy, elem_of_app; right; apply list_elem_of_here). unfold before in Hb. by rewrite Hb.
Qed.

Lemma after_range doc m l1 c l2 : keyed m -> (forall id x, m !! id = Some x -> key_ok x) -> listed doc m = l1 ++ c :: l2 ->
  List.filter (fun x => in_range (doc, 0, []) (doc, rc_createdAt c, rc_id c) true (key_of x)) (index_prev m) = l2.
Proof.
  intros Hk Hok E.
  assert (rc_documentId c = doc) as Hdoc.
  { assert (c ∈ listed doc m) as Hc by (rewrite E; apply elem_of_app; right; apply list_elem_of_here).
    apply list_elem_of_In, filter_In in Hc as [_ Hc]. by apply str_eqb_eq. }
  rewrite (filter_ext_in _ (fun x => of_document doc x && match key_compare (key_of x) (key_of c) with Lt => true | Eq => negb true | Gt => false end)).
  - rewrite filter_both. fold (listed doc m). rewrite E. apply sorted_after. rewrite <- E. by apply listed_sorted.
  - intros x Hx. rewrite index_prev_perm in Hx. apply list_elem_of_fmap in Hx as ([id y] & -> & Hy%elem_of_map_to_list).
    rewrite in_document_range by by apply (Hok id y). cbn [snd]. by subst doc.
Qed.

Section Pages.
Context (p : review_page) (doc : jstring) (Hm : migrated p = true).
Context (Hkeyed : keyed (comments (db p))) (Hok : forall id c, comments (db p) !! id = Some c -> key_ok c).

(** Following the cursors of the pages, [None] when [n] calls do not reach the
    last page or one throws. *)
Fixpoint follow (n : nat) (cursor : option jstring) : option (list (list ReviewComment)) :=
  match n with
  | O => None
  | S n =>
      match (listLocalComments doc cursor p).2 with
      | Throw _ => None
      | Ok page =>
          match cp_nextCursor page with
          | None => Some [cp_comments page]
          | c => cons (cp_comments page) <$> follow n c
          end
      end
  end.

(** The range a cursor stands for. *)
Definition remaining (parsed : option (Z * jstring)) : list ReviewComment :=
  let upper := match parsed with Some (t, id) => (doc, t, id) | None => (doc, MAX_SAFE, [65535]) end in
  let open := match parsed with Some _ => true | None => false end in
  List.filter (fun c => in_range (doc, 0, []) upper open (key_of c)) (index_prev (comments (db p))).

Lemma list_page cursor parsed : parseLocalCommentCursor cursor = Ok parsed ->
  (listLocalComments doc cursor p).2 = Ok (
    let rest := remaining parsed in
    if (LOCAL_COMMENT_PAGE_SIZE <? length rest)%nat
    then CommentPage (take LOCAL_COMMENT_PAGE_SIZE rest) (cursor_text <$> last (take LOCAL_COMMENT_PAGE_SIZE rest))
    else CommentPage rest None).
Proof.
  intros E. unfold listLocalComments, mbind, SE_bind, se_lift. rewrite E. unfold preparedDatabase, stores, se_get, mbind, SE_bind. rewrite Hm.
  cbn [mret SE_ret snd]. fold (remaining parsed). cbv zeta. rewrite <- firstn_map, length_take, length_map. unfold LOCAL_COMMENT_PAGE_SIZE.
  rewrite (map_ext _ id (fun c => normalize_partial c)), map_id.
  destruct (25 <? length (remaining parsed))%nat eqn:El.
  - apply Nat.ltb_lt in El. rewrite (proj2 (Nat.ltb_lt _ _)) by lia. by rewrite take_take.
  - apply Nat.ltb_ge in El. rewrite (proj2 (Nat.ltb_ge _ _)) by lia. by rewrite take_ge by lia.
Qed.

Lemma listed_ok c : c ∈ listed doc (comments (db p)) -> key_ok c.
Proof.
  intros [Hc _]%list_elem_of_In%filter_In. apply list_elem_of_In in Hc. rewrite index_prev_perm in Hc.
  apply list_elem_of_fmap in Hc as ([id y] & -> & Hy%elem_of_map_to_list). by apply (Hok id).
Qed.

Lemma follow_rest n : forall cursor parsed l1, parseLocalCommentCursor cursor = Ok parsed ->
  listed doc (comments (db p)) = l1 ++ remaining parsed -> (length (remaining parsed) < LOCAL_COMMENT_PAGE_SIZE * n)%nat ->
  exists pages, follow n cursor = Some pages /\ concat pages = remaining parsed /\
    Forall (fun page => (length page <= LOCAL_COMMENT_PAGE_SIZE)%nat) pages.
Proof.
  induction n as [|n IH]; intros cursor parsed l1 Ep El Hn; [lia |]. cbn [follow]. rewrite (list_page cursor parsed Ep). cbv zeta.
  set (rest := remaining parsed) in *. unfold LOCAL_COMMENT_PAGE_SIZE in *. destruct (25 <? length rest)%nat eqn:Elt.
  2:{ apply Nat.ltb_ge in Elt. exists [rest]. cbn [cp_nextCursor cp_comments concat]. rewrite app_nil_r. split_and!; [done.. |]. by constructor. }
  apply Nat.ltb_lt in Elt. cbn [cp_nextCursor cp_comments].
  destruct (lookup_lt_is_Some_2 rest 24 ltac:(lia)) as [c Hc].
  assert (last (take 25 rest) = Some c) as ->.
  { rewrite last_lookup, length_take. replace (pred (25 `min` length rest)) with 24%nat by lia. by rewrite lookup_take_lt by lia. }
  cbn [fmap option_fmap option_map].
  pose proof (take_drop_middle rest 24 c Hc) as Esplit.
  assert (key_ok c) as Hkc by (apply listed_ok; rewrite El, <- Esplit; set_solver).
  assert (remaining (Some (rc_createdAt c, rc_id c)) = drop 25 rest) as Er.
  { unfold remaining. apply (after_range doc (comments (db p)) (l1 ++ take 24 rest) c (drop 25 rest)); [done | done |].
    by rewrite El, <- app_assoc, Esplit. }
  assert (take 25 rest = take 24 rest ++ [c]) as Et by by apply take_S_r.
  destruct (IH (Some (cursor_text c)) (Some (rc_createdAt c, rc_id c)) (l1 ++ take 25 rest)) as (pages & E1 & E2 & E3).
  - by apply cursor_roundtrip.
  - rewrite Er, El, <- app_assoc, take_drop. done.
  - rewrite Er, length_drop. lia.
  - rewrite E1. exists (take 25 rest :: pages). cbn [fmap option_fmap option_map concat]. rewrite E2, Er, take_drop. split_and!; [done | done |].
    constructor; [rewrite length_take; lia | done].
Qed.
End Pages.

(** C39. The pages list every comment once: for every content of the database whose
    identities match the alphabet of a cursor and whose times are safe integers
    ([key_ok], as the comments this client makes), the cursors lead through pages of at most 25 comments to the last one, and their
    concatenation has exactly the comments of the document, the newest first and
    by identity among those of one instant. *)
Theorem pages_list_every_comment p doc :
  migrated p = true -> keyed (comments (db p)) -> (forall id c, comments (db p) !! id = Some c -> key_ok c) ->
  exists pages, follow p doc (S (length (document_comments (db p) doc) / LOCAL_COMMENT_PAGE_SIZE)) None = Some pages /\
    concat pages ≡ₚ document_comments (db p) doc /\ StronglySorted before (concat pages) /\
    Forall (fun page => (length page <= LOCAL_COMMENT_PAGE_SIZE)%nat) pages.
Proof.
  intros Hm Hk Hok.
  assert (remaining p doc None = listed doc (comments (db p))) as E0.
  { unfold remaining, listed. apply filter_ext_in. intros c Hc. apply first_range.
    rewrite index_prev_perm in Hc. apply list_elem_of_fmap in Hc as ([id y] & -> & Hy%elem_of_map_to_list). by apply (Hok id). }
  assert (listed doc (comments (db p)) ≡ₚ document_comments (db p) doc) as Hp.
  { unfold listed, document_comments. by apply filter_perm, index_prev_perm. }
  destruct (follow_rest p doc Hm Hk Hok (S (length (document_comments (db p) doc) / 25)) None None []) as (pages & E1 & E2 & E3).
  - done.
  - by rewrite E0.
  - rewrite E0, (Permutation_length Hp). unfold LOCAL_COMMENT_PAGE_SIZE.
    pose proof (Nat.div_mod_eq (length (document_comments (db p) doc)) 25).
    pose proof (Nat.mod_upper_bound (length (document_comments (db p) doc)) 25 ltac:(lia)). lia.
  - exists pages. rewrite E2, E0. split_and!; [done | done | by apply listed_sorted | done].
Qed.

(** ** The accounts of the versions *)

Definition select {A} (f : A -> bool) (m : gmap jstring A) : list A := List.filter f (map snd (map_to_list m)).
Definition picked {A} (f : A -> bool) (x : A) : list A := if f x then [x] else [].

Lemma select_insert {A} (f : A -> bool) m id x : m !! id = None -> select f (<[id := x]> m) ≡ₚ picked f x ++ select f m.
Proof.
  intros H. unfold select. rewrite (filter_perm f _ (x :: map snd (map_to_list m))).
  - unfold picked. cbn. by destruct (f x).
  - by rewrite (map_to_list_insert m id x H).
Qed.

Lemma select_delete {A} (f : A -> bool) m id x : m !! id = Some x -> picked f x ++ select f (delete id m) ≡ₚ select f m.
Proof. intros H. rewrite <- (select_insert f (delete id m) id x (lookup_delete_eq m id)). by rewrite insert_delete_eq, insert_id. Qed.

(** Replacing a value by one of the same kind. *)
Lemma select_update {A} (f : A -> bool) m id x y : m !! id = Some x -> f x = f y ->
  length (select f (<[id := y]> m)) = length (select f m).
Proof.
  intros H E. rewrite <- (insert_delete_eq m id y), (Permutation_length (select_insert f _ id y (lookup_delete_eq m id))).
  rewrite <- (Permutation_length (select_delete f m id x H)), !length_app. unfold picked. rewrite E. by destruct (f y).
Qed.

Lemma select_in {A} (f : A -> bool) m x : x ∈ select f m -> exists id, m !! id = Some x /\ f x = true.
Proof.
  intros [Hx Hf]%list_elem_of_In%filter_In. apply list_elem_of_In, list_elem_of_fmap in Hx as ([id y] & -> & Hy%elem_of_map_to_list). by exists id.
Qed.

Definition total_bytes (l : list LocalVersionRecord) : Z := foldr (fun r z => lv_storedBytes r + z) 0 l.

Lemma total_bytes_perm l k : l ≡ₚ k -> total_bytes l = total_bytes k.
Proof. unfold total_bytes. induction 1; cbn; lia. Qed.
Lemma total_bytes_app l k : total_bytes (l ++ k) = total_bytes l + total_bytes k.
Proof. unfold total_bytes. induction l as [|r l IH]; [done |]. cbn. lia. Qed.

(** The account of a document: absent or exact. *)
Definition account (d : local_database) (doc : jstring) (m : option LocalReviewMeta) : Prop :=
  match m with
  | Some m => m = Meta doc (len (document_versions d doc)) (total_bytes (document_versions d doc))
  | None => document_versions d doc = []
  end.
Definition accurate (d : local_database) : Prop := forall doc, account d doc (metas d !! doc).

(** Records under their keys, with their sizes. *)
Definition well_kept (d : local_database) : Prop :=
  keyed (comments d) /\
  forall id r, versions d !! id = Some r -> dv_id (lv_version r) = id /\
    exists m, dv_markdown (lv_version r) = Some m /\ lv_storedBytes r = len (utf8_encode m).

Definition within_limits (d : local_database) : Prop :=
  (forall doc, len (document_versions d doc) <= MAX_LOCAL_VERSIONS /\ total_bytes (document_versions d doc) <= MAX_LOCAL_VERSION_BYTES /\
     len (document_comments d doc) <= MAX_LOCAL_COMMENTS) /\
  (forall id c, comments d !! id = Some c -> len (rc_replies c) <= MAX_LOCAL_REPLIES).

Definition good (d : local_database) : Prop := accurate d /\ well_kept d /\ within_limits d.

Lemma sizes_nonneg d doc : well_kept d -> 0 <= total_bytes (document_versions d doc).
Proof.
  intros [_ Hv]. assert (Forall (fun r => 0 <= lv_storedBytes r) (document_versions d doc)) as H.
  { apply Forall_forall. intros r (id & Hr & _)%select_in. destruct (Hv id r Hr) as (_ & m & _ & ->). apply len_nonneg. }
  unfold total_bytes. induction H; cbn; lia.
Qed.

(** Saving a version under a fresh identity. *)
Lemma account_default d doc : accurate d -> default (Meta doc 0 0) (metas d !! doc)
  = Meta doc (len (document_versions d doc)) (total_bytes (document_versions d doc)).
Proof.
  intros H. specialize (H doc). unfold account in H. destruct (metas d !! doc); [done |]. by rewrite H.
Qed.

Lemma document_versions_insert d id r doc ms : versions d !! id = None ->
  document_versions (Database (comments d) (<[id := r]> (versions d)) ms) doc ≡ₚ picked (version_of_document doc) r ++ document_versions d doc.
Proof. intros H. exact (select_insert (version_of_document doc) (versions d) id r H). Qed.

Lemma accurate_insert d doc id version size : accurate d -> versions d !! id = None -> dv_documentId version = doc ->
  accurate (Database (comments d) (<[id := VersionRecord version size]> (versions d))
    (<[doc := Meta doc (len (document_versions d doc) + 1) (total_bytes (document_versions d doc) + size)]> (metas d))).
Proof.
  intros Ha Hid Hdoc doc'. cbn [metas]. pose proof (document_versions_insert d id (VersionRecord version size) doc'
    (<[doc := Meta doc (len (document_versions d doc) + 1) (total_bytes (document_versions d doc) + size)]> (metas d)) Hid) as Hp.
  set (d' := Database _ _ _) in *. unfold picked, version_of_document in Hp. cbn [lv_version] in Hp. rewrite Hdoc in Hp.
  destruct (decide (doc' = doc)) as [->|Hne].
  - rewrite str_eqb_refl in Hp. rewrite lookup_insert_eq. cbn [account]. f_equal.
    + unfold len. rewrite (Permutation_length Hp). cbn. lia.
    + rewrite (total_bytes_perm _ _ Hp). unfold total_bytes. cbn. lia.
  - rewrite str_eqb_neq in Hp by congruence. rewrite lookup_insert_ne by done. cbn [app] in Hp. specialize (Ha doc').
    unfold account in *. destruct (metas d !! doc') as [m|].
    + unfold len. by rewrite (Permutation_length Hp), (total_bytes_perm _ _ Hp).
    + rewrite Ha in Hp. by apply Permutation_nil_r in Hp.
Qed.

Lemma accurate_delete d doc id r ms : accurate d -> versions d !! id = Some r -> version_of_document doc r = true ->
  well_kept d ->
  ms = <[doc := Meta doc (Z.max 0 (default 1 (lm_versionCount <$> metas d !! doc) - 1))
    (Z.max 0 (default (lv_storedBytes r) (lm_versionBytes <$> metas d !! doc) - lv_storedBytes r))]> (metas d) ->
  accurate (Database (comments d) (delete id (versions d)) ms).
Proof.
  intros Ha Hid Hr Hk -> doc'. cbn [metas].
  assert (picked (version_of_document doc') r ++ document_versions (Database (comments d) (delete id (versions d)) ∅) doc' ≡ₚ document_versions d doc') as Hp
    by exact (select_delete (version_of_document doc') (versions d) id r Hid).
  change (document_versions (Database (comments d) (delete id (versions d)) ∅) doc') with (select (version_of_document doc') (delete id (versions d))) in Hp.
  unfold account. change (document_versions (Database _ _ _) doc') with (select (version_of_document doc') (delete id (versions d))).
  destruct (decide (doc' = doc)) as [->|Hne].
  - rewrite lookup_insert_eq. unfold picked in Hp. rewrite Hr in Hp.
    assert (0 <= total_bytes (select (version_of_document doc) (delete id (versions d)))) as Hb.
    { change (0 <= total_bytes (document_versions (Database (comments d) (delete id (versions d)) ∅) doc)).
      apply sizes_nonneg. split; [apply Hk |].
      cbn [versions]. intros id' r' [_ E]%lookup_delete_Some. by apply Hk. }
    pose proof (Ha doc) as Hd. unfold account in Hd. destruct (metas d !! doc) as [m|].
    + rewrite Hd. cbn [fmap option_fmap option_map lm_versionCount lm_versionBytes]. change (default 1 (Some ?x)) with x. change (default (lv_storedBytes r) (Some ?x)) with x.
      unfold len. rewrite <- (Permutation_length Hp), <- (total_bytes_perm _ _ Hp). cbn [app length total_bytes foldr]. fold (total_bytes (select (version_of_document doc) (delete id (versions d)))).
      f_equal; lia.
    + rewrite Hd in Hp. by apply Permutation_nil_r in Hp.
  - rewrite lookup_insert_ne by done. unfold picked in Hp.
    assert (version_of_document doc' r = false) as E.
    { unfold version_of_document in *. apply str_eqb_eq in Hr. rewrite Hr. apply str_eqb_neq. congruence. }
    rewrite E in Hp. cbn [app] in Hp. specialize (Ha doc'). unfold account in Ha. destruct (metas d !! doc') as [m|].
    + unfold len. by rewrite (Permutation_length Hp), (total_bytes_perm _ _ Hp).
    + rewrite Ha in Hp. by apply Permutation_nil_r in Hp.
Qed.

(** ** Every operation keeps the accounts *)

Definition empty_database : local_database := Database ∅ ∅ ∅.

Lemma good_create d id version size : good d -> versions d !! id = None -> dv_id version = id ->
  (exists m, dv_markdown version = Some m /\ size = len (utf8_encode m)) ->
  len (document_versions d (dv_documentId version)) < MAX_LOCAL_VERSIONS ->
  total_bytes (document_versions d (dv_documentId version)) + size <= MAX_LOCAL_VERSION_BYTES ->
  good (Database (comments d) (<[id := VersionRecord version size]> (versions d))
    (<[dv_documentId version := Meta (dv_documentId version) (len (document_versions d (dv_documentId version)) + 1)
       (total_bytes (document_versions d (dv_documentId version)) + size)]> (metas d))).
Proof.
  intros (Ha & [Hk Hv] & [Hl Hr]) Hid Eid Hm Hn Hb. set (doc := dv_documentId version) in *.
  split_and!; [by apply accurate_insert | split; [done |] | split; [| done]].
  - cbn [versions]. intros id' r [[<- <-] | [_ E]]%lookup_insert_Some; [by cbn | by apply Hv].
  - intros doc'. pose proof (document_versions_insert d id (VersionRecord version size) doc'
      (<[doc := Meta doc (len (document_versions d doc) + 1) (total_bytes (document_versions d doc) + size)]> (metas d)) Hid) as Hp.
    set (d' := Database _ _ _) in *. unfold len at 1. rewrite (Permutation_length Hp), (total_bytes_perm _ _ Hp).
    unfold picked, version_of_document. cbn [lv_version]. fold doc. destruct (Hl doc') as (H1 & H2 & H3).
    split_and!; [| |exact H3]; destruct (str_eqb doc doc') eqn:E; cbn [app]; try done; apply str_eqb_eq in E; subst doc'.
    + unfold len in Hn |- *. cbn [length]. lia.
    + unfold total_bytes in *. cbn. lia.
Qed.

Lemma document_versions_delete d id r doc ms : versions d !! id = Some r ->
  picked (version_of_document doc) r ++ document_versions (Database (comments d) (delete id (versions d)) ms) doc ≡ₚ document_versions d doc.
Proof. intros H. exact (select_delete (version_of_document doc) (versions d) id r H). Qed.

Lemma good_delete d doc id r : good d -> versions d !! id = Some r -> version_of_document doc r = true ->
  good (Database (comments d) (delete id (versions d)) (<[doc := Meta doc (Z.max 0 (default 1 (lm_versionCount <$> metas d !! doc) - 1))
    (Z.max 0 (default (lv_storedBytes r) (lm_versionBytes <$> metas d !! doc) - lv_storedBytes r))]> (metas d))).
Proof.
  intros (Ha & [Hk Hv] & [Hl Hr]) Hid Hdoc. split_and!; [by eapply accurate_delete | split; [done |] | split; [| done]].
  - cbn [versions]. intros id' r' [_ E]%lookup_delete_Some. by apply Hv.
  - intros doc'. destruct (Hl doc') as (H1 & H2 & H3).
    match goal with |- context [Database _ _ ?ms] => pose proof (document_versions_delete d id r doc' ms Hid) as Hp end.
    set (d' := Database _ _ _) in *. rewrite <- (total_bytes_perm _ _ Hp), total_bytes_app in H2.
    apply Permutation_length in Hp. rewrite length_app in Hp.
    assert (0 <= total_bytes (picked (version_of_document doc') r)) as Hs.
    { unfold picked. destruct (version_of_document doc' r); [|done]. destruct (Hv id r Hid) as (_ & m & _ & E). unfold total_bytes. cbn. rewrite E. pose proof (len_nonneg (utf8_encode m)). lia. }
    split_and!; [unfold len in *; lia | lia | exact H3].
Qed.

(** Changing a comment in place, and adding one. *)
Lemma good_put d id c c' : good d -> comments d !! id = Some c -> rc_id c' = id -> rc_documentId c' = rc_documentId c ->
  len (rc_replies c') <= MAX_LOCAL_REPLIES -> good (Database (<[id := c']> (comments d)) (versions d) (metas d)).
Proof.
  intros (Ha & [Hk Hv] & [Hl Hr]) Hid Eid Edoc Hn. split_and!; [exact Ha | split; [|exact Hv] | split].
  - cbn [comments]. intros id' x [[<- <-] | [_ E]]%lookup_insert_Some; [done | by apply Hk].
  - intros doc. destruct (Hl doc) as (H1 & H2 & H3). split_and!; [exact H1 | exact H2 |].
    change (len (select (of_document doc) (<[id := c']> (comments d))) <= MAX_LOCAL_COMMENTS). unfold len.
    rewrite (select_update (of_document doc) (comments d) id c c' Hid); [exact H3 |]. unfold of_document. by rewrite Edoc.
  - cbn [comments]. intros id' x [[<- <-] | [_ E]]%lookup_insert_Some; [done | by apply (Hr id')].
Qed.

Lemma good_add d c : good d -> comments d !! rc_id c = None -> len (document_comments d (rc_documentId c)) < MAX_LOCAL_COMMENTS ->
  rc_replies c = [] -> good (Database (<[rc_id c := c]> (comments d)) (versions d) (metas d)).
Proof.
  intros (Ha & [Hk Hv] & [Hl Hr]) Hid Hn Hrep. split_and!; [exact Ha | split; [|exact Hv] | split].
  - cbn [comments]. intros id' x [[<- <-] | [_ E]]%lookup_insert_Some; [done | by apply Hk].
  - intros doc. destruct (Hl doc) as (H1 & H2 & H3). split_and!; [exact H1 | exact H2 |].
    change (len (select (of_document doc) (<[rc_id c := c]> (comments d))) <= MAX_LOCAL_COMMENTS). unfold len.
    rewrite (Permutation_length (select_insert (of_document doc) (comments d) _ c Hid)), length_app. unfold picked, of_document at 1.
    destruct (str_eqb (rc_documentId c) doc) eqn:E; cbn [length]; [|exact H3]. apply str_eqb_eq in E. subst doc. unfold len, document_comments, select in *. lia.
  - cbn [comments]. intros id' x [[<- <-] | [_ E]]%lookup_insert_Some; [by rewrite Hrep | by apply (Hr id')].
Qed.

(** Removing a document removes it from both stores and from no other. *)
Lemma select_filter {A} (f g : A -> bool) (m : gmap jstring A) :
  select f (filter (fun kx => g kx.2 = false) m) ≡ₚ List.filter (fun x => negb (g x)) (select f m).
Proof.
  assert (map_to_list (filter (fun kx => g kx.2 = false) m) ≡ₚ filter (fun kx => g kx.2 = false) (map_to_list m)) as H.
  { rewrite map_filter_alt. apply map_to_list_to_map. apply (sublist_NoDup _ ((map_to_list m).*1)); [apply NoDup_fst_map_to_list |].
    apply fmap_sublist, sublist_filter. }
  unfold select. rewrite (filter_perm f _ (map snd (filter (fun kx => g kx.2 = false) (map_to_list m)))) by by rewrite H.
  clear H. induction (map_to_list m) as [|[k x] l IH]; [done |]. cbn [map]. rewrite filter_cons. cbn [snd].
  destruct (g x) eqn:E; (case_decide; [|try done]); cbn [map List.filter snd]; try done; destruct (f x); cbn [List.filter]; rewrite ?E; cbn [negb]; by rewrite ?IH.
Qed.

Definition purged (doc : jstring) (d : local_database) : local_database := Database
  (filter (fun kc => of_document doc kc.2 = false) (comments d))
  (filter (fun kr => version_of_document doc kr.2 = false) (versions d))
  (delete doc (metas d)).

Lemma purged_versions doc d doc' : document_versions (purged doc d) doc' ≡ₚ if str_eqb doc' doc then [] else document_versions d doc'.
Proof.
  change (document_versions (purged doc d) doc') with (select (version_of_document doc') (filter (fun kr => version_of_document doc kr.2 = false) (versions d))).
  rewrite select_filter. change (document_versions d doc') with (select (version_of_document doc') (versions d)).
  destruct (str_eqb doc' doc) eqn:E.
  - apply str_eqb_eq in E as ->. rewrite filter_none; [done |]. intros r (_ & _ & H)%select_in. by rewrite H.
  - rewrite filter_all; [done |]. apply Forall_forall. intros r (_ & _ & H)%select_in. apply negb_true_iff.
    unfold version_of_document in *. apply str_eqb_eq in H. by rewrite H.
Qed.
Lemma purged_comments doc d doc' : document_comments (purged doc d) doc' ≡ₚ if str_eqb doc' doc then [] else document_comments d doc'.
Proof.
  change (document_comments (purged doc d) doc') with (select (of_document doc') (filter (fun kr => of_document doc kr.2 = false) (comments d))).
  rewrite select_filter. change (document_comments d doc') with (select (of_document doc') (comments d)).
  destruct (str_eqb doc' doc) eqn:E.
  - apply str_eqb_eq in E as ->. rewrite filter_none; [done |]. intros r (_ & _ & H)%select_in. by rewrite H.
  - rewrite filter_all; [done |]. apply Forall_forall. intros r (_ & _ & H)%select_in. apply negb_true_iff.
    unfold of_document in *. apply str_eqb_eq in H. by rewrite H.
Qed.

Lemma good_purged d doc : good d -> good (purged doc d).
Proof.
  intros (Ha & [Hk Hv] & [Hl Hr]). split_and!; [| split | split].
  - intros doc'. pose proof (purged_versions doc d doc') as Hp. unfold account. cbn [metas purged].
    destruct (str_eqb doc' doc) eqn:E.
    + apply str_eqb_eq in E as ->. rewrite lookup_delete_eq. by apply Permutation_nil_r in Hp.
    + rewrite lookup_delete_ne by (intros ->; by rewrite str_eqb_refl in E). specialize (Ha doc'). unfold account in Ha.
      destruct (metas d !! doc') as [m|].
      * unfold len. by rewrite (Permutation_length Hp), (total_bytes_perm _ _ Hp).
      * rewrite Ha in Hp. by apply Permutation_nil_r in Hp.
  - intros id c [E _]%map_lookup_filter_Some. by apply Hk.
  - intros id r [E _]%map_lookup_filter_Some. by apply Hv.
  - intros doc'. unfold len. rewrite (Permutation_length (purged_versions doc d doc')), (total_bytes_perm _ _ (purged_versions doc d doc')).
    rewrite (Permutation_length (purged_comments doc d doc')). destruct (str_eqb doc' doc); [|apply Hl]. done.
  - intros id c [E _]%map_lookup_filter_Some. by apply (Hr id).
Qed.

(** ** The migration *)

Definition with_text (v : DocumentVersion) : bool := match dv_markdown v with Some _ => true | None => false end.

Lemma migrate_keeps l : forall cs vs md, accurate (Database cs vs md) ->
  (forall id r, vs !! id = Some r -> dv_id (lv_version r) = id /\
    exists m, dv_markdown (lv_version r) = Some m /\ lv_storedBytes r = len (utf8_encode m)) ->
  NoDup (map dv_id (List.filter with_text l)) -> (forall id, id ∈ map dv_id (List.filter with_text l) -> vs !! id = None) ->
  let '(vs', md') := migrate_versions l vs md in accurate (Database cs vs' md') /\
  (forall id r, vs' !! id = Some r -> dv_id (lv_version r) = id /\
    exists m, dv_markdown (lv_version r) = Some m /\ lv_storedBytes r = len (utf8_encode m)).
Proof.
  induction l as [|v l IH]; intros cs vs md Ha Hv Hn Hf; [done |]. cbn [migrate_versions]. cbn [List.filter] in Hn, Hf.
  assert (with_text v = match dv_markdown v with Some _ => true | None => false end) as Ew by done.
  destruct (dv_markdown v) as [m|] eqn:Em; rewrite Ew in Hn, Hf; [|by apply IH]. cbn [map] in Hn, Hf. apply NoDup_cons in Hn as [Hni Hn].
  assert (vs !! dv_id v = None) as Hid by apply Hf, list_elem_of_here.
  pose proof (account_default (Database cs vs md) (dv_documentId v) Ha) as Hdef. cbn [metas] in Hdef. rewrite Hdef. cbn [lm_documentId lm_versionCount lm_versionBytes].
  apply IH; [| | done |].
  - exact (accurate_insert (Database cs vs md) (dv_documentId v) (dv_id v) v (len (utf8_encode m)) Ha Hid eq_refl).
  - intros id r [[<- <-] | [_ E]]%lookup_insert_Some; [cbn; eauto | by apply Hv].
  - intros id Hin. rewrite lookup_insert_ne; [by apply Hf, list_elem_of_further |]. by intros <-.
Qed.

Lemma migrated_comments_keyed l : forall m, keyed m -> keyed (migrated_comments l m).
Proof.
  unfold migrated_comments. induction l as [|c l IH]; intros m Hm; [done |]. cbn. apply IH.
  intros id x [[<- <-] | [_ E]]%lookup_insert_Some; [done | by apply Hm].
Qed.

(** Keys of older clients that fit: every version once, and no more than the
    limits. *)
Definition legacy_fits (keys : legacy_keys) : Prop :=
  NoDup (map dv_id (List.filter with_text (lk_versions keys))) /\ within_limits (migrated_database keys empty_database).

Lemma good_migrated keys : legacy_fits keys -> good (migrated_database keys empty_database).
Proof.
  intros [Hn Hl]. unfold migrated_database in *. cbn [versions comments metas empty_database] in *.
  pose proof (migrate_keeps (lk_versions keys) (migrated_comments (legacy_comments keys) ∅) ∅ ∅) as H.
  destruct (migrate_versions (lk_versions keys) ∅ ∅) as [vs md].
  destruct H as [Ha Hv]; [| done | done | done |].
  - intros doc. cbn [metas]. by rewrite lookup_empty.
  - rewrite (right_id_L ∅ (∪)) in *. split_and!; [done | | done]. split; [by apply migrated_comments_keyed | done].
Qed.

(** ** Calls *)

Definition no_legacy (keys : legacy_keys) : Prop := lk_current keys = [] /\ lk_legacy keys = [] /\ lk_versions keys = [].

(** Either the old keys are gone, or nothing has happened before them. *)
Definition review_ok (p : review_page) : Prop :=
  (good (db p) /\ no_legacy (legacy p)) \/
  (db p = empty_database /\ migrated p = false /\ removable (legacy p) = true /\ legacy_fits (legacy p)).
Definition settled_page (p : review_page) : Prop := good (db p) /\ no_legacy (legacy p).

Definition keeps {A} (m : SE review_page A) : Prop := forall p, review_ok p -> review_ok (m p).1.
(** Steps that touch neither the database nor the old keys. *)
Definition neutral {A} (m : SE review_page A) : Prop := forall p,
  db (m p).1 = db p /\ legacy (m p).1 = legacy p /\ migrated (m p).1 = migrated p.

Lemma neutral_ret {A} (a : A) : neutral (mret a).
Proof. done. Qed.
Lemma neutral_throw {A} e : neutral (@se_throw review_page A e).
Proof. done. Qed.
Lemma neutral_lift {A} (r : res A) : neutral (se_lift r).
Proof. done. Qed.
Lemma neutral_bind {A B} (m : SE review_page A) (k : A -> SE review_page B) : neutral m -> (forall a, neutral (k a)) -> neutral (m ≫= k).
Proof.
  intros Hm Hk p. unfold mbind, SE_bind. destruct (Hm p) as (H1 & H2 & H3). destruct (m p) as [q [a | e]]; cbn in *; [|done].
  destruct (Hk a q) as (K1 & K2 & K3). by rewrite K1, K2, K3.
Qed.
Lemma neutral_time clock : neutral (Date_now clock).
Proof. done. Qed.
Lemma neutral_id uuid : neutral (randomUUID uuid).
Proof. done. Qed.
Lemma neutral_emit : neutral emitReviewChange.
Proof. done. Qed.
Lemma neutral_if {A} (b : bool) (m k : SE review_page A) : neutral m -> neutral k -> neutral (if b then m else k).
Proof. by destruct b. Qed.

Create HintDb reviews.
#[export] Hint Resolve neutral_ret neutral_throw neutral_lift neutral_bind neutral_time neutral_id neutral_emit neutral_if : reviews.

Lemma keeps_neutral {A} (m : SE review_page A) : neutral m -> keeps m.
Proof.
  intros Hm p Hp. destruct (Hm p) as (H1 & H2 & H3). unfold review_ok in *. by rewrite H1, H2, H3.
Qed.
Lemma keeps_bind {A B} (m : SE review_page A) (k : A -> SE review_page B) : neutral m -> (forall a, keeps (k a)) -> keeps (m ≫= k).
Proof.
  intros Hm Hk p Hp. pose proof (keeps_neutral m Hm p Hp) as Hq. unfold mbind, SE_bind. destruct (m p) as [q [a | e]]; [by apply Hk | done].
Qed.
Lemma keeps_then {A B} (m : SE review_page A) (k : A -> SE review_page B) : keeps m -> (forall a, neutral (k a)) -> keeps (m ≫= k).
Proof.
  intros Hm Hk p Hp. specialize (Hm p Hp). unfold mbind, SE_bind. destruct (m p) as [q [a | e]]; [by apply keeps_neutral | done].
Qed.

Lemma legacy_comments_nil keys : legacy_comments keys = [] -> lk_current keys = [] /\ lk_legacy keys = [].
Proof. unfold legacy_comments. destruct (lk_current keys); [|done]. by intros H%map_eq_nil. Qed.

Lemma migrate_settles p : review_ok p -> migrated p = false ->
  exists q, migrateLegacyReview p = (q, Ok tt) /\ settled_page q.
Proof.
  intros Hp Hm. unfold migrateLegacyReview, se_get. unfold mbind at 1, SE_bind at 1.
  destruct (legacy_comments (legacy p)) as [|c cs] eqn:Ec, (lk_versions (legacy p)) as [|v vs] eqn:Ev.
  { exists p. split; [done |]. apply legacy_comments_nil in Ec as [H1 H2]. split; [|done].
    destruct Hp as [[H _] | (-> & _ & _ & Hf)]; [done |]. pose proof (good_migrated _ Hf) as H.
    unfold migrated_database, legacy_comments in H. rewrite H1, H2, Ev in H. cbn in H. by rewrite (right_id_L ∅ (∪)) in H. }
  all: destruct Hp as [[_ (H1 & H2 & H3)] | (Hd & _ & Hr & Hf)];
    [unfold legacy_comments in Ec; rewrite ?H1, ?H2, ?H3 in *; done |];
    eexists; (split; [reflexivity |]); unfold commit, se_modify, mbind, SE_bind; cbn [legacy set_field set_db]; cbn;
    rewrite Hr, Hd; split; [by apply good_migrated | done].
Qed.

Lemma prepare_settles p : review_ok p -> exists q, preparedDatabase p = (q, Ok (db q)) /\ settled_page q.
Proof.
  intros Hp. unfold preparedDatabase, se_get. unfold mbind at 1, SE_bind at 1. destruct (migrated p) eqn:Em.
  - exists p. split; [done |]. destruct Hp as [H | (_ & Hm & _)]; [done | congruence].
  - destruct (migrate_settles p Hp Em) as (q & E & Hq). unfold mbind at 1, SE_bind at 1. unfold mbind at 1, SE_bind at 1. rewrite E.
    by eexists.
Qed.

Lemma keeps_prepared {A} (k : local_database -> SE review_page A) :
  (forall p, settled_page p -> settled_page (k (db p) p).1) -> keeps (preparedDatabase ≫= k).
Proof.
  intros Hk p Hp. destruct (prepare_settles p Hp) as (q & E & Hq). unfold mbind, SE_bind. rewrite E. left. by apply Hk.
Qed.

(** A transaction that keeps the database good, and what follows it. *)
Lemma settled_commit {A} (f : local_database -> local_database) (k : SE review_page A) p :
  settled_page p -> good (f (db p)) -> neutral k -> settled_page ((_ ← commit f; k) p).1.
Proof.
  intros [_ Hl] Hg Hk. unfold mbind, SE_bind, commit, se_modify.
  destruct (Hk (p <| db := f (db p) |>)) as (K1 & K2 & _). split; [by rewrite K1 | by rewrite K2].
Qed.
Lemma settled_neutral {A} (k : SE review_page A) p : settled_page p -> neutral k -> settled_page (k p).1.
Proof. intros [H1 H2] Hk. destruct (Hk p) as (K1 & K2 & _). split; [by rewrite K1 | by rewrite K2]. Qed.

(** What a change of a comment may do. *)
Definition changes_in_place (mutate : ReviewComment -> SE review_page ReviewComment) : Prop :=
  (forall c, neutral (mutate c)) /\
  forall c p u, len (rc_replies c) <= MAX_LOCAL_REPLIES -> (mutate c p).2 = Ok u ->
    rc_id u = rc_id c /\ rc_documentId u = rc_documentId c /\ len (rc_replies u) <= MAX_LOCAL_REPLIES.

Lemma mutate_keeps doc id mutate : changes_in_place mutate -> keeps (mutateLocalComment doc id mutate).
Proof.
  intros [Hn Hc]. apply keeps_prepared. intros p Hp. destruct (comments (db p) !! id) as [c|] eqn:E; [|done].
  destruct (of_document doc c); [|done]. rewrite normalize_partial.
  pose proof Hp as [Hg _]. destruct Hg as (_ & [Hk _] & [_ Hr]). pose proof (Hc c p) as Hcp. pose proof (Hn c p) as Hnp.
  pose proof (settled_neutral (mutate c) p Hp (Hn c)) as Hq. unfold mbind at 1, SE_bind at 1.
  destruct (mutate c p) as [q [u | e]]; cbn [fst snd] in *; [|done].
  destruct (Hcp u) as (E1 & E2 & E3); [by apply (Hr id) | done |]. destruct Hnp as (Eq & _ & _).
  apply settled_commit; [done | | apply neutral_emit]. rewrite Eq.
  rewrite (Hk id c E) in E1. rewrite E1. apply (good_put (db p) id c u); [apply Hp | done..].
Qed.

Lemma map_reply_neutral id f l : (forall r, neutral (f r)) -> neutral (map_reply id f l).
Proof. intros Hf. induction l as [|r l IH]; cbn [map_reply]; auto 10 with reviews. Qed.

Lemma map_reply_length id f l : forall p l', (map_reply id f l p).2 = Ok l' -> length l' = length l.
Proof.
  induction l as [|r l IH]; intros p l'; cbn [map_reply]; [intros [= <-]; done |].
  unfold mbind at 1, SE_bind at 1. destruct ((if str_eqb (rr_id r) id then f r else mret r) p) as [q [r' | e]]; [|done].
  unfold mbind, SE_bind. pose proof (IH q) as IHq. destruct (map_reply id f l q) as [q' [l1 | e]]; [|done].
  intros [= <-]. cbn. f_equal. by apply IHq.
Qed.

Lemma with_reply_keeps doc cid rid f : (forall r, neutral (f r)) -> keeps (with_reply doc cid rid f).
Proof.
  intros Hf. apply mutate_keeps. split.
  - intros c. apply neutral_bind; [by apply map_reply_neutral | intros l].
    apply neutral_if; [apply neutral_ret | apply neutral_throw].
  - intros c p u Hc. unfold mbind, SE_bind. pose proof (map_reply_length rid f (rc_replies c) p) as Hl.
    destruct (map_reply rid f (rc_replies c) p) as [q [l | e]]; [|done]. specialize (Hl l eq_refl).
    destruct (existsb _ _); [|done]. intros [= <-]. cbn. unfold len in *. by rewrite Hl.
Qed.

Lemma purge_metadata_keeps doc : keeps (purgeLocalReviewMetadata doc).
Proof. apply keeps_prepared. intros p Hp. apply settled_commit; [done | apply (good_purged (db p) doc), Hp | apply neutral_emit]. Qed.

Lemma list_comments_keeps doc cursor : keeps (listLocalComments doc cursor).
Proof. apply keeps_bind; [apply neutral_lift |]. intros parsed. apply keeps_prepared. intros p Hp. exact Hp. Qed.

Lemma add_comment_keeps clock uuid doc author body range : keeps (addComment clock uuid doc author body range).
Proof.
  unfold addComment. do 3 (apply keeps_bind; [auto with reviews | intros ?]). apply keeps_prepared. intros p Hp.
  destruct (Z.leb_spec MAX_LOCAL_COMMENTS (len (document_comments (db p) doc))); [done |].
  set (item := Comment _ _ _ _ _ _ _ _ _ _ _ _ _ _ _).
  destruct (comments (db p) !! rc_id item) eqn:E; [done |].
  apply settled_commit; [done | | auto with reviews]. apply (good_add (db p) item); [apply Hp | done | done | done].
Qed.

Lemma create_version_keeps clock uuid doc author label markdown : keeps (createVersion clock uuid doc author label markdown).
Proof.
  unfold createVersion. destruct (_ || _); [apply keeps_neutral; auto with reviews |].
  do 2 (apply keeps_bind; [auto with reviews | intros ?]). apply keeps_prepared. intros p Hp.
  pose proof Hp as [(Ha & _ & _) _]. rewrite (account_default (db p) doc Ha). cbn [lm_versionCount lm_versionBytes].
  destruct (_ || _) eqn:El; [done |]. apply orb_false_iff in El as [Hn%Z.leb_gt Hb%Z.ltb_ge].
  set (version := Version _ _ _ _ _ _ _ _). destruct (versions (db p) !! dv_id version) eqn:E; [done |].
  apply settled_commit; [done | | auto with reviews].
  apply (good_create (db p) (dv_id version) version (len (utf8_encode markdown))); [apply Hp | done | done | by eexists | done | done].
Qed.

Lemma delete_version_keeps doc id : keeps (deleteVersion doc id).
Proof.
  apply keeps_prepared. intros p Hp. destruct (versions (db p) !! id) as [r|] eqn:E; [|done].
  destruct (version_of_document doc r) eqn:Er; [|done]. apply settled_commit; [done | | apply neutral_emit].
  apply (good_delete (db p) doc id r); [apply Hp | done | done].
Qed.

Lemma in_place_pure (f : ReviewComment -> ReviewComment) :
  (forall c, rc_id (f c) = rc_id c /\ rc_documentId (f c) = rc_documentId c /\ rc_replies (f c) = rc_replies c) ->
  changes_in_place (fun c => mret (f c)).
Proof. intros Hf. split; [done |]. intros c p u Hc [= <-]. destruct (Hf c) as (-> & -> & ->). done. Qed.

Lemma update_comment_keeps clock doc id resolved body : keeps (updateComment clock doc id resolved body).
Proof.
  unfold updateComment.
  assert (forall text, keeps (mutateLocalComment doc id (fun item =>
    let item := match resolved with None => item | Some b => item <| rc_resolved := b |> end in
    match text with
    | None => mret item
    | Some t => at_ ← Date_now clock; mret (item <| rc_body := t |> <| rc_deleted := false |> <| rc_editedAt := Some at_ |>)
    end))) as Hk.
  { intros text. apply mutate_keeps. destruct text as [t|].
    - split; [intros c; cbv zeta; auto with reviews |]. intros c p u Hc [= <-]. by destruct resolved.
    - apply (in_place_pure (fun c => match resolved with None => c | Some b => c <| rc_resolved := b |> end)). intros c. by destruct resolved. }
  destruct body as [b|], resolved as [r|]; try (apply keeps_neutral; apply neutral_throw);
    (apply keeps_bind; [auto with reviews | intros text; apply Hk]).
Qed.

Lemma add_reply_keeps clock uuid doc cid author body : keeps (addReply clock uuid doc cid author body).
Proof.
  unfold addReply. do 3 (apply keeps_bind; [auto with reviews | intros ?]). apply mutate_keeps. split.
  - intros c. apply neutral_if; [apply neutral_throw | apply neutral_ret].
  - intros c p u Hc. destruct (Z.leb_spec MAX_LOCAL_REPLIES (len (rc_replies c))); [done |]. intros [= <-]. cbn [rc_id rc_documentId rc_replies set_field set_replies].
    split_and!; [done.. |]. cbn. rewrite len_app. unfold len at 2. cbn. lia.
Qed.

Lemma review_keeps clock uuid localeCompare c : keeps (perform_review clock uuid localeCompare c).
Proof.
  destruct c; cbn [perform_review]; unfold void.
  - apply keeps_then; [apply list_comments_keeps | intros; apply neutral_ret].
  - apply keeps_then; [apply add_comment_keeps | intros; apply neutral_ret].
  - apply update_comment_keeps.
  - apply mutate_keeps, in_place_pure. done.
  - apply add_reply_keeps.
  - apply keeps_bind; [apply neutral_lift | intros text]. apply with_reply_keeps. intros r. auto with reviews.
  - apply with_reply_keeps. intros r. apply neutral_ret.
  - apply keeps_then; [| intros; apply neutral_ret]. apply keeps_bind; [apply neutral_time | intros t].
    apply keeps_prepared. intros p Hp. exact Hp.
  - apply keeps_then; [apply create_version_keeps | intros; apply neutral_ret].
  - apply keeps_then; [| intros; apply neutral_ret]. apply keeps_prepared. intros p Hp. exact Hp.
  - apply delete_version_keeps.
  - apply purge_metadata_keeps.
  - intros p [H | (H1 & _ & H3)]; [left; exact H | right; split_and!; try done; apply H3].
Qed.

Lemma good_empty : good empty_database.
Proof.
  split_and!; [intros doc; cbn [metas empty_database]; by rewrite lookup_empty | by split | split; [intros doc; by split_and! | done]].
Qed.

(** C38. The accounts of the saved versions are exact and the limits hold: from an
    empty database, in a browser that lets the old localStorage lists be
    removed, and where these lists, if any, name every version once and fit the
    limits ([legacy_fits]; the source does not check it), after every sequence of
    calls, reloads included, the record of each document counts its versions and
    their bytes, a version has the size of its text, and there are at most 100
    versions and 64 MiB of them, 10000 comments of a document and 200 replies of a
    comment. Where the removal is refused the old lists are migrated again by
    every reload and the counts break: Example [migrated_again]. *)
Theorem accounts_are_exact clock uuid localeCompare l p :
  db p = empty_database -> migrated p = false -> removable (legacy p) = true -> legacy_fits (legacy p) ->
  let q := reviews clock uuid localeCompare l p in accurate (db q) /\ well_kept (db q) /\ within_limits (db q).
Proof.
  intros Hd Hm Hr Hf. cbv zeta. assert (review_ok (reviews clock uuid localeCompare l p)) as H.
  { assert (review_ok p) as Hp by (right; done). clear Hd Hm Hr Hf. revert p Hp.
    induction l as [|c l IH]; intros p Hp; [done |]. cbn [reviews]. apply IH. by apply review_keeps. }
  destruct H as [[H _] | (-> & _)]; [exact H | exact good_empty].
Qed.

(** The anchors of a comment are those of the range it was made for. *)
Theorem anchors_survive range id doc author body t :
  ra_start range <> [] -> ra_end range <> [] -> Forall is_byte (ra_start range) -> Forall is_byte (ra_end range) ->
  reviewRange (Comment id doc author true body t None false false (Some (encodeBase64Url (ra_start range)))
    (Some (encodeBase64Url (ra_end range))) (ra_quote range) (ra_startOffset range) (ra_endOffset range) []) = Some range.
Proof.
  intros Hs He Bs Be. unfold reviewRange. cbn [rc_startAnchor rc_endAnchor].
  destruct (encodeBase64Url_alphabet _ Bs Hs) as [_ Ns], (encodeBase64Url_alphabet _ Be He) as [_ Ne].
  pose proof (base64url_roundtrip _ Bs) as Rs. pose proof (base64url_roundtrip _ Be) as Re.
  destruct (encodeBase64Url (ra_start range)) as [|a s], (encodeBase64Url (ra_end range)) as [|b e]; [done..|].
  rewrite Rs, Re. by destruct range.
Qed.

(** ** Examples *)

Module Demo.
Definition clock (t : Z) : Z := 1000 + t / 2.
Definition uuid (n : Z) : jstring := hex_padded 12 n.
Definition by_units (a b : jstring) : Z := match str_compare a b with Lt => -1 | Eq => 0 | Gt => 1 end.
Definition page_with (keys : legacy_keys) : review_page := ReviewPage empty_database keys false 0 0 0.
Definition no_keys : legacy_keys := LegacyKeys [] [] [] true.
Definition run := reviews clock uuid by_units.
Definition doc : jstring := lit "doc".
Definition a_range : AnchorRange_ := AnchorRange [1; 2] [3] (lit "text") 0 4.
Definition say (n : nat) : review_call := AddComment doc (lit "me") (lit "hm" ++ [48 + Z.of_nat n]) a_range.

(** Thirty comments, two for every instant: two pages, the newest first. *)
Definition thirty : review_page := run (map say (List.seq 0 30)) (page_with no_keys).
Example two_pages :
  (fun pages => map (fun page => (length page, rc_body <$> head page, rc_body <$> last page)) pages) <$> follow thirty doc 2 None
  = Some [(25%nat, Some (lit "hm" ++ [77]), Some (lit "hm" ++ [53])); (5%nat, Some (lit "hm" ++ [52]), Some (lit "hm0"))].
Proof. vm_compute. reflexivity. Qed.

Definition an_old_version : DocumentVersion :=
  Version (lit "version-old") doc (lit "Old") (lit "me") 5 3 (Some (lit "old")) false.
Definition an_old_comment : LegacyComment :=
  OldComment (lit "comment-old") doc (lit "me") None (lit "old") 5 None None None None None None None None None.
Definition old_keys (removable : bool) : legacy_keys := LegacyKeys [an_old_comment] [] [an_old_version] removable.

(** A migration, and saves and removals after it. *)
Definition some_calls : list review_call :=
  [ListVersions doc (lit "now"); CreateVersion doc (lit "me") (lit "One") (lit "first"); say 1; ReloadPage;
   DeleteVersion doc (lit "version-old"); UpdateComment doc (lit "comment-old") (Some true) None;
   AddReply doc (lit "comment-old") (lit "me") (lit "yes"); CreateVersion doc (lit "me") (lit "Two") (lit "twice")].
Example some_calls_run :
  let d := db (run some_calls (page_with (old_keys true))) in
  metas d !! doc = Some (Meta doc 2 10) /\ length (document_comments d doc) = 2%nat.
Proof. vm_compute. split; reflexivity. Qed.

(** When the browser refuses to remove the old keys every reload migrates them
    again: a comment deleted meanwhile comes back, and the account of the document
    counts the old versions only. *)
Example migrated_again :
  let d := db (run [DeleteComment doc (lit "comment-old"); CreateVersion doc (lit "me") (lit "One") (lit "first"); ReloadPage; ListVersions doc []]
    (page_with (old_keys false))) in
  rc_deleted <$> comments d !! lit "comment-old" = Some false /\
  metas d !! doc = Some (Meta doc 1 3) /\ length (document_versions d doc) = 2%nat.
Proof. vm_compute. split_and!; reflexivity. Qed.

Lemma old_keys_fit : legacy_fits (old_keys true).
Proof.
  split; [apply (bool_decide_eq_true_1 (NoDup _)); vm_compute; reflexivity |]. split.
  - intros d. set (m := migrated_database _ _).
    assert (map snd (map_to_list (versions m)) = [VersionRecord an_old_version 3]) as Ev by (vm_compute; reflexivity).
    assert (map snd (map_to_list (comments m)) = [normalizeComment an_old_comment]) as Ec by (vm_compute; reflexivity).
    unfold document_versions, document_comments. rewrite Ev, Ec. cbn [List.filter].
    destruct (version_of_document d _), (of_document d _); split_and!; vm_compute; discriminate.
  - assert (map_Forall (fun _ c => len (rc_replies c) <= MAX_LOCAL_REPLIES) (comments (migrated_database (old_keys true) empty_database))) as H; [|exact H].
    apply (bool_decide_eq_true_1 _). vm_compute. reflexivity.
Qed.

Lemma thirty_keyed : keyed (comments (db thirty)).
Proof.
  assert (map_Forall (fun id c => rc_id c = id) (comments (db thirty))) as H; [|exact H].
  apply (bool_decide_eq_true_1 _). vm_compute. reflexivity.
Qed.
Lemma thirty_ok : forall id c, comments (db thirty) !! id = Some c -> key_ok c.
Proof.
  assert (map_Forall (fun _ c => forallb is_b64url (rc_id c) && (8 <=? length (rc_id c))%nat && (length (rc_id c) <=? 128)%nat
    && (0 <=? rc_createdAt c) && (rc_createdAt c <=? MAX_SAFE_INTEGER) = true) (comments (db thirty))) as H.
  { apply (bool_decide_eq_true_1 _). vm_compute. reflexivity. }
  intros id c Hc. specialize (H id c Hc). cbn beta in H. rewrite !andb_true_iff, !Nat.leb_le, !Z.leb_le in H.
  unfold key_ok, is_id. tauto.
Qed.

Lemma accounts_are_exact_witness :
  let q := run some_calls (page_with (old_keys true)) in accurate (db q) /\ well_kept (db q) /\ within_limits (db q).
Proof.
  apply (accounts_are_exact clock uuid by_units some_calls (page_with (old_keys true))).
  - reflexivity.
  - reflexivity.
  - reflexivity.
  - exact old_keys_fit.
Defined.

Lemma pages_list_every_comment_witness :
  exists pages, follow thirty doc (S (length (document_comments (db thirty) doc) / LOCAL_COMMENT_PAGE_SIZE)) None = Some pages /\
    concat pages ≡ₚ document_comments (db thirty) doc /\ StronglySorted before (concat pages) /\
    Forall (fun page => (length page <= LOCAL_COMMENT_PAGE_SIZE)%nat) pages.
Proof.
  apply (pages_list_every_comment thirty doc).
  - vm_compute. reflexivity.
  - exact thirty_keyed.
  - exact thirty_ok.
Defined.
End Demo.
