(* ===== verification/Caller.v ===== *)
(** Who the client acts as ([client/src/auth/caller.ts], [scratch.ts],
    [session-cache.ts]): the credential of a tab, the marker of a session, and
    the probes that find the caller. *)

From S2P Require Import Prelude TextChange.
From S2P Require Import Bytes.
From S2P Require Import JsValue.
From S2P Require Import Regex.
From S2P Require Import JsonText.
From S2P Require Import JsonPrint.
From S2P Require Import WebStorage.
From S2P Require Import LocalWorkspace.
From S2P Require Import AuthProtocol.
From S2P Require Import Hoare.

(** ** Credentials *)

Definition STORAGE_KEY : jstring := lit "marks.auth.scratch.v1".
Definition SESSION_SEEN_KEY : jstring := lit "marks.auth.session-seen.v1".

(** [version] is 1. *)
Record ScratchCredential := Scratch { sc_scratchId : jstring; sc_capability : jstring; sc_expiresAtMs : Z }.

Inductive RoomAuthority := SessionAuthority | ScratchAuthority (credential : ScratchCredential).

Definition validateScratchCredential (credential : ScratchCredential) : res unit :=
  if negb (test (sc_scratchId credential) OPAQUE_ID_PATTERN) || negb (isSafeInteger (sc_expiresAtMs credential))
     || (sc_expiresAtMs credential <=? 0)
  then type_error "invalid scratch credential"
  else
    capability ← decodeBase64Url (sc_capability credential);
    if len capability =? 32 then Ok tt else type_error "invalid scratch credential".

Definition credential_value (c : ScratchCredential) : jsval :=
  VObj [(lit "version", VNum (NInt 1)); (lit "scratchId", VStr (sc_scratchId c));
        (lit "capability", VStr (sc_capability c)); (lit "expiresAtMs", VNum (NInt (sc_expiresAtMs c)))].

(** Only a session or a credential is a caller; what else the page can be is
    nobody. *)
Definition resolveServiceCaller (sessionLive : bool) (scratch : option ScratchCredential) : option RoomAuthority :=
  if sessionLive then Some SessionAuthority else ScratchAuthority <$> scratch.

(** The header [Authorization] of a request, over what it was. *)
Definition applyServiceCallerHeaders (authorization : option jstring) (caller : RoomAuthority) : option jstring :=
  match caller with
  | SessionAuthority => None
  | ScratchAuthority c => Some (lit "MarksScratch " ++ sc_scratchId c ++ 46 :: sc_capability c)
  end.

Section Credentials.
Context {S : Type} {HS : Storage S}.
(** [String(value)] of what is no string. *)
Context (to_string : jsval -> jstring).

Definition saveScratchCredential (credential : ScratchCredential) : SE S unit :=
  _ ← se_lift (validateScratchCredential credential);
  setItem STORAGE_KEY (default [] (JSON_stringify (fun _ => []) (credential_value credential))).

(** Reading the members of a parsed value and checking them; the capability
    must be a string to be decoded. *)
Definition read_credential (value : jsval) : res ScratchCredential :=
  version ← property value "version";
  if negb (is_int version 1) then type_error "invalid scratch credential"
  else
    match field value "capability", field value "expiresAtMs" with
    | VStr capability, VNum (NInt expiresAtMs) =>
        let c := Scratch (match field value "scratchId" with VStr s => s | v => to_string v end) capability expiresAtMs in
        _ ← validateScratchCredential c; Ok c
    | _, _ => type_error "invalid scratch credential"
    end.

Definition loadScratchCredential (nowMs : Z) : SE S (option ScratchCredential) :=
  raw ← getItem STORAGE_KEY;
  if negb (truthy_text raw) then mret None
  else
    se_catch
      (credential ← se_lift (match JSON_parse (default [] raw) with
         | Some value => read_credential value
         | None => Throw (Exn SyntaxError "JSON.parse") end);
       if sc_expiresAtMs credential <=? nowMs then _ ← removeItem STORAGE_KEY; mret None
       else mret (Some credential))
      (fun _ => _ ← removeItem STORAGE_KEY; mret None).

Definition clearScratchCredential : SE S unit := removeItem STORAGE_KEY.
End Credentials.

(** ** Sessions *)

Record SessionInfo := Session {
  principalId : jstring; deviceId : jstring; sessionId : jstring; csrf : jstring; deviceBound : bool
}.

Definition sessionFromUnknown (body : jsval) : option SessionInfo :=
  match field body "principalId", field body "deviceId", field body "sessionId", field body "csrf" with
  | VStr principalId, VStr deviceId, VStr sessionId, VStr csrf =>
      if is_object body
      then Some (Session principalId deviceId sessionId csrf (match field body "deviceBound" with VBool b => b | _ => false end))
      else None
  | _, _, _, _ => None
  end.

(** ** The module *)

(** What a probe waits for: the session, the recovery by the device key, a new
    credential. *)
Inductive phase := AskedSession | Redeeming | Minting.

(** [tab_store] is [sessionStorage], [lasting] is [localStorage]; [outcomes]
    keeps what each probe ended with, the newest first, [notices] what the
    listeners were told. *)
Record auth (S P : Type) := Auth {
  tab_store : S; lasting : P; session : option SessionInfo; cached : option RoomAuthority; inflight : option Z;
  probes : gmap Z phase; next_probe : Z; outcomes : list (Z * res RoomAuthority); notices : list (option RoomAuthority)
}.
Arguments Auth {S P} _ _ _ _ _ _ _ _ _.
Arguments session {S P} _.
Arguments tab_store {S P} _.
Arguments lasting {S P} _.
Arguments cached {S P} _.
Arguments inflight {S P} _.
Arguments probes {S P} _.
Arguments next_probe {S P} _.
Arguments outcomes {S P} _.
Arguments notices {S P} _.

(** The answer of the server to the question for the session, and to the request
    for a credential. *)
Inductive session_reply := SessionLost | SessionRefused | SessionLive (body : jsval).
Inductive mint_reply := MintLost | MintRefused | Minted (body : jsval).

(** What happens: a call of [ensureServiceCaller], the replies to a probe, its
    deadline, and what the identity flows do once the server has answered them
    ([identity.ts]): a session by a bootstrap or a pairing, the session asked for
    again, the logout. *)
Inductive auth_event :=
| Ensure (forceProbe : bool)
| SessionReply (probe : Z) (r : session_reply) (now : Z)
| RedeemReply (probe : Z) (recovered : option SessionInfo) (now : Z)
| MintReply (probe : Z) (r : mint_reply)
| Deadline (probe : Z) (now : Z)
| SignIn (info : SessionInfo)
| Fetched (info : SessionInfo)
| Logout.

Section Auth.
Context {S P : Type} {HS : Storage S} {HP : Storage P} (to_string : jsval -> jstring).
Abbreviation A := (auth S P).

Definition in_tab {X} (m : SE S X) : SE A X :=
  zoom tab_store (fun s a => Auth s (lasting a) (session a) (cached a) (inflight a) (probes a) (next_probe a) (outcomes a) (notices a)) m.
Definition in_lasting {X} (m : SE P X) : SE A X :=
  zoom lasting (fun s a => Auth (tab_store a) s (session a) (cached a) (inflight a) (probes a) (next_probe a) (outcomes a) (notices a)) m.

Definition setActiveCaller (caller : option RoomAuthority) (a : A) : A :=
  Auth (tab_store a) (lasting a) (session a) caller (inflight a) (probes a) (next_probe a) (outcomes a) (caller :: notices a).

(** The rest of [ensureServiceCaller] when its probe has ended. *)
Definition settle (k : Z) (r : res RoomAuthority) (a : A) : A :=
  let a := match r with Ok next => setActiveCaller (Some next) a | Throw _ => a end in
  Auth (tab_store a) (lasting a) (session a) (cached a) None (delete k (probes a)) (next_probe a) ((k, r) :: outcomes a) (notices a).
Definition wait_for (k : Z) (p : phase) (a : A) : A :=
  Auth (tab_store a) (lasting a) (session a) (cached a) (inflight a) (<[k := p]> (probes a)) (next_probe a) (outcomes a) (notices a).

Definition ensureServiceCaller (forceProbe : bool) (a : A) : A :=
  match cached a, inflight a, forceProbe with
  | Some _, _, false => a
  | None, Some _, false => a
  | _, _, _ =>
      Auth (tab_store a) (lasting a) (session a) (cached a) (Some (next_probe a)) (<[next_probe a := AskedSession]> (probes a))
        (next_probe a + 1) (outcomes a) (notices a)
  end.

(** The session in memory is set before the storage is asked to keep the mark
    of it. *)
Definition keep_session (info : option SessionInfo) (a : A) : A :=
  Auth (tab_store a) (lasting a) info (cached a) (inflight a) (probes a) (next_probe a) (outcomes a) (notices a).
Definition cacheSession (info : SessionInfo) : SE A unit :=
  _ ← se_modify (keep_session (Some info)); in_lasting (setItem SESSION_SEEN_KEY (lit "1")).
Definition clearCachedSession : SE A unit :=
  _ ← se_modify (keep_session None); in_lasting (removeItem SESSION_SEEN_KEY).
Definition hasSeenSession : SE A bool :=
  raw ← in_lasting (getItem SESSION_SEEN_KEY); mret match raw with Some t => str_eqb t (lit "1") | None => false end.

(** The three parts of [resolveWithinDeadline] between its requests: [inl] ends
    the probe, [inr] is what it asks next. A recovery by the device key caches
    the session it got. *)
Definition on_session (r : session_reply) (now : Z) : SE A (RoomAuthority + phase) :=
  match r with
  | SessionLost =>
      scratch ← in_tab (loadScratchCredential to_string now);
      match scratch with
      | Some c => mret (inl (ScratchAuthority c))
      | None =>
          seen ← hasSeenSession;
          if seen : bool then mret (inl SessionAuthority) else se_throw (Exn TypeError "fetch failed")
      end
  | SessionLive body =>
      _ ← in_tab clearScratchCredential;
      _ ← match sessionFromUnknown body with Some info => cacheSession info | None => mret tt end;
      mret (inl SessionAuthority)
  | SessionRefused => mret (inr Redeeming)
  end.

Definition on_redeem (recovered : option SessionInfo) (now : Z) : SE A (RoomAuthority + phase) :=
  done ← se_catch (match recovered with
    | Some info => _ ← cacheSession info; _ ← in_tab clearScratchCredential; mret true
    | None => mret false end) (fun _ => mret false);
  if done : bool then mret (inl SessionAuthority)
  else
    existing ← in_tab (loadScratchCredential to_string now);
    match existing with Some c => mret (inl (ScratchAuthority c)) | None => mret (inr Minting) end.

Definition minted_credential (body : jsval) : ScratchCredential :=
  Scratch (match field body "scratchId" with VStr s => s | _ => [] end)
    (match field body "capability" with VStr s => s | _ => [] end)
    (match field body "expiresAtMs" with VNum (NInt z) => z | _ => 0 end).
Definition on_mint (r : mint_reply) : SE A (RoomAuthority + phase) :=
  match r with
  | MintLost => se_throw (Exn TypeError "fetch failed")
  | MintRefused => se_throw (Exn PlainError "POST /v1/auth/scratch failed")
  | Minted body =>
      match body with
      | VNull | VUndef => se_throw (Exn TypeError "Cannot read properties of null")
      | _ => let c := minted_credential body in
             _ ← in_tab (saveScratchCredential c); mret (inl (ScratchAuthority c))
      end
  end.

Definition signed_in (info : SessionInfo) : SE A unit :=
  _ ← cacheSession info; se_modify (setActiveCaller (Some SessionAuthority)).
Definition logged_out : SE A unit := _ ← clearCachedSession; se_modify (setActiveCaller None).

Definition after (k : Z) (r : A * res (RoomAuthority + phase)) : A :=
  match r with
  | (a, Ok (inl next)) => settle k (Ok next) a
  | (a, Ok (inr p)) => wait_for k p a
  | (a, Throw e) => settle k (Throw e) a
  end.

(** A reply a probe does not wait for does not come. After its deadline a
    probe's requests are aborted; what it still does is look for the credential. *)
Definition auth_step (e : auth_event) (a : A) : A :=
  match e with
  | Ensure forceProbe => ensureServiceCaller forceProbe a
  | SessionReply k r now => match probes a !! k with Some AskedSession => after k (on_session r now a) | _ => a end
  | RedeemReply k recovered now => match probes a !! k with Some Redeeming => after k (on_redeem recovered now a) | _ => a end
  | MintReply k r => match probes a !! k with Some Minting => after k (on_mint r a) | _ => a end
  | Deadline k now =>
      match probes a !! k with
      | Some p =>
          let a := match p with Minting => a | _ => (in_tab (loadScratchCredential to_string now) a).1 end in
          settle k (Throw (Exn PlainError "The operation timed out.")) a
      | None => a
      end
  | SignIn info => (signed_in info a).1
  | Fetched info => (cacheSession info a).1
  | Logout => (logged_out a).1
  end.

Definition auth_run (l : list auth_event) (a : A) : A := fold_left (fun a e => auth_step e a) l a.
End Auth.

(** ** The active caller is earned *)

(** The server vouches for a session. *)
Definition vouches (e : auth_event) : Prop :=
  match e with
  | SessionReply _ (SessionLive _) _ | RedeemReply _ (Some _) _ | SignIn _ | Fetched _ => True
  | _ => False
  end.

Section Earned.
Context {S P : Type} {HS : Storage S} {HP : Storage P} {HH : HonestStorage P} (to_string : jsval -> jstring).
Abbreviation A := (auth S P).
Implicit Types (a : A).

Definition marked a : Prop := held (lasting a) !! SESSION_SEEN_KEY = Some (lit "1").

(** What a caller needs: a voucher [V], or a credential that is well formed. *)
Definition earned (V : Prop) (c : RoomAuthority) : Prop :=
  match c with SessionAuthority => V | ScratchAuthority c => validateScratchCredential c = Ok tt end.
Definition earned_all (V : Prop) a : Prop :=
  (forall c, cached a = Some c -> earned V c) /\ (forall k c, (k, Ok c) ∈ outcomes a -> earned V c) /\ (marked a -> V) /\
  (session a <> None -> V).

Lemma earned_weaken (V W : Prop) a : (V -> W) -> earned_all V a -> earned_all W a.
Proof.
  intros H (H1 & H2 & H3 & H4). assert (forall c, earned V c -> earned W c) as Hc by (intros []; cbn; auto).
  split_and!; [eauto | eauto | auto | auto].
Qed.

(** Nothing is known of the tab's storage: what is read from it is checked. *)
Definition any {X} (_ : X) : Prop := True.

Lemma load_valid now : triple any (loadScratchCredential (S := S) to_string now)
  (fun c _ => match c with Some c => validateScratchCredential c = Ok tt | None => True end) any.
Proof.
  unfold loadScratchCredential. apply (triple_bind _ _ _ (fun _ => any)).
  { intros s _. by destruct (getItem STORAGE_KEY s) as [? []]. }
  intros raw. apply triple_if; [intros _; by apply triple_ret | intros _].
  assert (forall e : exn, triple (any (X := S)) (_ ← removeItem STORAGE_KEY; mret None)
    (fun (c : option ScratchCredential) _ => match c with Some c => validateScratchCredential c = Ok tt | None => True end) any) as Hremove.
  { intros _ s _. unfold mbind, SE_bind. by destruct (removeItem STORAGE_KEY s) as [? []]. }
  apply (triple_catch _ _ _ any); [| exact Hremove].
  apply triple_lift_bind; [done |]. intros c Hc. apply triple_if; [intros _; apply (Hremove (Exn PlainError "")) | intros _].
  apply triple_ret. intros _ _. destruct (JSON_parse _) as [v|]; [|done]. unfold read_credential in Hc.
  apply res_bind_Ok in Hc as (version & _ & Hc). destruct (negb _); [done |].
  destruct (field v "capability"), (field v "expiresAtMs") as [| | | [z|] | | | |]; try done.
  apply res_bind_Ok in Hc as ([] & Hv & [= <-]). exact Hv.
Qed.

Lemma save_valid c : triple any (saveScratchCredential (S := S) c) (fun _ _ => validateScratchCredential c = Ok tt) any.
Proof.
  unfold saveScratchCredential. apply triple_lift_bind; [done |]. intros [] E. intros s _. by destruct (setItem _ _ s) as [? []].
Qed.

Context (V : Prop).
Abbreviation I := (earned_all V).

Lemma triple_in_tab {X} (m : SE S X) (Q : X -> Prop) : triple any m (fun x _ => Q x) any ->
  triple I (in_tab (P := P) m) (fun x a => Q x /\ I a) I.
Proof.
  intros Hm a Ha. unfold in_tab, zoom. specialize (Hm (tab_store a) Logic.I). destruct (m (tab_store a)) as [s [x | e]]; [split; [done |] |]; exact Ha.
Qed.

Lemma same_earned a b : cached b = cached a -> outcomes b = outcomes a -> session b = session a -> (marked b -> marked a) ->
  I a -> I b.
Proof. intros E1 E2 E3 Hm (H1 & H2 & H3 & H4). unfold earned_all. rewrite E1, E2, E3. split_and!; auto. Qed.

Lemma vouched_any a b : V -> cached b = cached a -> outcomes b = outcomes a -> I a -> I b.
Proof. intros HV E1 E2 (H1 & H2 & _). unfold earned_all. rewrite E1, E2. split_and!; auto. Qed.

Lemma in_lasting_run {X} (m : SE P X) a :
  in_lasting m a = (Auth (tab_store a) (m (lasting a)).1 (session a) (cached a) (inflight a) (probes a) (next_probe a) (outcomes a) (notices a), (m (lasting a)).2).
Proof. unfold in_lasting, zoom. by destruct (m (lasting a)). Qed.

Lemma seen_vouched : triple I hasSeenSession (fun b a => (b = true -> V) /\ I a) I.
Proof.
  apply (triple_bind _ _ _ (fun raw a => (raw = Some (lit "1") -> V) /\ I a)).
  - intros a Ha. rewrite in_lasting_run. destruct (getItem_honest SESSION_SEEN_KEY (lasting a)) as [E1 E2].
    assert (I (in_lasting (getItem SESSION_SEEN_KEY) a).1) as HI.
    { rewrite in_lasting_run. apply (same_earned a); try done. unfold marked. cbn [fst lasting]. by rewrite E1. }
    rewrite in_lasting_run in HI. cbn [fst] in HI. destruct (getItem SESSION_SEEN_KEY (lasting a)) as [s [raw | e]]; cbn [fst snd] in *; [|done].
    split; [|done]. intros ->. apply (proj1 (proj2 (proj2 Ha))). unfold marked. symmetry. by apply E2.
  - intros raw. apply triple_ret. intros a [H1 H2]. split; [|done]. destruct raw as [t|]; [|done]. intros ->%str_eqb_eq. by apply H1.
Qed.

Lemma cache_vouched info : V -> triple I (cacheSession info) (fun _ => I) I.
Proof.
  intros HV. apply (triple_modify_bind _ I); [intros a Ha; by apply (vouched_any a) |].
  intros a Ha. rewrite in_lasting_run. destruct (setItem _ _ _) as [s [x | e]]; by apply (vouched_any a).
Qed.

Lemma clear_earned : triple I clearCachedSession (fun _ => I) I.
Proof.
  apply (triple_modify_bind _ I); [intros a (H1 & H2 & H3 & _); by split_and! |].
  intros a Ha. rewrite in_lasting_run. pose proof (removeItem_honest SESSION_SEEN_KEY (lasting a)) as E.
  assert (held (removeItem SESSION_SEEN_KEY (lasting a)).1 !! SESSION_SEEN_KEY = Some (lit "1") -> marked a) as Hm.
  { unfold marked. destruct E as [-> | ->]; [rewrite lookup_delete_eq; discriminate | done]. }
  destruct (removeItem SESSION_SEEN_KEY (lasting a)) as [s [x | e]]; by apply (same_earned a).
Qed.

Definition ends (r : RoomAuthority + phase) a : Prop := (match r with inl c => earned V c | inr _ => True end) /\ I a.

Lemma load_earned now (k : SE A (RoomAuthority + phase)) : triple I k ends I ->
  triple I (scratch ← in_tab (P := P) (loadScratchCredential to_string now); match scratch with Some c => mret (inl (ScratchAuthority c)) | None => k end) ends I.
Proof.
  intros Hk. apply (triple_bind _ _ _ (fun c a => match c with Some c => validateScratchCredential c = Ok tt | None => True end /\ I a)).
  - apply (triple_in_tab _ (fun c => match c with Some c => validateScratchCredential c = Ok tt | None => True end)), load_valid.
  - intros [c|]; [apply triple_ret; by intros a [H1 H2] |]. eapply triple_weaken; [exact Hk | by intros a [_ H] | done | done].
Qed.

Lemma clear_triple : triple I (in_tab (P := P) (clearScratchCredential (S := S))) (fun _ => I) I.
Proof.
  eapply triple_weaken; [apply (triple_in_tab _ any) | done | by intros x a [_ H] | done].
  intros s _. unfold clearScratchCredential. by destruct (removeItem _ s) as [? []].
Qed.

Lemma on_session_earned r now : (match r with SessionLive _ => V | _ => True end) -> triple I (on_session to_string r now) ends I.
Proof.
  intros HV. destruct r as [| | body]; cbn [on_session].
  - apply load_earned.
    apply (triple_bind _ _ _ (fun b a => (b = true -> V) /\ I a)); [apply seen_vouched |].
    intros b. destruct b; [apply triple_ret; intros a [H1 H2]; split; [by apply H1 | done] | by intros a [_ H]].
  - apply triple_ret. by intros a Ha.
  - apply (triple_bind _ _ _ (fun _ => I)); [apply clear_triple | intros _].
    apply (triple_bind _ _ _ (fun _ => I)); [destruct (sessionFromUnknown body); [by apply cache_vouched | by apply triple_ret] | intros _].
    apply triple_ret. by intros a Ha.
Qed.

Lemma on_redeem_earned recovered now : (recovered <> None -> V) -> triple I (on_redeem to_string recovered now) ends I.
Proof.
  intros HV. unfold on_redeem. apply (triple_bind _ _ _ (fun b a => (b = true -> V) /\ I a)).
  - apply (triple_catch _ _ _ I); [| intros e; apply triple_ret; by intros a Ha].
    destruct recovered as [info|]; [specialize (HV ltac:(done)) | apply triple_ret; by intros a Ha].
    apply (triple_bind _ _ _ (fun _ => I)); [by apply cache_vouched | intros _].
    apply (triple_bind _ _ _ (fun _ => I)); [apply clear_triple | intros _]. apply triple_ret. by intros a Ha.
  - intros b. destruct b; [apply triple_ret; intros a [H1 H2]; split; [by apply H1 | done] |].
    eapply triple_weaken; [apply load_earned; apply triple_ret; by intros a Ha | by intros a [_ H] | done | done].
Qed.

Lemma on_mint_earned r : triple I (on_mint r) ends I.
Proof.
  destruct r as [| | body]; cbn [on_mint]; [by intros a Ha.. |].
  assert (triple I (_ ← in_tab (P := P) (saveScratchCredential (minted_credential body)); mret (inl (ScratchAuthority (minted_credential body)))) ends I) as Hsave.
  { apply (triple_bind _ _ _ (fun _ a => validateScratchCredential (minted_credential body) = Ok tt /\ I a)).
    - apply (triple_in_tab _ (fun _ => validateScratchCredential (minted_credential body) = Ok tt)), save_valid.
    - intros x. apply triple_ret. by intros a [H1 H2]. }
  destruct body; try exact Hsave; by intros a Ha.
Qed.

Lemma settle_earned k r a : (forall c, r = Ok c -> earned V c) -> I a -> I (settle k r a).
Proof.
  intros Hr (H1 & H2 & H3). unfold settle, setActiveCaller. destruct r as [c | e]; split_and!; try apply H3; cbn; try done.
  - intros c' [= <-]. by apply Hr.
  - intros k' c' [[= -> ->] | Hin]%elem_of_cons; [by apply Hr | by apply (H2 k')].
  - intros k' c' [[=] | Hin]%elem_of_cons. by apply (H2 k').
Qed.

Lemma after_earned k m a : triple I m ends I -> I a -> I (after k (m a)).
Proof.
  intros Hm Ha. specialize (Hm a Ha). unfold after. destruct (m a) as [b [[c | p] | e]].
  - destruct Hm as [Hc Hb]. apply settle_earned; [by intros ? [= <-] | done].
  - by destruct Hm.
  - by apply settle_earned.
Qed.

Lemma set_earned c a : (forall d, c = Some d -> earned V d) -> I a -> I (setActiveCaller c a).
Proof. intros Hc (H1 & H2 & H3 & H4). by split_and!. Qed.

Lemma left_in {X Y} (m : SE X Y) (J : X -> Prop) (x : X) : triple J m (fun _ => J) J -> J x -> J (m x).1.
Proof. intros Hm Hx. specialize (Hm x Hx). by destruct (m x) as [x' [y | e]]. Qed.

Lemma flows_earned e a : (vouches e -> V) -> (match e with SignIn _ | Fetched _ | Logout => True | _ => False end) ->
  I a -> I (auth_step to_string e a).
Proof.
  intros HV He Ha. destruct e as [| | | | | info | info |]; try done; cbn [auth_step]; apply left_in; try exact Ha.
  - apply (triple_bind _ _ _ (fun _ => I)); [apply cache_vouched; by apply HV | intros _].
    apply triple_modify. intros b Hb. apply set_earned; [|done]. intros d [= <-]. by apply HV.
  - apply cache_vouched. by apply HV.
  - apply (triple_bind _ _ _ (fun _ => I)); [apply clear_earned | intros _]. apply triple_modify. intros b Hb. by apply set_earned.
Qed.

Lemma step_earned e a : (vouches e -> V) -> I a -> I (auth_step to_string e a).
Proof.
  intros HV Ha. destruct e as [force | k r now | k rec now | k r | k now | info | info |];
    try (by apply flows_earned); cbn [auth_step].
  - unfold ensureServiceCaller. destruct (cached a) eqn:E1, (inflight a), force; try exact Ha; by apply (same_earned a).
  - destruct (probes a !! k) as [[]|]; try done. apply after_earned; [|done]. apply on_session_earned. destruct r; try done. by apply HV.
  - destruct (probes a !! k) as [[]|]; try done. apply after_earned; [|done]. apply on_redeem_earned. intros Hr. apply HV. by destruct rec.
  - destruct (probes a !! k) as [[]|]; try done. apply after_earned; [apply on_mint_earned | done].
  - destruct (probes a !! k) as [p|]; [|done]. apply settle_earned; [done |].
    assert (I (in_tab (loadScratchCredential to_string now) a).1) as H; [|by destruct p].
    apply left_in; [|done]. eapply triple_weaken; [apply (triple_in_tab _ any) | done | by intros x b [_ H] | done].
    eapply triple_weaken; [apply load_valid | done | done | done].
Qed.
End Earned.

(** C40. Whoever the client acts as has earned it, while localStorage is written by
    this page only: over every order of calls,
    replies, deadlines and probes that overlap, and whatever the storages do, a
    session is active, or kept in memory, only when the server answered for one,
    or its mark was in the storage from the start; and an active credential is
    well formed. *)
Theorem active_caller_is_earned {S P} `{Storage S} `{HonestStorage P} to_string l (a : auth S P) :
  session a = None -> cached a = None -> outcomes a = [] ->
  let b := auth_run to_string l a in
  (forall c, cached b = Some (ScratchAuthority c) -> validateScratchCredential c = Ok tt) /\
  (cached b = Some SessionAuthority \/ session b <> None -> marked a \/ Exists vouches l).
Proof.
  intros Hs Hc Ho b. assert (earned_all (marked a \/ Exists vouches l) b) as (He & _ & _ & Hm).
  { assert (earned_all (marked a) a) as Ha.
    { split_and!; [by rewrite Hc | rewrite Ho; by intros ? ? ?%elem_of_nil | done | done]. }
    clear Hs Hc Ho. subst b. revert Ha. generalize (marked a) as V. unfold auth_run. revert a. induction l as [|e l IH]; intros a V Ha.
    - eapply earned_weaken; [|exact Ha]. by left.
    - cbn [fold_left]. apply (earned_weaken ((V \/ vouches e) \/ Exists vouches l)).
      { intros [[Hv | Hv] | Hv]; [by left | right; by left | right; by right]. }
      apply IH, step_earned; [by right |]. eapply earned_weaken; [|exact Ha]. by left. }
  split; [intros c Hb; exact (He _ Hb) |]. intros [Hb | Hb]; [exact (He _ Hb) | by apply Hm].
Qed.

(** ** One probe at a time *)

Section OneProbe.
Context {S P : Type} {HS : Storage S} {HP : Storage P} (to_string : jsval -> jstring).
Abbreviation A := (auth S P).
Implicit Types (a : A).

(** What the parts of a probe leave alone. *)
Definition still (i : option Z) (m : gmap Z phase) a : Prop := inflight a = i /\ probes a = m.

Section Still.
Context (i : option Z) (m0 : gmap Z phase).
Abbreviation J := (still i m0).
Definition calm {X} (m : SE A X) : Prop := triple J m (fun _ => J) J.

Lemma calm_tab {X} (m : SE S X) : calm (in_tab m).
Proof. intros a Ha. unfold in_tab, zoom. by destruct (m (tab_store a)) as [s [x | e]]. Qed.
Lemma calm_lasting {X} (m : SE P X) : calm (in_lasting m).
Proof. intros a Ha. unfold in_lasting, zoom. by destruct (m (lasting a)) as [s [x | e]]. Qed.
Lemma calm_bind {X Y} (m : SE A X) (f : X -> SE A Y) : calm m -> (forall x, calm (f x)) -> calm (m ≫= f).
Proof. intros Hm Hf. by apply (triple_bind _ _ _ (fun _ => J)). Qed.
Lemma calm_ret {X} (x : X) : calm (mret x).
Proof. by apply triple_ret. Qed.
Lemma calm_catch {X} (m : SE A X) h : calm m -> (forall e, calm (h e)) -> calm (se_catch m h).
Proof. intros Hm Hh. by apply (triple_catch _ _ _ J). Qed.
Lemma calm_modify f : (forall a, J a -> J (f a)) -> calm (se_modify f).
Proof. intros H a Ha. by apply H. Qed.
Lemma calm_throw {X} e : calm (se_throw (A := X) e).
Proof. by intros a Ha. Qed.
End Still.

Local Hint Resolve calm_tab calm_lasting calm_ret calm_throw : calm.
Ltac calm := repeat first
  [ apply calm_bind; [|intros ?] | apply calm_catch; [|intros ?] | apply calm_modify; by intros ?
  | solve [eauto with calm] | match goal with |- calm _ _ (match ?x with _ => _ end) => destruct x end ].

Lemma calm_cache i m info : calm i m (cacheSession info).
Proof. unfold cacheSession. calm. Qed.
Local Hint Resolve calm_cache : calm.

Lemma calm_session i m r now : calm i m (on_session to_string r now).
Proof. destruct r; cbn [on_session]; unfold hasSeenSession; calm. Qed.
Lemma calm_redeem i m r now : calm i m (on_redeem to_string r now).
Proof. unfold on_redeem. calm. Qed.
Lemma calm_mint i m r : calm i m (on_mint r).
Proof. destruct r; cbn [on_mint]; calm. Qed.
Lemma calm_sign_in i m info : calm i m (signed_in info).
Proof. unfold signed_in. calm. Qed.
Lemma calm_logout i m : calm i m logged_out.
Proof. unfold logged_out, clearCachedSession. calm. Qed.

(** Nothing runs, or the probe that callers wait for. *)
Definition single a : Prop :=
  probes a = ∅ /\ inflight a = None \/ exists k p, probes a = {[k := p]} /\ inflight a = Some k.

Lemma single_waited a k p : single a -> probes a !! k = Some p -> probes a = {[k := p]} /\ inflight a = Some k.
Proof.
  intros [[-> _] | (k' & p' & -> & ->)]; [done |]. intros [-> ->]%lookup_singleton_Some. done.
Qed.

Lemma after_single k m a p : (forall i m0, calm i m0 m) -> single a -> probes a !! k = Some p -> single (after k (m a)).
Proof.
  intros Hm Ha Hk. destruct (single_waited a k p Ha Hk) as [Hp Hi].
  specialize (Hm (inflight a) (probes a) a (conj eq_refl eq_refl)). unfold after, still in *.
  assert (forall b r, probes b = probes a -> single (settle k r b)) as Hs.
  { intros b r E. left. unfold settle. destruct r; cbn; by rewrite E, Hp, delete_singleton_eq. }
  destruct (m a) as [b [[c | q] | e]]; destruct Hm as [E1 E2]; [by apply Hs | | by apply Hs].
  right. exists k, q. cbn. by rewrite E2, Hp, insert_singleton_eq, E1, Hi.
Qed.

Lemma calm_single {X} (m : SE A X) a : (forall i m0, calm i m0 m) -> single a -> single (m a).1.
Proof.
  intros Hm. specialize (Hm (inflight a) (probes a) a (conj eq_refl eq_refl)). unfold single.
  destruct (m a) as [b [x | e]]; cbn; by destruct Hm as [-> ->].
Qed.

Lemma step_single e a : e <> Ensure true -> single a -> single (auth_step to_string e a).
Proof.
  intros He Ha. destruct e as [force | k r now | k rec now | k r | k now | info | info |]; cbn [auth_step].
  - destruct force; [done |]. unfold ensureServiceCaller. destruct (cached a); [done |]. destruct (inflight a) eqn:E; [done |].
    right. exists (next_probe a), AskedSession. split; [|done]. cbn. destruct Ha as [[-> _] | (? & ? & _ & Hi)]; [done | by rewrite E in Hi].
  - destruct (probes a !! k) as [[]|] eqn:E; try done. eapply after_single; eauto using calm_session.
  - destruct (probes a !! k) as [[]|] eqn:E; try done. eapply after_single; eauto using calm_redeem.
  - destruct (probes a !! k) as [[]|] eqn:E; try done. eapply after_single; eauto using calm_mint.
  - destruct (probes a !! k) as [p|] eqn:E; [|done]. destruct (single_waited a k p Ha E) as [Hp _].
    left. unfold settle. cbn. destruct p; try (unfold in_tab, zoom; destruct (loadScratchCredential _ _ _)); cbn; by rewrite Hp, delete_singleton_eq.
  - apply calm_single; [intros; apply calm_sign_in | done].
  - apply calm_single; [intros; apply calm_cache | done].
  - apply calm_single; [intros; apply calm_logout | done].
Qed.

(** While no caller forces a probe, at most one runs: every call made meanwhile
    waits for it, and when it has ended the next call can start another. *)
Theorem one_probe_at_a_time l a :
  probes a = ∅ -> inflight a = None -> Forall (fun e => e <> Ensure true) l -> single (auth_run to_string l a).
Proof.
  intros Hp Hi Hl. assert (single a) as Ha by (left; auto). clear Hp Hi. unfold auth_run. revert a Ha.
  induction Hl as [|e l He Hl IH]; intros a Ha; [done | by apply IH, step_single].
Qed.
End OneProbe.

(** ** Runs *)

Module Demo.
Definition scratch_body : jsval :=
  VObj [(lit "scratchId", VStr (lit "scratch_0123456789")); (lit "capability", VStr (repeat 65 43)); (lit "expiresAtMs", VNum (NInt 9000))].
Definition session_body : jsval :=
  VObj [(lit "principalId", VStr (lit "p_1")); (lit "deviceId", VStr (lit "d_1")); (lit "sessionId", VStr (lit "s_1"));
        (lit "csrf", VStr (lit "csrf")); (lit "deviceBound", VBool true)].
Definition info : SessionInfo := Session (lit "p_1") (lit "d_1") (lit "s_1") (lit "csrf") true.
Definition page (room : gmap jstring jstring -> bool) : auth (gmap jstring jstring) limited :=
  Auth ∅ (Limited ∅ room) None None None ∅ 0 [] [].
Definition run room l := auth_run (fun _ => lit "?") l (page room).
Definition visitor : list auth_event :=
  [Ensure false; SessionReply 0 SessionRefused 10; RedeemReply 0 None 10; MintReply 0 (Minted scratch_body)].
Definition kind_of {S P} (a : auth S P) : option bool :=
  match cached a with Some SessionAuthority => Some true | Some (ScratchAuthority _) => Some false | None => None end.

Example parsed_session : sessionFromUnknown session_body = Some info.
Proof. reflexivity. Qed.

(** A first visit gets a credential, a reload of the tab finds it again while the
    server is away, and it is gone when it has expired. *)
Example first_visit : kind_of (run (fun _ => true) visitor) = Some false.
Proof. vm_compute. reflexivity. Qed.
Definition reload (room : gmap jstring jstring -> bool) (l : list auth_event) (a : auth (gmap jstring jstring) limited) :=
  auth_run (fun _ => lit "?") l (Auth (tab_store a) (lasting a) None None None ∅ 0 [] []).
Example reloaded_offline :
  kind_of (reload (fun _ => true) [Ensure false; SessionReply 0 SessionLost 20] (run (fun _ => true) visitor)) = Some false.
Proof. vm_compute. reflexivity. Qed.
Example expired_offline :
  let a := reload (fun _ => true) [Ensure false; SessionReply 0 SessionLost 9000] (run (fun _ => true) visitor) in
  kind_of a = None /\ tab_store a = ∅.
Proof. vm_compute. done. Qed.
End Demo.

Lemma active_caller_is_earned_witness :
  let b := Demo.run (fun _ => true) (Demo.visitor ++ [SignIn Demo.info]) in
  (forall c, cached b = Some (ScratchAuthority c) -> validateScratchCredential c = Ok tt) /\
  (cached b = Some SessionAuthority \/ session b <> None ->
   marked (Demo.page (fun _ => true)) \/ Exists vouches (Demo.visitor ++ [SignIn Demo.info])).
Proof.
  exact (active_caller_is_earned (fun _ => lit "?") (Demo.visitor ++ [SignIn Demo.info]) (Demo.page (fun _ => true))
    eq_refl eq_refl eq_refl).
Defined.

(** A probe that ends after a sign-in makes the caller a visitor again. *)
Example stale_probe_hides_session :
  let a := Demo.run (fun _ => true) [Ensure false; SessionReply 0 SessionRefused 10; RedeemReply 0 None 10; SignIn Demo.info;
    MintReply 0 (Minted Demo.scratch_body)] in
  Demo.kind_of a = Some false /\ session a = Some Demo.info.
Proof. vm_compute. done. Qed.

(** A probe that ends after the logout makes the caller a session again. *)
Example stale_probe_undoes_logout :
  let a := Demo.run (fun _ => true) [SignIn Demo.info; Ensure true; Logout; SessionReply 0 (SessionLive Demo.session_body) 10] in
  Demo.kind_of a = Some true /\ session a = Some Demo.info.
Proof. vm_compute. done. Qed.

(** With a full [localStorage] a live session is no caller: the mark that is only
    a hint makes the probe reject. *)
Example full_storage_refuses_session :
  let a := Demo.run (fun _ => false) [Ensure false; SessionReply 0 (SessionLive Demo.session_body) 10] in
  Demo.kind_of a = None /\ exists e, outcomes a = [(0, Throw e)].
Proof. vm_compute. eauto. Qed.

(** The end of an older probe forgets a forced one that still runs. *)
Example older_probe_forgets_newer :
  let a := Demo.run (fun _ => true) [Ensure false; Ensure true; SessionReply 0 SessionLost 10] in
  inflight a = None /\ probes a !! 1 = Some AskedSession.
Proof. vm_compute. done. Qed.
