(* ===== verification/AgentStream.v ===== *)
(** The event stream of a hosted agent run ([client/src/agent/gateway.ts]):
    splitting a server-sent event stream into frames, reading a frame as an
    event, and consuming the run over as many connections as it takes. *)

From S2P Require Import Prelude TextChange.
From Stdlib Require Import Sorting.Sorted.
From S2P Require Import Bytes.
From S2P Require Import JsValue.
From S2P Require Import JsonText.
From S2P Require Import EditorText.
From S2P Require Import Regex.

(** ** Errors *)

Inductive gateway_code :=
| Unavailable | Unauthenticated | Forbidden | Conflict | RateLimited | InvalidResponse | Network.

(** What the code throws or meets: its own error class, what the browser's reads
    and delays reject with, and what the consumer of an event throws. *)
Inductive stream_error :=
| AgentGatewayError (status : Z) (code : gateway_code)
| BrowserError
| EventConsumerError (cause : Z).

Inductive result (A : Type) := Value (a : A) | Failure (e : stream_error).
Arguments Value {A} a.
Arguments Failure {A} e.

#[export] Instance result_ret : MRet result := fun A a => Value a.
#[export] Instance result_fmap : FMap result := fun A B f r =>
  match r with Value a => Value (f a) | Failure e => Failure e end.
#[export] Instance result_bind : MBind result := fun A B f r =>
  match r with Value a => f a | Failure e => Failure e end.

Definition invalidResponse : stream_error := AgentGatewayError 502 InvalidResponse.
Definition require (b : bool) : result unit := if b then Value tt else Failure invalidResponse.
Definition present {A} (o : option A) : result A :=
  match o with Some a => Value a | None => Failure invalidResponse end.

Definition gatewayHttpError (status : Z) : stream_error :=
  AgentGatewayError status
    (if status =? 401 then Unauthenticated
     else if (status =? 403) || (status =? 404) then Forbidden
     else if status =? 409 then Conflict
     else if status =? 429 then RateLimited
     else Unavailable).

(** ** Events *)

Inductive call_status := Succeeded | Failed | Cancelled.
Inductive call_effect := ReadEffect | WriteEffect | DestructiveEffect.
Inductive call_durability := Ephemeral | DocumentDurability | External.

Record usage := { inputTokens : Z; outputTokens : Z; totalTokens : Z }.

Inductive HostedAgentRunEvent :=
| RunStarted (runId documentId : jstring) (createdAtMs : Z)
| AssistantDelta (text : jstring)
| ToolCall (callId commandId name : jstring) (arguments : jsval)
    (effect : call_effect) (durability : call_durability)
| ToolResultAccepted (callId : jstring) (status : call_status)
| RunCompleted (outputText : jstring) (u : usage)
| RunFailed (code : jstring)
| RunCancelled.

Record envelope := { e_id : jstring; e_event : HostedAgentRunEvent }.

(** [TERMINAL_EVENTS.has(envelope.event.type)] *)
Definition terminal_event (e : HostedAgentRunEvent) : bool :=
  match e with RunCompleted _ _ | RunFailed _ | RunCancelled => true | _ => false end.

Definition isRecord (v : jsval) : bool := is_object v && negb (is_array v).

Definition isNonNegativeInteger (v : jsval) : bool :=
  match as_safe_int v with Some z => 0 <=? z | None => false end.
Definition isPositiveInteger (v : jsval) : bool :=
  match as_safe_int v with Some z => 0 <? z | None => false end.

(** [isOneOf(value, [...])], giving which. *)
Fixpoint isOneOf {A} (v : jsval) (values : list (string * A)) : option A :=
  match values with
  | [] => None
  | (s, a) :: r => if is_lit v s then Some a else isOneOf v r
  end.

Definition statuses : list (string * call_status) :=
  [("succeeded", Succeeded); ("failed", Failed); ("cancelled", Cancelled)]%string.
Definition effects : list (string * call_effect) :=
  [("read", ReadEffect); ("write", WriteEffect); ("destructive", DestructiveEffect)]%string.
Definition durabilities : list (string * call_durability) :=
  [("ephemeral", Ephemeral); ("document", DocumentDurability); ("external", External)]%string.

Definition string_field (v : jsval) (k : string) : result jstring := present (as_str (field v k)).
Definition count_field (v : jsval) (k : string) : result Z :=
  _ ← require (isNonNegativeInteger (field v k)); present (as_safe_int (field v k)).

(** ['type' in value]: an own property here, [Object.prototype] has none. *)
Definition has_field (v : jsval) (k : string) : bool :=
  match v with VObj fs => mhas fs (lit k) | _ => false end.

Definition parseRunEvent (eventName : jstring) (value : jsval) : result HostedAgentRunEvent :=
  _ ← require (isRecord value && negb (has_field value "type"));
  if str_eqb eventName (lit "run.started") then
    runId ← string_field value "runId";
    documentId ← string_field value "documentId";
    _ ← require (is_lit (field value "status") "running");
    at_ ← count_field value "createdAtMs";
    Value (RunStarted runId documentId at_)
  else if str_eqb eventName (lit "assistant.delta") then
    AssistantDelta <$> string_field value "text"
  else if str_eqb eventName (lit "tool.call") then
    callId ← string_field value "callId";
    commandId ← string_field value "commandId";
    name ← string_field value "name";
    _ ← require (isRecord (field value "arguments"));
    effect ← present (isOneOf (field value "effect") effects);
    durability ← present (isOneOf (field value "durability") durabilities);
    Value (ToolCall callId commandId name (field value "arguments") effect durability)
  else if str_eqb eventName (lit "tool.result.accepted") then
    callId ← string_field value "callId";
    status ← present (isOneOf (field value "status") statuses);
    Value (ToolResultAccepted callId status)
  else if str_eqb eventName (lit "run.completed") then
    _ ← require (is_lit (field value "status") "completed");
    outputText ← string_field value "outputText";
    let u := field value "usage" in
    _ ← require (isRecord u);
    i ← count_field u "inputTokens"; o ← count_field u "outputTokens"; t ← count_field u "totalTokens";
    Value (RunCompleted outputText {| inputTokens := i; outputTokens := o; totalTokens := t |})
  else if str_eqb eventName (lit "run.failed") then
    _ ← require (is_lit (field value "status") "failed");
    RunFailed <$> string_field value "code"
  else if str_eqb eventName (lit "run.cancelled") then
    _ ← require (is_lit (field value "status") "cancelled"); Value RunCancelled
  else Failure invalidResponse.

(** ** Frames *)

Definition MAX_EVENT_BYTES : Z := 131072.

(** [new TextEncoder().encode(text).byteLength] *)
Definition byteLength (text : jstring) : Z := len (utf8_encode text).

(** [text.split(/\r?\n/u)] *)
Fixpoint split_lines (s : jstring) : list jstring :=
  match s with
  | [] => [[]]
  | u :: r =>
      let rest := split_lines r in
      let more := match rest with p :: ps => (u :: p) :: ps | [] => [[u]] end in
      if u =? 10 then [] :: rest
      else match r with
           | v :: r' => if (u =? 13) && (v =? 10) then [] :: split_lines r' else more
           | [] => more
           end
  end.

Record fields := { f_id : jstring; f_event : jstring; f_data : list jstring }.

(** One line of a frame: a comment, or a field with its value. *)
Definition read_line (f : fields) (rawLine : jstring) : fields :=
  match rawLine with
  | [] => f
  | u :: _ =>
      if u =? 58 then f
      else
        let colon := indexOf rawLine [58] 0 in
        let name := if colon =? -1 then rawLine else slice rawLine 0 colon in
        let value := if colon =? -1 then [] else slice_from rawLine (colon + 1) in
        let value := match value with v :: r => if v =? 32 then r else value | [] => [] end in
        if str_eqb name (lit "id") then {| f_id := value; f_event := f_event f; f_data := f_data f |}
        else if str_eqb name (lit "event") then {| f_id := f_id f; f_event := value; f_data := f_data f |}
        else if str_eqb name (lit "data") then {| f_id := f_id f; f_event := f_event f; f_data := f_data f ++ [value] |}
        else f
  end.

Definition numeric (s : jstring) : bool := negb (str_eqb s []) && forallb is_digit s.

(** [frame.replace(/^\uFEFF/u, '')] *)
Definition without_bom (frame : jstring) : jstring :=
  match frame with u :: r => if u =? 65279 then r else frame | [] => [] end.

Definition parseFrame (frame : jstring) : result (option envelope) :=
  let f := fold_left read_line (split_lines (without_bom frame)) {| f_id := []; f_event := []; f_data := [] |} in
  match f_data f with
  | [] => Value None
  | _ =>
      _ ← require (numeric (f_id f));
      _ ← require (negb (str_eqb (f_event f) []));
      let serialized := join [10] (f_data f) in
      _ ← require (byteLength serialized <=? MAX_EVENT_BYTES);
      decoded ← present (JSON_parse serialized);
      event ← parseRunEvent (f_event f) decoded;
      Value (Some {| e_id := f_id f; e_event := event |})
  end.

(** The index of the first blank line and the length of its two line ends. *)
Definition eventBoundary (value : jstring) : option (Z * Z) :=
  let lf := indexOf value [10; 10] 0 in
  let crlf := indexOf value [13; 10; 13; 10] 0 in
  if (lf =? -1) && (crlf =? -1) then None
  else if negb (crlf =? -1) && ((lf =? -1) || (crlf <? lf)) then Some (crlf, 4)
  else Some (lf, 2).

(** [BigInt(text)] on the cursors the code compares: a stored cursor and event
    ids are decimal digits, and anything else is refused before. *)
Definition event_number (id : jstring) : Z := decimal id.

Definition compareEventIds (left right : jstring) : comparison := event_number left ?= event_number right.

(** ** The consumer *)

Definition MAX_RECONNECT_DELAY_MS : Z := 5000.

(** Where [parseEventStream] is suspended: before its first read, inside the
    loop over the frames of the buffer (the last read having been the end or
    not), or after the frame that the end of the stream left open. *)
Inductive position := Opened | Framing (buffer : jstring) (done : bool) | Drained.

(** What the loop of [streamHostedAgentRun] awaits. *)
Inductive waiting :=
| Requesting
| Reading (buffer : jstring)
| Handling (event : HostedAgentRunEvent) (resume : position)
| Delaying
| Finished (r : result unit).

Record Stream := { after : jstring; reconnectDelay : Z; aborted : bool; state : waiting }.

#[export] Instance stream_eta : Eta Stream := fun s =>
  {| after := after s; reconnectDelay := reconnectDelay s; aborted := aborted s; state := state s |}.
#[export] Instance set_after : SetField after. Proof. solve_update. Defined.
#[export] Instance set_reconnectDelay : SetField reconnectDelay. Proof. solve_update. Defined.
#[export] Instance set_aborted : SetField aborted. Proof. solve_update. Defined.
#[export] Instance set_state : SetField state. Proof. solve_update. Defined.

(** What the page sees: requests with the cursor they ask from, events handed to
    the caller, waits. *)
Inductive action := AFetch (cursor : jstring) | AEvent (e : envelope) | AWait (ms : Z).

Inductive next := Deliver (e : envelope) (resume : position) | Read (buffer : jstring) | Over (error : option stream_error).

(** A frame the parser made: nothing, an event already accepted, a new one. *)
Definition accept (cursor : jstring) (frame : jstring) : result (option envelope) :=
  parsed ← parseFrame frame;
  match parsed with
  | Some e =>
      if negb (str_eqb cursor []) && match compareEventIds (e_id e) cursor with Gt => false | _ => true end
      then Value None else Value (Some e)
  | None => Value None
  end.

(** The end of the generator: what the buffer still holds is a frame. *)
Definition flush (cursor buffer : jstring) : next :=
  match trim buffer with
  | [] => Over None
  | _ =>
      match accept cursor buffer with
      | Failure e => Over (Some e)
      | Value None => Over None
      | Value (Some e) => Deliver e Drained
      end
  end.

(** Runs the generator until it yields an event the consumer accepts, needs a
    read, or ends. *)
Fixpoint pull (fuel : nat) (is_aborted : bool) (cursor : jstring) (p : position) : next :=
  match p with
  | Drained => Over None
  | Opened => if is_aborted then flush cursor [] else Read []
  | Framing buffer done =>
      match eventBoundary buffer with
      | Some (index, length) =>
          let rest := slice_from buffer (index + length) in
          match fuel with
          | O => Over None
          | S fuel =>
              match accept cursor (slice buffer 0 index) with
              | Failure e => Over (Some e)
              | Value None => pull fuel is_aborted cursor (Framing rest done)
              | Value (Some e) => Deliver e (Framing rest done)
              end
          end
      | None => if done || is_aborted then flush cursor buffer else Read buffer
      end
  end.

Definition rest_of (p : position) : jstring :=
  match p with Framing b _ => b | Opened | Drained => [] end.

(** [while (!options.signal.aborted)] *)
Definition connect (s : Stream) : Stream * list action :=
  if aborted s then (s <| state := Finished (Value tt) |>, [])
  else (s <| state := Requesting |>, [AFetch (after s)]).

(** [await abortableDelay(reconnectDelay, options.signal)] *)
Definition retry (s : Stream) : Stream * list action :=
  (s <| state := Delaying |>, [AWait (reconnectDelay s)]).

Definition finish (r : result unit) (s : Stream) : Stream * list action := (s <| state := Finished r |>, []).

(** Leaving the loop over the events of one response. *)
Definition disconnected (error : option stream_error) (s : Stream) : Stream * list action :=
  if aborted s then finish (Value tt) s
  else
    match error with
    | Some (EventConsumerError c) => finish (Failure (EventConsumerError c)) s
    | Some (AgentGatewayError st InvalidResponse) => finish (Failure (AgentGatewayError st InvalidResponse)) s
    | _ => retry s
    end.

(** Resumes the generator; an accepted event moves the cursor and goes to the
    caller. *)
Definition consume (p : position) (s : Stream) : Stream * list action :=
  match pull (length (rest_of p)) (aborted s) (after s) p with
  | Deliver e resume => (s <| after := e_id e |> <| state := Handling (e_event e) resume |>, [AEvent e])
  | Read buffer => (s <| state := Reading buffer |>, [])
  | Over error => disconnected error s
  end.

(** One response: whether it has a body, and its content type. *)
Record response := { r_body : bool; r_contentType : option jstring }.

Definition ascii_lowercase (s : jstring) : jstring :=
  map (fun u => if (65 <=? u) && (u <=? 90) then u + 32 else u) s.
Definition event_stream (r : response) : bool :=
  r_body r && match r_contentType r with
              | Some t => str_eqb (take 17 (ascii_lowercase t)) (lit "text/event-stream")
              | None => false
              end.

(** What can happen: the caller aborts, the request settles, a read gives the
    text it decoded or fails, the caller is done with an event, a delay ends. *)
Inductive event :=
| Abort
| Response (r : result response)
| Chunk (text : jstring) (done : bool)
| ReadFails
| Handled (thrown : option Z)
| Elapsed.

Definition on_response (r : result response) (s : Stream) : Stream * list action :=
  match r with
  | Failure e =>
      if aborted s then finish (Value tt) s
      else match e with
           | AgentGatewayError status c =>
               if (0 <? status) && (status <? 500) then finish (Failure e) s else retry s
           | _ => retry s
           end
  | Value r =>
      if event_stream r then consume Opened s else finish (Failure invalidResponse) s
  end.

Definition on_chunk (buffer text : jstring) (done : bool) (s : Stream) : Stream * list action :=
  let buffer := buffer ++ text in
  if (MAX_EVENT_BYTES <? byteLength buffer) && bool_decide (eventBoundary buffer = None)
  then disconnected (Some invalidResponse) s
  else consume (Framing buffer done) s.

Definition on_handled (event : HostedAgentRunEvent) (resume : position) (thrown : option Z) (s : Stream) :
    Stream * list action :=
  match thrown with
  | Some c => disconnected (Some (EventConsumerError c)) s
  | None => if terminal_event event then finish (Value tt) s else consume resume s
  end.

Definition elapsed (s : Stream) : Stream * list action :=
  connect (s <| reconnectDelay := Z.min MAX_RECONNECT_DELAY_MS (reconnectDelay s * 2) |>).

Definition step (e : event) (s : Stream) : option (Stream * list action) :=
  match e, state s with
  | _, Finished _ => None
  | Abort, _ => Some (s <| aborted := true |>, [])
  | Response r, Requesting =>
      (* the deadline around a request rejects it at once when the caller aborts *)
      if aborted s && match r with Value _ => true | Failure _ => false end then None else Some (on_response r s)
  | Chunk text done, Reading buffer =>
      if aborted s then None else Some (on_chunk buffer text done s)
  | ReadFails, Reading _ => Some (disconnected (Some BrowserError) s)
  | Handled thrown, Handling ev resume => Some (on_handled ev resume thrown s)
  | Elapsed, Delaying => Some (elapsed s)
  | _, _ => None
  end.

Fixpoint run (es : list event) (s : Stream) : option (Stream * list action) :=
  match es with
  | [] => Some (s, [])
  | e :: r => '(s, a) ← step e s; '(s, b) ← run r s; Some (s, a ++ b)
  end.

(** [streamHostedAgentRun(eventsUrl, { after })], up to its first await. *)
Definition streamHostedAgentRun (cursor : jstring) : Stream * list action :=
  connect {| after := cursor; reconnectDelay := 400; aborted := false; state := Delaying |}.

(** ** What one step can do *)

Definition delivered (acts : list action) : list envelope :=
  omap (fun a => match a with AEvent e => Some e | _ => None end) acts.

(** An event the cursor has not reached. *)
Definition fresh (cursor : jstring) (e : envelope) : Prop :=
  numeric (e_id e) = true /\ (cursor <> [] -> event_number cursor < event_number (e_id e)).

Inductive outcome_of (s : Stream) : Stream * list action -> Prop :=
| o_quiet s' : after s' = after s -> (forall ev p, state s' <> Handling ev p) -> outcome_of s (s', [])
| o_fetch s' : after s' = after s -> state s' = Requesting -> outcome_of s (s', [AFetch (after s)])
| o_wait s' ms : after s' = after s -> state s' = Delaying -> outcome_of s (s', [AWait ms])
| o_event s' e p : fresh (after s) e -> after s' = e_id e -> state s' = Handling (e_event e) p ->
    outcome_of s (s', [AEvent e]).

Lemma parseFrame_numeric frame e : parseFrame frame = Value (Some e) -> numeric (e_id e) = true.
Proof.
  unfold parseFrame. destruct (f_data _) as [|j l]; [done |]. cbv zeta. generalize (join [10] (j :: l)). intros ser.
  destruct (numeric _) eqn:En; [cbn [require mbind result_bind] | done].
  destruct (negb _); [cbn [require mbind result_bind] | done].
  destruct (_ <=? _); [cbn [require mbind result_bind] | done].
  destruct (JSON_parse ser); [cbn [present mbind result_bind] | done].
  destruct (parseRunEvent _ _); [cbn [mbind result_bind] | done]. by intros [= <-].
Qed.

Lemma accept_fresh cursor frame e : accept cursor frame = Value (Some e) -> fresh cursor e.
Proof.
  unfold accept. destruct (parseFrame frame) as [[x|]|] eqn:E; cbn [mbind result_bind]; try done.
  apply parseFrame_numeric in E. unfold compareEventIds.
  destruct (negb _ && _) eqn:Ec; [done |]. intros [= <-]. split; [done |]. intros Hne.
  rewrite (str_eqb_neq _ _ Hne) in Ec. cbn in Ec.
  destruct (Z.compare_spec (event_number (e_id x)) (event_number cursor)); [done..| lia].
Qed.

Lemma flush_fresh cursor b e p : flush cursor b = Deliver e p -> fresh cursor e.
Proof.
  unfold flush. destruct (trim b); [done |]. destruct (accept cursor b) as [[x|]|] eqn:E; [|done..].
  intros [= <- _]. by apply accept_fresh in E.
Qed.

Lemma pull_fresh fuel ab cursor p e p' : pull fuel ab cursor p = Deliver e p' -> fresh cursor e.
Proof.
  revert p. induction fuel as [|fuel IH]; intros [|b d|]; cbn [pull]; try done.
  - destruct ab; [apply flush_fresh | done].
  - destruct (eventBoundary b) as [[i l]|]; [done |]. destruct (_ || _); [apply flush_fresh | done].
  - destruct ab; [apply flush_fresh | done].
  - destruct (eventBoundary b) as [[i l]|]; [|destruct (_ || _); [apply flush_fresh | done]].
    destruct (accept cursor _) as [[x|]|] eqn:E; [|apply IH | done].
    intros [= <- _]. by apply accept_fresh in E.
Qed.

Section Outcomes.
Implicit Types s : Stream.

Lemma outcome_ext t s r : after t = after s -> outcome_of t r -> outcome_of s r.
Proof.
  intros E [t' Ha Hs | t' Ha Hs | t' ms Ha Hs | t' e p Hf Ha Hs]; rewrite E in *;
    [by apply o_quiet | by apply o_fetch | by apply o_wait | by apply o_event with p].
Qed.

Lemma finish_outcome r s : outcome_of s (finish r s).
Proof. by apply o_quiet. Qed.

Lemma retry_outcome s : outcome_of s (retry s).
Proof. by apply o_wait. Qed.

Lemma connect_outcome s : outcome_of s (connect s).
Proof. unfold connect. destruct (aborted s); [by apply o_quiet | by apply o_fetch]. Qed.

Lemma disconnected_outcome e s : outcome_of s (disconnected e s).
Proof.
  unfold disconnected. destruct (aborted s); [apply finish_outcome |].
  destruct e as [[st []| |c]|]; first [apply finish_outcome | apply retry_outcome].
Qed.

Lemma consume_outcome p s : outcome_of s (consume p s).
Proof.
  unfold consume. destruct (pull _ _ _ p) as [e p'|b|e] eqn:E.
  - apply o_event with p'; [by eapply pull_fresh | done..].
  - by apply o_quiet.
  - apply disconnected_outcome.
Qed.

Lemma step_outcome e s r :
  step e s = Some r ->
  (e = Abort /\ r = (s <| aborted := true |>, [])) \/
  (outcome_of s r /\ (forall ev p, state s = Handling ev p -> terminal_event ev = true ->
                        r.2 = [] /\ exists x, state r.1 = Finished x)).
Proof.
  unfold step. destruct e as [|x|text d| |thrown|]; destruct (state s) as [|b|ev p| |x'] eqn:Es; try done;
    try (destruct (aborted s && _); [done |]); try (destruct (aborted s) eqn:Eab; [done |]);
    intros [= <-]; try (by left); right; (split; [|intros ev' p' E Ht; try done]).
  - destruct x as [x|e]; cbn [on_response].
    + destruct (event_stream x); [apply consume_outcome | apply finish_outcome].
    + destruct (aborted s); [apply finish_outcome |]. destruct e as [st c| |c]; [|apply retry_outcome..].
      destruct (_ && _); [apply finish_outcome | apply retry_outcome].
  - unfold on_chunk. destruct (_ && _); [apply disconnected_outcome | apply consume_outcome].
  - apply disconnected_outcome.
  - destruct thrown as [c|]; cbn [on_handled]; [apply disconnected_outcome |].
    destruct (terminal_event ev); [apply finish_outcome | apply consume_outcome].
  - injection E as -> ->. destruct thrown as [c|]; cbn [on_handled].
    + unfold disconnected. destruct (aborted s); (split; [done | by eexists]).
    + rewrite Ht. split; [done | by eexists].
  - unfold elapsed. eapply outcome_ext; [|apply connect_outcome]. done.
Qed.

(** Only the caller aborts. *)
Lemma disconnected_aborted e s : aborted (disconnected e s).1 = aborted s.
Proof. unfold disconnected. destruct (aborted s) eqn:E; [exact E |]. destruct e as [[st []| |]|]; exact E. Qed.

Lemma connect_aborted s : aborted (connect s).1 = aborted s.
Proof. unfold connect. destruct (aborted s) eqn:E; exact E. Qed.

Lemma consume_aborted p s : aborted (consume p s).1 = aborted s.
Proof. unfold consume. destruct (pull _ _ _ p); [done | done | apply disconnected_aborted]. Qed.

Lemma step_aborted e s r : step e s = Some r -> e <> Abort -> aborted r.1 = aborted s.
Proof.
  unfold step. intros Hs Hne. destruct e as [|x|text d| |thrown|]; destruct (state s) as [|b|ev p| |x']; try done;
    try (destruct (aborted s && _); [done |]); try (destruct (aborted s) eqn:Eab; [done |]);
    injection Hs as <-.
  - destruct x as [x|e]; cbn [on_response].
    + destruct (event_stream x); [apply consume_aborted | done].
    + destruct (aborted s) eqn:E; [exact E |]. destruct e as [st c| |c]; [|exact E..]. destruct (_ && _); exact E.
  - unfold on_chunk. rewrite <- Eab. destruct (_ && _); [rewrite disconnected_aborted | rewrite consume_aborted]; done.
  - apply disconnected_aborted.
  - destruct thrown as [c|]; cbn [on_handled]; [apply disconnected_aborted |].
    destruct (terminal_event ev); [done | apply consume_aborted].
  - unfold elapsed. by rewrite connect_aborted.
Qed.

(** A stream that was told to stop hands nothing over unless it is between two
    events of one read. *)
Lemma aborted_silent e s s' a :
  step e s = Some (s', a) -> aborted s = true -> (forall ev p, state s <> Handling ev p) -> delivered a = [].
Proof.
  unfold step. intros Hs Ha Hh. destruct e as [|x|text d| |thrown|]; destruct (state s) as [|b|ev p| |x'] eqn:Es; try done;
    rewrite ?Ha in Hs; cbn [andb] in Hs; try done; try (by injection Hs as <- <-); try (by destruct (Hh ev p)).
  - destruct x as [x|e]; [done |]. cbn [on_response] in Hs. rewrite Ha in Hs. by injection Hs as <- <-.
  - unfold disconnected in Hs. rewrite Ha in Hs. by injection Hs as <- <-.
  - unfold elapsed in Hs. rewrite (surjective_pairing (connect _)) in Hs. injection Hs as _ <-.
    unfold connect. by destruct (aborted _).
Qed.
End Outcomes.

(** ** Every event once, in order *)

(** Cursors asked from and events handed over, read off the actions so far. *)
Definition last_id (cursor : jstring) (acts : list action) : jstring :=
  default cursor (last (map e_id (delivered acts))).

Definition event_numbers (acts : list action) : list Z := map (fun e => event_number (e_id e)) (delivered acts).

Record exactly_once (cursor : jstring) (s : Stream) (acts : list action) : Prop := {
  once_after : after s = last_id cursor acts;
  once_numeric : Forall (fun e => numeric (e_id e) = true) (delivered acts);
  once_sorted : StronglySorted Z.lt (event_numbers acts);
  once_beyond : cursor <> [] -> Forall (fun n => event_number cursor < n) (event_numbers acts);
  once_fetches : forall a c b, acts = a ++ AFetch c :: b -> c = last_id cursor a;
  once_final : forall a e b, acts = a ++ AEvent e :: b -> terminal_event (e_event e) = true -> b = [];
  once_handling : forall e, last (delivered acts) = Some e -> terminal_event (e_event e) = true ->
    (exists p, state s = Handling (e_event e) p) \/ exists r, state s = Finished r
}.

Lemma delivered_app a b : delivered (a ++ b) = delivered a ++ delivered b.
Proof. apply omap_app. Qed.

Lemma last_id_app cursor a b : last_id cursor (a ++ b) = last_id (last_id cursor a) b.
Proof.
  unfold last_id. rewrite delivered_app, map_app. destruct (map e_id (delivered b)) as [|x l] using rev_ind.
  - by rewrite app_nil_r.
  - by rewrite app_assoc, !last_snoc.
Qed.

Lemma last_id_bounds cursor acts :
  (cursor <> [] -> Forall (fun n => event_number cursor < n) (event_numbers acts)) ->
  StronglySorted Z.lt (event_numbers acts) -> delivered acts <> [] \/ cursor <> [] ->
  Forall (fun n => n <= event_number (last_id cursor acts)) (event_numbers acts).
Proof.
  unfold last_id, event_numbers. intros _ Hs _. induction (delivered acts) as [|x l _] using rev_ind; [constructor |].
  rewrite !map_app in *. cbn [map] in *. rewrite last_snoc. cbn [default]. apply Forall_app. split; [|by repeat constructor].
  apply Forall_forall. intros n Hn.
  assert (forall l' : list Z, StronglySorted Z.lt (l' ++ [event_number (e_id x)]) -> forall n, n ∈ l' ->
    n < event_number (e_id x)) as H.
  { induction l' as [|y l' IH]; intros Hs' m; [by intros ?%not_elem_of_nil |].
    inversion Hs' as [|? ? Hs2 Hf]; subst. intros [-> | Hm]%elem_of_cons; [|by apply IH].
    apply Forall_app in Hf as [_ Hf]. by inversion Hf. }
  specialize (H _ Hs n Hn). change (n <= event_number (e_id x)). lia.
Qed.

Lemma strongly_sorted_snoc l n : StronglySorted Z.lt l -> Forall (fun m => m < n) l -> StronglySorted Z.lt (l ++ [n]).
Proof.
  induction 1 as [|m l Hs IH Hf]; intros Hn; cbn; [by repeat constructor |].
  inversion Hn; subst. constructor; [by apply IH |]. apply Forall_app. split; [done | by repeat constructor].
Qed.

Lemma snoc_inv {A} (acts a b : list A) x y :
  acts ++ [x] = a ++ y :: b -> (b = [] /\ a = acts /\ x = y) \/ exists b', b = b' ++ [x] /\ acts = a ++ y :: b'.
Proof.
  destruct b as [|z b _] using rev_ind.
  - intros [-> [= ->]]%app_inj_tail. by left.
  - rewrite app_comm_cons, app_assoc. intros [-> [= ->]]%app_inj_tail. right. by exists b.
Qed.

(** Nothing is handed over by an action other than an event. *)
Lemma exactly_once_silent cursor s s' acts a :
  exactly_once cursor s acts -> after s' = after s -> delivered a = [] ->
  (forall c, a = [AFetch c] -> c = after s) -> (length a <= 1)%nat ->
  (forall ev, (exists p, state s = Handling ev p) -> terminal_event ev = true -> a = [] /\
     ((exists p, state s' = Handling ev p) \/ exists r, state s' = Finished r)) ->
  ((exists r, state s = Finished r) -> False) ->
  exactly_once cursor s' (acts ++ a).
Proof.
  intros [Ha Hn Hs Hb Hf Hfin Hh] Hafter Hd Hfetch Hlen Hterm Hlive.
  assert (delivered (acts ++ a) = delivered acts) as Hda by (by rewrite delivered_app, Hd, app_nil_r).
  assert (last_id cursor (acts ++ a) = last_id cursor acts) as Hla by (unfold last_id; by rewrite Hda).
  assert (event_numbers (acts ++ a) = event_numbers acts) as Hea by (unfold event_numbers; by rewrite Hda).
  assert (forall e, last (delivered acts) = Some e -> terminal_event (e_event e) = true ->
    a = [] /\ ((exists p, state s' = Handling (e_event e) p) \/ exists r, state s' = Finished r)) as Ht.
  { intros e Hl He. destruct (Hh e Hl He) as [Hp | Hr]; [by apply Hterm | by destruct (Hlive Hr)]. }
  constructor.
  - by rewrite Hafter, Ha, Hla.
  - by rewrite Hda.
  - by rewrite Hea.
  - by rewrite Hea.
  - destruct a as [|x [|]]; [| |cbn in Hlen; lia]; [rewrite app_nil_r; exact Hf |].
    intros u c w [(-> & -> & ->) | (b' & -> & ->)]%snoc_inv.
    + rewrite (Hfetch c eq_refl). exact Ha.
    + by apply (Hf u c b').
  - destruct a as [|x [|]]; [| |cbn in Hlen; lia]; [rewrite app_nil_r; exact Hfin |].
    intros u e w [(-> & -> & ->) | (b' & -> & ->)]%snoc_inv; [done |]. intros He.
    assert (b' = []) as -> by (by apply (Hfin u e b')).
    destruct (Ht e) as [[=] _]; [by rewrite delivered_app; cbn; rewrite last_snoc | done].
  - rewrite Hda. intros e Hl He. by destruct (Ht e Hl He).
Qed.

Lemma exactly_once_event cursor s s' acts e p :
  exactly_once cursor s acts -> fresh (after s) e -> after s' = e_id e ->
  state s' = Handling (e_event e) p ->
  (forall ev, (exists p, state s = Handling ev p) -> terminal_event ev = true -> False) ->
  ((exists r, state s = Finished r) -> False) ->
  exactly_once cursor s' (acts ++ [AEvent e]).
Proof.
  intros [Ha Hn Hs Hb Hf Hfin Hh] [Hnum Hnew] Hafter Hstate Hterm Hlive.
  assert (delivered (acts ++ [AEvent e]) = delivered acts ++ [e]) as Hda by (by rewrite delivered_app).
  assert (event_numbers (acts ++ [AEvent e]) = event_numbers acts ++ [event_number (e_id e)]) as Hea
    by (unfold event_numbers; by rewrite Hda, map_app).
  assert (delivered acts <> [] -> after s <> []) as Hdne.
  { rewrite Ha. unfold last_id. intros Hd. destruct (delivered acts) as [|x l _] using rev_ind; [done |].
    rewrite map_app. cbn. rewrite last_snoc. cbn. apply Forall_app in Hn as [_ Hn].
    inversion Hn as [|? ? Hx _]; subst. intros E. rewrite E in Hx. done. }
  assert (Forall (fun n => n < event_number (e_id e)) (event_numbers acts)) as Hlt.
  { destruct (decide (delivered acts = [])) as [E | E]; [unfold event_numbers; rewrite E; constructor |].
    eapply Forall_impl; [apply (last_id_bounds cursor acts Hb Hs); by left |].
    cbn. intros n Hle. rewrite <- Ha in Hle. specialize (Hnew (Hdne E)). lia. }
  constructor.
  - rewrite Hafter. unfold last_id. rewrite Hda, map_app. cbn. by rewrite last_snoc.
  - rewrite Hda. apply Forall_app. split; [done | by repeat constructor].
  - rewrite Hea. by apply strongly_sorted_snoc.
  - intros Hc. rewrite Hea. apply Forall_app. split; [by apply Hb |]. repeat constructor.
    destruct (decide (delivered acts = [])) as [E | E].
    + rewrite Ha in Hnew. unfold last_id in Hnew. rewrite E in Hnew. cbn in Hnew. by apply Hnew.
    + specialize (Hnew (Hdne E)). specialize (Hb Hc). unfold event_numbers in Hb.
      assert (exists x, last (delivered acts) = Some x) as [x Hx] by (by apply last_is_Some).
      assert (after s = e_id x) as Hax.
      { rewrite Ha. unfold last_id. change (map e_id (delivered acts)) with (e_id <$> delivered acts).
        by rewrite fmap_last, Hx. }
      rewrite Forall_map, Forall_forall in Hb. specialize (Hb x (last_Some_elem_of _ _ Hx)). cbn in Hb.
      rewrite Hax in Hnew. lia.
  - intros u c w [(_ & _ & [=]) | (b' & -> & ->)]%snoc_inv. by apply (Hf u c b').
  - intros u x w [(-> & -> & [= <-]) | (b' & -> & ->)]%snoc_inv; [done |]. intros He.
    assert (b' = []) as -> by (by apply (Hfin u x b')). exfalso.
    destruct (Hh x) as [Hp | Hr]; [by rewrite delivered_app; cbn; rewrite last_snoc | done | |by apply Hlive].
    by apply (Hterm _ Hp).
  - rewrite Hda, last_snoc. intros x [= <-] _. left. by exists p.
Qed.

Lemma exactly_once_step cursor e s s' acts a :
  exactly_once cursor s acts -> step e s = Some (s', a) -> exactly_once cursor s' (acts ++ a).
Proof.
  intros Hx Hs. assert ((exists r, state s = Finished r) -> False) as Hlive.
  { intros [r Hr]. unfold step in Hs. rewrite Hr in Hs. by destruct e. }
  destruct (step_outcome _ _ _ Hs) as [[-> [= -> ->]] | [Ho Hterm]].
  - apply (exactly_once_silent cursor s); try done; [cbn; lia |]. intros ev Hp _. split; [done | by left].
  - assert (forall ev, (exists p, state s = Handling ev p) -> terminal_event ev = true ->
      a = [] /\ ((exists p, state s' = Handling ev p) \/ exists r, state s' = Finished r)) as Ht.
    { intros ev [p Hp] He. destruct (Hterm ev p Hp He) as [Hnil Hfin]. cbn in *. split; [done | by right]. }
    inversion Ho as [t Ha Hst | t Ha Hst | t ms Ha Hst | t x p Hf Ha Hst]; subst.
    + apply (exactly_once_silent cursor s); try done. cbn. lia.
    + apply (exactly_once_silent cursor s); try done. by intros c [= ->].
    + apply (exactly_once_silent cursor s); done.
    + eapply exactly_once_event; try done. intros ev Hp He. by destruct (Ht ev Hp He).
Qed.

Lemma exactly_once_run cursor es s s' acts a :
  exactly_once cursor s acts -> run es s = Some (s', a) -> exactly_once cursor s' (acts ++ a).
Proof.
  revert s acts a. induction es as [|e es IH]; intros s acts a Hx; cbn [run].
  { intros [= -> <-]. by rewrite app_nil_r. }
  destruct (step e s) as [[t b]|] eqn:E; [cbn [mbind option_bind] | done].
  destruct (run es t) as [[t' c]|] eqn:Er; [cbn [mbind option_bind] | done].
  intros [= -> <-]. rewrite app_assoc. eapply IH; [|done]. by eapply exactly_once_step.
Qed.

Lemma exactly_once_start cursor :
  exactly_once cursor (streamHostedAgentRun cursor).1 (streamHostedAgentRun cursor).2.
Proof.
  constructor; cbn; try done; try by constructor.
  - intros a c b H. destruct a as [|x a]; cbn in H; [by injection H as <- _ | by destruct a].
  - intros a e b H. destruct a as [|x a]; cbn in H; [done | by destruct a].
Qed.

(** One event of the caller's turn is handled at a time. *)
Definition handled (es : list event) : nat :=
  length (List.filter (fun e => match e with Handled _ => true | _ => false end) es).
Definition in_hand (s : Stream) : nat := match state s with Handling _ _ => 1 | _ => 0 end.

Lemma one_at_a_time es s s' a :
  run es s = Some (s', a) ->
  (length (delivered a) + in_hand s = handled es + in_hand s')%nat.
Proof.
  revert s a. induction es as [|e es IH]; intros s a; cbn [run].
  { intros [= -> <-]. done. }
  destruct (step e s) as [[t b]|] eqn:E; [cbn [mbind option_bind] | done].
  destruct (run es t) as [[t' c]|] eqn:Er; [cbn [mbind option_bind] | done].
  intros [= -> <-]. specialize (IH _ _ Er). rewrite delivered_app, length_app.
  assert (length (delivered b) + in_hand s = handled [e] + in_hand t)%nat as Hb;
    [|change (handled (e :: es)) with (handled ([e] ++ es)); unfold handled in *;
      rewrite List.filter_app, length_app; lia].
  destruct (step_outcome _ _ _ E) as [[-> [= -> ->]] | [Ho _]]; [done |].
  assert (e <> Abort -> in_hand s = handled [e]) as Hin.
  { intros Hne. unfold step in E. unfold in_hand. destruct e, (state s); try done. }
  destruct e eqn:Ee; [|rewrite Hin by done; clear Hin..].
  { unfold step in E. unfold in_hand. by destruct (state s) eqn:Es; try done; injection E as <- <-; cbn; rewrite Es. }
  all:
  inversion Ho as [u Ha Hst | u Ha Hst | u ms Ha Hst | u x p Hf Ha Hst]; subst; unfold in_hand;
    cbn [delivered omap list_omap length]; try (rewrite Hst; lia);
    (destruct (state t) as [| |ev' p'| |] eqn:Et; [lia | lia | by destruct (Hst ev' p') | lia | lia]).
Qed.

(** C21. Whatever the network does - any cut of the stream into reads, failed
    reads, refused requests, reconnections, repeated frames from the server -
    the caller is handed every event at most once and in order: the ids strictly
    increase, past the cursor the stream started from; every request asks for
    exactly what follows the last event handed over; one event is in the
    caller's hands at a time; and an event that ends the run is the last. *)
Theorem no_event_twice cursor es s acts :
  cursor = [] \/ numeric cursor = true ->
  run es (streamHostedAgentRun cursor).1 = Some (s, acts) ->
  exactly_once cursor s ((streamHostedAgentRun cursor).2 ++ acts) /\
  (length (delivered acts) = handled es + in_hand s)%nat.
Proof.
  intros _ Hr. split; [eapply exactly_once_run; [apply exactly_once_start | exact Hr] |].
  pose proof (one_at_a_time _ _ _ _ Hr) as H.
  assert (in_hand (streamHostedAgentRun cursor).1 = 0%nat) as E by done. lia.
Qed.

(** ** Where frames end *)

(** A frame as a server writes it: no carriage return, no blank line. *)
Fixpoint no_blank_line (s : jstring) : bool :=
  match s with
  | u :: r => match r with v :: _ => negb ((u =? 10) && (v =? 10)) | [] => true end && no_blank_line r
  | [] => true
  end.
Definition one_block (f : jstring) : bool := forallb (fun u => negb (u =? 13)) f && no_blank_line (f ++ [10]).

Lemma no_blank_line_spec s a b : no_blank_line s = true -> s <> a ++ [10; 10] ++ b.
Proof.
  revert s. induction a as [|x a IH]; intros s Hs ->; cbn in Hs; [done |].
  apply andb_true_iff in Hs as [_ Hs]. by apply (IH _ Hs).
Qed.

Lemma no_return f : one_block f = true -> 13 ∉ f ++ [10].
Proof.
  intros [Hf _]%andb_true_iff [Hin | Hin]%elem_of_app.
  - rewrite forallb_forall in Hf. apply list_elem_of_In in Hin. by specialize (Hf _ Hin).
  - by apply list_elem_of_singleton in Hin.
Qed.

Lemma occurs_split text quote i :
  occurs text quote i -> exists a b, text = a ++ quote ++ b /\ len a = i.
Proof.
  intros (Hi & Hle & E). exists (slice text 0 i), (slice_from text (i + len quote)).
  pose proof (len_nonneg quote). split; [|rewrite len_slice; lia].
  rewrite <- E at 1. rewrite app_assoc, <- slice_split, slice_parts by lia. done.
Qed.

Lemma split_occurs a quote b : occurs (a ++ quote ++ b) quote (len a).
Proof.
  pose proof (len_nonneg a). pose proof (len_nonneg quote). pose proof (len_nonneg b).
  split; [lia |]. rewrite !len_app. split; [lia |].
  rewrite slice_app_r by (rewrite ?len_app; lia).
  rewrite slice_app_l by lia. rewrite Z.sub_diag. replace (len a + len quote - len a) with (len quote) by lia.
  apply slice_full.
Qed.

Lemma indexOf_first text quote i :
  occurs text quote i -> (forall j, 0 <= j < i -> ~ occurs text quote j) -> indexOf text quote 0 = i.
Proof.
  intros Ho Hfirst. pose proof Ho as (Hi & _).
  destruct (indexOf_spec text quote 0) as [[_ Hno] | (Hge & Ho' & Hmin)]; [lia | by destruct (Hno i) |].
  destruct (Z.lt_trichotomy (indexOf text quote 0) i) as [Hlt | [-> | Hgt]]; [|done|].
  - by destruct (Hfirst (indexOf text quote 0)).
  - by destruct (Hmin i).
Qed.

Lemma indexOf_none text quote :
  (forall j, ~ occurs text quote j) -> indexOf text quote 0 = -1.
Proof.
  intros Hno. destruct (indexOf_spec text quote 0) as [[E _] | (_ & Ho & _)]; [lia | done | by destruct (Hno (indexOf text quote 0))].
Qed.

Lemma boundary_at f r : one_block f = true -> eventBoundary (f ++ [10; 10] ++ r) = Some (len f, 2).
Proof.
  intros Hf. pose proof (no_return f Hf) as H13. apply andb_true_iff in Hf as [_ Hf].
  assert (indexOf (f ++ [10; 10] ++ r) [10; 10] 0 = len f) as Hlf.
  { apply indexOf_first; [apply split_occurs |]. intros j Hj (a & b & E & Ha)%occurs_split.
    apply app_eq_inv in E as [(c & Ef & E) | (c & Ea & _)].
    - destruct c as [|x [|y c]]; cbn in E.
      + subst f. rewrite app_nil_r in Hj. lia.
      + injection E as <- _. apply (no_blank_line_spec _ a [] Hf). rewrite Ef, <- app_assoc. done.
      + injection E as <- <- _. apply (no_blank_line_spec _ a (c ++ [10]) Hf). rewrite Ef, <- app_assoc. done.
    - subst a. rewrite len_app in Ha. pose proof (len_nonneg c). lia. }
  assert (indexOf (f ++ [10; 10] ++ r) [13; 10; 13; 10] 0 = -1 \/ len f < indexOf (f ++ [10; 10] ++ r) [13; 10; 13; 10] 0) as Hcrlf.
  { destruct (indexOf_spec (f ++ [10; 10] ++ r) [13; 10; 13; 10] 0) as [[E _] | (_ & Ho & _)]; [lia | by left | right].
    apply occurs_split in Ho as (a & b & E & Ha). rewrite <- Ha.
    apply app_eq_inv in E as [(c & Ef & E) | (c & Ea & E)].
    - destruct c as [|x c]; [done |]. injection E as <- _. exfalso. apply H13. rewrite Ef. set_solver.
    - subst a. rewrite len_app. destruct c as [|x c]; [done |]. rewrite len_cons. pose proof (len_nonneg c). lia. }
  unfold eventBoundary. rewrite Hlf. pose proof (len_nonneg f).
  destruct Hcrlf as [-> | Hlt]; [cbn; by rewrite (proj2 (Z.eqb_neq _ _)) by lia |].
  rewrite (proj2 (Z.eqb_neq (len f) (-1))) by lia. rewrite (proj2 (Z.ltb_ge _ _)) by lia. cbn.
  by rewrite andb_false_r.
Qed.

Lemma boundary_none f t u : one_block f = true -> t ++ u = f ++ [10] -> eventBoundary t = None.
Proof.
  intros Hf E. pose proof (no_return f Hf) as H13. apply andb_true_iff in Hf as [_ Hf].
  unfold eventBoundary. rewrite !indexOf_none; [done | |].
  - intros j (a & b & -> & _)%occurs_split. apply H13. rewrite <- E. set_solver.
  - intros j (a & b & -> & _)%occurs_split. rewrite <- !app_assoc in E. by apply (no_blank_line_spec _ a (b ++ u) Hf).
Qed.

(** ** A server that keeps a log *)

(** What a server writes: a frame and the event it carries, none for a comment. *)
Record item := { frame : jstring; carries : option envelope }.

(** The frame reads as its event, and cut short at any unit it reads as nothing
    else. *)
Definition item_ok (i : item) : Prop :=
  one_block (frame i) = true /\ parseFrame (frame i) = Value (carries i) /\
  forall n e, parseFrame (take n (frame i ++ [10])) = Value (Some e) -> carries i = Some e.

Definition render (its : list item) : jstring := concat (map (fun i => frame i ++ [10; 10]) its).

(** The part of a run's record that a cursor has not reached. *)
Definition ahead (cursor : jstring) (e : envelope) : bool :=
  str_eqb cursor [] || (event_number cursor <? event_number (e_id e)).
Definition beyond (cursor : jstring) (log : list envelope) : list envelope := List.filter (ahead cursor) log.

Section Log.
Context (log : list envelope).
Hypothesis log_sorted : StronglySorted Z.lt (map (fun e => event_number (e_id e)) log).
Hypothesis log_numeric : Forall (fun e => numeric (e_id e) = true) log.

(** The page and the connection it reads: the frames of the response, and the
    text that has arrived of them. *)
Record wired := { page : Stream; sent : list item; received : jstring }.

(** A response replays the record after the cursor that was asked for, with
    comments anywhere; it can stop anywhere, and arrive in any pieces. *)
Inductive wired_step (w : wired) : list action -> wired -> Prop :=
| w_response r its s a :
    step (Response r) (page w) = Some (s, a) -> Forall item_ok its ->
    omap carries its `prefix_of` beyond (after (page w)) log ->
    wired_step w a {| page := s; sent := its; received := [] |}
| w_chunk text done s a :
    step (Chunk text done) (page w) = Some (s, a) -> received w ++ text `prefix_of` render (sent w) ->
    wired_step w a {| page := s; sent := sent w; received := received w ++ text |}
| w_other e s a :
    step e (page w) = Some (s, a) -> (forall r, e <> Response r) -> (forall t d, e <> Chunk t d) ->
    wired_step w a {| page := s; sent := sent w; received := received w |}.

Inductive wired_steps (w : wired) : list action -> wired -> Prop :=
| ws_refl : wired_steps w [] w
| ws_snoc a b v u : wired_steps w a v -> wired_step v b u -> wired_steps w (a ++ b) u.

Definition opened (cursor : jstring) : wired :=
  {| page := (streamHostedAgentRun cursor).1; sent := []; received := [] |}.

Lemma ahead_self e : numeric (e_id e) = true -> ahead (e_id e) e = false.
Proof.
  intros Hn. unfold ahead. rewrite Z.ltb_irrefl, orb_false_r. apply str_eqb_neq.
  intros E. by rewrite E in Hn.
Qed.

Lemma ahead_later c e y :
  ahead c e = true -> event_number (e_id e) < event_number (e_id y) -> ahead c y = true /\ ahead (e_id e) y = true.
Proof.
  unfold ahead. intros Hc Hlt. rewrite (proj2 (Z.ltb_lt (event_number (e_id e)) _) Hlt), orb_true_r.
  split; [|done]. apply orb_true_iff in Hc as [-> | Hc]; [done |]. apply Z.ltb_lt in Hc.
  rewrite (proj2 (Z.ltb_lt _ _)); [apply orb_true_r | lia].
Qed.

(** The record past the cursor starts with an event: past that event comes the
    rest. *)
Lemma beyond_drop l e c rest :
  StronglySorted Z.lt (map (fun e => event_number (e_id e)) l) -> numeric (e_id e) = true ->
  beyond c l = e :: rest -> rest = beyond (e_id e) l.
Proof.
  unfold beyond. induction l as [|x l IH]; intros Hs Hn; [done |]. cbn [List.filter].
  inversion Hs as [|? ? Hs' Hf]; subst. rewrite Forall_map, Forall_forall in Hf. cbn beta in Hf.
  destruct (ahead c x) eqn:Ec.
  - intros [= -> <-]. rewrite ahead_self by done. apply List.filter_ext_in.
    intros y Hy%list_elem_of_In. by destruct (ahead_later c e y Ec (Hf y Hy)) as [-> ->].
  - intros E. rewrite (IH Hs' Hn E) at 1.
    assert (e ∈ l) as Hin.
    { apply list_elem_of_In. eapply (proj1 (List.filter_In (ahead c) e l)). rewrite E. by left. }
    assert (ahead (e_id e) x = false) as ->; [|done].
    unfold ahead. specialize (Hf e Hin). rewrite (proj2 (Z.ltb_ge _ _)) by lia. rewrite orb_false_r.
    apply str_eqb_neq. intros E'. by rewrite E' in Hn.
Qed.

(** ** Reading a cut of the response *)

Lemma render_cons i its : render (i :: its) = frame i ++ [10; 10] ++ render its.
Proof. unfold render. cbn. by rewrite <- app_assoc. Qed.

Lemma frame_slice f k : slice (f ++ [10; 10] ++ k) 0 (len f) = f.
Proof. pose proof (len_nonneg f). rewrite slice_app_l by lia. apply slice_full. Qed.

Lemma frame_rest f k : slice_from (f ++ [10; 10] ++ k) (len f + 2) = k.
Proof.
  rewrite app_assoc. replace (len f + 2) with (len (f ++ [10; 10])) by (rewrite len_app; done).
  pose proof (len_nonneg (f ++ [10; 10])). pose proof (len_nonneg k).
  rewrite slice_from_in by (rewrite (len_app (f ++ [10; 10]) k); lia).
  unfold len. rewrite Nat2Z.id. apply drop_app_length.
Qed.

(** A cut of a rendering is empty, ends inside its first frame, or goes past it. *)
Lemma prefix_cut b its : b `prefix_of` render its ->
  b = [] \/
  (exists i its' u, its = i :: its' /\ b ++ u = frame i ++ [10]) \/
  (exists i its' k, its = i :: its' /\ b = frame i ++ [10; 10] ++ k /\ k `prefix_of` render its').
Proof.
  destruct its as [|i its]; intros [u E].
  - left. by destruct b.
  - right. rewrite render_cons in E. symmetry in E.
    change (frame i ++ [10; 10] ++ render its) with (frame i ++ [10] ++ [10] ++ render its) in E.
    rewrite app_assoc in E. apply app_eq_inv in E as [(k & -> & E) | (k & E & Eu)].
    + destruct k as [|x k].
      * left. exists i, its, []. by rewrite !app_nil_r.
      * injection E as <- E. right. exists i, its, k. split; [done |]. split; [by rewrite <- app_assoc |]. by exists u.
    + left. by exists i, its, k.
Qed.

Section Consuming.
Context (c : jstring).

(** The frames still to come agree with the record past the cursor. *)
Definition coming (b : jstring) (its : list item) : Prop :=
  b `prefix_of` render its /\ Forall item_ok its /\ omap carries its `prefix_of` beyond c log.

Lemma accept_frame f o :
  parseFrame f = Value o -> (forall e, o = Some e -> ahead c e = true) -> accept c f = Value o.
Proof.
  intros E Ha. unfold accept. rewrite E. cbn [mbind result_bind]. destruct o as [e|]; [|done].
  specialize (Ha e eq_refl). unfold ahead in Ha. destruct (str_eqb c []); cbn [negb andb]; [done |].
  cbn [orb] in Ha. apply Z.ltb_lt in Ha. unfold compareEventIds.
  destruct (Z.compare_spec (event_number (e_id e)) (event_number c)); [lia | lia | done].
Qed.

Lemma coming_head b i its : coming b (i :: its) ->
  item_ok i /\ Forall item_ok its /\
  match carries i with
  | Some e => ahead c e = true /\ e ∈ log /\ exists l, beyond c log = e :: l /\ omap carries its `prefix_of` l
  | None => omap carries its `prefix_of` beyond c log
  end.
Proof.
  intros (_ & Hok & Hp). apply Forall_cons in Hok as [Hi Hok]. split; [done | split; [done |]].
  cbn [omap list_omap] in Hp. destruct (carries i) as [e|]; [|done].
  destruct Hp as [u E]. assert (e ∈ beyond c log) as Hin by (rewrite E; left).
  apply list_elem_of_In, List.filter_In in Hin as [Hin Ha]. split; [done |].
  split; [by apply list_elem_of_In |]. eexists. split; [exact E |]. by exists u.
Qed.

(** What is left of a text whose frames up to [d] were read. *)
Definition left_after (text : jstring) (its : list item) (cursor b : jstring) : Prop :=
  exists d its', its = d ++ its' /\ text = render d ++ b /\ Forall item_ok its' /\
    omap carries its' `prefix_of` beyond cursor log.

Definition next_ok (text : jstring) (its : list item) (n : next) : Prop :=
  match n with
  | Deliver e p => beyond c log = e :: beyond (e_id e) log /\
                   (p = Drained \/ left_after text its (e_id e) (rest_of p))
  | Read b => left_after text its c b
  | Over _ => True
  end.

Lemma render_app a b : render (a ++ b) = render a ++ render b.
Proof. unfold render. by rewrite map_app, concat_app. Qed.

Lemma left_after_cons text its cursor b i :
  left_after text its cursor b -> left_after (frame i ++ [10; 10] ++ text) (i :: its) cursor b.
Proof.
  intros (d & its' & -> & -> & H1 & H2). exists (i :: d), its'.
  rewrite render_cons, <- !app_assoc. done.
Qed.

Lemma next_ok_cons text its n i :
  next_ok text its n -> next_ok (frame i ++ [10; 10] ++ text) (i :: its) n.
Proof.
  destruct n as [e p|b|]; cbn [next_ok]; [|apply left_after_cons | done].
  intros [E [-> | H]]; (split; [exact E |]); [by left | right]. by apply left_after_cons.
Qed.

Lemma coming_event b its e l : coming b its -> beyond c log = e :: l -> e ∈ log -> l = beyond (e_id e) log.
Proof.
  intros _ E Hin. rewrite Forall_forall in log_numeric.
  apply (beyond_drop log e c); [exact log_sorted | by apply log_numeric | exact E].
Qed.

Lemma flush_ok b its : coming b its -> eventBoundary b = None -> next_ok b its (flush c b).
Proof.
  intros Hc Hb. unfold flush. destruct (trim b) as [|x t] eqn:Et; [done |].
  pose proof Hc as [Hp Hrest].
  destruct (prefix_cut _ _ Hp) as [-> | [(i & its' & u & -> & Hu) | (i & its' & k & -> & -> & Hk)]]; [done | |].
  - destruct (coming_head b i its' Hc) as ((_ & _ & Hcut) & _ & Hhead).
    unfold accept. destruct (parseFrame b) as [[e|]|] eqn:Ee; cbn [mbind result_bind]; [|done..].
    destruct (negb _ && _); [done |]. cbn [next_ok].
    assert (parseFrame (take (length b) (frame i ++ [10])) = Value (Some e)) as Hq
      by (by rewrite <- Hu, take_app_length).
    rewrite (Hcut _ _ Hq) in Hhead. destruct Hhead as (_ & Hlog & l & E & _). split; [|by left].
    rewrite E. f_equal. by apply (coming_event b (i :: its')).
  - destruct (coming_head _ i its' Hc) as ((Hone & _) & _ & _). rewrite boundary_at in Hb by done. done.
Qed.

Lemma pull_ok fuel ab p its :
  p = Drained \/ coming (rest_of p) its -> next_ok (rest_of p) its (pull fuel ab c p).
Proof.
  revert p its. induction fuel as [|fuel IH]; intros [|b dn|] its; cbn [pull rest_of]; try done;
    intros [? | Hc]; try done.
  1,3: destruct ab; [by apply flush_ok |]; exists [], its; by destruct Hc as (_ & ? & ?).
  - destruct (eventBoundary b) as [[i l]|] eqn:Eb; [done |].
    destruct (_ || _); [by apply flush_ok |]. exists [], its. by destruct Hc as (_ & ? & ?).
  - destruct (eventBoundary b) as [[i l]|] eqn:Eb;
      [|destruct (_ || _); [by apply flush_ok |]; exists [], its; by destruct Hc as (_ & ? & ?)].
    pose proof Hc as (Hp & _).
    destruct (prefix_cut _ _ Hp) as [-> | [(x & its' & u & -> & Hu) | (x & its' & k & -> & -> & Hk)]]; [done | |].
    { destruct (coming_head b x its' Hc) as ((Hone & _) & _). by rewrite (boundary_none _ _ _ Hone Hu) in Eb. }
    destruct (coming_head _ x its' Hc) as ((Hone & Hparse & _) & Hok & Hhead).
    rewrite boundary_at in Eb by done. injection Eb as <- <-.
    rewrite frame_slice, frame_rest.
    apply next_ok_cons.
    rewrite (accept_frame (frame x) (carries x) Hparse)
      by (intros e E; rewrite E in Hhead; by destruct Hhead).
    destruct (carries x) as [e|] eqn:Ex.
    + destruct Hhead as (_ & Hlog & l & E & Hl). pose proof (coming_event _ _ _ _ Hc E Hlog) as ->.
      split; [exact E |]. right. exists [], its'. by split_and!.
    + apply (IH (Framing k dn)). right. by split_and!.
Qed.
Lemma next_ok_app d text its n : next_ok text its n -> next_ok (render d ++ text) (d ++ its) n.
Proof.
  intros H. induction d as [|i d IH]; [done |]. rewrite render_cons, <- !app_assoc. by apply next_ok_cons.
Qed.

Lemma pull_left_after fuel ab p text its :
  text `prefix_of` render its -> p = Drained \/ left_after text its c (rest_of p) ->
  next_ok text its (pull fuel ab c p).
Proof.
  intros Hp [-> | (d & its' & -> & -> & Hok & Hl)]; [by destruct fuel |].
  apply next_ok_app, pull_ok. right. split_and!; [|done..].
  rewrite render_app in Hp. destruct Hp as [u E]. rewrite <- app_assoc in E. apply app_inv_head in E. by exists u.
Qed.
End Consuming.

(** What the page has read of the response agrees with the record. *)
Definition reads (w : wired) : Prop :=
  received w `prefix_of` render (sent w) /\
  match state (page w) with
  | Reading b => left_after (received w) (sent w) (after (page w)) b
  | Handling _ p => p = Drained \/ left_after (received w) (sent w) (after (page w)) (rest_of p)
  | _ => True
  end.

Definition follows (cursor : jstring) (acts : list action) (w : wired) : Prop :=
  beyond cursor log = delivered acts ++ beyond (after (page w)) log /\ reads w.

Definition quiet (s : Stream) : Prop :=
  match state s with Reading _ | Handling _ _ => False | _ => True end.

Lemma disconnected_quiet e s : quiet (disconnected e s).1 /\ after (disconnected e s).1 = after s /\
  delivered (disconnected e s).2 = [].
Proof. unfold disconnected. destruct (aborted s); [done |]. by destruct e as [[st []| |]|]. Qed.

Lemma follows_quiet cursor acts w s a its t :
  follows cursor acts w -> quiet s -> after s = after (page w) -> delivered a = [] ->
  t `prefix_of` render its ->
  follows cursor (acts ++ a) {| page := s; sent := its; received := t |}.
Proof.
  intros [E _] Hq Ha Hd Ht. split.
  - cbn [page]. by rewrite delivered_app, Hd, app_nil_r, Ha.
  - split; [done |]. cbn [page]. unfold quiet in Hq. by destruct (state s).
Qed.

Lemma follows_consume cursor acts w s p its t :
  follows cursor acts w -> after s = after (page w) -> t `prefix_of` render its ->
  p = Drained \/ left_after t its (after s) (rest_of p) ->
  follows cursor (acts ++ (consume p s).2) {| page := (consume p s).1; sent := its; received := t |}.
Proof.
  intros Hf Ha Ht Hp. pose proof (pull_left_after (after s) (length (rest_of p)) (aborted s) p t its Ht Hp) as Hn.
  unfold consume. destruct (pull _ _ _ p) as [e q|b|err]; cbn [next_ok] in Hn.
  - destruct Hf as [E _]. destruct Hn as [Eb Hq]. split.
    + cbn. rewrite delivered_app, E, <- Ha, Eb, <- app_assoc. done.
    + split; [done |]. exact Hq.
  - split; [|split; [done | exact Hn]]. destruct Hf as [E _]. cbn. by rewrite app_nil_r, Ha.
  - destruct (disconnected_quiet err s) as (? & ? & ?). eapply follows_quiet; eauto. congruence.
Qed.

Lemma left_after_more text its cursor b t :
  left_after text its cursor b -> left_after (text ++ t) its cursor (b ++ t).
Proof. intros (d & its' & -> & -> & H). exists d, its'. rewrite <- app_assoc. done. Qed.

Lemma left_after_start its cursor :
  Forall item_ok its -> omap carries its `prefix_of` beyond cursor log -> left_after [] its cursor [].
Proof. intros. by exists [], its. Qed.

Lemma follows_step cursor acts w a u :
  follows cursor acts w -> wired_step w a u -> follows cursor (acts ++ a) u.
Proof.
  intros Hf Hs. pose proof Hf as [E [Hrec Hst]].
  destruct Hs as [r its s a Hs Hok Hl | text dn s a Hs Hp | e s a Hs Hr Hc].
  - unfold step in Hs. destruct (state (page w)) eqn:Es; try done.
    destruct (aborted (page w) && _); [done |]. injection Hs as Hs.
    assert ([] `prefix_of` render its) as Hnil by apply prefix_nil.
    destruct r as [r|e]; cbn [on_response] in Hs.
    + destruct (event_stream r).
      * rewrite (surjective_pairing (consume _ _)) in Hs. injection Hs as <- <-.
        apply (follows_consume _ _ w); [done..|]. right. by apply left_after_start.
      * injection Hs as <- <-. by apply (follows_quiet _ _ w).
    + destruct (aborted (page w)); [injection Hs as <- <-; by apply (follows_quiet _ _ w) |].
      destruct e as [st c| |c]; [destruct (_ && _)|..]; injection Hs as <- <-; by apply (follows_quiet _ _ w).
  - unfold step in Hs. destruct (state (page w)) as [|b| | |] eqn:Es; try done.
    destruct (aborted (page w)); [done |]. injection Hs as Hs. unfold on_chunk in Hs. destruct (_ && _).
    + rewrite (surjective_pairing (disconnected _ _)) in Hs. injection Hs as <- <-.
      destruct (disconnected_quiet (Some invalidResponse) (page w)) as (? & ? & ?). by apply (follows_quiet _ _ w).
    + rewrite (surjective_pairing (consume _ _)) in Hs. injection Hs as <- <-.
      apply (follows_consume _ _ w); [done..|]. right. by apply left_after_more.
  - unfold step in Hs. destruct e as [|r|t d| |thrown|];
      [|by destruct (Hr r) | by destruct (Hc t d)|..].
    + assert (s = (page w) <| aborted := true |> /\ a = []) as [-> ->]
        by (destruct (state (page w)); by simplify_eq).
      split; [cbn; by rewrite app_nil_r |]. split; [done |]. exact Hst.
    + destruct (state (page w)) as [|b|ev p| |] eqn:Es; try done; injection Hs as Hs.
      rewrite (surjective_pairing (disconnected _ _)) in Hs. injection Hs as <- <-.
      destruct (disconnected_quiet (Some BrowserError) (page w)) as (? & ? & ?). by apply (follows_quiet _ _ w).
    + destruct (state (page w)) as [|b|ev p| |] eqn:Es; try done; injection Hs as Hs.
      unfold on_handled in Hs. destruct thrown as [c|]; [|destruct (terminal_event ev)].
      * rewrite (surjective_pairing (disconnected _ _)) in Hs. injection Hs as <- <-.
        destruct (disconnected_quiet (Some (EventConsumerError c)) (page w)) as (? & ? & ?).
        by apply (follows_quiet _ _ w).
      * injection Hs as <- <-. by apply (follows_quiet _ _ w).
      * rewrite (surjective_pairing (consume _ _)) in Hs. injection Hs as <- <-. by apply (follows_consume _ _ w).
    + destruct (state (page w)) as [|b|ev p| |] eqn:Es; try done.
      unfold elapsed, connect in Hs. destruct (aborted _); injection Hs as <- <-; by apply (follows_quiet _ _ w).
Qed.

(** C20. Nothing is lost and nothing is made up: when the server replays its
    record of the run after the cursor it is asked for, the events handed to the
    caller are the record from the stream's cursor on, without a gap or a
    repetition, as far as the network has let it come. This holds for every
    cut of every response into reads, wherever responses stop - inside a frame
    too -, through failed reads and requests, reconnections and comments. *)
Theorem run_follows_record cursor acts w :
  wired_steps (opened cursor) acts w -> delivered acts `prefix_of` beyond cursor log.
Proof.
  intros Hs. assert (follows cursor acts w) as [E _]; [|by eexists].
  induction Hs as [|a b v u _ IH Hstep]; [|by eapply follows_step].
  split; [done |]. split; [apply prefix_nil | done].
Qed.
End Log.

(** ** A run completes *)

Lemma utf8_scalar_length c : 0 < len (utf8_scalar c) /\ (65535 < c -> len (utf8_scalar c) = 4).
Proof.
  unfold utf8_scalar. split; intros.
  - by destruct (c <? 128); [|destruct (c <? 2048); [|destruct (c <? 65536)]].
  - zdecide. done.
Qed.

Lemma byteLength_prefix t u : byteLength t <= byteLength (t ++ u).
Proof.
  unfold byteLength, utf8_encode.
  assert (forall n t, (length t <= n)%nat ->
    len (concat (map utf8_scalar (scalars t))) <= len (concat (map utf8_scalar (scalars (t ++ u))))) as H;
    [|by apply (H (length t))].
  clear t. intros n. induction n as [|n IH]; intros t Hn.
  { destruct t; [|cbn in Hn; lia]. cbn. apply len_nonneg. }
  destruct t as [|x t]; [cbn; apply len_nonneg |]. cbn [length] in Hn. cbn [app scalars].
  assert (forall c, len (concat (map utf8_scalar (c :: scalars t))) <= len (concat (map utf8_scalar (c :: scalars (t ++ u))))) as Hc.
  { intros c. cbn [map concat]. rewrite !len_app. pose proof (IH t ltac:(lia)). lia. }
  destruct ((55296 <=? x) && (x <? 56320)) eqn:Ex; [|destruct ((56320 <=? x) && (x <? 57344)); apply Hc].
  destruct t as [|v t].
  - cbn [app]. change (len (concat (map utf8_scalar [65533]))) with 3.
    destruct u as [|v u]; [done |]. destruct ((56320 <=? v) && (v <? 57344)) eqn:Ev.
    + cbn [map concat]. rewrite len_app. pose proof (len_nonneg (concat (map utf8_scalar (scalars u)))).
      reflect_bools. destruct (utf8_scalar_length (65536 + (x - 55296) * 1024 + (v - 56320))) as [_ ->]; lia.
    + cbn [map concat]. rewrite len_app. change (len (utf8_scalar 65533)) with 3.
      pose proof (len_nonneg (concat (map utf8_scalar (scalars (v :: u))))). lia.
  - cbn [app]. destruct ((56320 <=? v) && (v <? 57344)); [|apply Hc].
    cbn [map concat]. rewrite !len_app. pose proof (IH t ltac:(cbn in Hn; lia)). lia.
Qed.

(** What a caller that succeeds and a network that delivers add to a run. *)
Definition benign (e : event) : bool :=
  match e with Chunk _ done => negb done | Handled None => true | _ => false end.
Definition chunks (es : list event) : list jstring :=
  omap (fun e => match e with Chunk t _ => Some t | _ => None end) es.

(** Only the last event of the record ends the run. *)
Definition ends_run (l : list envelope) : Prop :=
  exists a e, l = a ++ [e] /\ terminal_event (e_event e) = true /\
    Forall (fun x => terminal_event (e_event x) = false) a.

Lemma ends_run_cons e l : ends_run (e :: l) ->
  (l = [] /\ terminal_event (e_event e) = true) \/ (ends_run l /\ terminal_event (e_event e) = false).
Proof.
  intros ([|x a] & y & E & Hy & Ha); injection E as -> ->; [by left | right].
  apply Forall_cons in Ha as [Hx Ha]. split; [|done]. by exists a, y.
Qed.

Section Completing.
Context (log : list envelope).
Hypothesis log_sorted : StronglySorted Z.lt (map (fun e => event_number (e_id e)) log).
Hypothesis log_numeric : Forall (fun e => numeric (e_id e) = true) log.

Definition finishes (s : Stream) (l : list envelope) (ps : list jstring) : Prop :=
  exists es s' acts, run es s = Some (s', acts) /\ state s' = Finished (Value tt) /\ delivered acts = l /\
    Forall (fun e => benign e = true) es /\ chunks es `prefix_of` ps.

Lemma finishes_step e s s' a l ps qs :
  step e s = Some (s', a) -> benign e = true -> finishes s' l ps -> chunks [e] ++ ps = qs ->
  finishes s (delivered a ++ l) qs.
Proof.
  intros Hs Hb (es & t & acts & Hr & Ht & <- & Hes & Hc) <-. exists (e :: es), t, (a ++ acts).
  split; [cbn [run]; rewrite Hs; cbn [mbind option_bind]; by rewrite Hr |].
  split; [done |]. split; [by rewrite delivered_app |]. split; [by constructor |].
  change (chunks (e :: es)) with (chunks ([e] ++ es)). unfold chunks in *. rewrite omap_app. by apply prefix_app.
Qed.

(** The frames of a buffer are read up to its first new event, or all of them. *)
Lemma pull_frames fuel c b its :
  (length b <= fuel)%nat -> coming log c b its -> omap carries its = beyond c log ->
  exists d its' b', its = d ++ its' /\ b = render d ++ b' /\
    ((omap carries d = [] /\ pull fuel false c (Framing b false) = Read b' /\ eventBoundary b' = None) \/
     (exists e, omap carries d = [e] /\ pull fuel false c (Framing b false) = Deliver e (Framing b' false))).
Proof.
  revert b its. induction fuel as [|fuel IH]; intros b its Hlen Hc Hall.
  { destruct b; [|cbn in Hlen; lia]. exists [], its, []. split; [done |]. split; [done |]. by left. }
  pose proof Hc as (Hp & _). destruct (prefix_cut _ _ Hp) as [-> | [(x & its' & u & -> & Hu) | (x & its' & k & -> & -> & Hk)]].
  - exists [], its, []. split; [done |]. split; [done |]. by left.
  - destruct (coming_head log c b x its' Hc) as ((Hone & _) & _).
    exists [], (x :: its'), b. split; [done |]. split; [done |]. left. split; [done |].
    cbn [pull]. by rewrite (boundary_none _ _ _ Hone Hu).
  - destruct (coming_head log c _ x its' Hc) as ((Hone & Hparse & _) & Hok & Hhead).
    assert (accept c (frame x) = Value (carries x)) as Hacc.
    { apply (accept_frame c (frame x) (carries x) Hparse). intros e E. rewrite E in Hhead. by destruct Hhead. }
    assert (pull (S fuel) false c (Framing (frame x ++ [10; 10] ++ k) false) =
      match carries x with Some e => Deliver e (Framing k false) | None => pull fuel false c (Framing k false) end) as ->.
    { cbn [pull]. rewrite (boundary_at _ _ Hone). cbv zeta. rewrite frame_slice, frame_rest, Hacc. by destruct (carries x). }
    destruct (carries x) as [e|] eqn:Ex.
    + exists [x], its', k. split; [done |]. split; [unfold render; cbn; by rewrite app_nil_r, <- app_assoc |].
      right. exists e. cbn. by rewrite Ex.
    + destruct (IH k its') as (d & t & b' & -> & -> & H).
      * rewrite !length_app in Hlen. cbn in Hlen. lia.
      * by split_and!.
      * cbn in Hall. rewrite Ex in Hall. exact Hall.
      * exists (x :: d), t, b'. split; [done |]. split; [by rewrite render_cons, <- !app_assoc |].
        destruct H as [(H1 & H2 & H3) | (e & H1 & H2)]; [left | right; exists e]; cbn; by rewrite Ex.
Qed.

Definition sized (i : item) : Prop := byteLength (frame i ++ [10]) <= MAX_EVENT_BYTES.

(** The frames to come, the ones the pieces [ps] still bring included, are the
    rest of the record. *)
Record rest_of_run (s : Stream) (b : jstring) (its : list item) (ps : list jstring) : Prop := {
  rr_live : aborted s = false;
  rr_coming : coming log (after s) b its;
  rr_all : omap carries its = beyond (after s) log;
  rr_sized : Forall sized its;
  rr_ends : ends_run (beyond (after s) log);
  rr_text : b ++ concat ps = render its
}.

Definition finishes_from (r : Stream * list action) (l : list envelope) (ps : list jstring) : Prop :=
  exists l', l = delivered r.2 ++ l' /\ finishes r.1 l' ps.

Lemma finishes_after e s r l ps qs :
  step e s = Some r -> benign e = true -> chunks [e] ++ ps = qs -> finishes_from r l ps -> finishes s l qs.
Proof. destruct r as [s' a]. intros Hs Hb Hc (l' & -> & Hf). by eapply finishes_step. Qed.

Lemma coming_suffix c c' d its b :
  coming log c (render d ++ b) (d ++ its) -> omap carries its `prefix_of` beyond c' log -> coming log c' b its.
Proof.
  intros ([u E] & Hok & _) Hl. rewrite render_app, <- app_assoc in E. apply app_inv_head in E.
  apply Forall_app in Hok as [_ Hok]. split_and!; [by exists u | done..].
Qed.

Lemma framing_finishes ps :
  (forall its b s, rest_of_run s b its ps -> state s = Reading b -> eventBoundary b = None ->
     finishes s (beyond (after s) log) ps) ->
  forall n its b s, (length its <= n)%nat -> rest_of_run s b its ps ->
    finishes_from (consume (Framing b false) s) (beyond (after s) log) ps.
Proof.
  intros Hread n. induction n as [|n IH]; intros its b s Hn [Hlive Hcoming Hall Hsized Hends Htext].
  { destruct its; [|cbn in Hn; lia]. rewrite <- Hall in Hends. destruct Hends as (a & e & E & _). by destruct a. }
  destruct (pull_frames (length b) (after s) b its) as (d & its' & b' & -> & -> & Hcase); [lia | done | done |].
  apply Forall_app in Hsized as [_ Hsized].
  assert (b' ++ concat ps = render its') as Htext'.
  { rewrite render_app, <- app_assoc in Htext. by apply app_inv_head in Htext. }
  unfold consume. cbn [rest_of]. rewrite Hlive. rewrite omap_app in Hall.
  destruct Hcase as [(Hd & -> & Hb) | (e & Hd & ->)]; rewrite Hd in Hall; cbn [app] in Hall.
  - exists (beyond (after s) log). split; [done |].
    assert (finishes (s <| state := Reading b' |>) (beyond (after (s <| state := Reading b' |>)) log) ps) as H;
      [apply (Hread its' b'); [|done..] | exact H].
    constructor; try done. eapply coming_suffix; [exact Hcoming |]. by rewrite Hall.
  - set (s1 := s <| after := e_id e |> <| state := Handling (e_event e) (Framing b' false) |>).
    assert (omap carries its' = beyond (e_id e) log) as Hall'.
    { apply (beyond_drop log e (after s)); [exact log_sorted | | done].
      rewrite Forall_forall in log_numeric. apply log_numeric.
      assert (e ∈ beyond (after s) log) as Hin by (rewrite <- Hall; left).
      apply list_elem_of_In, List.filter_In in Hin as [Hin _]. by apply list_elem_of_In. }
    exists (omap carries its'). split; [by rewrite <- Hall |]. rewrite <- Hall in Hends.
    destruct (ends_run_cons _ _ Hends) as [[-> Hterm] | [Hends' Hterm]].
    + exists [Handled None], (s1 <| state := Finished (Value tt) |>), [].
      split; [|split; [done | split; [done | split; [by repeat constructor | apply prefix_nil]]]].
      assert (step (Handled None) s1 = Some (finish (Value tt) s1)) as Hs; [|cbn [run fst]; by rewrite Hs].
      unfold step. change (state s1) with (Handling (e_event e) (Framing b' false)). cbn iota beta.
      unfold on_handled. by rewrite Hterm.
    + rewrite Hall'. apply (finishes_after (Handled None) s1 (consume (Framing b' false) s1) _ ps); [|done..|].
      * unfold step. change (state s1) with (Handling (e_event e) (Framing b' false)). cbn iota beta.
        unfold on_handled. by rewrite Hterm.
      * apply (IH its' b' s1).
        -- rewrite length_app in Hn. destruct d; [done |]. cbn in Hn. lia.
        -- constructor; try done; [|change (after s1) with (e_id e); by rewrite <- Hall'].
           eapply coming_suffix; [exact Hcoming |]. change (after s1) with (e_id e). by rewrite Hall'.
Qed.

Lemma open_frame_small b its ps s : rest_of_run s b its ps -> eventBoundary b = None -> byteLength b <= MAX_EVENT_BYTES.
Proof.
  intros [_ Hc _ Hs _ _] Hb. pose proof Hc as (Hp & _).
  destruct (prefix_cut _ _ Hp) as [-> | [(x & its' & u & -> & Hu) | (x & its' & k & -> & -> & Hk)]]; [done | |].
  - apply Forall_cons in Hs as [Hs _]. unfold sized in Hs. rewrite <- Hu in Hs.
    pose proof (byteLength_prefix b u). lia.
  - destruct (coming_head log _ _ x its' Hc) as ((Hone & _) & _). by rewrite (boundary_at _ _ Hone) in Hb.
Qed.

Lemma reading_finishes ps : forall its b s, rest_of_run s b its ps -> state s = Reading b ->
  eventBoundary b = None -> finishes s (beyond (after s) log) ps.
Proof.
  induction ps as [|p ps IH]; intros its b s Hrr Hst Hb; pose proof Hrr as [Hlive Hcoming Hall Hsized Hends Htext].
  - exfalso. cbn in Htext. rewrite app_nil_r in Htext. subst b. destruct its as [|i its].
    + rewrite <- Hall in Hends. destruct Hends as (a & e & E & _). by destruct a.
    + destruct (coming_head log _ _ i its Hcoming) as ((Hone & _) & _).
      by rewrite render_cons, (boundary_at _ _ Hone) in Hb.
  - assert (rest_of_run s (b ++ p) its ps) as Hrr'.
    { constructor; try done; [|cbn in Htext; by rewrite <- app_assoc].
      destruct Hcoming as (_ & H). split; [|exact H]. exists (concat ps). cbn in Htext. by rewrite <- Htext, app_assoc. }
    apply (finishes_after (Chunk p false) s (consume (Framing (b ++ p) false) s) _ ps); [|done..|].
    + unfold step. rewrite Hst, Hlive. unfold on_chunk. destruct (bool_decide (eventBoundary (b ++ p) = None)) eqn:Eb.
      * apply bool_decide_eq_true in Eb. pose proof (open_frame_small _ _ _ _ Hrr' Eb).
        rewrite (proj2 (Z.ltb_ge MAX_EVENT_BYTES (byteLength (b ++ p)))) by lia. done.
      * by rewrite andb_false_r.
    + by apply (framing_finishes ps IH (length its) its).
Qed.

(** A run completes: when a response brings the whole rest of the record,
    none of its frames above the size limit, and the caller succeeds, then
    however the response is cut into reads every event is handed over, the last
    one ends the run, and the stream returns - at the latest with the last
    read. *)
Theorem any_cut_completes cursor r its ps :
  event_stream r = true -> Forall item_ok its -> Forall sized its ->
  omap carries its = beyond cursor log -> ends_run (beyond cursor log) -> concat ps = render its ->
  exists es s acts,
    run (Response (Value r) :: es) (streamHostedAgentRun cursor).1 = Some (s, acts) /\
    state s = Finished (Value tt) /\ delivered acts = beyond cursor log /\
    Forall (fun e => benign e = true) es /\ chunks es `prefix_of` ps.
Proof.
  intros Hr Hok Hsized Hall Hends Htext.
  set (s0 := (streamHostedAgentRun cursor).1). set (s1 := s0 <| state := Reading [] |>).
  assert (step (Response (Value r)) s0 = Some (s1, [])) as Hs.
  { unfold step. cbn [s0 streamHostedAgentRun connect state fst]. unfold on_response. rewrite Hr. done. }
  destruct (reading_finishes ps its [] s1) as (es & t & acts & Hrun & Ht & Hd & Hb & Hc); [|done..|].
  - constructor; try done. split; [apply prefix_nil |]. split; [done |]. by rewrite Hall.
  - exists es, t, acts. split; [|done]. cbn [run]. rewrite Hs. cbn [mbind option_bind]. by rewrite Hrun.
Qed.
End Completing.

(** ** A concrete run *)

(** A frame as the server of this repository writes it. *)
Definition wire_frame (id name data : string) : jstring :=
  lit "id: " ++ lit id ++ [10] ++ lit "event: " ++ lit name ++ [10] ++ lit "data: " ++ q data.

Definition closed_until (f : jstring) : bool :=
  forallb (fun n => match parseFrame (take n f) with Value (Some _) => false | _ => true end) (List.seq 0 (length f)).

Lemma item_by_check f o :
  one_block f = true -> parseFrame f = Value o -> parseFrame (f ++ [10]) = Value o -> closed_until f = true ->
  item_ok {| frame := f; carries := o |}.
Proof.
  intros H1 H2 H3 H4. split_and!; [done..|]. cbn [frame carries]. intros n e Hn.
  unfold closed_until in H4. rewrite forallb_forall in H4.
  destruct (decide (n < length f)%nat) as [Hlt | Hge].
  - rewrite take_app_le in Hn by lia. specialize (H4 n). rewrite Hn in H4.
    discriminate H4. apply List.in_seq. lia.
  - destruct (decide (n = length f)) as [-> | Hne].
    + rewrite take_app_length in Hn. congruence.
    + rewrite take_ge in Hn by (rewrite length_app; cbn; lia). congruence.
Qed.

Definition frame1 := wire_frame "1" "run.started" "{'runId':'r','documentId':'d','status':'running','createdAtMs':5}".
Definition frame2 := wire_frame "2" "tool.call"
  "{'callId':'c','commandId':'format.bold','name':'marks_format_bold','arguments':{},'effect':'write','durability':'document'}".
Definition frame3 := wire_frame "3" "run.completed"
  "{'status':'completed','outputText':'Done','usage':{'inputTokens':1,'outputTokens':1,'totalTokens':2}}".
Definition keepalive := lit ": keepalive".

Definition event1 : envelope := {| e_id := lit "1"; e_event := RunStarted (lit "r") (lit "d") 5 |}.
Definition event2 : envelope :=
  {| e_id := lit "2"; e_event := ToolCall (lit "c") (lit "format.bold") (lit "marks_format_bold") (VObj [])
                                   WriteEffect DocumentDurability |}.
Definition event3 : envelope :=
  {| e_id := lit "3"; e_event := RunCompleted (lit "Done") {| inputTokens := 1; outputTokens := 1; totalTokens := 2 |} |}.

Definition record : list envelope := [event1; event2; event3].
Definition items : list item :=
  [{| frame := frame1; carries := Some event1 |}; {| frame := keepalive; carries := None |};
   {| frame := frame2; carries := Some event2 |}; {| frame := frame3; carries := Some event3 |}].

Lemma items_ok : Forall item_ok items.
Proof. repeat constructor; apply item_by_check; vm_compute; reflexivity. Qed.

Lemma record_sorted : StronglySorted Z.lt (map (fun e => event_number (e_id e)) record).
Proof. vm_compute. repeat constructor. Qed.

Lemma record_numeric : Forall (fun e => numeric (e_id e) = true) record.
Proof. repeat constructor. Qed.

Definition sse : response := {| r_body := true; r_contentType := Some (lit "text/event-stream; charset=utf-8") |}.

(** The stream is cut inside the second event, fails, and is asked for again. *)
Definition first_half : jstring := frame1 ++ [10; 10] ++ keepalive ++ [10; 10] ++ take 30 frame2.
Definition broken_run : list event :=
  [Response (Value sse); Chunk (take 40 first_half) false; Chunk (drop 40 first_half) false; Handled None;
   ReadFails; Elapsed; Response (Value sse); Chunk (frame1 ++ [10; 10] ++ frame2 ++ [10; 10]) false; Handled None].

Lemma no_event_twice_witness :
  exists s, run broken_run (streamHostedAgentRun []).1 =
      Some (s, [AEvent event1; AWait 400; AFetch (lit "1"); AEvent event2]) /\
    exactly_once [] s (AFetch [] :: [AEvent event1; AWait 400; AFetch (lit "1"); AEvent event2]).
Proof.
  destruct (run broken_run (streamHostedAgentRun []).1) as [[s acts]|] eqn:E; [|vm_compute in E; discriminate].
  assert (acts = [AEvent event1; AWait 400; AFetch (lit "1"); AEvent event2]) as Ha
    by (vm_compute in E; injection E as _ <-; reflexivity).
  exists s. rewrite <- Ha. split; [done |].
  exact (proj1 (no_event_twice [] broken_run s acts (or_introl eq_refl) E)).
Defined.

(** The comment of the source has a truncated response be asked for again. One
    that ends cleanly inside a frame is parsed as if it were whole, and ends the
    run with an error that is not retried. *)
Example truncated_frame_is_fatal :
  option_map (fun r => (state r.1, r.2))
    (run [Response (Value sse); Chunk (take 60 frame1) false; Chunk [] true] (streamHostedAgentRun []).1) =
  Some (Finished (Failure invalidResponse), []).
Proof. vm_compute. reflexivity. Qed.

(** The caller aborts while it handles one event: the next one, already in the
    buffer, is still handed over. *)
Example aborted_run_hands_over_a_call :
  option_map snd
    (run [Response (Value sse); Chunk (frame1 ++ [10; 10] ++ frame2 ++ [10; 10]) false; Abort; Handled None]
       (streamHostedAgentRun []).1) =
  Some [AEvent event1; AEvent event2].
Proof. vm_compute. reflexivity. Qed.

Lemma run_follows_record_witness :
  StronglySorted Z.lt (map (fun e => event_number (e_id e)) record) /\ [event1] `prefix_of` record.
Proof.
  split; [exact record_sorted |].
  set (s1 := (streamHostedAgentRun []).1 <| state := Reading [] |>).
  set (w1 := {| page := s1; sent := items; received := [] |}).
  set (s2 := s1 <| after := lit "1" |> <| state := Handling (e_event event1) (Framing (drop (length frame1 + 2) first_half) false) |>).
  set (w2 := {| page := s2; sent := items; received := [] ++ first_half |}).
  assert (wired_steps record (opened []) [] w1) as H1.
  { apply (ws_snoc record (opened []) [] [] (opened []) w1 (ws_refl record (opened []))).
    apply (w_response record (opened []) (Value sse) items s1 []); [vm_compute; reflexivity | exact items_ok |].
    exists []. reflexivity. }
  assert (wired_steps record (opened []) [AEvent event1] w2) as H2.
  { apply (ws_snoc record (opened []) [] [AEvent event1] w1 w2 H1).
    apply (w_chunk record w1 first_half false s2 [AEvent event1]); [vm_compute; reflexivity |].
    exists (drop 30 frame2 ++ [10; 10] ++ frame3 ++ [10; 10]). vm_compute. reflexivity. }
  exact (run_follows_record record record_sorted record_numeric [] [AEvent event1] w2 H2).
Defined.

Lemma any_cut_completes_witness :
  exists es s acts,
    run (Response (Value sse) :: es) (streamHostedAgentRun []).1 = Some (s, acts) /\
    state s = Finished (Value tt) /\ delivered acts = record /\
    Forall (fun e => benign e = true) es /\ chunks es `prefix_of` [take 100 (render items); drop 100 (render items)].
Proof.
  apply (any_cut_completes record record_sorted record_numeric [] sse items);
    [reflexivity | exact items_ok | | reflexivity | | ].
  - repeat constructor; vm_compute; discriminate.
  - exists [event1; event2], event3. split; [reflexivity |]. split; [reflexivity |]. repeat constructor.
  - vm_compute. reflexivity.
Defined.
