(* ===== verification/HostedRun.v ===== *)
(** A hosted agent run in a tab: the record of the run that survives a reload
    ([client/src/agent/run-store.ts]), the handler of its events
    ([client/src/components/agent/AgentPill.tsx]) and the stream of [AgentStream]
    that feeds it. *)

From S2P Require Import Prelude TextChange.
From Stdlib Require Import Sorting.Sorted.
From S2P Require Import JsValue.
From S2P Require Import Commands.
From S2P Require Import AgentStream.

(** ** The record of a run ([client/src/agent/run-store.ts]) *)

Definition VERSION : Z := 1.
Definition MAX_CALLS : Z := 8.
Definition MAX_DETAIL_CHARS : Z := 1024.

Inductive call_state := CallExecuting | CallTerminal.
#[export] Instance call_state_dec : EqDecision call_state. Proof. solve_decision. Defined.
#[export] Instance call_status_dec : EqDecision call_status. Proof. solve_decision. Defined.
#[export] Instance call_effect_dec : EqDecision call_effect. Proof. solve_decision. Defined.
#[export] Instance call_durability_dec : EqDecision call_durability. Proof. solve_decision. Defined.

Record StoredCall := {
  sc_callId : jstring;
  sc_requestId : jstring;
  sc_commandId : jstring;
  sc_state : call_state;
  sc_status : option call_status;
  sc_message : option jstring;
  sc_error : option jstring
}.

Record RunRecord := {
  rec_documentId : jstring;
  rec_runId : jstring;
  rec_requestId : jstring;
  rec_eventsUrl : jstring;
  rec_expiresAtMs : Z;
  rec_lastEventId : jstring;
  rec_calls : list StoredCall
}.

#[export] Instance record_eta : Eta RunRecord := fun r =>
  {| rec_documentId := rec_documentId r; rec_runId := rec_runId r; rec_requestId := rec_requestId r;
     rec_eventsUrl := rec_eventsUrl r; rec_expiresAtMs := rec_expiresAtMs r;
     rec_lastEventId := rec_lastEventId r; rec_calls := rec_calls r |}.
#[export] Instance set_lastEventId : SetField rec_lastEventId. Proof. solve_update. Defined.
#[export] Instance set_calls : SetField rec_calls. Proof. solve_update. Defined.

(** What [JSON.parse] gives back of what [JSON.stringify] wrote: a member whose
    value is [undefined] is left out. *)
Definition state_text (s : call_state) : string :=
  match s with CallExecuting => "executing" | CallTerminal => "terminal" end.
Definition status_text (s : call_status) : string :=
  match s with Succeeded => "succeeded" | Failed => "failed" | Cancelled => "cancelled" end.

Definition member (k : string) (v : jsval) : list (jstring * jsval) := [(lit k, v)].
Definition optional {A} (k : string) (f : A -> jsval) (o : option A) : list (jstring * jsval) :=
  match o with Some a => member k (f a) | None => [] end.

Definition call_json (c : StoredCall) : jsval :=
  VObj (member "callId" (VStr (sc_callId c)) ++ member "requestId" (VStr (sc_requestId c))
        ++ member "commandId" (VStr (sc_commandId c)) ++ member "state" (VStr (lit (state_text (sc_state c))))
        ++ optional "status" (fun s => VStr (lit (status_text s))) (sc_status c)
        ++ optional "message" VStr (sc_message c) ++ optional "error" VStr (sc_error c)).

Definition record_json (r : RunRecord) : jsval :=
  VObj (member "version" (VNum (NInt VERSION)) ++ member "documentId" (VStr (rec_documentId r))
        ++ member "runId" (VStr (rec_runId r)) ++ member "requestId" (VStr (rec_requestId r))
        ++ member "eventsUrl" (VStr (rec_eventsUrl r)) ++ member "expiresAtMs" (VNum (NInt (rec_expiresAtMs r)))
        ++ member "lastEventId" (VStr (rec_lastEventId r)) ++ member "calls" (VArr (map call_json (rec_calls r)))).

(** [text.slice(0, MAX_DETAIL_CHARS)] and [calls.slice(-MAX_CALLS)] *)
Definition detail (t : jstring) : jstring := slice t 0 MAX_DETAIL_CHARS.
Definition bounded_call (c : StoredCall) : StoredCall :=
  {| sc_callId := sc_callId c; sc_requestId := sc_requestId c; sc_commandId := sc_commandId c;
     sc_state := sc_state c; sc_status := sc_status c;
     sc_message := detail <$> sc_message c; sc_error := detail <$> sc_error c |}.
Definition bounded (r : RunRecord) : RunRecord :=
  r <| rec_calls := map bounded_call (slice_from (rec_calls r) (- MAX_CALLS)) |>.

(** The value under the document's key: [setItem], [removeItem]. *)
Definition writeActiveHostedRun (r : RunRecord) : option jsval := Some (record_json (bounded r)).

Definition boundedId (v : jsval) : option jstring :=
  match v with VStr s => if (0 <? len s) && (len s <=? 160) then Some s else None | _ => None end.

(** [optionalBoundedString], giving what is kept. *)
Definition optionalBoundedString (v : jsval) : option (option jstring) :=
  match v with
  | VUndef => Some None
  | VStr s => if len s <=? MAX_DETAIL_CHARS then Some (Some s) else None
  | _ => None
  end.

Definition isStatus (v : jsval) : option call_status := isOneOf v statuses.

Definition validateCall (v : jsval) : option StoredCall :=
  if isRecord v then
    callId ← boundedId (field v "callId");
    requestId ← boundedId (field v "requestId");
    commandId ← boundedId (field v "commandId");
    state ← isOneOf (field v "state") [("executing", CallExecuting); ("terminal", CallTerminal)]%string;
    status ← match field v "status" with VUndef => Some None | x => Some <$> isStatus x end;
    if bool_decide (state = CallTerminal) && bool_decide (status = None) then None else
    message ← optionalBoundedString (field v "message");
    error ← optionalBoundedString (field v "error");
    Some {| sc_callId := callId; sc_requestId := requestId; sc_commandId := commandId; sc_state := state;
            sc_status := status; sc_message := message; sc_error := error |}
  else None.

Definition validateRecord (v : jsval) (expectedDocumentId : jstring) : option RunRecord :=
  if isRecord v && is_int (field v "version") VERSION then
    documentId ← as_str (field v "documentId");
    if negb (str_eqb documentId expectedDocumentId) then None else
    runId ← boundedId (field v "runId");
    requestId ← boundedId (field v "requestId");
    eventsUrl ← as_str (field v "eventsUrl");
    if 512 <? len eventsUrl then None else
    expiresAtMs ← as_safe_int (field v "expiresAtMs");
    lastEventId ← as_str (field v "lastEventId");
    if negb (forallb JsonText.is_digit lastEventId) then None else
    match field v "calls" with
    | VArr l =>
        if MAX_CALLS <? len l then None else
        calls ← mapM validateCall l;
        Some {| rec_documentId := documentId; rec_runId := runId; rec_requestId := requestId;
                rec_eventsUrl := eventsUrl; rec_expiresAtMs := expiresAtMs;
                rec_lastEventId := lastEventId; rec_calls := calls |}
    | _ => None
    end
  else None.

(** The record and what is left stored: an invalid or expired one is removed. *)
Definition readActiveHostedRun (documentId : jstring) (store : option jsval) (now : Z) :
    option RunRecord * option jsval :=
  match store with
  | None => (None, None)
  | Some v =>
      match validateRecord v documentId with
      | Some r => if rec_expiresAtMs r <=? now then (None, None) else (Some r, store)
      | None => (None, None)
      end
  end.

(** ** The consumer of a run ([client/src/components/agent/AgentPill.tsx]) *)

(** What the page shows of the run's state is left out; what it stores, executes
    and sends is here. *)
Section Consumer.
(** The registry: whether a command is exposed to agents, and its risk. *)
Context (getCommand : jstring -> option (bool * CommandRisk)).

(** [commandId.replace(/[^a-z0-9]+/gi, '_')] *)
Definition alphanumeric (u : Z) : bool :=
  ((48 <=? u) && (u <=? 57)) || ((65 <=? u) && (u <=? 90)) || ((97 <=? u) && (u <=? 122)).
Fixpoint underscored (in_run : bool) (s : jstring) : jstring :=
  match s with
  | [] => []
  | u :: r => if alphanumeric u then u :: underscored false r
              else if in_run then underscored true r else 95 :: underscored true r
  end.
Definition expectedName (commandId : jstring) : jstring := lit "marks_" ++ underscored false commandId.

(** [hostedConsequence] of [client/src/agent/catalog.ts]. *)
Definition hostedConsequence (risk : CommandRisk) : call_effect * call_durability :=
  (match risk with ReadRisk => ReadEffect | DestructiveRisk => DestructiveEffect | _ => WriteEffect end,
   match risk with ReadRisk => Ephemeral | ExternalRisk => External | _ => DocumentDurability end).

(** The call names a registered command, under its own name and consequence. *)
Definition contract_ok (commandId name : jstring) (effect : call_effect) (durability : call_durability) : bool :=
  match getCommand commandId with
  | Some (exposed, risk) =>
      exposed && str_eqb name (expectedName commandId) &&
      bool_decide (effect = (hostedConsequence risk).1) && bool_decide (durability = (hostedConsequence risk).2)
  | None => false
  end.

(** What [onEvent] awaits: nothing, the receipt of the command it started, the
    server's answer to the receipt it submits; or it has returned or thrown and
    the stream is about to resume. *)
Inductive handler :=
| Idle
| Executing (call : StoredCall) (e : envelope)
| Submitting (e : envelope)
| Returned (thrown : option Z).

(** One call of [consumeHostedRun]: the run it was started for, the component's
    [storedRunRef], the stream and the handler of the event in hand. *)
Record Consumer := {
  k_documentId : jstring;
  k_runId : jstring;
  k_ref : option RunRecord;
  k_stream : Stream;
  k_handler : handler
}.

#[export] Instance consumer_eta : Eta Consumer := fun k =>
  {| k_documentId := k_documentId k; k_runId := k_runId k; k_ref := k_ref k;
     k_stream := k_stream k; k_handler := k_handler k |}.
#[export] Instance set_k_ref : SetField k_ref. Proof. solve_update. Defined.
#[export] Instance set_k_stream : SetField k_stream. Proof. solve_update. Defined.
#[export] Instance set_k_handler : SetField k_handler. Proof. solve_update. Defined.

(** A consumer with the tab's storage, and the calls it has launched, by id. *)
Record Tab := { t_consumer : Consumer; t_store : option jsval; t_launched : list jstring }.

Definition STORAGE_ERROR : Z := 1.
Definition IDENTITY_ERROR : Z := 2.
Definition SUBMIT_ERROR : Z := 3.

Definition with_handler (h : handler) (t : Tab) : Tab :=
  {| t_consumer := (t_consumer t) <| k_handler := h |>; t_store := t_store t; t_launched := t_launched t |}.

(** [storedRunRef.current = next; writeActiveHostedRun(next)]: the write can be
    refused, and throws then. *)
Definition store_run (refuse : bool) (next : RunRecord) (t : Tab) : Tab :=
  {| t_consumer := (t_consumer t) <| k_ref := Some next |>;
     t_store := if refuse then t_store t else writeActiveHostedRun next;
     t_launched := t_launched t |}.

Definition forget_run (t : Tab) : Tab :=
  {| t_consumer := (t_consumer t) <| k_ref := None |>; t_store := None; t_launched := t_launched t |}.

Definition without_call (id : jstring) (calls : list StoredCall) : list StoredCall :=
  List.filter (fun c => negb (str_eqb (sc_callId c) id)) calls.

(** [updateStoredCall], and whether it returned. *)
Definition updateStoredCall (refuse : bool) (call : StoredCall) (t : Tab) : Tab * bool :=
  match k_ref (t_consumer t) with
  | None => (t, true)
  | Some current =>
      (store_run refuse (current <| rec_calls := without_call (sc_callId call) (rec_calls current) ++ [call] |>) t,
       negb refuse)
  end.

(** The end of [onEvent]: the run is over, or the record's cursor moves. *)
Definition record_progress (refuse : bool) (e : envelope) (t : Tab) : Tab :=
  if terminal_event (e_event e) then with_handler (Returned None) (forget_run t)
  else
    match k_ref (t_consumer t) with
    | Some current =>
        if str_eqb (rec_runId current) (k_runId (t_consumer t)) then
          with_handler (Returned (if refuse then Some STORAGE_ERROR else None))
            (store_run refuse (current <| rec_lastEventId := e_id e |>) t)
        else with_handler (Returned None) t
    | None => with_handler (Returned None) t
    end.

(** [if (aborted || stored.state !== 'terminal' || !stored.status) return; await submitToolReceipt(...)] *)
Definition submit_receipt (refuse : bool) (call : StoredCall) (e : envelope) (t : Tab) : Tab :=
  if aborted (k_stream (t_consumer t)) || negb (bool_decide (sc_state call = CallTerminal))
     || bool_decide (sc_status call = None)
  then record_progress refuse e t
  else with_handler (Submitting e) t.

Definition UNKNOWN_OUTCOME : jstring :=
  lit "The browser reloaded before the command receipt was recorded; outcome unknown and not replayed.".
Definition CONTRACT_MISMATCH : jstring := lit "The proposed tool did not match the registered Marks command contract.".

Definition terminal_call (c : StoredCall) (status : call_status) (message error : option jstring) : StoredCall :=
  {| sc_callId := sc_callId c; sc_requestId := sc_requestId c; sc_commandId := sc_commandId c;
     sc_state := CallTerminal; sc_status := Some status; sc_message := message; sc_error := error |}.

(** Stores a call that is over and goes on to submit it. *)
Definition store_terminal (refuse : bool) (call : StoredCall) (e : envelope) (t : Tab) : Tab :=
  let '(t, returned) := updateStoredCall refuse call t in
  if returned then submit_receipt refuse call e t else with_handler (Returned (Some STORAGE_ERROR)) t.

(** [handleHostedTool], up to its first await. *)
Definition handleHostedTool (refuse : bool) (requestId : jstring) (e : envelope) (callId commandId name : jstring)
    (effect : call_effect) (durability : call_durability) (t : Tab) : Tab :=
  let stored := r ← k_ref (t_consumer t); List.find (fun c => str_eqb (sc_callId c) callId) (rec_calls r) in
  match stored with
  | Some call =>
      if bool_decide (sc_state call = CallExecuting)
      then store_terminal refuse (terminal_call call Failed (sc_message call) (Some UNKNOWN_OUTCOME)) e t
      else submit_receipt refuse call e t
  | None =>
      let call state status error :=
        {| sc_callId := callId; sc_requestId := requestId; sc_commandId := commandId; sc_state := state;
           sc_status := status; sc_message := None; sc_error := error |} in
      if negb (contract_ok commandId name effect durability)
      then store_terminal refuse (call CallTerminal (Some Failed) (Some CONTRACT_MISMATCH)) e t
      else
        let executing := call CallExecuting None None in
        let '(t, returned) := updateStoredCall refuse executing t in
        if returned then
          (* center.start(event.commandId, 'agent', event.arguments) *)
          with_handler (Executing executing e)
            {| t_consumer := t_consumer t; t_store := t_store t; t_launched := t_launched t ++ [callId] |}
        else with_handler (Returned (Some STORAGE_ERROR)) t
  end.

(** [onEvent], up to its first await. *)
Definition onEvent (refuse : bool) (requestId : jstring) (e : envelope) (t : Tab) : Tab :=
  match e_event e with
  | RunStarted runId documentId _ =>
      if negb (str_eqb runId (k_runId (t_consumer t))) || negb (str_eqb documentId (k_documentId (t_consumer t)))
      then with_handler (Returned (Some IDENTITY_ERROR)) t
      else record_progress refuse e t
  | ToolCall callId commandId name _ effect durability =>
      handleHostedTool refuse requestId e callId commandId name effect durability t
  | _ => record_progress refuse e t
  end.

(** The end of [consumeHostedRun]: a stream that failed, not aborted, forgets the
    run. *)
Definition consume_end (t : Tab) : Tab :=
  match state (k_stream (t_consumer t)) with
  | Finished (Failure _) => if aborted (k_stream (t_consumer t)) then t else forget_run t
  | _ => t
  end.

(** What a step of the stream gives the page. *)
Definition after_stream (refuse : bool) (requestId : jstring) (s : Stream) (acts : list action) (t : Tab) : Tab :=
  let t := {| t_consumer := (t_consumer t) <| k_stream := s |>; t_store := t_store t; t_launched := t_launched t |} in
  match delivered acts with
  | e :: _ => onEvent refuse requestId e t
  | [] => consume_end t
  end.

(** What can happen to a consumer; [refuse] is whether the storage refuses
    writes, [requestId] the random id drawn. *)
Inductive tab_event :=
| TStream (e : AgentStream.event)
| TResume
| TReceipt (status : call_status) (message error : option jstring)
| TSubmitted (ok : bool)
| TStop
| TForget.

Definition tab_step (refuse : bool) (requestId : jstring) (e : tab_event) (t : Tab) : option Tab :=
  let k := t_consumer t in
  match e, k_handler k with
  | TStream (Handled _), _ => None
  | TStream Abort, _ => None
  | TStream ev, Idle =>
      '(s, acts) ← AgentStream.step ev (k_stream k); Some (after_stream refuse requestId s acts t)
  | TResume, Returned thrown =>
      '(s, acts) ← AgentStream.step (Handled thrown) (k_stream k);
      Some (after_stream refuse requestId s acts (with_handler Idle t))
  | TReceipt status message error, Executing call ev =>
      Some (store_terminal refuse (terminal_call call status message error) ev t)
  | TSubmitted ok, Submitting ev =>
      Some (if ok then record_progress refuse ev t else with_handler (Returned (Some SUBMIT_ERROR)) t)
  | TStop, _ =>
      (* controller.abort(): the stop button, another document, the component unmounting *)
      '(s, _) ← AgentStream.step Abort (k_stream k);
      Some {| t_consumer := k <| k_stream := s |>; t_store := t_store t; t_launched := t_launched t |}
  | TForget, _ => if aborted (k_stream k) then Some (forget_run t) else None
  | _, _ => None
  end.

(** A consumer for a record read back or just written. *)
Definition consumeHostedRun (r : RunRecord) : Consumer :=
  {| k_documentId := rec_documentId r; k_runId := rec_runId r; k_ref := Some r;
     k_stream := (streamHostedAgentRun (rec_lastEventId r)).1; k_handler := Idle |}.
End Consumer.

(** ** Reading back what was written *)

Lemma field_skip k v fs k' : lit k <> lit k' -> field (VObj (member k v ++ fs)) k' = field (VObj fs) k'.
Proof. intros H. unfold field, member. cbn [app mget]. by rewrite decide_False. Qed.

Lemma field_here k v fs : field (VObj (member k v ++ fs)) k = v.
Proof. unfold field, member. cbn [app mget]. by rewrite decide_True. Qed.

Lemma field_last k v : field (VObj (member k v)) k = v.
Proof. unfold field, member. cbn [mget]. by rewrite decide_True. Qed.

Lemma field_optional {A} k (f : A -> jsval) o fs k' :
  lit k <> lit k' -> field (VObj (optional k f o ++ fs)) k' = field (VObj fs) k'.
Proof. intros H. destruct o; [by apply field_skip | done]. Qed.

Ltac read_field := repeat first [ rewrite field_here | rewrite field_last | rewrite field_skip by (vm_compute; discriminate)
                                | rewrite field_optional by (vm_compute; discriminate) ].

Lemma boundedId_Some s x : boundedId (VStr s) = Some x -> x = s.
Proof. cbn. by destruct (_ && _); intros [= <-]. Qed.

Lemma optionalBoundedString_Some o x :
  optionalBoundedString (match o with Some s => VStr s | None => VUndef end) = Some x -> x = o.
Proof. destruct o as [s|]; cbn; [destruct (_ <=? _); [by intros [= <-] | done] | by intros [= <-]]. Qed.

Lemma call_fields c :
  let v := call_json c in
  field v "callId" = VStr (sc_callId c) /\ field v "requestId" = VStr (sc_requestId c) /\
  field v "commandId" = VStr (sc_commandId c) /\ field v "state" = VStr (lit (state_text (sc_state c))) /\
  field v "status" = match sc_status c with Some s => VStr (lit (status_text s)) | None => VUndef end /\
  field v "message" = match sc_message c with Some s => VStr s | None => VUndef end /\
  field v "error" = match sc_error c with Some s => VStr s | None => VUndef end.
Proof.
  cbv zeta. unfold call_json. split_and!; read_field; try done.
  - by destruct (sc_status c), (sc_message c), (sc_error c).
  - by destruct (sc_message c), (sc_error c).
  - by destruct (sc_error c).
Qed.

Lemma validateCall_json c x : validateCall (call_json c) = Some x -> x = c.
Proof.
  unfold validateCall. destruct (call_fields c) as (-> & -> & -> & -> & -> & -> & ->).
  destruct (isRecord _); [|done].
  destruct (boundedId (VStr (sc_callId c))) eqn:E1; [cbn [mbind option_bind] | done]. apply boundedId_Some in E1.
  destruct (boundedId (VStr (sc_requestId c))) eqn:E2; [cbn [mbind option_bind] | done]. apply boundedId_Some in E2.
  destruct (boundedId (VStr (sc_commandId c))) eqn:E3; [cbn [mbind option_bind] | done]. apply boundedId_Some in E3.
  assert (isOneOf (VStr (lit (state_text (sc_state c)))) [("executing", CallExecuting); ("terminal", CallTerminal)]%string
          = Some (sc_state c)) as -> by (destruct (sc_state c); vm_compute; reflexivity).
  assert (match match sc_status c with Some s => VStr (lit (status_text s)) | None => VUndef end with
          | VUndef => Some None | x => Some <$> isStatus x end = Some (sc_status c)) as ->
    by (destruct (sc_status c) as [[]|]; vm_compute; reflexivity).
  cbn [mbind option_bind]. destruct (_ && _); [done |].
  destruct (optionalBoundedString (match sc_message c with Some s => VStr s | None => VUndef end)) eqn:E4; [cbn [mbind option_bind] | done].
  apply optionalBoundedString_Some in E4.
  destruct (optionalBoundedString (match sc_error c with Some s => VStr s | None => VUndef end)) eqn:E5; [cbn [mbind option_bind] | done].
  apply optionalBoundedString_Some in E5. intros [= <-]. subst. by destruct c.
Qed.

Lemma validateCalls_json l x : mapM validateCall (map call_json l) = Some x -> x = l.
Proof.
  revert x. induction l as [|c l IH]; intros x; [by intros [= <-] |]. cbn [map mapM].
  destruct (validateCall (call_json c)) as [y|] eqn:E; [|by intros H]. cbn [mbind option_bind].
  destruct (mapM validateCall (map call_json l)) as [ys|] eqn:El; [|by intros H]. cbn [mbind option_bind].
  intros [= <-]. apply validateCall_json in E as ->. by rewrite (IH ys eq_refl).
Qed.

(** What the validation lets through is the record that was written. *)
Lemma validateRecord_json r doc x : validateRecord (record_json r) doc = Some x -> x = r.
Proof.
  unfold validateRecord, record_json. read_field. destruct (_ && _); [|done].
  cbn [as_str mbind option_bind]. destruct (negb (str_eqb _ doc)); [done |].
  destruct (boundedId (VStr (rec_runId r))) eqn:E1; [cbn [mbind option_bind] | done]. apply boundedId_Some in E1.
  destruct (boundedId (VStr (rec_requestId r))) eqn:E2; [cbn [mbind option_bind] | done]. apply boundedId_Some in E2.
  destruct (512 <? _); [done |].
  destruct (as_safe_int _) as [z|] eqn:E3; [cbn [mbind option_bind] | done].
  apply as_safe_int_Some in E3 as [[= <-] _].
  destruct (negb _); [done |].
  destruct (MAX_CALLS <? len (map call_json (rec_calls r))); [done |].
  destruct (mapM validateCall (map call_json (rec_calls r))) eqn:E4; [cbn [mbind option_bind] | done].
  apply validateCalls_json in E4. intros [= <-]. subst. by destruct r.
Qed.

(** ** The tab over its reloads *)

(** The command call an event carries. *)
Definition call_of (e : envelope) : option jstring :=
  match e_event e with ToolCall callId _ _ _ _ _ => Some callId | _ => None end.

Definition launchable (getCommand : jstring -> option (bool * CommandRisk)) (e : envelope) (id : jstring) : Prop :=
  exists commandId name arguments effect durability,
    e_event e = ToolCall id commandId name arguments effect durability /\
    contract_ok getCommand commandId name effect durability = true.

Section World.
Context (getCommand : jstring -> option (bool * CommandRisk)).
Context (log : list envelope).
Hypothesis log_sorted : StronglySorted Z.lt (map (fun e => event_number (e_id e)) log).
Hypothesis log_numeric : Forall (fun e => numeric (e_id e) = true) log.
Hypothesis calls_distinct : NoDup (omap call_of log).

(** The tab: the consumer the page runs, if any, its storage, the calls launched
    so far over all reloads, and the response the consumer reads. *)
Record World := {
  w_consumer : option Consumer;
  w_store : option jsval;
  w_launched : list jstring;
  w_sent : list item;
  w_received : jstring
}.

(** What the server sends, as in [AgentStream.wired_step]. *)
Definition served (e : tab_event) (k : Consumer) (its its' : list item) (text text' : jstring) : Prop :=
  match e with
  | TStream (Response r) =>
      Forall item_ok its' /\ omap carries its' `prefix_of` beyond (after (k_stream k)) log /\ text' = []
  | TStream (Chunk t _) => its' = its /\ text' = text ++ t /\ text' `prefix_of` render its
  | _ => its' = its /\ text' = text
  end.

Inductive world_step (w : World) : World -> Prop :=
| y_event refuse requestId e k t its text :
    w_consumer w = Some k ->
    tab_step getCommand refuse requestId e
      {| t_consumer := k; t_store := w_store w; t_launched := w_launched w |} = Some t ->
    served e k (w_sent w) its (w_received w) text ->
    world_step w {| w_consumer := Some (t_consumer t); w_store := t_store t; w_launched := t_launched t;
                    w_sent := its; w_received := text |}
| y_reload :
    world_step w {| w_consumer := None; w_store := w_store w; w_launched := w_launched w;
                    w_sent := []; w_received := [] |}
| y_resume documentId now r store :
    match w_consumer w with Some k => exists x, state (k_stream k) = Finished x | None => True end ->
    readActiveHostedRun documentId (w_store w) now = (r, store) ->
    world_step w {| w_consumer := consumeHostedRun <$> r; w_store := store; w_launched := w_launched w;
                    w_sent := []; w_received := [] |}.

Inductive world_steps (w : World) : World -> Prop :=
| ys_refl : world_steps w w
| ys_snoc v u : world_steps w v -> world_step v u -> world_steps w u.

(** A run just created: its record is written and nothing is launched. *)
Definition begun (r : RunRecord) : World :=
  {| w_consumer := Some (consumeHostedRun r); w_store := writeActiveHostedRun r; w_launched := [];
     w_sent := []; w_received := [] |}.

(** ** What the record covers *)

Definition behind (launched : list jstring) (cursor : jstring) : Prop :=
  forall id e, id ∈ launched -> e ∈ beyond cursor log -> call_of e <> Some id.

(** A launched call is behind the record's cursor, or is the very next event and
    is in the record. *)
Definition covers (r : RunRecord) (launched : list jstring) : Prop :=
  forall id, id ∈ launched ->
    (forall e, e ∈ beyond (rec_lastEventId r) log -> call_of e <> Some id) \/
    (exists e l, beyond (rec_lastEventId r) log = e :: l /\ call_of e = Some id /\ id ∈ map sc_callId (rec_calls r)).

Definition store_ok (t : Tab) : Prop :=
  match t_store t with
  | None => True
  | Some v => exists r, v = record_json (bounded r) /\ covers (bounded r) (t_launched t)
  end.

Lemma behind_covers r launched : behind launched (rec_lastEventId r) -> covers r launched.
Proof. intros H id Hid. left. intros e. by apply H. Qed.

(** Two events of the record with the same call are the same event. *)
Lemma call_unique c e l id x :
  beyond c log = e :: l -> call_of e = Some id -> x ∈ l -> call_of x <> Some id.
Proof.
  intros E He Hx Hxi.
  assert (forall l' k', NoDup (omap call_of l') -> List.filter k' l' = e :: l -> False) as H; [|by eapply H].
  clear calls_distinct log_sorted log_numeric. intros l' k' Hnd. revert Hnd. clear E. revert e l He Hx.
  induction l' as [|y l' IH]; intros e l He Hx Hnd; [done |]. cbn [List.filter].
  destruct (k' y).
  - intros [= -> E]. cbn [omap list_omap] in Hnd. rewrite He in Hnd. apply NoDup_cons in Hnd as [Hni _].
    apply Hni. apply list_elem_of_omap. exists x. split; [|done].
    rewrite <- E in Hx. apply list_elem_of_In, List.filter_In in Hx as [Hx _]. by apply list_elem_of_In.
  - apply IH; [done..|]. cbn [omap list_omap] in Hnd. destruct (call_of y); [by apply NoDup_cons in Hnd as [_ ?] | done].
Qed.

(** Past the event in hand nothing is launched, if the record covers it. *)
Lemma covers_behind r launched e :
  covers r launched -> beyond (rec_lastEventId r) log = e :: beyond (e_id e) log -> behind launched (e_id e).
Proof.
  intros Hc E id x Hid Hx. destruct (Hc id Hid) as [H | (y & l & E' & Hy & _)].
  - apply H. rewrite E. by right.
  - rewrite E in E'. injection E' as <- <-. by eapply call_unique.
Qed.

(** ** The invariant *)

Record core (t : Tab) (its : list item) (text : jstring) : Prop := {
  c_nodup : NoDup (t_launched t);
  c_known : forall id, id ∈ t_launched t -> exists e, e ∈ log /\ launchable getCommand e id;
  c_store : store_ok t;
  c_reads : reads log {| page := k_stream (t_consumer t); sent := its; received := text |};
  c_forgot : k_ref (t_consumer t) = None -> t_store t = None;
  c_run : forall r, k_ref (t_consumer t) = Some r -> rec_runId r = k_runId (t_consumer t)
}.

(** An event is in the caller's hands. *)
Record hand (e : envelope) (t : Tab) : Prop := {
  h_after : after (k_stream (t_consumer t)) = e_id e;
  h_state : exists p, state (k_stream (t_consumer t)) = Handling (e_event e) p;
  h_next : exists c, beyond c log = e :: beyond (e_id e) log;
  h_behind : behind (t_launched t) (e_id e);
  h_forgot : k_ref (t_consumer t) = None -> aborted (k_stream (t_consumer t)) = true;
  h_ref : forall r, k_ref (t_consumer t) = Some r ->
    beyond (rec_lastEventId r) log = e :: beyond (e_id e) log /\ covers r (t_launched t)
}.

(** The handler returned or threw, and the stream has not resumed. *)
Record returned (thrown : option Z) (t : Tab) : Prop := {
  r_state : exists ev p, state (k_stream (t_consumer t)) = Handling ev p /\
    (k_ref (t_consumer t) = None -> thrown = None ->
     aborted (k_stream (t_consumer t)) = true \/ terminal_event ev = true);
  r_behind : behind (t_launched t) (after (k_stream (t_consumer t)));
  r_ref : forall r, thrown = None -> k_ref (t_consumer t) = Some r ->
    rec_lastEventId r = after (k_stream (t_consumer t))
}.

Record idle (t : Tab) : Prop := {
  i_state : forall ev p, state (k_stream (t_consumer t)) <> Handling ev p;
  i_ref : match k_ref (t_consumer t) with
          | Some r => covers r (t_launched t) /\ rec_lastEventId r = after (k_stream (t_consumer t)) \/
                      exists x, state (k_stream (t_consumer t)) = Finished x
          | None => aborted (k_stream (t_consumer t)) = true \/
                    exists x, state (k_stream (t_consumer t)) = Finished x
          end
}.

Definition handler_ok (t : Tab) : Prop :=
  match k_handler (t_consumer t) with
  | Idle => idle t
  | Executing call e => hand e t /\ call_of e = Some (sc_callId call)
  | Submitting e => hand e t
  | Returned thrown => returned thrown t
  end.

Definition tab_ok (t : Tab) (its : list item) (text : jstring) : Prop := core t its text /\ handler_ok t.

Lemma core_handler h t its text : core t its text -> core (with_handler h t) its text.
Proof. by intros []. Qed.

Lemma hand_handler h e t : hand e t -> hand e (with_handler h t).
Proof. by intros []. Qed.

Lemma hand_returned thrown e t : hand e t -> thrown <> None -> returned thrown (with_handler (Returned thrown) t).
Proof.
  intros [Ha (p & Hs) _ Hb Hf Hr] Ht. constructor; [|cbn; by rewrite Ha | done].
  exists (e_event e), p. split; [exact Hs | done].
Qed.

Lemma progress_ok refuse e t its text :
  core t its text -> hand e t -> tab_ok (record_progress refuse e t) its text.
Proof.
  intros Hc Hh. pose proof Hc as [Hnd Hk Hst Hrd Hfg Hrun]. pose proof Hh as [Ha (p & Hs) _ Hb Hf Hr].
  unfold record_progress. destruct (terminal_event (e_event e)) eqn:Et.
  { split; [by constructor |]. constructor; [|cbn; by rewrite Ha | done].
    exists (e_event e), p. split; [exact Hs | by right]. }
  destruct (k_ref (t_consumer t)) as [current|] eqn:Er.
  - rewrite (proj2 (str_eqb_eq _ _) (Hrun current eq_refl)).
    set (next := current <| rec_lastEventId := e_id e |>).
    assert (rec_lastEventId next = e_id e) as Hnext by done.
    split.
    + constructor; try done; [|by intros r [= <-]; apply (Hrun current)].
      unfold store_ok, store_run. cbn. destruct refuse; [exact Hst |].
      exists next. split; [done |]. by apply behind_covers.
    + constructor.
      * exists (e_event e), p. split; [exact Hs | done].
      * cbn. by rewrite Ha.
      * cbn. intros r _ [= <-]. by rewrite Ha.
  - split; [by apply core_handler |]. constructor.
    + exists (e_event e), p. split; [exact Hs |]. intros _ _. left. by apply Hf.
    + cbn. by rewrite Ha.
    + intros r _ Hr'. cbn in Hr'. congruence.
Qed.

Lemma last_kept {A} (l : list A) c : c ∈ slice_from (l ++ [c]) (- MAX_CALLS).
Proof.
  pose proof (len_nonneg l). unfold slice_from, slice. set (n := len (l ++ [c])).
  assert (n = len l + 1) as Hn by (unfold n; by rewrite len_app).
  rewrite (rel_index_in n n) by lia.
  assert (rel_index n (- MAX_CALLS) = Z.max (n - 8) 0) as -> by (unfold rel_index, MAX_CALLS; zdecide; lia).
  rewrite take_ge by (rewrite length_drop, length_app; unfold len in *; cbn [length]; lia).
  rewrite drop_app_le by (unfold len in *; lia). apply elem_of_app. right. by left.
Qed.

Definition call_ids (r : RunRecord) : list jstring := map sc_callId (rec_calls r).

Definition updated (call : StoredCall) (r : RunRecord) : RunRecord :=
  r <| rec_calls := without_call (sc_callId call) (rec_calls r) ++ [call] |>.

Lemma updated_ids call r id : id ∈ call_ids r \/ id = sc_callId call -> id ∈ call_ids (updated call r).
Proof.
  unfold call_ids, updated. cbn. rewrite map_app, elem_of_app. intros H.
  destruct (decide (id = sc_callId call)) as [-> | Hne]; [right; by left |]. left.
  destruct H as [H | ->]; [|done]. apply list_elem_of_fmap in H as (c & -> & Hc).
  apply list_elem_of_fmap. exists c. split; [done |]. apply list_elem_of_In, List.filter_In.
  split; [by apply list_elem_of_In |]. by rewrite str_eqb_neq.
Qed.

Lemma updated_bounded_id call r : sc_callId call ∈ call_ids (bounded (updated call r)).
Proof.
  unfold call_ids, bounded, updated. cbn. rewrite map_map. apply list_elem_of_fmap. exists call.
  split; [done |]. apply last_kept.
Qed.

(** Updating the call of the event in hand keeps what the record covers, and
    covers that call itself. *)
Lemma updated_covers call r launched e :
  covers r launched -> beyond (rec_lastEventId r) log = e :: beyond (e_id e) log ->
  call_of e = Some (sc_callId call) ->
  covers (updated call r) (launched ++ [sc_callId call]) /\
  covers (bounded (updated call r)) (launched ++ [sc_callId call]).
Proof.
  intros Hc E He.
  assert (forall r', rec_lastEventId r' = rec_lastEventId r -> sc_callId call ∈ call_ids r' ->
    covers r' (launched ++ [sc_callId call])) as H; [|split; apply H; try done].
  - intros r' Hl Hin id [Hid | ->%list_elem_of_singleton]%elem_of_app.
    + rewrite Hl. destruct (Hc id Hid) as [H | (x & l & E' & Hx & _)]; [by left | right].
      exists x, l. split; [done |]. rewrite E in E'. injection E' as <- _. split; [done |].
      rewrite He in Hx. by injection Hx as <-.
    + right. exists e, (beyond (e_id e) log). by rewrite Hl.
  - apply updated_ids. by right.
  - apply updated_bounded_id.
Qed.

Lemma covers_fewer r a b : covers r (a ++ b) -> covers r a.
Proof. intros H id Hid. apply H. apply elem_of_app. by left. Qed.

Definition launch (id : jstring) (t : Tab) : Tab :=
  {| t_consumer := t_consumer t; t_store := t_store t; t_launched := t_launched t ++ [id] |}.

Lemma hand_log e t : hand e t -> e ∈ log.
Proof.
  intros [_ _ (c & E) _ _ _]. assert (e ∈ beyond c log) as H by (rewrite E; left).
  apply list_elem_of_In, List.filter_In in H as [H _]. by apply list_elem_of_In.
Qed.

Lemma stored_call_ok refuse call e t its text :
  core t its text -> hand e t -> call_of e = Some (sc_callId call) ->
  core (updateStoredCall refuse call t).1 its text /\ hand e (updateStoredCall refuse call t).1 /\
  t_launched (updateStoredCall refuse call t).1 = t_launched t.
Proof.
  intros Hc Hh He. unfold updateStoredCall. destruct (k_ref (t_consumer t)) as [r|] eqn:Er; [|done].
  pose proof Hc as [Hnd Hk Hst Hrd Hfg Hrun]. pose proof Hh as [Ha Hs Hn Hb Hf Hr].
  destruct (Hr r Er) as [E Hcov]. destruct (updated_covers call r _ e Hcov E He) as [Hu Hub].
  split; [|split; [|done]].
  - constructor; try done; [|by intros x [= <-]; apply (Hrun r)].
    unfold store_ok, store_run. cbn. destruct refuse; [exact Hst |].
    exists (updated call r). split; [done |]. by eapply covers_fewer.
  - constructor; try done. cbn. intros x [= <-]. split; [exact E |]. by eapply covers_fewer.
Qed.

(** A launch: the record, if there is one, already has the call. *)
Lemma launch_ok call e t its text :
  core t its text -> hand e t -> call_of e = Some (sc_callId call) ->
  sc_callId call ∉ t_launched t -> launchable getCommand e (sc_callId call) ->
  core (launch (sc_callId call) (updateStoredCall false call t).1) its text /\
  hand e (launch (sc_callId call) (updateStoredCall false call t).1).
Proof.
  intros Hc Hh He Hnew Hl. pose proof (hand_log _ _ Hh) as Hlog.
  pose proof (stored_call_ok false call e t its text Hc Hh He) as (Hc' & Hh' & El).
  assert (behind (t_launched t ++ [sc_callId call]) (e_id e)) as Hbehind.
  { destruct Hh as [_ _ (c & E) Hb _ _]. intros id x [Hid | ->%list_elem_of_singleton]%elem_of_app Hx.
    - by apply Hb.
    - by eapply call_unique. }
  assert (NoDup (t_launched t ++ [sc_callId call])) as Hnd.
  { destruct Hc as [Hnd _ _ _ _ _]. apply NoDup_app. split_and!; [done | | apply NoDup_singleton].
    intros x Hx ->%list_elem_of_singleton. done. }
  assert (forall id, id ∈ t_launched t ++ [sc_callId call] -> exists x, x ∈ log /\ launchable getCommand x id) as Hknown.
  { intros id [Hid | ->%list_elem_of_singleton]%elem_of_app; [by apply (c_known _ _ _ Hc) | by exists e]. }
  unfold launch. rewrite El. destruct (k_ref (t_consumer t)) as [r|] eqn:Er.
  - destruct (h_ref _ _ Hh r Er) as [E Hcov]. destruct (updated_covers call r _ e Hcov E He) as [Hu Hub].
    unfold updateStoredCall in *. rewrite Er in *. destruct Hc' as [_ _ _ Hrd Hfg Hrun], Hh' as [Ha Hs Hn _ Hf _].
    split; constructor; try done.
    + exists (updated call r). done.
    + cbn. intros x [= <-]. done.
  - unfold updateStoredCall in *. rewrite Er in *. destruct Hc' as [_ _ _ Hrd Hfg Hrun], Hh' as [Ha Hs Hn _ Hf _].
    split; constructor; try done; cbn [fst t_store t_consumer] in *.
    + unfold store_ok. cbn [t_store]. by rewrite (Hfg Er).
    + intros x Hx. congruence.
Qed.

Lemma submit_ok refuse call e t its text :
  core t its text -> hand e t -> tab_ok (submit_receipt refuse call e t) its text.
Proof.
  intros Hc Hh. unfold submit_receipt. destruct (_ || _); [by apply progress_ok |].
  split; [by apply core_handler |]. by apply hand_handler.
Qed.

Lemma thrown_ok z e t its text :
  core t its text -> hand e t -> tab_ok (with_handler (Returned (Some z)) t) its text.
Proof. intros Hc Hh. split; [by apply core_handler |]. by eapply hand_returned. Qed.

Lemma store_terminal_ok refuse call e t its text :
  core t its text -> hand e t -> call_of e = Some (sc_callId call) ->
  tab_ok (store_terminal refuse call e t) its text.
Proof.
  intros Hc Hh He. destruct (stored_call_ok refuse call e t its text Hc Hh He) as (Hc' & Hh' & _).
  unfold store_terminal. destruct (updateStoredCall refuse call t) as [t' ok]. cbn [fst] in *.
  destruct ok; [by apply submit_ok | by eapply thrown_ok].
Qed.

Lemma find_none id (l : list StoredCall) :
  List.find (fun c => str_eqb (sc_callId c) id) l = None -> id ∉ map sc_callId l.
Proof.
  intros H (c & -> & Hc)%list_elem_of_fmap. apply list_elem_of_In in Hc.
  pose proof (List.find_none _ _ H c Hc) as E. cbn beta in E. by rewrite str_eqb_refl in E.
Qed.

Lemma tool_ok refuse requestId e callId commandId name arguments effect durability t its text :
  core t its text -> hand e t -> e_event e = ToolCall callId commandId name arguments effect durability ->
  (k_ref (t_consumer t) = None -> callId ∉ t_launched t) ->
  tab_ok (handleHostedTool getCommand refuse requestId e callId commandId name effect durability t) its text.
Proof.
  intros Hc Hh Ee Hnew. assert (call_of e = Some callId) as He by (unfold call_of; by rewrite Ee).
  unfold handleHostedTool. destruct (r ← k_ref (t_consumer t); _) as [call|] eqn:Ef.
  - destruct (k_ref (t_consumer t)) as [r|]; [cbn [mbind option_bind] in Ef | done].
    apply List.find_some in Ef as [_ Eid]. apply str_eqb_eq in Eid.
    destruct (bool_decide _); [apply store_terminal_ok; [done..| by cbn; rewrite Eid] | by apply submit_ok].
  - assert (callId ∉ t_launched t) as Hni.
    { destruct (k_ref (t_consumer t)) as [r|] eqn:Er; [|by apply Hnew]. cbn [mbind option_bind] in Ef.
      apply find_none in Ef. intros Hin. destruct (h_ref _ _ Hh r Er) as [E Hcov].
      destruct (Hcov callId Hin) as [H | (x & l & _ & _ & H)]; [|done]. apply (H e); [rewrite E; by left | done]. }
    destruct (contract_ok _ _ _ _ _) eqn:Ec; cbn [negb]; [|by apply store_terminal_ok].
    set (call := {| sc_callId := callId; sc_requestId := requestId; sc_commandId := commandId;
                    sc_state := CallExecuting; sc_status := None; sc_message := None; sc_error := None |}).
    destruct refuse.
    + destruct (stored_call_ok true call e t its text Hc Hh He) as (Hc' & Hh' & _).
      destruct (updateStoredCall true call t) as [t' ok] eqn:Eu. cbn [fst] in *.
      destruct ok; [|by eapply thrown_ok].
      unfold updateStoredCall in Eu. destruct (k_ref (t_consumer t)) as [r|] eqn:Er; [done |].
      injection Eu as <-. pose proof (launch_ok call e t its text Hc Hh He Hni) as [Hl1 Hl2].
      { by exists commandId, name, arguments, effect, durability. }
      unfold updateStoredCall in Hl1, Hl2. rewrite Er in Hl1, Hl2.
      split; [exact (core_handler (Executing call e) _ _ _ Hl1) | split; [exact (hand_handler (Executing call e) _ _ Hl2) | done]].
    + pose proof (launch_ok call e t its text Hc Hh He Hni) as [Hl1 Hl2].
      { by exists commandId, name, arguments, effect, durability. }
      destruct (updateStoredCall false call t) as [t' ok] eqn:Eu. cbn [fst] in *.
      assert (ok = true) as -> by (unfold updateStoredCall in Eu; destruct (k_ref (t_consumer t)); by injection Eu).
      split; [exact (core_handler (Executing call e) _ _ _ Hl1) | split; [exact (hand_handler (Executing call e) _ _ Hl2) | done]].
Qed.

Lemma onEvent_ok refuse requestId e t its text :
  core t its text -> hand e t ->
  (forall id, k_ref (t_consumer t) = None -> call_of e = Some id -> id ∉ t_launched t) ->
  tab_ok (onEvent getCommand refuse requestId e t) its text.
Proof.
  intros Hc Hh Hnew. unfold onEvent. destruct (e_event e) as [| | callId commandId name arguments effect durability | | | |] eqn:Ee;
    try (by apply progress_ok).
  - destruct (_ || _); [by eapply thrown_ok | by apply progress_ok].
  - eapply tool_ok; [done..|]. intros Hn. apply Hnew; [done |]. unfold call_of. by rewrite Ee.
Qed.

(** ** A step of the consumer *)

Lemma wired_served te k ev s acts its its' text text' :
  AgentStream.step ev (k_stream k) = Some (s, acts) -> served te k its its' text text' ->
  te = TStream ev \/ (forall r, ev <> Response r) /\ (forall t d, ev <> Chunk t d) /\ (te = TResume \/ te = TStop) ->
  reads log {| page := k_stream k; sent := its; received := text |} ->
  beyond (after (k_stream k)) log = delivered acts ++ beyond (after s) log /\
  reads log {| page := s; sent := its'; received := text' |}.
Proof.
  intros Hs Hsv He Hrd. set (w := {| page := k_stream k; sent := its; received := text |}).
  assert (wired_step log w acts {| page := s; sent := its'; received := text' |}) as Hw.
  { destruct He as [-> | (Hr & Hc & [-> | ->])];
      [| by destruct Hsv as [-> ->]; by apply (w_other log w ev) | by destruct Hsv as [-> ->]; by apply (w_other log w ev)].
    destruct ev as [|r|t d| |thrown|]; cbn [served] in Hsv;
      [destruct Hsv as [-> ->]; by apply (w_other log w Abort)
      |destruct Hsv as (Hok & Hl & ->); by apply (w_response log w r)
      |destruct Hsv as (-> & -> & Hp); by apply (w_chunk log w t d)
      |destruct Hsv as [-> ->]; by apply (w_other log w ReadFails)
      |destruct Hsv as [-> ->]; by apply (w_other log w (Handled thrown))
      |destruct Hsv as [-> ->]; by apply (w_other log w Elapsed)]. }
  assert (follows log (after (k_stream k)) [] w) as Hf by (split; [done | exact Hrd]).
  exact (follows_step log log_sorted log_numeric (after (k_stream k)) [] w acts _ Hf Hw).
Qed.

Lemma behind_next launched c e : behind launched c -> beyond c log = e :: beyond (e_id e) log -> behind launched (e_id e).
Proof. intros H E id x Hid Hx. apply H; [done |]. rewrite E. by right. Qed.

Lemma forget_idle t its text :
  core t its text -> k_handler (t_consumer t) = Idle ->
  (forall ev p, state (k_stream (t_consumer t)) <> Handling ev p) ->
  aborted (k_stream (t_consumer t)) = true \/ (exists x, state (k_stream (t_consumer t)) = Finished x) ->
  tab_ok (forget_run t) its text.
Proof.
  intros [Hnd Hk Hst Hrd Hfg Hrun] Hi Hh Hq. split; [by constructor |].
  unfold handler_ok, forget_run. cbn. rewrite Hi. by constructor.
Qed.

Lemma consume_end_ok t its text :
  core t its text -> k_handler (t_consumer t) = Idle -> idle t -> tab_ok (consume_end t) its text.
Proof.
  intros Hc Hi Hid. unfold consume_end.
  assert (tab_ok t its text) as Ht by (split; [done | unfold handler_ok; by rewrite Hi]).
  destruct (state (k_stream (t_consumer t))) as [| | | |[|e]] eqn:Es; try done.
  destruct (aborted _); [done |]. apply forget_idle; try done; [by rewrite Es | right; by eexists].
Qed.

Definition with_stream (s : Stream) (t : Tab) : Tab :=
  {| t_consumer := (t_consumer t) <| k_stream := s |>; t_store := t_store t; t_launched := t_launched t |}.

Lemma core_stream s t its text its' text' :
  core t its text -> reads log {| page := s; sent := its'; received := text' |} -> core (with_stream s t) its' text'.
Proof. by intros []. Qed.

(** The stream goes on, from a record that covers what was launched and stands at
    the stream's cursor. *)
Definition ready (t : Tab) : Prop :=
  match k_ref (t_consumer t) with
  | Some r => covers r (t_launched t) /\ rec_lastEventId r = after (k_stream (t_consumer t))
  | None => aborted (k_stream (t_consumer t)) = true
  end.

Lemma after_stream_ok refuse requestId ev s acts t its text its' text' :
  core t its text -> k_handler (t_consumer t) = Idle ->
  AgentStream.step ev (k_stream (t_consumer t)) = Some (s, acts) -> ev <> Abort ->
  beyond (after (k_stream (t_consumer t))) log = delivered acts ++ beyond (after s) log ->
  reads log {| page := s; sent := its'; received := text' |} ->
  (exists x, state s = Finished x /\ delivered acts = []) \/ ready t ->
  (k_ref (t_consumer t) = None -> delivered acts <> [] -> behind (t_launched t) (after (k_stream (t_consumer t)))) ->
  tab_ok (after_stream getCommand refuse requestId s acts t) its' text'.
Proof.
  intros Hc Hi Hs Hne E Hrd Hready Hbehind. pose proof (core_stream s t its text its' text' Hc Hrd) as Hc'.
  unfold after_stream. change {| t_consumer := _; t_store := _; t_launched := _ |} with (with_stream s t).
  destruct (step_outcome _ _ _ Hs) as [[? _] | [Ho _]]; [done |].
  pose proof (step_aborted _ _ _ Hs Hne) as Hab. cbn [fst] in Hab.
  assert (forall ev p, (delivered acts = [] -> state s <> Handling ev p)) as Hquiet.
  { intros ev' p Hd. inversion Ho as [s' Ha Hst | s' Ha Hst | s' ms Ha Hst | s' e p' Hf Ha Hst]; subst;
      [by apply Hst | congruence | congruence | done]. }
  destruct (delivered acts) as [|e l] eqn:Ed.
  - apply consume_end_ok; [done.. |]. constructor; [by intros; apply Hquiet |].
    cbn. destruct Hready as [(x & Hx & _) | Hready].
    { destruct (k_ref (t_consumer t)); right; by exists x. }
    unfold ready in Hready. assert (after s = after (k_stream (t_consumer t))) as Ha'.
    { inversion Ho as [s' Ha Hst | s' Ha Hst | s' ms Ha Hst | s' e p' Hf Ha Hst]; subst; done. }
    destruct (k_ref (t_consumer t)); [left; by rewrite Ha' | left; by rewrite Hab].
  - destruct Hready as [(x & _ & Hx) | Hready]; [done |].
    inversion Ho as [s' Ha Hst | s' Ha Hst | s' ms Ha Hst | s' x p' Hf Ha Hst]; subst; try done.
    injection Ed as -> <-. cbn [app] in E. rewrite Ha in E.
    assert (behind (t_launched t) (e_id e)) as Hb.
    { destruct (k_ref (t_consumer t)) as [r|] eqn:Er; unfold ready in Hready; rewrite Er in Hready.
      - destruct Hready as [Hcov Hl]. eapply covers_behind; [exact Hcov |]. by rewrite Hl.
      - eapply behind_next; [by apply Hbehind | exact E]. }
    apply onEvent_ok; [done | |].
    + constructor; try done; cbn.
      * by exists p'.
      * by eexists.
      * intros Hn. unfold ready in Hready. rewrite Hn in Hready. by rewrite Hab.
      * intros r Er. unfold ready in Hready. rewrite Er in Hready. destruct Hready as [Hcov Hl]. by rewrite Hl.
    + cbn. intros id Hn He Hin. eapply (Hbehind Hn); [done | exact Hin | rewrite E; by left | exact He].
Qed.

Lemma stop_ok t its text :
  tab_ok t its text -> tab_ok (with_stream ((k_stream (t_consumer t)) <| aborted := true |>) t) its text.
Proof.
  intros [Hc Hh]. split; [apply (core_stream _ t its text); [done | apply (c_reads _ _ _ Hc)] |].
  unfold handler_ok, with_stream in *. cbn. destruct (k_handler (t_consumer t)) as [|call e|e|thrown].
  - destruct Hh as [Hi Href]. constructor; [done |]. cbn. destruct (k_ref (t_consumer t)); [done | by left].
  - destruct Hh as [[] ?]. by constructor.
  - by destruct Hh.
  - destruct Hh as [(ev & p & Ep & Ha) Hb Href]. constructor; [|done..]. exists ev, p. split; [done |]. by left.
Qed.

Lemma forget_ok t its text :
  tab_ok t its text -> aborted (k_stream (t_consumer t)) = true -> tab_ok (forget_run t) its text.
Proof.
  intros [[Hnd Hk Hst Hrd Hfg Hrun] Hh] Ea. split; [by constructor |].
  unfold handler_ok, forget_run in *. cbn. destruct (k_handler (t_consumer t)) as [|call e|e|thrown].
  - destruct Hh as [Hi Href]. constructor; [done |]. by left.
  - destruct Hh as [[] ?]. by constructor.
  - by destruct Hh.
  - destruct Hh as [(ev & p & Ep & Ha) Hb Href]. constructor; [|done..]. exists ev, p. split; [done |]. by left.
Qed.

Lemma tab_step_ok refuse requestId te t t' its text its' text' :
  tab_ok t its text -> tab_step getCommand refuse requestId te t = Some t' ->
  served te (t_consumer t) its its' text text' -> tab_ok t' its' text'.
Proof.
  intros [Hc Hh] Hs Hsv. pose proof Hc as [Hnd Hk Hst Hrd Hfg Hrun].
  unfold tab_step in Hs. unfold handler_ok in Hh.
  assert (forall ev thrown, (te = TStream ev \/ te = TResume /\ ev = Handled thrown) -> forall s acts,
    AgentStream.step ev (k_stream (t_consumer t)) = Some (s, acts) ->
    beyond (after (k_stream (t_consumer t))) log = delivered acts ++ beyond (after s) log /\
    reads log {| page := s; sent := its'; received := text' |}) as Hw.
  { intros ev thrown Hte s acts Hstep.
    apply (wired_served te (t_consumer t) ev s acts its its' text text'); try done.
    destruct Hte as [-> | [-> ->]]; [by left | right]. split; [done |]. split; [done | by left]. }
  destruct te as [ev | | status message error | ok | |].
  - destruct (k_handler (t_consumer t)) eqn:Ek; [|by destruct ev..].
    assert (ev <> Abort) as Hne by (by intros ->).
    assert (mbind (M := option) (fun '(s, acts) => Some (after_stream getCommand refuse requestId s acts t))
              (AgentStream.step ev (k_stream (t_consumer t))) = Some t') as Hs' by (by destruct ev).
    clear Hs. destruct (AgentStream.step ev _) as [[s acts]|] eqn:Es; [|done]. injection Hs' as <-.
    destruct (Hw ev None (or_introl eq_refl) s acts Es) as [E Hr']. destruct Hh as [Hi Href].
    assert (forall x, state (k_stream (t_consumer t)) = Finished x -> False) as Hlive.
    { intros x Hx. unfold AgentStream.step in Es. rewrite Hx in Es. by destruct ev. }
    eapply after_stream_ok; try done.
    + right. unfold ready. destruct (k_ref (t_consumer t)).
      * destruct Href as [[? ?] | [x Hx]]; [done | by destruct (Hlive x)].
      * destruct Href as [? | [x Hx]]; [done | by destruct (Hlive x)].
    + intros Hn Hd. rewrite Hn in Href. destruct Href as [Ha | [x Hx]]; [|by destruct (Hlive x)].
      destruct Hd. by eapply aborted_silent.
  - destruct (k_handler (t_consumer t)) as [| | |thrown] eqn:Ek; try done.
    destruct (AgentStream.step _ _) as [[s acts]|] eqn:Es; [|done]. injection Hs as <-.
    destruct (Hw (Handled thrown) thrown (or_intror (conj eq_refl eq_refl)) s acts Es) as [E Hr'].
    destruct Hh as [(ev & p & Ep & Ha) Hb Href].
    eapply (after_stream_ok _ _ (Handled thrown) s acts (with_handler Idle t) its text); try done.
    pose proof Es as Es'. unfold AgentStream.step in Es'. rewrite Ep in Es'. injection Es' as Es'.
      unfold on_handled in Es'. destruct thrown as [z|].
      { left. unfold disconnected in Es'. destruct (aborted _); injection Es' as <- <-; by eexists. }
      destruct (terminal_event ev) eqn:Et; [left; injection Es' as <- <-; by eexists | right].
      unfold ready. cbn. destruct (k_ref (t_consumer t)) as [r|] eqn:Er.
      * pose proof (Href r eq_refl eq_refl) as El. split; [|done]. apply behind_covers. by rewrite El.
      * destruct (Ha eq_refl eq_refl) as [? | ?]; [done | congruence].
  - destruct (k_handler (t_consumer t)) as [|call e| |] eqn:Ek; try done. injection Hs as <-.
    destruct Hsv as [-> ->], Hh as [Hh He]. by apply store_terminal_ok.
  - destruct (k_handler (t_consumer t)) as [| |e|] eqn:Ek; try done. injection Hs as <-.
    destruct Hsv as [-> ->]. destruct ok; [by apply progress_ok | by eapply thrown_ok].
  - destruct (AgentStream.step Abort _) as [[s acts]|] eqn:Es; [|by destruct (k_handler _)].
    assert (t' = with_stream s t) as -> by (destruct (k_handler _); by injection Hs).
    assert (s = (k_stream (t_consumer t)) <| aborted := true |>) as ->.
    { unfold AgentStream.step in Es. destruct (state _); first [done | by injection Es as <- <-]. }
    destruct Hsv as [-> ->]. by apply stop_ok.
  - destruct (aborted _) eqn:Ea; [|by destruct (k_handler _)].
    assert (t' = forget_run t) as -> by (destruct (k_handler _); by injection Hs).
    destruct Hsv as [-> ->]. by apply forget_ok.
Qed.

(** ** The tab over its reloads *)

Definition world_ok (w : World) : Prop :=
  match w_consumer w with
  | Some k => tab_ok {| t_consumer := k; t_store := w_store w; t_launched := w_launched w |} (w_sent w) (w_received w)
  | None =>
      NoDup (w_launched w) /\ (forall id, id ∈ w_launched w -> exists e, e ∈ log /\ launchable getCommand e id) /\
      match w_store w with
      | None => True
      | Some v => exists r, v = record_json (bounded r) /\ covers (bounded r) (w_launched w)
      end
  end.

Lemma world_kept w : world_ok w ->
  NoDup (w_launched w) /\ (forall id, id ∈ w_launched w -> exists e, e ∈ log /\ launchable getCommand e id) /\
  match w_store w with
  | None => True
  | Some v => exists r, v = record_json (bounded r) /\ covers (bounded r) (w_launched w)
  end.
Proof. unfold world_ok. destruct (w_consumer w); [|done]. by intros [[] _]. Qed.

Lemma consumer_ok r store launched :
  NoDup launched -> (forall id, id ∈ launched -> exists e, e ∈ log /\ launchable getCommand e id) ->
  match store with
  | None => True
  | Some v => exists r, v = record_json (bounded r) /\ covers (bounded r) launched
  end -> covers r launched ->
  tab_ok {| t_consumer := consumeHostedRun r; t_store := store; t_launched := launched |} [] [].
Proof.
  intros Hnd Hk Hst Hc. split.
  - constructor; cbn; try done. by intros x [= <-].
  - constructor; cbn; [done |]. by left.
Qed.

Lemma read_stored doc store now r store' :
  readActiveHostedRun doc store now = (r, store') ->
  (store' = None \/ store' = store) /\
  (forall x, r = Some x -> store' = store /\ exists v, store = Some v /\ validateRecord v doc = Some x).
Proof.
  unfold readActiveHostedRun. destruct store as [v|]; [|intros [= <- <-]; split; [by left | done]].
  destruct (validateRecord v doc) as [x|] eqn:E; [|intros [= <- <-]; split; [by left | done]].
  destruct (_ <=? now); intros [= <- <-]; (split; [by auto |]); [done |].
  intros y [= <-]. split; [done |]. by exists v.
Qed.

Lemma world_step_ok w u : world_ok w -> world_step w u -> world_ok u.
Proof.
  intros Hw Hs. pose proof (world_kept w Hw) as (Hnd & Hk & Hst).
  destruct Hs as [refuse requestId e k t its text Ek Hstep Hsv | | documentId now r store Hfree Hread].
  - unfold world_ok in *. rewrite Ek in Hw. cbn [w_consumer w_store w_launched w_sent w_received] in *.
    pose proof (tab_step_ok refuse requestId e _ t _ _ its text Hw Hstep Hsv) as Ht. by destruct t.
  - by split_and!.
  - apply read_stored in Hread as [Hsame Hvalid].
    assert (match store with
            | None => True
            | Some v => exists r, v = record_json (bounded r) /\ covers (bounded r) (w_launched w)
            end) as Hstore by (by destruct Hsame as [-> | ->]).
    destruct r as [r|]; [|by split_and!].
    destruct (Hvalid r eq_refl) as (-> & v & Ev & Hval). rewrite Ev in Hst. destruct Hst as (x & -> & Hcov).
    apply validateRecord_json in Hval as ->. by apply consumer_ok.
Qed.

Lemma world_steps_ok w u : world_ok w -> world_steps w u -> world_ok u.
Proof. intros Hw. induction 1; [done | by eapply world_step_ok]. Qed.

(** C3. A command a hosted run asks for is started at most once, over any number
    of reloads: whatever the network, the storage and the user do - the page can
    go away between any two awaits, a write to the storage can be refused, the
    run can be stopped or forgotten, the stream can reconnect and replay - no
    call is launched twice, and every call launched is one the run asked for, of
    a registered command under its own name and consequence. *)
Theorem launched_at_most_once r w :
  world_steps (begun r) w ->
  NoDup (w_launched w) /\
  (forall id, id ∈ w_launched w -> exists e, e ∈ log /\ launchable getCommand e id).
Proof.
  intros Hs. apply world_steps_ok in Hs; [destruct (world_kept w Hs) as (? & ? & _); done |].
  apply consumer_ok; [constructor | by intros id ?%not_elem_of_nil | |by intros id ?%not_elem_of_nil].
  exists r. split; [done |]. by intros id ?%not_elem_of_nil.
Qed.
End World.

(** ** A run over a reload *)

Definition bold_only (id : jstring) : option (bool * CommandRisk) :=
  if str_eqb id (lit "format.bold") then Some (true, WriteRisk) else None.

Definition started_record : RunRecord :=
  {| rec_documentId := lit "d"; rec_runId := lit "r"; rec_requestId := lit "q"; rec_eventsUrl := lit "/events";
     rec_expiresAtMs := 1000; rec_lastEventId := []; rec_calls := [] |}.

Definition two_frames : jstring := frame1 ++ [10; 10] ++ keepalive ++ [10; 10] ++ frame2 ++ [10; 10].
Definition items_after_1 : list item :=
  [{| frame := frame2; carries := Some event2 |}; {| frame := frame3; carries := Some event3 |}].

Lemma record_calls : NoDup (omap call_of record).
Proof. exact (NoDup_singleton (lit "c")). Qed.

(** The command is started, the page reloads before its receipt: the resumed run
    reads the same call again and does not start it. *)
Lemma launched_at_most_once_witness :
  exists w, world_steps bold_only record (begun started_record) w /\
    k_handler <$> w_consumer w = Some (Submitting event2) /\
    w_launched w = [lit "c"] /\ NoDup (w_launched w).
Proof.
  assert (exists w, world_steps bold_only record (begun started_record) w /\
    k_handler <$> w_consumer w = Some (Submitting event2) /\ w_launched w = [lit "c"]) as (w & Hw & Hh & Hl).
  { eexists. split; [|split; cycle 1].
    - eapply ys_snoc; [eapply ys_snoc; [eapply ys_snoc; [eapply ys_snoc; [eapply ys_snoc; [eapply ys_snoc;
        [eapply ys_snoc; [apply ys_refl|]|]|]|]|]|]|].
      + eapply (y_event bold_only record _ false (lit "q1") (TStream (Response (Value sse))) _ _ items []);
          [reflexivity | vm_compute; reflexivity |].
        split; [exact items_ok |]. split; [exists []; vm_compute; reflexivity | reflexivity].
      + eapply (y_event bold_only record _ false (lit "q1") (TStream (Chunk two_frames false)) _ _ items two_frames);
          [reflexivity | vm_compute; reflexivity |].
        split; [reflexivity |]. split; [reflexivity |]. exists (frame3 ++ [10; 10]). vm_compute. reflexivity.
      + eapply (y_event bold_only record _ false (lit "q1") TResume _ _ items two_frames);
          [reflexivity | vm_compute; reflexivity | split; reflexivity].
      + apply y_reload.
      + eapply (y_resume bold_only record _ (lit "d") 5); [exact I | vm_compute; reflexivity].
      + eapply (y_event bold_only record _ false (lit "q2") (TStream (Response (Value sse))) _ _ items_after_1 []);
          [vm_compute; reflexivity | vm_compute; reflexivity |].
        split; [exact (Forall_drop _ 2 _ items_ok) |]. split; [exists []; vm_compute; reflexivity | reflexivity].
      + eapply (y_event bold_only record _ false (lit "q2") (TStream (Chunk (frame2 ++ [10; 10]) false)) _ _ items_after_1
                 (frame2 ++ [10; 10])); [reflexivity | vm_compute; reflexivity |].
        split; [reflexivity |]. split; [reflexivity |]. exists (frame3 ++ [10; 10]). vm_compute. reflexivity.
    - vm_compute. reflexivity.
    - vm_compute. reflexivity. }
  exists w. split; [exact Hw |]. split; [exact Hh |]. split; [exact Hl |].
  exact (proj1 (launched_at_most_once bold_only record record_sorted record_numeric record_calls started_record w Hw)).
Defined.

(** ** Two consumers in one page *)

(** A record with two calls. *)
Definition frame2' := wire_frame "3" "tool.call"
  "{'callId':'e','commandId':'format.bold','name':'marks_format_bold','arguments':{},'effect':'write','durability':'document'}".

Definition tab_run (es : list tab_event) (t : Tab) : option Tab :=
  foldl (fun o e => t ← o; tab_step bold_only false (lit "q") e t) (Some t) es.

Definition bold_done : tab_event := TReceipt Succeeded None None.

(** What a page does that goes on with [k] over the storage of [t]. *)
Definition taken_over (k : Consumer) (t : Tab) : Tab :=
  {| t_consumer := k; t_store := t_store t; t_launched := t_launched t |}.

Definition resumed (t : Tab) : option Tab :=
  (fun r => taken_over (consumeHostedRun r) t) <$> (readActiveHostedRun (lit "d") (t_store t) 5).1.

(** The component is remounted while a command runs: the new one resumes the run
    and starts the next call. The command of the old one ends; the old handler
    writes its own record, which lacks that call, over the new one's. After the
    page reloads, the call is started again. *)
Definition remounted_launches : option (list jstring) :=
  old ← tab_run [TStream (Response (Value sse)); TStream (Chunk (frame1 ++ [10; 10] ++ frame2 ++ [10; 10]) false);
                 TResume; TStop]
          {| t_consumer := consumeHostedRun started_record; t_store := writeActiveHostedRun started_record; t_launched := [] |};
  new ← resumed old;
  new ← tab_run [TStream (Response (Value sse)); TStream (Chunk (frame2 ++ [10; 10]) false); TSubmitted true; TResume;
                 TStream (Chunk (frame2' ++ [10; 10]) false)] new;
  old ← tab_run [bold_done] (taken_over (t_consumer old) new);
  reloaded ← resumed old;
  last ← tab_run [TStream (Response (Value sse)); TStream (Chunk (frame2' ++ [10; 10]) false)] reloaded;
  Some (t_launched last).

Example remount_launches_twice : remounted_launches = Some [lit "c"; lit "e"; lit "e"].
Proof. vm_compute. reflexivity. Qed.

(** The user stops a run while its command executes; the next call, already in the
    buffer, is started all the same. *)
Example stopped_run_starts_a_command :
  option_map t_launched
    (tab_run [TStream (Response (Value sse));
              TStream (Chunk (frame1 ++ [10; 10] ++ frame2 ++ [10; 10] ++ frame2' ++ [10; 10]) false);
              TResume; TStop; TReceipt Cancelled None None; TResume]
       {| t_consumer := consumeHostedRun started_record; t_store := writeActiveHostedRun started_record; t_launched := [] |})
  = Some [lit "c"; lit "e"].
Proof. vm_compute. reflexivity. Qed.
